(* ===== verification/_CoqProject ===== *)
-Q . S2P
Prelude.v
GoStrings.v
GoNet.v
GoPath.v
Policy.v
BpfMap.v
Allowlist.v
DnsWire.v
DnsCache.v
TlsHello.v
TlsTrack.v
Decode.v
DefendMaps.v
Integrity.v
Telemetry.v
Config.v
Defend.v
ProcTree.v
RunStats.v
Events.v
Rings.v
RingAccounts.v
SafePath.v
AllowFiles.v
Loader.v
Lifecycle.v
LifecycleSafe.v
RunReady.v
Json.v
EventLog.v
Report.v
ReportReads.v
ReportText.v
Readiness.v
AgentPid.v
GoFlag.v
Commands.v
Gates.v
CommandRuns.v
Monitors.v
Compat.v
GoRegexp.v
GoURL.v
RedactURI.v
RedactSafe.v
RedactQuery.v
RedactedLog.v
PRComment.v
SummaryFile.v
CgroupHooks.v
Probe.v
LsmHooks.v
SkbBackstop.v
