(* ===== verification/Prelude.v ===== *)
(** * A verification library for coldstep

    coldstep is an egress agent for CI runners: eBPF programs observe (detect
    mode) or block (defend mode) the network connections of a job, and a Go
    agent compiles the allowlist, programs the kernel maps, reads the kernel's
    event rings and writes an event log.  This library models the Go code that
    decides what is allowed and what is reported, and proves what makes it
    correct.  Paths below are under src/.

    ** How the parts interact

    The configuration (internal/config) comes from the environment.  It gives
    a policy (internal/policy/policy.go): hosts, addresses and networks that
    are allowed, and networks that are ignored.  In defend mode the agent
    resolves the allowed domains (internal/policy/allowlist.go), adds the
    literals and the host's resolvers, and writes LPM tries that the cgroup and
    LSM hooks consult (internal/agent/agent_linux_policy_maps.go;
    bpf/defend_policy.inc).  A watch compares the tries with what they should
    hold and repairs them (agent_linux_integrity.go, defend_rearm.go).  A DNS
    cache, fed by sniffed responses (dns_wire.go, dns_cache.go), names the
    destinations of events; the owner map the kernel trusts is fed by the
    agent's own resolver (defend_dns_seed.go).  Ring-buffer records are decoded
    (agent_linux_decode.go), TLS and HTTP payloads are parsed
    (internal/telemetry), fragments are reassembled
    (agent_linux_tls_reassembler.go), and denials are deduplicated, counted and
    logged (agent_linux_state_defend.go, appendDenyFromRaw, readDenyRing).  One
    goroutine per ring reads records and updates the shared run statistics, the
    DNS cache, the KTLS tracker and the event log (agent_linux_ring_read.go,
    agent_linux_state.go).  The start command merges the allow inputs and files
    and hands them to the agent through its environment
    (internal/actioncli/allowlist_files.go, main.go); paths that the commands
    take are confined by internal/safepath.  [Run] (internal/agent/agent_linux.go)
    puts all of this together: it loads the BPF collections
    (internal/bpf/defend/loader.go), programs the maps, attaches the hooks,
    opens the rings and probes that the kernel denies (agent_run_load.go,
    agent_linux_bpf_start.go, agent_linux_probe.go), reports readiness, starts
    the readers and monitors (agent_run_state.go), and releases everything
    through a cleanup stack whose last action is the shutdown record.

    Every event is appended to the event log as a line of JSON, signed where a
    key is given (internal/telemetry).  The start command prepares and spawns
    the agent below sudo, finds its process and waits for its status file; the
    stop command ends it, reads the log into an aggregate
    (internal/report/markdown), writes and posts the reports and applies the
    gate on required event types; diff and assert-integrity are gates of their
    own (internal/actioncli).

    ** Files

    - Prelude: bytes, Go's panics (the monad [go]) and errors ([result]), index
      and slice expressions, integers of fixed width, tactics.
    - GoStrings, GoNet, GoPath: the parts of Go's standard library the program
      calls: UTF-8, strings, sorting; IP addresses, CIDRs, their parsers and
      printers; path/filepath.
    - BpfMap: the interface of a kernel map (cilium/ebpf), as classes of
      operations and laws, with two instances; Go's unordered [range].
    - Policy: policy.go, ignore.go, ipv6_bypass.go, egress_backstop.go and the
      address sets of allowlist.go.
    - Allowlist: compilation, re-resolution, owners and drift of allowlist.go
      and dns_drift.go; system_resolvers.go.
    - DnsWire: dns_wire.go.  DnsCache: dns_cache.go, defend_dns_seed.go.
    - TlsHello: tls_clienthello.go.  TlsTrack: agent_linux_tls_reassembler.go,
      agent_linux_ktls_tracker.go, quic_candidate.go.
    - Decode: agent_linux_decode.go and the wire sizes of
      agent_linux_state_sections.go.
    - DefendMaps: the plans, loaders and keysets of agent_linux_policy_maps.go
      and defend_rearm.go, [loadAllowedDomainsMap], and the kernel's decision of
      bpf/defend_policy.inc.  Integrity: the watch of agent_linux_integrity.go.
    - CgroupHooks: the four programs of bpf/trace_defend_cgroup.inc with their
      deny records, up to the line that the agent logs.  Probe: the dial loop of
      agent_linux_probe.go, and which denials end the probe.  LsmHooks,
      SkbBackstop: the hooks of bpf/trace_lsm_defend_lsm.inc and
      bpf/trace_defend_skb.inc.
    - Telemetry: sanitize.go, parsehttp.go, connect_result.go.
    - Config: internal/config, internal/cgroup/path_linux.go.
    - Defend: agent_linux_state_defend.go, the backoff and canary of
      agent_linux_state_sections.go, and the startup, counters and deny pipeline
      of agent_linux_policy_maps.go.
    - ProcTree: internal/proctree/summary.go.
    - RunStats: the counters, tables and drop counters of agent_linux_state.go
      and the summary fields of event.go and telemetry.go; agent_linux_digest.go's
      map of dropped events.  Events: the event structures.
    - Rings: the handlers of the rings as tasks over the shared state, the
      reader loop, and the step relation of the concurrent readers
      (agent_linux_ring_read.go, exec_identity_linux.go).  RingAccounts: the
      invariant of the readers and its theorems.
    - SafePath: internal/safepath, over a file system with symbolic links.
    - AllowFiles: internal/actioncli/allowlist_files.go, the input checks and the
      agent environment of runStart (main.go), cmd/coldstep/validate.go.
    - Loader: internal/bpf/defend/loader.go.
    - Lifecycle: the run of the agent as programs over a state that has the
      cleanup stack, the ring readers, the pointers that may be nil, a history of
      what was opened, closed and reported, and the data the phases compute
      (agent_linux.go, agent_run_load.go, agent_run_state.go,
      agent_linux_bpf_start.go, agent_linux_ringreader.go, agent_linux_probe.go,
      bpf_self_defense_linux.go, the errors of agent_linux_digest.go).  What the
      kernel and the libraries answer is a record, [host].  LifecycleSafe: what
      a run opens and closes, on every path and schedule.  RunReady: what its
      readiness and its result mean.
    - Json: the part of encoding/json that is used: values, printing, parsing,
      decoding into variables.  GoFlag: package flag and its conversions.
    - EventLog: the lines of the log: the JSON of every event (event.go,
      meta_linux.go), signing and appending (sign.go, telemetry.go).
      SummaryFile: [WriteSummary] of telemetry.go and [MarshalIndent].
    - Report: markdown.go, byte for byte.  ReportReads: its reader against a
      reference, and on the log that the agent writes.  ReportText: the tables
      of the rendered report as Markdown reads them.
    - Compat: compat_check_linux.go.
    - GoRegexp, GoURL: packages regexp and net/url, as far as they are used, and
      what a replacement leaves of a text.  RedactURI: sanitize_request_uri.go.
      RedactSafe, RedactQuery: its theorems.  RedactedLog: the event log of the
      ring readers with that redaction.
    - Readiness: internal/atomicwrite, the status file and the polls of
      main.go.  AgentPid: agent_pid_linux.go.  Commands: main.go and
      report_markdown.go of internal/actioncli and cmd/coldstep/main.go, as
      functions from the actions so far to the actions after them.  Gates: when
      the gates succeed.  CommandRuns: the actions of every start and stop.
      PRComment: postPRComment, githubAPIBaseURL and truncate of main.go.

    ** Modelling choices

    A definition carries the name of the Go function it translates; helper
    definitions translate a loop or a branch of one.  Code that can panic
    returns [go]; a Go error is [Err] of an inductive type, one constructor per
    message.  A pointer that may be nil is an [option].  A Go map is a [gmap];
    where a loop ranges over one, the order is a parameter ([RangeOrder]) and
    the theorems hold for every order.  The clock, the resolver, the file
    system, the outcome of a log write and what a ring delivers are arguments.
    A method that holds a lock for its whole body is one step; a ring handler is
    a [task], a sequence of such steps between which the other readers may act.
    The allow files are read at successive times from a file system that may
    differ at each.  A command of the action is a sequence of numbered actions
    whose answers may depend on their numbers.  The messages of the agent's own
    log (slog) are left out.

    Code outside the repository is assumed only through classes: [BpfMapLaws]
    (a successful write is visible, a failed one changes nothing),
    [BpfMapExact] (no eviction, for LPM tries and arrays), [BpfMapIterLaws] (an
    iteration without error lists the content), [BpfMapCapacity] (operations fail
    only where the map has no room; only in one clause of the theorem on
    healing), and [UnicodeCase] (the case table beyond ASCII).  Each has an
    instance that the witnesses use.

    Recursion that is not structural has fuel computed from the input: the
    decoding of a string takes its length (each rune takes a byte), the DNS name
    reader the code's own bounds of 32 pointers and 128 labels, the extension
    and header loops the length of the buffer (each round consumes some), the
    JSON parser the length of the text ([value_fuel_enough]), the reader of the
    event log the length of the stream ([parse_reference]), a poll one round
    more than fit into its timeout ([wait_for_ready_exact]).  The theorems are
    on the functions with that fuel, and say what they return.

    ** What the theorems show

    - Enforcement: [kernel_enforces_policy], [load_programs_expected],
      [ipv6_trie_exact], [ipv6_hooks_enforce_policy]: what is programmed is the
      expected keyset, and the hooks decide on it as [Classify] does, but for
      the networks written with IPv4-mapped addresses.
      [defend_fails_closed]: defend mode never starts with nothing allowed, and
      what it allows is exact in both families.
      [lsm_connect_agrees], [backstop_flags_denied]: the LSM hooks decide a connect
      as the cgroup hooks do, with the same record, and the packet hook reports
      what they would have denied; [lsm_sendmsg_explicit_ipv4_passes] is a gap.
    - Integrity: [reconcile_converges], [integrity_heals] (for any sequence of
      ticks, foreign writes and failures: what is repaired, and what is left; a
      trie that was filled up is not repaired, [full_trie_stays]).
    - The run: [loader_fail_closed] (against the programs and maps that the C
      sources declare); [ready_is_armed] (readiness in defend mode
      means that every hook is attached, that the kernel denied a probe and that
      the maps hold the compiled allowlist); [run_releases_all] and
      [shutdown_ordered] (what is opened is closed once, in an order in which
      counters are read before their maps close, in every interleaving of the
      unwinding with the goroutine that closes the readers);
      [run_result_reported]; [probe_matches_denial] (the probe ends only with the
      kernel's denial of its own connect), [dial_loop_bounded].
    - Policy: [classify_correct] and the well-formedness, merging, wildcard and
      bypass theorems.
    - Allowlist: [compile_sound], [compile_reference] (the retrying, concurrent
      compile against a reference), the owners, drift and resolver theorems.
    - DNS: [dns_parser_total], [dns_response_roundtrip] (any records, owners with
      pointers, the shortest owner per address); the cache invariant,
      merge, freshness, and agreement with the kernel maps; trusted seeding.
    - Parsers and decoders never panic, and invert the formats they read.
    - TLS: bounds and split-invariance of reassembly; the KTLS tracker refines
      the history of marks.
    - Denials: [denials_reach_log] (a denied destination is in the record the
      hook submits and in the line the agent writes), [deny_dedup_sound], [deny_log_faithful], [deny_reader_complete].
    - Telemetry: [sanitize_field_safe], [http_request_roundtrip].  Configuration: [config_load_sound].
    - Log and report: [signed_line_verifies] (an appended line is one line, holds
      the event and verifies), [parse_reference] (the buffered reader is the
      reading of the records one by one), [report_reads_log] (the report of a
      written log says what was logged), [unreadable_line_only_counts],
      [report_tables_exact] (no event can forge a row), [shutdown_hides_startup]
      (the run context is lost with the record of the shutdown),
      [summary_published] (the signed summary is replaced as a whole, verifies and
      reads back).
    - Start and stop: [status_file_atomic], [wait_for_ready_exact],
      [agent_pid_sound], [start_outcome], [stop_publishes_log]; the gates:
      [integrity_gate_exact], [diff_gate_exact].
    - Readers: [ring_accounting] (every record but those of [uncounted] is
      counted once, as event or drop, in every interleaving),
      [event_log_ordered_clean] (order and texts of the lines, the path of a
      request apart),
      [reader_finishes], [runRingReader_is_schedule].
    - Monitors: [drift_monitor_sound] (the re-resolution counts and logs each
      drift and writes only owners of the trusted resolver); [canary_never_fails]
      (the canary as written cannot detect a failure).
    - Redaction: [no_credential_left] (nothing that reads as a credential of the
      nine kinds is left in a sanitized URI), [secret_value_not_written] (the URI
      depends on the value of a sensitive parameter through two bits only);
      [event_log_ordered_clean] says the first of every path in the log.
      Runner checks: [proc1_read_faithful], [compat_warnings_exact].
    - The comment on a pull request: [truncate_well_formed] (it is cut after a
      whole rune and leaves no code block open), [comment_posted] (it goes by
      https to the configured host, and its body reads back).
    - Summary: [forest_lines_reference].
    - Commands: [safe_path_contained], [allow_files_contained],
      [started_agent_loads] (what start accepts the agent's configuration
      accepts); the validate command against the policy.

    ** Not modelled

    The C programs that trace system calls or guard the agent's own objects, and
    the io_uring hook.  Of the commands, the smoke
    test's and the build script's commands: each is one action, and so is
    [postPRComment] (PRComment says what it sends).  Ed25519 and SHA-256 are
    parameters.  The run starts its monitors; their loops (Monitors, and the
    watch of Integrity) are models of their own and not part of the run's
    state.  The redaction of request paths is a parameter of the ring handlers
    (RedactedLog puts RedactURI there).  What Go accepts as the host of a URL is
    a parameter of GoURL: it differs between the patch releases. *)
From Stdlib Require Export ZArith Lia Ascii String.
From stdpp Require Export base list gmap sets sorting.

#[export] Set Warnings "-clear-no-such-hyp".
Open Scope Z_scope.

(** * Bytes, Go strings and slices

    A Go [string] and a Go [[]byte] are both finite byte sequences; they are
    modelled by [bytes], a list of integers.  [is_byte] is the range of one
    element, [wf_bytes] says that every element is in it. *)
Abbreviation bytes := (list Z).

Definition is_byte (b : Z) : Prop := 0 <= b < 256.
Definition wf_bytes (s : bytes) : Prop := Forall is_byte s.

#[global] Instance is_byte_dec b : Decision (is_byte b).
Proof. unfold is_byte. apply _. Defined.

(** [len s] is Go's [len(s)], an [int]. *)
Definition len {A} (s : list A) : Z := Z.of_nat (length s).

(** A string literal as the bytes of its characters. *)
Fixpoint str (s : string) : bytes :=
  match s with
  | EmptyString => []
  | String c s' => Z.of_N (N_of_ascii c) :: str s'
  end.
Arguments str _%_string_scope.

(** * Run-time panics

    [go A] is a computation that returns a value or panics: an index or slice
    expression out of range is [Panic]. *)
Inductive go (A : Type) : Type :=
  | Ret (a : A)
  | Panic.
Arguments Ret {A} a.
Arguments Panic {A}.

#[global] Instance go_ret : MRet go := @Ret.
#[global] Instance go_bind : MBind go := fun A B f m =>
  match m with Ret a => f a | Panic => Panic end.
#[global] Instance go_fmap : FMap go := fun A B f m =>
  match m with Ret a => Ret (f a) | Panic => Panic end.

(** * Errors as values: Go's [(T, error)] results. *)
Inductive result (E A : Type) : Type :=
  | Ok (a : A)
  | Err (e : E).
Arguments Ok {E A} a.
Arguments Err {E A} e.

#[global] Instance result_ret {E} : MRet (result E) := fun A => @Ok E A.
#[global] Instance result_bind {E} : MBind (result E) := fun A B f m =>
  match m with Ok a => f a | Err e => Err e end.

Definition is_ok {E A} (r : result E A) : bool :=
  match r with Ok _ => true | Err _ => false end.

(** * Index and slice expressions

    [idx s i] is [s[i]]; [slice s lo hi] is [s[lo:hi]].  For a byte slice Go
    admits [hi] up to the capacity; the model panics beyond the length, so
    that a computation shown not to panic never reads past the length. *)
Definition idx (s : bytes) (i : Z) : go Z :=
  if decide (0 <= i) then
    match s !! Z.to_nat i with Some b => Ret b | None => Panic end
  else Panic.

Definition slice (s : bytes) (lo hi : Z) : go bytes :=
  if decide (0 <= lo /\ lo <= hi /\ hi <= len s) then
    Ret (take (Z.to_nat (hi - lo)) (drop (Z.to_nat lo) s))
  else Panic.

(** [s[lo:]] and [s[:hi]]. *)
Definition slice_from (s : bytes) (lo : Z) : go bytes := slice s lo (len s).
Definition slice_to (s : bytes) (hi : Z) : go bytes := slice s 0 hi.

(** * Fixed-width integers: package encoding/binary *)

(** The [n] low bytes of [v], least significant first. *)
Fixpoint le_bytes (n : nat) (v : Z) : bytes :=
  match n with
  | O => []
  | S n' => v mod 256 :: le_bytes n' (v / 256)
  end.

(** The value of a byte sequence, least significant byte first. *)
Fixpoint le_val (s : bytes) : Z :=
  match s with
  | [] => 0
  | b :: s' => b + 256 * le_val s'
  end.

Definition be_bytes (n : nat) (v : Z) : bytes := rev (le_bytes n v).
Definition be_val (s : bytes) : Z := le_val (rev s).

(** [binary.LittleEndian.Uint16(s)] and friends read the first bytes of [s]
    and panic when there are too few. *)
Definition get_le (n : nat) (s : bytes) : go Z :=
  if decide (Z.of_nat n <= len s) then Ret (le_val (take n s)) else Panic.
Definition get_be (n : nat) (s : bytes) : go Z :=
  if decide (Z.of_nat n <= len s) then Ret (be_val (take n s)) else Panic.

Definition LE_Uint16 := get_le 2.
Definition LE_Uint32 := get_le 4.
Definition LE_Uint64 := get_le 8.
Definition BE_Uint16 := get_be 2.
Definition BE_Uint32 := get_be 4.

(** [int32(x)] of a 32-bit pattern. *)
Definition int32_of_uint32 (v : Z) : Z :=
  if decide (v < 2 ^ 31) then v else v - 2 ^ 32.

(** [copy(a[:], s)] into a zeroed array of [n] bytes. *)
Definition copy_array (n : nat) (s : bytes) : bytes :=
  take n s ++ replicate (n - length s) 0.

(** * Generic lemmas *)

Lemma len_nonneg {A} (s : list A) : 0 <= len s.
Proof. unfold len. lia. Qed.

Lemma len_nil {A} : len (@nil A) = 0.
Proof. reflexivity. Qed.

Lemma len_cons {A} (x : A) s : len (x :: s) = 1 + len s.
Proof. unfold len. cbn [length]. lia. Qed.

Lemma len_app {A} (s t : list A) : len (s ++ t) = len s + len t.
Proof. unfold len. rewrite length_app. lia. Qed.

Lemma len_take {A} n (s : list A) : len (take n s) = Z.min (Z.of_nat n) (len s).
Proof. unfold len. rewrite length_take. lia. Qed.

Lemma len_drop {A} n (s : list A) : len (drop n s) = Z.max 0 (len s - Z.of_nat n).
Proof. unfold len. rewrite length_drop. lia. Qed.

Lemma len_zero_inv {A} (s : list A) : len s = 0 -> s = [].
Proof. destruct s; [done|]. rewrite len_cons. pose proof (len_nonneg s). lia. Qed.

Lemma let_pair_inv {A B C} (p : A * B) (f : A -> B -> C) r :
  (let '(a, b) := p in f a b) = r -> exists a b, p = (a, b) /\ f a b = r.
Proof. destruct p. eauto. Qed.

Create Rewrite HintDb len.
#[export] Hint Rewrite @len_nil @len_cons @len_app @len_take @len_drop : len.

(** [len_simpl] normalises lengths everywhere; [len_lia] then calls [lia]. *)
Ltac len_simpl := autorewrite with len in *.
Ltac len_pos :=
  repeat match goal with
  | s : list ?A |- _ =>
      lazymatch goal with
      | _ : 0 <= len s |- _ => fail
      | _ => pose proof (len_nonneg s)
      end
  end.
Ltac len_lia := len_simpl; len_pos; unfold len in *; lia.

Lemma idx_in_range s i : 0 <= i < len s -> exists b, idx s i = Ret b /\ s !! Z.to_nat i = Some b.
Proof.
  intros [Hlo Hhi]. unfold idx. rewrite decide_True by done.
  destruct (s !! Z.to_nat i) as [b|] eqn:E; [eauto|].
  apply lookup_ge_None in E. unfold len in Hhi. lia.
Qed.

Lemma slice_in_range s lo hi :
  0 <= lo -> lo <= hi -> hi <= len s ->
  slice s lo hi = Ret (take (Z.to_nat (hi - lo)) (drop (Z.to_nat lo) s)).
Proof. intros. unfold slice. by rewrite decide_True. Qed.

Lemma len_slice s lo hi t : slice s lo hi = Ret t -> len t = hi - lo.
Proof.
  unfold slice. case_decide as H; [|done]. intros [= <-].
  rewrite len_take, len_drop. lia.
Qed.

Lemma get_le_ok n s : Z.of_nat n <= len s -> get_le n s = Ret (le_val (take n s)).
Proof. intros. unfold get_le. by rewrite decide_True. Qed.

Lemma get_be_ok n s : Z.of_nat n <= len s -> get_be n s = Ret (be_val (take n s)).
Proof. intros. unfold get_be. by rewrite decide_True. Qed.

Lemma le_val_bounds s : wf_bytes s -> 0 <= le_val s < 256 ^ len s.
Proof.
  induction 1 as [|b s Hb _ IH]; cbn [le_val]; [by vm_compute|].
  rewrite len_cons, Z.pow_add_r by (pose proof (len_nonneg s); lia).
  unfold is_byte in Hb. lia.
Qed.

Lemma be_val_bounds s : wf_bytes s -> 0 <= be_val s < 256 ^ len s.
Proof.
  intros H. unfold be_val.
  replace (len s) with (len (rev s)) by (unfold len; by rewrite length_rev).
  apply le_val_bounds. by apply Forall_rev.
Qed.

Lemma length_le_bytes n v : length (le_bytes n v) = n.
Proof. revert v; induction n; intros; simpl; auto. Qed.

Lemma length_be_bytes n v : length (be_bytes n v) = n.
Proof. unfold be_bytes. by rewrite length_rev, length_le_bytes. Qed.

Lemma wf_le_bytes n v : wf_bytes (le_bytes n v).
Proof.
  revert v; induction n; intros v; cbn [le_bytes]; constructor; [|apply IHn].
  unfold is_byte. apply Z.mod_pos_bound. lia.
Qed.

Lemma wf_be_bytes n v : wf_bytes (be_bytes n v).
Proof. apply Forall_rev, wf_le_bytes. Qed.

Lemma le_val_le_bytes n v : 0 <= v < 256 ^ Z.of_nat n -> le_val (le_bytes n v) = v.
Proof.
  revert v; induction n as [|n IH]; intros v Hv; cbn [le_bytes le_val].
  - change (256 ^ Z.of_nat 0) with 1 in Hv. lia.
  - rewrite Nat2Z.inj_succ, Z.pow_succ_r in Hv by lia.
    rewrite IH; [pose proof (Z.div_mod v 256); lia|].
    split; [apply Z.div_pos; lia|apply Z.div_lt_upper_bound; lia].
Qed.

Lemma be_val_be_bytes n v : 0 <= v < 256 ^ Z.of_nat n -> be_val (be_bytes n v) = v.
Proof. intros. unfold be_val, be_bytes. rewrite rev_involutive. by apply le_val_le_bytes. Qed.

Lemma le_bytes_le_val s : wf_bytes s -> le_bytes (length s) (le_val s) = s.
Proof.
  induction 1 as [|b s Hb _ IH]; [done|]. cbn [length le_bytes le_val]. unfold is_byte in Hb.
  rewrite (Z.mul_comm 256), Z.mod_add, Z.div_add by lia. rewrite Z.mod_small, Z.div_small by lia.
  by rewrite Z.add_0_l, IH.
Qed.

Lemma be_bytes_be_val s : wf_bytes s -> be_bytes (length s) (be_val s) = s.
Proof.
  intros Hs. unfold be_bytes, be_val. rewrite <- (length_rev s), le_bytes_le_val by by apply Forall_rev.
  apply rev_involutive.
Qed.

Lemma int32_roundtrip v : - 2 ^ 31 <= v < 2 ^ 31 -> int32_of_uint32 (v mod 2 ^ 32) = v.
Proof.
  intros H. unfold int32_of_uint32. destruct (decide (0 <= v)) as [Hn|Hn].
  - rewrite Z.mod_small by lia. rewrite decide_True; lia.
  - replace (v mod 2 ^ 32) with (v + 2 ^ 32).
    + rewrite decide_False; lia.
    + apply Z.mod_unique_pos with (q := -1); lia.
Qed.

Lemma copy_array_exact n s : length s = n -> copy_array n s = s.
Proof.
  intros <-. unfold copy_array. rewrite take_ge by lia.
  rewrite Nat.sub_diag. apply app_nil_r.
Qed.

(** * Computations that return

    [returns c Q]: the computation [c] does not panic and its value
    satisfies [Q]. *)
Definition returns {A} (c : go A) (Q : A -> Prop) : Prop :=
  match c with Ret a => Q a | Panic => False end.

Lemma returns_exists {A} (c : go A) Q : returns c Q <-> exists a, c = Ret a /\ Q a.
Proof. destruct c; cbn; naive_solver. Qed.

Lemma returns_ret {A} (a : A) (Q : A -> Prop) : Q a -> returns (Ret a) Q.
Proof. done. Qed.

Lemma returns_bind {A B} (c : go A) (f : A -> go B) Q :
  returns c (fun a => returns (f a) Q) -> returns (c ≫= f) Q.
Proof. by destruct c. Qed.

Lemma returns_mono {A} (c : go A) (Q R : A -> Prop) :
  returns c Q -> (forall a, Q a -> R a) -> returns c R.
Proof. destruct c; cbn; auto. Qed.

Lemma wf_lookup s i b : wf_bytes s -> s !! i = Some b -> is_byte b.
Proof. intros H Hi. by eapply Forall_lookup_1. Qed.

Lemma returns_idx s i Q : wf_bytes s -> 0 <= i < len s ->
  (forall b, is_byte b -> s !! Z.to_nat i = Some b -> Q b) -> returns (idx s i) Q.
Proof.
  intros Hw Hi HQ. destruct (idx_in_range s i Hi) as (b & -> & Hb). cbn.
  eauto using wf_lookup.
Qed.

Lemma returns_slice s lo hi Q : wf_bytes s -> 0 <= lo -> lo <= hi -> hi <= len s ->
  (forall t, wf_bytes t -> len t = hi - lo ->
     t = take (Z.to_nat (hi - lo)) (drop (Z.to_nat lo) s) -> Q t) -> returns (slice s lo hi) Q.
Proof.
  intros Hw H1 H2 H3 HQ. pose proof (slice_in_range s lo hi H1 H2 H3) as E.
  rewrite E. cbn. apply HQ; [|by eapply len_slice|done].
  by apply Forall_take, Forall_drop.
Qed.

Lemma returns_get_be n s Q : wf_bytes s -> Z.of_nat n <= len s ->
  (forall v, 0 <= v < 256 ^ Z.of_nat n -> v = be_val (take n s) -> Q v) -> returns (get_be n s) Q.
Proof.
  intros Hw Hn HQ. rewrite get_be_ok by done. cbn. apply HQ; [|done].
  pose proof (be_val_bounds (take n s) (Forall_take _ _ _ Hw)) as Hb.
  by rewrite len_take, Z.min_l in Hb.
Qed.

Lemma returns_get_le n s Q : wf_bytes s -> Z.of_nat n <= len s ->
  (forall v, 0 <= v < 256 ^ Z.of_nat n -> v = le_val (take n s) -> Q v) -> returns (get_le n s) Q.
Proof.
  intros Hw Hn HQ. rewrite get_le_ok by done. cbn. apply HQ; [|done].
  pose proof (le_val_bounds (take n s) (Forall_take _ _ _ Hw)) as Hb.
  by rewrite len_take, Z.min_l in Hb.
Qed.

(** [go_step] runs the first read of the goal [returns (x ← c; k) Q]; the
    bounds are left to [lia]. *)
Ltac z_bool :=
  rewrite ?orb_true_iff, ?orb_false_iff, ?andb_true_iff, ?andb_false_iff, ?negb_true_iff, ?negb_false_iff,
    ?Z.leb_le, ?Z.leb_gt, ?Z.ltb_lt, ?Z.ltb_ge, ?Z.eqb_eq, ?Z.eqb_neq in *.
Ltac go_step :=
  lazymatch goal with
  | |- returns (mbind _ (idx _ _)) _ => apply returns_bind, returns_idx; [done|lia|]; intros ? ? ?
  | |- returns (mbind _ (slice _ _ _)) _ => apply returns_bind, returns_slice; [done|lia|lia|lia|]; intros ? ? ? ?
  | |- returns (mbind _ (get_be _ _)) _ => apply returns_bind, returns_get_be; [done|lia|]; intros ? ? ?
  | |- returns (mbind _ (get_le _ _)) _ => apply returns_bind, returns_get_le; [done|lia|]; intros ? ? ?
  | |- returns (mbind _ (mbind _ _)) _ => apply returns_bind; go_step
  | |- returns (idx _ _) _ => apply returns_idx; [done|lia|]; intros ? ? ?
  | |- returns (slice _ _ _) _ => apply returns_slice; [done|lia|lia|lia|]; intros ? ? ? ?
  | |- returns (get_be _ _) _ => apply returns_get_be; [done|lia|]; intros ? ? ?
  | |- returns (get_le _ _) _ => apply returns_get_le; [done|lia|]; intros ? ? ?
  | |- returns (Ret _) _ => apply returns_ret
  end.

(** * Reads at a known place *)

Lemma idx_app pre x t i : i = len pre -> idx (pre ++ x :: t) i = Ret x.
Proof.
  intros ->. unfold idx, len. rewrite decide_True by lia. rewrite Nat2Z.id.
  by rewrite list_lookup_middle.
Qed.

Lemma slice_app pre s t lo hi : lo = len pre -> hi = len pre + len s -> slice (pre ++ s ++ t) lo hi = Ret s.
Proof.
  intros -> ->. rewrite slice_in_range by len_lia.
  replace (Z.to_nat (len pre)) with (length pre) by (unfold len; lia).
  rewrite drop_app_length. replace (Z.to_nat _) with (length s) by (unfold len; lia).
  by rewrite take_app_length.
Qed.

Lemma get_be_bytes n v : 0 <= v < 256 ^ Z.of_nat n -> get_be n (be_bytes n v) = Ret v.
Proof.
  intros Hv. rewrite get_be_ok by (unfold len; rewrite length_be_bytes; lia).
  rewrite take_ge by (rewrite length_be_bytes; lia). by rewrite be_val_be_bytes.
Qed.

Lemma get_le_bytes n v : 0 <= v < 256 ^ Z.of_nat n -> get_le n (le_bytes n v) = Ret v.
Proof.
  intros Hv. rewrite get_le_ok by (unfold len; rewrite length_le_bytes; lia).
  rewrite take_ge by (rewrite length_le_bytes; lia). by rewrite le_val_le_bytes.
Qed.

Lemma len_be_bytes n v : len (be_bytes n v) = Z.of_nat n.
Proof. unfold len. by rewrite length_be_bytes. Qed.
Lemma len_le_bytes n v : len (le_bytes n v) = Z.of_nat n.
Proof. unfold len. by rewrite length_le_bytes. Qed.
#[export] Hint Rewrite len_be_bytes len_le_bytes : len.

(** [slice_app] with the split of the packet left as an equation. *)
Lemma slice_at packet pre s t lo hi : packet = pre ++ s ++ t -> lo = len pre -> hi = len pre + len s ->
  slice packet lo hi = Ret s.
Proof. intros ->. apply slice_app. Qed.

(** A slice that starts at a known place keeps what follows, up to its end. *)
Lemma slice_clip packet pre s t lo hi : packet = pre ++ s ++ t -> lo = len pre -> len pre + len s <= hi <= len packet ->
  exists t', slice packet lo hi = Ret (s ++ t').
Proof.
  intros -> -> Hhi. rewrite slice_in_range by len_lia.
  exists (take (Z.to_nat (hi - len pre - len s)) t). f_equal.
  replace (Z.to_nat (len pre)) with (length pre) by (unfold len; lia). rewrite drop_app_length.
  rewrite take_app. f_equal; [apply take_ge; unfold len in *; lia|]. f_equal. unfold len in *. lia.
Qed.

Lemma zip_with_take_both {A B C} (f : A -> B -> C) n l k : take n (zip_with f l k) = zip_with f (take n l) (take n k).
Proof. revert l k. induction n; intros [|] [|]; simpl; congruence. Qed.

(** Bytes put side by side with shifts and [Z.lor]. *)
Lemma lor_shiftl a b k : 0 <= k -> 0 <= b < 2 ^ k -> Z.lor (Z.shiftl a k) b = a * 2 ^ k + b.
Proof.
  intros Hk Hb. rewrite <- Z.add_nocarry_lor; [by rewrite Z.shiftl_mul_pow2|].
  apply Z.bits_inj'. intros n Hn. rewrite Z.land_spec, Z.bits_0.
  destruct (decide (n < k)) as [Hlt|Hge].
  - by rewrite Z.shiftl_spec_low.
  - destruct (decide (b = 0)) as [->|Hb0]; [by rewrite Z.bits_0, andb_false_r|].
    rewrite (Z.bits_above_log2 b n), andb_false_r; [done|lia|].
    assert (Z.log2 b < k); [apply Z.log2_lt_pow2; lia|lia].
Qed.

Lemma be3_lor a b c : is_byte a -> is_byte b -> is_byte c ->
  Z.lor (Z.lor (Z.shiftl a 16) (Z.shiftl b 8)) c = a * 65536 + b * 256 + c.
Proof.
  unfold is_byte. intros Ha Hb Hc.
  replace (Z.lor (Z.shiftl a 16) (Z.shiftl b 8)) with (Z.shiftl (a * 256 + b) 8).
  - rewrite lor_shiftl by lia. lia.
  - change 256 with (2 ^ 8). rewrite <- lor_shiftl by lia. rewrite Z.shiftl_lor, Z.shiftl_shiftl by lia. done.
Qed.
