(* ===== verification/GoStrings.v ===== *)
(** Go strings: UTF-8 and the parts of packages [strings], [bytes],
    [unicode], [strconv] and [slices] the program calls.

    Every function works on [bytes].  Functions that Go defines over runes
    decode UTF-8 as [unicode/utf8] does: an invalid byte is one rune
    [RuneError] of width one.  The case table of non-ASCII runes
    ([unicode.ToLower]) is a parameter, the class [UnicodeCase]. *)
From S2P Require Import Prelude.

Open Scope Z_scope.

(** * UTF-8 *)

Definition RuneError : Z := 0xFFFD.

Definition in_range (lo hi b : Z) : bool := (lo <=? b) && (b <=? hi).
Definition cont (b : Z) : bool := in_range 0x80 0xBF b.

(** [utf8.DecodeRuneInString]: the first rune and its width in bytes; [None]
    on the empty string. *)
Definition decode_rune (s : bytes) : option (Z * nat) :=
  let bad := Some (RuneError, 1%nat) in
  match s with
  | [] => None
  | b0 :: t =>
    if b0 <? 0x80 then Some (b0, 1%nat)
    else if in_range 0xC2 0xDF b0 then
      match t with
      | b1 :: _ => if cont b1 then Some ((b0 - 0xC0) * 64 + (b1 - 0x80), 2%nat) else bad
      | _ => bad
      end
    else if in_range 0xE0 0xEF b0 then
      match t with
      | b1 :: b2 :: _ =>
        let lo := if b0 =? 0xE0 then 0xA0 else 0x80 in
        let hi := if b0 =? 0xED then 0x9F else 0xBF in
        if in_range lo hi b1 && cont b2
        then Some ((b0 - 0xE0) * 4096 + (b1 - 0x80) * 64 + (b2 - 0x80), 3%nat) else bad
      | _ => bad
      end
    else if in_range 0xF0 0xF4 b0 then
      match t with
      | b1 :: b2 :: b3 :: _ =>
        let lo := if b0 =? 0xF0 then 0x90 else 0x80 in
        let hi := if b0 =? 0xF4 then 0x8F else 0xBF in
        if in_range lo hi b1 && cont b2 && cont b3
        then Some ((b0 - 0xF0) * 262144 + (b1 - 0x80) * 4096 + (b2 - 0x80) * 64 + (b3 - 0x80), 4%nat)
        else bad
      | _ => bad
      end
    else bad
  end.

(** The runes of a string, each with the bytes it was decoded from, as
    [for _, r := range s] visits them. *)
Fixpoint chunks_fuel (n : nat) (s : bytes) : list (Z * bytes) :=
  match n with
  | O => []
  | S n' =>
    match decode_rune s with
    | None => []
    | Some (r, w) => (r, take w s) :: chunks_fuel n' (drop w s)
    end
  end.
Definition chunks (s : bytes) : list (Z * bytes) := chunks_fuel (length s) s.

Definition runes (s : bytes) : list Z := (chunks s).*1.

(** [utf8.AppendRune]. *)
Definition encode_rune (r : Z) : bytes :=
  if in_range 0 0x7F r then [r]
  else if in_range 0x80 0x7FF r then [0xC0 + r / 64; 0x80 + r mod 64]
  else if in_range 0x800 0xD7FF r || in_range 0xE000 0xFFFF r then
    [0xE0 + r / 4096; 0x80 + r / 64 mod 64; 0x80 + r mod 64]
  else if in_range 0x10000 0x10FFFF r then
    [0xF0 + r / 262144; 0x80 + r / 4096 mod 64; 0x80 + r / 64 mod 64; 0x80 + r mod 64]
  else [0xEF; 0xBF; 0xBD].

(** * Package unicode *)

Definition IsSpace (r : Z) : bool :=
  in_range 0x09 0x0D r || (r =? 0x20) || (r =? 0x85) || (r =? 0xA0) ||
  (r =? 0x1680) || in_range 0x2000 0x200A r || (r =? 0x2028) || (r =? 0x2029) ||
  (r =? 0x202F) || (r =? 0x205F) || (r =? 0x3000).

Definition is_upper (b : Z) : bool := in_range 65 90 b.
Definition is_lower (b : Z) : bool := in_range 97 122 b.
Definition is_digit (b : Z) : bool := in_range 48 57 b.
Definition lower_byte (b : Z) : Z := if is_upper b then b + 32 else b.

(** [unicode.ToLower]; on ASCII it is [lower_byte]. *)
Class UnicodeCase := {
  rune_lower : Z -> Z;
  rune_lower_ascii : forall r, 0 <= r < 128 -> rune_lower r = lower_byte r
}.

(** The ASCII-only table, an instance for evaluation. *)
Definition ascii_case : UnicodeCase :=
  {| rune_lower := lower_byte; rune_lower_ascii := fun _ _ => eq_refl |}.

(** * Package strings *)

Definition is_ascii (s : bytes) : bool := forallb (fun b => b <? 128) s.

Definition ToLower `{UnicodeCase} (s : bytes) : bytes :=
  if is_ascii s then map lower_byte s
  else concat (map (fun c => encode_rune (rune_lower c.1)) (chunks s)).

Fixpoint drop_while {A} (f : A -> bool) (l : list A) : list A :=
  match l with
  | [] => []
  | x :: l' => if f x then drop_while f l' else l
  end.

Definition TrimFunc (f : Z -> bool) (s : bytes) : bytes :=
  let l := drop_while (fun c => f c.1) (chunks s) in
  concat (rev (drop_while (fun c => f c.1) (rev l))).*2.

Definition TrimSpace : bytes -> bytes := TrimFunc IsSpace.

(** [strings.FieldsFunc]: the maximal runs of runes that are not separators. *)
Fixpoint fields_aux (f : Z -> bool) (cs : list (Z * bytes)) (cur : bytes) : list bytes :=
  match cs with
  | [] => match cur with [] => [] | _ => [cur] end
  | (r, c) :: cs' =>
    if f r then
      match cur with
      | [] => fields_aux f cs' []
      | _ => cur :: fields_aux f cs' []
      end
    else fields_aux f cs' (cur ++ c)
  end.
Definition FieldsFunc (f : Z -> bool) (s : bytes) : list bytes := fields_aux f (chunks s) [].
Definition Fields : bytes -> list bytes := FieldsFunc IsSpace.

Fixpoint HasPrefix (s p : bytes) {struct p} : bool :=
  match p, s with
  | [], _ => true
  | b :: p', c :: s' => (b =? c) && HasPrefix s' p'
  | _, [] => false
  end.

Definition HasSuffix (s p : bytes) : bool := HasPrefix (rev s) (rev p).

Definition TrimPrefix (s p : bytes) : bytes :=
  if HasPrefix s p then drop (length p) s else s.
Definition TrimSuffix (s p : bytes) : bytes :=
  if HasSuffix s p then take (length s - length p) s else s.

(** [strings.Index] and [strings.IndexByte]; [None] is Go's -1. *)
Fixpoint Index (s sub : bytes) : option nat :=
  if HasPrefix s sub then Some 0%nat
  else match s with
       | [] => None
       | _ :: s' => S <$> Index s' sub
       end.
Definition IndexByte (s : bytes) (b : Z) : option nat := Index s [b].
Definition Contains (s sub : bytes) : bool :=
  match Index s sub with Some _ => true | None => false end.

(** [strings.Split] by a one-byte separator. *)
Fixpoint split_aux (sep : Z) (s cur : bytes) : list bytes :=
  match s with
  | [] => [cur]
  | b :: s' => if b =? sep then cur :: split_aux sep s' [] else split_aux sep s' (cur ++ [b])
  end.
Definition Split (s : bytes) (sep : Z) : list bytes := split_aux sep s [].

(** [strings.Cut] by a one-byte separator: before, after, found. *)
Definition Cut (s : bytes) (sep : Z) : bytes * bytes * bool :=
  match IndexByte s sep with
  | Some i => (take i s, drop (S i) s, true)
  | None => (s, [], false)
  end.

(** [bufio.Scanner] with [ScanLines]: the lines of the input without their
    line feed and one carriage return before it; the scan stops at a line that
    does not fit the 64 KiB buffer. *)
Definition dropCR (line : bytes) : bytes := TrimSuffix line [13].
Definition MaxScanTokenSize : Z := 65536.
Fixpoint scan_tokens (lines : list bytes) : list bytes :=
  match lines with
  | [] | [[]] => []
  | l :: ls => if len l <? MaxScanTokenSize then dropCR l :: scan_tokens ls else []
  end.
Definition ScanLines (s : bytes) : list bytes := scan_tokens (Split s 10).

Fixpoint Strings_Join (l : list bytes) (sep : bytes) : bytes :=
  match l with
  | [] => []
  | [x] => x
  | x :: l' => x ++ sep ++ Strings_Join l' sep
  end.

(** [strings.EqualFold(s, t)] for an ASCII [t]: the simple foldings of ASCII
    letters outside ASCII are U+017F (long s) and U+212A (Kelvin sign). *)
Definition fold_eq_rune (r c : Z) : bool :=
  (r =? c) || (lower_byte r =? lower_byte c) && (r <? 128) ||
  ((r =? 0x17F) && (lower_byte c =? 0x73)) || ((r =? 0x212A) && (lower_byte c =? 0x6B)).
Fixpoint fold_eq (rs cs : list Z) : bool :=
  match rs, cs with
  | [], [] => true
  | r :: rs', c :: cs' => fold_eq_rune r c && fold_eq rs' cs'
  | _, _ => false
  end.
Definition EqualFold (s t : bytes) : bool := fold_eq (runes s) t.

(** * Order on strings, package slices *)

(** [a <= b] on Go strings, and [bytes.Compare(a, b) <= 0]. *)
Fixpoint bleb (a b : bytes) : bool :=
  match a, b with
  | [], _ => true
  | _ :: _, [] => false
  | x :: a', y :: b' => if x =? y then bleb a' b' else x <? y
  end.
Definition ble (a b : bytes) : Prop := bleb a b = true.
Definition bltb (a b : bytes) : bool := negb (bleb b a).

#[global] Instance ble_dec : RelDecision ble.
Proof. intros a b. unfold ble. apply _. Defined.

(** [slices.Sort]. *)
Definition Sort (l : list bytes) : list bytes := merge_sort ble l.

(** * Package strconv *)

Fixpoint dec_fuel (n : nat) (v : Z) (acc : bytes) : bytes :=
  match n with
  | O => acc
  | S n' =>
    let acc' := 48 + v mod 10 :: acc in
    if v <? 10 then acc' else dec_fuel n' (v / 10) acc'
  end.
(** Decimal digits of [v >= 0]; [Z.log2 v + 2] bounds their number. *)
Definition Uitoa (v : Z) : bytes := dec_fuel (Z.to_nat (Z.log2 v) + 2) v [].
Definition Itoa (v : Z) : bytes := if v <? 0 then 45 :: Uitoa (- v) else Uitoa v.

Definition hex_digit (v : Z) : Z := if v <? 10 then 48 + v else 87 + v.

(** * Lemmas *)

Lemma decode_rune_width s r w : decode_rune s = Some (r, w) -> (1 <= w <= length s)%nat.
Proof.
  unfold decode_rune. intros H.
  repeat (case_match; simplify_eq/=; try lia).
Qed.

Lemma decode_rune_cons b s : exists r w, decode_rune (b :: s) = Some (r, w).
Proof. unfold decode_rune. repeat (case_match; simplify_eq/=; eauto). Qed.

Lemma decode_rune_ascii b s : b < 128 -> decode_rune (b :: s) = Some (b, 1%nat).
Proof. intros. unfold decode_rune. by rewrite (proj2 (Z.ltb_lt b 0x80)). Qed.

Lemma chunks_fuel_concat n s : (length s <= n)%nat -> concat (chunks_fuel n s).*2 = s.
Proof.
  revert s; induction n as [|n IH]; intros s Hn; simpl.
  - by destruct s; simpl in *; [|lia].
  - destruct (decode_rune s) as [[r w]|] eqn:E.
    + pose proof (decode_rune_width _ _ _ E). simpl.
      rewrite IH by (rewrite length_drop; lia). apply take_drop.
    + destruct s as [|b s]; [done|].
      destruct (decode_rune_cons b s) as (r & w & E'). congruence.
Qed.

(** Cutting a string into runes loses no byte. *)
(** The fuel of [chunks_fuel] does not matter once it is the length. *)
Lemma chunks_fuel_enough n m s : (length s <= n)%nat -> (length s <= m)%nat -> chunks_fuel n s = chunks_fuel m s.
Proof.
  revert m s. induction n as [|n IH]; intros m s Hn Hm.
  - destruct s; [|cbn in Hn; lia]. by destruct m.
  - destruct s as [|b s]; [by destruct m|]. destruct m as [|m]; [cbn in Hm; lia|].
    cbn [chunks_fuel]. destruct (decode_rune_cons b s) as (r & w & E). rewrite E.
    apply decode_rune_width in E. f_equal. cbn [length] in *. apply IH; rewrite length_drop; cbn [length]; lia.
Qed.

Lemma chunks_concat s : concat (chunks s).*2 = s.
Proof. by apply chunks_fuel_concat. Qed.

Lemma chunks_fuel_nonempty n s : Forall (fun c => c.2 <> []) (chunks_fuel n s).
Proof.
  revert s; induction n as [|n IH]; intros s; simpl; [constructor|].
  destruct (decode_rune s) as [[r w]|] eqn:E; [|constructor].
  constructor; [|apply IH]. simpl.
  pose proof (decode_rune_width _ _ _ E) as Hw.
  destruct s, w; simpl in *; try done; lia.
Qed.

Lemma chunks_nonempty s : Forall (fun c => c.2 <> []) (chunks s).
Proof. apply chunks_fuel_nonempty. Qed.

Lemma chunks_step s r w : decode_rune s = Some (r, w) -> chunks s = (r, take w s) :: chunks (drop w s).
Proof.
  intros E. pose proof (decode_rune_width _ _ _ E) as Hw. unfold chunks. destruct s as [|b s]; [done|].
  cbn [length chunks_fuel]. rewrite E. f_equal. apply chunks_fuel_enough; rewrite length_drop; cbn [length] in *; lia.
Qed.

(** What follows an ASCII byte does not change how the bytes before it decode. *)
Lemma in_range_low lo hi c : 128 <= lo -> c < 128 -> in_range lo hi c = false.
Proof. intros. unfold in_range. lia. Qed.

Lemma decode_rune_app s c t : s <> [] -> c < 128 -> decode_rune (s ++ c :: t) = decode_rune s.
Proof.
  intros Hs Hc. unfold cont in *.
  assert (forall lo hi, 128 <= lo -> in_range lo hi c = false) as Hr by (intros; by apply in_range_low).
  destruct s as [|b0 [|b1 [|b2 [|b3 s]]]]; [done| | | |done]; cbn [app]; unfold decode_rune, cont; rewrite !Hr by (repeat case_match; lia);
    rewrite ?andb_false_r; repeat case_match; try done; congruence.
Qed.

Lemma chunks_app_ascii a c b : c < 128 -> chunks (a ++ c :: b) = chunks a ++ (c, [c]) :: chunks b.
Proof.
  intros Hc. remember (length a) as n eqn:En. revert a En. induction n as [n IH] using lt_wf_ind. intros a ->.
  destruct a as [|x a]; [by rewrite (chunks_step _ c 1) by (by apply decode_rune_ascii)|].
  destruct (decode_rune_cons x a) as (r & w & E). pose proof (decode_rune_width _ _ _ E) as Hw.
  rewrite (chunks_step ((x :: a) ++ _) r w) by (by rewrite decode_rune_app). rewrite (chunks_step (x :: a) r w) by done.
  rewrite take_app_le, drop_app_le by lia. cbn [app]. f_equal. eapply IH; [|done]. rewrite length_drop. lia.
Qed.

(** A rune decodes the same when the string is cut after it. *)
Lemma decode_rune_take s r w k : decode_rune s = Some (r, w) -> (w <= k)%nat -> decode_rune (take k s) = Some (r, w).
Proof.
  intros E Hk. destruct s as [|b0 [|b1 [|b2 [|b3 s]]]]; destruct k as [|[|[|[|k]]]]; cbn [take]; try done;
    unfold decode_rune in *; repeat case_match; simplify_eq; try done; lia.
Qed.

Lemma chunks_take s k : (k <= length (chunks s))%nat -> chunks (concat (take k (chunks s)).*2) = take k (chunks s).
Proof.
  remember (length s) as n eqn:En. revert s k En. induction n as [n IH] using lt_wf_ind. intros s k -> Hk.
  destruct k as [|k]; [done|]. destruct s as [|x s]; [done|].
  destruct (decode_rune_cons x s) as (r & w & E). pose proof (decode_rune_width _ _ _ E) as Hw.
  rewrite (chunks_step _ _ _ E) in *. cbn [length take fmap list_fmap concat snd] in *.
  set (t := take w (x :: s)). set (d := drop w (x :: s)) in *. set (rest := concat _).
  assert (length t = w) as Ht by (unfold t; rewrite length_take; cbn [length]; lia).
  assert (exists z, d = rest ++ z) as [z Hz].
  { exists (concat (drop k (chunks d)).*2). unfold rest. by rewrite <- concat_app, <- fmap_app, take_drop, chunks_concat. }
  assert (Et : t ++ rest = take (w + length rest) (x :: s)).
  { rewrite <- (take_drop w (x :: s)). fold t. fold d. rewrite Hz, app_assoc.
    rewrite <- Ht, <- length_app. by rewrite take_app_length. }
  rewrite (chunks_step (t ++ rest) r w) by (rewrite Et; apply (decode_rune_take _ _ _ _ E); lia).
  rewrite take_app_length', drop_app_length' by done. f_equal. unfold rest.
  eapply IH; [|done|lia]. unfold d. rewrite length_drop. cbn [length] in *. lia.
Qed.

Lemma chunks_drop s k : chunks (concat (drop k (chunks s)).*2) = drop k (chunks s).
Proof.
  revert s. induction k as [|k IH]; intros s; [rewrite !drop_0; by rewrite chunks_concat|].
  destruct s as [|x s]; [done|]. destruct (decode_rune_cons x s) as (r & w & E). rewrite (chunks_step _ _ _ E). cbn [drop]. apply IH.
Qed.

(** The runes of a part of a string cut between runes. *)
Lemma chunks_mid s a b c : chunks s = a ++ b ++ c -> chunks (concat b.*2) = b.
Proof.
  intros E. assert (Eb : chunks (concat (b ++ c).*2) = b ++ c).
  { pose proof (chunks_drop s (length a)) as H. by rewrite E, drop_app_length in H. }
  pose proof (chunks_take (concat (b ++ c).*2) (length b)) as H. rewrite Eb, take_app_length in H. apply H. rewrite length_app. lia.
Qed.

Lemma is_ascii_Forall s : is_ascii s = true <-> Forall (fun b => b < 128) s.
Proof.
  unfold is_ascii. induction s as [|b s IH]; simpl; [split; [constructor|done]|].
  rewrite andb_true_iff, IH, Z.ltb_lt, Forall_cons. done.
Qed.

Lemma chunks_ascii s : is_ascii s = true -> chunks s = map (fun b => (b, [b])) s.
Proof.
  rewrite is_ascii_Forall. unfold chunks. induction 1 as [|b s Hb _ IH]; [done|].
  cbn [length chunks_fuel map].
  rewrite decode_rune_ascii by done. by rewrite <- IH.
Qed.

Lemma runes_ascii s : is_ascii s = true -> runes s = s.
Proof.
  intros H. unfold runes. rewrite chunks_ascii by done.
  clear H. induction s as [|b s IH]; simpl; [done|]. f_equal. exact IH.
Qed.

Lemma HasPrefix_spec s p : HasPrefix s p = true <-> exists t, s = p ++ t.
Proof.
  revert s; induction p as [|b p IH]; intros s; simpl; [by split; [exists s|]|].
  destruct s as [|c s]; [split; [done|by intros [t ?]]|].
  rewrite andb_true_iff, IH, Z.eqb_eq. split.
  - intros [-> [t ->]]. by exists t.
  - intros [t [= -> ->]]. split; eauto.
Qed.

Lemma HasSuffix_spec s p : HasSuffix s p = true <-> exists t, s = t ++ p.
Proof.
  unfold HasSuffix. rewrite HasPrefix_spec. split; intros [t H].
  - exists (rev t). apply (f_equal (@rev Z)) in H.
    by rewrite rev_involutive, rev_app_distr, rev_involutive in H.
  - exists (rev t). subst s. apply rev_app_distr.
Qed.

Lemma TrimSuffix_app s p : TrimSuffix (s ++ p) p = s.
Proof.
  unfold TrimSuffix. rewrite (proj2 (HasSuffix_spec _ _)) by eauto.
  rewrite length_app. replace (length s + length p - length p)%nat with (length s) by lia.
  by rewrite take_app_length.
Qed.

Lemma Index_Some_spec s sub i :
  Index s sub = Some i -> exists u v, s = u ++ sub ++ v /\ length u = i.
Proof.
  revert i; induction s as [|b s IH]; intros i.
  - simpl. destruct sub; [|done]. intros [= <-]. by exists [], [].
  - cbn [Index]. destruct (HasPrefix (b :: s) sub) eqn:E.
    + intros [= <-]. apply HasPrefix_spec in E as [t E]. by exists [], t.
    + destruct (Index s sub) as [j|] eqn:E'; [|done]. simpl. intros [= <-].
      destruct (IH j eq_refl) as (u & v & -> & <-). by exists (b :: u), v.
Qed.

Lemma Index_None_spec s sub : Index s sub = None -> forall u v, s <> u ++ sub ++ v.
Proof.
  induction s as [|b s IH]; cbn [Index]; intros H u v Heq.
  - destruct sub; [done|]. by destruct u.
  - destruct (HasPrefix (b :: s) sub) eqn:E; [done|].
    destruct (Index s sub) eqn:E'; [done|].
    destruct u as [|c u].
    + simpl in Heq. rewrite Heq in E.
      by rewrite (proj2 (HasPrefix_spec _ _)) in E by eauto.
    + injection Heq as -> Heq. by apply (IH eq_refl u v).
Qed.

Lemma Contains_spec s sub : Contains s sub = true <-> exists u v, s = u ++ sub ++ v.
Proof.
  unfold Contains. destruct (Index s sub) eqn:E; split; try done.
  - intros _. apply Index_Some_spec in E as (u & v & ? & _). eauto.
  - intros (u & v & Heq). exfalso. by apply (Index_None_spec _ _ E u v).
Qed.

Lemma Contains_byte s b : Contains s [b] = true <-> b ∈ s.
Proof.
  rewrite Contains_spec. split.
  - intros (u & v & ->). set_solver.
  - intros (u & v & ->)%list_elem_of_split. by exists u, v.
Qed.

#[global] Instance ble_refl : Reflexive ble.
Proof. intros a. unfold ble. induction a; simpl; [done|]. by rewrite Z.eqb_refl. Qed.

#[global] Instance ble_trans : Transitive ble.
Proof.
  unfold ble. intros a. induction a as [|x a IH]; intros [|y b] [|z c]; simpl; try done.
  destruct (Z.eqb_spec x y), (Z.eqb_spec y z), (Z.eqb_spec x z); subst; try done; eauto;
    rewrite ?Z.ltb_lt; try lia.
Qed.

#[global] Instance ble_total : Total ble.
Proof.
  unfold ble. intros a. induction a as [|x a IH]; intros [|y b]; simpl; auto.
  destruct (Z.eqb_spec x y), (Z.eqb_spec y x); subst; try done; auto.
  rewrite !Z.ltb_lt. lia.
Qed.

#[global] Instance ble_antisymm : AntiSymm (=) ble.
Proof.
  unfold ble. intros a. induction a as [|x a IH]; intros [|y b]; simpl; try done.
  destruct (Z.eqb_spec x y), (Z.eqb_spec y x); subst; try done; rewrite ?Z.ltb_lt; try lia.
  intros. f_equal. auto.
Qed.

Lemma bltb_spec a b : bltb a b = true <-> ble a b /\ a <> b.
Proof.
  unfold bltb. rewrite negb_true_iff. split.
  - intros H. destruct (total ble a b) as [Hab|Hba]; [|unfold ble in Hba; congruence].
    split; [done|]. intros ->. change (ble b b) in Hab. unfold ble in Hab. congruence.
  - intros [Hab Hne]. destruct (bleb b a) eqn:E; [|done].
    exfalso. apply Hne. by apply (anti_symm ble).
Qed.

Lemma Sort_perm l : Sort l ≡ₚ l.
Proof. apply merge_sort_Permutation. Qed.

Lemma Sort_sorted l : StronglySorted ble (Sort l).
Proof. apply StronglySorted_merge_sort; apply _. Qed.

Lemma elem_of_Sort x l : x ∈ Sort l <-> x ∈ l.
Proof. by rewrite Sort_perm. Qed.

(** Sorting forgets the order of its input. *)
Lemma Sort_Permutation l k : l ≡ₚ k -> Sort l = Sort k.
Proof.
  intros H. eapply (StronglySorted_unique ble).
  - apply Sort_sorted.
  - apply Sort_sorted.
  - by rewrite !Sort_perm.
Qed.

(** * Lemmas: trimming *)

Lemma filter_all {A} (P : A -> Prop) `{!forall x, Decision (P x)} (l : list A) :
  (forall x, x ∈ l -> P x) -> filter P l = l.
Proof.
  intros Hl. induction l as [|x l IH]; [done|].
  rewrite filter_cons_True by (apply Hl; by left). f_equal. apply IH. intros y Hy. apply Hl. by right.
Qed.

Section Trim.
Context {A : Type} (f : A -> bool).

Lemma drop_while_map {B} (g : B -> A) l : drop_while f (map g l) = map g (drop_while (fun b => f (g b)) l).
Proof. induction l as [|b l IH]; cbn; [done|]. by destruct (f (g b)). Qed.

Lemma drop_while_split l : exists l', l = l' ++ drop_while f l.
Proof. induction l as [|b l [l' IH]]; cbn; [by exists []|]. destruct (f b); [exists (b :: l'); cbn; by f_equal|by exists []]. Qed.

Lemma drop_while_idem l : drop_while f (drop_while f l) = drop_while f l.
Proof. induction l as [|b l IH]; cbn; [done|]. destruct (f b) eqn:E; cbn; by rewrite ?E. Qed.

Definition trim (l : list A) : list A := rev (drop_while f (rev (drop_while f l))).

Lemma trim_idem l : trim (trim l) = trim l.
Proof.
  unfold trim at 1. set (m := drop_while f l). assert (drop_while f m = m) as Hm by apply drop_while_idem.
  assert (drop_while f (trim l) = trim l) as ->.
  { unfold trim. fold m. destruct (drop_while_split (rev m)) as [t Ht].
    apply (f_equal (@rev A)) in Ht. rewrite rev_involutive, rev_app_distr in Ht.
    destruct (rev (drop_while f (rev m))) as [|b x]; [done|].
    rewrite Ht in Hm. cbn in *. destruct (f b); [|done].
    exfalso. destruct (drop_while_split (x ++ rev t)) as [y Hy]. rewrite Hm in Hy.
    apply (f_equal (@length A)) in Hy. rewrite length_app in Hy. cbn in Hy. rewrite !length_app in Hy. cbn in Hy.
    rewrite length_app in Hy. lia. }
  unfold trim. by rewrite rev_involutive, drop_while_idem.
Qed.
End Trim.

Lemma trim_mid {A} (f : A -> bool) l : exists a c, l = a ++ trim f l ++ c.
Proof.
  destruct (drop_while_split f l) as [a Ea]. destruct (drop_while_split f (rev (drop_while f l))) as [c Ec].
  exists a, (rev c). rewrite Ea at 1. f_equal. unfold trim. rewrite <- rev_app_distr, <- Ec. by rewrite rev_involutive.
Qed.

Lemma chunks_Trim f s : chunks (TrimFunc f s) = trim (fun c => f c.1) (chunks s).
Proof. destruct (trim_mid (fun c => f c.1) (chunks s)) as (a & c & E). exact (chunks_mid s a _ c E). Qed.

Lemma Trim_idem f s : TrimFunc f (TrimFunc f s) = TrimFunc f s.
Proof.
  change (TrimFunc f (TrimFunc f s)) with (concat (trim (fun c => f c.1) (chunks (TrimFunc f s))).*2).
  by rewrite chunks_Trim, trim_idem.
Qed.

Lemma drop_while_ext {A} (f g : A -> bool) l : (forall x, f x = g x) -> drop_while f l = drop_while g l.
Proof. intros E. induction l as [|b l IH]; cbn; [done|]. rewrite E. by destruct (g b). Qed.

Lemma TrimSpace_ascii s : is_ascii s = true -> TrimSpace s = trim IsSpace s.
Proof.
  intros Ha. unfold TrimSpace, TrimFunc, trim. rewrite chunks_ascii by done.
  rewrite drop_while_map, <- map_rev, drop_while_map, <- map_rev. cbn [fst].
  set (l := rev _). clearbody l. induction l as [|b l IH]; [done|]. cbn. f_equal. exact IH.
Qed.

Lemma ToLower_ascii `{UnicodeCase} s : is_ascii s = true -> ToLower s = map lower_byte s.
Proof. intros Ha. unfold ToLower. by rewrite Ha. Qed.
