(* ===== verification/GoNet.v ===== *)
(** Go's package [net]: addresses, masks and networks.

    A [net.IP] is a byte slice ([nil] is the empty one), a [net.IPMask] a byte
    slice, a [net.IPNet] a pair of them.  Parsing follows [netip.ParseAddr],
    [net.ParseIP] and [net.ParseCIDR]; printing follows [IP.String] and
    [IPNet.String]. *)
From S2P Require Import Prelude GoStrings.

Open Scope Z_scope.

Definition IPv4len : nat := 4.
Definition IPv6len : nat := 16.
Definition v4InV6Prefix : bytes := [0;0;0;0;0;0;0;0;0;0;0xff;0xff].
Definition IPv6loopback : bytes := [0;0;0;0;0;0;0;0;0;0;0;0;0;0;0;1].

(** [ip.To4()] and [ip.To16()]; [None] is a nil result. *)
Definition To4 (ip : bytes) : option bytes :=
  if decide (length ip = IPv4len) then Some ip
  else if decide (length ip = IPv6len /\ take 12 ip = v4InV6Prefix) then Some (drop 12 ip)
  else None.

Definition To16 (ip : bytes) : option bytes :=
  if decide (length ip = IPv4len) then Some (v4InV6Prefix ++ ip)
  else if decide (length ip = IPv6len) then Some ip
  else None.

Definition IsLoopback (ip : bytes) : bool :=
  match To4 ip with
  | Some v4 => match v4 with b :: _ => b =? 127 | [] => false end
  | None => bool_decide (ip = IPv6loopback)
  end.

(** * Masks and networks *)

Record IPNet := mkIPNet { net_IP : bytes; net_Mask : bytes }.

#[global] Instance IPNet_eq_dec : EqDecision IPNet.
Proof. solve_decision. Defined.

(** A byte with its [n] high bits set. *)
Definition prefix_byte (n : nat) : Z := 256 - 2 ^ (8 - Z.of_nat n).

Fixpoint CIDRMask (l ones : nat) : bytes :=
  match l with
  | O => []
  | S l' => prefix_byte (Nat.min 8 ones) :: CIDRMask l' (ones - 8)
  end.

(** The number of leading ones of a mask byte whose other bits are zero. *)
Definition byte_ones (v : Z) : option nat :=
  match list_find (fun n => prefix_byte n = v) (seq 0 9) with
  | Some (_, n) => Some n
  | None => None
  end.

Fixpoint simpleMaskLength (m : bytes) : option nat :=
  match m with
  | [] => Some 0%nat
  | v :: m' =>
    if decide (v = 0xff) then (fun n => 8 + n)%nat <$> simpleMaskLength m'
    else match byte_ones v with
         | Some n => if forallb (fun b => b =? 0) m' then Some n else None
         | None => None
         end
  end.

(** [m.Size()]: leading ones and total bits, (0, 0) for a non-canonical mask. *)
Definition Mask_Size (m : bytes) : nat * nat :=
  match simpleMaskLength m with
  | Some n => (n, 8 * length m)%nat
  | None => (0, 0)%nat
  end.

Definition land_bytes : bytes -> bytes -> bytes := zip_with Z.land.

Definition IP_Mask (ip mask : bytes) : option bytes :=
  let mask' := if decide (length mask = IPv6len /\ length ip = IPv4len /\ take 12 mask = replicate 12 0xff)
               then drop 12 mask else mask in
  let ip' := if decide (length mask' = IPv4len /\ length ip = IPv6len /\ take 12 ip = v4InV6Prefix)
             then drop 12 ip else ip in
  if decide (length ip' = length mask') then Some (land_bytes ip' mask') else None.

Definition networkNumberAndMask (n : IPNet) : option (bytes * bytes) :=
  let ip := match To4 (net_IP n) with
            | Some v4 => Some v4
            | None => if decide (length (net_IP n) = IPv6len) then Some (net_IP n) else None
            end in
  match ip with
  | None => None
  | Some ip =>
    if decide (length (net_Mask n) = IPv4len) then
      if decide (length ip = IPv4len) then Some (ip, net_Mask n) else None
    else if decide (length (net_Mask n) = IPv6len) then
      Some (ip, if decide (length ip = IPv4len) then drop 12 (net_Mask n) else net_Mask n)
    else None
  end.

(** [n.Contains(ip)].  With a nil network number the lengths differ for
    every non-empty address; for the empty one Go's loop is empty. *)
Definition IPNet_Contains (n : IPNet) (ip : bytes) : bool :=
  let x := match To4 ip with Some v4 => v4 | None => ip end in
  match networkNumberAndMask n with
  | None => bool_decide (x = [])
  | Some (nn, m) =>
    if decide (length x = length nn) then bool_decide (land_bytes nn m = land_bytes x m) else false
  end.

(** * Parsing *)

(** [parseIPv4Fields]: [val] the octet so far, [digs] its digits, [acc] the
    octets before it, [prev_dot] whether the previous byte was a dot (or
    there was none). *)
Fixpoint parse_v4_loop (s : bytes) (val : Z) (digs : nat) (acc : bytes) (prev_dot : bool) : option bytes :=
  match s with
  | [] => if decide (length acc < 3)%nat then None else Some (acc ++ [val])
  | c :: s' =>
    if is_digit c then
      if decide (digs = 1%nat /\ val = 0) then None
      else
        let val' := val * 10 + (c - 48) in
        if 255 <? val' then None else parse_v4_loop s' val' (S digs) acc false
    else if c =? 46 then
      if prev_dot || (match s' with [] => true | _ => false end) then None
      else if decide (length acc = 3%nat) then None
      else parse_v4_loop s' 0 0 (acc ++ [val]) true
    else None
  end.
Definition parseIPv4 (s : bytes) : option bytes := parse_v4_loop s 0 0 [] true.

Definition hex_val (c : Z) : option Z :=
  if is_digit c then Some (c - 48)
  else if in_range 97 102 c then Some (c - 87)
  else if in_range 65 70 c then Some (c - 55)
  else None.

Fixpoint hex_run (s : bytes) (acc : Z) (off : nat) : Z * nat :=
  match s with
  | [] => (acc, off)
  | c :: s' =>
    match hex_val c with
    | Some v => hex_run s' (acc * 16 + v) (S off)
    | None => (acc, off)
    end
  end.

(** The field loop of [netip.parseIPv6]: [acc] the bytes saved so far, [ell]
    the position of the ellipsis.  The result is the unread rest, the bytes
    and the ellipsis.  Each round saves two bytes, so nine rounds suffice. *)
Fixpoint v6_loop (fuel : nat) (s acc : bytes) (ell : option nat) : option (bytes * bytes * option nat) :=
  match fuel with
  | O => None
  | S fuel' =>
    if decide (16 <= length acc)%nat then Some (s, acc, ell)
    else
      let '(v, off) := hex_run s 0 0 in
      if decide (4 < off)%nat then None
      else if decide (off = 0%nat) then None
      else if bool_decide (s !! off = Some 46) then
        if bool_decide (ell = None /\ length acc <> 12%nat) then None
        else if decide (16 < length acc + 4)%nat then None
        else match parseIPv4 s with
             | Some v4 => Some ([], acc ++ v4, ell)
             | None => None
             end
      else
        let acc' := acc ++ [v / 256; v mod 256] in
        match drop off s with
        | [] => Some ([], acc', ell)
        | c :: s1 =>
          if negb (c =? 58) then None
          else match s1 with
               | [] => None
               | c2 :: s2 =>
                 if c2 =? 58 then
                   match ell with
                   | Some _ => None
                   | None => match s2 with
                             | [] => Some ([], acc', Some (length acc'))
                             | _ => v6_loop fuel' s2 acc' (Some (length acc'))
                             end
                   end
                 else v6_loop fuel' s1 acc' ell
               end
        end
  end.

Definition v6_finish (r : option (bytes * bytes * option nat)) : option bytes :=
  match r with
  | Some ([], acc, ell) =>
    if decide (length acc < 16)%nat then
      match ell with
      | None => None
      | Some e => Some (take e acc ++ replicate (16 - length acc) 0 ++ drop e acc)
      end
    else match ell with
         | Some _ => None
         | None => Some acc
         end
  | _ => None
  end.

(** [netip.ParseAddr] on an address without a zone; the callers reject every
    zoned address, and an empty zone is a parse error. *)
Definition parseIPv6 (s : bytes) : option bytes :=
  if Contains s [37] then None
  else match s with
       | 58 :: 58 :: [] => Some (replicate 16 0)
       | 58 :: 58 :: s' => v6_finish (v6_loop 9 s' [] (Some 0%nat))
       | _ => v6_finish (v6_loop 9 s [] None)
       end.

Fixpoint ParseAddr_scan (full s : bytes) : option bytes :=
  match s with
  | [] => None
  | c :: s' =>
    if c =? 46 then parseIPv4 full
    else if c =? 58 then parseIPv6 full
    else if c =? 37 then None
    else ParseAddr_scan full s'
  end.
(** Four bytes for an IPv4 address, sixteen for an IPv6 one. *)
Definition ParseAddr (s : bytes) : option bytes := ParseAddr_scan s s.

(** [net.ParseIP]: always the 16-byte form. *)
Definition ParseIP (s : bytes) : option bytes :=
  match ParseAddr s with
  | Some a => To16 a
  | None => None
  end.

Fixpoint dtoi_loop (s : bytes) (n : Z) (i : nat) : option (Z * nat) :=
  match s with
  | [] => Some (n, i)
  | c :: s' =>
    if is_digit c then
      let n' := n * 10 + (c - 48) in
      if 0xFFFFFF <=? n' then None else dtoi_loop s' n' (S i)
    else Some (n, i)
  end.

(** [net.ParseCIDR]: the address and its network. *)
Definition ParseCIDR (s : bytes) : option (bytes * IPNet) :=
  match IndexByte s 47 with
  | None => None
  | Some i =>
    match ParseAddr (take i s) with
    | None => None
    | Some a =>
      let mask := drop (S i) s in
      match dtoi_loop mask 0 0 with
      | Some (n, k) =>
        if decide (k <> 0%nat /\ k = length mask /\ n <= 8 * len a) then
          let m := CIDRMask (length a) (Z.to_nat n) in
          match To16 a with
          | Some a16 =>
            match IP_Mask a16 m with
            | Some nip => Some (a16, mkIPNet nip m)
            | None => None
            end
          | None => None
          end
        else None
      | None => None
      end
    end
  end.

(** * Printing *)

Definition v4_string (ip : bytes) : bytes := Strings_Join (map Uitoa ip) [46].

Definition hex_byte (b : Z) : bytes := [hex_digit (b / 16); hex_digit (b mod 16)].
Definition hex_bytes (s : bytes) : bytes := concat (map hex_byte s).

(** [appendHex]: a 16-bit group without leading zeros. *)
Definition hex_group (g : Z) : bytes :=
  (if 0x1000 <=? g then [hex_digit (g / 4096)] else []) ++
  (if 0x100 <=? g then [hex_digit (g / 256 mod 16)] else []) ++
  (if 0x10 <=? g then [hex_digit (g / 16 mod 16)] else []) ++
  [hex_digit (g mod 16)].

Fixpoint groups (ip : bytes) : list Z :=
  match ip with
  | a :: b :: ip' => a * 256 + b :: groups ip'
  | _ => []
  end.

Fixpoint zero_run (l : list Z) : nat :=
  match l with
  | g :: l' => if g =? 0 then S (zero_run l') else 0%nat
  | [] => 0%nat
  end.

(** The first longest run of at least two zero groups: start and length. *)
Fixpoint best_zero_run (i : nat) (l : list Z) (best : nat * nat) : nat * nat :=
  match l with
  | [] => best
  | _ :: l' =>
    let n := zero_run l in
    best_zero_run (S i) l' (if decide (2 <= n /\ snd best < n)%nat then (i, n) else best)
  end.

Definition v6_string (ip : bytes) : bytes :=
  let gs := groups ip in
  let '(z, n) := best_zero_run 0 gs (8%nat, 0%nat) in
  if decide (n = 0%nat) then Strings_Join (map hex_group gs) [58]
  else Strings_Join (map hex_group (take z gs)) [58] ++ [58; 58] ++
       Strings_Join (map hex_group (drop (z + n) gs)) [58].

Definition IP_String (ip : bytes) : bytes :=
  if decide (ip = []) then str "<nil>"
  else if decide (length ip <> IPv4len /\ length ip <> IPv6len) then 63 :: hex_bytes ip
  else match To4 ip with
       | Some v4 => v4_string v4
       | None => v6_string ip
       end.

Definition IPNet_String (n : IPNet) : bytes :=
  match networkNumberAndMask n with
  | None => str "<nil>"
  | Some (nn, m) =>
    match simpleMaskLength m with
    | Some l => IP_String nn ++ [47] ++ Uitoa (Z.of_nat l)
    | None => IP_String nn ++ [47] ++ hex_bytes m
    end
  end.

(** * Examples that pin the printer and the parser *)

Example parse_v4_ex : ParseIP (str "168.63.129.16") = Some (v4InV6Prefix ++ [168;63;129;16]).
Proof. vm_compute. reflexivity. Qed.
Example parse_v4_bad_ex :
  map ParseIP [str "10.0.0.256"; str "1.2.3"; str "1.2.3.4.5"; str "01.2.3.4"; str "1..2.3"] = replicate 5 None.
Proof. vm_compute. reflexivity. Qed.
Example parse_v6_ex :
  ParseIP (str "2001:db8::8a2e:0:7334") = Some [0x20;1;0xd;0xb8;0;0;0;0;0;0;0x8a;0x2e;0;0;0x73;0x34].
Proof. vm_compute. reflexivity. Qed.
Example parse_v6_bad_ex :
  map ParseIP [str "1::2::3"; str "fe80::1%eth0"; str "1:2:3:4:5:6:7"; str "::12345"; str "1:2:3:4:5:6:7:8:9"; str ":1::"]
  = replicate 6 None.
Proof. vm_compute. reflexivity. Qed.
Example print_v6_ex : map IP_String
  [IPv6loopback; replicate 16 0; v4InV6Prefix ++ [127;0;0;53]; [0x20;1;0xd;0xb8;0;0;0;0;0;0;0x8a;0x2e;0;0;0x73;0x34]]
  = [str "::1"; str "::"; str "127.0.0.53"; str "2001:db8::8a2e:0:7334"].
Proof. vm_compute. reflexivity. Qed.
Example parse_cidr_ex : ParseCIDR (str "10.1.2.3/8")
  = Some (v4InV6Prefix ++ [10;1;2;3], mkIPNet [10;0;0;0] [255;0;0;0]).
Proof. vm_compute. reflexivity. Qed.

(** * Lengths *)

Lemma To4_length ip v : To4 ip = Some v -> length v = 4%nat.
Proof.
  unfold To4, IPv4len, IPv6len. repeat case_decide; intros; simplify_eq; try done.
  rewrite length_drop. lia.
Qed.

Lemma To16_length ip v : To16 ip = Some v -> length v = 16%nat.
Proof.
  unfold To16, IPv4len, IPv6len. repeat case_decide; intros; simplify_eq; try done.
  rewrite length_app. simpl. lia.
Qed.

Lemma To4_v4 ip : length ip = 4%nat -> To4 ip = Some ip.
Proof. intros. unfold To4. by rewrite decide_True. Qed.

(** [To4] is the inverse of the 16-byte embedding. *)
Lemma To4_mapped v : length v = 4%nat -> To4 (v4InV6Prefix ++ v) = Some v.
Proof.
  intros H. unfold To4, IPv4len, IPv6len. rewrite decide_False by (rewrite length_app; simpl; lia).
  rewrite decide_True; [done|]. split; [rewrite length_app; simpl; lia|]. done.
Qed.

Lemma To4_16_inv ip v : length ip = 16%nat -> To4 ip = Some v -> ip = v4InV6Prefix ++ v.
Proof.
  unfold To4, IPv4len, IPv6len. intros Hl. rewrite decide_False by lia.
  case_decide as H; [|done]. intros [= <-]. destruct H as [_ <-]. by rewrite take_drop.
Qed.

Lemma To16_v4 ip : length ip = 4%nat -> To16 ip = Some (v4InV6Prefix ++ ip).
Proof. intros. unfold To16. by rewrite decide_True. Qed.

Lemma To16_v6 ip : length ip = 16%nat -> To16 ip = Some ip.
Proof. intros H. unfold To16. rewrite decide_False, decide_True; unfold IPv4len, IPv6len; done || lia. Qed.

Lemma parse_v4_loop_length s val digs acc pd r :
  (length acc <= 3)%nat -> parse_v4_loop s val digs acc pd = Some r -> length r = 4%nat.
Proof.
  revert val digs acc pd. induction s as [|c s IH]; intros val digs acc pd Hacc; cbn [parse_v4_loop].
  - case_decide; [done|]. intros [= <-]. rewrite length_app. simpl. lia.
  - repeat (case_match; try done); intros H'; (eapply IH in H'; [done|]);
      rewrite ?length_app; simpl; lia.
Qed.

Lemma parseIPv4_length s r : parseIPv4 s = Some r -> length r = 4%nat.
Proof. intros H. eapply parse_v4_loop_length; [|exact H]. simpl. lia. Qed.

Lemma v6_loop_length fuel s acc ell rest r e :
  Nat.Even (length acc) -> (length acc <= 16)%nat ->
  v6_loop fuel s acc ell = Some (rest, r, e) -> (length r <= 16)%nat.
Proof.
  revert s acc ell. induction fuel as [|fuel IH]; intros s acc ell Hev Hacc; cbn [v6_loop]; [done|].
  case_decide; [naive_solver|].
  assert (forall x y, Nat.Even (length (acc ++ [x; y])) /\ (length (acc ++ [x; y]) <= 16)%nat) as Hnext.
  { intros x y. rewrite length_app. cbn [length].
    destruct Hev as [k Hk]. split; [exists (S k); lia|lia]. }
  destruct (hex_run s 0 0) as [v off].
  repeat (case_match; try done); intros; simplify_eq;
    try (apply Hnext); try (eapply IH; [| |eassumption]; apply Hnext).
  rewrite length_app, (parseIPv4_length _ _ ltac:(eassumption)). lia.
Qed.

Lemma parseIPv6_length s r : parseIPv6 s = Some r -> length r = 16%nat.
Proof.
  assert (forall t ell, v6_finish (v6_loop 9 t [] ell) = Some r -> length r = 16%nat) as Hf.
  { intros t ell. destruct (v6_loop 9 t [] ell) as [[[[|? ?] acc] e]|] eqn:E; try done.
    apply v6_loop_length in E; [|by exists 0%nat|simpl; lia].
    cbn [v6_finish]. repeat (case_match; try done); intros; simplify_eq; [|lia].
    rewrite !length_app, length_replicate, length_take, length_drop. lia. }
  unfold parseIPv6. destruct (Contains s [37]); [done|].
  assert (Some (replicate 16 0) = Some r -> length r = 16%nat) by (intros [= <-]; done).
  repeat (case_match; try done); eauto.
Qed.

Lemma ParseAddr_length s a : ParseAddr s = Some a -> length a = 4%nat \/ length a = 16%nat.
Proof.
  unfold ParseAddr. generalize s at 2. intros t. induction t as [|c t IH]; cbn [ParseAddr_scan]; [done|].
  repeat (case_match; try done); eauto using parseIPv4_length, parseIPv6_length.
Qed.

Lemma ParseIP_length s ip : ParseIP s = Some ip -> length ip = 16%nat.
Proof. unfold ParseIP. destruct (ParseAddr s); [apply To16_length|done]. Qed.

Lemma land_bytes_length a m : length a = length m -> length (land_bytes a m) = length a.
Proof. intros. unfold land_bytes. rewrite length_zip_with. lia. Qed.

Lemma land_bytes_idemp a m : land_bytes (land_bytes a m) m = land_bytes a m.
Proof.
  unfold land_bytes. revert m; induction a as [|x a IH]; intros [|y m]; simpl; try done.
  by rewrite <- Z.land_assoc, Z.land_diag, IH.
Qed.

(** * CIDR masks *)

Lemma CIDRMask_length l n : length (CIDRMask l n) = l.
Proof. revert n; induction l; intros; simpl; auto. Qed.

Lemma byte_ones_prefix n : (n <= 8)%nat -> byte_ones (prefix_byte n) = Some n.
Proof. intros. do 9 (destruct n as [|n]; [vm_compute; done|]). lia. Qed.

Lemma prefix_byte_ff n : (n <= 8)%nat -> prefix_byte n = 0xff -> n = 8%nat.
Proof. intros. do 9 (destruct n as [|n]; [vm_compute in *; done|]). lia. Qed.

Lemma CIDRMask_zero l : CIDRMask l 0 = replicate l 0.
Proof. induction l as [|l IH]; [done|]. simpl. by rewrite IH. Qed.

(** The length of a mask built by [CIDRMask] is the prefix length. *)
Lemma simpleMaskLength_CIDRMask l n :
  (n <= 8 * l)%nat -> simpleMaskLength (CIDRMask l n) = Some n.
Proof.
  revert n. induction l as [|l IH]; intros n Hn; [destruct n; [done|lia]|].
  cbn [CIDRMask simpleMaskLength].
  destruct (decide (8 <= n)%nat) as [H8|H8].
  - rewrite Nat.min_l by lia. rewrite decide_True by done.
    rewrite IH by lia. simpl. f_equal. lia.
  - rewrite Nat.min_r by lia. rewrite decide_False.
    2: { intros E. apply prefix_byte_ff in E; lia. }
    rewrite byte_ones_prefix by lia. replace (n - 8)%nat with 0%nat by lia.
    rewrite CIDRMask_zero.
    replace (forallb _ _) with true; [done|].
    clear. induction l; simpl; auto.
Qed.

Lemma Mask_Size_CIDRMask l n : (n <= 8 * l)%nat -> Mask_Size (CIDRMask l n) = (n, 8 * l)%nat.
Proof. intros. unfold Mask_Size. by rewrite simpleMaskLength_CIDRMask, CIDRMask_length. Qed.

Lemma IP_Mask_same ip m : length ip = length m -> (length ip = 4 \/ length ip = 16)%nat ->
  IP_Mask ip m = Some (land_bytes ip m).
Proof.
  intros Hl H. unfold IP_Mask, IPv4len, IPv6len. cbv zeta.
  repeat case_decide; done || lia.
Qed.

Lemma IP_Mask_mapped v m : length v = 4%nat -> length m = 4%nat ->
  IP_Mask (v4InV6Prefix ++ v) m = Some (land_bytes v m).
Proof.
  intros Hv Hm.
  assert (length (v4InV6Prefix ++ v) = 16%nat) by (rewrite length_app; simpl; lia).
  unfold IP_Mask, IPv4len, IPv6len. cbv zeta.
  change (drop 12 (v4InV6Prefix ++ v)) with v. change (take 12 (v4InV6Prefix ++ v)) with v4InV6Prefix.
  repeat case_decide; done || lia || tauto.
Qed.

(** The two shapes of a parsed CIDR: an IPv4 one has 4-byte network and mask,
    one written with colons has 16-byte network and mask. *)
Inductive cidr_shape (ip : bytes) (n : IPNet) : Prop :=
  | cidr_v4 v k : length v = 4%nat -> (k <= 32)%nat -> ip = v4InV6Prefix ++ v ->
      n = mkIPNet (land_bytes v (CIDRMask 4 k)) (CIDRMask 4 k) -> cidr_shape ip n
  | cidr_v6 k : length ip = 16%nat -> (k <= 128)%nat ->
      n = mkIPNet (land_bytes ip (CIDRMask 16 k)) (CIDRMask 16 k) -> cidr_shape ip n.

Lemma dtoi_loop_nonneg s n i m k : 0 <= n -> dtoi_loop s n i = Some (m, k) -> 0 <= m.
Proof.
  revert n i. induction s as [|c s IH]; intros n i Hn; cbn [dtoi_loop]; [naive_solver|].
  destruct (is_digit c) eqn:Ed; [|naive_solver].
  case_match; [done|]. apply IH. unfold is_digit, in_range in Ed.
  apply andb_true_iff in Ed as [?%Z.leb_le _]. lia.
Qed.

Lemma ParseCIDR_shape s ip n : ParseCIDR s = Some (ip, n) -> cidr_shape ip n.
Proof.
  unfold ParseCIDR. destruct (IndexByte s 47) as [i|]; [|done].
  destruct (ParseAddr (take i s)) as [a|] eqn:Ea; [|done].
  destruct (dtoi_loop _ 0 0) as [[k j]|] eqn:Ed; [|done].
  case_decide as Hk; [|done]. destruct Hk as (_ & _ & Hk). unfold len in Hk.
  apply dtoi_loop_nonneg in Ed; [|lia].
  apply ParseAddr_length in Ea as [Ha|Ha].
  - rewrite To16_v4 by done. rewrite Ha, IP_Mask_mapped by (rewrite ?CIDRMask_length; done).
    intros [= <- <-]. eapply (cidr_v4 _ _ a (Z.to_nat k)); done || lia.
  - rewrite To16_v6 by done. rewrite Ha, IP_Mask_same by (rewrite ?CIDRMask_length; lia).
    intros [= <- <-]. eapply (cidr_v6 _ _ (Z.to_nat k)); done || lia.
Qed.

(** * IPv4 print/parse round trip *)

Lemma octet_cases (P : Z -> Prop) :
  (forall n, (n < 256)%nat -> P (Z.of_nat n)) -> forall o, is_byte o -> P o.
Proof.
  intros H o Ho. unfold is_byte in Ho. rewrite <- (Z2Nat.id o) by lia. apply H. lia.
Qed.

(** Reading the decimal digits of an octet leaves its value in [val]. *)
Lemma parse_octet o rest acc pd : is_byte o ->
  exists d, (d <> 0)%nat /\
  parse_v4_loop (Uitoa o ++ rest) 0 0 acc pd = parse_v4_loop rest o d acc false.
Proof.
  intros Ho. revert rest acc pd. pattern o. revert o Ho. apply octet_cases.
  intros n Hn.
  do 256 (destruct n as [|n]; [intros; eexists; split; [|reflexivity]; done|]). lia.
Qed.

Lemma scan_octet full o rest : is_byte o -> ParseAddr_scan full (Uitoa o ++ 46 :: rest) = parseIPv4 full.
Proof.
  revert o. apply octet_cases. intros n Hn.
  do 256 (destruct n as [|n]; [reflexivity|]). lia.
Qed.

Lemma dec_fuel_nonempty n v acc : (n <> 0)%nat \/ acc <> [] -> dec_fuel n v acc <> [].
Proof.
  revert v acc. induction n as [|n IH]; intros v acc H; cbn [dec_fuel]; [by destruct H|].
  case_match; [done|]. apply IH. by right.
Qed.

Lemma Uitoa_app_cons o rest : exists x t, Uitoa o ++ rest = x :: t.
Proof.
  unfold Uitoa. destruct (dec_fuel _ o []) as [|x t] eqn:E; [|simpl; eauto].
  apply dec_fuel_nonempty in E; [done|]. left. lia.
Qed.

(** One dot of the IPv4 parser, followed by the digits of [o]. *)
Lemma parse_dot o rest val digs acc : (length acc < 3)%nat ->
  parse_v4_loop (46 :: Uitoa o ++ rest) val digs acc false =
  parse_v4_loop (Uitoa o ++ rest) 0 0 (acc ++ [val]) true.
Proof.
  intros H. destruct (Uitoa_app_cons o rest) as (x & t & ->).
  cbn -[length]. rewrite decide_False by lia. done.
Qed.

Lemma ParseAddr_v4_string v : length v = 4%nat -> wf_bytes v -> ParseAddr (v4_string v) = Some v.
Proof.
  intros Hl Hw. destruct v as [|a [|b [|c [|d [|? ?]]]]]; simpl in Hl; try lia.
  inversion Hw as [|? ? Ha Hw1]; inversion Hw1 as [|? ? Hb Hw2];
    inversion Hw2 as [|? ? Hc Hw3]; inversion Hw3 as [|? ? Hd _]; subst.
  unfold v4_string. cbn [map Strings_Join app]. unfold ParseAddr.
  rewrite scan_octet by done. unfold parseIPv4.
  rewrite <- (app_nil_r (Uitoa d)).
  destruct (parse_octet a (46 :: Uitoa b ++ 46 :: Uitoa c ++ 46 :: Uitoa d ++ []) [] true Ha) as (k1 & _ & ->).
  rewrite parse_dot by (simpl; lia). cbn [app].
  destruct (parse_octet b (46 :: Uitoa c ++ 46 :: Uitoa d ++ []) [a] true Hb) as (k2 & _ & ->).
  rewrite parse_dot by (simpl; lia). cbn [app].
  destruct (parse_octet c (46 :: Uitoa d ++ []) [a; b] true Hc) as (k3 & _ & ->).
  rewrite parse_dot by (simpl; lia). cbn [app].
  destruct (parse_octet d [] [a; b; c] true Hd) as (k4 & _ & ->). done.
Qed.

Lemma IP_String_v4 v : length v = 4%nat -> IP_String v = v4_string v.
Proof.
  intros H. unfold IP_String, IPv4len, IPv6len. rewrite decide_False by (by intros ->).
  rewrite decide_False by lia. by rewrite To4_v4.
Qed.

Lemma IP_String_v4_inj u v : length u = 4%nat -> length v = 4%nat -> wf_bytes u -> wf_bytes v ->
  IP_String u = IP_String v -> u = v.
Proof.
  intros. rewrite !IP_String_v4 in * by done.
  assert (Some u = Some v) as [= ->]; [|done].
  rewrite <- (ParseAddr_v4_string u), <- (ParseAddr_v4_string v) by done. congruence.
Qed.

(** * Parsed addresses are bytes *)

Lemma parse_v4_loop_wf s val digs acc pd r :
  is_byte val -> wf_bytes acc -> parse_v4_loop s val digs acc pd = Some r -> wf_bytes r.
Proof.
  revert val digs acc pd. induction s as [|c s IH]; intros val digs acc pd Hv Hacc; cbn [parse_v4_loop].
  - case_decide; [done|]. intros [= <-]. apply Forall_app. split; [done|by constructor].
  - destruct (is_digit c) eqn:Ed.
    + case_decide; [done|]. destruct (255 <? _) eqn:E; [done|]. apply IH; [|done].
      apply Z.ltb_ge in E. unfold is_byte in *. unfold is_digit, in_range in Ed.
      apply andb_true_iff in Ed as [?%Z.leb_le _]. lia.
    + repeat (case_match; try done); apply IH; try (split; lia);
        apply Forall_app; split; auto; by constructor.
Qed.

Lemma parseIPv4_wf s r : parseIPv4 s = Some r -> wf_bytes r.
Proof. apply parse_v4_loop_wf; [by split|constructor]. Qed.

Lemma hex_val_range c v : hex_val c = Some v -> 0 <= v < 16.
Proof.
  unfold hex_val, is_digit, in_range.
  repeat case_match; intros; simplify_eq; rewrite andb_true_iff, !Z.leb_le in *; lia.
Qed.

Lemma hex_run_range s acc off v n :
  0 <= acc < 16 ^ Z.of_nat off -> hex_run s acc off = (v, n) -> 0 <= v < 16 ^ Z.of_nat n.
Proof.
  revert acc off. induction s as [|c s IH]; intros acc off Hacc; cbn [hex_run]; [naive_solver|].
  destruct (hex_val c) as [d|] eqn:Ec; [|naive_solver]. apply IH.
  apply hex_val_range in Ec. rewrite Nat2Z.inj_succ, Z.pow_succ_r by lia. lia.
Qed.

Lemma v6_loop_wf fuel s acc ell rest r e :
  wf_bytes acc -> v6_loop fuel s acc ell = Some (rest, r, e) -> wf_bytes r.
Proof.
  revert s acc ell. induction fuel as [|fuel IH]; intros s acc ell Hacc; cbn [v6_loop]; [done|].
  case_decide; [naive_solver|].
  destruct (hex_run s 0 0) as [v off] eqn:Ev.
  apply hex_run_range in Ev; [|done].
  case_decide as Hoff; [done|]. case_decide; [done|].
  assert (wf_bytes (acc ++ [v / 256; v mod 256])) as Hnext.
  { assert (16 ^ Z.of_nat off <= 16 ^ 4) by (apply Z.pow_le_mono_r; lia).
    change (16 ^ 4) with 65536 in *.
    apply Forall_app. split; [done|]. unfold is_byte.
    constructor; [|constructor; [|constructor]].
    - split; [apply Z.div_pos; lia|apply Z.div_lt_upper_bound; lia].
    - apply Z.mod_pos_bound. lia. }
  repeat (case_match; try done); intros; simplify_eq; try done; try (by eapply IH; [|eassumption]).
  apply Forall_app; split; [done|]. by eapply parseIPv4_wf.
Qed.

Lemma parseIPv6_wf s r : parseIPv6 s = Some r -> wf_bytes r.
Proof.
  assert (wf_bytes (replicate 16 0)) as Hz by (repeat constructor; lia).
  assert (forall t ell, v6_finish (v6_loop 9 t [] ell) = Some r -> wf_bytes r) as Hf.
  { intros t ell. destruct (v6_loop 9 t [] ell) as [[[[|? ?] acc] e]|] eqn:E; try done.
    apply v6_loop_wf in E; [|constructor].
    cbn [v6_finish]. repeat (case_match; try done); intros; simplify_eq; [|done].
    apply Forall_app; split; [by apply Forall_take|].
    apply Forall_app; split; [|by apply Forall_drop].
    apply Forall_replicate. split; lia. }
  unfold parseIPv6. destruct (Contains s [37]); [done|].
  assert (Some (replicate 16 0) = Some r -> wf_bytes r) by (intros [= <-]; done).
  repeat (case_match; try done); eauto.
Qed.

Lemma ParseAddr_wf s a : ParseAddr s = Some a -> wf_bytes a.
Proof.
  unfold ParseAddr. generalize s at 2. intros t. induction t as [|c t IH]; cbn [ParseAddr_scan]; [done|].
  repeat (case_match; try done); eauto using parseIPv4_wf, parseIPv6_wf.
Qed.

Lemma land_byte a b : is_byte a -> is_byte b -> is_byte (Z.land a b).
Proof.
  intros [] []. split; [apply Z.land_nonneg; lia|].
  destruct (decide (a = 0)) as [->|]; [rewrite Z.land_0_l; lia|].
  destruct (decide (Z.land a b = 0)) as [->|]; [lia|].
  assert (0 <= Z.land a b) by (apply Z.land_nonneg; lia).
  apply Z.log2_lt_pow2 with (b := 8); [lia|].
  pose proof (Z.log2_land a b ltac:(lia) ltac:(lia)).
  assert (Z.log2 a < 8) by (apply Z.log2_lt_pow2; lia). lia.
Qed.

Lemma wf_land_bytes a m : wf_bytes a -> wf_bytes m -> wf_bytes (land_bytes a m).
Proof.
  intros Ha. revert m. induction Ha as [|x a Hx _ IH]; intros [|y m] Hm; try constructor;
    inversion Hm; subst; [by apply land_byte|by apply IH].
Qed.

Lemma wf_CIDRMask l n : wf_bytes (CIDRMask l n).
Proof.
  revert n. induction l as [|l IH]; intros n; cbn [CIDRMask]; constructor; [|apply IH].
  unfold is_byte, prefix_byte.
  assert (2 ^ (8 - Z.of_nat (Nat.min 8 n)) <= 2 ^ 8) by (apply Z.pow_le_mono_r; lia).
  assert (0 < 2 ^ (8 - Z.of_nat (Nat.min 8 n))) by (apply Z.pow_pos_nonneg; lia).
  change (2 ^ 8) with 256 in *. lia.
Qed.

(** The high part of a 16-byte mask that keeps the mapped prefix. *)
Lemma CIDRMask_drop k : (96 <= k <= 128)%nat -> drop 12 (CIDRMask 16 k) = CIDRMask 4 (k - 96).
Proof.
  intros [H1 H2]. cbn [CIDRMask drop].
  repeat match goal with |- context [(?a - 8)%nat] =>
    lazymatch a with (k - ?n)%nat => replace (a - 8)%nat with (k - (n + 8))%nat by lia
                   | k => idtac end end.
  repeat (f_equal; try lia).
Qed.

Lemma Uitoa_inj a b : is_byte a -> is_byte b -> Uitoa a = Uitoa b -> a = b.
Proof.
  intros Ha Hb E.
  destruct (parse_octet a [] [0; 0; 0] true Ha) as (d & _ & Ea).
  destruct (parse_octet b [] [0; 0; 0] true Hb) as (d' & _ & Eb).
  rewrite E, Eb in Ea. cbn [parse_v4_loop] in Ea.
  rewrite !decide_False in Ea by (simpl; lia). simpl in Ea. congruence.
Qed.

Lemma Uitoa_no_slash o : is_byte o -> 47 ∉ Uitoa o.
Proof.
  revert o. apply octet_cases. intros n Hn.
  apply (bool_decide_unpack _).
  do 256 (destruct n as [|n]; [exact I|]). lia.
Qed.

Lemma v4_string_no_slash v : wf_bytes v -> 47 ∉ v4_string v.
Proof.
  unfold v4_string. induction 1 as [|b [|c v] Hb Hv IH]; cbn [map Strings_Join]; [by intros ?%elem_of_nil|..].
  - by apply Uitoa_no_slash.
  - rewrite !elem_of_app. intros [?|[?%list_elem_of_singleton|?]]; [by apply (Uitoa_no_slash b)|lia|by apply IH].
Qed.

Lemma sep_inj {A} (x : A) a b c d : x ∉ a -> x ∉ b -> a ++ x :: c = b ++ x :: d -> a = b /\ c = d.
Proof.
  revert b. induction a as [|y a IH]; intros [|z b]; cbn; rewrite ?elem_of_cons; intros Ha Hb Heq;
    simplify_eq; try tauto.
  destruct (IH b) as [-> ->]; tauto.
Qed.

Lemma wf_To16 a v : wf_bytes a -> To16 a = Some v -> wf_bytes v.
Proof.
  unfold To16. repeat case_decide; intros; simplify_eq; try done.
  apply Forall_app. split; [repeat constructor; lia|done].
Qed.

Lemma ParseCIDR_wf s ip n : ParseCIDR s = Some (ip, n) -> wf_bytes ip.
Proof.
  unfold ParseCIDR. repeat (case_match; try done); intros; simplify_eq.
  eauto using wf_To16, ParseAddr_wf.
Qed.

Lemma ParseIP_wf s ip : ParseIP s = Some ip -> wf_bytes ip.
Proof.
  unfold ParseIP. destruct (ParseAddr s) as [a|] eqn:E; [|done].
  eauto using wf_To16, ParseAddr_wf.
Qed.

Lemma land_ff x y : is_byte y -> Z.land x y = 0xff -> y = 0xff.
Proof.
  intros [] E. assert (Z.land 0xff y = 0xff) as E'.
  { rewrite <- E at 1. by rewrite <- Z.land_assoc, Z.land_diag. }
  rewrite Z.land_comm in E'. change 0xff with (Z.ones 8) in E' at 1.
  rewrite Z.land_ones in E' by lia. change (2 ^ 8) with 256 in E'.
  by rewrite Z.mod_small in E' by lia.
Qed.

(** A 16-byte network whose number is IPv4-mapped has a mask of at least
    96 ones. *)
Lemma mapped_mask_ones ip k : length ip = 16%nat -> (k <= 128)%nat ->
  To4 (land_bytes ip (CIDRMask 16 k)) <> None -> (96 <= k)%nat.
Proof.
  intros Hl Hk Ht.
  assert (length (land_bytes ip (CIDRMask 16 k)) = 16%nat) as Hl'
    by (rewrite land_bytes_length; rewrite ?CIDRMask_length; done).
  destruct (To4 (land_bytes ip (CIDRMask 16 k))) as [w|] eqn:E; [|done]. clear Ht.
  apply To4_16_inv in E; [|done].
  apply (f_equal (fun l : bytes => l !! 11%nat)) in E.
  rewrite lookup_app_l in E by (simpl; lia). change (v4InV6Prefix !! 11%nat) with (Some 0xff) in E.
  unfold land_bytes in E. rewrite lookup_zip_with in E.
  destruct (ip !! 11%nat) as [x|] eqn:Ex; [|done].
  change (CIDRMask 16 k !! 11%nat) with (Some (prefix_byte (Nat.min 8 (k - 8 - 8 - 8 - 8 - 8 - 8 - 8 - 8 - 8 - 8 - 8)))) in E.
  cbn [mbind option_bind] in E. injection E as E.
  apply land_ff in E.
  - pose proof (prefix_byte_ff _ (Nat.le_min_l _ _) E). lia.
  - pose proof (wf_CIDRMask 1 (k - 8 - 8 - 8 - 8 - 8 - 8 - 8 - 8 - 8 - 8 - 8)) as Hw.
    by inversion Hw.
Qed.
