(* ===== verification/GoPath.v ===== *)
(** Package path/filepath on Unix: [Clean], [Join], [Dir], [Base], [IsAbs],
    [Abs] and [Rel], on the components of a path, and the lemmas on them. *)
From S2P Require Import Prelude GoStrings.

Open Scope Z_scope.

Definition slash : bytes := [47].
Definition dot : bytes := [46].
Definition dotdot : bytes := [46; 46].

Definition IsAbs (p : bytes) : bool := HasPrefix p slash.

(** One component: empty and [.] are dropped; [..] removes the component before
    it, is dropped at the root, and is kept at the start of a relative path.
    The stack holds the last component first. *)
Definition clean_step (rooted : bool) (stack : list bytes) (c : bytes) : list bytes :=
  if decide (c = [] \/ c = dot) then stack
  else if decide (c = dotdot) then
    match stack with
    | [] => if rooted then [] else [dotdot]
    | top :: below => if decide (top = dotdot) then dotdot :: stack else below
    end
  else c :: stack.

Definition clean_comps (rooted : bool) (p : bytes) : list bytes :=
  rev (foldl (clean_step rooted) [] (Split p 47)).

Definition path_of (rooted : bool) (cs : list bytes) : bytes :=
  match cs with
  | [] => if rooted then slash else dot
  | _ => (if rooted then slash else []) ++ Strings_Join cs slash
  end.

Definition Clean (p : bytes) : bytes := path_of (IsAbs p) (clean_comps (IsAbs p) p).

(** [Join] ignores empty elements. *)
Definition Join (elems : list bytes) : bytes :=
  match List.filter (fun e => negb (bool_decide (e = []))) elems with
  | [] => []
  | es => Clean (Strings_Join es slash)
  end.

(** The prefix up to and including the last slash, and the rest. *)
Definition split_last (p : bytes) : bytes * bytes :=
  let base := rev (take (length p - length (drop_while (fun b => negb (b =? 47)) (rev p))) (rev p)) in
  (take (length p - length base) p, base).

Definition Dir (p : bytes) : bytes := Clean (split_last p).1.

Definition Base (p : bytes) : bytes :=
  if decide (p = []) then dot
  else
    let p := rev (drop_while (Z.eqb 47) (rev p)) in
    let b := (split_last p).2 in
    if decide (b = []) then slash else b.

(** [Abs] under the working directory [cwd]; [None] when it is unknown. *)
Definition Abs (cwd : option bytes) (p : bytes) : option bytes :=
  if IsAbs p then Some (Clean p)
  else match cwd with
       | None => None
       | Some wd => Some (Join [wd; p])
       end.

(** The longest common prefix of two component lists is dropped. *)
Fixpoint drop_common (b t : list bytes) : list bytes * list bytes :=
  match b, t with
  | x :: b', y :: t' => if decide (x = y) then drop_common b' t' else (b, t)
  | _, _ => (b, t)
  end.

(** [Rel base targ]: [None] is an error.  A base [.] has no component; a target
    [.] is kept as one. *)
Definition Rel (base targ : bytes) : option bytes :=
  let rb := IsAbs base in
  let rt := IsAbs targ in
  if decide (Clean targ = Clean base) then Some dot
  else if negb (bool_decide (rb = rt)) then None
  else
    let tc := if decide (Clean targ = dot) then [dot] else clean_comps rt targ in
    let '(b, t) := drop_common (clean_comps rb base) tc in
    if decide (dotdot ∈ take 1 b) then None
    else match replicate (length b) dotdot ++ t with
         | [] => Some dot
         | cs => Some (Strings_Join cs slash)
         end.

Example clean_ex : map Clean [str "a//b/../c/."; str "/../x"; str "../../a"; []; str "/"; str "a/.."]
  = [str "a/c"; str "/x"; str "../../a"; str "."; str "/"; str "."].
Proof. reflexivity. Qed.
Example join_ex : map Join [[str "/w"; str ".x"]; [[]; str "a"]; [str "a/"; str "../b"]; [[]; []]]
  = [str "/w/.x"; str "a"; str "b"; []].
Proof. reflexivity. Qed.
Example dir_base_ex : map (fun p => (Dir p, Base p)) [str "/a/b"; str "/a"; str "/"; str "a"; str "a/b/"]
  = [(str "/a", str "b"); (str "/", str "a"); (str "/", str "/"); (str ".", str "a"); (str "a/b", str "b")].
Proof. reflexivity. Qed.
Example rel_ex : map (fun x => Rel x.1 x.2) [(str "/a", str "/a/b/c"); (str "/a", str "/b"); (str "/a/", str "/a"); (str "a", str "/a"); (str "../x", str "y")]
  = [Some (str "b/c"); Some (str "../b"); Some (str "."); None; None].
Proof. reflexivity. Qed.

(** * Lemmas *)

Lemma IsAbs_app p q : IsAbs p = true -> IsAbs (p ++ q) = true.
Proof. unfold IsAbs. rewrite !HasPrefix_spec. intros [t ->]. exists (t ++ q). by rewrite app_assoc. Qed.

Lemma IsAbs_Clean p : IsAbs p = true -> IsAbs (Clean p) = true.
Proof. intros Hp. unfold Clean. rewrite Hp. unfold path_of. by destruct (clean_comps true p). Qed.

Lemma IsAbs_Abs cwd p q : (forall wd, cwd = Some wd -> IsAbs wd = true) -> p <> [] -> Abs cwd p = Some q -> IsAbs q = true.
Proof.
  intros Hwd Hp. unfold Abs. destruct (IsAbs p) eqn:E; [intros [= <-]; by apply IsAbs_Clean|].
  destruct cwd as [wd|]; [|done]. intros [= <-]. specialize (Hwd wd eq_refl).
  unfold Join. cbn [List.filter]. rewrite (bool_decide_eq_false_2 (wd = [])) by (by intros ->).
  rewrite (bool_decide_eq_false_2 (p = [])) by done. cbn [negb]. apply IsAbs_Clean. cbn [Strings_Join]. by apply IsAbs_app.
Qed.

(** ** Components *)

(** A component that cleaning keeps as it is. *)
Definition normal (c : bytes) : Prop := c <> [] /\ c <> dot /\ c <> dotdot /\ 47 ∉ c.

Lemma split_aux_app sep u v cur : split_aux sep (u ++ sep :: v) cur = split_aux sep u cur ++ split_aux sep v [].
Proof.
  revert cur. induction u as [|b u IH]; intros cur; cbn [app split_aux]; [by rewrite Z.eqb_refl|].
  destruct (b =? sep); cbn [app]; by rewrite IH.
Qed.

Lemma Split_app sep u v : Split (u ++ sep :: v) sep = Split u sep ++ Split v sep.
Proof. apply split_aux_app. Qed.

Lemma split_aux_plain sep u cur : sep ∉ u -> split_aux sep u cur = [cur ++ u].
Proof.
  revert cur. induction u as [|b u IH]; intros cur Hu; cbn [split_aux]; [by rewrite app_nil_r|].
  apply not_elem_of_cons in Hu as [Hb Hu]. rewrite (proj2 (Z.eqb_neq b sep)) by done.
  rewrite IH by done. by rewrite <- app_assoc.
Qed.

Lemma Split_Join cs sep : cs <> [] -> Forall (fun c => sep ∉ c) cs -> Split (Strings_Join cs [sep]) sep = cs.
Proof.
  intros Hne Hcs. induction Hcs as [|c cs Hc Hcs IH]; [done|]. destruct cs as [|d cs].
  - cbn [Strings_Join]. unfold Split. by rewrite split_aux_plain.
  - change (Strings_Join (c :: d :: cs) [sep]) with (c ++ sep :: Strings_Join (d :: cs) [sep]).
    rewrite Split_app, IH by done. unfold Split. by rewrite split_aux_plain.
Qed.

Lemma split_aux_no_sep sep s cur : sep ∉ cur -> Forall (fun c => sep ∉ c) (split_aux sep s cur).
Proof.
  revert cur. induction s as [|b s IH]; intros cur Hc; cbn [split_aux]; [by constructor|].
  destruct (Z.eqb_spec b sep) as [->|Hb]; [constructor; [done|]; apply IH; apply not_elem_of_nil|].
  apply IH. rewrite elem_of_app, list_elem_of_singleton. naive_solver.
Qed.

Lemma Split_no_sep s sep : Forall (fun c => sep ∉ c) (Split s sep).
Proof. apply split_aux_no_sep, not_elem_of_nil. Qed.

Lemma clean_step_normal stack c : Forall normal stack -> 47 ∉ c -> Forall normal (clean_step true stack c).
Proof.
  intros Hs Hc. unfold clean_step. case_decide; [done|]. case_decide.
  - destruct Hs as [|top below Ht Hb]; [done|]. rewrite decide_False by apply Ht. done.
  - constructor; [|done]. unfold normal. tauto.
Qed.

Lemma clean_fold_normal stack cs : Forall normal stack -> Forall (fun c => 47 ∉ c) cs ->
  Forall normal (foldl (clean_step true) stack cs).
Proof. intros Hs Hcs. revert stack Hs. induction Hcs; intros; cbn [foldl]; [done|]. eauto using clean_step_normal. Qed.

Lemma clean_comps_normal p : Forall normal (clean_comps true p).
Proof. apply Forall_rev, clean_fold_normal; [done|apply Split_no_sep]. Qed.

Lemma clean_fold_keep stack cs : Forall normal cs -> foldl (clean_step true) stack cs = rev cs ++ stack.
Proof.
  intros Hcs. revert stack. induction Hcs as [|c cs (H1 & H2 & H3 & _) _ IH]; intros stack; [done|].
  cbn [foldl rev]. rewrite IH, <- app_assoc. unfold clean_step. rewrite decide_False by tauto. by rewrite decide_False.
Qed.

Lemma IsAbs_path_of cs : IsAbs (path_of true cs) = true.
Proof. by destruct cs. Qed.

Lemma normal_no_slash cs : Forall normal cs -> Forall (fun c => 47 ∉ c) cs.
Proof. intros H. eapply Forall_impl; [exact H|]. intros c Hc. apply Hc. Qed.

Lemma Split_path_of cs : Forall normal cs -> cs <> [] -> Split (path_of true cs) 47 = [] :: cs.
Proof.
  intros Hcs Hne. unfold path_of. destruct cs as [|c cs]; [done|]. cbn [app slash].
  rewrite <- (Split_Join (c :: cs) 47) at 2 by auto using normal_no_slash. done.
Qed.

Lemma clean_comps_path_of cs : Forall normal cs -> clean_comps true (path_of true cs) = cs.
Proof.
  intros Hcs. destruct (decide (cs = [])) as [->|Hne]; [done|]. unfold clean_comps.
  rewrite Split_path_of by done. cbn [foldl]. change (clean_step true [] []) with (@nil bytes).
  rewrite clean_fold_keep, app_nil_r by done. apply rev_involutive.
Qed.

Lemma Clean_path_of cs : Forall normal cs -> Clean (path_of true cs) = path_of true cs.
Proof. intros Hcs. unfold Clean. by rewrite IsAbs_path_of, clean_comps_path_of. Qed.

Lemma Clean_abs p : IsAbs p = true -> Clean p = path_of true (clean_comps true p).
Proof. intros Hp. unfold Clean. by rewrite Hp. Qed.

Lemma Clean_idem p : IsAbs p = true -> Clean (Clean p) = Clean p.
Proof. intros Hp. rewrite (Clean_abs p) by done. apply Clean_path_of, clean_comps_normal. Qed.

Lemma path_of_inj cs ds : Forall normal cs -> Forall normal ds -> path_of true cs = path_of true ds -> cs = ds.
Proof. intros Hc Hd E. by rewrite <- (clean_comps_path_of cs), E, clean_comps_path_of. Qed.

Lemma clean_comps_snoc p c : normal c -> clean_comps true (p ++ 47 :: c) = clean_comps true p ++ [c].
Proof.
  intros Hc. unfold clean_comps. rewrite Split_app. unfold Split at 2. rewrite split_aux_plain by apply Hc.
  rewrite foldl_app. cbn [app]. rewrite clean_fold_keep by by constructor. done.
Qed.

(** [Join] of an absolute path and one component. *)
Lemma Join_snoc q c : IsAbs q = true -> normal c -> Join [q; c] = path_of true (clean_comps true q ++ [c]).
Proof.
  intros Hq Hc. unfold Join. cbn [List.filter].
  rewrite (bool_decide_eq_false_2 (q = [])) by (by intros ->). rewrite (bool_decide_eq_false_2 (c = [])) by apply Hc.
  cbn [negb Strings_Join]. change (q ++ slash ++ c) with (q ++ 47 :: c).
  rewrite Clean_abs by by apply IsAbs_app. by rewrite clean_comps_snoc.
Qed.

(** ** [Dir], [Base] *)

Lemma take_while_app (v u : bytes) : 47 ∉ v -> drop_while (fun b => negb (b =? 47)) (v ++ 47 :: u) = 47 :: u.
Proof.
  induction v as [|b v IH]; intros Hv; cbn [app drop_while]; [done|].
  apply not_elem_of_cons in Hv as [Hb Hv]. rewrite (proj2 (Z.eqb_neq b 47)) by done. by apply IH.
Qed.

Lemma split_last_app u v : 47 ∉ v -> split_last (u ++ 47 :: v) = (u ++ [47], v).
Proof.
  intros Hv. unfold split_last. rewrite rev_app_distr. cbn [rev]. rewrite <- !app_assoc. cbn [app].
  rewrite take_while_app by by rewrite list_elem_of_In, <- in_rev, <- list_elem_of_In.
  assert (En : (length (u ++ 47%Z :: v) - length (47%Z :: rev u))%nat = length (rev v))
    by (rewrite length_app; cbn [length]; rewrite !length_rev; lia).
  rewrite En, take_app_length, rev_involutive. f_equal. rewrite cons_middle, app_assoc.
  rewrite length_app. replace (_ + _ - _)%nat with (length (u ++ [47])) by lia. apply take_app_length.
Qed.

Lemma Join_cons c l sep : l <> [] -> Strings_Join (c :: l) sep = c ++ sep ++ Strings_Join l sep.
Proof. by destruct l. Qed.

Lemma Strings_Join_snoc l c sep : l <> [] -> Strings_Join (l ++ [c]) sep = Strings_Join l sep ++ sep ++ c.
Proof.
  induction l as [|d l IH]; [done|]. intros _. destruct l as [|e l]; [done|].
  rewrite <- app_comm_cons, Join_cons, IH, (Join_cons d) by done. by rewrite <- !app_assoc.
Qed.

Lemma path_of_cons cs : cs <> [] -> path_of true cs = 47 :: Strings_Join cs slash.
Proof. by destruct cs. Qed.

Lemma path_of_snoc cs c : path_of true (cs ++ [c]) = (match cs with [] => [] | _ => path_of true cs end) ++ 47 :: c.
Proof.
  destruct (decide (cs = [])) as [->|Hne]; [done|].
  rewrite path_of_cons by by destruct cs. rewrite Strings_Join_snoc by done.
  destruct cs; [done|]. by rewrite path_of_cons.
Qed.

Lemma Dir_snoc cs c : Forall normal cs -> normal c -> Dir (path_of true (cs ++ [c])) = path_of true cs.
Proof.
  intros Hcs Hc. unfold Dir. rewrite path_of_snoc, split_last_app by apply Hc. cbn [fst].
  destruct cs as [|d cs]; [done|]. rewrite Clean_abs by by destruct cs.
  f_equal. unfold clean_comps. rewrite Split_app, foldl_app. cbn [Split split_aux foldl clean_step].
  by apply clean_comps_path_of.
Qed.

Lemma Base_snoc cs c : normal c -> Base (path_of true (cs ++ [c])) = c.
Proof.
  intros (Hn & _ & _ & Hc). unfold Base. rewrite path_of_snoc. set (u := match cs with [] => _ | _ => _ end).
  rewrite decide_False by by destruct u.
  assert (E : drop_while (Z.eqb 47) (rev (u ++ 47 :: c)) = rev (u ++ 47 :: c)).
  { rewrite rev_app_distr. cbn [rev]. destruct (rev c) as [|b r] eqn:Er.
    - apply (f_equal (@rev Z)) in Er. by rewrite rev_involutive in Er.
    - cbn [app drop_while]. rewrite (proj2 (Z.eqb_neq 47 b)); [done|]. intros <-. apply Hc.
      apply list_elem_of_In, in_rev. rewrite Er. by left. }
  rewrite E, rev_involutive, split_last_app by done. cbn [snd]. by rewrite decide_False.
Qed.

(** ** [Rel] *)

Lemma drop_common_spec b t : exists c b' t', drop_common b t = (b', t') /\ b = c ++ b' /\ t = c ++ t' /\
  (forall x b'' y t'', b' = x :: b'' -> t' = y :: t'' -> x <> y).
Proof.
  revert t. induction b as [|x b IH]; intros [|y t]; cbn [drop_common].
  - by exists [], [], [].
  - by exists [], [], (y :: t).
  - by exists [], (x :: b), [].
  - destruct (decide (x = y)) as [->|Hne].
    + destruct (IH t) as (c & b' & t' & -> & -> & -> & H). by exists (y :: c), b', t'.
    + exists [], (x :: b), (y :: t). naive_solver.
Qed.

Lemma prefix_drop_common {b t c b' t' : list bytes} : b = c ++ b' -> t = c ++ t' ->
  (forall x b'' y t'', b' = x :: b'' -> t' = y :: t'' -> x <> y) -> b `prefix_of` t <-> b' = [].
Proof.
  intros -> -> H. split.
  - intros [k E]. rewrite <- app_assoc in E. apply app_inv_head in E. destruct b' as [|x b']; [done|].
    cbn [app] in E. by destruct (H x b' x (b' ++ k) eq_refl E).
  - intros ->. exists t'. by rewrite app_nil_r.
Qed.

(** [Rel] of two absolute paths: up from the base, down to the target. *)
Lemma Rel_abs base targ : IsAbs base = true -> IsAbs targ = true ->
  exists b t, drop_common (clean_comps true base) (clean_comps true targ) = (b, t) /\
    Rel base targ = Some (match replicate (length b) dotdot ++ t with [] => dot | cs => Strings_Join cs slash end).
Proof.
  intros Hb Ht. unfold Rel. rewrite Hb, Ht.
  destruct (drop_common_spec (clean_comps true base) (clean_comps true targ)) as (c & b & t & E & Eb & Et & _).
  exists b, t. split; [done|]. pose proof (clean_comps_normal base) as Nb. pose proof (clean_comps_normal targ) as Nt.
  destruct (decide (Clean targ = Clean base)) as [Heq|Hne].
  - rewrite !Clean_abs in Heq by done. apply path_of_inj in Heq; [|done..]. rewrite Heq in E.
    assert (Hsame : forall l, drop_common l l = ([], [])) by (induction l; cbn; [done|]; by rewrite decide_True).
    rewrite Hsame in E. injection E as <- <-. done.
  - rewrite bool_decide_eq_true_2 by done. cbn [negb].
    rewrite decide_False.
    2:{ rewrite Clean_abs by done. intros Hd. apply (f_equal IsAbs) in Hd. by rewrite IsAbs_path_of in Hd. }
    rewrite E. rewrite decide_False; [by destruct (replicate _ _ ++ t)|].
    rewrite Eb in Nb. apply Forall_app in Nb as [_ Nb]. intros Hin.
    destruct Nb as [|x b Hx _]; [by apply not_elem_of_nil in Hin|]. apply list_elem_of_singleton in Hin.
    subst x. by destruct Hx as (_ & _ & ? & _).
Qed.
