(* ===== verification/Policy.v ===== *)
(** Package [internal/policy]: the egress policy and its classifier
    (policy.go, ignore.go, ipv6_bypass.go, egress_backstop.go) and the address
    sets of allowlist.go.

    A [*net.IPNet] of a slice is an [option IPNet] ([None] is a nil pointer),
    a [*Policy] receiver an [option Policy], a Go map used as a set a [gset].
    [Parse] and its callers return [result policy_err]. *)
From S2P Require Import Prelude GoStrings GoNet.

Open Scope Z_scope.

Definition MaxIgnoredIPv4Nets : Z := 128.
Definition MaxAllowedDefendIPv4Keys : Z := 4096.
Definition MaxAllowedDefendIPv6Keys : Z := 4096.
Definition MaxAllowedHostnameBytes : Z := 253.

(** ** Classes *)

Inductive Class :=
  | ClassMonitor
  | ClassAllowed
  | ClassNotListed
  | ClassUnknown
  | ClassIgnored.

#[global] Instance Class_eq_dec : EqDecision Class.
Proof. solve_decision. Defined.

(** The string value of the constant. *)
Definition Class_string (c : Class) : bytes :=
  match c with
  | ClassMonitor => str "monitor"
  | ClassAllowed => str "allowed"
  | ClassNotListed => str "not_listed"
  | ClassUnknown => str "unknown"
  | ClassIgnored => str "ignored"
  end.

Definition Display (c : Class) : bytes :=
  match c with
  | ClassMonitor => str "monitor"
  | ClassAllowed => str "allowed"
  | ClassNotListed => str "not listed"
  | ClassUnknown => str "unknown"
  | ClassIgnored => str "ignored"
  end.

(** ** Address sets (allowlist.go) *)

(** [IPv4Set.items] and [IPv6Set.items]: the keys of the map. *)
Definition IPv4Set_Add (s : gset bytes) (ip : bytes) : gset bytes :=
  match To4 ip with
  | None => s
  | Some ip4 => {[copy_array 4 ip4]} ∪ s
  end.

Definition IPv4Set_Contains (s : gset bytes) (ip : bytes) : bool :=
  match To4 ip with
  | None => false
  | Some ip4 => if decide (size s = 0%nat) then false else bool_decide (copy_array 4 ip4 ∈ s)
  end.

Definition IPv6Set_Add (s : gset bytes) (ip : bytes) : gset bytes :=
  if decide (ip = []) then s
  else match To4 ip with
       | Some _ => s
       | None => match To16 ip with
                 | None => s
                 | Some ip16 => {[copy_array 16 ip16]} ∪ s
                 end
       end.

Definition IPv6Set_Contains (s : gset bytes) (ip : bytes) : bool :=
  if decide (ip = [] \/ size s = 0%nat) then false
  else match To4 ip with
       | Some _ => false
       | None => match To16 ip with
                 | None => false
                 | Some ip16 => bool_decide (copy_array 16 ip16 ∈ s)
                 end
       end.

(** ** The policy *)

Record Policy := mkPolicy {
  enabled : bool;
  exactHosts : gset bytes;
  wildSuffixes : list bytes;
  ips : gset bytes;
  nets : list (option IPNet);
  ignored : list (option IPNet);
  ipv6s : gset bytes;
  ipv6nets : list (option IPNet)
}.

Inductive policy_err :=
  | ErrWildcardTooLong
  | ErrWildcardChars (suf : bytes)
  | ErrHostTooLong
  | ErrHostChars (h : bytes)
  | ErrAllowedCIDR (raw : bytes)
  | ErrAllowedIP (raw : bytes)
  | ErrIPv6Count
  | ErrIgnoredCIDR (tok : bytes)
  | ErrIgnoredNotIPv4 (tok : bytes)
  | ErrIgnoredCount (n : Z).

Definition emptyPolicy : Policy := mkPolicy false ∅ [] ∅ [] [] ∅ [].

Definition splitFields (s : bytes) : list bytes :=
  FieldsFunc (fun r => (r =? 44) || IsSpace r) s.

(** [validHostnameSuffix], the expression
    [^[a-z0-9]([a-z0-9.-]*[a-z0-9])?$]. *)
Definition host_alnum (b : Z) : bool := is_lower b || is_digit b.
Definition host_char (b : Z) : bool := host_alnum b || (b =? 46) || (b =? 45).
Definition validHostnameSuffix (s : bytes) : bool :=
  match s with
  | [] => false
  | b :: _ => host_alnum b && host_alnum (List.last s 0) && forallb host_char s
  end.

(** The loop bodies of [Parse].  An allowed-hosts token is skipped, a
    wildcard suffix or an exact host; an allowed-ips token is skipped or one
    of the four kinds of address entry. *)
Inductive hostEntry := HostSkip | HostWild (suf : bytes) | HostExact (h : bytes).
Inductive ipEntry :=
  | IPSkip | IPNet4 (n : IPNet) | IPNet6 (n : IPNet) | IPLit4 (ip : bytes) | IPLit6 (ip : bytes).

Section Parse.
Context `{UnicodeCase}.

Definition normalize (h : bytes) : bytes := ToLower (TrimSpace h).

Definition parseHostEntry (h : bytes) : result policy_err hostEntry :=
  let h := normalize h in
  if decide (h = []) then Ok HostSkip
  else if HasPrefix h (str "*.") then
    let suf := TrimPrefix h (str "*.") in
    if decide (suf = []) then Ok HostSkip
    else if Contains suf (str "*") then Ok HostSkip
    else if MaxAllowedHostnameBytes <? len suf then Err ErrWildcardTooLong
    else if negb (validHostnameSuffix suf) then Err (ErrWildcardChars suf)
    else Ok (HostWild suf)
  else if MaxAllowedHostnameBytes <? len h then Err ErrHostTooLong
  else if negb (validHostnameSuffix (TrimSuffix h (str "."))) then Err (ErrHostChars h)
  else Ok (HostExact h).
End Parse.

Definition addHostEntry (p : Policy) (e : hostEntry) : Policy :=
  match e with
  | HostSkip => p
  | HostWild suf => mkPolicy (enabled p) (exactHosts p) (wildSuffixes p ++ [suf]) (ips p) (nets p) (ignored p) (ipv6s p) (ipv6nets p)
  | HostExact h => mkPolicy (enabled p) ({[h]} ∪ exactHosts p) (wildSuffixes p) (ips p) (nets p) (ignored p) (ipv6s p) (ipv6nets p)
  end.

Definition parseIPEntry (raw : bytes) : result policy_err ipEntry :=
  let raw := TrimSpace raw in
  if decide (raw = []) then Ok IPSkip
  else if Contains raw (str "/") then
    match ParseCIDR raw with
    | None => Err (ErrAllowedCIDR raw)
    | Some (ip, ipNet) => match To4 ip with
                          | Some _ => Ok (IPNet4 ipNet)
                          | None => Ok (IPNet6 ipNet)
                          end
    end
  else match ParseIP raw with
       | None => Err (ErrAllowedIP raw)
       | Some ip =>
         match To4 ip with
         | Some ip4 => Ok (IPLit4 ip4)
         | None => match To16 ip with
                   | Some ip16 => Ok (IPLit6 ip16)
                   | None => Err (ErrAllowedIP raw)
                   end
         end
       end.

Definition addIPEntry (p : Policy) (e : ipEntry) : Policy :=
  match e with
  | IPSkip => p
  | IPNet4 n => mkPolicy (enabled p) (exactHosts p) (wildSuffixes p) (ips p) (nets p ++ [Some n]) (ignored p) (ipv6s p) (ipv6nets p)
  | IPNet6 n => mkPolicy (enabled p) (exactHosts p) (wildSuffixes p) (ips p) (nets p) (ignored p) (ipv6s p) (ipv6nets p ++ [Some n])
  | IPLit4 ip => mkPolicy (enabled p) (exactHosts p) (wildSuffixes p) ({[ip]} ∪ ips p) (nets p) (ignored p) (ipv6s p) (ipv6nets p)
  | IPLit6 ip => mkPolicy (enabled p) (exactHosts p) (wildSuffixes p) (ips p) (nets p) (ignored p) ({[ip]} ∪ ipv6s p) (ipv6nets p)
  end.

(** [len(m) > 0] for a map used as a set and for a slice. *)
Definition nonempty_set (m : gset bytes) : bool := bool_decide (size m <> 0%nat).
Definition nonempty {A} (l : list A) : bool := match l with [] => false | _ => true end.

Definition setEnabled (p : Policy) : Policy :=
  let on := nonempty_set (exactHosts p) || nonempty (wildSuffixes p) || nonempty_set (ips p) ||
            nonempty (nets p) || nonempty_set (ipv6s p) || nonempty (ipv6nets p) in
  mkPolicy on (exactHosts p) (wildSuffixes p) (ips p) (nets p) (ignored p) (ipv6s p) (ipv6nets p).

(** A loop that stops at the first error. *)
Fixpoint foldE {S A E} (f : S -> A -> result E S) (l : list A) (s : S) : result E S :=
  match l with
  | [] => Ok s
  | x :: l' => s' ← f s x; foldE f l' s'
  end.

Definition Parse `{UnicodeCase} (allowedHosts allowedIPs : bytes) : result policy_err Policy :=
  p1 ← foldE (fun p h => e ← parseHostEntry h; Ok (addHostEntry p e)) (splitFields allowedHosts) emptyPolicy;
  p2 ← foldE (fun p raw => e ← parseIPEntry raw; Ok (addIPEntry p e)) (splitFields allowedIPs) p1;
  if (MaxAllowedDefendIPv6Keys <? Z.of_nat (size (ipv6s p2))) || (MaxAllowedDefendIPv6Keys <? len (ipv6nets p2))
  then Err ErrIPv6Count
  else Ok (setEnabled p2).

(** ** Ignored networks (ignore.go) *)

Definition parseIgnoredToken (tok : bytes) : result policy_err IPNet :=
  match ParseCIDR tok with
  | None => Err (ErrIgnoredCIDR tok)
  | Some (_, ipnet) =>
    match To4 (net_IP ipnet) with
    | None => Err (ErrIgnoredNotIPv4 tok)
    | Some ip4 => Ok (mkIPNet ip4 (net_Mask ipnet))
    end
  end.

Definition ParseIgnoredIPNets (raw : bytes) : result policy_err (list (option IPNet)) :=
  foldE (fun out tok => n ← parseIgnoredToken tok; Ok (out ++ [Some n])) (splitFields raw) [].

Definition DefaultIgnoredIPv4Nets : result policy_err (list (option IPNet)) :=
  ParseIgnoredIPNets (str "10.0.0.0/8 172.16.0.0/12").

Definition mergeStep (st : gset bytes * list (option IPNet)) (n : option IPNet) : gset bytes * list (option IPNet) :=
  let '(seen, out) := st in
  match n with
  | None => st
  | Some n =>
    let s := IPNet_String n in
    if decide (s ∈ seen) then st
    else match To4 (net_IP n) with
         | None => ({[s]} ∪ seen, out)
         | Some ip => ({[s]} ∪ seen, out ++ [Some (mkIPNet ip (net_Mask n))])
         end
  end.

Definition mergeDedupedNets (a b : list (option IPNet)) : list (option IPNet) :=
  (fold_left mergeStep b (fold_left mergeStep a (∅, []))).2.

Definition MergeDefaultIgnoredNets (user : list (option IPNet)) : result policy_err (list (option IPNet)) :=
  def ← DefaultIgnoredIPv4Nets; Ok (mergeDedupedNets def user).

Definition net_covers (ip4 : bytes) (n : option IPNet) : bool :=
  match n with Some n => IPNet_Contains n ip4 | None => false end.

Definition NetsContains (ns : list (option IPNet)) (ip : bytes) : bool :=
  if decide (ns = [] \/ ip = []) then false
  else match To4 ip with
       | None => false
       | Some ip4 => existsb (net_covers ip4) ns
       end.

Definition withIgnored (p : Policy) (m : list (option IPNet)) : Policy :=
  mkPolicy (enabled p) (exactHosts p) (wildSuffixes p) (ips p) (nets p) m (ipv6s p) (ipv6nets p).

Definition BuildPolicyEx `{UnicodeCase} (allowedHosts allowedIPs ignoredIPNets : bytes)
    (mergeDefaultRFC1918Ignored : bool) : result policy_err Policy :=
  p ← Parse allowedHosts allowedIPs;
  user ← ParseIgnoredIPNets ignoredIPNets;
  merged ← (if mergeDefaultRFC1918Ignored then MergeDefaultIgnoredNets user
            else Ok (mergeDedupedNets [] user));
  if MaxIgnoredIPv4Nets <? len merged then Err (ErrIgnoredCount (len merged))
  else Ok (withIgnored p merged).

Definition BuildPolicy `{UnicodeCase} (allowedHosts allowedIPs ignoredIPNets : bytes) : result policy_err Policy :=
  BuildPolicyEx allowedHosts allowedIPs ignoredIPNets true.

(** ** Accessors *)

Definition IgnoredIPv4Nets (p : option Policy) : list (option IPNet) :=
  match p with Some p => ignored p | None => [] end.
(** In the enumeration order of the set; Go's map order is unspecified. *)
Definition AllowedDomains (p : option Policy) : list bytes :=
  match p with Some p => elements (exactHosts p) | None => [] end.
Definition HasWildSuffixes (p : option Policy) : bool :=
  match p with Some p => negb (bool_decide (wildSuffixes p = [])) | None => false end.
Definition AllowedIPv4Nets (p : option Policy) : list (option IPNet) :=
  match p with Some p => nets p | None => [] end.
Definition AllowedIPv6Nets (p : option Policy) : list (option IPNet) :=
  match p with Some p => ipv6nets p | None => [] end.

Definition MergeLiteralAllowedIPv4Keys (p : option Policy) (keys : gset bytes) : gset bytes :=
  match p with
  | None => keys
  | Some p => set_fold (fun s ks => if decide (length s = IPv4len) then {[copy_array 4 s]} ∪ ks else ks) keys (ips p)
  end.
Definition MergeLiteralAllowedIPv4Into (p : option Policy) (s : gset bytes) : gset bytes :=
  match p with
  | None => s
  | Some p => set_fold (fun k ks => if decide (length k = IPv4len) then IPv4Set_Add ks k else ks) s (ips p)
  end.
Definition MergeLiteralAllowedIPv6Into (p : option Policy) (s : gset bytes) : gset bytes :=
  match p with
  | None => s
  | Some p => set_fold (fun k ks => if decide (length k = IPv6len) then IPv6Set_Add ks k else ks) s (ipv6s p)
  end.

(** ** Classification *)

Definition hostMatchesWildcard (fqdn suffix : bytes) : bool :=
  if negb (HasSuffix fqdn (str "." ++ suffix)) then false
  else
    let prefix := TrimSuffix fqdn (str "." ++ suffix) in
    negb (bool_decide (prefix = [])) && negb (Contains prefix (str ".")).

Definition Classify `{UnicodeCase} (p : option Policy) (fqdn ip : bytes) : Class :=
  match p with
  | None => ClassMonitor
  | Some p =>
    let ip4 := To4 ip in
    let listed4 := match ip4 with
                   | Some v4 => enabled p && (bool_decide (v4 ∈ ips p) || NetsContains (nets p) v4)
                   | None => false
                   end in
    if listed4 then ClassAllowed
    else if match ip4 with Some v4 => NetsContains (ignored p) v4 | None => false end then ClassIgnored
    else if negb (enabled p) then ClassMonitor
    else
      let fqdn := normalize fqdn in
      if decide (fqdn = []) then ClassUnknown
      else if bool_decide (fqdn ∈ exactHosts p) then ClassAllowed
      else if existsb (hostMatchesWildcard fqdn) (wildSuffixes p) then ClassAllowed
      else ClassNotListed
  end.

(** ** Bypass predicates (ipv6_bypass.go, egress_backstop.go) *)

Definition link_local_bytes (ip : bytes) : bool :=
  match ip with
  | b0 :: b1 :: _ => (b0 =? 0xfe) && (Z.land b1 0xc0 =? 0x80)
  | _ => false
  end.

Definition IPv6BypassesDefend (ip : bytes) : bool :=
  if decide (ip = []) then false
  else match To4 ip with
       | Some _ => false
       | None => match To16 ip with
                 | None => false
                 | Some ip16 => if IsLoopback ip16 then true else link_local_bytes ip16
                 end
       end.

Definition IPv4MappedEmbeddedIPv4 (ip : bytes) : option bytes :=
  match To16 ip with
  | None => None
  | Some ip16 =>
    if decide (take 10 ip16 = replicate 10 0 /\ take 2 (drop 10 ip16) = [0xff; 0xff])
    then Some (copy_array 4 (take 4 (drop 12 ip16))) else None
  end.

Definition EgressBackstopBypasses (ip : bytes) : bool :=
  if decide (ip = []) then false
  else match To4 ip with
       | Some v4 => match v4 with b :: _ => b =? 127 | [] => false end
       | None =>
         if IsLoopback ip then true
         else bool_decide (length ip = IPv6len) && link_local_bytes ip
       end.

(** * Lemmas *)

(** Membership in a field after adding one entry. *)
Ltac elem_solve :=
  cbn [addHostEntry addIPEntry exactHosts wildSuffixes ips nets ipv6s ipv6nets ignored];
  rewrite ?elem_of_union, ?elem_of_app, ?elem_of_singleton, ?list_elem_of_singleton;
  try setoid_rewrite elem_of_cons; naive_solver.

Lemma foldE_inv {S A E B} (parse : A -> result E B) (add : S -> B -> S) l s s' :
  foldE (fun s x => e ← parse x; Ok (add s e)) l s = Ok s' ->
  exists es, Forall2 (fun x e => parse x = Ok e) l es /\ s' = fold_left add es s.
Proof.
  revert s. induction l as [|x l IH]; intros s; cbn [foldE].
  - intros [= <-]. by exists [].
  - destruct (parse x) as [e|] eqn:E'; cbn; [|done]. intros (es & Hes & ->)%IH.
    exists (e :: es). split; [by constructor|done].
Qed.

(** The entries read from a list of tokens are the results of the parser. *)
Lemma entries_elem_of {A B E} (parse : A -> result E B) l es e :
  Forall2 (fun x e => parse x = Ok e) l es -> e ∈ es <-> exists x, x ∈ l /\ parse x = Ok e.
Proof.
  induction 1 as [|x e' l es Hx _ IH]; [set_solver|].
  rewrite elem_of_cons, IH. split.
  - intros [->|(y & ? & ?)]; [exists x|exists y]; set_solver.
  - intros (y & [->|]%elem_of_cons & ?); [left; congruence|right; eauto].
Qed.

Lemma nonempty_set_spec m : nonempty_set m = true <-> exists x, x ∈ m.
Proof.
  unfold nonempty_set. rewrite bool_decide_eq_true, size_empty_iff, leibniz_equiv_iff. split.
  - apply set_choose_L.
  - intros [x Hx] ->. set_solver.
Qed.

Lemma nonempty_spec {A} (l : list A) : nonempty l = true <-> exists x, x ∈ l.
Proof. destruct l as [|y l]; cbn; split; try done; [by intros [? ?%elem_of_nil]|exists y; set_solver]. Qed.

Lemma fold_hosts_fields es p :
  let p' := fold_left addHostEntry es p in
  (forall h, h ∈ exactHosts p' <-> h ∈ exactHosts p \/ HostExact h ∈ es) /\
  (forall s, s ∈ wildSuffixes p' <-> s ∈ wildSuffixes p \/ HostWild s ∈ es) /\
  ips p' = ips p /\ nets p' = nets p /\ ipv6s p' = ipv6s p /\ ipv6nets p' = ipv6nets p /\
  ignored p' = ignored p.
Proof.
  revert p. induction es as [|e es IH]; intros p; cbn [fold_left].
  { split_and!; intros; rewrite ?elem_of_nil; tauto. }
  destruct (IH (addHostEntry p e)) as (Hx & Hw & -> & -> & -> & -> & ->).
  split_and!; [intros h; rewrite Hx|intros s; rewrite Hw|..]; clear; destruct e; elem_solve.
Qed.

Lemma fold_ips_fields es p :
  let p' := fold_left addIPEntry es p in
  (forall v, v ∈ ips p' <-> v ∈ ips p \/ IPLit4 v ∈ es) /\
  (forall n, n ∈ nets p' <-> n ∈ nets p \/ exists m, n = Some m /\ IPNet4 m ∈ es) /\
  (forall v, v ∈ ipv6s p' <-> v ∈ ipv6s p \/ IPLit6 v ∈ es) /\
  (forall n, n ∈ ipv6nets p' <-> n ∈ ipv6nets p \/ exists m, n = Some m /\ IPNet6 m ∈ es) /\
  exactHosts p' = exactHosts p /\ wildSuffixes p' = wildSuffixes p /\ ignored p' = ignored p.
Proof.
  revert p. induction es as [|e es IH]; intros p; cbn [fold_left].
  { split_and!; intros; try setoid_rewrite elem_of_nil; naive_solver. }
  destruct (IH (addIPEntry p e)) as (Hi & Hn & Hi6 & Hn6 & -> & -> & ->).
  split_and!; [intros v; rewrite Hi|intros n; rewrite Hn|intros v; rewrite Hi6|intros n; rewrite Hn6|..];
    clear; destruct e; elem_solve.
Qed.

(** ** What the policy holds, in terms of the input tokens *)

Section Build.
Context `{UnicodeCase}.

(** [e] is an entry some token of the input gives. *)
Definition host_entry_of (hosts : bytes) (e : hostEntry) : Prop :=
  exists h, h ∈ splitFields hosts /\ parseHostEntry h = Ok e.
Definition ip_entry_of (addrs : bytes) (e : ipEntry) : Prop :=
  exists raw, raw ∈ splitFields addrs /\ parseIPEntry raw = Ok e.

(** The policy holds exactly the entries of its inputs. *)
Record policy_of (hosts addrs : bytes) (p : Policy) : Prop := {
  po_exact : forall h, h ∈ exactHosts p <-> host_entry_of hosts (HostExact h);
  po_wild : forall s, s ∈ wildSuffixes p <-> host_entry_of hosts (HostWild s);
  po_ips : forall v, v ∈ ips p <-> ip_entry_of addrs (IPLit4 v);
  po_nets : forall n, n ∈ nets p <-> exists m, n = Some m /\ ip_entry_of addrs (IPNet4 m);
  po_ip6s : forall v, v ∈ ipv6s p <-> ip_entry_of addrs (IPLit6 v);
  po_net6s : forall n, n ∈ ipv6nets p <-> exists m, n = Some m /\ ip_entry_of addrs (IPNet6 m);
  po_enabled : enabled p = true <->
    (exists e, e <> HostSkip /\ host_entry_of hosts e) \/ (exists e, e <> IPSkip /\ ip_entry_of addrs e);
  po_count6 : Z.of_nat (size (ipv6s p)) <= MaxAllowedDefendIPv6Keys /\ len (ipv6nets p) <= MaxAllowedDefendIPv6Keys
}.

(** A policy whose fields are the entries of its inputs is enabled exactly
    when some entry is not skipped. *)
Lemma setEnabled_spec p :
  enabled (setEnabled p) = true <->
    (exists h, h ∈ exactHosts p) \/ (exists s, s ∈ wildSuffixes p) \/ (exists v, v ∈ ips p) \/
    (exists n, n ∈ nets p) \/ (exists v, v ∈ ipv6s p) \/ (exists n, n ∈ ipv6nets p).
Proof.
  cbn [setEnabled enabled]. rewrite !orb_true_iff, !nonempty_set_spec, !nonempty_spec. tauto.
Qed.

Lemma Parse_policy_of hosts addrs p : Parse hosts addrs = Ok p -> policy_of hosts addrs p /\ ignored p = [].
Proof.
  unfold Parse. intros Hp.
  destruct (foldE _ (splitFields hosts) _) as [p1|] eqn:E1; [|done]. cbn in Hp.
  destruct (foldE _ (splitFields addrs) p1) as [p2|] eqn:E2; [|done]. cbn in Hp.
  destruct (_ || _) eqn:Ec in Hp; [done|]. injection Hp as <-.
  apply orb_false_iff in Ec as [Hc1%Z.ltb_ge Hc2%Z.ltb_ge].
  apply (foldE_inv parseHostEntry addHostEntry) in E1 as (es1 & F1 & ->).
  apply (foldE_inv parseIPEntry addIPEntry) in E2 as (es2 & F2 & ->).
  destruct (fold_hosts_fields es1 emptyPolicy) as (Hx & Hw & Ei & En & Ei6 & En6 & Eg).
  destruct (fold_ips_fields es2 (fold_left addHostEntry es1 emptyPolicy)) as (Hi & Hn & Hi6 & Hn6 & Ex & Ew & Eg').
  set (p1 := fold_left addHostEntry es1 emptyPolicy) in *.
  set (p2 := fold_left addIPEntry es2 p1) in *.
  pose proof (fun e => entries_elem_of parseHostEntry _ _ e F1) as M1.
  pose proof (fun e => entries_elem_of parseIPEntry _ _ e F2) as M2.
  assert (forall e, e ∈ es1 <-> host_entry_of hosts e) as M1' by exact M1.
  assert (forall e, e ∈ es2 <-> ip_entry_of addrs e) as M2' by exact M2.
  assert (forall h, h ∈ exactHosts p2 <-> host_entry_of hosts (HostExact h)) as Gx.
  { intros h. rewrite Ex, Hx, M1'. cbn. rewrite elem_of_empty. tauto. }
  assert (forall h, h ∈ wildSuffixes p2 <-> host_entry_of hosts (HostWild h)) as Gw.
  { intros h. rewrite Ew, Hw, M1'. cbn. rewrite elem_of_nil. tauto. }
  assert (forall v, v ∈ ips p2 <-> ip_entry_of addrs (IPLit4 v)) as Gi.
  { intros h. rewrite Hi, Ei, M2'. cbn. rewrite elem_of_empty. tauto. }
  assert (forall v, v ∈ ipv6s p2 <-> ip_entry_of addrs (IPLit6 v)) as Gi6.
  { intros h. rewrite Hi6, Ei6, M2'. cbn. rewrite elem_of_empty. tauto. }
  assert (forall n, n ∈ nets p2 <-> exists m, n = Some m /\ ip_entry_of addrs (IPNet4 m)) as Gn.
  { intros n. rewrite Hn, En. setoid_rewrite M2'. cbn. rewrite elem_of_nil. tauto. }
  assert (forall n, n ∈ ipv6nets p2 <-> exists m, n = Some m /\ ip_entry_of addrs (IPNet6 m)) as Gn6.
  { intros n. rewrite Hn6, En6. setoid_rewrite M2'. cbn. rewrite elem_of_nil. tauto. }
  split.
  - split; cbn [setEnabled exactHosts wildSuffixes ips nets ipv6s ipv6nets]; try done.
    rewrite setEnabled_spec. setoid_rewrite Gx. setoid_rewrite Gw. setoid_rewrite Gi.
    setoid_rewrite Gi6. setoid_rewrite Gn. setoid_rewrite Gn6. split.
    + intros [[x ?]|[[x ?]|[[x ?]|[(? & m & _ & ?)|[[x ?]|(? & m & _ & ?)]]]]];
        [left; by exists (HostExact x)|left; by exists (HostWild x)|right; by exists (IPLit4 x)
        |right; by exists (IPNet4 m)|right; by exists (IPLit6 x)|right; by exists (IPNet6 m)].
    + intros [([|s|h] & Hne & He)|([|m|m|v|v] & Hne & He)]; try done; eauto 10.
  - cbn. by rewrite Eg', Eg.
Qed.
End Build.

(** ** Merging ignored networks *)

(** A network [ParseIgnoredIPNets] accepts: an IPv4 number with a CIDR mask. *)
Definition v4_net (n : IPNet) : Prop :=
  exists v k, length v = 4%nat /\ wf_bytes v /\ (k <= 32)%nat /\
    networkNumberAndMask n = Some (v, CIDRMask 4 k).

Lemma v4_net_To4 n v m : networkNumberAndMask n = Some (v, m) -> length v = 4%nat -> To4 (net_IP n) = Some v.
Proof.
  unfold networkNumberAndMask. destruct (To4 (net_IP n)) as [w|] eqn:E.
  - repeat case_decide; intros; simplify_eq; done.
  - intros Hn Hv. case_decide as H16; [|done]. unfold IPv6len in H16.
    repeat case_decide; simplify_eq; congruence.
Qed.

Lemma nnm_mkIPNet n v m : networkNumberAndMask n = Some (v, m) -> length v = 4%nat ->
  networkNumberAndMask (mkIPNet v (net_Mask n)) = Some (v, m).
Proof.
  intros Hn Hv. pose proof (v4_net_To4 _ _ _ Hn Hv) as Ht.
  unfold networkNumberAndMask in *. cbn [net_IP net_Mask].
  rewrite Ht in Hn. by rewrite To4_v4.
Qed.

Lemma nnm_v4 v m : length v = 4%nat -> length m = 4%nat -> networkNumberAndMask (mkIPNet v m) = Some (v, m).
Proof.
  intros Hv Hm. unfold networkNumberAndMask, IPv4len, IPv6len. cbn [net_IP net_Mask].
  rewrite To4_v4 by done. by rewrite !decide_True.
Qed.

Lemma nnm_mapped v m : length v = 4%nat -> length m = 16%nat ->
  networkNumberAndMask (mkIPNet v m) = Some (v, drop 12 m).
Proof.
  intros Hv Hm. unfold networkNumberAndMask, IPv4len, IPv6len. cbn [net_IP net_Mask].
  rewrite To4_v4 by done. repeat case_decide; done || lia.
Qed.

Lemma v4_net_String n v k : length v = 4%nat -> (k <= 32)%nat ->
  networkNumberAndMask n = Some (v, CIDRMask 4 k) ->
  IPNet_String n = v4_string v ++ 47 :: Uitoa (Z.of_nat k).
Proof.
  intros Hv Hk Hn. unfold IPNet_String. rewrite Hn, simpleMaskLength_CIDRMask by lia.
  by rewrite IP_String_v4.
Qed.

(** Equal strings denote equal networks. *)
Lemma v4_net_String_inj n n' : v4_net n -> v4_net n' -> IPNet_String n = IPNet_String n' ->
  networkNumberAndMask n = networkNumberAndMask n'.
Proof.
  intros (v & k & Hv & Hw & Hk & Hn) (v' & k' & Hv' & Hw' & Hk' & Hn') E.
  rewrite (v4_net_String _ _ _ Hv Hk Hn), (v4_net_String _ _ _ Hv' Hk' Hn') in E.
  apply sep_inj in E as [Ev Ek]; try by apply v4_string_no_slash.
  rewrite Hn, Hn'. do 2 f_equal.
  - apply IP_String_v4_inj; rewrite ?IP_String_v4; done.
  - f_equal. apply Uitoa_inj in Ek; unfold is_byte; lia.
Qed.

Lemma Contains_nnm n n' ip : networkNumberAndMask n = networkNumberAndMask n' ->
  IPNet_Contains n ip = IPNet_Contains n' ip.
Proof. intros E. unfold IPNet_Contains. by rewrite E. Qed.

(** The state of the merge loop after the entries [done]. *)
Record merge_inv (ns : list (option IPNet)) (st : gset bytes * list (option IPNet)) : Prop := {
  mi_seen : forall n, Some n ∈ ns -> IPNet_String n ∈ st.1;
  mi_from : forall o, o ∈ st.2 -> exists n n', o = Some n' /\ Some n ∈ ns /\
              networkNumberAndMask n' = networkNumberAndMask n;
  mi_out : forall s, s ∈ st.1 -> exists n, Some n ∈ st.2 /\ IPNet_String n = s;
  mi_nodup : forall i j n n', st.2 !! i = Some (Some n) -> st.2 !! j = Some (Some n') ->
               IPNet_String n = IPNet_String n' -> i = j;
  mi_len : len st.2 <= len ns
}.

Lemma IPNet_String_nnm n n' : networkNumberAndMask n = networkNumberAndMask n' ->
  IPNet_String n = IPNet_String n'.
Proof. intros E. unfold IPNet_String. by rewrite E. Qed.

Lemma mergeStep_new n v k seen out : length v = 4%nat ->
  networkNumberAndMask n = Some (v, CIDRMask 4 k) -> IPNet_String n ∉ seen ->
  mergeStep (seen, out) (Some n) =
    ({[IPNet_String n]} ∪ seen, out ++ [Some (mkIPNet v (net_Mask n))]).
Proof.
  intros Hv Hn Hs. unfold mergeStep. rewrite decide_False by done.
  by rewrite (v4_net_To4 _ _ _ Hn Hv).
Qed.

Lemma lookup_snoc {A} (l : list A) x i y : (l ++ [x]) !! i = Some y ->
  l !! i = Some y \/ i = length l /\ x = y.
Proof.
  intros H. destruct (decide (i < length l)%nat).
  - left. by rewrite lookup_app_l in H.
  - right. rewrite lookup_app_r in H by lia.
    destruct (i - length l)%nat as [|k] eqn:E; cbn in H; [|done].
    split; [lia|congruence].
Qed.

Lemma mergeStep_inv ns st n : merge_inv ns st -> (forall m, n = Some m -> v4_net m) ->
  merge_inv (ns ++ [n]) (mergeStep st n).
Proof.
  intros [Hseen Hfrom Hout Hnd Hlen] Hwf. destruct st as [seen out].
  destruct n as [n|]; cycle 1.
  { cbn. split; cbn in *; try done.
    - intros m. rewrite elem_of_app. intros [?|?%list_elem_of_singleton]; [by apply Hseen|done].
    - intros o Ho. destruct (Hfrom o Ho) as (n & n' & ? & ? & ?). exists n, n'.
      rewrite elem_of_app. auto.
    - len_lia. }
  destruct (Hwf n eq_refl) as (v & k & Hv & Hw & Hk & Hn).
  destruct (decide (IPNet_String n ∈ seen)) as [Hin|Hin].
  { cbn [mergeStep]. rewrite decide_True by done. split; cbn in *; try done.
    - intros m. rewrite elem_of_app. intros [?|?%list_elem_of_singleton]; [by apply Hseen|by simplify_eq].
    - intros o Ho. destruct (Hfrom o Ho) as (a & b & ? & ? & ?). exists a, b.
      rewrite elem_of_app. auto.
    - len_lia. }
  rewrite (mergeStep_new n v k) by done.
  pose proof (nnm_mkIPNet _ _ _ Hn Hv) as Hn'.
  assert (IPNet_String (mkIPNet v (net_Mask n)) = IPNet_String n) as Es
    by (apply IPNet_String_nnm; congruence).
  assert (forall i m, out !! i = Some (Some m) -> IPNet_String m <> IPNet_String n) as Hfresh.
  { intros i m Hi E. apply Hin. rewrite <- E.
    destruct (Hfrom (Some m)) as (a & b & [= <-] & Ha & Hnnm); [by eapply list_elem_of_lookup_2|].
    rewrite (IPNet_String_nnm m a) by done. by apply Hseen. }
  split; cbn [fst snd] in *.
  - intros m. rewrite elem_of_app, elem_of_union, elem_of_singleton.
    intros [?|?%list_elem_of_singleton]; [right; by apply Hseen|left; by simplify_eq].
  - intros o. rewrite elem_of_app. intros [Ho|?%list_elem_of_singleton].
    + destruct (Hfrom o Ho) as (a & b & ? & ? & ?). exists a, b. rewrite elem_of_app. auto.
    + exists n, (mkIPNet v (net_Mask n)). rewrite elem_of_app, list_elem_of_singleton.
      split_and!; [done|by right|congruence].
  - intros s. rewrite elem_of_union, elem_of_singleton. intros [->|Hs].
    + exists (mkIPNet v (net_Mask n)). rewrite elem_of_app, list_elem_of_singleton. auto.
    + destruct (Hout s Hs) as (a & ? & ?). exists a. rewrite elem_of_app. auto.
  - intros i j a b Ha Hb E. apply lookup_snoc in Ha as [Ha|[-> [= <-]]], Hb as [Hb|[-> [= <-]]];
      [by eapply Hnd| | |done]; exfalso; rewrite Es in E; [by apply (Hfresh i a)|by apply (Hfresh j b)].
  - len_lia.
Qed.

Lemma mergeDeduped_inv a b : (forall n, Some n ∈ a ++ b -> v4_net n) ->
  exists seen, merge_inv (a ++ b) (seen, mergeDedupedNets a b).
Proof.
  intros Hwf.
  assert (forall ns st l, merge_inv ns st -> (forall n, Some n ∈ l -> v4_net n) ->
            merge_inv (ns ++ l) (fold_left mergeStep l st)) as Hfold.
  { intros ns st l. revert ns st. induction l as [|x l IH]; intros ns st Hinv Hl; cbn.
    - by rewrite app_nil_r.
    - replace (ns ++ x :: l) with ((ns ++ [x]) ++ l) by by rewrite <- app_assoc.
      apply IH; [apply mergeStep_inv; [done|]|]; intros; subst; apply Hl; set_solver. }
  unfold mergeDedupedNets. destruct (fold_left mergeStep b _) as [seen out] eqn:E.
  exists seen. cbn. rewrite <- E. apply Hfold; [|set_solver].
  apply (Hfold []); [|set_solver]. split; cbn; try set_solver; done.
Qed.

Lemma NetsContains_v4 ns v : length v = 4%nat ->
  NetsContains ns v = true <-> exists n, Some n ∈ ns /\ IPNet_Contains n v = true.
Proof.
  intros Hv. unfold NetsContains. rewrite To4_v4 by done.
  case_decide as Hd.
  - split; [done|]. intros (n & Hn & _). destruct Hd as [->| ->]; [set_solver|done].
  - rewrite existsb_exists. split.
    + intros ([n|] & Hn & Hc); [|done]. exists n. by rewrite list_elem_of_In.
    + intros (n & Hn & Hc). exists (Some n). by rewrite <- list_elem_of_In.
Qed.

Lemma parseIgnoredToken_v4 tok n : parseIgnoredToken tok = Ok n -> v4_net n.
Proof.
  unfold parseIgnoredToken. destruct (ParseCIDR tok) as [[ip m]|] eqn:E; [|done].
  pose proof (ParseCIDR_wf _ _ _ E) as Hw. apply ParseCIDR_shape in E as [v k Hv Hk -> ->|k Hl Hk ->];
    cbn [net_IP net_Mask].
  - apply Forall_app in Hw as [_ Hw].
    assert (length (land_bytes v (CIDRMask 4 k)) = 4%nat) as Hl
      by (rewrite land_bytes_length; rewrite ?CIDRMask_length; done).
    rewrite To4_v4 by done. intros [= <-].
    exists (land_bytes v (CIDRMask 4 k)), k. split_and!; [done|auto using wf_land_bytes, wf_CIDRMask|done|].
    by apply nnm_v4.
  - destruct (To4 _) as [w|] eqn:Et; [|done]. intros [= <-].
    pose proof (mapped_mask_ones ip k Hl Hk) as H96. rewrite Et in H96. specialize (H96 ltac:(done)).
    pose proof (To4_length _ _ Et) as Hw4.
    exists w, (k - 96)%nat. split_and!; [done| |lia|].
    + apply To4_16_inv in Et; [|rewrite land_bytes_length; rewrite ?CIDRMask_length; done].
      pose proof (wf_land_bytes _ _ Hw (wf_CIDRMask 16 k)) as Hwl. rewrite Et in Hwl.
      by apply Forall_app in Hwl as [_ ?].
    + rewrite <- CIDRMask_drop by lia. by apply nnm_mapped; rewrite ?CIDRMask_length.
Qed.

Lemma ParseIgnoredIPNets_v4 raw l : ParseIgnoredIPNets raw = Ok l -> forall n, Some n ∈ l -> v4_net n.
Proof.
  unfold ParseIgnoredIPNets. intros (es & HF & ->)%(foldE_inv parseIgnoredToken (fun out n => out ++ [Some n])) n.
  assert (forall acc, (forall m, Some m ∈ acc -> v4_net m) ->
            Some n ∈ fold_left (fun out n => out ++ [Some n]) es acc -> v4_net n) as Hg.
  { clear -HF. induction HF as [|x e l es Hx _ IH]; intros acc Hacc; cbn; [by apply Hacc|].
    apply IH. intros m. rewrite elem_of_app, list_elem_of_singleton.
    intros [?|[= ->]]; [auto|by eapply parseIgnoredToken_v4]. }
  apply Hg. intros m ?%elem_of_nil. done.
Qed.

Lemma DefaultIgnored_value : DefaultIgnoredIPv4Nets =
  Ok [Some (mkIPNet [10;0;0;0] [255;0;0;0]); Some (mkIPNet [172;16;0;0] [255;240;0;0])].
Proof. vm_compute. reflexivity. Qed.

(** The implicit networks of [BuildPolicyEx]. *)
Definition implicit_ignored (on : bool) : list (option IPNet) :=
  if on then [Some (mkIPNet [10;0;0;0] [255;0;0;0]); Some (mkIPNet [172;16;0;0] [255;240;0;0])] else [].

Lemma BuildPolicyEx_inv `{UnicodeCase} hosts addrs ign on p : BuildPolicyEx hosts addrs ign on = Ok p ->
  policy_of hosts addrs p /\ len (ignored p) <= MaxIgnoredIPv4Nets /\
  exists user, ParseIgnoredIPNets ign = Ok user /\ ignored p = mergeDedupedNets (implicit_ignored on) user.
Proof.
  unfold BuildPolicyEx. destruct (Parse hosts addrs) as [q|] eqn:Eq; [|done]; cbn [mbind result_bind].
  destruct (ParseIgnoredIPNets ign) as [user|] eqn:Eu; [|done]; cbn [mbind result_bind].
  assert ((if on then MergeDefaultIgnoredNets user else Ok (mergeDedupedNets [] user))
          = Ok (mergeDedupedNets (implicit_ignored on) user)) as ->.
  { destruct on; [|done]. unfold MergeDefaultIgnoredNets. by rewrite DefaultIgnored_value. }
  cbn [mbind result_bind]. destruct (_ <? _) eqn:El; [done|]. intros [= <-]. apply Z.ltb_ge in El.
  apply Parse_policy_of in Eq as [[] _].
  split; [split; done|]. split; [done|]. by exists user.
Qed.

Lemma implicit_v4 on n : Some n ∈ implicit_ignored on -> v4_net n.
Proof.
  destruct on; cbn; [|by intros ?%elem_of_nil].
  rewrite !elem_of_cons. intros [[= ->]|[[= ->]|?%elem_of_nil]]; [| |done].
  - exists [10;0;0;0], 8%nat. split_and!; [done|repeat constructor; lia|lia|done].
  - exists [172;16;0;0], 12%nat. split_and!; [done|repeat constructor; lia|lia|done].
Qed.

Lemma merge_covers a b v : (forall n, Some n ∈ a ++ b -> v4_net n) -> length v = 4%nat ->
  NetsContains (mergeDedupedNets a b) v = (NetsContains a v || NetsContains b v).
Proof.
  intros Hwf Hv. apply eq_true_iff_eq. rewrite orb_true_iff, !NetsContains_v4 by done.
  destruct (mergeDeduped_inv a b Hwf) as (seen & [Hseen Hfrom Hout _ _]). cbn in *.
  split.
  - intros (n' & Hn' & Hc). destruct (Hfrom _ Hn') as (n & ? & [= <-] & Hn & E).
    rewrite (Contains_nnm _ _ _ E) in Hc. apply elem_of_app in Hn as [?|?]; eauto.
  - intros Hex. assert (exists n, Some n ∈ a ++ b /\ IPNet_Contains n v = true) as (n & Hn & Hc).
    { setoid_rewrite elem_of_app. naive_solver. }
    destruct (Hout _ (Hseen n Hn)) as (n' & Hn' & E).
    exists n'. split; [done|].
    destruct (Hfrom _ Hn') as (m & ? & [= <-] & Hm & E').
    rewrite (Contains_nnm n' m) by done. rewrite (Contains_nnm m n); [done|].
    apply v4_net_String_inj; auto. rewrite <- E. symmetry. by apply IPNet_String_nnm.
Qed.

(** ** The classifier against the input lists *)

Lemma hostMatchesWildcard_iff fqdn suf : hostMatchesWildcard fqdn suf = true <->
  exists label, label <> [] /\ (46 ∉ label) /\ fqdn = label ++ 46 :: suf.
Proof.
  unfold hostMatchesWildcard. change (str "." ++ suf) with (46 :: suf). change (str ".") with [46].
  destruct (HasSuffix fqdn (46 :: suf)) eqn:E; cbn [negb].
  - apply HasSuffix_spec in E as [t ->]. rewrite TrimSuffix_app.
    rewrite andb_true_iff, !negb_true_iff, bool_decide_eq_false.
    assert ((Contains t [46] = false) <-> 46 ∉ t) as ->
      by (rewrite <- Contains_byte; destruct (Contains t [46]); split; congruence).
    split; [intros []; by exists t|]. intros (l & ? & ? & Heq).
    by apply app_inv_tail in Heq as ->.
  - split; [done|]. intros (l & _ & _ & ->).
    by rewrite (proj2 (HasSuffix_spec _ _)) in E by eauto.
Qed.

Section Classifier.
Context `{UnicodeCase}.

(** The destination is covered by an address entry of allowed-ips. *)
Definition dst_listed (addrs v4 : bytes) : Prop :=
  ip_entry_of addrs (IPLit4 v4) \/
  exists n, ip_entry_of addrs (IPNet4 n) /\ IPNet_Contains n v4 = true.

(** The name is covered by an entry of allowed-hosts. *)
Definition name_listed (hosts fqdn : bytes) : Prop :=
  host_entry_of hosts (HostExact (normalize fqdn)) \/
  exists s, host_entry_of hosts (HostWild s) /\ hostMatchesWildcard (normalize fqdn) s = true.

(** The destination is in an implicit or user-given ignored network. *)
Definition dst_ignored (on : bool) (ign v4 : bytes) : Prop :=
  exists user, ParseIgnoredIPNets ign = Ok user /\
    (NetsContains (implicit_ignored on) v4 = true \/ NetsContains user v4 = true).

Definition has_entries (hosts addrs : bytes) : Prop :=
  (exists e, e <> HostSkip /\ host_entry_of hosts e) \/ (exists e, e <> IPSkip /\ ip_entry_of addrs e).

Definition on_v4 (ip : bytes) (P : bytes -> Prop) : Prop := exists v4, To4 ip = Some v4 /\ P v4.

Lemma parseHostEntry_nonempty h e : parseHostEntry h = Ok e -> e <> HostExact [].
Proof.
  unfold parseHostEntry. repeat (case_match; try done); intros [= <-]; congruence.
Qed.

Lemma name_listed_nonempty hosts fqdn : name_listed hosts fqdn -> normalize fqdn <> [].
Proof.
  intros [(h & _ & Hp)|(s & _ & Hm)] E.
  - rewrite E in Hp. by apply (parseHostEntry_nonempty h _ Hp).
  - rewrite E in Hm. apply hostMatchesWildcard_iff in Hm as ([|? ?] & ? & _ & ?); done.
Qed.

Section Build.
Context (hosts addrs ign : bytes) (on : bool) (p : Policy).
Hypothesis HB : BuildPolicyEx hosts addrs ign on = Ok p.

Lemma listed_bool v4 : length v4 = 4%nat ->
  enabled p && (bool_decide (v4 ∈ ips p) || NetsContains (nets p) v4) = true <-> dst_listed addrs v4.
Proof.
  intros Hv. apply BuildPolicyEx_inv in HB as ([_ _ Hi Hn _ _ He _] & _ & _).
  rewrite andb_true_iff, orb_true_iff, bool_decide_eq_true, NetsContains_v4, Hi, He by done.
  unfold dst_listed. setoid_rewrite Hn. split.
  - intros [_ [?|(n & (m & [= ->] & ?) & ?)]]; [by left|right; eauto].
  - intros [?|(n & ? & ?)]; (split; [right; eexists; by split; [|eassumption]|]); eauto 6.
Qed.

Lemma ignored_bool v4 : length v4 = 4%nat -> NetsContains (ignored p) v4 = true <-> dst_ignored on ign v4.
Proof.
  intros Hv. apply BuildPolicyEx_inv in HB as (_ & _ & user & Hu & ->).
  rewrite merge_covers, orb_true_iff by
    (done || (intros n [?|?]%elem_of_app; eauto using implicit_v4, ParseIgnoredIPNets_v4)).
  unfold dst_ignored. split; [eauto|]. intros (u & Hu' & ?). congruence.
Qed.

Lemma name_bool fqdn :
  bool_decide (normalize fqdn ∈ exactHosts p) || existsb (hostMatchesWildcard (normalize fqdn)) (wildSuffixes p) = true
  <-> name_listed hosts fqdn.
Proof.
  apply BuildPolicyEx_inv in HB as ([Hx Hw _ _ _ _ _ _] & _ & _).
  rewrite orb_true_iff, bool_decide_eq_true, existsb_exists, Hx. unfold name_listed.
  setoid_rewrite <- list_elem_of_In. setoid_rewrite Hw. done.
Qed.

(** The tests [Classify] makes, as booleans. *)
Definition b_listed ip := match To4 ip with
  | Some v4 => enabled p && (bool_decide (v4 ∈ ips p) || NetsContains (nets p) v4) | None => false end.
Definition b_ignored ip := match To4 ip with Some v4 => NetsContains (ignored p) v4 | None => false end.
Definition b_name fqdn := bool_decide (normalize fqdn ∈ exactHosts p) ||
  existsb (hostMatchesWildcard (normalize fqdn)) (wildSuffixes p).

Lemma b_listed_spec ip : b_listed ip = true <-> on_v4 ip (dst_listed addrs).
Proof.
  unfold b_listed, on_v4. destruct (To4 ip) as [v|] eqn:E; [|naive_solver].
  rewrite listed_bool by (by eapply To4_length). naive_solver.
Qed.
Lemma b_ignored_spec ip : b_ignored ip = true <-> on_v4 ip (dst_ignored on ign).
Proof.
  unfold b_ignored, on_v4. destruct (To4 ip) as [v|] eqn:E; [|naive_solver].
  rewrite ignored_bool by (by eapply To4_length). naive_solver.
Qed.

Lemma Classify_tests fqdn ip : Classify (Some p) fqdn ip =
  if b_listed ip then ClassAllowed else if b_ignored ip then ClassIgnored
  else if negb (enabled p) then ClassMonitor
  else if decide (normalize fqdn = []) then ClassUnknown
  else if b_name fqdn then ClassAllowed else ClassNotListed.
Proof.
  unfold Classify, b_listed, b_ignored, b_name. cbv zeta.
  repeat case_match; cbn in *; congruence.
Qed.
End Build.
End Classifier.

(** C2: classification is exactly determined by the configured lists.  For a
    policy built from allowed-hosts, allowed-ips and ignored nets, the five
    classes are: allowed iff the IPv4 destination is covered by an allowed-ips
    entry, or it is not ignored and the name is covered by an allowed-hosts
    entry; ignored iff it is covered by no allowed-ips entry but by an ignored
    network; monitor iff no list has an entry (and not ignored); unknown iff
    lists are on, nothing covers the destination and the name is empty;
    not_listed iff the name is non-empty and not covered. *)
Theorem classify_correct `{UnicodeCase} hosts addrs ign on p fqdn ip :
  BuildPolicyEx hosts addrs ign on = Ok p ->
  let listed := on_v4 ip (dst_listed addrs) in
  let ignored := on_v4 ip (dst_ignored on ign) in
  (Classify (Some p) fqdn ip = ClassAllowed <-> listed \/ (~ ignored /\ name_listed hosts fqdn)) /\
  (Classify (Some p) fqdn ip = ClassIgnored <-> ~ listed /\ ignored) /\
  (Classify (Some p) fqdn ip = ClassMonitor <-> ~ listed /\ ~ ignored /\ ~ has_entries hosts addrs) /\
  (Classify (Some p) fqdn ip = ClassUnknown <->
     ~ listed /\ ~ ignored /\ has_entries hosts addrs /\ normalize fqdn = []) /\
  (Classify (Some p) fqdn ip = ClassNotListed <->
     ~ listed /\ ~ ignored /\ has_entries hosts addrs /\ normalize fqdn <> [] /\ ~ name_listed hosts fqdn).
Proof.
  intros HB. cbv zeta.
  pose proof (b_listed_spec _ _ _ _ _ HB ip) as Hl.
  pose proof (b_ignored_spec _ _ _ _ _ HB ip) as Hi.
  pose proof (name_bool _ _ _ _ _ HB fqdn) as Hn.
  pose proof (name_listed_nonempty hosts fqdn) as Hne.
  assert (enabled p = true <-> has_entries hosts addrs) as He
    by (apply BuildPolicyEx_inv in HB as [[] _]; done).
  assert (name_listed hosts fqdn -> has_entries hosts addrs) as Hnh.
  { intros [?|(s & ? & _)]; left; eexists; by split; [|eassumption]. }
  rewrite Classify_tests. fold (b_name p fqdn) in Hn.
  rewrite <- Hl, <- Hi, <- Hn, <- He. rewrite <- Hn in Hnh, Hne. rewrite <- He in Hnh. clear -Hnh Hne.
  destruct (b_listed p ip), (b_ignored p ip), (enabled p), (b_name p fqdn);
    cbn; try case_decide; intuition congruence.
Qed.

Definition ex_policy : Policy :=
  match BuildPolicyEx (H := ascii_case) (str "GitHub.com, *.example.org")
          (str "10.1.2.3 192.168.0.0/16 2001:db8::1") (str "") true with
  | Ok p => p | Err _ => emptyPolicy
  end.

Lemma classify_correct_witness :
  BuildPolicyEx (H := ascii_case) (str "GitHub.com, *.example.org")
    (str "10.1.2.3 192.168.0.0/16 2001:db8::1") (str "") true = Ok ex_policy /\
  (Classify (H := ascii_case) (Some ex_policy) (str "cdn.example.org") [8;8;8;8] = ClassAllowed <->
     on_v4 [8;8;8;8] (dst_listed (str "10.1.2.3 192.168.0.0/16 2001:db8::1")) \/
     (~ on_v4 [8;8;8;8] (dst_ignored true (str "")) /\
      name_listed (H := ascii_case) (str "GitHub.com, *.example.org") (str "cdn.example.org"))).
Proof.
  split; [vm_compute; reflexivity|].
  apply (classify_correct (H := ascii_case) (str "GitHub.com, *.example.org")
           (str "10.1.2.3 192.168.0.0/16 2001:db8::1") (str "") true ex_policy).
  vm_compute. reflexivity.
Defined.

Example classify_ex :
  map (fun d => Classify (H := ascii_case) (Some ex_policy) d.1 d.2)
    [(str "", [192;168;7;7]); (str "GITHUB.com ", [8;8;8;8]); (str "a.b.example.org", [8;8;8;8]);
     (str "github.com", [10;9;9;9]); (str " ", [8;8;8;8])]
  = [ClassAllowed; ClassAllowed; ClassNotListed; ClassIgnored; ClassUnknown].
Proof. vm_compute. reflexivity. Qed.

(** The shape of one accepted entry. *)
Definition valid_host (h : bytes) : Prop :=
  0 < len h <= MaxAllowedHostnameBytes /\ validHostnameSuffix (TrimSuffix h (str ".")) = true.
Definition valid_suffix (s : bytes) : Prop :=
  0 < len s <= MaxAllowedHostnameBytes /\ validHostnameSuffix s = true.

Lemma parseHostEntry_valid `{UnicodeCase} raw e : parseHostEntry raw = Ok e ->
  match e with HostSkip => True | HostExact h => valid_host h | HostWild s => valid_suffix s end.
Proof.
  unfold parseHostEntry, valid_host, valid_suffix.
  assert (forall s : bytes, s <> [] -> 0 < len s) as Hpos.
  { intros [|b s] ?; [done|]. rewrite len_cons. pose proof (len_nonneg s). lia. }
  repeat (case_match; try done); intros [= <-];
    rewrite ?Z.ltb_ge, ?negb_false_iff in *; split; try done; split; auto.
Qed.

Lemma parseIPEntry_valid raw e : parseIPEntry raw = Ok e ->
  match e with
  | IPLit4 v => length v = 4%nat
  | IPLit6 v => length v = 16%nat /\ To4 v = None
  | _ => True
  end.
Proof.
  unfold parseIPEntry. repeat (case_match; try done); intros; simplify_eq; eauto using To4_length.
  split; [by eapply To16_length|].
  match goal with H : ParseIP _ = Some _ |- _ => apply ParseIP_length in H as Hl end.
  rewrite To16_v6 in * by done. by simplify_eq.
Qed.

(** C40: a policy that was built holds only well-formed entries and respects the
    BPF map limits: exact hosts and wildcard suffixes are 1..253 bytes over the
    hostname alphabet, IPv4 keys have 4 bytes, IPv6 keys have 16 bytes and are
    not IPv4-mapped (the two families are disjoint), the IPv6 entries are at
    most 4096 and the ignored networks at most 128. *)
Theorem policy_wellformed `{UnicodeCase} hosts addrs ign on p :
  BuildPolicyEx hosts addrs ign on = Ok p ->
  (forall h, h ∈ exactHosts p -> valid_host h) /\
  (forall s, s ∈ wildSuffixes p -> valid_suffix s) /\
  (forall v, v ∈ ips p -> length v = 4%nat) /\
  (forall v, v ∈ ipv6s p -> length v = 16%nat /\ To4 v = None) /\
  Z.of_nat (size (ipv6s p)) <= MaxAllowedDefendIPv6Keys /\
  len (ipv6nets p) <= MaxAllowedDefendIPv6Keys /\
  len (ignored p) <= MaxIgnoredIPv4Nets.
Proof.
  intros HB. apply BuildPolicyEx_inv in HB as ([Hx Hw Hi _ Hi6 _ _ [H6 Hn6]] & Hlen & _).
  split_and!; try done.
  - intros h (r & _ & Hr)%Hx. by apply (parseHostEntry_valid r (HostExact h)).
  - intros s (r & _ & Hr)%Hw. by apply (parseHostEntry_valid r (HostWild s)).
  - intros v (r & _ & Hr)%Hi. by apply (parseIPEntry_valid r (IPLit4 v)).
  - intros v (r & _ & Hr)%Hi6. by apply (parseIPEntry_valid r (IPLit6 v)).
Qed.

Lemma policy_wellformed_witness : len (ignored ex_policy) <= MaxIgnoredIPv4Nets.
Proof.
  apply (policy_wellformed (H := ascii_case) (str "GitHub.com, *.example.org")
           (str "10.1.2.3 192.168.0.0/16 2001:db8::1") (str "") true ex_policy).
  vm_compute. reflexivity.
Defined.

(** Merging ignored networks loses and adds no coverage and keeps no
    duplicate.  For lists that [ParseIgnoredIPNets] produced, an IPv4 address is
    covered by the merged list iff it is covered by one of the two lists; no two
    merged entries print the same CIDR; the result is no longer than the
    inputs. *)
Theorem merge_ignored_correct ra rb a b ip :
  ParseIgnoredIPNets ra = Ok a -> ParseIgnoredIPNets rb = Ok b -> length ip = 4%nat ->
  NetsContains (mergeDedupedNets a b) ip = (NetsContains a ip || NetsContains b ip) /\
  (forall i j n n', mergeDedupedNets a b !! i = Some (Some n) -> mergeDedupedNets a b !! j = Some (Some n') ->
     IPNet_String n = IPNet_String n' -> i = j) /\
  len (mergeDedupedNets a b) <= len a + len b.
Proof.
  intros Ha Hb Hip.
  assert (forall n, Some n ∈ a ++ b -> v4_net n) as Hwf
    by (intros n [?|?]%elem_of_app; eauto using ParseIgnoredIPNets_v4).
  split; [by apply merge_covers|].
  destruct (mergeDeduped_inv a b Hwf) as (seen & [_ _ _ Hnd Hlen]). cbn in *.
  split; [done|]. by rewrite len_app in Hlen.
Qed.

Lemma merge_ignored_correct_witness :
  NetsContains (mergeDedupedNets [Some (mkIPNet [10;0;0;0] [255;0;0;0])]
                  [Some (mkIPNet [10;0;0;0] [255;0;0;0]); Some (mkIPNet [192;168;0;0] [255;255;0;0])]) [192;168;1;1] = true.
Proof.
  destruct (merge_ignored_correct (str "10.0.0.0/8") (str "10.0.0.0/8,192.168.0.0/16")
    [Some (mkIPNet [10;0;0;0] [255;0;0;0])]
    [Some (mkIPNet [10;0;0;0] [255;0;0;0]); Some (mkIPNet [192;168;0;0] [255;255;0;0])] [192;168;1;1]
    ltac:(vm_compute; reflexivity) ltac:(vm_compute; reflexivity) eq_refl) as [E _].
  rewrite E. vm_compute. reflexivity.
Defined.

(** A wildcard entry [*.suffix] matches exactly the names made of one
    non-empty label without dots in front of [.suffix]; it never matches the
    suffix itself nor a deeper subdomain. *)
Theorem wildcard_one_label fqdn suf : hostMatchesWildcard fqdn suf = true <->
  exists label, label <> [] /\ (46 ∉ label) /\ fqdn = label ++ 46 :: suf.
Proof. apply hostMatchesWildcard_iff. Qed.

(** ** Bypass predicates *)

(** The network [fe80::/10] as [net.ParseCIDR] reads it. *)
Definition fe80_10 : IPNet :=
  mkIPNet [0xfe;0x80;0;0;0;0;0;0;0;0;0;0;0;0;0;0] [0xff;0xc0;0;0;0;0;0;0;0;0;0;0;0;0;0;0].
Example fe80_10_parsed : snd <$> ParseCIDR (str "fe80::/10") = Some fe80_10.
Proof. vm_compute. reflexivity. Qed.

Lemma land_ff_id b : is_byte b -> Z.land b 0xff = b.
Proof.
  intros [? ?]. change 0xff with (Z.ones 8). rewrite Z.land_ones by lia.
  apply Z.mod_small. change (2 ^ 8) with 256. lia.
Qed.

Lemma land_bytes_zeros s n : length s = n -> land_bytes s (replicate n 0) = replicate n 0.
Proof.
  intros <-. unfold land_bytes. induction s as [|x s IH]; cbn; [done|]. by rewrite Z.land_0_r, IH.
Qed.

Lemma link_local_contains ip : length ip = 16%nat -> wf_bytes ip -> To4 ip = None ->
  link_local_bytes ip = IPNet_Contains fe80_10 ip.
Proof.
  intros Hl Hw Ht. unfold IPNet_Contains. rewrite Ht.
  change (networkNumberAndMask fe80_10) with (Some (net_IP fe80_10, net_Mask fe80_10)).
  cbv beta iota. rewrite decide_True by done.
  destruct ip as [|b0 [|b1 s]]; cbn in Hl; try lia.
  apply Forall_cons in Hw as [H0 [H1 _]%Forall_cons].
  change (land_bytes (net_IP fe80_10) (net_Mask fe80_10)) with (0xfe :: 0x80 :: replicate 14 0).
  change (land_bytes (b0 :: b1 :: s) (net_Mask fe80_10))
    with (Z.land b0 0xff :: Z.land b1 0xc0 :: land_bytes s (replicate 14 0)).
  rewrite land_ff_id, land_bytes_zeros by (done || lia). cbn [link_local_bytes].
  apply eq_true_iff_eq. rewrite bool_decide_eq_true, andb_true_iff, !Z.eqb_eq.
  split; [intros [-> ->]; done|intros [= <- <-]; done].
Qed.

Lemma embedded_To4 ip : length ip = 16%nat -> IPv4MappedEmbeddedIPv4 ip = To4 ip.
Proof.
  intros Hl. unfold IPv4MappedEmbeddedIPv4. rewrite To16_v6 by done.
  unfold To4, IPv4len, IPv6len. rewrite (decide_False (P := length ip = _)) by lia.
  assert (take 12 ip = take 10 ip ++ take 2 (drop 10 ip)) as E
    by (rewrite take_take_drop; done).
  rewrite (take_ge (drop 12 ip)) by (rewrite length_drop; lia).
  rewrite copy_array_exact by (rewrite length_drop; lia).
  destruct (decide (take 10 ip = _ /\ _)) as [[H10 H2]|Hn].
  - rewrite decide_True; [done|]. split; [done|]. by rewrite E, H10, H2.
  - rewrite decide_False; [done|]. intros [_ H12]. apply Hn. rewrite E in H12.
    change v4InV6Prefix with (replicate 10 0 ++ [255; 255]) in H12.
    apply app_inj_1 in H12; [done|]. rewrite length_take, length_replicate. lia.
Qed.

(** The userspace bypass predicates mean what the BPF hooks check.  On a
    16-byte address the defend bypass holds iff the address is not
    IPv4-mapped and is ::1 or inside fe80::/10; the embedded IPv4 is recovered
    exactly for ::ffff:0:0/96; the egress backstop agrees with the defend bypass
    on native IPv6 and is 127.0.0.0/8 on the embedded IPv4. *)
Theorem bypass_predicates_correct ip : length ip = 16%nat -> wf_bytes ip ->
  (IPv6BypassesDefend ip = true <->
     To4 ip = None /\ (ip = IPv6loopback \/ IPNet_Contains fe80_10 ip = true)) /\
  IPv4MappedEmbeddedIPv4 ip = To4 ip /\
  (To4 ip = None -> EgressBackstopBypasses ip = IPv6BypassesDefend ip) /\
  (forall a b c d, To4 ip = Some [a; b; c; d] -> EgressBackstopBypasses ip = (a =? 127)).
Proof.
  intros Hl Hw. split_and!.
  - unfold IPv6BypassesDefend. rewrite decide_False by (by intros ->).
    destruct (To4 ip) as [v|] eqn:Et; [naive_solver|]. rewrite To16_v6 by done.
    rewrite <- (link_local_contains ip) by done. unfold IsLoopback. rewrite Et.
    case_bool_decide; naive_solver.
  - by apply embedded_To4.
  - intros Et. unfold EgressBackstopBypasses, IPv6BypassesDefend. rewrite Et, To16_v6 by done.
    rewrite (bool_decide_eq_true_2 (length ip = IPv6len)) by done. done.
  - intros a b c d Et. unfold EgressBackstopBypasses. rewrite decide_False by (by intros ->).
    by rewrite Et.
Qed.

Lemma bypass_predicates_correct_witness :
  IPv6BypassesDefend IPv6loopback = true /\ IPv6BypassesDefend (v4InV6Prefix ++ [127;0;0;1]) = false.
Proof.
  split.
  - destruct (bypass_predicates_correct IPv6loopback eq_refl ltac:(repeat constructor; lia)) as [[_ H] _].
    apply H. split; [done|by left].
  - destruct (bypass_predicates_correct (v4InV6Prefix ++ [127;0;0;1]) eq_refl
      ltac:(repeat constructor; lia)) as [[H _] _].
    destruct (IPv6BypassesDefend _); [|done]. destruct (H eq_refl) as [E _]. discriminate E.
Defined.
