(* ===== verification/BpfMap.v ===== *)
(** The interface of a kernel BPF map (cilium/ebpf's [*Map]) as the agent's Go
    code uses it, with the documented behaviour the code relies on, and Go's
    [range] over a map, whose order is unspecified.

    The library is not part of the repository, so its operations are a class
    and what it promises is a class of laws; [gmap_map] and [bounded_map] are
    instances that show the laws can hold. *)
From S2P Require Import Prelude.

Open Scope Z_scope.

(** Errors of a map operation: [ebpf.ErrKeyNotExist] and any other. *)
Inductive bpf_err :=
  | ErrKeyNotExist
  | ErrMap (errno : Z).

#[global] Instance bpf_err_eq_dec : EqDecision bpf_err.
Proof. solve_decision. Defined.

(** The operations of a map handle [M] with keys [K] and values [V]. *)
Class BpfMapOps (K V M : Type) := {
  bm_update : M -> K -> V -> M * option bpf_err;
  bm_delete : M -> K -> M * option bpf_err;
  bm_lookup : M -> K -> result bpf_err V;
}.

(** What every kind of map promises, LRU maps included: [bm_view] is the
    content, a successful write is visible, other keys keep their value or
    were evicted, and an operation that failed wrote nothing. *)
Class BpfMapLaws (K V M : Type) `{Countable K} `{!BpfMapOps K V M} := {
  bm_view : M -> gmap K V;
  bm_update_ok m k v m' : bm_update m k v = (m', None) ->
    bm_view m' !! k = Some v /\
    (forall k', k' <> k -> bm_view m' !! k' = bm_view m !! k' \/ bm_view m' !! k' = None);
  bm_update_err m k v m' e : bm_update m k v = (m', Some e) -> bm_view m' = bm_view m;
  bm_delete_ok m k m' : bm_delete m k = (m', None) -> bm_view m' = delete k (bm_view m);
  bm_delete_none m k m' : bm_delete m k = (m', Some ErrKeyNotExist) ->
    bm_view m !! k = None /\ bm_view m' = bm_view m;
  bm_delete_err m k m' e : bm_delete m k = (m', Some e) -> bm_view m' = bm_view m;
  bm_lookup_ok m k v : bm_lookup m k = Ok v -> bm_view m !! k = Some v;
  bm_lookup_none m k : bm_lookup m k = Err ErrKeyNotExist -> bm_view m !! k = None;
}.

(** Maps without eviction (hash, array and LPM-trie maps). *)
Class BpfMapExact (K V M : Type) `{BpfMapLaws K V M} := {
  bm_update_exact m k v m' : bm_update m k v = (m', None) -> bm_view m' = <[k := v]> (bm_view m);
}.

(** Iteration with [Map.Iterate]: the entries seen and the iterator's error. *)
Class BpfMapIter (K V M : Type) := bm_iter : M -> list (K * V) * option bpf_err.
Class BpfMapIterLaws (K V M : Type) `{BpfMapLaws K V M} `{!BpfMapIter K V M} :=
  bm_iter_ok m l : bm_iter m = (l, None) -> l ≡ₚ map_to_list (bm_view m).

(** A map of limited size, as the kernel documents it: an update fails only when
    its key is new and the map is full, a deletion only when there is no such
    key, and reading does not fail. *)
Class BpfMapCapacity (K V M : Type) `{BpfMapLaws K V M} `{!BpfMapIter K V M} := {
  bm_cap : M -> nat;
  bm_update_room m k v : is_Some (bm_view m !! k) \/ (size (bm_view m) < bm_cap m)%nat -> (bm_update m k v).2 = None;
  bm_update_cap m k v : bm_cap (bm_update m k v).1 = bm_cap m;
  bm_delete_fails m k e : (bm_delete m k).2 = Some e -> e = ErrKeyNotExist;
  bm_iter_total m : (bm_iter m).2 = None;
  bm_lookup_held m k v : bm_view m !! k = Some v -> bm_lookup m k = Ok v;
}.

(** There is room for [keys] beside what the map holds. *)
Definition bm_room {K V M} `{BpfMapCapacity K V M} (m : M) (keys : gset K) : Prop :=
  (size (dom (bm_view m) ∪ keys) <= bm_cap m)%nat.

(** ** Instances *)

Section Instances.
Context {K V : Type} `{Countable K}.

(** A map that never fails. *)
#[export] Instance gmap_ops : BpfMapOps K V (gmap K V) := {
  bm_update m k v := (<[k := v]> m, None);
  bm_delete m k := match m !! k with
                   | Some _ => (delete k m, None)
                   | None => (m, Some ErrKeyNotExist)
                   end;
  bm_lookup m k := match m !! k with Some v => Ok v | None => Err ErrKeyNotExist end;
}.

#[export] Instance gmap_laws : BpfMapLaws K V (gmap K V).
Proof.
  refine {| bm_view m := m |}; cbn; intros; repeat case_match; simplify_eq; try done.
  split; [by rewrite lookup_insert_eq|]. intros k' Hk. left. by rewrite lookup_insert_ne.
Defined.

#[export] Instance gmap_exact : BpfMapExact K V (gmap K V).
Proof. split. cbn. intros m k v m' [= <-]. done. Qed.

#[export] Instance gmap_iter : BpfMapIter K V (gmap K V) := fun m => (map_to_list m, None).
#[export] Instance gmap_iter_laws : BpfMapIterLaws K V (gmap K V).
Proof. intros m l [= <-]. done. Qed.
End Instances.

(** A map with [max_entries]: an insertion into a full map fails with E2BIG. *)
Record bounded (K V : Type) `{Countable K} := mkBounded { bd_max : nat; bd_map : gmap K V }.
Arguments mkBounded {_ _ _ _}.
Arguments bd_max {_ _ _ _}.
Arguments bd_map {_ _ _ _}.

Section Bounded.
Context {K V : Type} `{Countable K}.

#[export] Instance bounded_ops : BpfMapOps K V (bounded K V) := {
  bm_update m k v :=
    if bool_decide (is_Some (bd_map m !! k)) || (size (bd_map m) <? bd_max m)%nat
    then (mkBounded (bd_max m) (<[k := v]> (bd_map m)), None)
    else (m, Some (ErrMap 7));
  bm_delete m k := match bd_map m !! k with
                   | Some _ => (mkBounded (bd_max m) (delete k (bd_map m)), None)
                   | None => (m, Some ErrKeyNotExist)
                   end;
  bm_lookup m k := match bd_map m !! k with Some v => Ok v | None => Err ErrKeyNotExist end;
}.

#[export] Instance bounded_laws : BpfMapLaws K V (bounded K V).
Proof.
  refine {| bm_view m := bd_map m |}; cbn; intros; repeat case_match; simplify_eq; try done; cbn;
    (split; [by rewrite lookup_insert_eq|]); intros k' Hk; left; by rewrite lookup_insert_ne.
Defined.

#[export] Instance bounded_exact : BpfMapExact K V (bounded K V).
Proof. split. cbn. intros m k v m' E. case_match; by simplify_eq. Qed.

#[export] Instance bounded_iter : BpfMapIter K V (bounded K V) := fun m => (map_to_list (bd_map m), None).
#[export] Instance bounded_iter_laws : BpfMapIterLaws K V (bounded K V).
Proof. intros m l [= <-]. done. Qed.

#[export] Instance bounded_capacity : BpfMapCapacity K V (bounded K V).
Proof.
  refine {| bm_cap := bd_max |}.
  - intros m k v Hr. cbn [bm_update bounded_ops]. destruct (_ || _) eqn:E; [done|]. exfalso.
    apply orb_false_iff in E as [E1%bool_decide_eq_false E2%Nat.ltb_ge]. cbn [bm_view bounded_laws] in Hr. destruct Hr; [done|lia].
  - intros m k v. cbn [bm_update bounded_ops]. by destruct (_ || _).
  - intros m k e. cbn [bm_delete bounded_ops]. by case_match; intros [= <-].
  - done.
  - intros m k v Hk. cbn [bm_lookup bounded_ops bm_view bounded_laws] in *. by rewrite Hk.
Defined.
End Bounded.

(** * [range] over a Go map

    [range n m] is the order in which the [n]-th loop of a call visits [m]: an
    arbitrary permutation of its entries. *)
Class RangeOrder (K : Type) `{Countable K} := {
  range : forall {A : Type}, nat -> gmap K A -> list (K * A);
  range_perm {A} n (m : gmap K A) : range n m ≡ₚ map_to_list m;
}.

Definition plain_order {K} `{Countable K} : RangeOrder K :=
  {| range := fun A _ m => map_to_list m; range_perm := fun A _ m => Permutation_refl _ |}.

Definition reverse_order {K} `{Countable K} : RangeOrder K.
Proof.
  refine {| range := fun A _ m => rev (map_to_list m) |}.
  intros A _ m. symmetry. apply Permutation_rev.
Defined.

(** Filtering a map and listing it commute, up to the order. *)
Lemma map_to_list_filter {K A} `{Countable K} (P : K * A -> Prop) `{!forall x, Decision (P x)} (m : gmap K A) :
  map_to_list (filter P m) ≡ₚ filter P (map_to_list m).
Proof.
  apply NoDup_Permutation; [apply NoDup_map_to_list|apply NoDup_filter, NoDup_map_to_list|].
  intros [k a]. rewrite elem_of_map_to_list, map_lookup_filter_Some, list_elem_of_filter, elem_of_map_to_list.
  tauto.
Qed.

(** A fold that touches one key per element, on a list of distinct keys. *)
Lemma foldl_pointwise {K C A E} `{Countable K} (lk : C -> K -> option E) (f : C -> K * A -> C) (g : option E -> A -> option E) :
  (forall c k a k', lk (f c (k, a)) k' = if decide (k' = k) then g (lk c k) a else lk c k') ->
  forall (l : list (K * A)) c k', NoDup l.*1 ->
  lk (foldl f c l) k' =
    match (list_to_map l : gmap K A) !! k' with Some a => g (lk c k') a | None => lk c k' end.
Proof.
  intros Hf l. induction l as [|[k a] l IH]; intros c k' Hnd; [done|].
  cbn [foldl list_to_map foldr fst snd uncurry]. apply NoDup_cons in Hnd as [Hk Hnd]. cbn in Hk.
  rewrite IH by done. rewrite Hf. destruct (decide (k' = k)) as [->|Hne].
  - rewrite not_elem_of_list_to_map_1 by done. by rewrite lookup_insert_eq.
  - by rewrite lookup_insert_ne.
Qed.

Section Range.
Context {K : Type} `{RangeOrder K} {A : Type}.
Implicit Types m : gmap K A.

Lemma range_NoDup n m : NoDup (range n m).*1.
Proof. rewrite (range_perm n m). apply NoDup_fst_map_to_list. Qed.

Lemma elem_of_range n m k a : (k, a) ∈ range n m <-> m !! k = Some a.
Proof. rewrite (range_perm n m). apply elem_of_map_to_list. Qed.

Lemma list_to_map_range n m : list_to_map (range n m) = m.
Proof.
  rewrite <- (list_to_map_to_list m) at 2. apply list_to_map_proper; [apply range_NoDup|apply range_perm].
Qed.

Lemma length_range n m : length (range n m) = size m.
Proof. rewrite (range_perm n m). apply length_map_to_list. Qed.
End Range.

(** [range] over a [map[K]struct{}], a set. *)
Definition set_range {K} `{RangeOrder K} (n : nat) (s : gset K) : list K := (range n (gset_to_gmap tt s)).*1.

Section SetRange.
Context {K : Type} `{RangeOrder K}.

Lemma elem_of_set_range n (s : gset K) k : k ∈ set_range n s <-> k ∈ s.
Proof.
  unfold set_range. rewrite list_elem_of_fmap. split.
  - intros ([k' u] & -> & Hin). apply elem_of_range, lookup_gset_to_gmap_Some in Hin. apply Hin.
  - intros Hk. exists (k, tt). split; [done|]. apply elem_of_range. by apply lookup_gset_to_gmap_Some.
Qed.

Lemma set_range_NoDup n (s : gset K) : NoDup (set_range n s).
Proof. apply range_NoDup. Qed.

Lemma set_range_elements n (s : gset K) : set_range n s ≡ₚ elements s.
Proof.
  apply NoDup_Permutation; [apply set_range_NoDup|apply NoDup_elements|].
  intros k. by rewrite elem_of_set_range, elem_of_elements.
Qed.
End SetRange.
