(* ===== verification/Allowlist.v ===== *)
(** internal/policy/allowlist.go, internal/policy/system_resolvers.go and
    internal/agent/dns_drift.go: normalising and resolving the domain
    allowlist, the owners of its addresses, and the drift watch.

    The resolver is a parameter: the answer of the [attempt]-th lookup of a
    name, or an error, which is the end of a context or something else.  The
    context is a parameter too: whether it is cancelled when a worker looks at
    it.  Each worker writes its own slot of the result slice and returns nil,
    so the workers do not interact and the merge reads the slots in order. *)
From S2P Require Import Prelude GoStrings GoNet Policy BpfMap.

Open Scope Z_scope.

Section Dedup.
Context {A : Type} `{Countable K} (key : A -> K).

(** Keep the first element of every key: the [seen] map idiom. *)
Fixpoint dedup_by (seen : gset K) (l : list A) : list A :=
  match l with
  | [] => []
  | x :: l' => if decide (key x ∈ seen) then dedup_by seen l' else x :: dedup_by ({[key x]} ∪ seen) l'
  end.

Lemma elem_of_dedup_by seen l x : x ∈ dedup_by seen l -> x ∈ l /\ (key x ∉ seen).
Proof.
  revert seen. induction l as [|y l IH]; intros seen; cbn [dedup_by]; [by intros ?%not_elem_of_nil|].
  case_decide as Hy; [intros Hx%IH|intros [->|Hx%IH]%elem_of_cons]; [|by split; [left|]|].
  - split; [right|]; tauto.
  - rewrite elem_of_union in Hx. split; [right|]; tauto.
Qed.

Lemma dedup_by_complete seen l x : x ∈ l -> (key x ∉ seen) -> exists y, y ∈ dedup_by seen l /\ key y = key x.
Proof.
  revert seen. induction l as [|y l IH]; intros seen Hx Hs; [by apply not_elem_of_nil in Hx|].
  cbn [dedup_by]. destruct (decide (key x = key y)) as [E|E].
  - rewrite decide_False by (by rewrite <- E). exists y. split; [by left|done].
  - apply elem_of_cons in Hx as [->|Hx]; [done|]. case_decide; [by apply IH|].
    destruct (IH ({[key y]} ∪ seen)) as (z & Hz & ?); [done|set_solver|]. exists z. split; [by right|done].
Qed.

Lemma dedup_by_NoDup seen l : NoDup (key <$> dedup_by seen l).
Proof.
  revert seen. induction l as [|y l IH]; intros seen; cbn [dedup_by]; [constructor|].
  case_decide; [done|]. rewrite fmap_cons. constructor; [|done].
  intros (z & E & Hz)%list_elem_of_fmap. apply elem_of_dedup_by in Hz as [_ Hz]. set_solver.
Qed.

(** Nothing is dropped from a list of distinct, unseen keys. *)
Lemma dedup_by_id seen l : NoDup (key <$> l) -> (forall x, x ∈ l -> key x ∉ seen) -> dedup_by seen l = l.
Proof.
  revert seen. induction l as [|y l IH]; intros seen Hnd Hs; [done|]. cbn [dedup_by].
  rewrite fmap_cons in Hnd. apply NoDup_cons in Hnd as [Hy Hnd].
  rewrite decide_False by (apply Hs; by left). f_equal. apply IH; [done|].
  intros x Hx [Hk%elem_of_singleton|Hk]%elem_of_union; [|by eapply Hs; [right|]].
  apply Hy. rewrite <- Hk. by apply list_elem_of_fmap_2.
Qed.
End Dedup.

(** * Normalisation *)

Definition normalizeAllowlistDomains `{UnicodeCase} (domains : list bytes) : list bytes :=
  (fix go (seen : gset bytes) (l : list bytes) : list bytes :=
     match l with
     | [] => []
     | raw :: l' =>
       let domain := ToLower (TrimSpace raw) in
       if decide (domain = []) then go seen l'
       else if decide (domain ∈ seen) then go seen l'
       else domain :: go ({[domain]} ∪ seen) l'
     end) ∅ domains.

Definition NormalizeDomainsFromRaw `{UnicodeCase} (raw : bytes) : list bytes :=
  normalizeAllowlistDomains (splitFields raw).

(** * Wildcard risk *)

Definition highRiskWildcardSuffixes : list bytes :=
  [str ".githubusercontent.com"; str ".s3.amazonaws.com"; str ".blob.core.windows.net";
   str ".azureedge.net"; str ".cloudfront.net"; str ".r2.dev"; str ".pages.dev"].

Definition scoreWildcardRisk (domains : list bytes) : list bytes :=
  filter (fun d => HasPrefix d (str "*.") = true /\
                   existsb (EqualFold (drop 1 d)) highRiskWildcardSuffixes = true) domains.

(** * Compilation *)

(** A resolver error: [context.Canceled] or [context.DeadlineExceeded], or
    another one. *)
Inductive lookup_err := CtxErr | LookupErr.
Inductive network := Ip4 | Ip6.

#[global] Instance network_eq_dec : EqDecision network.
Proof. solve_decision. Defined.

(** [lookup attempt network domain], and [cancelled domain i]: [gctx.Err()] is
    not nil at the [i]-th point where the worker of [domain] asks. *)
Class Resolver := {
  lookup_ip : nat -> network -> bytes -> result lookup_err (list bytes);
  cancelled : bytes -> nat -> bool;
}.

Record domainResult := mkDomainResult {
  dr_domain : bytes;
  dr_ips4 : list bytes;
  dr_ips6 : list bytes;
  dr_resolved4 : bool;
  dr_resolved6 : bool;
}.

Record CompileResult := mkCompileResult {
  Domains : list bytes;
  AllowedIPv4 : gset bytes;
  AllowedIPv6 : gset bytes;
  UnresolvedDomains : list bytes;
  WildcardRiskDomains : list bytes;
}.

Definition is_v4 (ip : bytes) : bool := match To4 ip with Some _ => true | None => false end.
Definition is_v6 (ip : bytes) : bool :=
  negb (is_v4 ip) && match To16 ip with Some _ => true | None => false end.

Section Compile.
Context `{UnicodeCase} `{Resolver}.

(** One family of an attempt: [None] is the [break] on a cancelled parent;
    otherwise the addresses and the flag after it. *)
Definition lookupFamily (attempt : nat) (net : network) (keep : bytes -> bool) (point : nat) (d : bytes)
    (ips : list bytes) (resolved : bool) : option (list bytes * bool) :=
  if resolved then Some (ips, resolved)
  else match lookup_ip attempt net d with
       | Err CtxErr => if cancelled d point then None else Some (ips, resolved)
       | Err LookupErr => Some (ips, resolved)
       | Ok answer =>
         Some (ips ++ List.filter keep answer, resolved || existsb keep answer)
       end.

(** The attempt loop of a worker of [CompileDomainAllowlist]. *)
Fixpoint compileAttempts (left attempt : nat) (res : domainResult) : domainResult :=
  match left with
  | O => res
  | S left' =>
    let d := dr_domain res in
    if cancelled d (3 * attempt) then res
    else
      match lookupFamily attempt Ip4 is_v4 (3 * attempt + 1) d (dr_ips4 res) (dr_resolved4 res) with
      | None => res
      | Some (ips4, resolved4) =>
        let res := mkDomainResult d ips4 (dr_ips6 res) resolved4 (dr_resolved6 res) in
        match lookupFamily attempt Ip6 is_v6 (3 * attempt + 2) d (dr_ips6 res) (dr_resolved6 res) with
        | None => res
        | Some (ips6, resolved6) =>
          let res := mkDomainResult d ips4 ips6 resolved4 resolved6 in
          if resolved4 && resolved6 then res else compileAttempts left' (S attempt) res
        end
      end
  end.

Definition attempts (maxAttempts : Z) : nat := Z.to_nat (if maxAttempts <? 1 then 1 else maxAttempts).

Definition compileDomain (maxAttempts : Z) (d : bytes) : domainResult :=
  compileAttempts (attempts maxAttempts) 0 (mkDomainResult d [] [] false false).

(** The merge of one worker's slot. *)
Definition mergeResult (r : CompileResult) (res : domainResult) : CompileResult :=
  if dr_resolved4 res || dr_resolved6 res then
    mkCompileResult (Domains r) (foldl IPv4Set_Add (AllowedIPv4 r) (dr_ips4 res))
      (foldl IPv6Set_Add (AllowedIPv6 r) (dr_ips6 res)) (UnresolvedDomains r) (WildcardRiskDomains r)
  else
    mkCompileResult (Domains r) (AllowedIPv4 r) (AllowedIPv6 r)
      (UnresolvedDomains r ++ [dr_domain res]) (WildcardRiskDomains r).

Definition CompileDomainAllowlist (domains : list bytes) (maxAttempts : Z) : CompileResult :=
  let normalized := normalizeAllowlistDomains domains in
  let results := map (compileDomain maxAttempts) normalized in
  let result := foldl mergeResult (mkCompileResult normalized ∅ ∅ [] []) results in
  mkCompileResult (Domains result) (AllowedIPv4 result) (AllowedIPv6 result)
    (Sort (UnresolvedDomains result)) (scoreWildcardRisk normalized).

Definition ReResolve (original : CompileResult) (maxAttempts : Z) : CompileResult :=
  CompileDomainAllowlist (Domains original) maxAttempts.

(** ** Owners *)

Fixpoint ownerAttempts (left attempt : nat) (d : bytes) : list bytes :=
  match left with
  | O => []
  | S left' =>
    if cancelled d (2 * attempt) then []
    else match lookup_ip attempt Ip4 d with
         | Ok answer => List.filter is_v4 answer
         | Err _ => if cancelled d (2 * attempt + 1) then [] else ownerAttempts left' (S attempt) d
         end
  end.

(** A worker's slot; a skipped wildcard leaves the zero value. *)
Definition ownerResult (maxAttempts : Z) (d : bytes) : bytes * list bytes :=
  if HasPrefix d (str "*.") then ([], []) else (d, ownerAttempts (attempts maxAttempts) 0 d).

Definition addOwner (domain : bytes) (out : gmap bytes bytes) (ip : bytes) : gmap bytes bytes :=
  match To4 ip with
  | None => out
  | Some ip4 =>
    let k := copy_array 4 ip4 in
    match out !! k with
    | Some existing => if bltb domain existing then <[k := domain]> out else out
    | None => <[k := domain]> out
    end
  end.

Definition mergeOwners (out : gmap bytes bytes) (res : bytes * list bytes) : gmap bytes bytes :=
  if decide (res.1 = []) then out else foldl (addOwner res.1) out res.2.

Definition ResolveOwners (domains : list bytes) (maxAttempts : Z) : gmap bytes bytes :=
  foldl mergeOwners ∅ (map (ownerResult maxAttempts) (normalizeAllowlistDomains domains)).
End Compile.

(** * Drift *)

Record DriftReport := mkDrift { AddedIPs : list bytes; RemovedIPs : list bytes }.

Section Drift.
Context `{!RangeOrder bytes}.

(** The members of [s] that [t] lacks, printed, in iteration order. *)
Definition missingFrom (n : nat) (s t : gset bytes) : list bytes :=
  map IP_String (List.filter (fun k => negb (IPv4Set_Contains t k)) (set_range n s)).

Definition Diff (original updated : CompileResult) : DriftReport :=
  mkDrift (Sort (missingFrom 0 (AllowedIPv4 updated) (AllowedIPv4 original)))
          (Sort (missingFrom 1 (AllowedIPv4 original) (AllowedIPv4 updated))).

(** [runDNSDriftWatch] as the events of a run.  A tick carries the resolver
    of its re-resolution and whether the context was done before and after
    it; the run ends at a done context or with the ticks. *)
Record tick := mkTick { t_done_before : bool; t_resolver : Resolver; t_done_after : bool }.

Inductive driftEvent := OnDrift (dr : DriftReport) | OnClean.

Fixpoint driftLoop `{UnicodeCase} (original : CompileResult) (maxAttempts : Z) (ticks : list tick) : list driftEvent :=
  match ticks with
  | [] => []
  | t :: ticks' =>
    if t_done_before t then []
    else
      let updated := ReResolve (H0 := t_resolver t) original maxAttempts in
      if t_done_after t then []
      else
        let dr := Diff original updated in
        match AddedIPs dr, RemovedIPs dr with
        | [], [] => OnClean
        | _, _ => OnDrift dr
        end :: driftLoop original maxAttempts ticks'
  end.

Definition runDNSDriftWatch `{UnicodeCase} (original : CompileResult) (maxAttempts : Z) (ticks : list tick) : list driftEvent :=
  if decide (Domains original = []) then []
  else driftLoop original (if maxAttempts <? 1 then 1 else maxAttempts) ticks.
End Drift.

(** * internal/policy/system_resolvers.go *)

Definition maxSystemResolvers : Z := 8.

Definition DefaultResolvConfPaths : list bytes :=
  [str "/run/systemd/resolve/resolv.conf"; str "/etc/resolv.conf"].

(** The nameserver address of a line, if it has one that is not loopback. *)
Definition nameserver (text : bytes) : option bytes :=
  let line := TrimSpace text in
  if decide (line = []) then None
  else if HasPrefix line (str "#") || HasPrefix line (str ";") then None
  else match Fields line with
       | f0 :: f1 :: _ =>
         if decide (f0 = str "nameserver") then
           match ParseIP f1 with
           | None => None
           | Some ip => if IsLoopback ip then None else Some ip
           end
         else None
       | _ => None
       end.

Record resolverScan := mkScan { sc_seen : gset bytes; sc_v4 : list bytes; sc_v6 : list bytes }.

Definition scanLine (st : resolverScan) (text : bytes) : resolverScan :=
  match nameserver text with
  | None => st
  | Some ip =>
    if decide (IP_String ip ∈ sc_seen st) then st
    else if maxSystemResolvers <=? Z.of_nat (size (sc_seen st)) then st
    else
      let seen := {[IP_String ip]} ∪ sc_seen st in
      match To4 ip with
      | Some _ => mkScan seen (sc_v4 st ++ [ip]) (sc_v6 st)
      | None => mkScan seen (sc_v4 st) (sc_v6 st ++ [ip])
      end
  end.

(** [open path] is the content of a file, [None] when it cannot be opened. *)
Definition SystemResolverIPs (open : bytes -> option bytes) (paths : list bytes) : list bytes * list bytes :=
  let st := foldl (fun st path =>
      match open path with
      | None => st
      | Some content => foldl scanLine st (ScanLines content)
      end) (mkScan ∅ [] []) paths in
  (sc_v4 st, sc_v6 st).

(** * Lemmas: normalisation *)

Lemma lower_byte_space b : IsSpace (lower_byte b) = IsSpace b.
Proof.
  unfold lower_byte, is_upper, in_range. destruct ((65 <=? b) && (b <=? 90)) eqn:E; [|done]. z_bool.
  unfold IsSpace, in_range. assert (forall x, 65 <= x <= 122 ->
    (9 <=? x) && (x <=? 13) || (x =? 32) || (x =? 133) || (x =? 160) || (x =? 5760) ||
    (8192 <=? x) && (x <=? 8202) || (x =? 8232) || (x =? 8233) || (x =? 8239) || (x =? 8287) || (x =? 12288) = false) as Hx.
  { intros x Hx. z_bool. repeat split; lia. }
  by rewrite !Hx by lia.
Qed.

Lemma lower_byte_idem b : lower_byte (lower_byte b) = lower_byte b.
Proof. unfold lower_byte, is_upper, in_range. repeat case_match; z_bool; lia. Qed.

Lemma lower_byte_ascii b : b < 128 -> lower_byte b < 128.
Proof. unfold lower_byte, is_upper, in_range. case_match; z_bool; lia. Qed.

Lemma trim_lower s : trim IsSpace (map lower_byte s) = map lower_byte (trim IsSpace s).
Proof.
  unfold trim. rewrite drop_while_map, <- map_rev, drop_while_map, <- map_rev.
  by rewrite !(drop_while_ext (fun b => IsSpace (lower_byte b)) IsSpace) by apply lower_byte_space.
Qed.

Lemma trim_Forall {A} (P : A -> Prop) f l : Forall P l -> Forall P (trim f l).
Proof.
  intros Hl. unfold trim. assert (forall k, Forall P k -> Forall P (drop_while f k)) as Hd.
  { intros k Hk. destruct (drop_while_split f k) as [t Ht]. rewrite Ht in Hk. by apply Forall_app in Hk as [_ ?]. }
  by apply Forall_rev, Hd, Forall_rev, Hd.
Qed.

Section Norm.
Context `{UnicodeCase}.

(** The normal form of one entry. *)
Definition norm (s : bytes) : bytes := ToLower (TrimSpace s).

Lemma norm_ascii s : is_ascii s = true -> norm s = map lower_byte (trim IsSpace s) /\ is_ascii (norm s) = true.
Proof.
  intros Ha. assert (is_ascii (trim IsSpace s) = true) as Ht
    by (apply is_ascii_Forall, trim_Forall; by apply is_ascii_Forall).
  unfold norm. rewrite TrimSpace_ascii, ToLower_ascii by done. split; [done|].
  rewrite is_ascii_Forall in *. apply Forall_map. eapply Forall_impl; [exact Ht|]. apply lower_byte_ascii.
Qed.

Lemma norm_idem s : is_ascii s = true -> norm (norm s) = norm s.
Proof.
  intros Ha. destruct (norm_ascii s Ha) as [E Ha']. destruct (norm_ascii _ Ha') as [-> _]. rewrite E.
  rewrite trim_lower, trim_idem. rewrite map_map. apply map_ext. apply lower_byte_idem.
Qed.

Lemma normalize_dedup domains :
  normalizeAllowlistDomains domains = dedup_by id ∅ (filter (fun d => d <> []) (map norm domains)).
Proof.
  unfold normalizeAllowlistDomains. generalize (∅ : gset bytes) as seen.
  induction domains as [|raw l IH]; intros seen; [done|]. cbn [map]. rewrite filter_cons.
  fold (norm raw). cbv zeta. destruct (decide (norm raw = [])) as [Hd|Hd].
  - rewrite (decide_False (P := norm raw <> [])) by tauto. apply IH.
  - rewrite (decide_True (P := norm raw <> [])) by done. cbn [dedup_by]. unfold id. case_decide; rewrite IH; done.
Qed.

Lemma normalize_NoDup domains : NoDup (normalizeAllowlistDomains domains).
Proof.
  rewrite normalize_dedup. rewrite <- (list_fmap_id (dedup_by _ _ _)). apply dedup_by_NoDup.
Qed.

Lemma elem_of_normalize domains d :
  d ∈ normalizeAllowlistDomains domains <-> d <> [] /\ exists raw, raw ∈ domains /\ d = norm raw.
Proof.
  rewrite normalize_dedup. split.
  - intros [Hd _]%elem_of_dedup_by. apply list_elem_of_filter in Hd as [? Hd].
    apply list_elem_of_In, in_map_iff in Hd as (raw & <- & Hin%list_elem_of_In). eauto.
  - intros (Hne & raw & Hin & ->).
    destruct (dedup_by_complete id ∅ (filter (fun d => d <> []) (map norm domains)) (norm raw)) as (y & Hy & E).
    + apply list_elem_of_filter. split; [done|]. apply list_elem_of_In, in_map. by apply list_elem_of_In.
    + set_solver.
    + unfold id in E. by subst.
Qed.

Lemma normalize_idem domains : Forall (fun d => is_ascii d = true) domains ->
  normalizeAllowlistDomains (normalizeAllowlistDomains domains) = normalizeAllowlistDomains domains.
Proof.
  intros Ha. rewrite (normalize_dedup (normalizeAllowlistDomains domains)).
  assert (forall d, d ∈ normalizeAllowlistDomains domains -> d <> [] /\ norm d = d) as Hd.
  { intros d (Hne & raw & Hin & ->)%elem_of_normalize. split; [done|]. apply norm_idem.
    rewrite Forall_forall in Ha. by apply Ha. }
  replace (map norm (normalizeAllowlistDomains domains)) with (normalizeAllowlistDomains domains).
  - rewrite filter_all by (intros d Hin; by apply Hd).
    apply dedup_by_id; [rewrite list_fmap_id; apply normalize_NoDup|set_solver].
  - symmetry. rewrite <- (map_id (normalizeAllowlistDomains domains)) at 2. apply map_ext_in.
    intros d Hin%list_elem_of_In. by apply Hd.
Qed.
End Norm.

(** * Lemmas: compilation *)

Lemma elem_of_lfilter {A} (keep : A -> bool) l x : x ∈ List.filter keep l <-> x ∈ l /\ keep x = true.
Proof. by rewrite list_elem_of_In, filter_In, <- list_elem_of_In. Qed.

Lemma existsb_nonempty {A} (keep : A -> bool) l : existsb keep l = nonempty (List.filter keep l).
Proof. induction l as [|x l IH]; [done|]. cbn. by destruct (keep x). Qed.

Lemma nonempty_app {A} (l k : list A) : nonempty (l ++ k) = nonempty l || nonempty k.
Proof. by destruct l. Qed.

Section CompileLemmas.
Context `{UnicodeCase} `{R : Resolver}.

(** The addresses of a family in the answer to one attempt. *)
Definition answers (net : network) (keep : bytes -> bool) (d : bytes) (a : nat) : list bytes :=
  match lookup_ip a net d with Ok l => List.filter keep l | Err _ => [] end.

(** The first non-empty answer of the attempts [a .. a + n - 1]. *)
Fixpoint first_answer (net : network) (keep : bytes -> bool) (d : bytes) (n a : nat) : list bytes :=
  match n with
  | O => []
  | S n' => match answers net keep d a with [] => first_answer net keep d n' (S a) | ips => ips end
  end.

(** A slot: the flags say whether there are addresses. *)
Definition slot_ok (r : domainResult) : Prop :=
  dr_resolved4 r = nonempty (dr_ips4 r) /\ dr_resolved6 r = nonempty (dr_ips6 r).

Lemma lookupFamily_inv a net keep pt d ips res ips' res' :
  lookupFamily a net keep pt d ips res = Some (ips', res') -> res = nonempty ips ->
  res' = nonempty ips' /\ ips' = (if res then ips else ips ++ answers net keep d a).
Proof.
  unfold lookupFamily, answers. intros E ->. destruct (nonempty ips) eqn:En; [by simplify_eq|].
  destruct (lookup_ip a net d) as [l|[]]; repeat case_match; simplify_eq; rewrite ?app_nil_r, ?En; try done.
  by rewrite nonempty_app, En, existsb_nonempty.
Qed.

(** Every address of a slot was there or comes from one of its attempts. *)
Definition from_attempts (net : network) (keep : bytes -> bool) (d : bytes) (old ips : list bytes) (a n : nat) : Prop :=
  forall ip, ip ∈ ips -> ip ∈ old \/ exists b, (a <= b < a + n)%nat /\ ip ∈ answers net keep d b.

Lemma compileAttempts_sound n a r : slot_ok r ->
  let r' := compileAttempts n a r in
  dr_domain r' = dr_domain r /\ slot_ok r' /\
  from_attempts Ip4 is_v4 (dr_domain r) (dr_ips4 r) (dr_ips4 r') a n /\
  from_attempts Ip6 is_v6 (dr_domain r) (dr_ips6 r) (dr_ips6 r') a n.
Proof.
  revert a r. induction n as [|n IH]; intros a r Hok; cbn zeta; cbn [compileAttempts];
    [split_and!; try done; intros ip; auto|].
  assert (forall net keep d ips, from_attempts net keep d ips ips a (S n)) as Hrefl by (intros ? ? ? ? ip; auto).
  case_match; [split_and!; auto|].
  destruct (lookupFamily a Ip4 _ _ _ _ _) as [[i4 r4]|] eqn:E4; [|split_and!; auto].
  cbn [dr_ips6 dr_resolved6 dr_domain].
  apply lookupFamily_inv in E4 as [-> E4]; [|apply Hok].
  assert (from_attempts Ip4 is_v4 (dr_domain r) (dr_ips4 r) i4 a (S n)) as H4.
  { intros ip Hip. rewrite E4 in Hip. case_match; [auto|]. apply elem_of_app in Hip as [?|?]; [auto|].
    right. exists a. split; [lia|done]. }
  destruct (lookupFamily a Ip6 _ _ _ _ _) as [[i6 r6]|] eqn:E6; [|split_and!; cbn; auto; split; [done|apply Hok]].
  apply lookupFamily_inv in E6 as [-> E6]; [|apply Hok].
  assert (from_attempts Ip6 is_v6 (dr_domain r) (dr_ips6 r) i6 a (S n)) as H6.
  { intros ip Hip. rewrite E6 in Hip. case_match; [auto|]. apply elem_of_app in Hip as [?|?]; [auto|].
    right. exists a. split; [lia|done]. }
  destruct (nonempty i4 && nonempty i6); [split_and!; cbn; auto; by split|].
  destruct (IH (S a) (mkDomainResult (dr_domain r) i4 i6 (nonempty i4) (nonempty i6))) as (Hd & Ho & G4 & G6); [by split|].
  cbn in *. split_and!; [done|done|..].
  - intros ip [Hip|(b & ? & ?)]%G4; [by apply H4|]. right. exists b. split; [lia|done].
  - intros ip [Hip|(b & ? & ?)]%G6; [by apply H6|]. right. exists b. split; [lia|done].
Qed.

(** Without cancellation the slot holds the first answers. *)
Lemma compileAttempts_ref n a d i4 i6 : (forall d i, cancelled d i = false) ->
  let r := compileAttempts n a (mkDomainResult d i4 i6 (nonempty i4) (nonempty i6)) in
  dr_ips4 r = (if nonempty i4 then i4 else first_answer Ip4 is_v4 d n a) /\
  dr_ips6 r = (if nonempty i6 then i6 else first_answer Ip6 is_v6 d n a).
Proof.
  intros Hc. revert a i4 i6. induction n as [|n IH]; intros a i4 i6; cbn zeta; cbn [compileAttempts first_answer].
  { by destruct i4, i6. }
  rewrite Hc. cbn [dr_domain dr_ips4 dr_ips6 dr_resolved4 dr_resolved6].
  assert (forall net keep pt ips, exists res', lookupFamily a net keep pt d ips (nonempty ips) =
    Some (if nonempty ips then ips else ips ++ answers net keep d a, res')) as Hl.
  { intros net keep pt ips. unfold lookupFamily, answers. destruct (nonempty ips) eqn:En; [eauto|].
    destruct ips; [|done]. rewrite Hc. destruct (lookup_ip a net d) as [l|[]]; cbn; eauto. }
  destruct (Hl Ip4 is_v4 (3 * a + 1)%nat i4) as [r4 E4]. rewrite E4. apply lookupFamily_inv in E4 as [-> _]; [|done].
  destruct (Hl Ip6 is_v6 (3 * a + 2)%nat i6) as [r6 E6]. rewrite E6. apply lookupFamily_inv in E6 as [-> _]; [|done].
  assert (forall net keep i, (if nonempty i then i else i ++ answers net keep d a) =
    (if nonempty i then i else answers net keep d a)) as Hs by (by intros ? ? []).
  rewrite !Hs. set (j4 := if nonempty i4 then _ else _). set (j6 := if nonempty i6 then _ else _).
  assert (forall net keep i, let j := (if nonempty i then i else answers net keep d a) in
    (if nonempty j then j else first_answer net keep d n (S a)) =
    (if nonempty i then i else match answers net keep d a with [] => first_answer net keep d n (S a) | ips => ips end)) as Hj.
  { intros net keep i j. unfold j. destruct i; cbn; [|done]. by destruct (answers net keep d a). }
  rewrite <- (Hj Ip4 is_v4 i4), <- (Hj Ip6 is_v6 i6). cbv zeta. fold j4 j6.
  destruct (nonempty j4 && nonempty j6) eqn:Eb; [|apply IH].
  apply andb_true_iff in Eb as [-> ->]. done.
Qed.

Lemma compileDomain_sound m d : let r := compileDomain m d in
  dr_domain r = d /\ slot_ok r /\
  (forall ip, ip ∈ dr_ips4 r -> exists b, (b < attempts m)%nat /\ ip ∈ answers Ip4 is_v4 d b) /\
  (forall ip, ip ∈ dr_ips6 r -> exists b, (b < attempts m)%nat /\ ip ∈ answers Ip6 is_v6 d b).
Proof.
  destruct (compileAttempts_sound (attempts m) 0 (mkDomainResult d [] [] false false)) as (H1 & H2 & H3 & H4); [done|].
  split_and!; [done|done|..].
  - intros ip [Hip%not_elem_of_nil|(b & ? & ?)]%H3; [done|]. exists b. split; [lia|done].
  - intros ip [Hip%not_elem_of_nil|(b & ? & ?)]%H4; [done|]. exists b. split; [lia|done].
Qed.

Lemma elem_of_foldl_add4 ips s k :
  k ∈ foldl IPv4Set_Add s ips <-> k ∈ s \/ exists ip, ip ∈ ips /\ To4 ip = Some k.
Proof.
  revert s. induction ips as [|ip ips IH]; intros s; cbn [foldl].
  { setoid_rewrite elem_of_nil. naive_solver. }
  rewrite IH. unfold IPv4Set_Add. setoid_rewrite elem_of_cons.
  destruct (To4 ip) as [v|] eqn:E; [|naive_solver].
  rewrite copy_array_exact by by eapply To4_length. rewrite elem_of_union, elem_of_singleton. naive_solver.
Qed.

Lemma elem_of_foldl_add6 ips s k : (forall ip, ip ∈ ips -> is_v6 ip = true) ->
  k ∈ foldl IPv6Set_Add s ips <-> k ∈ s \/ exists ip, ip ∈ ips /\ To16 ip = Some k.
Proof.
  revert s. induction ips as [|ip ips IH]; intros s Hv; cbn [foldl].
  { setoid_rewrite elem_of_nil. naive_solver. }
  rewrite IH by (intros; apply Hv; by right). setoid_rewrite elem_of_cons.
  specialize (Hv ip ltac:(by left)). unfold is_v6, is_v4 in Hv. unfold IPv6Set_Add.
  destruct (To4 ip); [done|]. destruct (To16 ip) as [v|] eqn:E16; [|done].
  rewrite (decide_False (P := ip = [])) by (by intros ->).
  rewrite copy_array_exact by by eapply To16_length. rewrite elem_of_union, elem_of_singleton. naive_solver.
Qed.

Lemma mergeResults_spec rs r0 : let r := foldl mergeResult r0 rs in
  (forall x, x ∈ rs -> slot_ok x /\ forall ip, ip ∈ dr_ips6 x -> is_v6 ip = true) ->
  Domains r = Domains r0 /\
  (forall k, k ∈ AllowedIPv4 r <-> k ∈ AllowedIPv4 r0 \/ exists x ip, x ∈ rs /\ ip ∈ dr_ips4 x /\ To4 ip = Some k) /\
  (forall k, k ∈ AllowedIPv6 r <-> k ∈ AllowedIPv6 r0 \/ exists x ip, x ∈ rs /\ ip ∈ dr_ips6 x /\ To16 ip = Some k) /\
  UnresolvedDomains r = UnresolvedDomains r0 ++
    map dr_domain (List.filter (fun x => negb (nonempty (dr_ips4 x) || nonempty (dr_ips6 x))) rs).
Proof.
  cbv zeta. revert r0. induction rs as [|x rs IH]; intros r0 Hrs; cbn [foldl].
  { setoid_rewrite elem_of_nil. rewrite app_nil_r. naive_solver. }
  destruct (IH (mergeResult r0 x)) as (H1 & H2 & H3 & H4); [intros; apply Hrs; by right|]. clear IH.
  destruct (Hrs x) as [[Ho4 Ho6] Hv6]; [by left|]. rewrite H1, H4. setoid_rewrite H2. setoid_rewrite H3.
  setoid_rewrite elem_of_cons. unfold mergeResult. cbn [List.filter]. rewrite Ho4, Ho6.
  destruct (nonempty (dr_ips4 x) || nonempty (dr_ips6 x)) eqn:En; cbn [negb Domains AllowedIPv4 AllowedIPv6 UnresolvedDomains map].
  - split_and!; [done|intros k; rewrite elem_of_foldl_add4; naive_solver| |done].
    intros k. rewrite elem_of_foldl_add6 by done. naive_solver.
  - apply orb_false_iff in En as [E4 E6]. destruct (dr_ips4 x) eqn:D4, (dr_ips6 x) eqn:D6; try done.
    rewrite <- app_assoc. split_and!; [done| | |done];
      (intros k; split; [naive_solver|]; intros [?|(y & ip & [->|?] & Hip & ?)]; [by left| |right; eauto]);
      [rewrite D4 in Hip|rewrite D6 in Hip]; by apply not_elem_of_nil in Hip.
Qed.

Lemma compile_spec domains m : let r := CompileDomainAllowlist domains m in
  Domains r = normalizeAllowlistDomains domains /\
  (forall k, k ∈ AllowedIPv4 r <-> exists d ip, d ∈ Domains r /\ ip ∈ dr_ips4 (compileDomain m d) /\ To4 ip = Some k) /\
  (forall k, k ∈ AllowedIPv6 r <-> exists d ip, d ∈ Domains r /\ ip ∈ dr_ips6 (compileDomain m d) /\ To16 ip = Some k) /\
  UnresolvedDomains r = Sort (List.filter (fun d =>
    negb (nonempty (dr_ips4 (compileDomain m d)) || nonempty (dr_ips6 (compileDomain m d)))) (Domains r)).
Proof.
  cbv zeta. unfold CompileDomainAllowlist. cbn [Domains AllowedIPv4 AllowedIPv6 UnresolvedDomains].
  set (ds := normalizeAllowlistDomains domains).
  destruct (mergeResults_spec (map (compileDomain m) ds) (mkCompileResult ds ∅ ∅ [] [])) as (-> & H2 & H3 & ->).
  { intros x Hx. apply list_elem_of_In, in_map_iff in Hx as (d & <- & _).
    destruct (compileDomain_sound m d) as (_ & ? & _ & H6). split; [done|].
    intros ip (b & _ & Hb)%H6. unfold answers in Hb. destruct (lookup_ip b Ip6 d); [|by apply not_elem_of_nil in Hb].
    by apply elem_of_lfilter in Hb as [_ ?]. }
  assert (forall (P : domainResult -> Prop), (exists x, x ∈ map (compileDomain m) ds /\ P x) <->
    exists d, d ∈ ds /\ P (compileDomain m d)) as Hm.
  { intros P. split.
    - intros (x & Hx & ?). apply list_elem_of_In, in_map_iff in Hx as (d & <- & ?%list_elem_of_In). eauto.
    - intros (d & Hd & ?). eexists. split; [|done]. apply list_elem_of_In, in_map. by apply list_elem_of_In. }
  cbn [Domains AllowedIPv4 AllowedIPv6 UnresolvedDomains app] in *. split_and!; [done|..].
  - intros k. rewrite H2. specialize (Hm (fun x => exists ip, ip ∈ dr_ips4 x /\ To4 ip = Some k)). set_solver.
  - intros k. rewrite H3. specialize (Hm (fun x => exists ip, ip ∈ dr_ips6 x /\ To16 ip = Some k)). set_solver.
  - f_equal. clear. induction ds as [|d ds IH]; [done|]. cbn [map List.filter]. case_match; [|done]. cbn. f_equal; [|done].
    apply (compileDomain_sound m d).
Qed.
End CompileLemmas.

(** * Lemmas: owners *)

Section OwnerLemmas.
Context `{UnicodeCase} `{R : Resolver}.

(** [out] holds the smallest domain of every address listed in [pairs]. *)
Definition owner_spec (out : gmap bytes bytes) (pairs : list (bytes * bytes)) : Prop :=
  forall k, match out !! k with
            | Some o => (o, k) ∈ pairs /\ forall o', (o', k) ∈ pairs -> ble o o'
            | None => forall o', (o', k) ∉ pairs
            end.

(** The (domain, address) pairs of a slot. *)
Definition slot_pairs (res : bytes * list bytes) : list (bytes * bytes) :=
  if decide (res.1 = []) then [] else map (pair res.1) (omap To4 res.2).

Lemma addOwner_spec d out ip k pairs : owner_spec out pairs -> To4 ip = Some k ->
  owner_spec (addOwner d out ip) (pairs ++ [(d, k)]).
Proof.
  intros Hs E k'. unfold addOwner. rewrite E, copy_array_exact by by eapply To4_length.
  specialize (Hs k').
  assert (forall o, (o, k') ∈ pairs ++ [(d, k)] <-> (o, k') ∈ pairs \/ (o = d /\ k' = k)) as Hp
    by (intros o; rewrite elem_of_app, list_elem_of_singleton; naive_solver).
  destruct (decide (k' = k)) as [->|Hne].
  - destruct (out !! k) as [o|] eqn:Eo.
    + destruct Hs as [Hin Hmin]. destruct (bltb d o) eqn:Eb.
      * rewrite lookup_insert_eq. apply bltb_spec in Eb as [Hle _]. split; [apply Hp; by right|].
        intros o' [Ho|[-> _]]%Hp; [|done]. etrans; [exact Hle|by apply Hmin].
      * rewrite Eo. split; [apply Hp; by left|]. intros o' [Ho|[-> _]]%Hp; [by apply Hmin|].
        unfold bltb in Eb. by apply negb_false_iff in Eb.
    + rewrite lookup_insert_eq. split; [apply Hp; by right|]. intros o' [Ho|[-> _]]%Hp; [by apply Hs in Ho|done].
  - assert (match out !! k with Some existing => if bltb d existing then <[k := d]> out else out | None => <[k := d]> out end !! k' = out !! k') as ->
      by (repeat case_match; by rewrite ?lookup_insert_ne).
    destruct (out !! k') as [o|].
    + destruct Hs as [Hin Hmin]. split; [apply Hp; by left|]. intros o' [Ho|[_ ->]]%Hp; [by apply Hmin|done].
    + intros o' [Ho|[_ ->]]%Hp; [by apply Hs in Ho|done].
Qed.

Lemma addOwners_spec d ips out pairs : owner_spec out pairs ->
  owner_spec (foldl (addOwner d) out ips) (pairs ++ map (pair d) (omap To4 ips)).
Proof.
  revert out pairs. induction ips as [|ip ips IH]; intros out pairs Hs; cbn [foldl omap list_omap map];
    [by rewrite app_nil_r|].
  destruct (To4 ip) as [k|] eqn:E.
  - cbn [map]. replace (pairs ++ (d, k) :: map (pair d) (omap To4 ips)) with ((pairs ++ [(d, k)]) ++ map (pair d) (omap To4 ips))
      by by rewrite <- app_assoc.
    apply IH. by apply addOwner_spec.
  - apply IH. unfold addOwner. by rewrite E.
Qed.

Lemma mergeOwners_spec rs out pairs : owner_spec out pairs ->
  owner_spec (foldl mergeOwners out rs) (pairs ++ concat (map slot_pairs rs)).
Proof.
  revert out pairs. induction rs as [|res rs IH]; intros out pairs Hs; cbn [foldl map concat]; [by rewrite app_nil_r|].
  rewrite app_assoc. apply IH. unfold mergeOwners, slot_pairs. case_decide; [by rewrite app_nil_r|].
  by apply addOwners_spec.
Qed.

Lemma ownerAttempts_sound n a d ip : ip ∈ ownerAttempts n a d ->
  exists b answer, (a <= b < a + n)%nat /\ lookup_ip b Ip4 d = Ok answer /\ ip ∈ answer.
Proof.
  revert a. induction n as [|n IH]; intros a; cbn [ownerAttempts]; [by intros ?%not_elem_of_nil|].
  case_match; [by intros ?%not_elem_of_nil|]. destruct (lookup_ip a Ip4 d) as [answer|e] eqn:E.
  - intros [Hin _]%elem_of_lfilter. exists a, answer. split; [lia|done].
  - case_match; [by intros ?%not_elem_of_nil|]. intros (b & l & ? & ?)%IH. exists b, l. split; [lia|done].
Qed.

(** [d] is a listed domain, not a wildcard, and resolved to [k]. *)
Definition owns (domains : list bytes) (m : Z) (d k : bytes) : Prop :=
  d ∈ normalizeAllowlistDomains domains /\ HasPrefix d (str "*.") = false /\
  exists ip, ip ∈ ownerAttempts (attempts m) 0 d /\ To4 ip = Some k.

Lemma slot_pairs_owns domains m d k :
  (d, k) ∈ concat (map slot_pairs (map (ownerResult m) (normalizeAllowlistDomains domains))) <-> owns domains m d k.
Proof.
  unfold owns. rewrite list_elem_of_In, in_concat. setoid_rewrite in_map_iff. split.
  - intros (l & (res & <- & Hres) & Hl). apply in_map_iff in Hres as (d' & <- & Hd'%list_elem_of_In).
    apply list_elem_of_In in Hl. unfold slot_pairs, ownerResult in Hl.
    destruct (HasPrefix d' (str "*.")) eqn:Ep; [by rewrite decide_True in Hl by done; apply not_elem_of_nil in Hl|].
    cbn [fst snd] in Hl. case_decide; [by apply not_elem_of_nil in Hl|].
    apply list_elem_of_In, in_map_iff in Hl as (v & [= -> ->] & Hv%list_elem_of_In).
    apply list_elem_of_omap in Hv as (ip & ? & ?). eauto.
  - intros (Hd & Hp & ip & Hip & Hk). exists (slot_pairs (ownerResult m d)). split.
    + exists (ownerResult m d). split; [done|]. apply in_map_iff. exists d. by rewrite <- list_elem_of_In.
    + unfold slot_pairs, ownerResult. rewrite Hp. cbn [fst snd].
      rewrite decide_False by (by apply elem_of_normalize in Hd as [? _]).
      apply in_map_iff. exists k. split; [done|]. apply list_elem_of_In, list_elem_of_omap. eauto.
Qed.
End OwnerLemmas.

(** * Lemmas: drift *)

Lemma Sort_nil l : Sort l = [] <-> l = [].
Proof. split; [|by intros ->]. intros E. pose proof (Sort_perm l) as Hp. rewrite E in Hp. by apply Permutation_nil in Hp. Qed.

Section DriftLemmas.
Context `{!RangeOrder bytes}.

Definition v4_keys (s : gset bytes) : Prop := forall k, k ∈ s -> length k = 4%nat.

Lemma Contains_v4 t k : length k = 4%nat -> IPv4Set_Contains t k = true <-> k ∈ t.
Proof.
  intros Hk. unfold IPv4Set_Contains. rewrite To4_v4, copy_array_exact by done.
  case_decide as Hs; [|by rewrite bool_decide_eq_true].
  apply size_empty_inv in Hs. set_solver.
Qed.

Lemma missingFrom_spec n s t x : v4_keys s -> x ∈ missingFrom n s t <-> exists k, k ∈ s ∖ t /\ x = IP_String k.
Proof.
  intros Hs. unfold missingFrom. rewrite list_elem_of_In, in_map_iff. split.
  - intros (k & <- & Hk%list_elem_of_In). apply elem_of_lfilter in Hk as [Hk Hc].
    apply elem_of_set_range in Hk. exists k. split; [|done]. apply elem_of_difference. split; [done|].
    rewrite <- Contains_v4 by auto. by destruct (IPv4Set_Contains t k).
  - intros (k & [Hk Ht]%elem_of_difference & ->). exists k. split; [done|]. apply list_elem_of_In, elem_of_lfilter.
    rewrite elem_of_set_range. split; [done|]. rewrite <- Contains_v4 in Ht by auto.
    by destruct (IPv4Set_Contains t k).
Qed.

Lemma missingFrom_nil n s t : v4_keys s -> missingFrom n s t = [] <-> s ⊆ t.
Proof.
  intros Hs. split.
  - intros E k Hk. destruct (decide (k ∈ t)) as [|Ht]; [done|exfalso].
    assert (IP_String k ∈ missingFrom n s t) as Hx; [|rewrite E in Hx; by apply not_elem_of_nil in Hx].
    apply missingFrom_spec; [done|]. exists k. set_solver.
  - intros Hsub. destruct (missingFrom n s t) as [|x l] eqn:E; [done|exfalso].
    assert (x ∈ missingFrom n s t) as Hx by (rewrite E; by left).
    apply missingFrom_spec in Hx as (k & Hk & _); [|done]. set_solver.
Qed.

Lemma missingFrom_NoDup n s t : v4_keys s -> (forall k, k ∈ s -> wf_bytes k) -> NoDup (missingFrom n s t).
Proof.
  intros Hs Hw. unfold missingFrom. apply NoDup_fmap_2_strong.
  - intros a b [Ha _]%elem_of_lfilter [Hb _]%elem_of_lfilter E. apply elem_of_set_range in Ha, Hb.
    apply IP_String_v4_inj in E; auto.
  - apply NoDup_ListNoDup, List.NoDup_filter, NoDup_ListNoDup, set_range_NoDup.
Qed.
End DriftLemmas.

(** * Lemmas: system resolvers *)

Lemma scan_spec l st : (size (sc_seen st) <= 8)%nat ->
  let ds := take (8 - size (sc_seen st)) (dedup_by IP_String (sc_seen st) (omap nameserver l)) in
  sc_v4 (foldl scanLine st l) = sc_v4 st ++ List.filter is_v4 ds /\
  sc_v6 (foldl scanLine st l) = sc_v6 st ++ List.filter (fun ip => negb (is_v4 ip)) ds.
Proof.
  revert st. induction l as [|t l IH]; intros st Hs; cbn zeta; cbn [foldl omap list_omap].
  { cbn [dedup_by]. rewrite take_nil. cbn. by rewrite !app_nil_r. }
  unfold scanLine at 2 4. destruct (nameserver t) as [ip|] eqn:En; [|by apply IH].
  cbn [dedup_by]. case_decide as Hin; [by apply IH|].
  destruct (maxSystemResolvers <=? _) eqn:Em; unfold maxSystemResolvers in Em; z_bool.
  { replace (8 - size (sc_seen st))%nat with 0%nat by lia. rewrite take_0. cbn.
    destruct (IH st Hs) as [-> ->]. replace (8 - size (sc_seen st))%nat with 0%nat by lia. by rewrite !take_0. }
  assert (size ({[IP_String ip]} ∪ sc_seen st) = S (size (sc_seen st))) as Hsz
    by (rewrite size_union, size_singleton; [done|set_solver]).
  destruct (8 - size (sc_seen st))%nat as [|k] eqn:Ek; [lia|]. cbn [take List.filter].
  assert (k = (8 - size ({[IP_String ip]} ∪ sc_seen st))%nat) as -> by lia.
  assert (is_v4 ip = match To4 ip with Some _ => true | None => false end) as Hv by done.
  rewrite Hv. clear Hv. destruct (To4 ip) eqn:E4;
    (match goal with |- context [foldl scanLine ?x l] => destruct (IH x) as [-> ->]; [cbn [sc_seen]; lia|] end);
    cbn [sc_seen sc_v4 sc_v6 negb]; by rewrite <- ?app_assoc.
Qed.

(** The addresses the files list, in order. *)
Definition listed_resolvers (open : bytes -> option bytes) (paths : list bytes) : list bytes :=
  omap nameserver (concat (map (fun p => match open p with None => [] | Some c => ScanLines c end) paths)).

Definition auto_resolvers (open : bytes -> option bytes) (paths : list bytes) : list bytes :=
  take 8 (dedup_by IP_String ∅ (listed_resolvers open paths)).

Lemma SystemResolverIPs_fold (open : bytes -> option bytes) paths st :
  foldl (fun st path => match open path with None => st | Some content => foldl scanLine st (ScanLines content) end) st paths =
  foldl scanLine st (concat (map (fun p => match open p with None => [] | Some c => ScanLines c end) paths)).
Proof.
  revert st. induction paths as [|p paths IH]; intros st; [done|]. cbn [foldl map concat]. rewrite IH, foldl_app.
  by destruct (open p).
Qed.

(** * Properties *)

Section Properties.
Context `{UnicodeCase} `{R : Resolver}.

(** Every address the compile allows was returned by the resolver for a
    listed domain in one of the permitted attempts, whatever the context
    did; and a listed domain without an address is reported unresolved. *)
Theorem compile_sound domains m : let r := CompileDomainAllowlist domains m in
  NoDup (Domains r) /\
  (forall k, k ∈ AllowedIPv4 r -> length k = 4%nat /\ exists d a answer ip, d ∈ Domains r /\
     (a < attempts m)%nat /\ lookup_ip a Ip4 d = Ok answer /\ ip ∈ answer /\ To4 ip = Some k) /\
  (forall k, k ∈ AllowedIPv6 r -> length k = 16%nat /\ exists d a answer ip, d ∈ Domains r /\
     (a < attempts m)%nat /\ lookup_ip a Ip6 d = Ok answer /\ ip ∈ answer /\ To4 ip = None /\ To16 ip = Some k) /\
  (forall d, d ∈ Domains r -> d ∈ UnresolvedDomains r \/
     exists k ip, (ip ∈ dr_ips4 (compileDomain m d) /\ To4 ip = Some k /\ k ∈ AllowedIPv4 r) \/
                  (ip ∈ dr_ips6 (compileDomain m d) /\ To16 ip = Some k /\ k ∈ AllowedIPv6 r)).
Proof.
  cbv zeta. destruct (compile_spec domains m) as (E1 & E2 & E3 & E4). rewrite E1 in *.
  split_and!; [apply normalize_NoDup|..].
  - intros k (d & ip & Hd & Hip & Hk)%E2. split; [by eapply To4_length|].
    destruct (compileDomain_sound m d) as (_ & _ & H4 & _). apply H4 in Hip as (b & ? & Hb).
    unfold answers in Hb. destruct (lookup_ip b Ip4 d) as [l|] eqn:El; [|by apply not_elem_of_nil in Hb].
    apply elem_of_lfilter in Hb as [? _]. eauto 10.
  - intros k (d & ip & Hd & Hip & Hk)%E3. split; [by eapply To16_length|].
    destruct (compileDomain_sound m d) as (_ & _ & _ & H6). apply H6 in Hip as (b & ? & Hb).
    unfold answers in Hb. destruct (lookup_ip b Ip6 d) as [l|] eqn:El; [|by apply not_elem_of_nil in Hb].
    apply elem_of_lfilter in Hb as [? Hv]. unfold is_v6, is_v4 in Hv. destruct (To4 ip) eqn:E; [done|]. eauto 12.
  - intros d Hd. destruct (compileDomain_sound m d) as (_ & _ & H4 & H6).
    rewrite E4, elem_of_Sort, elem_of_lfilter.
    destruct (dr_ips4 (compileDomain m d)) as [|ip l] eqn:D4.
    + destruct (dr_ips6 (compileDomain m d)) as [|ip l] eqn:D6; [by left|right].
      destruct (H6 ip) as (b & _ & Hb); [by left|]. unfold answers in Hb.
      destruct (lookup_ip b Ip6 d); [|by apply not_elem_of_nil in Hb]. apply elem_of_lfilter in Hb as [_ Hv].
      unfold is_v6 in Hv. destruct (To16 ip) as [k|] eqn:Ek; [|by rewrite andb_false_r in Hv].
      exists k, ip. right. split_and!; [by left|done|]. apply E3. exists d, ip. rewrite D6. split_and!; [done|by left|done].
    + right. destruct (H4 ip) as (b & _ & Hb); [by left|]. unfold answers in Hb.
      destruct (lookup_ip b Ip4 d); [|by apply not_elem_of_nil in Hb]. apply elem_of_lfilter in Hb as [_ Hv].
      unfold is_v4 in Hv. destruct (To4 ip) as [k|] eqn:Ek; [|done].
      exists k, ip. left. split_and!; [by left|done|]. apply E2. exists d, ip. rewrite D4. split_and!; [done|by left|done].
Qed.

(** C34: when the context is never cancelled, the retry loops compute the
    reference: per domain and family, the addresses of the first attempt
    that answered with one, and the unresolved domains are the sorted list
    of those with neither family. *)
Theorem compile_reference domains m : (forall d i, cancelled d i = false) ->
  let r := CompileDomainAllowlist domains m in
  let v4 d := first_answer Ip4 is_v4 d (attempts m) 0 in
  let v6 d := first_answer Ip6 is_v6 d (attempts m) 0 in
  Domains r = normalizeAllowlistDomains domains /\
  (forall k, k ∈ AllowedIPv4 r <-> exists d ip, d ∈ Domains r /\ ip ∈ v4 d /\ To4 ip = Some k) /\
  (forall k, k ∈ AllowedIPv6 r <-> exists d ip, d ∈ Domains r /\ ip ∈ v6 d /\ To16 ip = Some k) /\
  UnresolvedDomains r = Sort (List.filter (fun d => negb (nonempty (v4 d) || nonempty (v6 d))) (Domains r)).
Proof.
  intros Hc. cbv zeta. destruct (compile_spec domains m) as (E1 & E2 & E3 & E4).
  assert (forall d, dr_ips4 (compileDomain m d) = first_answer Ip4 is_v4 d (attempts m) 0 /\
    dr_ips6 (compileDomain m d) = first_answer Ip6 is_v6 d (attempts m) 0) as Hr
    by (intros d; exact (compileAttempts_ref (attempts m) 0 d [] [] Hc)).
  split_and!; [done|..].
  - intros k. rewrite E2. by setoid_rewrite (fun d => proj1 (Hr d)).
  - intros k. rewrite E3. by setoid_rewrite (fun d => proj2 (Hr d)).
  - rewrite E4. f_equal. apply List.filter_ext. intros d. by destruct (Hr d) as [-> ->].
Qed.

(** [ResolveOwners] maps an address to the smallest of the listed
    domains, wildcards apart, that the resolver answered with it, and to
    nothing when there is none: the map does not depend on the order of the
    list or of the workers, and names trusted domains only. *)
Theorem resolve_owners_smallest domains m k o :
  (ResolveOwners domains m !! k = Some o <-> owns domains m o k /\ forall o', owns domains m o' k -> ble o o') /\
  (owns domains m o k -> exists a answer ip, (a < attempts m)%nat /\
     lookup_ip a Ip4 o = Ok answer /\ ip ∈ answer /\ To4 ip = Some k).
Proof.
  assert (owner_spec ∅ []) as H0 by (intros j; rewrite lookup_empty; intros ?; apply not_elem_of_nil).
  pose proof (mergeOwners_spec (map (ownerResult m) (normalizeAllowlistDomains domains)) ∅ [] H0 k) as Hs.
  cbn [app] in Hs. change (foldl mergeOwners ∅ (map _ _)) with (ResolveOwners domains m) in Hs. split.
  - destruct (ResolveOwners domains m !! k) as [o1|].
    + destruct Hs as [H1 H2]. rewrite slot_pairs_owns in H1. split.
      * intros [= <-]. split; [done|]. intros o' Ho. by apply H2, slot_pairs_owns.
      * intros [Ho Hmin]. f_equal. apply (anti_symm ble); [by apply H2, slot_pairs_owns|by apply Hmin].
    + split; [done|]. intros [Ho _]. by apply slot_pairs_owns, Hs in Ho.
  - intros (_ & _ & ip & Hip & Hk). apply ownerAttempts_sound in Hip as (b & l & ? & ? & ?).
    exists b, l, ip. split; [lia|done].
Qed.
End Properties.

Section DriftProperties.
Context `{UnicodeCase} `{!RangeOrder bytes}.

(** The drift report is the set difference of the two snapshots, printed
    and sorted, so it does not depend on map iteration order, and it is
    empty exactly when the IPv4 sets are equal. *)
Theorem diff_is_set_difference original updated :
  v4_keys (AllowedIPv4 original) -> v4_keys (AllowedIPv4 updated) ->
  let dr := Diff original updated in
  (forall s, s ∈ AddedIPs dr <-> exists k, k ∈ AllowedIPv4 updated ∖ AllowedIPv4 original /\ s = IP_String k) /\
  (forall s, s ∈ RemovedIPs dr <-> exists k, k ∈ AllowedIPv4 original ∖ AllowedIPv4 updated /\ s = IP_String k) /\
  StronglySorted ble (AddedIPs dr) /\ StronglySorted ble (RemovedIPs dr) /\
  ((AddedIPs dr = [] /\ RemovedIPs dr = []) <-> AllowedIPv4 original = AllowedIPv4 updated).
Proof.
  intros Ho Hu. cbn. split_and!.
  - intros s. rewrite elem_of_Sort. by apply missingFrom_spec.
  - intros s. rewrite elem_of_Sort. by apply missingFrom_spec.
  - apply Sort_sorted.
  - apply Sort_sorted.
  - rewrite !Sort_nil, !missingFrom_nil by done. set_solver.
Qed.

Lemma compile_v4_keys `{R : Resolver} domains m : v4_keys (AllowedIPv4 (CompileDomainAllowlist domains m)).
Proof. destruct (compile_spec domains m) as (_ & E2 & _). intros k (d & ip & _ & _ & Hk)%E2. by eapply To4_length. Qed.

(** The event a tick leads to. *)
Definition tick_event (original : CompileResult) (m : Z) (t : tick) : driftEvent :=
  let updated := ReResolve (H0 := t_resolver t) original m in
  if decide (AllowedIPv4 original = AllowedIPv4 updated) then OnClean else OnDrift (Diff original updated).

Lemma driftLoop_events original m ticks : v4_keys (AllowedIPv4 original) ->
  exists n, driftLoop original m ticks = map (tick_event original m) (take n ticks) /\
    (Forall (fun t => t_done_before t = false /\ t_done_after t = false) ticks -> n = length ticks).
Proof.
  intros Ho. induction ticks as [|t ticks (n & IH & IHn)]; cbn [driftLoop]; [by exists 0%nat|].
  destruct (t_done_before t) eqn:Eb.
  { exists 0%nat. split; [done|]. intros [[? _] _]%Forall_cons. congruence. }
  destruct (t_done_after t) eqn:Ea.
  { exists 0%nat. split; [done|]. intros [[_ ?] _]%Forall_cons. congruence. }
  exists (S n). cbn [take map length]. split; [|intros [_ Ht]%Forall_cons; f_equal; auto].
  rewrite IH. f_equal. unfold tick_event.
  set (u := ReResolve original m). pose proof (compile_v4_keys (R := t_resolver t) (Domains original) m) as Hu.
  change (v4_keys (AllowedIPv4 u)) in Hu.
  assert ((AddedIPs (Diff original u) = [] /\ RemovedIPs (Diff original u) = []) <-> AllowedIPv4 original = AllowedIPv4 u) as Hd
    by (cbn; rewrite !Sort_nil, !missingFrom_nil by done; set_solver).
  case_decide as Heq; [by destruct Hd as [_ [-> ->]]|].
  destruct (AddedIPs (Diff original u)) eqn:E1; [|done]. destruct (RemovedIPs (Diff original u)) eqn:E2; [|done].
  by exfalso; apply Heq, Hd.
Qed.

(** The drift watch raises no false alarm: with an ASCII allowlist, as
    long as the resolver keeps answering as it did at startup, every tick is
    clean and no tick is lost while the context lives. *)
Theorem drift_watch_quiet (R : Resolver) domains m ticks :
  Forall (fun d => is_ascii d = true) domains -> normalizeAllowlistDomains domains <> [] -> 1 <= m ->
  Forall (fun t => t_resolver t = R /\ t_done_before t = false /\ t_done_after t = false) ticks ->
  runDNSDriftWatch (CompileDomainAllowlist domains m) m ticks = replicate (length ticks) OnClean.
Proof.
  intros Ha Hne Hm Ht. unfold runDNSDriftWatch.
  pose proof (compile_spec domains m) as (E1 & _). rewrite E1, decide_False by done.
  replace (m <? 1) with false by (symmetry; z_bool; lia).
  destruct (driftLoop_events (CompileDomainAllowlist domains m) m ticks (compile_v4_keys _ _)) as (n & -> & Hn).
  rewrite Hn by (eapply Forall_impl; [exact Ht|]; cbn; tauto). rewrite firstn_all. clear Hn.
  induction Ht as [|t ticks (Hr & _) _ IH]; [done|]. cbn [map length replicate]. f_equal; [|done].
  unfold tick_event, ReResolve. rewrite Hr. rewrite decide_True; [done|].
  rewrite E1. unfold CompileDomainAllowlist. by rewrite normalize_idem.
Qed.
End DriftProperties.

(** The auto-allowed resolvers are the first eight distinct non-loopback
    nameservers of the files, split by family in first-seen order. *)
Theorem system_resolvers_exact open paths :
  let all := auto_resolvers open paths in
  SystemResolverIPs open paths = (List.filter is_v4 all, List.filter (fun ip => negb (is_v4 ip)) all) /\
  len all <= maxSystemResolvers /\ NoDup (IP_String <$> all) /\
  (forall ip, ip ∈ all -> IsLoopback ip = false /\ ip ∈ listed_resolvers open paths).
Proof.
  cbv zeta. unfold auto_resolvers. split_and!.
  - unfold SystemResolverIPs. cbv zeta. rewrite SystemResolverIPs_fold.
    destruct (scan_spec (concat (map (fun p => match open p with None => [] | Some c => ScanLines c end) paths)) (mkScan ∅ [] []))
      as [-> ->]; cbn [sc_seen sc_v4 sc_v6]; rewrite size_empty; [lia|done].
  - rewrite len_take. unfold maxSystemResolvers. lia.
  - rewrite fmap_take. eapply sublist_NoDup; [|apply sublist_take]. apply dedup_by_NoDup.
  - intros ip Hip. assert (ip ∈ listed_resolvers open paths) as Hl.
    { eapply elem_of_dedup_by, subseteq_take, Hip. }
    split; [|done]. unfold listed_resolvers in Hl. apply list_elem_of_omap in Hl as (t & _ & Hn).
    unfold nameserver in Hn. repeat case_match; by simplify_eq.
Qed.

(** * Examples and witnesses *)

Module Witness.
#[local] Existing Instance ascii_case.
#[local] Existing Instance plain_order.

(** A resolver whose first attempt fails and whose second answers. *)
Definition resolver : Resolver := {|
  lookup_ip a net d :=
    match a, net with
    | O, _ => Err CtxErr
    | _, Ip4 => if decide (d = str "a.io") then Ok [[1; 2; 3; 4]] else Ok []
    | _, Ip6 => Err LookupErr
    end;
  cancelled _ _ := false |}.

Definition domains : list bytes := [str " A.io"; str "b.io"; str "a.io"; str "*.c.io"].
Definition compiled : CompileResult := CompileDomainAllowlist (H0 := resolver) domains 2.

Example compiled_value : Domains compiled = [str "a.io"; str "b.io"; str "*.c.io"] /\
  elements (AllowedIPv4 compiled) = [[1; 2; 3; 4]] /\ UnresolvedDomains compiled = [str "*.c.io"; str "b.io"].
Proof. by vm_compute. Qed.

Lemma compile_reference_witness : UnresolvedDomains compiled = [str "*.c.io"; str "b.io"].
Proof.
  pose proof (compile_reference (R := resolver) domains 2 (fun _ _ => eq_refl)) as (_ & _ & _ & E).
  etrans; [exact E|]. by vm_compute.
Defined.

Lemma resolve_owners_smallest_witness :
  ResolveOwners (H0 := resolver) domains 2 !! [1; 2; 3; 4] = Some (str "a.io") /\
  (owns (R := resolver) domains 2 (str "a.io") [1; 2; 3; 4] /\
   forall o', owns (R := resolver) domains 2 o' [1; 2; 3; 4] -> ble (str "a.io") o').
Proof.
  assert (ResolveOwners (H0 := resolver) domains 2 !! [1; 2; 3; 4] = Some (str "a.io")) as E by by vm_compute.
  split; [exact E|].
  exact (proj1 (proj1 (resolve_owners_smallest (R := resolver) domains 2 [1; 2; 3; 4] (str "a.io"))) E).
Defined.

Definition moved : CompileResult := mkCompileResult [str "a.io"] {[ [1; 2; 3; 5] ]} ∅ [] [].

Lemma diff_is_set_difference_witness : str "1.2.3.5" ∈ AddedIPs (Diff compiled moved).
Proof.
  refine (proj2 (proj1 (diff_is_set_difference compiled moved _ _) (str "1.2.3.5")) _).
  - apply (compile_v4_keys (R := resolver)).
  - intros k Hk. unfold moved, AllowedIPv4 in Hk. apply elem_of_singleton in Hk. by subst.
  - exists [1; 2; 3; 5]. split; [|done]. by apply (bool_decide_unpack _); vm_compute.
Defined.

Lemma drift_watch_quiet_witness :
  runDNSDriftWatch compiled 2 [mkTick false resolver false; mkTick false resolver false] = [OnClean; OnClean].
Proof.
  apply (drift_watch_quiet resolver domains 2 [mkTick false resolver false; mkTick false resolver false]);
    [by repeat constructor|by vm_compute|lia|by repeat constructor].
Defined.

Definition conf (p : bytes) : option bytes :=
  if decide (p = str "/etc/resolv.conf")
  then Some (str "nameserver 127.0.0.53" ++ [10] ++ str "nameserver 168.63.129.16" ++ [13; 10] ++ str "nameserver fd00::1")
  else None.

Example conf_resolvers : SystemResolverIPs conf DefaultResolvConfPaths =
  ([[0; 0; 0; 0; 0; 0; 0; 0; 0; 0; 255; 255; 168; 63; 129; 16]], [[253; 0; 0; 0; 0; 0; 0; 0; 0; 0; 0; 0; 0; 0; 0; 1]]).
Proof. by vm_compute. Qed.
End Witness.
