(* ===== verification/DnsWire.v ===== *)
(** internal/agent/dns_wire.go: the parser of sniffed DNS responses.

    The parser runs on bytes an attacker controls, so every index and slice
    expression is kept as a [go] computation and shown not to panic.  The
    pointer depth (33 levels) and the label steps (128 per level) are the
    code's own bounds and serve as the recursion measures. *)
From S2P Require Import Prelude GoStrings.

Open Scope Z_scope.

Definition dnsNameMaxPointerDepth : nat := 32.
Definition dnsNameMaxLabelSteps : nat := 128.
Definition dnsMinRRSize : Z := 4.

Record ipv4DNSAnswer := mkAnswer { ans_name : bytes; ans_ttl : Z }.

Definition joinDNSLabels (labels : list bytes) : bytes := Strings_Join labels (str ".").

(** The label loop of [readDNSNameSafe]; [follow] reads the name at a
    compression pointer one level deeper. *)
Fixpoint readLabels (follow : Z -> gset Z -> go (option (bytes * Z))) (steps : nat)
    (packet : bytes) (offset : Z) (visited : gset Z) (labels : list bytes) : go (option (bytes * Z)) :=
  match steps with
  | O => Ret None
  | S steps' =>
    if len packet <=? offset then Ret None
    else
      b ← idx packet offset;
      let offset := offset + 1 in
      if b =? 0 then Ret (Some (joinDNSLabels labels, offset))
      else if Z.land b 0xC0 =? 0xC0 then
        if len packet <=? offset then Ret None
        else
          lo ← idx packet offset;
          let ptr := Z.lor (Z.shiftl (Z.land b 0x3F) 8) lo in
          let offset := offset + 1 in
          if len packet <=? ptr then Ret None
          else if decide (ptr ∈ visited) then Ret None
          else
            r ← follow ptr ({[ptr]} ∪ visited);
            match r with
            | None => Ret None
            | Some (suffix, _) =>
              match labels with
              | [] => Ret (Some (suffix, offset))
              | _ => Ret (Some (joinDNSLabels labels ++ str "." ++ suffix, offset))
              end
            end
      else if (63 <? b) || (len packet <? offset + b) then Ret None
      else
        label ← slice packet offset (offset + b);
        readLabels follow steps' packet (offset + b) visited (labels ++ [label])
  end.

(** [readDNSNameSafe]; [levels] is [dnsNameMaxPointerDepth + 1 - depth], so no
    level is left exactly when [depth > dnsNameMaxPointerDepth]. *)
Fixpoint readDNSNameSafe (levels : nat) (packet : bytes) (offset : Z) (visited : gset Z) : go (option (bytes * Z)) :=
  match levels with
  | O => Ret None
  | S levels' =>
    readLabels (readDNSNameSafe levels' packet) dnsNameMaxLabelSteps packet offset visited []
  end.

Definition readDNSName (packet : bytes) (offset : Z) : go (option (bytes * Z)) :=
  readDNSNameSafe (S dnsNameMaxPointerDepth) packet offset ∅.

(** The question loop: the position after [n] questions, [None] for the early
    return. *)
Fixpoint skipQuestions (n : nat) (packet : bytes) (pos : Z) : go (option Z) :=
  match n with
  | O => Ret (Some pos)
  | S n' =>
    r ← readDNSName packet pos;
    match r with
    | None => Ret None
    | Some (_, next) =>
      let pos := next + 4 in
      if len packet <? pos then Ret None else skipQuestions n' packet pos
    end
  end.

(** Keep the shorter owner name of an address. *)
Definition addAnswer (out : gmap bytes ipv4DNSAnswer) (ip : bytes) (a : ipv4DNSAnswer) : gmap bytes ipv4DNSAnswer :=
  match out !! ip with
  | Some prev => if len (ans_name a) <? len (ans_name prev) then <[ip := a]> out else out
  | None => <[ip := a]> out
  end.

(** The answer loop. *)
Fixpoint readAnswers (n : nat) (packet : bytes) (pos : Z) (out : gmap bytes ipv4DNSAnswer) : go (gmap bytes ipv4DNSAnswer) :=
  match n with
  | O => Ret out
  | S n' =>
    r ← readDNSName packet pos;
    match r with
    | None => Ret out
    | Some (name, pos) =>
      if len packet <? pos + 10 then Ret out
      else
        typ ← (slice packet pos (pos + 2) ≫= BE_Uint16);
        ttl ← (slice packet (pos + 4) (pos + 8) ≫= BE_Uint32);
        rdlength ← (slice packet (pos + 8) (pos + 10) ≫= BE_Uint16);
        let pos := pos + 10 in
        if len packet <? pos + rdlength then Ret out
        else
          out' ← (if (typ =? 1) && (rdlength =? 4) then
                    rd ← slice packet pos (pos + 4);
                    Ret (addAnswer out (copy_array 4 rd) (mkAnswer name ttl))
                  else Ret out);
          readAnswers n' packet (pos + rdlength) out'
    end
  end.

Definition parseDNSResponseIPv4 (packet : bytes) : go (gmap bytes ipv4DNSAnswer) :=
  if len packet <? 12 then Ret ∅
  else
    flags ← idx packet 2;
    if Z.land flags 0x80 =? 0 then Ret ∅
    else
      qdcount ← (slice packet 4 6 ≫= BE_Uint16);
      ancount ← (slice packet 6 8 ≫= BE_Uint16);
      if ancount =? 0 then Ret ∅
      else
        let maxRR := len packet / dnsMinRRSize in
        if (maxRR <? qdcount) || (maxRR <? ancount) then Ret ∅
        else
          q ← skipQuestions (Z.to_nat qdcount) packet 12;
          match q with
          | None => Ret ∅
          | Some pos => readAnswers (Z.to_nat ancount) packet pos ∅
          end.

(** * The parser never panics *)

(** The result of a name read at [offset]: the next position is past it and
    inside the packet. *)
Definition name_post (packet : bytes) (offset : Z) (r : option (bytes * Z)) : Prop :=
  forall name next, r = Some (name, next) -> offset < next <= len packet.

Lemma ptr_nonneg b lo : is_byte lo -> 0 <= Z.lor (Z.shiftl (Z.land b 0x3F) 8) lo.
Proof.
  intros [? ?]. apply Z.lor_nonneg. split; [|done]. apply Z.shiftl_nonneg, Z.land_nonneg. lia.
Qed.

Lemma readLabels_safe follow packet steps offset visited labels :
  wf_bytes packet -> 0 <= offset ->
  (forall ptr v, 0 <= ptr -> returns (follow ptr v) (fun _ => True)) ->
  returns (readLabels follow steps packet offset visited labels) (name_post packet offset).
Proof.
  intros Hw Ho Hf. revert offset labels Ho.
  induction steps as [|steps IH]; intros offset labels Ho; cbn [readLabels]; [done|].
  destruct (len packet <=? offset) eqn:E0; [done|]. z_bool. go_step.
  destruct (b =? 0) eqn:E1.
  { go_step. intros ? ? [= <- <-]. lia. }
  destruct (Z.land b 0xC0 =? 0xC0) eqn:E2.
  - destruct (len packet <=? offset + 1) eqn:E3; [done|]. z_bool. go_step.
    destruct (len packet <=? _) eqn:E4; [done|]. case_decide; [done|].
    apply returns_bind. eapply returns_mono; [apply Hf; by apply ptr_nonneg|].
    intros [[suffix ?]|] _; [|done].
    destruct labels; go_step; intros ? ? [= <- <-]; lia.
  - destruct ((63 <? b) || _) eqn:E3; [done|]. z_bool. unfold is_byte in *. go_step.
    eapply returns_mono; [apply IH; lia|]. intros r Hr name next Heq. apply Hr in Heq. lia.
Qed.

Lemma readDNSNameSafe_safe levels packet offset visited : wf_bytes packet -> 0 <= offset ->
  returns (readDNSNameSafe levels packet offset visited) (name_post packet offset).
Proof.
  intros Hw. revert offset visited. induction levels as [|levels IH]; intros offset visited Ho; [done|].
  cbn [readDNSNameSafe]. apply readLabels_safe; [done..|].
  intros ptr v Hp. eapply returns_mono; [by apply IH|done].
Qed.

Lemma skipQuestions_safe n packet pos : wf_bytes packet -> 0 <= pos ->
  returns (skipQuestions n packet pos) (fun r => forall p, r = Some p -> 0 <= p).
Proof.
  intros Hw. revert pos. induction n as [|n IH]; intros pos Hp; cbn [skipQuestions]; [by intros ? [= <-]|].
  apply returns_bind. eapply returns_mono; [by apply readDNSNameSafe_safe|].
  intros [[name next]|] Hpost; [|done]. specialize (Hpost _ _ eq_refl).
  destruct (len packet <? next + 4); [done|]. apply IH. lia.
Qed.

(** What the parser records: 4-byte addresses with 32-bit TTLs. *)
Definition answers_wf (out : gmap bytes ipv4DNSAnswer) : Prop :=
  forall ip a, out !! ip = Some a -> length ip = 4%nat /\ 0 <= ans_ttl a < 2 ^ 32.

Lemma addAnswer_wf out ip a : answers_wf out -> length ip = 4%nat -> 0 <= ans_ttl a < 2 ^ 32 ->
  answers_wf (addAnswer out ip a).
Proof.
  intros Hout Hip Ha k b. unfold addAnswer.
  repeat case_match; rewrite ?lookup_insert; try case_decide; intros; simplify_eq; eauto.
Qed.

Lemma readAnswers_safe n packet pos out : wf_bytes packet -> 0 <= pos -> answers_wf out ->
  returns (readAnswers n packet pos out) answers_wf.
Proof.
  intros Hw. revert pos out. induction n as [|n IH]; intros pos out Hp Hout; cbn [readAnswers]; [done|].
  apply returns_bind. eapply returns_mono; [by apply readDNSNameSafe_safe|].
  intros [[name next]|] Hpost; [|done]. specialize (Hpost _ _ eq_refl).
  destruct (len packet <? next + 10) eqn:E0; [done|]. z_bool.
  go_step. unfold BE_Uint16, BE_Uint32. go_step. go_step. go_step. go_step. go_step.
  destruct (len packet <? _) eqn:E1; [done|]. z_bool.
  apply returns_bind. destruct ((v =? 1) && (v1 =? 4)) eqn:E2; [|go_step; apply IH; [lia|done]].
  z_bool. go_step. go_step. apply IH; [lia|].
  apply addAnswer_wf; [done| |cbn; change (2 ^ 32) with (256 ^ Z.of_nat 4); lia].
  rewrite copy_array_exact; unfold len in *; lia.
Qed.

(** * Round trip: the RFC 1035 encoding of names and responses *)

Definition label_ok (l : bytes) : Prop := 1 <= len l <= 63.

Definition enc_label (l : bytes) : bytes := len l :: l.
Definition enc_name (labels : list bytes) : bytes := concat (map enc_label labels) ++ [0].

(** The owner of a record: all its labels, or some labels and a pointer into the
    name of the question, past the first [k] of its labels. *)
Inductive owner := Full (labels : list bytes) | Suffixed (labels : list bytes) (k : nat).

(** A resource record of any type and class. *)
Record rr := mkRR { rr_owner : owner; rr_type : Z; rr_class : Z; rr_ttl : Z; rr_data : bytes }.

Section Response.
(** The name of the question. *)
Context (q : list bytes).

Definition owner_labels (o : owner) : list bytes :=
  match o with Full ls => ls | Suffixed ls k => ls ++ drop k q end.

(** The labels without the root, and the offset of what is left of the
    question's name. *)
Definition enc_labels (ls : list bytes) : bytes := concat (map enc_label ls).
Definition suffix_at (k : nat) : Z := 12 + len (enc_labels (take k q)).

Definition enc_owner (o : owner) : bytes :=
  match o with
  | Full ls => enc_name ls
  | Suffixed ls k => enc_labels ls ++ be_bytes 2 (0xC000 + suffix_at k)
  end.

Definition enc_rr (r : rr) : bytes :=
  enc_owner (rr_owner r) ++ be_bytes 2 (rr_type r) ++ be_bytes 2 (rr_class r) ++ be_bytes 4 (rr_ttl r) ++
  be_bytes 2 (len (rr_data r)) ++ rr_data r.

(** A response to the question, of the answers [rs]; [flags] are the two bytes
    with the response bit, and [more] the authority and additional records that
    [counts] announces. *)
Definition enc_response (id1 id2 flag1 flag2 : Z) (counts : Z * Z) (qtype qclass : Z) (rs : list rr) (more : bytes) : bytes :=
  [id1; id2; flag1; flag2] ++ be_bytes 2 1 ++ be_bytes 2 (len rs) ++ be_bytes 2 counts.1 ++ be_bytes 2 counts.2 ++
  enc_name q ++ be_bytes 2 qtype ++ be_bytes 2 qclass ++ concat (map enc_rr rs) ++ more.

(** Labels that fit in a name, and an owner whose pointer is to labels. *)
Definition name_ok (ls : list bytes) : Prop := Forall label_ok ls /\ (length ls < 128)%nat.

Definition owner_ok (o : owner) : Prop :=
  match o with
  | Full ls => name_ok ls
  | Suffixed ls k => name_ok ls /\ (k <= length q)%nat /\ (ls = [] \/ (k < length q)%nat)
  end.

Definition rr_ok (r : rr) : Prop :=
  owner_ok (rr_owner r) /\ 0 <= rr_type r < 2 ^ 16 /\ 0 <= rr_class r < 2 ^ 16 /\ 0 <= rr_ttl r < 2 ^ 32 /\ len (rr_data r) < 2 ^ 16.

(** What the records say of an address: the records of type A with that
    address, and the one among them that is kept, which is the first of those
    with the shortest name. *)
Definition name_of (r : rr) : bytes := joinDNSLabels (owner_labels (rr_owner r)).
Definition gives (r : rr) (ip : bytes) : Prop := rr_type r = 1 /\ len (rr_data r) = 4 /\ rr_data r = ip.

Definition kept (rs : list rr) (ip : bytes) (o : option ipv4DNSAnswer) : Prop :=
  match o with
  | None => Forall (fun r => ~ gives r ip) rs
  | Some a => exists before r after, rs = before ++ r :: after /\ gives r ip /\ a = mkAnswer (name_of r) (rr_ttl r) /\
      Forall (fun r' => gives r' ip -> len (name_of r) < len (name_of r')) before /\
      Forall (fun r' => gives r' ip -> len (name_of r) <= len (name_of r')) after
  end.
End Response.

Lemma label_byte b : 1 <= b <= 63 -> (b =? 0) = false /\ (Z.land b 0xC0 =? 0xC0) = false /\ (63 <? b) = false.
Proof.
  intros H. z_bool. split_and!; [lia| |lia].
  assert (Z.land b 0xC0 = 0); [|lia].
  apply Z.bits_inj'. intros n Hn. rewrite Z.land_spec, Z.bits_0.
  destruct (decide (n < 6)) as [Hs|Hs].
  - replace (Z.testbit 0xC0 n) with false; [apply andb_false_r|].
    assert (n = 0 \/ n = 1 \/ n = 2 \/ n = 3 \/ n = 4 \/ n = 5) as Hc by lia.
    by repeat destruct Hc as [-> | Hc]; [..|subst].
  - rewrite (Z.bits_above_log2 b); [done|lia|].
    assert (Z.log2 b < 6); [apply Z.log2_lt_pow2; lia|lia].
Qed.

(** The side conditions of a read at a known place of a packet. *)
Ltac at_split Hp := first [done | rewrite Hp; rewrite <- ?app_assoc; done | len_lia].

(** The label loop passes over labels. *)
Lemma readLabels_labels follow packet pre ls post steps visited acc :
  packet = pre ++ enc_labels ls ++ post -> Forall label_ok ls ->
  readLabels follow (length ls + steps) packet (len pre) visited acc =
    readLabels follow steps packet (len (pre ++ enc_labels ls)) visited (acc ++ ls).
Proof.
  intros Hp Hok. revert pre acc Hp. induction Hok as [|l ls Hl Hok IH]; intros pre acc Hp; [by rewrite !app_nil_r|].
  cbn [length Nat.add readLabels]. assert (packet = pre ++ len l :: l ++ enc_labels ls ++ post) as E
    by (rewrite Hp; unfold enc_labels, enc_label; cbn [map concat app]; by rewrite <- !app_assoc).
  replace (len packet <=? len pre) with false by (symmetry; z_bool; rewrite E; len_lia).
  replace (idx packet (len pre)) with (Ret (len l)) by (rewrite E; symmetry; by apply idx_app). cbn [mbind go_bind].
  destruct (label_byte (len l) Hl) as (-> & -> & ->). cbn [orb].
  replace (len packet <? len pre + 1 + len l) with false by (symmetry; z_bool; rewrite E; len_lia).
  rewrite (slice_at packet (pre ++ [len l]) l (enc_labels ls ++ post)) by (try len_lia; rewrite E; by rewrite <- !app_assoc).
  cbn [mbind go_bind]. replace (len pre + 1 + len l) with (len (pre ++ enc_label l)) by (unfold enc_label; len_lia).
  rewrite IH by (rewrite E; unfold enc_label; cbn [app]; by rewrite <- ?app_assoc, <- ?app_comm_cons).
  rewrite <- !app_assoc. unfold enc_labels. by cbn [map concat].
Qed.

Lemma enc_labels_len ls : Forall label_ok ls -> 0 <= len (enc_labels ls) <= 64 * Z.of_nat (length ls).
Proof.
  unfold enc_labels, enc_label, label_ok. induction 1 as [|l ls Hl _ IH]; [done|]. cbn [map concat length].
  rewrite len_app, len_cons. lia.
Qed.

Lemma readLabels_enc follow packet pre ls post steps visited :
  packet = pre ++ enc_name ls ++ post -> Forall label_ok ls -> (length ls < steps)%nat ->
  readLabels follow steps packet (len pre) visited [] = Ret (Some (joinDNSLabels ls, len pre + len (enc_name ls))).
Proof.
  intros Hp Hok Hs. replace steps with (length ls + S (steps - length ls - 1))%nat by lia.
  change (enc_name ls) with (enc_labels ls ++ [0]) in *. rewrite <- app_assoc in Hp.
  rewrite (readLabels_labels _ packet pre ls ([0] ++ post)) by done. cbn [readLabels app].
  assert (packet = (pre ++ enc_labels ls) ++ 0 :: post) as E by (rewrite Hp; by rewrite <- app_assoc).
  replace (len packet <=? len (pre ++ enc_labels ls)) with false by (symmetry; z_bool; rewrite E; len_lia).
  replace (idx packet (len (pre ++ enc_labels ls))) with (Ret 0) by (rewrite E; symmetry; by apply idx_app). cbn [mbind go_bind].
  change (0 =? 0) with true. cbv iota. do 3 f_equal. len_lia.
Qed.

Lemma readDNSName_enc packet pre ls post : packet = pre ++ enc_name ls ++ post -> name_ok ls ->
  readDNSName packet (len pre) = Ret (Some (joinDNSLabels ls, len pre + len (enc_name ls))).
Proof. intros Hp [Hok Hn]. unfold readDNSName, readDNSNameSafe. by erewrite readLabels_enc. Qed.

(** The two bytes of a pointer. *)
Lemma pointer_bytes p : 0 <= p < 2 ^ 14 -> exists hi lo, be_bytes 2 (0xC000 + p) = [hi; lo] /\
  (hi =? 0) = false /\ (Z.land hi 0xC0 =? 0xC0) = true /\ Z.lor (Z.shiftl (Z.land hi 0x3F) 8) lo = p.
Proof.
  intros Hp. pose proof (Z.div_mod p 256 ltac:(lia)) as Hdm. pose proof (Z.mod_pos_bound p 256 ltac:(lia)) as Hm.
  assert (0 <= p / 256 < 64) as Hq by (split; [apply Z.div_pos; lia|apply Z.div_lt_upper_bound; lia]).
  exists (192 + p / 256), (p mod 256). split.
  - unfold be_bytes. cbn [le_bytes rev app]. replace (49152 + p) with (p + 192 * 256) by lia. rewrite Z.div_add, Z.mod_add by lia.
    rewrite (Z.mod_small (p / 256 + 192)) by lia. by rewrite (Z.add_comm 192).
  - assert (forallb (fun n => let h := Z.of_nat n in negb (192 + h =? 0) && (Z.land (192 + h) 0xC0 =? 0xC0) && (Z.land (192 + h) 0x3F =? h)) (seq 0 64) = true) as Hall
      by (vm_compute; reflexivity).
    rewrite forallb_forall in Hall. specialize (Hall (Z.to_nat (p / 256))). rewrite in_seq, Z2Nat.id in Hall by lia.
    specialize (Hall ltac:(lia)). apply andb_true_iff in Hall as [Hall H3]. apply andb_true_iff in Hall as [H1 H2].
    apply negb_true_iff in H1. apply Z.eqb_eq in H3. split_and!; [done..|]. rewrite H3, lor_shiftl by lia. change (2 ^ 8) with 256. lia.
Qed.

Lemma joinDNSLabels_app a b : a <> [] -> b <> [] -> joinDNSLabels (a ++ b) = joinDNSLabels a ++ str "." ++ joinDNSLabels b.
Proof.
  intros Ha Hb. unfold joinDNSLabels. induction a as [|x a IH]; [done|]. destruct a as [|y a]; [by destruct b|].
  cbn [app Strings_Join] in *. rewrite IH by done. by rewrite <- !app_assoc.
Qed.

Section Round.
Context (q : list bytes) (Hq : name_ok q) (packet head tail : bytes).
(** The packet has the question's name after its header. *)
Hypothesis Hpacket : packet = head ++ enc_name q ++ tail.
Hypothesis Hhead : len head = 12.

Lemma enc_name_split k : packet = (head ++ enc_labels (take k q)) ++ enc_name (drop k q) ++ tail.
Proof.
  rewrite Hpacket. unfold enc_name, enc_labels. rewrite <- (take_drop k q) at 1. rewrite map_app, concat_app. by rewrite <- !app_assoc.
Qed.

Lemma suffix_at_bound k : 12 <= suffix_at q k < 2 ^ 14 /\ suffix_at q k < len packet.
Proof.
  destruct Hq as [Hok Hn]. pose proof (enc_labels_len (take k q) (Forall_take _ _ _ Hok)) as Hl. rewrite length_take in Hl.
  assert (len packet = suffix_at q k + len (enc_name (drop k q)) + len tail) as E.
  { rewrite (enc_name_split k) at 1. rewrite !len_app. unfold suffix_at. lia. }
  unfold enc_name in E. rewrite len_app in E. pose proof (len_nonneg (concat (map enc_label (drop k q)))). pose proof (len_nonneg tail).
  unfold suffix_at in *. change (2 ^ 14) with 16384. change (len [0]) with 1 in E. lia.
Qed.

Lemma readDNSName_owner pre o post : packet = pre ++ enc_owner q o ++ post -> owner_ok q o ->
  readDNSName packet (len pre) = Ret (Some (joinDNSLabels (owner_labels q o), len pre + len (enc_owner q o))).
Proof.
  intros Hp Ho. destruct o as [ls|ls k]; [by eapply readDNSName_enc|]. cbn [enc_owner owner_labels owner_ok] in *. destruct Ho as ([Hls Hn] & Hk & Hsuf).
  destruct (suffix_at_bound k) as [Hb Hin]. destruct (pointer_bytes (suffix_at q k) ltac:(lia)) as (hi & lo & Eb & E0 & E1 & E2). rewrite Eb in *.
  unfold readDNSName, readDNSNameSafe. fold readDNSNameSafe. unfold dnsNameMaxLabelSteps.
  replace 128%nat with (length ls + S (127 - length ls))%nat by lia. rewrite <- app_assoc in Hp.
  rewrite (readLabels_labels _ packet pre ls ([hi; lo] ++ post)) by done. cbn [readLabels app].
  set (at_ := len (pre ++ enc_labels ls)). assert (packet = (pre ++ enc_labels ls) ++ hi :: lo :: post) as E by (rewrite Hp; by rewrite <- app_assoc).
  assert (at_ + 2 <= len packet) as Hat by (unfold at_; rewrite E at 1; len_lia).
  replace (len packet <=? at_) with false by (symmetry; z_bool; lia).
  replace (idx packet at_) with (Ret hi) by (rewrite E; symmetry; by apply idx_app). cbn [mbind go_bind]. rewrite E0, E1.
  replace (len packet <=? at_ + 1) with false by (symmetry; z_bool; lia).
  replace (idx packet (at_ + 1)) with (Ret lo).
  2:{ rewrite E. symmetry. replace ((pre ++ enc_labels ls) ++ hi :: lo :: post) with (((pre ++ enc_labels ls) ++ [hi]) ++ lo :: post) by by rewrite <- app_assoc.
      apply idx_app. unfold at_. len_lia. }
  cbn [mbind go_bind]. rewrite E2. replace (len packet <=? suffix_at q k) with false by (symmetry; z_bool; lia). rewrite decide_False by set_solver.
  replace (suffix_at q k) with (len (head ++ enc_labels (take k q))) at 1 by (unfold suffix_at; rewrite len_app; lia).
  unfold dnsNameMaxPointerDepth. cbn [readDNSNameSafe]. unfold dnsNameMaxLabelSteps. destruct Hq as [Hok Hqn].
  rewrite (readLabels_enc _ packet (head ++ enc_labels (take k q)) (drop k q) tail); [|apply enc_name_split|by apply Forall_drop|rewrite length_drop; lia].
  cbn [mbind go_bind]. unfold at_. destruct ls as [|l ls]; cbn [app].
  - do 3 f_equal. unfold enc_labels. cbn. len_lia.
  - rewrite ?app_comm_cons, (joinDNSLabels_app (l :: ls)); [|done|]. 2:{ intros En. apply (f_equal length) in En. rewrite length_drop in En. cbn in En. destruct Hsuf; [done|lia]. }
    do 3 f_equal. len_lia.
Qed.

(** One step of the answer loop, on an encoded record. *)
Lemma readAnswers_rr pre r post n out : packet = pre ++ enc_rr q r ++ post -> rr_ok q r ->
  readAnswers (S n) packet (len pre) out =
    readAnswers n packet (len (pre ++ enc_rr q r))
      (if (rr_type r =? 1) && (len (rr_data r) =? 4) then addAnswer out (rr_data r) (mkAnswer (name_of q r) (rr_ttl r)) else out).
Proof.
  intros Hp (Ho & Ht & Hc & Httl & Hd). cbn [readAnswers]. unfold enc_rr in *. set (hd := enc_owner q (rr_owner r)) in *.
  set (b1 := be_bytes 2 (rr_type r)) in *. set (b2 := be_bytes 2 (rr_class r)) in *. set (b3 := be_bytes 4 (rr_ttl r)) in *. set (b4 := be_bytes 2 (len (rr_data r))) in *.
  assert (len b1 = 2 /\ len b2 = 2 /\ len b3 = 4 /\ len b4 = 2) as (L1 & L2 & L3 & L4) by (unfold b1, b2, b3, b4; split_and!; len_lia).
  rewrite <- !app_assoc in Hp. rewrite (readDNSName_owner pre (rr_owner r) _ Hp Ho). cbn [mbind go_bind]. fold hd.
  replace (len packet <? len pre + len hd + 10) with false by (symmetry; z_bool; rewrite Hp; len_lia).
  set (at_ := len pre + len hd).
  rewrite (slice_at packet (pre ++ hd) b1 (b2 ++ b3 ++ b4 ++ rr_data r ++ post) at_ (at_ + 2)) by at_split Hp. cbn [mbind go_bind].
  unfold BE_Uint16, BE_Uint32. unfold b1 at 1. rewrite get_be_bytes by done. cbn [mbind go_bind].
  rewrite (slice_at packet (pre ++ hd ++ b1 ++ b2) b3 (b4 ++ rr_data r ++ post) (at_ + 4) (at_ + 8)) by at_split Hp. cbn [mbind go_bind].
  unfold b3 at 1. rewrite get_be_bytes by done. cbn [mbind go_bind].
  rewrite (slice_at packet (pre ++ hd ++ b1 ++ b2 ++ b3) b4 (rr_data r ++ post) (at_ + 8) (at_ + 10)) by at_split Hp. cbn [mbind go_bind].
  unfold b4 at 1. rewrite get_be_bytes by (pose proof (len_nonneg (rr_data r)); done). cbn [mbind go_bind].
  replace (len packet <? at_ + 10 + len (rr_data r)) with false by (symmetry; z_bool; rewrite Hp; unfold at_; len_lia).
  destruct ((rr_type r =? 1) && (len (rr_data r) =? 4)) eqn:Ea; cbn [mbind go_bind].
  - apply andb_true_iff in Ea as [_ Ea]. apply Z.eqb_eq in Ea.
    rewrite (slice_at packet (pre ++ hd ++ b1 ++ b2 ++ b3 ++ b4) (rr_data r) post (at_ + 10) (at_ + 10 + 4)) by at_split Hp. cbn [mbind go_bind].
    rewrite copy_array_exact by (unfold len in Ea; lia). f_equal. unfold at_. len_lia.
  - f_equal. unfold at_. len_lia.
Qed.

Lemma kept_snoc done r ip o : kept q done ip o ->
  kept q (done ++ [r]) ip (if decide (gives r ip) then match o with
    | Some prev => if len (name_of q r) <? len (ans_name prev) then Some (mkAnswer (name_of q r) (rr_ttl r)) else o
    | None => Some (mkAnswer (name_of q r) (rr_ttl r)) end else o).
Proof.
  intros Hk. destruct (decide (gives r ip)) as [Hg|Hg]; destruct o as [prev|]; cbn [kept] in *.
  - destruct Hk as (before & r0 & after & -> & Hg0 & -> & Hb & Ha). cbn [ans_name]. destruct (Z.ltb_spec (len (name_of q r)) (len (name_of q r0))).
    + exists (before ++ r0 :: after), r, []. split_and!; [done..| |done]. rewrite Forall_forall in *. intros r' Hr' Hg'.
      apply elem_of_app in Hr' as [Hr'|Hr']; [specialize (Hb r' Hr' Hg'); lia|]. apply elem_of_cons in Hr' as [->|Hr']; [lia|]. specialize (Ha r' Hr' Hg'). lia.
    + exists before, r0, (after ++ [r]). split_and!; [by rewrite <- app_assoc|done..|]. apply Forall_app. split; [done|]. by repeat constructor.
  - exists done, r, []. split_and!; [done..| |done]. eapply Forall_impl; [exact Hk|]. intros r' Hn Hg'. by destruct Hn.
  - destruct Hk as (before & r0 & after & -> & Hg0 & -> & Hb & Ha). exists before, r0, (after ++ [r]). split_and!; [by rewrite <- app_assoc|done..|].
    apply Forall_app. split; [done|]. by repeat constructor.
  - apply Forall_app. split; [done|]. by repeat constructor.
Qed.

Lemma addAnswer_kept done r out : (forall ip, kept q done ip (out !! ip)) -> forall ip,
  kept q (done ++ [r]) ip ((if (rr_type r =? 1) && (len (rr_data r) =? 4) then addAnswer out (rr_data r) (mkAnswer (name_of q r) (rr_ttl r)) else out) !! ip).
Proof.
  intros Hk ip. pose proof (kept_snoc done r ip _ (Hk ip)) as Hs. unfold gives in Hs.
  destruct (Z.eqb_spec (rr_type r) 1) as [H1|H1]; [|by rewrite decide_False in Hs by naive_solver].
  destruct (Z.eqb_spec (len (rr_data r)) 4) as [H4|H4]; [|by rewrite decide_False in Hs by naive_solver]. cbn [andb].
  unfold addAnswer. destruct (decide (rr_data r = ip)) as [<-|Hip].
  - rewrite decide_True in Hs by done. destruct (out !! rr_data r) as [prev|] eqn:Eo; cbn [ans_name] in *.
    + destruct (_ <? _); [by rewrite lookup_insert_eq|by rewrite Eo].
    + by rewrite lookup_insert_eq.
  - rewrite decide_False in Hs by naive_solver. repeat case_match; rewrite ?lookup_insert_ne by done; done.
Qed.

Lemma readAnswers_enc rs done pre post out : packet = pre ++ concat (map (enc_rr q) rs) ++ post -> Forall (rr_ok q) rs ->
  (forall ip, kept q done ip (out !! ip)) ->
  returns (readAnswers (length rs) packet (len pre) out) (fun out' => forall ip, kept q (done ++ rs) ip (out' !! ip)).
Proof.
  intros Hp Hrs. revert done pre out Hp. induction Hrs as [|r rs Hr Hrs IH]; intros done pre out Hp Hout.
  - cbn. by rewrite app_nil_r.
  - cbn [length map concat] in *. rewrite <- app_assoc in Hp. rewrite (readAnswers_rr pre r _ _ _ Hp Hr).
    change (r :: rs) with ([r] ++ rs). rewrite app_assoc. apply IH; [by rewrite Hp, <- app_assoc|]. by apply addAnswer_kept.
Qed.
End Round.

Lemma enc_rr_len q r : 11 <= len (enc_rr q r).
Proof.
  unfold enc_rr. assert (1 <= len (enc_owner q (rr_owner r))); [|len_lia].
  destruct (rr_owner r); cbn [enc_owner]; unfold enc_name; len_lia.
Qed.

Lemma parse_wf packet : wf_bytes packet -> exists out, parseDNSResponseIPv4 packet = Ret out /\ answers_wf out.
Proof.
  intros Hw. apply returns_exists. unfold parseDNSResponseIPv4.
  assert (answers_wf ∅) as H0 by (intros ? ?; by rewrite lookup_empty).
  destruct (len packet <? 12) eqn:E; [done|]. z_bool. go_step.
  destruct (Z.land b 128 =? 0); [done|]. unfold BE_Uint16. go_step. go_step. go_step. go_step.
  destruct (v0 =? 0); [done|]. destruct (_ || _); [done|].
  apply returns_bind. eapply returns_mono; [apply skipQuestions_safe; [done|lia]|].
  intros [pos|] Hpos; [|done]. apply readAnswers_safe; auto.
Qed.

(** * Properties *)

(** On every packet of bytes, however malformed, the DNS response parser
    returns without an out-of-range access, and what it returns maps 4-byte
    addresses to TTLs of 32 bits. *)
Theorem dns_parser_total packet : wf_bytes packet ->
  exists out, parseDNSResponseIPv4 packet = Ret out /\ answers_wf out.
Proof. apply parse_wf. Qed.

(** A self-referential compression pointer in the question. *)
Definition ex_loop : bytes := [0; 0; 0x80; 0; 0; 1; 0; 1; 0; 0; 0; 0; 0xC0; 12; 0; 0].

Lemma dns_parser_total_witness : wf_bytes ex_loop /\
  exists out, parseDNSResponseIPv4 ex_loop = Ret out /\ answers_wf out.
Proof.
  assert (wf_bytes ex_loop) as H by (unfold wf_bytes; by apply (bool_decide_unpack _)).
  split; [exact H|]. exact (dns_parser_total ex_loop H).
Defined.

(** C36: an encoder of DNS responses, and the parser, which reads back what was
    encoded.  A response to one question has any answers: records of any type,
    class and data, whose owners are written out or are labels before a pointer
    into the question's name, and more records after them.  It parses to
    exactly the IPv4 addresses of its A records, each with the owner name and
    TTL of the first of its records with the shortest owner name. *)
Theorem dns_response_roundtrip q id1 id2 flag1 flag2 counts qtype qclass rs more :
  name_ok q -> Z.land flag1 0x80 <> 0 -> Forall (rr_ok q) rs -> 0 < len rs < 2 ^ 16 ->
  exists out, parseDNSResponseIPv4 (enc_response q id1 id2 flag1 flag2 counts qtype qclass rs more) = Ret out /\
    forall ip, kept q rs ip (out !! ip).
Proof.
  intros Hq Hflag Hrs Hlen. apply returns_exists. set (packet := enc_response _ _ _ _ _ _ _ _ _ _).
  set (head := [id1; id2; flag1; flag2] ++ be_bytes 2 1 ++ be_bytes 2 (len rs) ++ be_bytes 2 counts.1 ++ be_bytes 2 counts.2).
  set (body := concat (map (enc_rr q) rs)).
  assert (packet = head ++ enc_name q ++ (be_bytes 2 qtype ++ be_bytes 2 qclass ++ body ++ more)) as Hp
    by (unfold packet, enc_response, head; by rewrite <- !app_assoc).
  assert (len head = 12) as H12 by (unfold head; len_lia).
  assert (11 * len rs <= len body) as Hbody.
  { unfold body. clear -rs. induction rs as [|r rs IH]; [done|]. cbn [map concat]. pose proof (enc_rr_len q r). len_lia. }
  assert (len packet = 16 + len (enc_name q) + len body + len more) as Hpl by (rewrite Hp; len_lia).
  pose proof (len_nonneg (enc_name q)). pose proof (len_nonneg more).
  set (rest := be_bytes 2 counts.1 ++ be_bytes 2 counts.2 ++ enc_name q ++ be_bytes 2 qtype ++ be_bytes 2 qclass ++ body ++ more).
  unfold parseDNSResponseIPv4.
  replace (len packet <? 12) with false by (symmetry; z_bool; lia).
  replace (idx packet 2) with (Ret flag1) by done. cbn [mbind go_bind]. rewrite (proj2 (Z.eqb_neq _ _) Hflag).
  rewrite (slice_at packet [id1; id2; flag1; flag2] (be_bytes 2 1) (be_bytes 2 (len rs) ++ rest) 4 6) by (done || (rewrite Hp; unfold head, rest; by rewrite <- !app_assoc)).
  cbn [mbind go_bind]. unfold BE_Uint16. rewrite get_be_bytes by done. cbn [mbind go_bind].
  rewrite (slice_at packet ([id1; id2; flag1; flag2] ++ be_bytes 2 1) (be_bytes 2 (len rs)) rest 6 8) by (done || len_lia || (rewrite Hp; unfold head, rest; by rewrite <- !app_assoc)).
  cbn [mbind go_bind]. rewrite get_be_bytes by (cbn; lia). cbn [mbind go_bind].
  replace (len rs =? 0) with false by (symmetry; z_bool; lia).
  replace (_ || _) with false by (symmetry; z_bool; unfold dnsMinRRSize; split; apply Z.div_le_lower_bound; lia).
  change (Z.to_nat 1) with 1%nat. cbn [skipQuestions]. rewrite <- H12 at 1. rewrite (readDNSName_enc packet head q _ Hp Hq). cbn [mbind go_bind].
  replace (len packet <? _) with false by (symmetry; z_bool; lia).
  cbn [mbind go_bind]. replace (Z.to_nat (len rs)) with (length rs) by (unfold len; lia).
  replace (len head + len (enc_name q) + 4) with (len (head ++ enc_name q ++ be_bytes 2 qtype ++ be_bytes 2 qclass)) by len_lia.
  eapply (readAnswers_enc q Hq packet head _ Hp H12 rs [] _ more ∅); [rewrite Hp; by rewrite <- !app_assoc|done|].
  intros ip. rewrite lookup_empty. apply Forall_nil. exact I.
Qed.

(** A chain of an alias and two A records of one address, of which the second
    has the shorter owner. *)
Definition ex_question : list bytes := [str "www"; str "example"; str "com"].
Definition ex_records : list rr :=
  [mkRR (Suffixed [] 0) 5 1 30 (str "alias"); mkRR (Suffixed [str "edge"; str "cdn"] 1) 1 1 60 [1; 2; 3; 4]; mkRR (Full [str "cdn"; str "net"]) 1 1 5 [1; 2; 3; 4];
   mkRR (Suffixed [str "a"] 1) 28 1 5 (repeat 0 16)].

Lemma dns_response_roundtrip_witness :
  (exists out, parseDNSResponseIPv4 (enc_response ex_question 0 1 0x81 0x80 (0, 0) 1 1 ex_records []) = Ret out /\
    forall ip, kept ex_question ex_records ip (out !! ip)) /\
  match parseDNSResponseIPv4 (enc_response ex_question 0 1 0x81 0x80 (0, 0) 1 1 ex_records []) with
  | Ret out => map_to_list out = [([1; 2; 3; 4], mkAnswer (str "cdn.net") 5)] | Panic => False end.
Proof.
  split; [|vm_compute; reflexivity].
  apply (dns_response_roundtrip ex_question 0 1 0x81 0x80 (0, 0) 1 1 ex_records []).
  - split; [repeat constructor; by vm_compute|cbn; lia].
  - by vm_compute.
  - repeat constructor; try (by vm_compute); cbn; lia || (right; lia) || (left; done).
  - by vm_compute.
Defined.
