(* ===== verification/DnsCache.v ===== *)
(** internal/agent/dns_cache.go and defend_dns_seed.go: the cache of sniffed
    DNS answers with its kernel mirror, and the seeding of the enforcement
    map with trusted owners.

    The cache is an explicit state; the mutex serialises the operations, so
    each is one atomic step.  The wall clock is a parameter in nanoseconds
    since the Unix epoch ([Unix] floors it to seconds); map iteration order is
    the [RangeOrder] parameter, and the kernel maps are the interface of
    BpfMap.v. *)
From S2P Require Import Prelude GoStrings GoNet BpfMap DnsWire.

Open Scope Z_scope.

Definition dnsMaxEntries : Z := 8192.
Definition dnsMaxTTLSec : Z := 3600.
Definition dnsDefaultTTL : Z := 300.
Definition dnsMinTTLSec : Z := 1.
Definition dnsBPFNameMax : Z := 255.

(** [time.Time.Unix]. *)
Definition second : Z := 1000000000.
Definition Unix (t : Z) : Z := t / second.

Record dnsEntry := mkEntry { de_name : bytes; de_expires : Z }.

(** [onBPFFailure] is [None] for a nil callback; otherwise the number of times
    the callback was invoked (the agent wires it to a counter). *)
Record DNSCache (M : Type) := mkCache {
  entries : gmap bytes dnsEntry;
  maxEntries : Z;
  bpfMaps : list (option M);
  onBPFFailure : option Z;
}.
Arguments mkCache {M}.
Arguments entries {M}.
Arguments maxEntries {M}.
Arguments bpfMaps {M}.
Arguments onBPFFailure {M}.

Definition dnsNameForBPF (name : bytes) : go (bytes * bool) :=
  if len name <=? dnsBPFNameMax then Ret (name, false)
  else n ← slice_to name dnsBPFNameMax; Ret (n, true).

Definition ttlToExpiry (ttl now : Z) : Z :=
  let sec := ttl in
  let sec := if sec =? 0 then dnsDefaultTTL else sec in
  let sec := if dnsMaxTTLSec <? sec then dnsMaxTTLSec else sec in
  let sec := if sec <? dnsMinTTLSec then dnsMinTTLSec else sec in
  Unix (now + sec * second).

(** The callback, when there is one. *)
Definition bump (f : option Z) : option Z := option_map Z.succ f.

Section DNSCache.
Context {M : Type} `{UnicodeCase} `{!BpfMapOps bytes bytes M} `{!RangeOrder bytes}.
Implicit Types c : DNSCache M.

Definition NewDNSCache : DNSCache M := mkCache ∅ dnsMaxEntries [] None.

Definition SetBPFMaps c (maps : list (option M)) : DNSCache M :=
  mkCache (entries c) (maxEntries c) maps (onBPFFailure c).

Definition SetBPFFailureCallback c (cb : option Z) : DNSCache M :=
  mkCache (entries c) (maxEntries c) (bpfMaps c) cb.

(** The loops over [c.bpfMaps]. *)
Fixpoint deleteMaps (maps : list (option M)) (key : bytes) (fails : option Z) : list (option M) * option Z :=
  match maps with
  | [] => ([], fails)
  | None :: rest => let '(rest', fails') := deleteMaps rest key fails in (None :: rest', fails')
  | Some m :: rest =>
    let '(m', err) := bm_delete m key in
    let fails := match err with
                 | None | Some ErrKeyNotExist => fails
                 | Some (ErrMap _) => bump fails
                 end in
    let '(rest', fails') := deleteMaps rest key fails in (Some m' :: rest', fails')
  end.

Fixpoint updateMaps (maps : list (option M)) (key val : bytes) (fails : option Z) : list (option M) * option Z :=
  match maps with
  | [] => ([], fails)
  | None :: rest => let '(rest', fails') := updateMaps rest key val fails in (None :: rest', fails')
  | Some m :: rest =>
    let '(m', err) := bm_update m key val in
    let fails := match err with None => fails | Some _ => bump fails end in
    let '(rest', fails') := updateMaps rest key val fails in (Some m' :: rest', fails')
  end.

Definition deleteBPFMapsLocked c (ip : bytes) : DNSCache M :=
  if decide (bpfMaps c = []) then c
  else
    let '(maps, fails) := deleteMaps (bpfMaps c) (copy_array 4 ip) (onBPFFailure c) in
    mkCache (entries c) (maxEntries c) maps fails.

(** [delete(c.entries, k); c.deleteBPFMapsLocked(k)]. *)
Definition evict c (k : bytes) : DNSCache M :=
  deleteBPFMapsLocked (mkCache (delete k (entries c)) (maxEntries c) (bpfMaps c) (onBPFFailure c)) k.

Definition purgeExpiredLocked (n : nat) c (nowUnix : Z) : DNSCache M :=
  foldl (fun c '(k, e) => if de_expires e <=? nowUnix then evict c k else c) c (range n (entries c)).

Fixpoint evictExcess (ks : list (bytes * dnsEntry)) (excess : Z) c : DNSCache M :=
  match ks with
  | [] => c
  | (k, _) :: ks' => if excess =? 0 then c else evictExcess ks' (excess - 1) (evict c k)
  end.

Definition trimLocked (n : nat) c (now : Z) : DNSCache M :=
  if Z.of_nat (size (entries c)) <=? maxEntries c then c
  else
    let c := purgeExpiredLocked n c (Unix now) in
    if Z.of_nat (size (entries c)) <=? maxEntries c then c
    else
      let excess := Z.of_nat (size (entries c)) - maxEntries c in
      evictExcess (range (S n) (entries c)) excess c.

(** [c.entries[ip] = e]. *)
Definition setEntry c (ip : bytes) (e : dnsEntry) : DNSCache M :=
  mkCache (<[ip := e]> (entries c)) (maxEntries c) (bpfMaps c) (onBPFFailure c).

(** Write the owner of [ip] to every kernel map. *)
Definition updateBPFMaps c (ip name : bytes) : go (DNSCache M) :=
  if decide (bpfMaps c = []) then Ret c
  else
    r ← dnsNameForBPF name;
    let '(maps, fails) := updateMaps (bpfMaps c) (copy_array 4 ip) (copy_array 256 r.1) (onBPFFailure c) in
    Ret (mkCache (entries c) (maxEntries c) maps fails).

(** One iteration of the loop of [AddFromPacket]. *)
Definition addAns (now : Z) c (kv : bytes * ipv4DNSAnswer) : go (DNSCache M) :=
  let '(ip, ans) := kv in
  let name := ToLower (ans_name ans) in
  let exp := ttlToExpiry (ans_ttl ans) now in
  let store := updateBPFMaps (setEntry c ip (mkEntry name exp)) ip name in
  match entries c !! ip with
  | Some prev =>
    if Unix now <? de_expires prev then
      if decide (name = de_name prev) then Ret (setEntry c ip (mkEntry name exp))
      else if len (de_name prev) <? len name then Ret c
      else store
    else store
  | None => store
  end.

Fixpoint addAnswers (now : Z) c (l : list (bytes * ipv4DNSAnswer)) : go (DNSCache M) :=
  match l with
  | [] => Ret c
  | kv :: l' => c' ← addAns now c kv; addAnswers now c' l'
  end.

Definition AddFromPacket c (now : Z) (packet : bytes) : go (DNSCache M) :=
  m ← parseDNSResponseIPv4 packet;
  if decide (m = ∅) then Ret c
  else
    let c := purgeExpiredLocked 0 c (Unix now) in
    c ← addAnswers now c (range 1 m);
    Ret (trimLocked 2 c now).

Definition unknown : bytes := str "unknown".
Definition dns_observed : bytes := str "dns_observed".

Definition LookupProvenance c (now : Z) (ip : bytes) : bytes * bytes :=
  match To4 ip with
  | None => ([], unknown)
  | Some v4 =>
    match entries c !! copy_array 4 v4 with
    | None => ([], unknown)
    | Some e => if de_expires e <=? Unix now then ([], unknown) else (de_name e, dns_observed)
    end
  end.

Definition Lookup c (now : Z) (ip : bytes) : bytes := (LookupProvenance c now ip).1.

(** ** defend_dns_seed.go *)

Definition ownerBPFValue (name : bytes) : bytes * bool :=
  let truncated := dnsBPFNameMax <? len name in
  let name := if truncated then take (Z.to_nat dnsBPFNameMax) name else name in
  (copy_array 256 name, truncated).

(** The loop of [seedDefendOwners]: the map, the number of entries written
    and the failure callback. *)
Fixpoint seedOwners (m : M) (owners : list (bytes * bytes)) (programmed : Z) (fails : option Z) : M * Z * option Z :=
  match owners with
  | [] => (m, programmed, fails)
  | (ip, name) :: rest =>
    if decide (name = []) then seedOwners m rest programmed fails
    else
      let '(m', err) := bm_update m ip (ownerBPFValue name).1 in
      match err with
      | Some _ => seedOwners m' rest programmed (bump fails)
      | None => seedOwners m' rest (programmed + 1) fails
      end
  end.

Definition seedDefendOwners (m : option M) (owners : gmap bytes bytes) (onFailure : option Z) : option M * Z * option Z :=
  match m with
  | None => (None, 0, onFailure)
  | Some m =>
    if decide (owners = ∅) then (Some m, 0, onFailure)
    else let '(m', n, f) := seedOwners m (range 0 owners) 0 onFailure in (Some m', n, f)
  end.
End DNSCache.

(** * Lemmas *)

Lemma Unix_add now sec : Unix (now + sec * second) = Unix now + sec.
Proof. unfold Unix, second. rewrite Z.div_add by done. done. Qed.

Lemma ttlToExpiry_bounds ttl now : 0 <= ttl -> Unix now < ttlToExpiry ttl now <= Unix now + dnsMaxTTLSec.
Proof.
  intros Ht. unfold ttlToExpiry. rewrite Unix_add. unfold dnsMaxTTLSec, dnsDefaultTTL, dnsMinTTLSec.
  repeat case_match; z_bool; lia.
Qed.

Lemma dnsNameForBPF_val name : exists t,
  dnsNameForBPF name = Ret (take 255 name, t).
Proof.
  unfold dnsNameForBPF, dnsBPFNameMax. destruct (len name <=? 255) eqn:E; z_bool.
  - rewrite take_ge by (unfold len in E; lia). eauto.
  - unfold slice_to. rewrite slice_in_range by lia. cbn [mbind go_bind]. eauto.
Qed.

(** The 256-byte kernel value of an owner name. *)
Definition bpfValue (name : bytes) : bytes := copy_array 256 (take 255 name).

Lemma ownerBPFValue_val name : (ownerBPFValue name).1 = bpfValue name.
Proof.
  unfold ownerBPFValue, bpfValue, dnsBPFNameMax. cbn [fst]. destruct (255 <? len name) eqn:E; [done|]. z_bool.
  rewrite (take_ge name 255) by (unfold len in E; lia). done.
Qed.

Section Entries.
Context {M : Type} `{UnicodeCase} `{!BpfMapOps bytes bytes M} `{!RangeOrder bytes}.
Implicit Types c : DNSCache M.

Lemma deleteBPF_frame c k :
  entries (deleteBPFMapsLocked c k) = entries c /\ maxEntries (deleteBPFMapsLocked c k) = maxEntries c.
Proof. unfold deleteBPFMapsLocked. case_decide; [done|]. by case_match. Qed.

Lemma evict_frame c k :
  entries (evict c k) = delete k (entries c) /\ maxEntries (evict c k) = maxEntries c.
Proof. exact (deleteBPF_frame (mkCache (delete k (entries c)) _ _ _) k). Qed.

(** The entries that are live at [t]. *)
Definition live (t : Z) (es : gmap bytes dnsEntry) : gmap bytes dnsEntry :=
  filter (fun kv => t < de_expires kv.2) es.

Lemma purge_max n c t : maxEntries (purgeExpiredLocked n c t) = maxEntries c.
Proof.
  unfold purgeExpiredLocked. generalize (range n (entries c)). intros l. revert c.
  induction l as [|[k e] l IH]; intros c; cbn [foldl]; [done|]. rewrite IH. case_match; [|done].
  apply evict_frame.
Qed.

Lemma purge_entries n c t : entries (purgeExpiredLocked n c t) = live t (entries c).
Proof.
  apply map_eq. intros k. unfold purgeExpiredLocked, live.
  rewrite (foldl_pointwise (fun c k => entries c !! k)
    (fun c '(k, e) => if de_expires e <=? t then evict c k else c)
    (fun o e => if de_expires e <=? t then None else o)); [|intros c0 k0 a k'|apply range_NoDup].
  - rewrite list_to_map_range, map_lookup_filter. destruct (entries c !! k) as [e|]; [|done]. cbn.
    destruct (de_expires e <=? t) eqn:E; z_bool; case_guard; cbn in *; done || lia.
  - destruct (de_expires a <=? t); [destruct (evict_frame c0 k0) as [-> _]|];
      case_decide; subst; rewrite ?lookup_delete_eq, ?lookup_delete_ne; done.
Qed.

Lemma evictExcess_frame ks excess c :
  entries (evictExcess ks excess c) ⊆ entries c /\ maxEntries (evictExcess ks excess c) = maxEntries c.
Proof.
  revert excess c. induction ks as [|[k e] ks IH]; intros excess c; cbn [evictExcess]; [done|].
  case_match; [done|]. destruct (IH (excess - 1) (evict c k)) as [H1 H2].
  destruct (evict_frame c k) as [He Hm]. rewrite H2, Hm. split; [|done].
  etrans; [exact H1|]. rewrite He. apply delete_subseteq.
Qed.

Lemma evictExcess_size ks excess c :
  NoDup ks.*1 -> (forall k, k ∈ ks.*1 -> is_Some (entries c !! k)) -> 0 <= excess <= Z.of_nat (length ks) ->
  Z.of_nat (size (entries (evictExcess ks excess c))) = Z.of_nat (size (entries c)) - excess.
Proof.
  revert excess c. induction ks as [|[k e] ks IH]; intros excess c Hnd Hin Hx; cbn [evictExcess length] in *; [lia|].
  destruct (excess =? 0) eqn:E; z_bool; [lia|]. apply NoDup_cons in Hnd as [Hk Hnd]. cbn in Hk.
  destruct (evict_frame c k) as [He _]. destruct (Hin k) as [x Hx']; [by left|].
  rewrite IH; [|done| |lia].
  - rewrite He. rewrite map_size_delete, Hx'. assert (size (entries c) <> 0%nat); [|lia].
    intros Hz. apply map_size_empty_inv in Hz. rewrite Hz in Hx'. done.
  - intros k' Hk'. rewrite He. rewrite lookup_delete_ne by (intros ->; done). apply Hin. by right.
Qed.

(** Trimming keeps live entries only when it must, and reaches the cap. *)
Lemma trim_spec n c now : 0 <= maxEntries c ->
  entries (trimLocked n c now) ⊆ entries c /\
  maxEntries (trimLocked n c now) = maxEntries c /\
  Z.of_nat (size (entries (trimLocked n c now))) <= maxEntries c /\
  (Z.of_nat (size (entries c)) <= maxEntries c -> trimLocked n c now = c).
Proof.
  intros Hm. unfold trimLocked. destruct (_ <=? _) eqn:E0; z_bool; [done|].
  pose proof (purge_entries n c (Unix now)) as Hp. pose proof (purge_max n c (Unix now)) as Hpm.
  set (c1 := purgeExpiredLocked n c (Unix now)) in *.
  assert (entries c1 ⊆ entries c) as Hsub by (rewrite Hp; apply map_filter_subseteq).
  destruct (_ <=? _) eqn:E1; z_bool; [split_and!; [done|done|lia|lia]|].
  destruct (evictExcess_frame (range (S n) (entries c1)) (Z.of_nat (size (entries c1)) - maxEntries c1) c1) as [H1 H2].
  split_and!; [by etrans|by rewrite H2| |lia].
  rewrite evictExcess_size; [lia|apply range_NoDup| |rewrite length_range; lia].
  intros k Hk. apply list_elem_of_fmap in Hk as ([k' e] & -> & Hk). apply elem_of_range in Hk. eauto.
Qed.

(** ** The abstract effect of one answer *)

Definition mergeEntry (now : Z) (prev : option dnsEntry) (a : ipv4DNSAnswer) : dnsEntry :=
  let new := mkEntry (ToLower (ans_name a)) (ttlToExpiry (ans_ttl a) now) in
  match prev with
  | Some p => if decide (Unix now < de_expires p /\ len (de_name p) < len (de_name new)) then p else new
  | None => new
  end.

Lemma updateBPFMaps_frame c ip name : exists maps fails,
  updateBPFMaps c ip name = Ret (mkCache (entries c) (maxEntries c) maps fails).
Proof.
  unfold updateBPFMaps. case_decide; [destruct c; eauto|].
  destruct (dnsNameForBPF_val name) as [t ->]. cbn [mbind go_bind]. case_match. eauto.
Qed.

Lemma addAns_entries now c ip a : exists c',
  addAns now c (ip, a) = Ret c' /\
  entries c' = <[ip := mergeEntry now (entries c !! ip) a]> (entries c) /\ maxEntries c' = maxEntries c.
Proof.
  unfold addAns, mergeEntry. set (new := mkEntry _ _).
  destruct (updateBPFMaps_frame (setEntry c ip new) ip (ToLower (ans_name a))) as (maps & fails & Eu).
  destruct (entries c !! ip) as [p|] eqn:Ep; [|rewrite Eu; eauto].
  destruct (Unix now <? de_expires p) eqn:Et; z_bool;
    [|rewrite Eu, decide_False by lia; eauto].
  case_decide as Hn.
  { rewrite decide_False by (cbn; rewrite Hn; lia). eauto. }
  destruct (_ <? _) eqn:El; z_bool.
  - rewrite decide_True by done. exists c. by rewrite insert_id.
  - rewrite decide_False by (cbn; lia). rewrite Eu. eauto.
Qed.

(** [addAns] as a total function on states. *)
Definition addAns' (now : Z) c (kv : bytes * ipv4DNSAnswer) : DNSCache M :=
  match addAns now c kv with Ret c' => c' | Panic => c end.

Lemma addAnswers_fold now c l : addAnswers now c l = Ret (foldl (addAns' now) c l).
Proof.
  revert c. induction l as [|[ip a] l IH]; intros c; cbn [addAnswers foldl]; [done|].
  unfold addAns' at 2. destruct (addAns_entries now c ip a) as (c' & -> & _). apply IH.
Qed.

Lemma addAnswers_max now c l : maxEntries (foldl (addAns' now) c l) = maxEntries c.
Proof.
  revert c. induction l as [|[ip a] l IH]; intros c; cbn [foldl]; [done|]. rewrite IH.
  unfold addAns'. destruct (addAns_entries now c ip a) as (c' & -> & _ & ->). done.
Qed.

(** The entries a packet with answers [m] leads to, before the cap. *)
Definition merged (now : Z) (es : gmap bytes dnsEntry) (m : gmap bytes ipv4DNSAnswer) : gmap bytes dnsEntry :=
  merge (fun e a => match a with Some a => Some (mergeEntry now e a) | None => e end) (live (Unix now) es) m.

Lemma addAnswers_entries now c n m :
  entries (foldl (addAns' now) c (range n m)) =
    merge (fun e a => match a with Some a => Some (mergeEntry now e a) | None => e end) (entries c) m.
Proof.
  apply map_eq. intros k. rewrite lookup_merge.
  rewrite (foldl_pointwise (fun c k => entries c !! k) (addAns' now)
    (fun o a => Some (mergeEntry now o a))); [|intros c0 k0 a k'|apply range_NoDup].
  - rewrite list_to_map_range. destruct (m !! k), (entries c !! k); done.
  - unfold addAns'. destruct (addAns_entries now c0 k0 a) as (c' & -> & -> & _).
    case_decide; subst; by rewrite ?lookup_insert_eq, ?lookup_insert_ne.
Qed.

(** [AddFromPacket] on the entries. *)
Lemma AddFromPacket_entries c now packet m : 0 <= maxEntries c ->
  parseDNSResponseIPv4 packet = Ret m -> m <> ∅ ->
  exists c', AddFromPacket c now packet = Ret c' /\ maxEntries c' = maxEntries c /\
    entries c' ⊆ merged now (entries c) m /\
    Z.of_nat (size (entries c')) <= maxEntries c /\
    (Z.of_nat (size (merged now (entries c) m)) <= maxEntries c -> entries c' = merged now (entries c) m).
Proof.
  intros Hmax Hp Hm. unfold AddFromPacket. rewrite Hp. cbn [mbind go_bind]. rewrite decide_False by done.
  rewrite addAnswers_fold. cbn [mbind go_bind].
  set (c1 := foldl _ _ _). assert (entries c1 = merged now (entries c) m) as He.
  { unfold c1. rewrite addAnswers_entries, purge_entries. done. }
  assert (maxEntries c1 = maxEntries c) as Hm1 by (unfold c1; by rewrite addAnswers_max, purge_max).
  destruct (trim_spec 2 c1 now) as (Ht1 & Ht2 & Ht3 & Ht4); [lia|].
  eexists. split; [done|]. rewrite <- He, <- Hm1. split_and!; [done|done|lia|].
  intros Hs. by rewrite Ht4.
Qed.
End Entries.

(** * Agreement with the kernel maps *)

Section Sync.
Context {M : Type} `{UnicodeCase} `{!BpfMapOps bytes bytes M} `{!BpfMapLaws bytes bytes M} `{!RangeOrder bytes}.
Implicit Types c : DNSCache M.

(** Some registered kernel map holds [v] for [k]. *)
Definition kernel (maps : list (option M)) (k v : bytes) : Prop :=
  exists m, Some m ∈ maps /\ bm_view m !! k = Some v.

(** What the kernel maps hold is an entry of the cache, with its name. *)
Definition in_sync c : Prop :=
  forall k v, kernel (bpfMaps c) k v -> exists e, entries c !! k = Some e /\ v = bpfValue (de_name e).

(** The failure count [o] grew to [o']. *)
Definition grew (o o' : option Z) : Prop := forall n, o = Some n -> exists n', o' = Some n' /\ n <= n'.

Lemma kernel_cons (m : option M) maps k v :
  kernel (m :: maps) k v <-> (exists m', m = Some m' /\ bm_view m' !! k = Some v) \/ kernel maps k v.
Proof. unfold kernel. setoid_rewrite elem_of_cons. naive_solver. Qed.

Lemma bump_grew o : grew o (bump o).
Proof. intros n ->. cbn. eexists. split; [done|]. lia. Qed.

Lemma grew_trans o1 o2 o3 : grew o1 o2 -> grew o2 o3 -> grew o1 o3.
Proof. intros H1 H2 n Hn. apply H1 in Hn as (n1 & Hn1 & ?). apply H2 in Hn1 as (n2 & -> & ?). eexists. split; [done|]. lia. Qed.

(** If the count did not move overall, it did not move on the way. *)
Lemma grew_squeeze o1 o2 n : grew o1 o2 -> o1 = Some n -> grew o2 (Some n) -> o2 = Some n.
Proof.
  intros H1 -> H2. destruct (H1 n eq_refl) as (n1 & -> & ?). destruct (H2 n1 eq_refl) as (n2 & [= <-] & ?).
  f_equal. lia.
Qed.

Lemma not_bump n : ~ grew (bump (Some n)) (Some n).
Proof. intros Hg. destruct (Hg (Z.succ n) eq_refl) as (? & [= <-] & ?). lia. Qed.

Lemma deleteMaps_grew maps k o maps' o' : deleteMaps maps k o = (maps', o') -> grew o o'.
Proof.
  revert maps' o o'. induction maps as [|[m|] maps IH]; intros maps' o o' E; cbn [deleteMaps] in E;
    repeat case_match; simplify_eq; eauto using grew_trans, bump_grew.
  intros n ->. eauto with lia.
Qed.

Lemma updateMaps_grew maps k v o maps' o' : updateMaps maps k v o = (maps', o') -> grew o o'.
Proof.
  revert maps' o o'. induction maps as [|[m|] maps IH]; intros maps' o o' E; cbn [updateMaps] in E;
    repeat case_match; simplify_eq; eauto using grew_trans, bump_grew.
  intros n ->. eauto with lia.
Qed.

Lemma deleteMaps_kernel maps key n maps' : deleteMaps maps key (Some n) = (maps', Some n) ->
  forall k v, kernel maps' k v -> k <> key /\ kernel maps k v.
Proof.
  revert maps'. induction maps as [|[m|] maps IH]; intros maps' E k v Hk; cbn [deleteMaps] in E.
  - simplify_eq. by destruct Hk as (? & Hk%not_elem_of_nil & _).
  - destruct (bm_delete m key) as [m' err] eqn:Ed. apply let_pair_inv in E as (rest & f & Er & [= <- ->]).
    apply kernel_cons in Hk as [(? & [= <-] & Hv)|Hk].
    + rewrite kernel_cons. destruct err as [[|e]|].
      * apply bm_delete_none in Ed as [Hn Hs]. rewrite Hs in Hv. split; [congruence|eauto].
      * exfalso. eapply not_bump, deleteMaps_grew, Er.
      * rewrite (bm_delete_ok _ _ _ Ed) in Hv. apply lookup_delete_Some in Hv as [? ?]. eauto.
    + rewrite kernel_cons. destruct err as [[|e]|]; [apply (IH _ Er) in Hk; naive_solver| |apply (IH _ Er) in Hk; naive_solver].
      exfalso. eapply not_bump, deleteMaps_grew, Er.
  - apply let_pair_inv in E as (rest & f & Er & [= <- ->]).
    apply kernel_cons in Hk as [(? & ? & _)|Hk]; [done|]. rewrite kernel_cons. apply (IH _ Er) in Hk. naive_solver.
Qed.

Lemma updateMaps_kernel maps key val n maps' : updateMaps maps key val (Some n) = (maps', Some n) ->
  forall k v, kernel maps' k v -> (k = key /\ v = val) \/ (k <> key /\ kernel maps k v).
Proof.
  revert maps'. induction maps as [|[m|] maps IH]; intros maps' E k v Hk; cbn [updateMaps] in E.
  - simplify_eq. by destruct Hk as (? & Hk%not_elem_of_nil & _).
  - destruct (bm_update m key val) as [m' err] eqn:Ed. apply let_pair_inv in E as (rest & f & Er & [= <- ->]).
    destruct err as [e|]; [exfalso; eapply not_bump, updateMaps_grew, Er|].
    apply kernel_cons in Hk as [(? & [= <-] & Hv)|Hk]; rewrite kernel_cons.
    + destruct (bm_update_ok _ _ _ _ Ed) as [Hs Ho]. destruct (decide (k = key)) as [->|Hne].
      * left. split; [done|]. congruence.
      * right. split; [done|]. destruct (Ho k Hne); [left; eexists; split; [done|congruence]|congruence].
    + apply (IH _ Er) in Hk. naive_solver.
  - apply let_pair_inv in E as (rest & f & Er & [= <- ->]).
    apply kernel_cons in Hk as [(? & ? & _)|Hk]; [done|]. rewrite kernel_cons. apply (IH _ Er) in Hk. naive_solver.
Qed.

(** A step that keeps the agreement unless it counts a failure. *)
Definition sync_step c c' : Prop :=
  grew (onBPFFailure c) (onBPFFailure c') /\
  (forall n, onBPFFailure c = Some n -> onBPFFailure c' = Some n -> in_sync c -> in_sync c').

Lemma sync_refl c : sync_step c c.
Proof. split; [|done]. intros n ->. eauto with lia. Qed.

Lemma sync_trans c1 c2 c3 : sync_step c1 c2 -> sync_step c2 c3 -> sync_step c1 c3.
Proof.
  intros [G1 S1] [G2 S2]. split; [by eapply grew_trans|]. intros n H1 H3 Hs.
  assert (onBPFFailure c2 = Some n) as H2 by (eapply grew_squeeze; [exact G1|done|by rewrite <- H3]).
  eauto.
Qed.

Lemma evict_sync c k : length k = 4%nat -> sync_step c (evict c k).
Proof.
  intros Hk. unfold evict, deleteBPFMapsLocked. cbn [bpfMaps entries maxEntries onBPFFailure].
  rewrite copy_array_exact by done. case_decide as Hn.
  - split; [intros n Hf; eauto with lia|]. intros n _ _ _ k' v. cbn. rewrite Hn.
    by intros (? & ?%not_elem_of_nil & _).
  - destruct (deleteMaps (bpfMaps c) k (onBPFFailure c)) as [maps f] eqn:E. split; cbn.
    + by eapply deleteMaps_grew.
    + intros n Hf -> Hs k' v Hkv. rewrite Hf in E. cbn in *.
      destruct (deleteMaps_kernel _ _ _ _ E _ _ Hkv) as [Hne Hold].
      destruct (Hs _ _ Hold) as (e & He & ->). exists e. by rewrite lookup_delete_ne.
Qed.

Lemma updateBPF_sync c ip name exp c' : length ip = 4%nat ->
  updateBPFMaps (setEntry c ip (mkEntry name exp)) ip name = Ret c' -> sync_step c c'.
Proof.
  intros Hip. unfold updateBPFMaps. cbn [bpfMaps setEntry onBPFFailure entries maxEntries].
  rewrite copy_array_exact by done. case_decide as Hn.
  { intros [= <-]. split; [intros n Hf; eauto with lia|]. intros n _ _ _ k' v. cbn. rewrite Hn.
    by intros (? & ?%not_elem_of_nil & _). }
  destruct (dnsNameForBPF_val name) as [t ->]. cbn [mbind go_bind fst]. fold (bpfValue name).
  destruct (updateMaps _ _ _ _) as [maps f] eqn:E. intros [= <-]. split; cbn.
  - by eapply updateMaps_grew.
  - intros n Hf -> Hs k' v Hkv. rewrite Hf in E. cbn in *.
    destruct (updateMaps_kernel _ _ _ _ _ E _ _ Hkv) as [[-> ->]|[Hne Hold]].
    + eexists. by rewrite lookup_insert_eq.
    + destruct (Hs _ _ Hold) as (e & He & ->). exists e. by rewrite lookup_insert_ne.
Qed.

Lemma addAns_sync now c ip a c' : length ip = 4%nat -> addAns now c (ip, a) = Ret c' -> sync_step c c'.
Proof.
  intros Hip. unfold addAns. destruct (entries c !! ip) as [p|] eqn:Ep; [|by apply updateBPF_sync].
  case_match; [|by apply updateBPF_sync]. case_decide as Hn.
  - intros [= <-]. split; [intros n Hf; eauto with lia|]. intros n _ _ Hs k v Hkv. cbn in *.
    destruct (Hs _ _ Hkv) as (e & He & ->). destruct (decide (k = ip)) as [->|Hne].
    + rewrite lookup_insert_eq. eexists. split; [done|]. cbn [de_name]. congruence.
    + exists e. by rewrite lookup_insert_ne.
  - case_match; [|by apply updateBPF_sync]. intros [= <-]. apply sync_refl.
Qed.

Lemma foldl_sync {A} (f : DNSCache M -> A -> DNSCache M) (l : list A) c :
  (forall c a, a ∈ l -> sync_step c (f c a)) -> sync_step c (foldl f c l).
Proof.
  revert c. induction l as [|a l IH]; intros c Hf; [apply sync_refl|]. cbn [foldl].
  eapply sync_trans; [apply Hf; by left|]. apply IH. intros. apply Hf. by right.
Qed.

Lemma evictExcess_sync ks excess c : (forall k e, (k, e) ∈ ks -> length k = 4%nat) ->
  sync_step c (evictExcess ks excess c).
Proof.
  revert excess c. induction ks as [|[k e] ks IH]; intros excess c Hk; cbn [evictExcess]; [apply sync_refl|].
  case_match; [apply sync_refl|]. eapply sync_trans; [apply evict_sync; eapply Hk; by left|].
  apply IH. intros. eapply Hk. by right.
Qed.

Definition keys_ok {E} (es : gmap bytes E) : Prop := forall k e, es !! k = Some e -> length k = 4%nat.

Lemma purge_sync n c t : keys_ok (entries c) -> sync_step c (purgeExpiredLocked n c t).
Proof.
  intros Hk. apply foldl_sync. intros c0 [k e] Hin. apply elem_of_range in Hin.
  case_match; [eapply evict_sync, Hk, Hin|apply sync_refl].
Qed.

Lemma trim_sync n c now : keys_ok (entries c) -> sync_step c (trimLocked n c now).
Proof.
  intros Hk. unfold trimLocked. case_match; [apply sync_refl|].
  case_match; [by apply purge_sync|]. eapply sync_trans; [by apply purge_sync|].
  apply evictExcess_sync. intros k e Hin. apply elem_of_range in Hin. rewrite purge_entries in Hin.
  apply map_lookup_filter_Some in Hin as [Hin _]. by eapply Hk.
Qed.

Lemma merge_keys (now : Z) (es : gmap bytes dnsEntry) (m : gmap bytes ipv4DNSAnswer) : keys_ok es -> keys_ok m ->
  keys_ok (merge (fun e a => match a with Some a => Some (mergeEntry now e a) | None => e end) es m).
Proof.
  intros H1 H2 k e. rewrite lookup_merge. destruct (m !! k) eqn:Em; [eauto|].
  destruct (es !! k) eqn:Ee; [eauto|done].
Qed.

Lemma AddFromPacket_sync c now packet c' : wf_bytes packet -> keys_ok (entries c) ->
  AddFromPacket c now packet = Ret c' -> sync_step c c'.
Proof.
  intros Hw Hk. unfold AddFromPacket.
  destruct (parse_wf packet Hw) as (m & -> & Hm). cbn [mbind go_bind].
  case_decide; [intros [= <-]; apply sync_refl|]. rewrite addAnswers_fold. cbn [mbind go_bind]. intros [= <-].
  assert (keys_ok m) as Hkm by (intros k a Ha; by destruct (Hm _ _ Ha)).
  assert (keys_ok (entries (purgeExpiredLocked 0 c (Unix now)))) as Hkp.
  { rewrite purge_entries. intros k e He. apply map_lookup_filter_Some in He as [He _]. by eapply Hk. }
  eapply sync_trans; [by apply purge_sync|]. eapply sync_trans; [|apply trim_sync].
  - apply foldl_sync. intros c0 [ip a] Hin. apply elem_of_range in Hin. unfold addAns'.
    destruct (addAns_entries now c0 ip a) as (c1 & E & _). rewrite E. eapply addAns_sync; [|done]. by eapply Hkm.
  - rewrite addAnswers_entries. by apply merge_keys.
Qed.
End Sync.

(** * Properties *)

Section Properties.
Context {M : Type} `{UnicodeCase} `{!BpfMapOps bytes bytes M} `{!RangeOrder bytes}.
Implicit Types c : DNSCache M.

(** The cache at time [t]: at most [maxEntries] entries, keyed by 4-byte
    addresses, each with a lower-cased owner and an expiry at most an hour
    ahead of [t]. *)
Definition cache_inv (t : Z) c : Prop :=
  0 <= maxEntries c /\ Z.of_nat (size (entries c)) <= maxEntries c /\
  forall k e, entries c !! k = Some e ->
    length k = 4%nat /\ (exists s, de_name e = ToLower s) /\ de_expires e <= Unix t + dnsMaxTTLSec.

Lemma mergeEntry_cases now prev a : prev = Some (mergeEntry now prev a) \/
  mergeEntry now prev a = mkEntry (ToLower (ans_name a)) (ttlToExpiry (ans_ttl a) now).
Proof. unfold mergeEntry. destruct prev; [|by right]. case_decide; auto. Qed.

(** An entry of the merged cache is an old one or comes from an answer. *)
Lemma merged_inv (now : Z) (es : gmap bytes dnsEntry) m k e : merged now es m !! k = Some e ->
  es !! k = Some e \/ exists a, m !! k = Some a /\ e = mkEntry (ToLower (ans_name a)) (ttlToExpiry (ans_ttl a) now).
Proof.
  assert (forall e', live (Unix now) es !! k = Some e' -> es !! k = Some e') as Hlive
    by (intros e' He; by apply map_lookup_filter_Some in He as [? _]).
  unfold merged. rewrite lookup_merge. destruct (m !! k) as [a|] eqn:Em; [|destruct (live _ _ !! k); naive_solver].
  intros E. assert (e = mergeEntry now (live (Unix now) es !! k) a) as -> by (revert E; by destruct (live _ _ !! k); intros [= <-]).
  destruct (mergeEntry_cases now (live (Unix now) es !! k) a) as [E'|E']; [left; by apply Hlive|rewrite E'; eauto].
Qed.

(** C35: the cache invariant (the entry cap, 4-byte keys, lower-cased owners,
    expiries at most an hour ahead) holds of a new cache and is kept by
    [AddFromPacket] on every packet, which never panics. *)
Theorem dns_cache_invariant c t now packet : wf_bytes packet -> t <= now -> cache_inv t c ->
  cache_inv 0 (NewDNSCache (M := M)) /\
  exists c', AddFromPacket c now packet = Ret c' /\ cache_inv now c'.
Proof.
  intros Hw Ht (Hmax & Hsz & Hes). split.
  { split_and!; cbn; [done|done|]. intros k e. by rewrite lookup_empty. }
  assert (Unix t <= Unix now) as Hu by (unfold Unix, second; by apply Z.div_le_mono).
  destruct (parse_wf packet Hw) as (m & Hp & Hm). destruct (decide (m = ∅)) as [Hm0|Hm0].
  - exists c. split; [unfold AddFromPacket; rewrite Hp; cbn [mbind go_bind]; by rewrite decide_True|].
    split_and!; [done..|]. intros k e He. destruct (Hes _ _ He) as (? & ? & ?). split_and!; [done..|lia].
  - destruct (AddFromPacket_entries c now packet m Hmax Hp Hm0) as (c' & E & Hm' & Hsub & Hsz' & _).
    exists c'. split; [done|]. split_and!; [lia|lia|]. intros k e He.
    apply (lookup_weaken _ _ _ _ He), merged_inv in Hsub as [Hold|(a & Ha & ->)].
    + destruct (Hes _ _ Hold) as (? & ? & ?). split_and!; [done..|lia].
    + destruct (Hm _ _ Ha) as [? ?]. split_and!; [done|by eexists|]. apply ttlToExpiry_bounds. lia.
Qed.

(** A packet with answers [m] turns the cache into the merge of the live
    entries with the answers (a live shorter owner is kept, the same owner
    is refreshed, anything else is replaced), cut down to a part of it only
    when it exceeds the cap. *)
Theorem dns_cache_merge c now packet m : 0 <= maxEntries c ->
  parseDNSResponseIPv4 packet = Ret m -> m <> ∅ ->
  exists c', AddFromPacket c now packet = Ret c' /\
    entries c' ⊆ merged now (entries c) m /\
    (Z.of_nat (size (merged now (entries c) m)) <= maxEntries c -> entries c' = merged now (entries c) m).
Proof.
  intros H1 H2 H3. destruct (AddFromPacket_entries c now packet m H1 H2 H3) as (c' & ? & _ & ? & _ & ?). eauto.
Qed.

(** A lookup answers only with a live entry of the address's 4-byte form,
    and once an hour has passed since the last packet it answers unknown. *)
Theorem dns_lookup_fresh c t now ip name prov : cache_inv t c -> LookupProvenance c now ip = (name, prov) ->
  ((name, prov) = ([], unknown) \/
   exists v4 e, To4 ip = Some v4 /\ entries c !! v4 = Some e /\ Unix now < de_expires e /\
     name = de_name e /\ prov = dns_observed) /\
  (Unix t + dnsMaxTTLSec <= Unix now -> (name, prov) = ([], unknown)).
Proof.
  intros (_ & _ & Hes). unfold LookupProvenance. destruct (To4 ip) as [v4|] eqn:E4; [|intros <-; auto].
  rewrite copy_array_exact by by eapply To4_length.
  destruct (entries c !! v4) as [e|] eqn:Ee; [|intros <-; auto].
  destruct (_ <=? _) eqn:El; z_bool; [intros <-; auto|]. intros [= <- <-]. split.
  - right. eauto 10.
  - destruct (Hes _ _ Ee) as (_ & _ & ?). lia.
Qed.
End Properties.

Section SyncProperty.
Context {M : Type} `{UnicodeCase} `{!BpfMapOps bytes bytes M} `{!BpfMapLaws bytes bytes M} `{!RangeOrder bytes}.

(** C8: whatever the kernel maps hold is in the cache under the same owner
    (cut to the kernel's buffer), and [AddFromPacket] keeps it so on every
    packet unless the failure callback fires. *)
Theorem dns_kernel_agreement (c c' : DNSCache M) t now packet n :
  wf_bytes packet -> cache_inv t c -> in_sync c -> onBPFFailure c = Some n ->
  AddFromPacket c now packet = Ret c' ->
  exists n', onBPFFailure c' = Some n' /\ n <= n' /\ (n' = n -> in_sync c').
Proof.
  intros Hw (_ & _ & Hk) Hs Hn E.
  destruct (AddFromPacket_sync c now packet c' Hw) as [Hg Hstep]; [|done|].
  { intros k e He. by destruct (Hk _ _ He). }
  destruct (Hg n Hn) as (n' & Hn' & ?). exists n'. split_and!; [done..|]. intros ->. by eapply Hstep.
Qed.

(** What a seeding run leaves in the map. *)
Lemma seedOwners_view l (m : M) p f m' p' f' : seedOwners m l p f = (m', p', f') ->
  forall k v, bm_view m' !! k = Some v ->
    bm_view m !! k = Some v \/ exists name, (k, name) ∈ l /\ name <> [] /\ v = bpfValue name.
Proof.
  revert m p f. induction l as [|[ip name] l IH]; intros m p f E k v Hk; cbn [seedOwners] in E; [simplify_eq; auto|].
  case_decide as Hname; [destruct (IH _ _ _ E k v Hk) as [?|(? & ? & ?)]; [auto|right; eexists; split; [by right|done]]|].
  rewrite ownerBPFValue_val in E. destruct (bm_update m ip (bpfValue name)) as [m1 err] eqn:Eu.
  assert (bm_view m1 !! k = Some v ->
    bm_view m !! k = Some v \/ exists name0, (k, name0) ∈ (ip, name) :: l /\ name0 <> [] /\ v = bpfValue name0) as H1.
  { intros Hv. destruct err as [e|]; [rewrite (bm_update_err _ _ _ _ _ Eu) in Hv; auto|].
    destruct (bm_update_ok _ _ _ _ Eu) as [Hs Ho]. destruct (decide (k = ip)) as [->|Hne].
    - right. exists name. split; [by left|]. split; [done|]. congruence.
    - left. destruct (Ho k Hne); congruence. }
  destruct err; (destruct (IH _ _ _ E k v Hk) as [?|(? & ? & ?)]; [auto|right; eexists; split; [by right|done]]).
Qed.

Lemma seedOwners_count l (m : M) p n m' p' f' : seedOwners m l p (Some n) = (m', p', f') ->
  exists n', f' = Some n' /\ n <= n' /\ p <= p' /\
    (p' - p) + (n' - n) = Z.of_nat (length (filter (fun kv => kv.2 <> []) l)).
Proof.
  revert m p n. induction l as [|[ip name] l IH]; intros m p n E; cbn [seedOwners] in E.
  { simplify_eq. eexists. split; [done|]. cbn. lia. }
  rewrite filter_cons. cbn [snd]. case_decide as Hname.
  { rewrite decide_False by tauto. eauto. }
  rewrite decide_True by done. cbn [length]. destruct (bm_update _ _ _) as [m1 [e|]]; cbn [bump option_map] in E;
    destruct (IH _ _ _ E) as (n' & -> & ? & ? & ?); eexists; (split; [done|]); lia.
Qed.

(** Seeding the enforcement map writes trusted owners only: what the map
    holds afterwards it held before or is the owner the resolver gave for
    that address; and every owner with a name is either counted as
    programmed or reported as a failure. *)
Theorem seed_owners_trusted (m : M) owners n m' p f : owners <> ∅ ->
  seedDefendOwners (Some m) owners (Some n) = (Some m', p, f) ->
  (forall k v, bm_view m' !! k = Some v ->
     bm_view m !! k = Some v \/ exists name, owners !! k = Some name /\ name <> [] /\ v = bpfValue name) /\
  (exists n', f = Some n' /\ n <= n' /\ 0 <= p /\
     p + (n' - n) = Z.of_nat (size (filter (fun kv : bytes * bytes => kv.2 <> []) owners))).
Proof.
  intros Hne. unfold seedDefendOwners. rewrite decide_False by done.
  destruct (seedOwners _ _ _ _) as [[m1 p1] f1] eqn:E. intros [= -> -> ->]. split.
  - intros k v Hk. destruct (seedOwners_view _ _ _ _ _ _ _ E k v Hk) as [?|(name & Hin & ?)]; [auto|].
    apply elem_of_range in Hin. eauto.
  - destruct (seedOwners_count _ _ _ _ _ _ _ E) as (n' & -> & ? & ? & Hc). exists n'. split_and!; [done|done|lia|].
    rewrite <- Z.sub_0_r with (n := p). rewrite Hc. f_equal.
    rewrite <- length_map_to_list. rewrite (range_perm 0 owners). apply Permutation_length. symmetry.
    apply map_to_list_filter.
Qed.
End SyncProperty.

(** * Examples and witnesses *)

Module Witness.
#[local] Existing Instance ascii_case.
#[local] Existing Instance plain_order.

Abbreviation kmap := (gmap bytes bytes).
Definition packet : bytes := enc_response [str "Ex"; str "com"] 0 1 0x80 0 (0, 0) 1 1 [mkRR (Suffixed [] 0) 1 1 60 [1; 2; 3; 4]] [].
Definition answers : gmap bytes ipv4DNSAnswer := {[ [1; 2; 3; 4] := mkAnswer (str "Ex.com") 60 ]}.
Definition cache : DNSCache kmap := mkCache ∅ 2 [Some ∅; None] (Some 0).
Definition after : DNSCache kmap :=
  mkCache {[ [1; 2; 3; 4] := mkEntry (str "ex.com") 160 ]} 2
    [Some {[ [1; 2; 3; 4] := bpfValue (str "ex.com") ]}; None] (Some 0).

Lemma packet_wf : wf_bytes packet.
Proof. unfold wf_bytes. by apply (bool_decide_unpack _). Qed.

Lemma cache_ok : cache_inv 0 cache.
Proof. split_and!; [done..|]. intros k e. cbn. by rewrite lookup_empty. Qed.

Example add_example : AddFromPacket cache (100 * second) packet = Ret after.
Proof. vm_compute. reflexivity. Qed.

Lemma dns_cache_invariant_witness : exists c',
  AddFromPacket cache (100 * second) packet = Ret c' /\ cache_inv (100 * second) c'.
Proof. apply (dns_cache_invariant cache 0 (100 * second) packet packet_wf); [done|apply cache_ok]. Defined.

Lemma dns_cache_merge_witness : exists c', AddFromPacket cache (100 * second) packet = Ret c' /\
  entries c' ⊆ merged (100 * second) (entries cache) answers /\
  (Z.of_nat (size (merged (100 * second) (entries cache) answers)) <= 2 ->
   entries c' = merged (100 * second) (entries cache) answers).
Proof.
  apply (dns_cache_merge cache (100 * second) packet answers); [done|vm_compute; reflexivity|].
  apply map_non_empty_singleton.
Defined.

Lemma after_ok : cache_inv (100 * second) after.
Proof.
  split; [by vm_compute|]. split; [by vm_compute|]. intros k e Hk.
  unfold after, entries in Hk. apply lookup_singleton_Some in Hk as [<- <-].
  split; [done|]. split; [by exists (str "Ex.com")|by vm_compute].
Qed.

Lemma dns_lookup_fresh_witness :
  (LookupProvenance after (159 * second) [1; 2; 3; 4] = (str "ex.com", dns_observed)) /\
  (Unix (100 * second) + dnsMaxTTLSec <= Unix (5000 * second) ->
     (([], unknown) : bytes * bytes) = ([], unknown)).
Proof.
  split; [by vm_compute|].
  apply (dns_lookup_fresh after (100 * second) (5000 * second) [1; 2; 3; 4]); [apply after_ok|by vm_compute].
Defined.

Lemma dns_kernel_agreement_witness : exists n', onBPFFailure after = Some n' /\ 0 <= n' /\ (n' = 0 -> in_sync after).
Proof.
  apply (dns_kernel_agreement cache after 0 (100 * second) packet 0 packet_wf);
    [apply cache_ok| |done|apply add_example].
  intros k v (m & Hin & Hk). cbn in Hin. apply list_elem_of_In in Hin.
  destruct Hin as [[= <-]|[?|[]]]; [|done].
  change ((∅ : kmap) !! k = Some v) in Hk. by rewrite lookup_empty in Hk.
Defined.

Definition owners : gmap bytes bytes := {[ [1; 2; 3; 4] := str "ex.com"; [5; 6; 7; 8] := [] ]}.

Lemma seed_owners_trusted_witness :
  (forall k v, bm_view ({[ [1; 2; 3; 4] := bpfValue (str "ex.com") ]} : kmap) !! k = Some v ->
     bm_view (∅ : kmap) !! k = Some v \/ exists name, owners !! k = Some name /\ name <> [] /\ v = bpfValue name) /\
  exists n', Some 0 = Some n' /\ 0 <= n' /\ 0 <= 1 /\
    1 + (n' - 0) = Z.of_nat (size (filter (fun kv : bytes * bytes => kv.2 <> []) owners)).
Proof.
  apply (seed_owners_trusted (∅ : kmap) owners 0 ({[ [1; 2; 3; 4] := bpfValue (str "ex.com") ]} : kmap) 1 (Some 0)).
  - apply insert_non_empty.
  - vm_compute. reflexivity.
Defined.
End Witness.
