(* ===== verification/TlsHello.v ===== *)
(** internal/telemetry/tls_clienthello.go: the SNI parser.

    It runs on captured socket bytes, so index and slice expressions are kept
    as [go] computations.  The extension loop drops at least four bytes per
    turn; its fuel is the length of the block, shown to be enough. *)
From S2P Require Import Prelude GoStrings.

Open Scope Z_scope.

Section Parser.
Context `{UnicodeCase}.

(** The body of the server_name extension. *)
Definition serverName (block : bytes) : go (option bytes) :=
  if len block <? 2 then Ret None
  else
    listLen ← (slice block 0 2 ≫= BE_Uint16);
    if (listLen <? 3) || (len block <? 2 + listLen) then Ret None
    else
      list ← slice block 2 (2 + listLen);
      if len list <? 3 then Ret None
      else
        kind ← idx list 0;
        if negb (kind =? 0) then Ret None
        else
          nameLen ← (slice list 1 3 ≫= BE_Uint16);
          if (nameLen <=? 0) || (len list <? 3 + nameLen) then Ret None
          else
            name ← slice list 3 (3 + nameLen);
            let raw := ToLower (TrimSpace name) in
            if decide (raw = []) then Ret None
            else if 255 <? len raw then Ret None
            else Ret (Some raw).

Fixpoint scanExts (fuel : nat) (ext : bytes) : go (option bytes) :=
  match fuel with
  | O => Ret None
  | S fuel' =>
    if len ext <? 4 then Ret None
    else
      typ ← (slice ext 0 2 ≫= BE_Uint16);
      ln ← (slice ext 2 4 ≫= BE_Uint16);
      if len ext <? 4 + ln then Ret None
      else
        block ← slice ext 4 (4 + ln);
        ext' ← slice_from ext (4 + ln);
        if negb (typ =? 0) then scanExts fuel' ext' else serverName block
  end.

Definition scanServerNameList (ext : bytes) : go (option bytes) := scanExts (S (length ext)) ext.

(** The ClientHello body from the session id on. *)
Definition parseHelloBody (ch : bytes) : go (option bytes) :=
  let i := 34 in
  if len ch <=? i then Ret None
  else
    sidLen ← idx ch i;
    let i := i + 1 in
    if len ch <? i + sidLen then Ret None
    else
      let i := i + sidLen in
      if len ch <? i + 2 then Ret None
      else
        csLen ← (slice ch i (i + 2) ≫= BE_Uint16);
        let i := i + 2 in
        if len ch <? i + csLen then Ret None
        else
          let i := i + csLen in
          if len ch <=? i then Ret None
          else
            compLen ← idx ch i;
            let i := i + 1 in
            if len ch <? i + compLen then Ret None
            else
              let i := i + compLen in
              if len ch <? i + 2 then Ret None
              else
                extLen ← (slice ch i (i + 2) ≫= BE_Uint16);
                let i := i + 2 in
                if extLen =? 0 then Ret None
                else
                  let extEnd := if len ch <? i + extLen then len ch else i + extLen in
                  ext ← slice ch i extEnd;
                  scanServerNameList ext.

(** The handshake header. *)
Definition parseHandshake (hs : bytes) : go (option bytes) :=
  if len hs <? 4 then Ret None
  else
    t ← idx hs 0;
    if negb (t =? 1) then Ret None
    else
      a ← idx hs 1;
      b ← idx hs 2;
      c ← idx hs 3;
      let chLen := Z.lor (Z.lor (Z.shiftl a 16) (Z.shiftl b 8)) c in
      if chLen <? 34 then Ret None
      else
        let chEnd := if len hs <? 4 + chLen then len hs else 4 + chLen in
        ch ← slice hs 4 chEnd;
        parseHelloBody ch.

Definition ParseClientHelloSNI (b : bytes) : go (option bytes) :=
  if len b <? 43 then Ret None
  else
    t ← idx b 0;
    if negb (t =? 0x16) then Ret None
    else
      ver ← (slice b 1 3 ≫= BE_Uint16);
      if (ver <? 0x0301) || (0x0304 <? ver) then Ret None
      else
        recLen ← (slice b 3 5 ≫= BE_Uint16);
        if recLen <? 38 then Ret None
        else
          let hsEnd := if len b <? 5 + recLen then len b else 5 + recLen in
          hs ← slice b 5 hsEnd;
          parseHandshake hs.

(** * The parser never panics *)

(** A name the parser reports: not empty, at most 255 bytes, lower-cased. *)
Definition sni_ok (r : option bytes) : Prop :=
  forall s, r = Some s -> s <> [] /\ len s <= 255 /\ exists raw, s = ToLower (TrimSpace raw).

Lemma sni_none : sni_ok None.
Proof. by intros s. Qed.

Ltac stop := match goal with |- returns (if ?c then Ret None else _) _ =>
  destruct c eqn:?; [apply returns_ret, sni_none|]; z_bool end.

Lemma serverName_safe block : wf_bytes block -> returns (serverName block) sni_ok.
Proof.
  intros Hw. unfold serverName, BE_Uint16. stop. do 2 go_step. stop. go_step. stop. go_step. stop.
  do 2 go_step. stop. go_step. case_decide; [apply returns_ret, sni_none|]. stop. go_step.
  intros s [= <-]. split_and!; [done|lia|eauto].
Qed.

Lemma scanExts_safe n ext : wf_bytes ext -> returns (scanExts n ext) sni_ok.
Proof.
  revert ext. induction n as [|n IH]; intros ext Hw; cbn [scanExts]; [apply sni_none|].
  unfold BE_Uint16, slice_from. stop. do 4 go_step. stop. do 2 go_step.
  case_match; [by apply IH|by apply serverName_safe].
Qed.

Lemma parseHelloBody_safe ch : wf_bytes ch -> returns (parseHelloBody ch) sni_ok.
Proof.
  intros Hw. unfold parseHelloBody, BE_Uint16. cbv zeta. unfold is_byte in *. stop. go_step. unfold is_byte in *.
  stop. stop. do 2 go_step. stop. stop. go_step. unfold is_byte in *. stop. stop. do 2 go_step. stop.
  case_match; z_bool; go_step; by apply scanExts_safe.
Qed.

Lemma parseHandshake_safe hs : wf_bytes hs -> returns (parseHandshake hs) sni_ok.
Proof.
  intros Hw. unfold parseHandshake. stop. go_step. stop. do 3 go_step. stop.
  case_match; z_bool; go_step; by apply parseHelloBody_safe.
Qed.

Lemma ParseClientHelloSNI_safe b : wf_bytes b -> returns (ParseClientHelloSNI b) sni_ok.
Proof.
  intros Hw. unfold ParseClientHelloSNI, BE_Uint16. stop. go_step. stop. do 2 go_step. stop. do 2 go_step. stop.
  case_match; z_bool; go_step; by apply parseHandshake_safe.
Qed.

Lemma ParseClientHelloSNI_total b : wf_bytes b -> exists p, ParseClientHelloSNI b = Ret p.
Proof. intros Hw. pose proof (ParseClientHelloSNI_safe b Hw) as Hs. destruct (ParseClientHelloSNI b); [eauto|done]. Qed.

(** More fuel than the block has bytes changes nothing. *)
Lemma scanExts_fuel n m ext : (length ext < n)%nat -> (length ext < m)%nat -> scanExts n ext = scanExts m ext.
Proof.
  revert m ext. induction n as [|n IH]; intros m ext Hn Hm; [lia|]. destruct m as [|m]; [lia|].
  cbn [scanExts]. destruct (len ext <? 4) eqn:E; [done|].
  destruct (slice ext 0 2 ≫= BE_Uint16) as [typ|]; [|done]. cbn [mbind go_bind].
  destruct (slice ext 2 4 ≫= BE_Uint16) as [ln|]; [|done]. cbn [mbind go_bind].
  destruct (len ext <? 4 + ln); [done|]. destruct (slice ext 4 (4 + ln)) as [blk|] eqn:Eb; [|done]. cbn [mbind go_bind].
  destruct (slice_from ext (4 + ln)) as [ext'|] eqn:Ee; [|done]. cbn [mbind go_bind].
  case_match; [|done]. apply len_slice in Eb, Ee. pose proof (len_nonneg blk). unfold len in *. apply IH; lia.
Qed.

(** * Round trip: the TLS wire format *)

Definition enc_ext (e : Z * bytes) : bytes := be_bytes 2 e.1 ++ be_bytes 2 (len e.2) ++ e.2.
Definition sni_data (name : bytes) : bytes :=
  be_bytes 2 (3 + len name) ++ [0] ++ be_bytes 2 (len name) ++ name.

(** The part of a ClientHello body up to and including the server_name
    extension; [es] are the extensions before it. *)
Definition enc_body (random sid cs comp : bytes) (extLen : Z) (es : list (Z * bytes)) (name : bytes) : bytes :=
  random ++ [len sid] ++ sid ++ be_bytes 2 (len cs) ++ cs ++ [len comp] ++ comp ++ be_bytes 2 extLen ++
  concat (map enc_ext es) ++ enc_ext (0, sni_data name).

Definition ext_ok (e : Z * bytes) : Prop := 0 < e.1 < 65536 /\ len e.2 < 65536.
Definition name_ok (name : bytes) : Prop :=
  0 < len name <= 65000 /\ TrimSpace name <> [] /\ ToLower (TrimSpace name) <> [] /\
  len (ToLower (TrimSpace name)) <= 255.

(** [be16_at Hp p pre v t]: read a 16-bit field [v] of [p] after [pre]. *)
Lemma be16_at p pre v t lo hi : p = pre ++ be_bytes 2 v ++ t -> lo = len pre -> hi = len pre + 2 -> 0 <= v < 65536 ->
  (slice p lo hi ≫= BE_Uint16) = Ret v.
Proof.
  intros -> -> -> Hv. rewrite (slice_app pre (be_bytes 2 v) t) by (try done; len_lia). cbn [mbind go_bind].
  by apply get_be_bytes.
Qed.

Lemma serverName_enc name : name_ok name -> serverName (sni_data name) = Ret (Some (ToLower (TrimSpace name))).
Proof.
  intros (Hl & _ & Hne & H255). unfold serverName. set (p := sni_data name).
  assert (len p = 5 + len name) as Hp by (unfold p, sni_data; len_lia).
  replace (len p <? 2) with false by (symmetry; z_bool; lia).
  rewrite (be16_at p [] (3 + len name) ([0] ++ be_bytes 2 (len name) ++ name)) by (try done; lia). cbn [mbind go_bind].
  replace ((3 + len name <? 3) || _) with false by (symmetry; z_bool; lia).
  set (l := [0] ++ be_bytes 2 (len name) ++ name). assert (len l = 3 + len name) as Hll by (unfold l; len_lia).
  rewrite (slice_at p (be_bytes 2 (3 + len name)) l []) by (unfold p, sni_data; rewrite ?app_nil_r; try done; len_lia).
  cbn [mbind go_bind]. replace (len l <? 3) with false by (symmetry; z_bool; lia).
  replace (idx l 0) with (Ret 0) by done. cbn [mbind go_bind]. change (negb (0 =? 0)) with false. cbv iota.
  rewrite (be16_at l [0] (len name) name) by (try done; lia). cbn [mbind go_bind].
  replace ((len name <=? 0) || _) with false by (symmetry; z_bool; lia).
  rewrite (slice_at l ([0] ++ be_bytes 2 (len name)) name []) by (unfold l; rewrite ?app_nil_r; try done; len_lia).
  cbn [mbind go_bind]. rewrite decide_False by done.
  by replace (255 <? _) with false by (symmetry; z_bool; lia).
Qed.

(** One turn of the loop on an encoded extension. *)
Lemma scanExts_step n e t : 0 <= e.1 < 65536 -> len e.2 < 65536 ->
  scanExts (S n) (enc_ext e ++ t) = if negb (e.1 =? 0) then scanExts n t else serverName e.2.
Proof.
  intros H1 H2. destruct e as [typ data]. cbn [fst snd] in *. cbn [scanExts].
  pose proof (len_nonneg data). pose proof (len_nonneg t).
  set (p := enc_ext (typ, data) ++ t).
  assert (p = be_bytes 2 typ ++ be_bytes 2 (len data) ++ data ++ t) as Hp
    by (unfold p, enc_ext; cbn [fst snd]; by rewrite <- !app_assoc).
  assert (len p = 4 + len data + len t) as Hl by (rewrite Hp; len_lia).
  replace (len p <? 4) with false by (symmetry; z_bool; lia).
  rewrite (be16_at p [] typ (be_bytes 2 (len data) ++ data ++ t) 0 2) by done. cbn [mbind go_bind].
  rewrite (be16_at p (be_bytes 2 typ) (len data) (data ++ t) 2 4) by (try done; lia). cbn [mbind go_bind].
  replace (len p <? _) with false by (symmetry; z_bool; lia).
  rewrite (slice_at p (be_bytes 2 typ ++ be_bytes 2 (len data)) data t 4 (4 + len data))
    by first [rewrite Hp; by rewrite <- !app_assoc|len_lia]. cbn [mbind go_bind].
  unfold slice_from. rewrite (slice_at p (be_bytes 2 typ ++ be_bytes 2 (len data) ++ data) t [])
    by first [rewrite Hp, app_nil_r; by rewrite <- !app_assoc|len_lia]. done.
Qed.

Lemma scanExts_enc es name t n : Forall ext_ok es -> name_ok name -> (length es < n)%nat ->
  scanExts n (concat (map enc_ext es) ++ enc_ext (0, sni_data name) ++ t) = Ret (Some (ToLower (TrimSpace name))).
Proof.
  intros Hes Hn. revert n. induction Hes as [|e es [He1 He2] _ IH]; intros n Hlt; (destruct n as [|n]; [cbn in Hlt; lia|]).
  - cbn [map concat app]. rewrite scanExts_step; [by apply serverName_enc|done|].
    cbn [snd]. unfold sni_data. destruct Hn as [Hl _]. len_lia.
  - cbn [map concat]. rewrite <- app_assoc, scanExts_step by lia.
    replace (e.1 =? 0) with false by (symmetry; z_bool; lia). apply IH. cbn in Hlt. lia.
Qed.

(** The extension block of a ClientHello, up to the server name. *)
Definition enc_exts (es : list (Z * bytes)) (name : bytes) : bytes :=
  concat (map enc_ext es) ++ enc_ext (0, sni_data name).

Lemma length_enc_exts es name : (length es < length (enc_exts es name))%nat.
Proof.
  unfold enc_exts. rewrite length_app. assert (length es <= length (concat (map enc_ext es)))%nat.
  { induction es as [|e es IH]; [done|]. cbn [map concat length]. rewrite length_app.
    unfold enc_ext at 1. rewrite !length_app, length_be_bytes. lia. }
  assert (0 < length (enc_ext (0%Z, sni_data name)))%nat; [|lia].
  unfold enc_ext. rewrite length_app, length_be_bytes. lia.
Qed.

Lemma scanServerNameList_enc es name t : Forall ext_ok es -> name_ok name ->
  scanServerNameList (enc_exts es name ++ t) = Ret (Some (ToLower (TrimSpace name))).
Proof.
  intros. unfold scanServerNameList, enc_exts. rewrite <- app_assoc. apply scanExts_enc; [done..|].
  pose proof (length_enc_exts es name) as Hl. unfold enc_exts in Hl. rewrite app_assoc, length_app. lia.
Qed.

(** The lengths a sender may declare: at least what is present. *)
Record hello := mkHello {
  h_random : bytes; h_sid : bytes; h_cs : bytes; h_comp : bytes; h_extLen : Z;
  h_exts : list (Z * bytes); h_name : bytes;
  h_ver : Z; h_recLen : Z; h_chLen : Z;
}.

Definition hello_body (h : hello) : bytes :=
  enc_body (h_random h) (h_sid h) (h_cs h) (h_comp h) (h_extLen h) (h_exts h) (h_name h).
Definition enc_hello (h : hello) : bytes :=
  [0x16] ++ be_bytes 2 (h_ver h) ++ be_bytes 2 (h_recLen h) ++ [1] ++ be_bytes 3 (h_chLen h) ++ hello_body h.

Definition hello_ok (h : hello) : Prop :=
  len (h_random h) = 34 /\ len (h_sid h) < 256 /\ len (h_cs h) < 65536 /\ len (h_comp h) < 256 /\
  len (enc_exts (h_exts h) (h_name h)) <= h_extLen h < 65536 /\
  Forall ext_ok (h_exts h) /\ name_ok (h_name h) /\
  0x0301 <= h_ver h <= 0x0304 /\
  len (hello_body h) <= h_chLen h < 2 ^ 24 /\ 4 + len (hello_body h) <= h_recLen h < 65536.

Lemma parseHelloBody_enc h t : hello_ok h ->
  parseHelloBody (hello_body h ++ t) = Ret (Some (ToLower (TrimSpace (h_name h)))).
Proof.
  intros (Hr & Hsid & Hcs & Hcomp & Hext & Hes & Hname & _).
  destruct h as [rnd sid cs comp extLen es name ver recLen chLen]. cbn [h_random h_sid h_cs h_comp h_extLen h_exts h_name] in *. set (exts := enc_exts es name) in *.
  set (p := hello_body _ ++ t).
  assert (p = rnd ++ len sid :: sid ++ be_bytes 2 (len cs) ++ cs ++ len comp :: comp ++ be_bytes 2 extLen ++ exts ++ t) as Hp
    by (unfold p, hello_body, enc_body, exts, enc_exts; cbn [h_random h_sid h_cs h_comp h_extLen h_exts h_name];
        repeat (rewrite <- app_assoc; cbn [app]); done).
  assert (0 < len exts) as He0 by (pose proof (length_enc_exts es name); unfold exts, len; lia).
  clearbody p. assert (len p = 34 + 1 + len sid + 2 + len cs + 1 + len comp + 2 + len exts + len t) as Hl by (rewrite Hp; len_lia).
  pose proof (len_nonneg sid). pose proof (len_nonneg cs). pose proof (len_nonneg comp). pose proof (len_nonneg t).
  unfold parseHelloBody. cbv zeta. replace (len p <=? 34) with false by (symmetry; z_bool; lia).
  rewrite Hp at 1. rewrite (idx_app rnd (len sid) _ 34) by done. cbn [mbind go_bind].
  replace (len p <? 34 + 1 + len sid) with false by (symmetry; z_bool; lia).
  replace (len p <? 34 + 1 + len sid + 2) with false by (symmetry; z_bool; lia).
  rewrite (be16_at p (rnd ++ len sid :: sid) (len cs) (cs ++ len comp :: comp ++ be_bytes 2 extLen ++ exts ++ t))
    by first [rewrite Hp; by rewrite <- !app_assoc|len_lia]. cbn [mbind go_bind].
  set (i := 34 + 1 + len sid + 2 + len cs). replace (len p <? i) with false by (symmetry; z_bool; lia).
  replace (len p <=? i) with false by (symmetry; z_bool; lia).
  rewrite Hp at 1. replace (rnd ++ len sid :: sid ++ be_bytes 2 (len cs) ++ cs ++ len comp :: comp ++ be_bytes 2 extLen ++ exts ++ t)
    with ((rnd ++ len sid :: sid ++ be_bytes 2 (len cs) ++ cs) ++ len comp :: comp ++ be_bytes 2 extLen ++ exts ++ t)
    by (repeat (rewrite <- app_assoc; cbn [app]); done).
  rewrite (idx_app (rnd ++ len sid :: sid ++ be_bytes 2 (len cs) ++ cs) (len comp) _ i) by (unfold i; len_lia).
  cbn [mbind go_bind]. set (j := i + 1 + len comp). replace (len p <? j) with false by (symmetry; z_bool; lia).
  replace (len p <? j + 2) with false by (symmetry; z_bool; lia).
  set (pre := rnd ++ len sid :: sid ++ be_bytes 2 (len cs) ++ cs ++ len comp :: comp).
  assert (p = pre ++ be_bytes 2 extLen ++ exts ++ t) as Hp2
    by (rewrite Hp; unfold pre; repeat (rewrite <- app_assoc; cbn [app]); done).
  assert (len pre = j) as Hpre by (unfold pre, j, i; len_lia).
  rewrite (be16_at p pre extLen (exts ++ t) j (j + 2)) by (first [done|lia]). cbn [mbind go_bind].
  replace (extLen =? 0) with false by (symmetry; z_bool; lia).
  destruct (slice_clip p (pre ++ be_bytes 2 extLen) exts t (j + 2)
    (if len p <? j + 2 + extLen then len p else j + 2 + extLen)) as [t' ->];
    [rewrite Hp2; by rewrite <- app_assoc|len_lia|case_match; z_bool; len_lia|].
  cbn [mbind go_bind]. by apply scanServerNameList_enc.
Qed.

Lemma be_bytes_3 v : be_bytes 3 v = [v / 256 / 256 mod 256; v / 256 mod 256; v mod 256].
Proof. done. Qed.

Lemma hello_body_34 h : hello_ok h -> 34 <= len (hello_body h).
Proof.
  intros (Hr & _). unfold hello_body, enc_body. rewrite len_app, Hr.
  match goal with |- 34 <= 34 + len ?l => pose proof (len_nonneg l); lia end.
Qed.

Lemma parseHandshake_enc h t : hello_ok h ->
  parseHandshake ([1] ++ be_bytes 3 (h_chLen h) ++ hello_body h ++ t) = Ret (Some (ToLower (TrimSpace (h_name h)))).
Proof.
  intros Hok. pose proof (hello_body_34 h Hok) as Hb34.
  pose proof Hok as (_ & _ & _ & _ & _ & _ & _ & _ & [Hch Hch2] & _). set (v := h_chLen h) in *.
  set (p := [1] ++ be_bytes 3 v ++ hello_body h ++ t).
  assert (len p = 4 + len (hello_body h) + len t) as Hl by (unfold p; len_lia). pose proof (len_nonneg t).
  unfold parseHandshake. replace (len p <? 4) with false by (symmetry; z_bool; lia).
  unfold p. rewrite be_bytes_3. replace (idx _ 0) with (Ret 1) by done. cbn [mbind go_bind].
  change (negb (1 =? 1)) with false. cbv iota.
  replace (idx _ 1) with (Ret (v / 256 / 256 mod 256)) by done.
  replace (idx _ 2) with (Ret (v / 256 mod 256)) by done.
  replace (idx _ 3) with (Ret (v mod 256)) by done. cbn [mbind go_bind].
  rewrite be3_lor by (unfold is_byte; apply Z.mod_pos_bound; lia).
  replace (v / 256 / 256 mod 256 * 65536 + v / 256 mod 256 * 256 + v mod 256) with v
    by (pose proof (Z.div_mod v 256); pose proof (Z.div_mod (v / 256) 256);
        rewrite (Z.mod_small (v / 256 / 256)) by
          (split; [apply Z.div_pos; [apply Z.div_pos|]; lia|
            apply Z.div_lt_upper_bound; [lia|apply Z.div_lt_upper_bound; lia]]); lia).
  replace (v <? 34) with false by (symmetry; z_bool; lia).
  rewrite <- be_bytes_3. fold p.
  destruct (slice_clip p ([1] ++ be_bytes 3 v) (hello_body h) t 4 (if len p <? 4 + v then len p else 4 + v)) as [t' E];
    [unfold p; by rewrite <- app_assoc|done|case_match; z_bool; len_lia|].
  rewrite E. cbn [mbind go_bind]. by apply parseHelloBody_enc.
Qed.

(** C37: any buffer that starts with a ClientHello up to its server_name
    extension parses to that name, trimmed and lower-cased: extensions
    before it are skipped, what follows (or is cut off by the capture) does
    not matter. *)
Theorem client_hello_roundtrip h t : hello_ok h ->
  ParseClientHelloSNI (enc_hello h ++ t) = Ret (Some (ToLower (TrimSpace (h_name h)))).
Proof.
  intros Hok. pose proof (hello_body_34 h Hok) as Hb34.
  pose proof Hok as (_ & _ & _ & _ & _ & _ & _ & Hver & _ & Hrec).
  set (p := enc_hello h ++ t). set (rest := [1] ++ be_bytes 3 (h_chLen h) ++ hello_body h).
  assert (p = [0x16] ++ be_bytes 2 (h_ver h) ++ be_bytes 2 (h_recLen h) ++ rest ++ t) as Hp
    by (unfold p, enc_hello, rest; repeat (rewrite <- app_assoc; cbn [app]); done).
  assert (len rest = 4 + len (hello_body h)) as Hrest by (unfold rest; len_lia).
  assert (len p = 5 + len rest + len t) as Hl by (rewrite Hp; len_lia). pose proof (len_nonneg t).
  unfold ParseClientHelloSNI. replace (len p <? 43) with false by (symmetry; z_bool; lia).
  replace (idx p 0) with (Ret 0x16) by done. cbn [mbind go_bind]. change (negb (0x16 =? 0x16)) with false. cbv iota.
  clearbody p. rewrite (be16_at p [0x16] (h_ver h) (be_bytes 2 (h_recLen h) ++ rest ++ t) 1 3) by first [done|lia].
  cbn [mbind go_bind]. replace ((h_ver h <? _) || _) with false by (symmetry; z_bool; lia).
  rewrite (be16_at p ([0x16] ++ be_bytes 2 (h_ver h)) (h_recLen h) (rest ++ t) 3 5) by first [done|lia].
  cbn [mbind go_bind]. replace (h_recLen h <? 38) with false by (symmetry; z_bool; lia).
  destruct (slice_clip p ([0x16] ++ be_bytes 2 (h_ver h) ++ be_bytes 2 (h_recLen h)) rest t 5
    (if len p <? 5 + h_recLen h then len p else 5 + h_recLen h)) as [t' E];
    [rewrite Hp; by rewrite <- !app_assoc|done|len_simpl; case_match; z_bool; change (len [0x16]) with 1; lia|].
  rewrite E. cbn [mbind go_bind]. unfold rest. rewrite <- !app_assoc. by apply parseHandshake_enc.
Qed.

(** The SNI parser returns on every byte sequence, and a name it
    reports is not empty, at most 255 bytes long and in lower case. *)
Theorem client_hello_total b : wf_bytes b -> exists r, ParseClientHelloSNI b = Ret r /\ sni_ok r.
Proof. intros Hw. apply returns_exists. by apply ParseClientHelloSNI_safe. Qed.
End Parser.

(** * Witnesses *)

Module Witness.
Definition ex_hello : hello := {|
  h_random := replicate 34 7; h_sid := [1; 2]; h_cs := [0x13; 0x01]; h_comp := [0];
  h_extLen := 60; h_exts := [(10, [0; 2; 0; 29])]; h_name := str "Example.com ";
  h_ver := 0x0301; h_recLen := 300; h_chLen := 296 |}.

Lemma ex_hello_ok : hello_ok (H := ascii_case) ex_hello.
Proof.
  unfold hello_ok, name_ok. split_and!; try (by vm_compute); repeat constructor; by vm_compute.
Qed.

Lemma client_hello_roundtrip_witness :
  ParseClientHelloSNI (H := ascii_case) (enc_hello ex_hello ++ [0; 1]) = Ret (Some (str "example.com")).
Proof. exact (client_hello_roundtrip (H := ascii_case) ex_hello [0; 1] ex_hello_ok). Defined.

Lemma client_hello_total_witness : wf_bytes [0x16; 3; 1] /\
  exists r, ParseClientHelloSNI (H := ascii_case) [0x16; 3; 1] = Ret r /\ sni_ok (H := ascii_case) r.
Proof.
  assert (wf_bytes [0x16; 3; 1]) as Hw by (repeat constructor; by vm_compute).
  split; [exact Hw|]. exact (client_hello_total (H := ascii_case) [0x16; 3; 1] Hw).
Defined.
End Witness.
