(* ===== verification/TlsTrack.v ===== *)
(** internal/agent/agent_linux_tls_reassembler.go, agent_linux_ktls_tracker.go
    and quic_candidate.go: the per-flow state behind the TLS events.

    Both trackers hold their state under a mutex, so every method is one step.
    Times are nanoseconds.  A method that reads the clock several times takes
    the readings as separate arguments. *)
From S2P Require Import Prelude GoStrings GoNet BpfMap TlsHello.

Open Scope Z_scope.

(** * The ClientHello reassembler *)

Definition tlsReassemblyBufferCap : Z := 512.
Definition tlsReassemblyDefaultTTL : Z := 30 * 1000000000.
Definition tlsReassemblyDefaultMaxKey : Z := 1024.

(** [tlsReassemblyKey]: PID, destination, port. *)
Abbreviation tlsReassemblyKey := (Z * bytes * Z)%type.

Definition tlsReassemblyKeyForEvent (tgid : Z) (daddr daddr6 : bytes) (isIPv6 : bool) (dport : Z) : option tlsReassemblyKey :=
  if negb isIPv6 then Some (tgid, daddr, dport)
  else match To4 daddr6 with
       | None => None
       | Some v4 => Some (tgid, copy_array 4 v4, dport)
       end.

Record tlsReassemblyEntry := mkTlsEntry { te_buf : bytes; te_createdAt : Z; te_updatedAt : Z }.

Record tlsReassembler := mkReassembler {
  ra_ttl : Z;
  ra_maxKey : Z;
  ra_bufCap : Z;
  ra_store : gmap tlsReassemblyKey tlsReassemblyEntry;
}.

Definition newTLSReassemblerWithClock (ttl maxKey bufCap : Z) : tlsReassembler :=
  mkReassembler (if ttl <=? 0 then tlsReassemblyDefaultTTL else ttl)
    (if maxKey <=? 0 then tlsReassemblyDefaultMaxKey else maxKey)
    (if bufCap <=? 0 then tlsReassemblyBufferCap else bufCap) ∅.

Definition newTLSReassembler : tlsReassembler :=
  newTLSReassemblerWithClock tlsReassemblyDefaultTTL tlsReassemblyDefaultMaxKey tlsReassemblyBufferCap.

Record appendResult := mkResult { ar_sni : bytes; ar_parsed : bool; ar_bufferLen : Z; ar_reassembly : bool }.

Definition with_store (r : tlsReassembler) (s : gmap tlsReassemblyKey tlsReassemblyEntry) : tlsReassembler :=
  mkReassembler (ra_ttl r) (ra_maxKey r) (ra_bufCap r) s.

Section Reassembler.
Context `{UnicodeCase} `{!RangeOrder tlsReassemblyKey}.

(** The store after the sweep and the number of entries removed. *)
Definition evictExpiredLocked (r : tlsReassembler) (now : Z) : tlsReassembler * Z :=
  if (ra_ttl r <=? 0) || bool_decide (size (ra_store r) = 0%nat) then (r, 0)
  else
    let cutoff := now - ra_ttl r in
    let '(s, n) := foldl (fun '(s, n) '(k, v) =>
        if te_updatedAt v <? cutoff then (delete k s, n + 1) else (s, n))
      (ra_store r, 0) (range 0 (ra_store r)) in
    (with_store r s, n).

Definition evictOldestLocked (r : tlsReassembler) : tlsReassembler :=
  let oldest := foldl (fun (acc : option (tlsReassemblyKey * Z)) '(k, v) =>
      match acc with
      | None => Some (k, te_updatedAt v)
      | Some (_, oldestAt) => if te_updatedAt v <? oldestAt then Some (k, te_updatedAt v) else acc
      end) None (range 1 (ra_store r)) in
  match oldest with
  | None => r
  | Some (oldestKey, _) => with_store r (delete oldestKey (ra_store r))
  end.

(** [t1], [t2], [t3]: the clock at the sweep, at the creation of an entry
    and at its update. *)
Definition appendAndParse (r : tlsReassembler) (key : tlsReassemblyKey) (payload : bytes) (t1 t2 t3 : Z)
    : go (tlsReassembler * appendResult) :=
  if decide (payload = []) then Ret (r, mkResult [] false 0 false)
  else
    let r := (evictExpiredLocked r t1).1 in
    let '(r, entry, hadEntry) :=
      match ra_store r !! key with
      | Some entry => (r, entry, true)
      | None =>
        let r := if ra_maxKey r <=? Z.of_nat (size (ra_store r)) then evictOldestLocked r else r in
        (r, mkTlsEntry [] t2 0, false)
      end in
    let remaining := ra_bufCap r - len (te_buf entry) in
    buf ← (if 0 <? remaining then
             p ← (if remaining <? len payload then slice_to payload remaining else Ret payload);
             Ret (te_buf entry ++ p)
           else Ret (te_buf entry));
    let r := with_store r (<[key := mkTlsEntry buf (te_createdAt entry) t3]> (ra_store r)) in
    b0 ← (if 1 <=? len buf then idx buf 0 else Ret 0x16);
    if negb (b0 =? 0x16) then
      Ret (with_store r (delete key (ra_store r)), mkResult [] false (len buf) false)
    else
      p ← ParseClientHelloSNI buf;
      match p with
      | Some sni => Ret (with_store r (delete key (ra_store r)), mkResult sni true (len buf) hadEntry)
      | None => Ret (r, mkResult [] false (len buf) false)
      end.

Definition sweep (r : tlsReassembler) (now : Z) : tlsReassembler * Z := evictExpiredLocked r now.
End Reassembler.

(** * The KTLS tracker *)

Definition ktlsTrackerTTL : Z := 60 * 1000000000.

(** [ktlsKey]: PID, file descriptor. *)
Abbreviation ktlsKey := (Z * Z)%type.

Record ktlsEntry := mkKtls { ke_at : Z; ke_markedAt : Z }.

(** [t.by]; [None] is a nil tracker. *)
Abbreviation ktlsTracker := (gmap ktlsKey ktlsEntry).

Section Ktls.
Context `{!RangeOrder ktlsKey}.

Definition newKTLSTracker : ktlsTracker := ∅.

Definition evictLocked (by_ : ktlsTracker) (now : Z) : ktlsTracker :=
  let cutoff := now - ktlsTrackerTTL in
  foldl (fun m '(k, e) => if negb (cutoff <? ke_at e) then delete k m else m) by_ (range 0 by_).

Definition Mark (t : option ktlsTracker) (now pid fd markedAtNs : Z) : option ktlsTracker :=
  match t with
  | None => None
  | Some by_ => Some (<[(pid, fd) := mkKtls now markedAtNs]> (evictLocked by_ now))
  end.

Definition IsKTLS (t : option ktlsTracker) (now pid fd tlsTimestampNs : Z) : bool :=
  match t with
  | None => false
  | Some by_ =>
    let cutoff := now - ktlsTrackerTTL in
    if negb (fd =? 0) then
      match by_ !! (pid, fd) with
      | Some e => if cutoff <? ke_at e then ke_markedAt e <=? tlsTimestampNs else false
      | None => false
      end
    else
      let earliest := foldl (fun (acc : option Z) '(k, e) =>
          if negb (k.1 =? pid) || negb (cutoff <? ke_at e) then acc
          else match acc with
               | None => Some (ke_markedAt e)
               | Some earliest => if ke_markedAt e <? earliest then Some (ke_markedAt e) else acc
               end) None (range 1 by_) in
      match earliest with
      | None => false
      | Some earliest => earliest <=? tlsTimestampNs
      end
  end.
End Ktls.

(** * QUIC candidates *)

Definition IsQUICCandidate (dstIP : bytes) (dstPort : Z) : bool :=
  if negb (dstPort =? 443) then false
  else match ParseIP dstIP with
       | None => false
       | Some ip => match To4 ip with None => false | Some v4 => negb (IsLoopback v4) end
       end.

(** * Lemmas: the reassembler *)

Section ReassemblerLemmas.
Context `{UnicodeCase} `{!RangeOrder tlsReassemblyKey}.
Implicit Types r : tlsReassembler.

(** The entries a sweep at [now] keeps. *)
Definition fresh (ttl now : Z) (s : gmap tlsReassemblyKey tlsReassemblyEntry) :=
  filter (fun kv => now - ttl <= te_updatedAt kv.2) s.

Lemma evictExpired_spec r now : 0 < ra_ttl r ->
  (evictExpiredLocked r now).1 = with_store r (fresh (ra_ttl r) now (ra_store r)).
Proof.
  intros Ht. unfold evictExpiredLocked. destruct (_ || _) eqn:E.
  { apply orb_true_iff in E as [E|E]; [z_bool; lia|]. apply bool_decide_eq_true, map_size_empty_inv in E.
    unfold fresh. rewrite E, map_filter_empty. destruct r; cbn in *. by subst. }
  match goal with |- context [foldl ?f ?i ?l] => set (st := foldl f i l); assert (forall k, st.1 !! k =
    fresh (ra_ttl r) now (ra_store r) !! k) as Hst end.
  { intros k. unfold st.
    rewrite (foldl_pointwise (fun c k => c.1 !! k) _ (fun o v => if te_updatedAt v <? now - ra_ttl r then None else o));
      [|intros [c n] k0 a k'|apply range_NoDup].
    - rewrite list_to_map_range. unfold fresh. rewrite map_lookup_filter. cbn [fst].
      destruct (ra_store r !! k) as [e|]; [|done]. cbn.
      destruct (_ <? _) eqn:El; z_bool; case_guard; cbn in *; done || lia.
    - destruct (_ <? _), (decide (k' = k0)); cbn [fst]; subst; by rewrite ?lookup_delete_eq, ?lookup_delete_ne. }
  clearbody st. destruct st as [s n]. cbn [fst] in *. f_equal. by apply map_eq.
Qed.

Lemma evictOldest_spec r : ra_store r <> ∅ -> exists k e,
  ra_store r !! k = Some e /\ evictOldestLocked r = with_store r (delete k (ra_store r)) /\
  forall k' e', ra_store r !! k' = Some e' -> te_updatedAt e <= te_updatedAt e'.
Proof.
  intros Hne. unfold evictOldestLocked.
  match goal with |- context [foldl ?f None ?l] => set (g := f) end.
  assert (forall l acc, match foldl g acc l with
    | None => acc = None /\ l = []
    | Some (k, t) => (acc = Some (k, t) \/ exists e, (k, e) ∈ l /\ t = te_updatedAt e) /\
        (forall k' e', (k', e') ∈ l -> t <= te_updatedAt e') /\ (forall k' t', acc = Some (k', t') -> t <= t')
    end) as Hg.
  { induction l as [|[k0 e0] l IH]; intros acc; cbn [foldl].
    - destruct acc as [[k t]|]; [|done]. split_and!; [by left|by intros ? ? ?%not_elem_of_nil|intros ? ? [= -> ->]; lia].
    - specialize (IH (g acc (k0, e0))). destruct (foldl g (g acc (k0, e0)) l) as [[k t]|].
      + destruct IH as (H1 & H2 & H3). unfold g in H1, H3. setoid_rewrite elem_of_cons.
        destruct acc as [[ka ta]|].
        * destruct (te_updatedAt e0 <? ta) eqn:El; z_bool.
          -- specialize (H3 _ _ eq_refl). split_and!.
             ++ right. destruct H1 as [[= <- <-]|(e & ? & ?)]; eauto.
             ++ intros k' e' [[= -> ->]|Hin]; [done|eauto].
             ++ intros ? ? [= <- <-]. lia.
          -- specialize (H3 _ _ eq_refl). split_and!.
             ++ destruct H1 as [?|(e & ? & ?)]; eauto 6.
             ++ intros k' e' [[= -> ->]|Hin]; [lia|eauto].
             ++ intros ? ? [= <- <-]. lia.
        * specialize (H3 _ _ eq_refl). split_and!; [|intros k' e' [[= -> ->]|Hin]; [done|eauto]|done].
          right. destruct H1 as [[= <- <-]|(e & ? & ?)]; eauto.
      + destruct IH as [IH _]. unfold g in IH. by repeat case_match. }
  specialize (Hg (range 1 (ra_store r)) None). destruct (foldl g None _) as [[k t]|].
  - destruct Hg as ([?|(e & Hin & ->)] & Hmin & _); [done|]. apply elem_of_range in Hin.
    exists k, e. split_and!; [done|done|]. intros k' e' Hk'. eapply Hmin. by apply elem_of_range.
  - destruct Hg as [_ E]. exfalso. apply Hne, map_size_empty_inv. by rewrite <- (length_range 1), E.
Qed.

(** The bytes buffered for [key] that are still live at [now]. *)
Definition buffered r (now : Z) (key : tlsReassemblyKey) : option bytes :=
  te_buf <$> fresh (ra_ttl r) now (ra_store r) !! key.

Definition clip (cap : Z) (s : bytes) : bytes := take (Z.to_nat cap) s.

(** The invariant of the store. *)
Definition reasm_inv r : Prop :=
  0 < ra_ttl r /\ 0 < ra_maxKey r /\ 0 < ra_bufCap r /\ Z.of_nat (size (ra_store r)) <= ra_maxKey r /\
  forall k e, ra_store r !! k = Some e -> wf_bytes (te_buf e) /\ len (te_buf e) <= ra_bufCap r /\
    exists t, te_buf e = 0x16 :: t.

(** What the entry is looked up or made in: live entries, one slot free. *)
Definition base_store r (t1 : Z) (key : tlsReassemblyKey) : gmap tlsReassemblyKey tlsReassemblyEntry :=
  let r1 := with_store r (fresh (ra_ttl r) t1 (ra_store r)) in
  match ra_store r1 !! key with
  | Some _ => ra_store r1
  | None => ra_store (if ra_maxKey r1 <=? Z.of_nat (size (ra_store r1)) then evictOldestLocked r1 else r1)
  end.

Lemma base_store_spec r t1 key : 0 < ra_maxKey r ->
  Z.of_nat (size (ra_store r)) <= ra_maxKey r ->
  base_store r t1 key ⊆ ra_store r /\
  base_store r t1 key !! key = fresh (ra_ttl r) t1 (ra_store r) !! key /\
  (base_store r t1 key !! key = None -> Z.of_nat (size (base_store r t1 key)) < ra_maxKey r).
Proof.
  intros Hm Hs. unfold base_store. cbn [ra_store with_store ra_maxKey]. set (f := fresh _ _ _).
  assert (f ⊆ ra_store r) as Hf by apply map_filter_subseteq.
  destruct (f !! key) as [e|] eqn:Ek; [split_and!; [done|done|congruence]|].
  destruct (_ <=? _) eqn:El; z_bool; cbn [ra_store].
  - assert (f <> ∅) as Hne by (intros E; rewrite E, map_size_empty in El; lia).
    destruct (evictOldest_spec (with_store r f) Hne) as (k & e & Hk & -> & _). cbn in *.
    split_and!; [etrans; [apply delete_subseteq|done]| |].
    + rewrite lookup_delete_ne by congruence. done.
    + intros _. rewrite map_size_delete, Hk. assert (size f <= size (ra_store r))%nat by by apply map_subseteq_size.
      assert (size f <> 0%nat) by (intros E; by apply map_size_empty_inv in E). lia.
  - split_and!; [done|done|intros _; cbn; lia].
Qed.

(** [appendAndParse] on a non-empty payload, in terms of the live buffer. *)
Lemma appendAndParse_spec r key payload t1 t2 t3 : reasm_inv r -> wf_bytes payload -> payload <> [] ->
  let old := default [] (buffered r t1 key) in
  let buf := clip (ra_bufCap r) (old ++ payload) in
  let base := base_store r t1 key in
  exists p, ParseClientHelloSNI buf = Ret p /\ wf_bytes buf /\ len buf <= ra_bufCap r /\ buf <> [] /\
  exists created, appendAndParse r key payload t1 t2 t3 = Ret
    (if decide (head buf = Some 0x16) then
       match p with
       | Some sni => (with_store r (delete key base),
                      mkResult sni true (len buf) (bool_decide (is_Some (buffered r t1 key))))
       | None => (with_store r (<[key := mkTlsEntry buf created t3]> base), mkResult [] false (len buf) false)
       end
     else (with_store r (delete key base), mkResult [] false (len buf) false)).
Proof.
  intros (Httl & Hmax & Hcap & Hsz & Hes) Hw Hne. cbv zeta.
  set (old := default [] (buffered r t1 key)). set (buf := clip (ra_bufCap r) (old ++ payload)).
  destruct (base_store_spec r t1 key Hmax Hsz) as (Hsub & Hkey & _).
  assert (wf_bytes old /\ len old <= ra_bufCap r) as [Hwo Hlo].
  { unfold old, buffered. destruct (fresh _ _ _ !! key) as [e|] eqn:Ee; cbn [fmap option_fmap option_map default];
      [|split; [by apply Forall_nil_2|unfold len; cbn; lia]].
    apply map_lookup_filter_Some in Ee as [Ee _]. destruct (Hes _ _ Ee) as (? & ? & _). done. }
  assert (wf_bytes buf) as Hwb by (apply Forall_take, Forall_app; done).
  assert (len buf <= ra_bufCap r) as Hlb by (unfold buf, clip; rewrite len_take; lia).
  assert (buf <> []) as Hbn.
  { intros E. apply (f_equal len) in E. unfold buf, clip in E. rewrite len_take, len_app in E.
    pose proof (len_nonneg old). destruct payload; [done|]. rewrite len_cons, len_nil in E.
    pose proof (len_nonneg payload). lia. }
  destruct (ParseClientHelloSNI_total buf Hwb) as (p & Hp). exists p. split_and!; [done..|].
  unfold appendAndParse. rewrite decide_False by done. rewrite evictExpired_spec by done.
  set (r1 := with_store r (fresh (ra_ttl r) t1 (ra_store r))).
  set (pick := match ra_store r1 !! key with Some entry => _ | None => _ end).
  assert (exists created upd, pick = (with_store r (base_store r t1 key), mkTlsEntry old created upd, bool_decide (is_Some (buffered r t1 key))))
    as (created & upd & ->).
  { unfold pick, base_store, old, buffered. fold r1. change (fresh (ra_ttl r) t1 (ra_store r)) with (ra_store r1).
    destruct (ra_store r1 !! key) as [[b c u]|] eqn:E; cbn [fmap option_fmap option_map default te_buf].
    - exists c, u. by rewrite bool_decide_eq_true_2.
    - exists t2, 0. rewrite bool_decide_eq_false_2 by (by intros [? ?]). f_equal. f_equal.
      destruct (_ <=? _); [|done]. unfold evictOldestLocked. by repeat case_match. }
  exists created. cbn [te_buf te_createdAt ra_bufCap with_store].
  set (c := if 0 <? _ then _ else _). assert (c = Ret buf) as ->.
  { unfold c, buf, clip. destruct (0 <? _) eqn:E0; z_bool.
    - rewrite take_app, (take_ge old) by (unfold len in *; lia).
      destruct (_ <? _) eqn:E1; z_bool.
      + unfold slice_to. rewrite slice_in_range by lia. cbn [mbind go_bind]. rewrite Z.sub_0_r, drop_0.
        do 3 f_equal. unfold len in *. lia.
      + cbn [mbind go_bind]. rewrite take_ge by (unfold len in *; lia). done.
    - rewrite take_app, take_ge by (unfold len in *; lia).
      replace (Z.to_nat (ra_bufCap r) - length old)%nat with 0%nat by (unfold len in *; lia).
      by rewrite take_0, app_nil_r. }
  cbn [mbind go_bind]. clearbody buf. destruct buf as [|b0 buf]; [done|].
  replace (1 <=? len (b0 :: buf)) with true by (symmetry; z_bool; rewrite len_cons; pose proof (len_nonneg buf); lia).
  replace (idx (b0 :: buf) 0) with (Ret b0) by done. cbn [mbind go_bind ra_store with_store head].
  destruct (b0 =? 0x16) eqn:E; z_bool; cbn [negb].
  - rewrite decide_True by congruence. rewrite Hp. cbn [mbind go_bind]. destruct p; [|done].
    unfold with_store. cbn. by rewrite delete_insert_eq.
  - rewrite decide_False by congruence. unfold with_store. cbn. by rewrite delete_insert_eq.
Qed.
End ReassemblerLemmas.

(** * Properties: the reassembler *)

Section ReassemblerProperties.
Context `{UnicodeCase} `{!RangeOrder tlsReassemblyKey}.
Implicit Types r : tlsReassembler.

Lemma append_inv r key payload t1 t2 t3 : reasm_inv r -> wf_bytes payload ->
  exists r' res, appendAndParse r key payload t1 t2 t3 = Ret (r', res) /\ reasm_inv r'.
Proof.
  intros Hinv Hw.
  destruct (decide (payload = [])) as [->|Hne]; [unfold appendAndParse; rewrite decide_True by done; eauto|].
  destruct (appendAndParse_spec r key payload t1 t2 t3 Hinv Hw Hne) as (p & _ & Hwb & Hlb & Hbn & created & ->).
  destruct Hinv as (Httl & Hmax & Hcap & Hsz & Hes).
  destruct (base_store_spec r t1 key Hmax Hsz) as (Hsub & _ & Hfree).
  set (base := base_store r t1 key) in *. set (buf := clip _ _) in *.
  assert (size base <= size (ra_store r))%nat as Hbs by by apply map_subseteq_size.
  assert (reasm_inv (with_store r (delete key base))) as Hdel.
  { split_and!; cbn; [done..| |].
    - rewrite map_size_delete. destruct (base !! key); cbn; lia.
    - intros k e [_ Hk]%lookup_delete_Some. eapply Hes, lookup_weaken; eauto. }
  case_decide as Hh; [destruct p|]; eauto. eexists _, _. split; [done|].
  split_and!; cbn; [done..| |].
  - rewrite map_size_insert. destruct (base !! key) eqn:E; [cbn; lia|]. specialize (Hfree eq_refl). cbn. lia.
  - intros k e [[<- <-]|[_ Hk]]%lookup_insert_Some; [|by eapply Hes, lookup_weaken; eauto].
    cbn. split_and!; [done|done|]. destruct buf; [done|]. injection Hh as ->. eauto.
Qed.

(** C38: the reassembler never holds more than [maxKey] keys or [bufCap]
    bytes per key, and every buffer it keeps starts with a TLS handshake
    record byte; a new reassembler satisfies this, and feeding any payload
    keeps it without a panic. *)
Theorem reassembler_bounded ttl maxKey bufCap r key payload t1 t2 t3 : reasm_inv r -> wf_bytes payload ->
  reasm_inv (newTLSReassemblerWithClock ttl maxKey bufCap) /\
  exists r' res, appendAndParse r key payload t1 t2 t3 = Ret (r', res) /\ reasm_inv r'.
Proof.
  intros Hinv Hw. split.
  { unfold newTLSReassemblerWithClock, reasm_inv. cbn [ra_ttl ra_maxKey ra_bufCap ra_store].
    rewrite map_size_empty. split_and!; try (case_match; z_bool; unfold tlsReassemblyDefaultTTL,
      tlsReassemblyDefaultMaxKey, tlsReassemblyBufferCap in *; lia). intros k e. by rewrite lookup_empty. }
  by apply append_inv.
Qed.

(** A fragment and the clock readings of its call. *)
Record frag := mkFrag { f_payload : bytes; f_t1 : Z; f_t2 : Z; f_t3 : Z }.

Fixpoint feed r (key : tlsReassemblyKey) (fs : list frag) : go tlsReassembler :=
  match fs with
  | [] => Ret r
  | f :: fs' => x ← appendAndParse r key (f_payload f) (f_t1 f) (f_t2 f) (f_t3 f); feed x.1 key fs'
  end.

Definition joined (fs : list frag) : bytes := concat (map f_payload fs).

(** Each fragment arrives within the TTL of the one before it, the first
    within the TTL of [t]. *)
Fixpoint timely (ttl t : Z) (fs : list frag) : Prop :=
  match fs with
  | [] => True
  | f :: fs' => f_t1 f - ttl <= t /\ timely ttl (f_t3 f) fs'
  end.

(** The store holds [acc] for [key], last updated at [t]. *)
Definition holding r (key : tlsReassemblyKey) (acc : bytes) (t : Z) : Prop :=
  match ra_store r !! key with
  | None => acc = []
  | Some e => te_buf e = acc /\ te_updatedAt e = t /\ acc <> []
  end.

Lemma holding_buffered r key acc t t1 : holding r key acc t -> t1 - ra_ttl r <= t ->
  default [] (buffered r t1 key) = acc /\ bool_decide (is_Some (buffered r t1 key)) = bool_decide (acc <> []).
Proof.
  unfold holding, buffered, fresh. rewrite map_lookup_filter. intros Hh Ht.
  destruct (ra_store r !! key) as [e|]; cbn [mbind option_bind].
  - destruct Hh as (<- & <- & Hne). case_guard; [|cbn in *; lia]. split; [done|].
    symmetry. by apply bool_decide_eq_true_2.
  - subst. split; [done|]. symmetry. apply bool_decide_eq_false_2. tauto.
Qed.

Lemma feed_fragments key fs r acc t : reasm_inv r -> holding r key acc t ->
  timely (ra_ttl r) t fs -> Forall (fun f => f_payload f <> [] /\ wf_bytes (f_payload f)) fs ->
  (fs <> [] -> head (acc ++ joined fs) = Some 0x16) -> len (acc ++ joined fs) <= ra_bufCap r ->
  (forall n, (0 < n <= length fs)%nat -> ParseClientHelloSNI (acc ++ joined (take n fs)) = Ret None) ->
  exists r', feed r key fs = Ret r' /\ reasm_inv r' /\ holding r' key (acc ++ joined fs) (default t (f_t3 <$> last fs)) /\
    ra_ttl r' = ra_ttl r /\ ra_bufCap r' = ra_bufCap r.
Proof.
  revert r acc t. induction fs as [|f fs IH]; intros r acc t Hinv Hh Ht Hf Hhd Hlen Hp.
  { exists r. unfold joined. cbn. by rewrite app_nil_r. }
  apply Forall_cons in Hf as [[Hne Hw] Hf]. destruct Ht as [Ht Ht'].
  assert (joined (f :: fs) = f_payload f ++ joined fs) as Hj by done.
  destruct (append_inv r key (f_payload f) (f_t1 f) (f_t2 f) (f_t3 f) Hinv Hw) as (r1 & res & E & Hinv1).
  pose proof (appendAndParse_spec r key (f_payload f) (f_t1 f) (f_t2 f) (f_t3 f) Hinv Hw Hne) as Hs.
  cbv zeta in Hs. destruct (holding_buffered r key acc t (f_t1 f) Hh Ht) as [Eo _]. rewrite Eo in Hs.
  rewrite Hj, app_assoc in Hlen.
  assert (clip (ra_bufCap r) (acc ++ f_payload f) = acc ++ f_payload f) as Ec
    by (unfold clip; rewrite take_ge; [done|]; rewrite len_app in Hlen; pose proof (len_nonneg (joined fs)); unfold len in *; lia).
  rewrite Ec in Hs. destruct Hs as (p & Hpp & _ & _ & Hbn & created & Es).
  specialize (Hhd ltac:(done)). rewrite Hj in Hhd.
  rewrite decide_True in Es by (destruct acc; [destruct (f_payload f); [done|]|]; exact Hhd).
  assert (p = None) as ->.
  { specialize (Hp 1%nat ltac:(cbn; lia)). unfold joined in Hp. cbn in Hp. rewrite app_nil_r in Hp. congruence. }
  rewrite E in Es. injection Es as -> ->. cbn [feed]. rewrite E. cbn [mbind go_bind fst].
  set (r1 := with_store r _) in *.
  destruct (IH r1 (acc ++ f_payload f) (f_t3 f)) as (r' & Ef & Hi & Hh' & Ett & Ecc); try done.
  - unfold holding, r1. cbn. rewrite lookup_insert_eq. done.
  - intros _. by rewrite <- app_assoc.
  - intros n Hn. specialize (Hp (S n) ltac:(cbn; lia)). cbn [take] in Hp.
    by rewrite <- app_assoc.
  - exists r'. rewrite Hj, app_assoc. split_and!; [done|done| |done|done].
    replace (default t (f_t3 <$> last (f :: fs))) with (default (f_t3 f) (f_t3 <$> last fs)); [done|].
    rewrite last_cons. by destruct (last fs).
Qed.

(** A ClientHello cut into any number of fragments is recovered: when the
    pieces of one flow arrive in order, each within the TTL of the one
    before it, and together fit the buffer, the piece that completes the
    server name yields exactly the name the whole buffer parses to, marked
    as reassembled when there was an earlier piece, and the flow's buffer is
    released. *)
Theorem reassembly_split r key fs lst sni t : reasm_inv r -> ra_store r !! key = None ->
  timely (ra_ttl r) t (fs ++ [lst]) -> Forall (fun f => f_payload f <> [] /\ wf_bytes (f_payload f)) (fs ++ [lst]) ->
  head (joined (fs ++ [lst])) = Some 0x16 -> len (joined (fs ++ [lst])) <= ra_bufCap r ->
  (forall n, (0 < n <= length fs)%nat -> ParseClientHelloSNI (joined (take n fs)) = Ret None) ->
  ParseClientHelloSNI (joined (fs ++ [lst])) = Ret (Some sni) ->
  exists r1 r2, feed r key fs = Ret r1 /\
    appendAndParse r1 key (f_payload lst) (f_t1 lst) (f_t2 lst) (f_t3 lst) =
      Ret (r2, mkResult sni true (len (joined (fs ++ [lst]))) (bool_decide (fs <> []))) /\
    ra_store r2 !! key = None.
Proof.
  intros Hinv Hnone Ht Hf Hhd Hlen Hpre Hall.
  assert (joined (fs ++ [lst]) = joined fs ++ f_payload lst) as Hj
    by (unfold joined; rewrite map_app, concat_app; cbn; by rewrite app_nil_r).
  rewrite Hj in *. apply Forall_app in Hf as [Hf Hl]. apply Forall_singleton in Hl as [Hlne Hlw].
  assert (forall t, timely (ra_ttl r) t (fs ++ [lst]) -> timely (ra_ttl r) t fs /\
    f_t1 lst - ra_ttl r <= default t (f_t3 <$> last fs)) as Hsplit.
  { clear. induction fs as [|f fs IH]; intros t; cbn [app timely]; [by intros [? _]|].
    intros [? Ht]. destruct (IH _ Ht). rewrite last_cons. destruct (last fs); cbn in *; done. }
  destruct (Hsplit t Ht) as [Ht1 Ht2].
  assert (fs <> [] -> joined fs <> []) as Hjne.
  { destruct fs as [|f fs]; [done|]. apply Forall_cons in Hf as [[? _] _]. unfold joined. cbn.
    by destruct (f_payload f). }
  destruct (feed_fragments key fs r [] t) as (r1 & Ef & Hinv1 & Hh1 & Ettl & Ecap); try done.
  { unfold holding. by rewrite Hnone. }
  { intros Hne. cbn [app]. specialize (Hjne Hne). by destruct (joined fs). }
  { cbn [app]. rewrite len_app in Hlen. pose proof (len_nonneg (f_payload lst)). lia. }
  exists r1. cbn [app] in Hh1. rewrite <- Ettl in Ht2.
  destruct (holding_buffered r1 key _ _ _ Hh1 Ht2) as [Eo Eb].
  destruct (appendAndParse_spec r1 key (f_payload lst) (f_t1 lst) (f_t2 lst) (f_t3 lst) Hinv1 Hlw Hlne) as (p & Hp & _ & _ & _ & c & E).
  rewrite Eo in *. unfold clip in *. rewrite take_ge in * by (rewrite Ecap; unfold len in *; lia).
  rewrite decide_True in E by done. rewrite Hall in Hp. injection Hp as <-. rewrite E, Eb.
  exists (with_store r1 (delete key (base_store r1 (f_t1 lst) key))).
  split; [done|]. split; [|cbn; apply lookup_delete_eq]. do 3 f_equal.
  apply bool_decide_ext. split; [|done]. intros Hx ->. done.
Qed.
End ReassemblerProperties.

(** * Properties: the KTLS tracker *)

Section KtlsProperties.
Context `{!RangeOrder ktlsKey}.

(** A call of [Mark]. *)
Record mark := mkMark { m_now : Z; m_pid : Z; m_fd : Z; m_markedAt : Z }.

Definition run_marks (t : option ktlsTracker) (ms : list mark) : option ktlsTracker :=
  foldl (fun t m => Mark t (m_now m) (m_pid m) (m_fd m) (m_markedAt m)) t ms.

(** The abstract tracker: the last mark of every socket, nothing evicted. *)
Definition last_marks (ms : list mark) : gmap ktlsKey ktlsEntry :=
  foldl (fun h m => <[(m_pid m, m_fd m) := mkKtls (m_now m) (m_markedAt m)]> h) ∅ ms.

Definition live_at (now : Z) (e : ktlsEntry) : Prop := now - ktlsTrackerTTL < ke_at e.

Lemma evictLocked_lookup by_ now k :
  evictLocked by_ now !! k = match by_ !! k with
                             | Some e => if now - ktlsTrackerTTL <? ke_at e then Some e else None
                             | None => None
                             end.
Proof.
  unfold evictLocked. rewrite (foldl_pointwise (fun (c : ktlsTracker) k => c !! k) _
    (fun o e => if now - ktlsTrackerTTL <? ke_at e then o else None)); [|intros c k0 a k'|apply range_NoDup].
  - rewrite list_to_map_range. by destruct (by_ !! k).
  - destruct (_ <? _), (decide (k' = k0)); cbn [negb]; subst; by rewrite ?lookup_delete_eq, ?lookup_delete_ne.
Qed.

(** The tracker holds last marks only, and all that are live at [now]. *)
Definition tracks (now : Z) (by_ : ktlsTracker) (h : gmap ktlsKey ktlsEntry) : Prop :=
  by_ ⊆ h /\ forall k e, h !! k = Some e -> live_at now e -> by_ !! k = Some e.

Lemma mark_tracks now now' by_ h pid fd at_ : now <= now' -> tracks now by_ h ->
  tracks now' (<[(pid, fd) := mkKtls now' at_]> (evictLocked by_ now')) (<[(pid, fd) := mkKtls now' at_]> h).
Proof.
  intros Hn [Hsub Hlive]. split.
  - apply insert_mono. apply map_subseteq_spec. intros k e. rewrite evictLocked_lookup.
    destruct (by_ !! k) eqn:E; [|done]. case_match; [|done]. intros [= <-]. by eapply lookup_weaken.
  - intros k e. rewrite !lookup_insert_Some. intros [?|[? Hk]]; [by left|]. intros Hl. right. split; [done|].
    rewrite evictLocked_lookup. unfold live_at in *. rewrite (Hlive k e Hk) by (unfold live_at; lia).
    by rewrite (proj2 (Z.ltb_lt _ _) Hl).
Qed.

(** [earliest] of the wildcard query. *)
Lemma earliest_spec by_ cutoff pid :
  let earliest := foldl (fun (acc : option Z) '(k, e) =>
      if negb (k.1 =? pid) || negb (cutoff <? ke_at e) then acc
      else match acc with
           | None => Some (ke_markedAt e)
           | Some earliest => if ke_markedAt e <? earliest then Some (ke_markedAt e) else acc
           end) None (range 1 by_) in
  forall ts, (match earliest with None => false | Some x => x <=? ts end) = true <->
    exists fd e, by_ !! (pid, fd) = Some e /\ cutoff < ke_at e /\ ke_markedAt e <= ts.
Proof.
  cbv zeta. intros ts.
  match goal with |- context [foldl ?f None ?l] => set (g := f) end.
  assert (forall l acc, (match foldl g acc l with None => false | Some x => x <=? ts end) = true <->
    (match acc with None => false | Some x => x <=? ts end) = true \/
    exists k e, (k, e) ∈ l /\ k.1 = pid /\ cutoff < ke_at e /\ ke_markedAt e <= ts) as Hg.
  { induction l as [|[k e] l IH]; intros acc; cbn [foldl].
    - setoid_rewrite elem_of_nil. naive_solver.
    - rewrite IH. setoid_rewrite elem_of_cons. unfold g at 1.
      destruct (negb (k.1 =? pid) || negb (cutoff <? ke_at e)) eqn:E.
      + split; [naive_solver|]. intros [?|(k0 & e0 & [[= -> ->]|?] & ?)]; [by left| |right; eauto].
        z_bool. lia.
      + z_bool. destruct E as [E1 E2]. destruct acc as [x|].
        * destruct (ke_markedAt e <? x) eqn:El; z_bool; (split;
            [intros [?|(k0 & e0 & ? & ?)]; [|right; eauto 10]|intros [?|(k0 & e0 & [[= -> ->]|?] & ?)]; [| |right; eauto]]).
          -- right. exists k, e. split; [by left|]. split_and!; [done|done|lia].
          -- left. lia.
          -- left. lia.
          -- by left.
          -- by left.
          -- left. lia.
        * z_bool. split.
          -- intros [?|(k0 & e0 & ? & ?)]; right; [exists k, e; split; [by left|]; split_and!; done|eauto 10].
          -- intros [?|(k0 & e0 & [[= -> ->]|?] & ?)]; [done|left; lia|right; eauto]. }
  rewrite Hg. split.
  - intros [?|([p fd] & e & Hin & Hpid & ?)]; [done|]. cbn in Hpid. subst. apply elem_of_range in Hin. eauto.
  - intros (fd & e & Hk & ?). right. exists (pid, fd), e. rewrite elem_of_range. done.
Qed.

(** Calls with a clock that does not go back. *)
Fixpoint monotone (t : Z) (ms : list mark) : Prop :=
  match ms with
  | [] => True
  | m :: ms' => t <= m_now m /\ monotone (m_now m) ms'
  end.

Lemma run_tracks ms t by_ h : monotone t ms -> tracks t by_ h -> exists by',
  run_marks (Some by_) ms = Some by' /\
  tracks (default t (m_now <$> last ms)) by'
    (foldl (fun h m => <[(m_pid m, m_fd m) := mkKtls (m_now m) (m_markedAt m)]> h) h ms).
Proof.
  revert t by_ h. induction ms as [|m ms IH]; intros t by_ h Hm Ht; [eauto|].
  destruct Hm as [Hm Hms]. unfold run_marks. cbn [foldl]. fold (run_marks (Mark (Some by_) (m_now m) (m_pid m) (m_fd m) (m_markedAt m)) ms).
  destruct (IH _ _ _ Hms (mark_tracks _ _ _ _ (m_pid m) (m_fd m) (m_markedAt m) Hm Ht)) as (by' & E & Htr).
  exists by'. split; [exact E|]. rewrite last_cons. by destruct (last ms).
Qed.

(** The tracker with its lazy eviction answers like the whole history of
    marks: a socket is offloaded when its last mark is within the TTL and
    not after the TLS event; the descriptor-less query asks for some such
    socket of the process. *)
Theorem ktls_refines_history ms t now pid fd ts : monotone t ms -> default t (m_now <$> last ms) <= now ->
  let h := last_marks ms in
  IsKTLS (run_marks (Some newKTLSTracker) ms) now pid fd ts = true <->
    exists fd' e, (fd = 0 \/ fd' = fd) /\ h !! (pid, fd') = Some e /\ live_at now e /\ ke_markedAt e <= ts.
Proof.
  intros Hm Hn h. assert (tracks t ∅ ∅) as H0 by (split; [done|intros k e; by rewrite lookup_empty]).
  destruct (run_tracks ms t ∅ ∅ Hm H0) as (by_ & E & Hsub & Hlive). change (foldl _ ∅ ms) with h in *.
  unfold newKTLSTracker. rewrite E. cbn [IsKTLS].
  assert (forall k e, live_at now e -> by_ !! k = Some e <-> h !! k = Some e) as Hk.
  { intros k e He. split; [by intros; eapply lookup_weaken|]. intros Hh. apply Hlive; [done|]. unfold live_at in *. lia. }
  destruct (fd =? 0) eqn:Ef; z_bool; cbn [negb].
  - rewrite earliest_spec. split.
    + intros (fd' & e & Hb & ? & ?). exists fd', e. split; [by left|]. rewrite <- Hk by done. done.
    + intros (fd' & e & _ & Hh & Hl & ?). exists fd', e. by rewrite Hk.
  - split.
    + intros Hx. destruct (by_ !! (pid, fd)) as [e|] eqn:Eb; [|done]. destruct (_ <? _) eqn:El; z_bool; [|done].
      exists fd, e. split; [by right|]. split_and!; [by eapply lookup_weaken|done|done].
    + intros (fd' & e & [?| ->] & Hh & Hl & ?); [done|]. apply Hk in Hh as ->; [|done].
      unfold live_at in Hl. rewrite (proj2 (Z.ltb_lt _ _) Hl). by apply Z.leb_le.
Qed.
End KtlsProperties.

(** * Witnesses *)

Module Witness.
#[local] Existing Instance ascii_case.
#[local] Existing Instance plain_order.
Import TlsHello.Witness.

Definition reasm : tlsReassembler := newTLSReassembler.
Definition flow : tlsReassemblyKey := (7, [10; 0; 0; 1], 443).

Lemma reasm_ok : reasm_inv reasm.
Proof.
  split; [done|]. split; [done|]. split; [done|]. split; [by vm_compute|].
  intros k e Hk. unfold reasm, newTLSReassembler, newTLSReassemblerWithClock, ra_store in Hk.
  by rewrite lookup_empty in Hk.
Qed.

Lemma reassembler_bounded_witness :
  exists r' res, appendAndParse reasm flow [0x16; 3; 1] 10 10 10 = Ret (r', res) /\ reasm_inv r'.
Proof.
  apply (reassembler_bounded 0 0 0 reasm flow [0x16; 3; 1] 10 10 10 reasm_ok). repeat constructor; by vm_compute.
Defined.

(** The record header in one write, the handshake in the next. *)
Definition wire : bytes := enc_hello ex_hello.
Definition header : frag := mkFrag (take 5 wire) 10 10 10.
Definition body : frag := mkFrag (drop 5 wire) 20 20 20.

Lemma wire_wf : wf_bytes wire.
Proof. unfold wf_bytes. by apply (bool_decide_unpack _); vm_compute. Qed.

Lemma reassembly_split_witness : exists r1 r2, feed reasm flow [header] = Ret r1 /\
  appendAndParse r1 flow (f_payload body) 20 20 20 = Ret (r2, mkResult (str "example.com") true 83 true) /\
  ra_store r2 !! flow = None.
Proof.
  apply (reassembly_split reasm flow [header] body (str "example.com") 10 reasm_ok).
  - apply lookup_empty.
  - split; [by vm_compute|]. split; [by vm_compute|done].
  - apply Forall_app. split; apply Forall_singleton; (split; [by vm_compute|]);
      [apply Forall_take|apply Forall_drop]; apply wire_wf.
  - by vm_compute.
  - by vm_compute.
  - intros n Hn. assert (n = 1%nat) as -> by (cbn in Hn; lia). by vm_compute.
  - by vm_compute.
Defined.

Definition marks : list mark := [mkMark 5 1 3 50; mkMark 9 1 4 90; mkMark 12 2 3 120].

Lemma ktls_refines_history_witness :
  IsKTLS (run_marks (Some newKTLSTracker) marks) 20 1 0 60 = true /\
  exists fd' e, (0 = 0 \/ fd' = 0) /\ last_marks marks !! (1, fd') = Some e /\ live_at 20 e /\ ke_markedAt e <= 60.
Proof.
  assert (IsKTLS (run_marks (Some newKTLSTracker) marks) 20 1 0 60 = true) as E by by vm_compute.
  split; [exact E|]. refine (proj1 (ktls_refines_history marks 0 20 1 0 60 _ _) E); cbn; lia.
Defined.
End Witness.
