(* ===== verification/Decode.v ===== *)
(** internal/agent/agent_linux_decode.go: the decoders of the BPF ring-buffer
    records, with the wire sizes of agent_linux_state_sections.go.

    Every slice expression is a [go] read.  The struct layouts of the BPF
    side are written as encoders (a list of field encodings), against which
    the decoders are shown to be left inverses. *)
From S2P Require Import Prelude GoStrings.

Open Scope Z_scope.

(** * Wire sizes *)

Definition denyProtoTCP : Z := 1.
Definition denyProtoUDP : Z := 2.
Definition denyReasonDstNotAllowlisted : Z := 1.
Definition linuxAFInet : Z := 2.
Definition linuxAFInet6 : Z := 10.
Definition connectEventWireSize : Z := 32.
Definition udpSendEventWireSize : Z := 36.
Definition httpSniffEventWireSize : Z := 228.
Definition tlsSniffEventWireSize : Z := 312.
Definition denyEventWireSize : Z := 46.
Definition bpfAuditEventWireSize : Z := 28.
Definition ktlsEventWireSize : Z := 32.
Definition tcpStateEventWireSize : Z := 48.
Definition ioUringSendEventWireSize : Z := 40.
Definition egressBackstopEventWireSize : Z := 56.
Definition ioUringTLSEventWireSize : Z := 304.
Definition ioUringTLSPayloadMax : Z := 256.
Definition bpfSelfDefenseEventWireSize : Z := 40.
Definition dnsSniffMaxPayload : Z := 4096.
Definition dnsSniffEventWireSizeLegacy : Z := 4 + dnsSniffMaxPayload.
Definition dnsSniffEventWireSize : Z := 4 + 1 + 3 + dnsSniffMaxPayload.
Definition httpPayloadMax : Z := 192.
Definition tlsPayloadMax : Z := 256.
Definition httpSniffEventHeaderSize : Z := 34.
Definition tlsSniffEventHeaderSize : Z := 34.
Definition tlsSniffEventIPv6Offset : Z := tlsSniffEventHeaderSize + tlsPayloadMax.
Definition connectResultEventWireSize : Z := 32.

(** * Field reads *)

(** [binary.LittleEndian.UintN(raw[off:off+n])], its big-endian twin, and
    [copy(dst[:], raw[off:off+n])] into an [n]-byte array. *)
Definition le_at (n : nat) (raw : bytes) (off : Z) : go Z := slice raw off (off + Z.of_nat n) ≫= get_le n.
Definition be_at (n : nat) (raw : bytes) (off : Z) : go Z := slice raw off (off + Z.of_nat n) ≫= get_be n.
Definition arr_at (n : nat) (raw : bytes) (off : Z) : go bytes :=
  s ← slice raw off (off + Z.of_nat n); Ret (copy_array n s).

Record connectEvent := mkConnectEvent { ce_tgid : Z; ce_tid : Z; ce_comm : bytes; ce_daddr : bytes; ce_dport : Z }.

Definition decodeConnectEvent (raw : bytes) : go (option connectEvent) :=
  if len raw <? connectEventWireSize then Ret None
  else
    tgid ← le_at 4 raw 0; tid ← le_at 4 raw 4; comm ← arr_at 16 raw 8; daddr ← arr_at 4 raw 24;
    dport ← be_at 2 raw 28;
    Ret (Some (mkConnectEvent tgid tid comm daddr dport)).

Record connectResultEvent := mkConnectResult { cr_tgid : Z; cr_tid : Z; cr_comm : bytes; cr_result : Z }.

Definition decodeConnectResultEvent (raw : bytes) : go (option connectResultEvent) :=
  if len raw <? connectResultEventWireSize then Ret None
  else
    result ← le_at 4 raw 4; tgid ← le_at 4 raw 8; tid ← le_at 4 raw 12; comm ← arr_at 16 raw 16;
    Ret (Some (mkConnectResult tgid tid comm (int32_of_uint32 result))).

Record udpSendEvent := mkUdpSend {
  us_tgid : Z; us_tid : Z; us_comm : bytes; us_daddr : bytes; us_dport : Z; us_dgramLen : Z }.

Definition decodeUDPSendEvent (raw : bytes) : go (option udpSendEvent) :=
  if len raw <? udpSendEventWireSize then Ret None
  else
    tgid ← le_at 4 raw 0; tid ← le_at 4 raw 4; comm ← arr_at 16 raw 8; daddr ← arr_at 4 raw 24;
    dport ← be_at 2 raw 28; dgramLen ← le_at 4 raw 32;
    Ret (Some (mkUdpSend tgid tid comm daddr dport dgramLen)).

Record httpSniffEvent := mkHttpSniff {
  hs_tgid : Z; hs_tid : Z; hs_comm : bytes; hs_daddr : bytes; hs_dport : Z; hs_payload : bytes }.

Definition decodeHTTPSniffEvent (raw : bytes) : go (option httpSniffEvent) :=
  if len raw <? httpSniffEventWireSize then Ret None
  else
    tgid ← le_at 4 raw 0; tid ← le_at 4 raw 4; comm ← arr_at 16 raw 8; daddr ← arr_at 4 raw 24;
    dport ← be_at 2 raw 28; capLen ← le_at 2 raw 32;
    if httpPayloadMax <? capLen then Ret None
    else
      payload ← slice raw httpSniffEventHeaderSize (httpSniffEventHeaderSize + capLen);
      Ret (Some (mkHttpSniff tgid tid comm daddr dport payload)).

Record tlsSniffEvent := mkTlsSniff {
  ts_tgid : Z; ts_tid : Z; ts_comm : bytes; ts_daddr : bytes; ts_dport : Z; ts_payload : bytes;
  ts_daddr6 : bytes; ts_isIPv6 : bool }.

Definition decodeTLSSniffEvent (raw : bytes) : go (option tlsSniffEvent) :=
  if len raw <? tlsSniffEventWireSize then Ret None
  else
    tgid ← le_at 4 raw 0; tid ← le_at 4 raw 4; comm ← arr_at 16 raw 8; daddr ← arr_at 4 raw 24;
    dport ← be_at 2 raw 28; capLen ← le_at 2 raw 32;
    if tlsPayloadMax <? capLen then Ret None
    else
      payload ← slice raw tlsSniffEventHeaderSize (tlsSniffEventHeaderSize + capLen);
      daddr6 ← arr_at 16 raw tlsSniffEventIPv6Offset;
      v6 ← idx raw (tlsSniffEventIPv6Offset + 16);
      Ret (Some (mkTlsSniff tgid tid comm daddr dport payload daddr6 (negb (v6 =? 0)))).

Definition decodeDNSSniffSample (raw : bytes) : go (option (bytes * bool)) :=
  if len raw <? 4 then Ret None
  else
    n ← le_at 4 raw 0;
    if dnsSniffMaxPayload <? n then Ret None
    else if len raw =? dnsSniffEventWireSizeLegacy then
      if len raw <? n + 4 then Ret None
      else pkt ← slice raw 4 (4 + n); Ret (Some (pkt, false))
    else if len raw <? dnsSniffEventWireSize then Ret None
    else
      t ← idx raw 4;
      if len raw <? n + 8 then Ret None
      else pkt ← slice raw 8 (8 + n); Ret (Some (pkt, negb (t =? 0))).

Record bpfAuditEvent := mkBpfAudit { ba_tgid : Z; ba_tid : Z; ba_comm : bytes; ba_cmd : Z }.

Definition decodeBPFAuditEvent (raw : bytes) : go (option bpfAuditEvent) :=
  if len raw <? bpfAuditEventWireSize then Ret None
  else
    tgid ← le_at 4 raw 0; tid ← le_at 4 raw 4; cmd ← le_at 4 raw 8; comm ← arr_at 16 raw 12;
    Ret (Some (mkBpfAudit tgid tid comm cmd)).

Record ktlsEvent := mkKtlsEvent { kt_tgid : Z; kt_tid : Z; kt_fd : Z; kt_comm : bytes; kt_direction : Z }.

Definition decodeKTLSEvent (raw : bytes) : go (option ktlsEvent) :=
  if len raw <? ktlsEventWireSize then Ret None
  else
    tgid ← le_at 4 raw 0; tid ← le_at 4 raw 4; comm ← arr_at 16 raw 8; fd ← le_at 4 raw 24;
    direction ← idx raw 28;
    Ret (Some (mkKtlsEvent tgid tid fd comm direction)).

Definition ktlsDirectionLabel (d : Z) : bytes :=
  if d =? 1 then str "tx" else if d =? 2 then str "rx" else str "unknown".

Record tcpStateEvent := mkTcpState {
  st_timestampNS : Z; st_pid : Z; st_saddr : bytes; st_daddr : bytes; st_sport : Z; st_dport : Z;
  st_oldState : Z; st_newState : Z; st_comm : bytes }.

Definition decodeTCPStateEvent (raw : bytes) : go (option tcpStateEvent) :=
  if len raw <? tcpStateEventWireSize then Ret None
  else
    ts ← le_at 8 raw 0; pid ← le_at 4 raw 8; saddr ← arr_at 4 raw 12; daddr ← arr_at 4 raw 16;
    sport ← le_at 2 raw 20; dport ← le_at 2 raw 22; oldState ← le_at 4 raw 24; newState ← le_at 4 raw 28;
    comm ← arr_at 16 raw 32;
    Ret (Some (mkTcpState ts pid saddr daddr sport dport (int32_of_uint32 oldState) (int32_of_uint32 newState) comm)).

Record ioUringSendEvent := mkIoSend {
  io_ts : Z; io_pid : Z; io_fd : Z; io_daddr : bytes; io_dport : Z; io_op : Z; io_hasTLSHello : bool; io_comm : bytes }.

Definition decodeIOUringSendEvent (raw : bytes) : go (option ioUringSendEvent) :=
  if len raw <? ioUringSendEventWireSize then Ret None
  else
    ts ← le_at 8 raw 0; pid ← le_at 4 raw 8; fd ← le_at 4 raw 12; daddr ← arr_at 4 raw 16;
    dport ← be_at 2 raw 20; op ← idx raw 22; hello ← idx raw 23; comm ← arr_at 16 raw 24;
    Ret (Some (mkIoSend ts pid fd daddr dport op (negb (hello =? 0)) comm)).

Record egressBackstopEvent := mkBackstop {
  eb_ts : Z; eb_pid : Z; eb_af : Z; eb_ipproto : Z; eb_daddr : bytes; eb_dport : Z; eb_comm : bytes }.

Definition decodeEgressBackstopEvent (raw : bytes) : go (option egressBackstopEvent) :=
  if len raw <? egressBackstopEventWireSize then Ret None
  else
    ts ← le_at 8 raw 0; pid ← le_at 4 raw 8; comm ← arr_at 16 raw 12; af ← idx raw 28; ipproto ← idx raw 29;
    daddr ← arr_at 16 raw 32; dport ← be_at 2 raw 48;
    Ret (Some (mkBackstop ts pid af ipproto daddr dport comm)).

Record bpfSelfDefenseEvent := mkSelfDefense {
  sd_ts : Z; sd_comm : bytes; sd_tgid : Z; sd_targetID : Z; sd_cmd : Z; sd_kind : Z }.

Definition decodeBpfSelfDefenseEvent (raw : bytes) : go (option bpfSelfDefenseEvent) :=
  if len raw <? bpfSelfDefenseEventWireSize then Ret None
  else
    ts ← le_at 8 raw 0; comm ← arr_at 16 raw 8; tgid ← le_at 4 raw 24; targetID ← le_at 4 raw 28;
    cmd ← le_at 4 raw 32; kind ← idx raw 36;
    Ret (Some (mkSelfDefense ts comm tgid targetID (int32_of_uint32 cmd) kind)).

Record ioUringTLSEvent := mkIoTls {
  it_ts : Z; it_pid : Z; it_op : Z; it_payload : bytes; it_comm : bytes; it_daddr : bytes; it_dport : Z }.

Definition decodeIOUringTLSEvent (raw : bytes) : go (option ioUringTLSEvent) :=
  if len raw <? ioUringTLSEventWireSize then Ret None
  else
    ts ← le_at 8 raw 0; pid ← le_at 4 raw 8; comm ← arr_at 16 raw 12; op ← idx raw 28; capLen ← le_at 2 raw 32;
    let capLen := if ioUringTLSPayloadMax <? capLen then ioUringTLSPayloadMax else capLen in
    payload ← slice raw 34 (34 + capLen);
    daddr ← arr_at 4 raw 292; dport ← be_at 2 raw 296;
    Ret (Some (mkIoTls ts pid op payload comm daddr dport)).

Definition ioUringOpName (op : Z) : bytes :=
  if op =? 2 then str "WRITEV" else if op =? 9 then str "SENDMSG" else if op =? 23 then str "WRITE"
  else if op =? 26 then str "SEND" else str "UNKNOWN".

Record denyEvent := mkDenyEvent {
  dn_tgid : Z; dn_tid : Z; dn_comm : bytes; dn_protocol : Z; dn_reason : Z; dn_af : Z; dn_daddr16 : bytes; dn_dport : Z }.

Definition decodeDenyEvent (raw : bytes) : go (option denyEvent) :=
  if len raw <? denyEventWireSize then Ret None
  else
    tgid ← le_at 4 raw 0; tid ← le_at 4 raw 4; comm ← arr_at 16 raw 8;
    protocol ← idx raw 24; reason ← idx raw 25; af ← idx raw 26;
    daddr16 ← arr_at 16 raw 28; dport ← be_at 2 raw 44;
    Ret (Some (mkDenyEvent tgid tid comm protocol reason af daddr16 dport)).

Definition denyProtocolLabel (protocol : Z) : bytes :=
  if protocol =? denyProtoTCP then str "tcp" else if protocol =? denyProtoUDP then str "udp" else str "unknown".

Definition denyReasonLabel (reason : Z) : bytes :=
  if reason =? denyReasonDstNotAllowlisted then str "dst_not_allowlisted" else str "unknown".

(** * The decoders never panic *)

Lemma returns_le_at n raw off (Q : Z -> Prop) : wf_bytes raw -> 0 <= off -> off + Z.of_nat n <= len raw ->
  (forall v, 0 <= v < 256 ^ Z.of_nat n -> Q v) -> returns (le_at n raw off) Q.
Proof.
  intros Hw H0 H1 HQ. unfold le_at. go_step. apply returns_get_le; [done|lia|]. auto.
Qed.

Lemma returns_be_at n raw off (Q : Z -> Prop) : wf_bytes raw -> 0 <= off -> off + Z.of_nat n <= len raw ->
  (forall v, 0 <= v < 256 ^ Z.of_nat n -> Q v) -> returns (be_at n raw off) Q.
Proof.
  intros Hw H0 H1 HQ. unfold be_at. go_step. apply returns_get_be; [done|lia|]. auto.
Qed.

Lemma returns_arr_at n raw off (Q : bytes -> Prop) : wf_bytes raw -> 0 <= off -> off + Z.of_nat n <= len raw ->
  (forall s, length s = n -> wf_bytes s -> Q s) -> returns (arr_at n raw off) Q.
Proof.
  intros Hw H0 H1 HQ. unfold arr_at. go_step. apply returns_ret. rewrite copy_array_exact by (unfold len in *; lia).
  apply HQ; [unfold len in *; lia|done].
Qed.

(** Run every field read of a decoder. *)
Ltac decode_step :=
  lazymatch goal with
  | |- returns (mbind _ (le_at _ _ _)) _ => apply returns_bind, returns_le_at; [done|lia|lia|]; intros ? ?
  | |- returns (mbind _ (be_at _ _ _)) _ => apply returns_bind, returns_be_at; [done|lia|lia|]; intros ? ?
  | |- returns (mbind _ (arr_at _ _ _)) _ => apply returns_bind, returns_arr_at; [done|lia|lia|]; intros ? ? ?
  | |- returns (if ?c then _ else _) _ => destruct c eqn:?; z_bool
  | |- returns (let _ := _ in _) _ => cbv zeta
  | |- returns (Ret _) _ => exact I
  | |- _ => go_step
  end.
Ltac decode_safe := intros Hw; unfold dnsSniffEventWireSizeLegacy, dnsSniffEventWireSize, dnsSniffMaxPayload,
    tlsSniffEventIPv6Offset, tlsSniffEventHeaderSize, httpSniffEventHeaderSize, tlsPayloadMax, httpPayloadMax,
    connectEventWireSize, udpSendEventWireSize, httpSniffEventWireSize, tlsSniffEventWireSize, denyEventWireSize,
    bpfAuditEventWireSize, ktlsEventWireSize, tcpStateEventWireSize, ioUringSendEventWireSize,
    egressBackstopEventWireSize, ioUringTLSEventWireSize, ioUringTLSPayloadMax, bpfSelfDefenseEventWireSize,
    connectResultEventWireSize; repeat decode_step.

(** A decoded deny event has byte fields. *)
Lemma decodeDenyEvent_wf raw : wf_bytes raw ->
  returns (decodeDenyEvent raw) (fun r => forall d, r = Some d -> wf_bytes (dn_comm d) /\ wf_bytes (dn_daddr16 d) /\ length (dn_daddr16 d) = 16%nat).
Proof.
  intros Hw. unfold decodeDenyEvent, denyEventWireSize. destruct (len raw <? 46) eqn:E; z_bool; [apply returns_ret; by intros d|].
  repeat (lazymatch goal with |- returns (Ret _) _ => fail | _ => decode_step end). apply returns_ret. intros d [= <-]. done.
Qed.

Definition total {A} (dec : bytes -> go (option A)) : Prop :=
  forall raw, wf_bytes raw -> returns (dec raw) (fun _ => True).

(** None of the fourteen record decoders can index past the end of a
    ring-buffer record, whatever its length and content. *)
Theorem decoders_never_panic :
  total decodeConnectEvent /\ total decodeConnectResultEvent /\ total decodeUDPSendEvent /\
  total decodeHTTPSniffEvent /\ total decodeTLSSniffEvent /\ total decodeDNSSniffSample /\
  total decodeBPFAuditEvent /\ total decodeKTLSEvent /\ total decodeTCPStateEvent /\
  total decodeIOUringSendEvent /\ total decodeEgressBackstopEvent /\ total decodeBpfSelfDefenseEvent /\
  total decodeIOUringTLSEvent /\ total decodeDenyEvent.
Proof.
  split_and!; intros raw.
  - unfold decodeConnectEvent. decode_safe.
  - unfold decodeConnectResultEvent. decode_safe.
  - unfold decodeUDPSendEvent. decode_safe.
  - unfold decodeHTTPSniffEvent. decode_safe.
  - unfold decodeTLSSniffEvent. decode_safe.
  - unfold decodeDNSSniffSample. decode_safe.
  - unfold decodeBPFAuditEvent. decode_safe.
  - unfold decodeKTLSEvent. decode_safe.
  - unfold decodeTCPStateEvent. decode_safe.
  - unfold decodeIOUringSendEvent. decode_safe.
  - unfold decodeEgressBackstopEvent. decode_safe.
  - unfold decodeBpfSelfDefenseEvent. decode_safe.
  - unfold decodeIOUringTLSEvent. decode_safe. case_match; z_bool; repeat decode_step.
  - unfold decodeDenyEvent. decode_safe.
Qed.

(** * The decoders invert the struct layouts *)

Section Fields.
Context (fs : list bytes) (t : bytes) (i : nat).

Lemma slice_field f off hi : fs !! i = Some f -> off = len (concat (take i fs)) -> hi = off + len f ->
  slice (concat fs ++ t) off hi = Ret f.
Proof.
  intros Hi -> ->. apply (slice_at _ (concat (take i fs)) f (concat (drop (S i) fs) ++ t)); [|done|done].
  rewrite <- (take_drop_middle fs i f Hi) at 1. rewrite concat_app. cbn [concat]. by rewrite <- !app_assoc.
Qed.

Lemma le_at_field n v off : fs !! i = Some (le_bytes n v) -> off = len (concat (take i fs)) ->
  0 <= v < 256 ^ Z.of_nat n -> le_at n (concat fs ++ t) off = Ret v.
Proof.
  intros Hi Ho Hv. unfold le_at. rewrite (slice_field (le_bytes n v)) by (rewrite ?len_le_bytes; done).
  by apply get_le_bytes.
Qed.

Lemma be_at_field n v off : fs !! i = Some (be_bytes n v) -> off = len (concat (take i fs)) ->
  0 <= v < 256 ^ Z.of_nat n -> be_at n (concat fs ++ t) off = Ret v.
Proof.
  intros Hi Ho Hv. unfold be_at. rewrite (slice_field (be_bytes n v)) by (rewrite ?len_be_bytes; done).
  by apply get_be_bytes.
Qed.

Lemma arr_at_field n f off : fs !! i = Some f -> off = len (concat (take i fs)) -> len f = Z.of_nat n ->
  arr_at n (concat fs ++ t) off = Ret f.
Proof.
  intros Hi Ho Hn. unfold arr_at. rewrite (slice_field f) by (rewrite ?Hn; done). cbn [mbind go_bind].
  by rewrite copy_array_exact by (unfold len in Hn; lia).
Qed.

Lemma idx_field b off : fs !! i = Some [b] -> off = len (concat (take i fs)) -> idx (concat fs ++ t) off = Ret b.
Proof.
  intros Hi ->. rewrite <- (take_drop_middle fs i [b] Hi) at 1. rewrite concat_app, <- app_assoc. cbn [concat app].
  by apply idx_app.
Qed.
End Fields.

Definition u8 (v : Z) : Prop := 0 <= v < 256.
Definition u16 (v : Z) : Prop := 0 <= v < 65536.
Definition u32 (v : Z) : Prop := 0 <= v < 2 ^ 32.
Definition u64 (v : Z) : Prop := 0 <= v < 2 ^ 64.
Definition s32 (v : Z) : Prop := - 2 ^ 31 <= v < 2 ^ 31.
(** The [__u32] bits of a signed field, and a flag byte. *)
Definition bits32 (v : Z) : bytes := le_bytes 4 (v mod 2 ^ 32).
Definition flag (b : bool) (v : Z) : Prop := u8 v /\ b = negb (v =? 0).

(** The members of each struct in order (bpf/trace_connect_obs.h,
    trace_tcp_connect_kprobe.inc, defend_policy headers); [p], [q] are padding
    and [fill] is the unused end of a payload buffer. *)
Definition connect_event (e : connectEvent) (p : bytes) : list bytes :=
  [le_bytes 4 (ce_tgid e); le_bytes 4 (ce_tid e); ce_comm e; ce_daddr e; be_bytes 2 (ce_dport e); p].
Definition connect_result_event (magic : bytes) (e : connectResultEvent) : list bytes :=
  [magic; bits32 (cr_result e); le_bytes 4 (cr_tgid e); le_bytes 4 (cr_tid e); cr_comm e].
Definition udp_send_event (e : udpSendEvent) (p : bytes) : list bytes :=
  [le_bytes 4 (us_tgid e); le_bytes 4 (us_tid e); us_comm e; us_daddr e; be_bytes 2 (us_dport e); p; le_bytes 4 (us_dgramLen e)].
Definition http_sniff_event (e : httpSniffEvent) (p fill q : bytes) : list bytes :=
  [le_bytes 4 (hs_tgid e); le_bytes 4 (hs_tid e); hs_comm e; hs_daddr e; be_bytes 2 (hs_dport e); p;
   le_bytes 2 (len (hs_payload e)); hs_payload e; fill; q].
Definition tls_sniff_event (e : tlsSniffEvent) (p fill : bytes) (v6 : Z) (q : bytes) : list bytes :=
  [le_bytes 4 (ts_tgid e); le_bytes 4 (ts_tid e); ts_comm e; ts_daddr e; be_bytes 2 (ts_dport e); p;
   le_bytes 2 (len (ts_payload e)); ts_payload e; fill; ts_daddr6 e; [v6]; q].
Definition bpf_audit_event (e : bpfAuditEvent) : list bytes :=
  [le_bytes 4 (ba_tgid e); le_bytes 4 (ba_tid e); le_bytes 4 (ba_cmd e); ba_comm e].
Definition ktls_event (e : ktlsEvent) (p : bytes) : list bytes :=
  [le_bytes 4 (kt_tgid e); le_bytes 4 (kt_tid e); kt_comm e; le_bytes 4 (kt_fd e); [kt_direction e]; p].
Definition tcp_state_event (e : tcpStateEvent) : list bytes :=
  [le_bytes 8 (st_timestampNS e); le_bytes 4 (st_pid e); st_saddr e; st_daddr e; le_bytes 2 (st_sport e);
   le_bytes 2 (st_dport e); bits32 (st_oldState e); bits32 (st_newState e); st_comm e].
Definition io_uring_send_event (e : ioUringSendEvent) (hello : Z) : list bytes :=
  [le_bytes 8 (io_ts e); le_bytes 4 (io_pid e); le_bytes 4 (io_fd e); io_daddr e; be_bytes 2 (io_dport e);
   [io_op e]; [hello]; io_comm e].
Definition egress_backstop_event (e : egressBackstopEvent) (p q : bytes) : list bytes :=
  [le_bytes 8 (eb_ts e); le_bytes 4 (eb_pid e); eb_comm e; [eb_af e]; [eb_ipproto e]; p; eb_daddr e;
   be_bytes 2 (eb_dport e); q].
Definition bpf_self_defense_event (e : bpfSelfDefenseEvent) (p : bytes) : list bytes :=
  [le_bytes 8 (sd_ts e); sd_comm e; le_bytes 4 (sd_tgid e); le_bytes 4 (sd_targetID e); bits32 (sd_cmd e); [sd_kind e]; p].
Definition io_uring_tls_event (e : ioUringTLSEvent) (p fill gap q : bytes) : list bytes :=
  [le_bytes 8 (it_ts e); le_bytes 4 (it_pid e); it_comm e; [it_op e]; p; le_bytes 2 (len (it_payload e));
   it_payload e; fill; gap; it_daddr e; be_bytes 2 (it_dport e); q].
Definition deny_event (e : denyEvent) (pad : Z) : list bytes :=
  [le_bytes 4 (dn_tgid e); le_bytes 4 (dn_tid e); dn_comm e; [dn_protocol e]; [dn_reason e]; [dn_af e]; [pad];
   dn_daddr16 e; be_bytes 2 (dn_dport e)].
Definition dns_sniff_event (pkt : bytes) (isTCP : Z) (p fill : bytes) : list bytes :=
  [le_bytes 4 (len pkt); [isTCP]; p; pkt; fill].

(** The record [concat fs ++ t] decodes to [e]. *)
Ltac flen := cbn [take concat]; unfold bits32; len_lia.
Ltac size_ok := match goal with |- context [len (concat ?fs ++ ?t) <? ?n] =>
  replace (len (concat fs ++ t) <? n) with false
    by (symmetry; z_bool; cbn [concat]; unfold bits32; pose proof (len_nonneg t); len_lia) end.
Ltac field i :=
  lazymatch goal with
  | |- mbind _ (le_at ?n (concat ?fs ++ ?t) ?off) = _ => erewrite (le_at_field fs t i n _ off); [|reflexivity|flen|done || lia]
  | |- mbind _ (be_at ?n (concat ?fs ++ ?t) ?off) = _ => erewrite (be_at_field fs t i n _ off); [|reflexivity|flen|done || lia]
  | |- mbind _ (arr_at ?n (concat ?fs ++ ?t) ?off) = _ => erewrite (arr_at_field fs t i n _ off); [|reflexivity|flen|done || lia]
  | |- mbind _ (idx (concat ?fs ++ ?t) ?off) = _ => erewrite (idx_field fs t i _ off); [|reflexivity|flen]
  | |- mbind _ (slice (concat ?fs ++ ?t) ?off ?hi) = _ => erewrite (slice_field fs t i _ off hi); [|reflexivity|flen|done || lia]
  end; cbn [mbind go_bind].

Lemma connect_layout e p t : u32 (ce_tgid e) -> u32 (ce_tid e) -> len (ce_comm e) = 16 -> len (ce_daddr e) = 4 ->
  u16 (ce_dport e) -> len p = 2 -> decodeConnectEvent (concat (connect_event e p) ++ t) = Ret (Some e).
Proof.
  destruct e as [tgid tid comm daddr dport]. cbn [ce_tgid ce_tid ce_comm ce_daddr ce_dport]. unfold u32, u16. intros.
  unfold decodeConnectEvent, connectEventWireSize, connect_event. cbn [ce_tgid ce_tid ce_comm ce_daddr ce_dport].
  size_ok. field 0%nat. field 1%nat. field 2%nat. field 3%nat. field 4%nat. done.
Qed.

Lemma bits32_range v : 0 <= v mod 2 ^ 32 < 256 ^ Z.of_nat 4.
Proof. change (256 ^ Z.of_nat 4) with (2 ^ 32). apply Z.mod_pos_bound. lia. Qed.

Lemma connect_result_layout magic e t : len magic = 4 -> s32 (cr_result e) -> u32 (cr_tgid e) -> u32 (cr_tid e) -> len (cr_comm e) = 16 ->
  decodeConnectResultEvent (concat (connect_result_event magic e) ++ t) = Ret (Some e).
Proof.
  destruct e as [tgid tid comm result]. cbn [cr_tgid cr_tid cr_comm cr_result]. pose proof bits32_range; unfold u64, u32, u16, u8, s32, flag. intros.
  unfold decodeConnectResultEvent, connectResultEventWireSize, connect_result_event. cbn [cr_tgid cr_tid cr_comm cr_result].
  size_ok. field 1%nat. field 2%nat. field 3%nat. field 4%nat. by rewrite int32_roundtrip.
Qed.

Lemma udp_send_layout e p t : u32 (us_tgid e) -> u32 (us_tid e) -> len (us_comm e) = 16 -> len (us_daddr e) = 4 -> u16 (us_dport e) -> u32 (us_dgramLen e) -> len p = 2 ->
  decodeUDPSendEvent (concat (udp_send_event e p) ++ t) = Ret (Some e).
Proof.
  destruct e as [tgid tid comm daddr dport dgramLen]. cbn [us_tgid us_tid us_comm us_daddr us_dport us_dgramLen]. unfold u64, u32, u16, u8, s32, flag. intros.
  unfold decodeUDPSendEvent, udpSendEventWireSize, udp_send_event. cbn [us_tgid us_tid us_comm us_daddr us_dport us_dgramLen].
  size_ok. field 0%nat. field 1%nat. field 2%nat. field 3%nat. field 4%nat. field 6%nat. done.
Qed.

Lemma http_sniff_layout e p fill q t : u32 (hs_tgid e) -> u32 (hs_tid e) -> len (hs_comm e) = 16 -> len (hs_daddr e) = 4 -> u16 (hs_dport e) -> len p = 2 -> len (hs_payload e) + len fill = 192 -> len q = 2 ->
  decodeHTTPSniffEvent (concat (http_sniff_event e p fill q) ++ t) = Ret (Some e).
Proof.
  destruct e as [tgid tid comm daddr dport payload]. cbn [hs_tgid hs_tid hs_comm hs_daddr hs_dport hs_payload]. unfold u64, u32, u16, u8, s32, flag. intros.
  unfold decodeHTTPSniffEvent, httpSniffEventWireSize, http_sniff_event. cbn [hs_tgid hs_tid hs_comm hs_daddr hs_dport hs_payload].
  pose proof (len_nonneg fill). pose proof (len_nonneg payload). unfold httpPayloadMax, httpSniffEventHeaderSize.
  size_ok. field 0%nat. field 1%nat. field 2%nat. field 3%nat. field 4%nat. field 6%nat.
  replace (_ <? len payload) with false by (symmetry; z_bool; lia). field 7%nat. done.
Qed.

Lemma tls_sniff_layout e p fill v6 q t : u32 (ts_tgid e) -> u32 (ts_tid e) -> len (ts_comm e) = 16 -> len (ts_daddr e) = 4 -> u16 (ts_dport e) -> len p = 2 -> len (ts_payload e) + len fill = 256 -> len (ts_daddr6 e) = 16 -> flag (ts_isIPv6 e) v6 -> 5 <= len q ->
  decodeTLSSniffEvent (concat (tls_sniff_event e p fill v6 q) ++ t) = Ret (Some e).
Proof.
  destruct e as [tgid tid comm daddr dport payload daddr6 isIPv6]. cbn [ts_tgid ts_tid ts_comm ts_daddr ts_dport ts_payload ts_daddr6 ts_isIPv6]. unfold u64, u32, u16, u8, s32, flag. intros.
  unfold decodeTLSSniffEvent, tlsSniffEventWireSize, tls_sniff_event. cbn [ts_tgid ts_tid ts_comm ts_daddr ts_dport ts_payload ts_daddr6 ts_isIPv6].
  pose proof (len_nonneg fill). pose proof (len_nonneg payload).
  unfold tlsPayloadMax, tlsSniffEventIPv6Offset, tlsSniffEventHeaderSize, tlsPayloadMax.
  size_ok. field 0%nat. field 1%nat. field 2%nat. field 3%nat. field 4%nat. field 6%nat.
  replace (_ <? len payload) with false by (symmetry; z_bool; lia). field 7%nat. field 9%nat. field 10%nat. naive_solver.
Qed.

Lemma bpf_audit_layout e t : u32 (ba_tgid e) -> u32 (ba_tid e) -> len (ba_comm e) = 16 -> u32 (ba_cmd e) ->
  decodeBPFAuditEvent (concat (bpf_audit_event e) ++ t) = Ret (Some e).
Proof.
  destruct e as [tgid tid comm cmd]. cbn [ba_tgid ba_tid ba_comm ba_cmd]. unfold u64, u32, u16, u8, s32, flag. intros.
  unfold decodeBPFAuditEvent, bpfAuditEventWireSize, bpf_audit_event. cbn [ba_tgid ba_tid ba_comm ba_cmd].
  size_ok. field 0%nat. field 1%nat. field 2%nat. field 3%nat. done.
Qed.

Lemma ktls_layout e p t : u32 (kt_tgid e) -> u32 (kt_tid e) -> u32 (kt_fd e) -> len (kt_comm e) = 16 -> len p = 3 ->
  decodeKTLSEvent (concat (ktls_event e p) ++ t) = Ret (Some e).
Proof.
  destruct e as [tgid tid fd comm direction]. cbn [kt_tgid kt_tid kt_fd kt_comm kt_direction]. unfold u64, u32, u16, u8, s32, flag. intros.
  unfold decodeKTLSEvent, ktlsEventWireSize, ktls_event. cbn [kt_tgid kt_tid kt_fd kt_comm kt_direction].
  size_ok. field 0%nat. field 1%nat. field 2%nat. field 3%nat. field 4%nat. done.
Qed.

Lemma tcp_state_layout e t : u64 (st_timestampNS e) -> u32 (st_pid e) -> len (st_saddr e) = 4 -> len (st_daddr e) = 4 -> u16 (st_sport e) -> u16 (st_dport e) -> s32 (st_oldState e) -> s32 (st_newState e) -> len (st_comm e) = 16 ->
  decodeTCPStateEvent (concat (tcp_state_event e) ++ t) = Ret (Some e).
Proof.
  destruct e as [timestampNS pid saddr daddr sport dport oldState newState comm]. cbn [st_timestampNS st_pid st_saddr st_daddr st_sport st_dport st_oldState st_newState st_comm]. pose proof bits32_range; unfold u64, u32, u16, u8, s32, flag. intros.
  unfold decodeTCPStateEvent, tcpStateEventWireSize, tcp_state_event. cbn [st_timestampNS st_pid st_saddr st_daddr st_sport st_dport st_oldState st_newState st_comm].
  size_ok. field 0%nat. field 1%nat. field 2%nat. field 3%nat. field 4%nat. field 5%nat. field 6%nat. field 7%nat. field 8%nat. by rewrite !int32_roundtrip.
Qed.

Lemma io_uring_send_layout e hello t : u64 (io_ts e) -> u32 (io_pid e) -> u32 (io_fd e) -> len (io_daddr e) = 4 -> u16 (io_dport e) -> flag (io_hasTLSHello e) hello -> len (io_comm e) = 16 ->
  decodeIOUringSendEvent (concat (io_uring_send_event e hello) ++ t) = Ret (Some e).
Proof.
  destruct e as [ts pid fd daddr dport op hasTLSHello comm]. cbn [io_ts io_pid io_fd io_daddr io_dport io_op io_hasTLSHello io_comm]. unfold u64, u32, u16, u8, s32, flag. intros.
  unfold decodeIOUringSendEvent, ioUringSendEventWireSize, io_uring_send_event. cbn [io_ts io_pid io_fd io_daddr io_dport io_op io_hasTLSHello io_comm].
  size_ok. field 0%nat. field 1%nat. field 2%nat. field 3%nat. field 4%nat. field 5%nat. field 6%nat. field 7%nat. naive_solver.
Qed.

Lemma egress_backstop_layout e p q t : u64 (eb_ts e) -> u32 (eb_pid e) -> len (eb_comm e) = 16 -> len p = 2 -> len (eb_daddr e) = 16 -> u16 (eb_dport e) -> len q = 6 ->
  decodeEgressBackstopEvent (concat (egress_backstop_event e p q) ++ t) = Ret (Some e).
Proof.
  destruct e as [ts pid af ipproto daddr dport comm]. cbn [eb_ts eb_pid eb_af eb_ipproto eb_daddr eb_dport eb_comm]. unfold u64, u32, u16, u8, s32, flag. intros.
  unfold decodeEgressBackstopEvent, egressBackstopEventWireSize, egress_backstop_event. cbn [eb_ts eb_pid eb_af eb_ipproto eb_daddr eb_dport eb_comm].
  size_ok. field 0%nat. field 1%nat. field 2%nat. field 3%nat. field 4%nat. field 6%nat. field 7%nat. done.
Qed.

Lemma self_defense_layout e p t : u64 (sd_ts e) -> len (sd_comm e) = 16 -> u32 (sd_tgid e) -> u32 (sd_targetID e) -> s32 (sd_cmd e) -> len p = 3 ->
  decodeBpfSelfDefenseEvent (concat (bpf_self_defense_event e p) ++ t) = Ret (Some e).
Proof.
  destruct e as [ts comm tgid targetID cmd kind]. cbn [sd_ts sd_comm sd_tgid sd_targetID sd_cmd sd_kind]. pose proof bits32_range; unfold u64, u32, u16, u8, s32, flag. intros.
  unfold decodeBpfSelfDefenseEvent, bpfSelfDefenseEventWireSize, bpf_self_defense_event. cbn [sd_ts sd_comm sd_tgid sd_targetID sd_cmd sd_kind].
  size_ok. field 0%nat. field 1%nat. field 2%nat. field 3%nat. field 4%nat. field 5%nat. by rewrite int32_roundtrip.
Qed.

Lemma io_uring_tls_layout e p fill gap q t : u64 (it_ts e) -> u32 (it_pid e) -> len (it_comm e) = 16 -> len p = 3 -> len (it_payload e) + len fill = 256 -> len gap = 2 -> len (it_daddr e) = 4 -> u16 (it_dport e) -> len q = 6 ->
  decodeIOUringTLSEvent (concat (io_uring_tls_event e p fill gap q) ++ t) = Ret (Some e).
Proof.
  destruct e as [ts pid op payload comm daddr dport]. cbn [it_ts it_pid it_op it_payload it_comm it_daddr it_dport]. unfold u64, u32, u16, u8, s32, flag. intros.
  unfold decodeIOUringTLSEvent, ioUringTLSEventWireSize, io_uring_tls_event. cbn [it_ts it_pid it_op it_payload it_comm it_daddr it_dport].
  pose proof (len_nonneg fill). pose proof (len_nonneg payload). unfold ioUringTLSPayloadMax.
  size_ok. field 0%nat. field 1%nat. field 2%nat. field 3%nat. field 5%nat.
  replace (256 <? len payload) with false by (symmetry; z_bool; lia). field 6%nat. field 9%nat. field 10%nat. done.
Qed.

Lemma deny_layout e pad t : u32 (dn_tgid e) -> u32 (dn_tid e) -> len (dn_comm e) = 16 -> len (dn_daddr16 e) = 16 -> u16 (dn_dport e) ->
  decodeDenyEvent (concat (deny_event e pad) ++ t) = Ret (Some e).
Proof.
  destruct e as [tgid tid comm protocol reason af daddr16 dport]. cbn [dn_tgid dn_tid dn_comm dn_protocol dn_reason dn_af dn_daddr16 dn_dport]. unfold u64, u32, u16, u8, s32, flag. intros.
  unfold decodeDenyEvent, denyEventWireSize, deny_event. cbn [dn_tgid dn_tid dn_comm dn_protocol dn_reason dn_af dn_daddr16 dn_dport].
  size_ok. field 0%nat. field 1%nat. field 2%nat. field 3%nat. field 4%nat. field 5%nat. field 7%nat. field 8%nat. done.
Qed.

Lemma dns_sniff_layout pkt isTCP p fill : len p = 3 -> len pkt + len fill = 4096 ->
  decodeDNSSniffSample (concat (dns_sniff_event pkt isTCP p fill) ++ []) = Ret (Some (pkt, negb (isTCP =? 0))).
Proof.
  intros Hp Hf. pose proof (len_nonneg pkt). pose proof (len_nonneg fill).
  unfold decodeDNSSniffSample, dns_sniff_event, dnsSniffEventWireSizeLegacy, dnsSniffEventWireSize, dnsSniffMaxPayload.
  set (raw := concat _ ++ []). assert (len raw = 4104) as Hl by (unfold raw; cbn [concat]; len_lia).
  rewrite Hl. cbn [Z.ltb Z.compare Pos.compare Pos.compare_cont]. unfold raw. field 0%nat.
  replace (4096 <? len pkt) with false by (symmetry; z_bool; lia).
  change (4104 =? 4 + 4096) with false. change (4104 <? 4 + 1 + 3 + 4096) with false. cbv iota. field 1%nat.
  replace (4104 <? len pkt + 8) with false by (symmetry; z_bool; lia). field 3%nat. done.
Qed.

(** C39: every decoder inverts the layout of the struct the BPF side writes:
    whatever the padding and whatever follows the record, the fields come back
    exactly, signed fields and capture-length-delimited payloads included. *)
Theorem decoders_invert_layouts :
(forall e p t, u32 (ce_tgid e) -> u32 (ce_tid e) -> len (ce_comm e) = 16 -> len (ce_daddr e) = 4 -> u16 (ce_dport e) ->
    len p = 2 -> decodeConnectEvent (concat (connect_event e p) ++ t) = Ret (Some e)) /\
(forall magic e t, len magic = 4 -> s32 (cr_result e) -> u32 (cr_tgid e) -> u32 (cr_tid e) -> len (cr_comm e) = 16 ->
    decodeConnectResultEvent (concat (connect_result_event magic e) ++ t) = Ret (Some e)) /\
(forall e p t, u32 (us_tgid e) -> u32 (us_tid e) -> len (us_comm e) = 16 -> len (us_daddr e) = 4 -> u16 (us_dport e) ->
    u32 (us_dgramLen e) -> len p = 2 -> decodeUDPSendEvent (concat (udp_send_event e p) ++ t) = Ret (Some e)) /\
(forall e p fill q t, u32 (hs_tgid e) -> u32 (hs_tid e) -> len (hs_comm e) = 16 -> len (hs_daddr e) = 4 -> u16
    (hs_dport e) -> len p = 2 -> len (hs_payload e) + len fill = 192 -> len q = 2 -> decodeHTTPSniffEvent (concat
    (http_sniff_event e p fill q) ++ t) = Ret (Some e)) /\
(forall e p fill v6 q t, u32 (ts_tgid e) -> u32 (ts_tid e) -> len (ts_comm e) = 16 -> len (ts_daddr e) = 4 -> u16
    (ts_dport e) -> len p = 2 -> len (ts_payload e) + len fill = 256 -> len (ts_daddr6 e) = 16 -> flag (ts_isIPv6 e) v6
    -> 5 <= len q -> decodeTLSSniffEvent (concat (tls_sniff_event e p fill v6 q) ++ t) = Ret (Some e)) /\
(forall e t, u32 (ba_tgid e) -> u32 (ba_tid e) -> len (ba_comm e) = 16 -> u32 (ba_cmd e) -> decodeBPFAuditEvent (concat
    (bpf_audit_event e) ++ t) = Ret (Some e)) /\
(forall e p t, u32 (kt_tgid e) -> u32 (kt_tid e) -> u32 (kt_fd e) -> len (kt_comm e) = 16 -> len p = 3 ->
    decodeKTLSEvent (concat (ktls_event e p) ++ t) = Ret (Some e)) /\
(forall e t, u64 (st_timestampNS e) -> u32 (st_pid e) -> len (st_saddr e) = 4 -> len (st_daddr e) = 4 -> u16 (st_sport
    e) -> u16 (st_dport e) -> s32 (st_oldState e) -> s32 (st_newState e) -> len (st_comm e) = 16 -> decodeTCPStateEvent
    (concat (tcp_state_event e) ++ t) = Ret (Some e)) /\
(forall e hello t, u64 (io_ts e) -> u32 (io_pid e) -> u32 (io_fd e) -> len (io_daddr e) = 4 -> u16 (io_dport e) -> flag
    (io_hasTLSHello e) hello -> len (io_comm e) = 16 -> decodeIOUringSendEvent (concat (io_uring_send_event e hello) ++
    t) = Ret (Some e)) /\
(forall e p q t, u64 (eb_ts e) -> u32 (eb_pid e) -> len (eb_comm e) = 16 -> len p = 2 -> len (eb_daddr e) = 16 -> u16
    (eb_dport e) -> len q = 6 -> decodeEgressBackstopEvent (concat (egress_backstop_event e p q) ++ t) = Ret (Some e)) /\
(forall e p t, u64 (sd_ts e) -> len (sd_comm e) = 16 -> u32 (sd_tgid e) -> u32 (sd_targetID e) -> s32 (sd_cmd e) -> len
    p = 3 -> decodeBpfSelfDefenseEvent (concat (bpf_self_defense_event e p) ++ t) = Ret (Some e)) /\
(forall e p fill gap q t, u64 (it_ts e) -> u32 (it_pid e) -> len (it_comm e) = 16 -> len p = 3 -> len (it_payload e) +
    len fill = 256 -> len gap = 2 -> len (it_daddr e) = 4 -> u16 (it_dport e) -> len q = 6 -> decodeIOUringTLSEvent
    (concat (io_uring_tls_event e p fill gap q) ++ t) = Ret (Some e)) /\
(forall e pad t, u32 (dn_tgid e) -> u32 (dn_tid e) -> len (dn_comm e) = 16 -> len (dn_daddr16 e) = 16 -> u16 (dn_dport
    e) -> decodeDenyEvent (concat (deny_event e pad) ++ t) = Ret (Some e)) /\
(forall pkt isTCP p fill, len p = 3 -> len pkt + len fill = 4096 -> decodeDNSSniffSample (concat (dns_sniff_event pkt
    isTCP p fill) ++ []) = Ret (Some (pkt, negb (isTCP =? 0)))).
Proof.
  split_and!; [exact connect_layout|exact connect_result_layout|exact udp_send_layout|exact http_sniff_layout|exact tls_sniff_layout|exact bpf_audit_layout|exact ktls_layout|exact tcp_state_layout|exact io_uring_send_layout|exact egress_backstop_layout|exact self_defense_layout|exact io_uring_tls_layout|exact deny_layout|exact dns_sniff_layout].
Qed.

(** * Witness *)

Definition ex_deny : denyEvent :=
  mkDenyEvent 4321 4322 (copy_array 16 (str "curl")) 1 1 2 (copy_array 16 [10; 0; 0; 7]) 443.

Lemma decoders_invert_layouts_witness : decodeDenyEvent (concat (deny_event ex_deny 0) ++ [9]) = Ret (Some ex_deny).
Proof.
  apply (proj1 (proj2 (proj2 (proj2 (proj2 (proj2 (proj2 (proj2 (proj2 (proj2 (proj2 (proj2 (proj2
    decoders_invert_layouts))))))))))))); by vm_compute.
Defined.
