(* ===== verification/DefendMaps.v ===== *)
(** The enforcement maps: internal/agent/agent_linux_policy_maps.go (plans and
    loaders), defend_rearm.go (expected keysets and reconciliation),
    [lpmKeysetsEqual] of agent_linux_integrity.go, [loadAllowedDomainsMap] of
    agent_linux.go, and the kernel's side of the lookup in
    src/bpf/defend_policy.inc.

    The maps are the interface of BpfMap.v.  A loader returns the map as it
    left it together with the Go result, since an error does not undo the
    writes before it. *)
From S2P Require Import Prelude GoStrings GoNet Policy BpfMap Allowlist.

Open Scope Z_scope.

Inductive defend_err :=
  | ErrNilCIDR
  | ErrCIDRMask
  | ErrCIDRNotIPv4
  | ErrCIDRMasked
  | ErrTooMany (n : Z)
  | ErrMapNil (n : Z)
  | ErrObjsNil
  | ErrUpdate (e : bpf_err)
  | ErrDelete (e : bpf_err)
  | ErrIterate (e : bpf_err).

(** * Keys of the LPM tries

    Four bytes of prefix length, little-endian, then the address. *)
Definition lpmKey (prefix : Z) (addr : bytes) : bytes := le_bytes 4 prefix ++ addr.

(** The key of an IPv4 network, or the check it fails. *)
Definition netKey4 (n : IPNet) : result defend_err bytes :=
  let '(ones, bits) := Mask_Size (net_Mask n) in
  if negb (bits =? 32)%nat || (32 <? ones)%nat then Err ErrCIDRMask
  else match To4 (net_IP n) with
       | None => Err ErrCIDRNotIPv4
       | Some ip4 =>
         match IP_Mask ip4 (net_Mask n) with
         | None => Err ErrCIDRMasked
         | Some network => Ok (lpmKey (Z.of_nat ones) (be_bytes 4 (be_val (take 4 network))))
         end
       end.

(** The key of an IPv6 network; [None] is a [continue]. *)
Definition netKey6 (n : IPNet) : option bytes :=
  let '(ones, bits) := Mask_Size (net_Mask n) in
  if negb (bits =? 128)%nat then None
  else match To16 (net_IP n) with
       | None => None
       | Some ip16 => Some (lpmKey (Z.of_nat ones) (copy_array 16 ip16))
       end.

Record allowedLPMPlan := mkPlan { singleIPKeys : list bytes; cidrKeys : list bytes; totalEntries : Z }.

(** [addKey]: the keys seen and the list extended. *)
Definition addKey (st : gset bytes * list bytes) (key : bytes) : gset bytes * list bytes :=
  if decide (key ∈ st.1) then st else ({[key]} ∪ st.1, st.2 ++ [key]).

Section Maps.
Context `{!RangeOrder bytes} {M : Type} `{!BpfMapOps bytes Z M} `{!BpfMapIter bytes Z M}.

Definition buildAllowedLPMPlan (ipKeys : gset bytes) (nets : list (option IPNet)) : result defend_err allowedLPMPlan :=
  let ipAddrs := Sort (set_range 0 ipKeys) in
  let '(seen, singles) := fold_left (fun st addr => addKey st (lpmKey 32 addr)) ipAddrs (∅, []) in
  st ← foldE (fun st n =>
      match n with
      | None => Err ErrNilCIDR
      | Some n => key ← netKey4 n; Ok (addKey st key)
      end) nets (seen, []);
  Ok (mkPlan singles st.2 (Z.of_nat (size st.1))).

Definition buildDefendAllowedPlan (compiled : CompileResult) (pol : option Policy) : result defend_err allowedLPMPlan :=
  let v4keys := MergeLiteralAllowedIPv4Keys pol (AllowedIPv4 compiled) in
  plan ← buildAllowedLPMPlan v4keys (AllowedIPv4Nets pol);
  if MaxAllowedDefendIPv4Keys <? totalEntries plan then Err (ErrTooMany (totalEntries plan)) else Ok plan.

(** [m.Update(key, 1)] for each key, until one fails. *)
Fixpoint updateKeys (m : M) (keys : list bytes) : M * option bpf_err :=
  match keys with
  | [] => (m, None)
  | k :: keys' => let '(m', err) := bm_update m k 1 in
                  match err with Some e => (m', Some e) | None => updateKeys m' keys' end
  end.

Definition loadAllowedLPMMap (m : option M) (plan : allowedLPMPlan) : option M * result defend_err unit :=
  match m with
  | None => (None, if 0 <? totalEntries plan then Err (ErrMapNil (totalEntries plan)) else Ok tt)
  | Some m =>
    let '(m, e1) := updateKeys m (singleIPKeys plan) in
    match e1 with
    | Some e => (Some m, Err (ErrUpdate e))
    | None => let '(m, e2) := updateKeys m (cidrKeys plan) in
              (Some m, match e2 with Some e => Err (ErrUpdate e) | None => Ok tt end)
    end
  end.

(** The loop of [loadIgnoredLPMMap]. *)
Fixpoint ignoredLoop (m : M) (nets : list (option IPNet)) (programmed : Z) : M * result defend_err Z :=
  match nets with
  | [] => (m, Ok programmed)
  | None :: nets' => ignoredLoop m nets' programmed
  | Some n :: nets' =>
    match netKey4 n with
    | Err _ => ignoredLoop m nets' programmed
    | Ok key => let '(m', err) := bm_update m key 1 in
                match err with
                | Some e => (m', Err (ErrUpdate e))
                | None => ignoredLoop m' nets' (programmed + 1)
                end
    end
  end.

Definition loadIgnoredLPMMap (m : option M) (nets : list (option IPNet)) : option M * result defend_err Z :=
  match nets with
  | [] => (m, Ok 0)
  | _ =>
    match m with
    | None => (None, Err (ErrMapNil (len nets)))
    | Some m =>
      if MaxIgnoredIPv4Nets <? len nets then (Some m, Err (ErrTooMany (len nets)))
      else let '(m', r) := ignoredLoop m nets 0 in (Some m', r)
    end
  end.

(** [loadAllowedDomainsMap]: the exact hosts, as NUL-padded 256-byte keys. *)
Definition loadAllowedDomainsMap (m : M) (pol : option Policy) : M * result defend_err unit :=
  let domains := match pol with Some p => set_range 2 (exactHosts p) | None => [] end in
  let '(m', err) := updateKeys m (map (copy_array 256) domains) in
  (m', match err with Some e => Err (ErrUpdate e) | None => Ok tt end).

(** ** IPv6 *)

(** A nil network would be dereferenced. *)
Fixpoint cidr6Loop (m : M) (cidrs : list (option IPNet)) (programmed : Z) : go (M * result defend_err Z) :=
  match cidrs with
  | [] => Ret (m, Ok programmed)
  | None :: _ => Panic
  | Some n :: cidrs' =>
    match netKey6 n with
    | None => cidr6Loop m cidrs' programmed
    | Some key => let '(m', err) := bm_update m key 1 in
                  match err with
                  | Some e => Ret (m', Err (ErrUpdate e))
                  | None => cidr6Loop m' cidrs' (programmed + 1)
                  end
    end
  end.

Definition populateAllowedIPv6Map (m : option M) (compiled : CompileResult) (pol : option Policy)
    : go (option M * result defend_err Z) :=
  match m with
  | None => Ret (None, Ok 0)
  | Some m =>
    let allowed := MergeLiteralAllowedIPv6Into pol (AllowedIPv6 compiled) in
    let keys := Sort (set_range 0 allowed) in
    let cidrs := AllowedIPv6Nets pol in
    if MaxAllowedDefendIPv6Keys <? len keys + len cidrs then Ret (Some m, Err (ErrTooMany (len keys + len cidrs)))
    else
      let '(m, err) := updateKeys m (map (lpmKey 128) keys) in
      match err with
      | Some e => Ret (Some m, Err (ErrUpdate e))
      | None => r ← cidr6Loop m cidrs (len keys); Ret (Some r.1, r.2)
      end
  end.

(** ** Expected keysets and reconciliation (defend_rearm.go) *)

(** The keys of the networks that pass the checks. *)
Definition netKeys (nets : list (option IPNet)) : gset bytes :=
  list_to_set (omap (fun n => match n with
                              | Some n => match netKey4 n with Ok k => Some k | Err _ => None end
                              | None => None
                              end) nets).

Definition expectedAllowedKeys (compiled : CompileResult) (pol : option Policy) : gset bytes :=
  let v4keys := MergeLiteralAllowedIPv4Keys pol (AllowedIPv4 compiled) in
  set_map (lpmKey 32) v4keys ∪ netKeys (AllowedIPv4Nets pol).

Definition expectedIgnoredKeys (pol : option Policy) : gset bytes := netKeys (IgnoredIPv4Nets pol).

(** The update loop of [reconcileLPMMap]: the map, [added], the error. *)
Fixpoint reconcileAdd (m : M) (existing : gset bytes) (keys : list bytes) (added : Z) : M * Z * option bpf_err :=
  match keys with
  | [] => (m, added, None)
  | k :: keys' =>
    let '(m', err) := bm_update m k 1 in
    match err with
    | Some e => (m', added, Some e)
    | None => reconcileAdd m' existing keys' (if decide (k ∈ existing) then added else added + 1)
    end
  end.

(** The delete loop. *)
Fixpoint reconcileDelete (m : M) (stale : list bytes) (removed : Z) : M * Z * option bpf_err :=
  match stale with
  | [] => (m, removed, None)
  | k :: stale' =>
    let '(m', err) := bm_delete m k in
    match err with
    | None => reconcileDelete m' stale' (removed + 1)
    | Some ErrKeyNotExist => reconcileDelete m' stale' removed
    | Some (ErrMap e) => (m', removed, Some (ErrMap e))
    end
  end.

Definition reconcileLPMMap (m : option M) (expected : gset bytes) : option M * (Z * Z * option defend_err) :=
  match m with
  | None => (None, (0, 0, if decide (expected = ∅) then None else Some (ErrMapNil (Z.of_nat (size expected)))))
  | Some m =>
    let '(seen, iterErr) := bm_iter m in
    let existing : gset bytes := list_to_set seen.*1 in
    let stale := filter (fun k => k ∉ expected) seen.*1 in
    match iterErr with
    | Some e => (Some m, (0, 0, Some (ErrIterate e)))
    | None =>
      let '(m, added, updErr) := reconcileAdd m existing (set_range 0 expected) 0 in
      match updErr with
      | Some e => (Some m, (added, 0, Some (ErrUpdate e)))
      | None =>
        let '(m, removed, delErr) := reconcileDelete m stale 0 in
        (Some m, (added, removed, match delErr with Some e => Some (ErrDelete e) | None => None end))
      end
    end
  end.

Definition rearmAllowedFromSnapshot (m : option M) (compiled : CompileResult) (pol : option Policy) :=
  reconcileLPMMap m (expectedAllowedKeys compiled pol).
Definition rearmIgnoredFromPolicy (m : option M) (pol : option Policy) := reconcileLPMMap m (expectedIgnoredKeys pol).

(** [lpmKeysetsEqual]. *)
Definition lpmKeysetsEqual (a b : gset bytes) : bool :=
  if negb (size a =? size b)%nat then false else forallb (fun k => bool_decide (k ∈ b)) (set_range 1 a).
End Maps.

(** * The loader of a backend *)

(** [defendMapSet]: the maps of one backend. *)
Record defendMapSet (MC M : Type) := mkMapSet {
  dm_cfg : MC;
  dm_ignoredLPM : option M;
  dm_allowedLPM : option M;
  dm_allowedDomains : M;
}.
Arguments mkMapSet {MC M}.
Arguments dm_cfg {MC M}.
Arguments dm_ignoredLPM {MC M}.
Arguments dm_allowedLPM {MC M}.
Arguments dm_allowedDomains {MC M}.

Section Load.
Context `{!RangeOrder bytes} {M : Type} `{!BpfMapOps bytes Z M} {MC : Type} `{!BpfMapOps Z Z MC}.
Abbreviation maps := (defendMapSet MC M).

Definition loadDefendMapsForBackend (ms : maps) (compiled : CompileResult) (pol : option Policy)
    : maps * result defend_err (Z * Z) :=
  let '(cfg, e0) := bm_update (dm_cfg ms) 0 1 in
  let ms := mkMapSet cfg (dm_ignoredLPM ms) (dm_allowedLPM ms) (dm_allowedDomains ms) in
  match e0 with
  | Some e => (ms, Err (ErrUpdate e))
  | None =>
    let '(ign, r1) := match pol with
                      | Some _ => loadIgnoredLPMMap (dm_ignoredLPM ms) (IgnoredIPv4Nets pol)
                      | None => (dm_ignoredLPM ms, Ok 0)
                      end in
    let ms := mkMapSet cfg ign (dm_allowedLPM ms) (dm_allowedDomains ms) in
    match r1 with
    | Err e => (ms, Err e)
    | Ok ignoredCount =>
      match buildDefendAllowedPlan compiled pol with
      | Err e => (ms, Err e)
      | Ok plan =>
        let '(allowed, r2) := loadAllowedLPMMap (dm_allowedLPM ms) plan in
        let ms := mkMapSet cfg ign allowed (dm_allowedDomains ms) in
        match r2 with
        | Err e => (ms, Err e)
        | Ok _ =>
          let '(doms, r3) := loadAllowedDomainsMap (dm_allowedDomains ms) pol in
          let ms := mkMapSet cfg ign allowed doms in
          match r3 with
          | Err e => (ms, Err e)
          | Ok _ => (ms, Ok (totalEntries plan, ignoredCount))
          end
        end
      end
    end
  end.

(** [loadLSMDefendMaps] and [loadDefendMaps]; [None] is a nil object set. *)
Definition loadLSMDefendMaps (objs : option maps) (compiled : CompileResult) (pol : option Policy)
    : option maps * result defend_err (Z * Z) :=
  match objs with
  | None => (None, Err ErrObjsNil)
  | Some ms => let '(ms', r) := loadDefendMapsForBackend ms compiled pol in (Some ms', r)
  end.

Definition loadDefendMaps (objs : option (maps * option M)) (compiled : CompileResult) (pol : option Policy)
    : go (option (maps * option M) * result defend_err (Z * Z * Z)) :=
  match objs with
  | None => Ret (None, Err ErrObjsNil)
  | Some (ms, m6) =>
    let '(ms', r) := loadDefendMapsForBackend ms compiled pol in
    match r with
    | Err e => Ret (Some (ms', m6), Err e)
    | Ok (ipv4Entries, ignoredCount) =>
      x ← populateAllowedIPv6Map m6 compiled pol;
      Ret (Some (ms', x.1), match x.2 with
                            | Err e => Err e
                            | Ok ipv6Programmed => Ok (ipv4Entries, ipv6Programmed, ignoredCount)
                            end)
    end
  end.
End Load.

(** * The kernel's side (src/bpf/defend_policy.inc) *)

(** A trie entry matches an address when they agree on the entry's prefix. *)
Definition lpm_covers (n : nat) (addr key : bytes) : bool :=
  let mask := CIDRMask n (Z.to_nat (le_val (take 4 key))) in
  bool_decide (land_bytes (drop 4 key) mask = land_bytes addr mask).

(** [bpf_map_lookup_elem] on an LPM trie with a full-length key is not NULL
    exactly when some entry matches. *)
Definition trie_hit (n : nat) (trie : gmap bytes Z) (addr : bytes) : bool :=
  existsb (fun kv => lpm_covers n addr kv.1) (map_to_list trie).

(** What the hooks read: the tries, the owner cache and the domain set. *)
Record kernelMaps := mkKernel {
  k_mode : gmap Z Z;
  k_allowed : gmap bytes Z;
  k_ignored : gmap bytes Z;
  k_dns_cache : gmap bytes bytes;
  k_allowed_domains : gmap bytes Z;
}.

Definition defense_enabled (k : kernelMaps) : bool :=
  match k_mode k !! 0 with Some mode => mode =? 1 | None => false end.

Definition dst_is_allowlisted (k : kernelMaps) (addr : bytes) : bool :=
  trie_hit 4 (k_allowed k) addr ||
  match k_dns_cache k !! addr with
  | Some domain => bool_decide (is_Some (k_allowed_domains k !! domain))
  | None => false
  end.

Definition ipv4_is_loopback (addr : bytes) : bool := match addr with b :: _ => b =? 127 | [] => false end.
Definition ipv4_is_unspecified (addr : bytes) : bool := bool_decide (addr = [0; 0; 0; 0]).

Definition dst_in_ignored (k : kernelMaps) (addr : bytes) : bool :=
  ipv4_is_loopback addr || ipv4_is_unspecified addr || trie_hit 4 (k_ignored k) addr.

(** The decision of an IPv4 hook (cgroup/connect4, trace_defend_cgroup.inc). *)
Definition kernel_allows (k : kernelMaps) (addr : bytes) : bool :=
  negb (defense_enabled k) || dst_in_ignored k addr || dst_is_allowlisted k addr.

(** * Lemmas: what the loaders write *)

Section Writes.
Context `{!RangeOrder bytes} {M : Type} `{!BpfMapOps bytes Z M} `{!BpfMapLaws bytes Z M} `{!BpfMapExact bytes Z M}.

Lemma updateKeys_view (m : M) keys m' : updateKeys m keys = (m', None) ->
  forall k, bm_view m' !! k = if decide (k ∈ keys) then Some 1 else bm_view m !! k.
Proof.
  revert m. induction keys as [|k0 keys IH]; intros m E k; cbn [updateKeys] in E.
  - injection E as ->. by rewrite decide_False by apply not_elem_of_nil.
  - destruct (bm_update m k0 1) as [m1 [e|]] eqn:Eu; [done|]. rewrite (IH _ E k).
    rewrite (bm_update_exact _ _ _ _ Eu). destruct (decide (k ∈ keys)) as [Hk|Hk].
    + by rewrite decide_True by by right.
    + destruct (decide (k = k0)) as [->|Hne].
      * rewrite lookup_insert_eq, decide_True; [done|by left].
      * rewrite lookup_insert_ne by done. rewrite decide_False; [done|]. rewrite elem_of_cons. tauto.
Qed.

Lemma updateKeys_dom (m : M) keys m' : updateKeys m keys = (m', None) ->
  dom (bm_view m') = list_to_set keys ∪ dom (bm_view m).
Proof.
  intros E. apply set_eq. intros k. rewrite elem_of_union, elem_of_list_to_set, !elem_of_dom.
  rewrite (updateKeys_view _ _ _ E k). case_decide as Hk; [|naive_solver]. split; [by left|eauto].
Qed.
End Writes.

(** [addKey] over a list: the keys that were not seen, once each. *)
Lemma addKey_fold (keys : list bytes) st :
  let st' := fold_left addKey keys st in
  exists new, st'.2 = st.2 ++ new /\ NoDup new /\
    (forall k, k ∈ new <-> k ∈ keys /\ (k ∉ st.1)) /\
    (forall k, k ∈ st'.1 <-> k ∈ keys \/ k ∈ st.1).
Proof.
  cbv zeta. revert st. induction keys as [|k keys IH]; intros st; cbn [fold_left].
  { exists []. split_and!; [by rewrite app_nil_r|constructor|..]; intros k; rewrite elem_of_nil; tauto. }
  unfold addKey at 2 4. case_decide as Hk.
  - destruct (IH st) as (new & E1 & Hnd & Hn & Hs). exists new. split_and!; [done|done|..]; intros k'.
    + rewrite Hn, elem_of_cons. split; [tauto|]. intros [[->|?] ?]; done.
    + rewrite Hs, elem_of_cons. split; [tauto|]. intros [[->|?]|?]; auto.
  - destruct (IH ({[k]} ∪ st.1, st.2 ++ [k])) as (new & E1 & Hnd & Hn & Hs). cbn [fst snd] in *.
    setoid_rewrite elem_of_union in Hn. setoid_rewrite elem_of_singleton in Hn.
    setoid_rewrite elem_of_union in Hs. setoid_rewrite elem_of_singleton in Hs.
    exists (k :: new). rewrite <- app_assoc in E1. split_and!; [done| | |].
    + constructor; [|done]. rewrite Hn. tauto.
    + intros k'. rewrite !elem_of_cons, Hn. destruct (decide (k' = k)) as [->|]; tauto.
    + intros k'. rewrite Hs, elem_of_cons. tauto.
Qed.

Lemma NoDup_size (l : list bytes) (s : gset bytes) : NoDup l -> (forall k, k ∈ s <-> k ∈ l) -> Z.of_nat (size s) = len l.
Proof.
  intros Hnd Hs. unfold len. f_equal. rewrite <- (size_list_to_set (C := gset bytes) l Hnd). f_equal.
  apply set_eq. intros k. by rewrite Hs, elem_of_list_to_set.
Qed.

Lemma foldE_addKey nets st st' :
  foldE (fun st n => match n with None => Err ErrNilCIDR | Some n => key ← netKey4 n; Ok (addKey st key) end) nets st = Ok st' ->
  exists keys, Forall2 (fun n k => exists m, n = Some m /\ netKey4 m = Ok k) nets keys /\ st' = fold_left addKey keys st.
Proof.
  revert st. induction nets as [|[n|] nets IH]; intros st; cbn [foldE]; [intros [= <-]; by exists []| |done].
  destruct (netKey4 n) as [k|] eqn:En; [|done]. cbn [mbind result_bind]. intros (keys & HF & ->)%IH.
  exists (k :: keys). split; [constructor; eauto|done].
Qed.

Section Plan.
Context `{!RangeOrder bytes}.

Lemma netKeys_of nets keys : Forall2 (fun n k => exists m, n = Some m /\ netKey4 m = Ok k) nets keys ->
  forall k, k ∈ netKeys nets <-> k ∈ keys.
Proof.
  intros HF k. unfold netKeys. rewrite elem_of_list_to_set.
  replace (omap _ nets) with keys; [done|].
  induction HF as [|n k0 nets keys (m & -> & E) _ IH]; [done|]. cbn [omap list_omap]. rewrite E. by f_equal.
Qed.

(** A plan lists each key of the expected keyset once. *)
Lemma plan_spec ipKeys nets plan : buildAllowedLPMPlan ipKeys nets = Ok plan ->
  NoDup (singleIPKeys plan ++ cidrKeys plan) /\
  (forall k, k ∈ singleIPKeys plan ++ cidrKeys plan <-> k ∈ set_map (D := gset bytes) (lpmKey 32) ipKeys ∪ netKeys nets) /\
  totalEntries plan = len (singleIPKeys plan ++ cidrKeys plan) /\
  (forall n, n ∈ nets -> exists m k, n = Some m /\ netKey4 m = Ok k).
Proof.
  unfold buildAllowedLPMPlan. set (ipAddrs := Sort (set_range 0 ipKeys)).
  assert (fold_left (fun st addr => addKey st (lpmKey 32 addr)) ipAddrs (∅, []) =
    fold_left addKey (map (lpmKey 32) ipAddrs) (∅, [])) as Em.
  { generalize (∅ : gset bytes, [] : list bytes). induction ipAddrs as [|a l IH]; intros st; [done|]. apply IH. }
  rewrite Em. destruct (addKey_fold (map (lpmKey 32) ipAddrs) (∅, [])) as (n1 & E1 & Hnd1 & Hn1 & Hs1).
  destruct (fold_left addKey _ _) as [seen singles]. cbn [fst snd app] in *. subst singles.
  destruct (foldE _ nets (seen, [])) as [st|] eqn:Ef; [|done]. cbn [mbind result_bind]. intros [= <-].
  cbn [singleIPKeys cidrKeys totalEntries].
  apply foldE_addKey in Ef as (keys & HF & ->).
  destruct (addKey_fold keys (seen, [])) as (n2 & E2 & Hnd2 & Hn2 & Hs2). cbn [fst snd app] in *. rewrite E2.
  assert (NoDup (n1 ++ n2)) as Hnd.
  { apply NoDup_app. split_and!; [done| |done]. intros k H1 H2. apply Hn2 in H2 as [_ H2]. apply H2, Hs1. left. by apply Hn1. }
  assert (forall k, k ∈ n1 ++ n2 <-> k ∈ map (lpmKey 32) ipAddrs \/ k ∈ keys) as Hk.
  { intros k. rewrite elem_of_app, Hn1, Hn2, Hs1. rewrite elem_of_empty.
    destruct (decide (k ∈ map (lpmKey 32) ipAddrs)); tauto. }
  split_and!; [done| | |].
  - intros k. rewrite Hk, elem_of_union, (netKeys_of nets keys HF k), elem_of_map.
    assert (k ∈ map (lpmKey 32) ipAddrs <-> exists x, k = lpmKey 32 x /\ x ∈ ipKeys) as ->; [|tauto].
    rewrite list_elem_of_In, in_map_iff. setoid_rewrite <- list_elem_of_In. unfold ipAddrs.
    setoid_rewrite elem_of_Sort. setoid_rewrite elem_of_set_range. naive_solver.
  - apply NoDup_size; [done|]. intros k. rewrite Hs2, Hk, Hs1, elem_of_empty. tauto.
  - intros n Hn. apply list_elem_of_lookup in Hn as [i Hi]. destruct (Forall2_lookup_l _ _ _ _ _ HF Hi) as (k & _ & m & ? & ?). eauto.
Qed.

Lemma elem_of_literals p keys k :
  k ∈ MergeLiteralAllowedIPv4Keys (Some p) keys <-> k ∈ keys \/ (k ∈ ips p /\ length k = 4%nat).
Proof.
  unfold MergeLiteralAllowedIPv4Keys, set_fold. cbn. rewrite <- (elem_of_elements (ips p)).
  induction (elements (ips p)) as [|a l IH]; cbn [foldr]; [rewrite elem_of_nil; tauto|].
  rewrite elem_of_cons. unfold IPv4len. case_decide as Ha.
  - rewrite elem_of_union, elem_of_singleton, IH, copy_array_exact by done.
    split; [intros [->|[?|[? ?]]]; tauto|]. intros [?|[[->|?] ?]]; tauto.
  - rewrite IH. split; [tauto|]. intros [?|[[->|?] ?]]; [tauto|done|tauto].
Qed.
End Plan.

(** * Lemmas: what the kernel matches *)

Lemma land_ones n s : length s = n -> wf_bytes s -> land_bytes s (CIDRMask n (8 * n)) = s.
Proof.
  revert s. induction n as [|n IH]; intros s Hl Hw; destruct s as [|b s]; try done.
  injection Hl as Hl. inversion Hw; subst. unfold land_bytes.
  assert (CIDRMask (S (length s)) (8 * S (length s)) = 0xff :: CIDRMask (length s) (8 * length s)) as ->.
  { cbn [CIDRMask]. rewrite Nat.min_l by lia. by replace (8 * S (length s) - 8)%nat with (8 * length s)%nat by lia. }
  cbn [zip_with]. f_equal; [by apply land_ff_id|]. by apply IH.
Qed.

Lemma trie_hit_spec n trie addr :
  trie_hit n trie addr = true <-> exists k v, trie !! k = Some v /\ lpm_covers n addr k = true.
Proof.
  unfold trie_hit. rewrite existsb_exists. split.
  - intros ([k v] & Hin & Hc). apply list_elem_of_In, elem_of_map_to_list in Hin. eauto.
  - intros (k & v & Hk & Hc). exists (k, v). split; [|done]. by apply list_elem_of_In, elem_of_map_to_list.
Qed.

Lemma lpm_covers_key n p addr a : 0 <= p < 2 ^ 32 ->
  lpm_covers n addr (lpmKey p a) = bool_decide (land_bytes a (CIDRMask n (Z.to_nat p)) = land_bytes addr (CIDRMask n (Z.to_nat p))).
Proof.
  intros Hp. unfold lpm_covers, lpmKey.
  rewrite take_app_le, take_ge by (rewrite length_le_bytes; lia). rewrite le_val_le_bytes by done.
  by rewrite drop_app_ge, length_le_bytes by (rewrite length_le_bytes; lia).
Qed.

(** A full-length entry matches its own address only. *)
Lemma covers_single n addr a : (n <= 16)%nat -> length a = n -> length addr = n -> wf_bytes a -> wf_bytes addr ->
  lpm_covers n addr (lpmKey (8 * Z.of_nat n) a) = bool_decide (a = addr).
Proof.
  intros Hn Ha Hd Hwa Hwd. rewrite lpm_covers_key by lia.
  replace (Z.to_nat (8 * Z.of_nat n)) with (8 * n)%nat by lia. by rewrite !land_ones.
Qed.

Lemma covers_32 addr a : length a = 4%nat -> length addr = 4%nat -> wf_bytes a -> wf_bytes addr ->
  lpm_covers 4 addr (lpmKey 32 a) = bool_decide (a = addr).
Proof. intros. by apply (covers_single 4); [lia|..]. Qed.

Lemma covers_128 addr a : length a = 16%nat -> length addr = 16%nat -> wf_bytes a -> wf_bytes addr ->
  lpm_covers 16 addr (lpmKey 128 a) = bool_decide (a = addr).
Proof. intros. by apply (covers_single 16); [lia|..]. Qed.

(** An IPv4 network with a 4-byte CIDR mask. *)
Definition plain_net (n : IPNet) : Prop :=
  exists v k, length v = 4%nat /\ wf_bytes v /\ (k <= 32)%nat /\ To4 (net_IP n) = Some v /\ net_Mask n = CIDRMask 4 k.

(** The trie entry of a plain network matches what the network contains. *)
Lemma plain_key n : plain_net n -> exists key, netKey4 n = Ok key /\
  forall addr, length addr = 4%nat -> lpm_covers 4 addr key = IPNet_Contains n addr.
Proof.
  intros (v & k & Hv & Hw & Hk & H4 & Hm). unfold netKey4. rewrite Hm, Mask_Size_CIDRMask by lia.
  change (negb (8 * 4 =? 32)%nat) with false. replace (32 <? k)%nat with false by (symmetry; apply Nat.ltb_ge; lia).
  cbn [orb]. rewrite H4, IP_Mask_same by (rewrite ?CIDRMask_length; lia).
  set (nw := land_bytes v (CIDRMask 4 k)).
  assert (length nw = 4%nat) as Hn by (unfold nw; rewrite land_bytes_length; rewrite ?CIDRMask_length; done).
  assert (wf_bytes nw) as Hwn by (apply wf_land_bytes; [done|apply wf_CIDRMask]).
  rewrite take_ge by lia. replace (be_bytes 4 (be_val nw)) with nw by (rewrite <- Hn; symmetry; by apply be_bytes_be_val).
  eexists. split; [done|]. intros addr Ha. rewrite lpm_covers_key by lia. rewrite Nat2Z.id.
  unfold nw. rewrite land_bytes_idemp. unfold IPNet_Contains, networkNumberAndMask. rewrite H4, Hm.
  rewrite To4_v4 by done. rewrite CIDRMask_length. unfold IPv4len. rewrite !decide_True by (done || lia). done.
Qed.

(** A key exists only for a 4-byte mask. *)
Lemma netKey4_mask n key : netKey4 n = Ok key -> length (net_Mask n) = 4%nat.
Proof.
  unfold netKey4, Mask_Size. destruct (simpleMaskLength (net_Mask n)) as [k|]; [|done].
  destruct (negb (8 * length (net_Mask n) =? 32)%nat) eqn:E; [done|]. intros _.
  apply negb_false_iff, Nat.eqb_eq in E. lia.
Qed.

Lemma v4_net_plain n : v4_net n -> length (net_Mask n) = 4%nat -> plain_net n.
Proof.
  intros (v & k & Hv & Hw & Hk & Hn) Hm. exists v, k. split_and!; [done..| |].
  - by eapply v4_net_To4.
  - unfold networkNumberAndMask in Hn. rewrite (v4_net_To4 _ _ _ Hn Hv) in Hn. unfold IPv4len in Hn.
    rewrite !decide_True in Hn by done. by simplify_eq.
Qed.

Lemma v4_net_mask n : v4_net n -> length (net_Mask n) = 4%nat \/ length (net_Mask n) = 16%nat.
Proof.
  intros (v & k & Hv & Hw & Hk & Hn). unfold networkNumberAndMask, IPv4len, IPv6len in Hn. repeat case_match; repeat case_decide; simplify_eq; auto.
Qed.

Lemma policy_net_plain raw n key : parseIPEntry raw = Ok (IPNet4 n) -> netKey4 n = Ok key -> plain_net n.
Proof.
  unfold parseIPEntry. intros H Hk.
  destruct (decide _); [done|]. destruct (Contains _ _); [|repeat case_match; done].
  destruct (ParseCIDR _) as [[ip m]|] eqn:E; [|done]. destruct (To4 ip); [|done]. injection H as ->.
  pose proof (ParseCIDR_wf _ _ _ E) as Hw. apply ParseCIDR_shape in E as [v k Hv Hk' -> ->|k Hl Hk' ->].
  - apply Forall_app in Hw as [_ Hw]. exists (land_bytes v (CIDRMask 4 k)), k. cbn [net_IP net_Mask].
    assert (length (land_bytes v (CIDRMask 4 k)) = 4%nat) by (rewrite land_bytes_length; rewrite ?CIDRMask_length; done).
    split_and!; [done|apply wf_land_bytes; [done|apply wf_CIDRMask]|done|by apply To4_v4|done].
  - apply netKey4_mask in Hk. cbn [net_Mask] in Hk. by rewrite CIDRMask_length in Hk.
Qed.

(** The trie that holds exactly the keys of plain networks hits what they
    contain. *)
Lemma netKeys_covers nets addr : length addr = 4%nat -> (forall n, Some n ∈ nets -> plain_net n) ->
  (exists k, k ∈ netKeys nets /\ lpm_covers 4 addr k = true) <-> NetsContains nets addr = true.
Proof.
  intros Ha Hp. rewrite NetsContains_v4 by done. unfold netKeys. setoid_rewrite elem_of_list_to_set.
  setoid_rewrite list_elem_of_omap. split.
  - intros (k & ([n|] & Hn & E) & Hc); [|done]. destruct (plain_key n (Hp n Hn)) as (key & Ek & Hcov). rewrite Ek in E.
    simplify_eq. exists n. split; [done|]. by rewrite <- Hcov.
  - intros (n & Hn & Hc). destruct (plain_key n (Hp n Hn)) as (key & Ek & Hcov). exists key. split; [|by rewrite Hcov].
    exists (Some n). by rewrite Ek.
Qed.

(** A trie with the keys of IPv4 networks hits what those with a 4-byte mask
    contain; the others have no key. *)
Lemma netKeys_hit nets addr : length addr = 4%nat -> (forall n, Some n ∈ nets -> v4_net n) ->
  (exists k, k ∈ netKeys nets /\ lpm_covers 4 addr k = true) <->
  exists n, Some n ∈ nets /\ length (net_Mask n) = 4%nat /\ IPNet_Contains n addr = true.
Proof.
  intros Ha Hp. unfold netKeys. setoid_rewrite elem_of_list_to_set. setoid_rewrite list_elem_of_omap. split.
  - intros (k & ([n|] & Hn & E) & Hc); [|done]. destruct (netKey4 n) as [key|] eqn:Ek; [|done]. injection E as ->.
    pose proof (netKey4_mask _ _ Ek) as Hm. destruct (plain_key n (v4_net_plain n (Hp n Hn) Hm)) as (key' & Ek' & Hcov).
    assert (key' = k) as -> by congruence. exists n. by rewrite <- Hcov.
  - intros (n & Hn & Hm & Hc). destruct (plain_key n (v4_net_plain n (Hp n Hn) Hm)) as (key & Ek & Hcov).
    exists key. split; [|by rewrite Hcov]. exists (Some n). by rewrite Ek.
Qed.

(** * Lemmas: built policies *)

Lemma wf_To4 ip v : wf_bytes ip -> To4 ip = Some v -> wf_bytes v.
Proof. unfold To4. intros Hw. repeat case_decide; intros [= <-]; [done|]. by apply Forall_drop. Qed.

Lemma parseIPEntry_lit4 raw v : parseIPEntry raw = Ok (IPLit4 v) -> length v = 4%nat /\ wf_bytes v.
Proof.
  intros Hr. split; [by apply (parseIPEntry_valid raw (IPLit4 v))|]. unfold parseIPEntry in Hr.
  destruct (decide _); [done|]. destruct (Contains _ _); [repeat case_match; done|].
  destruct (ParseIP _) as [ip|] eqn:E; [|done]. destruct (To4 ip) as [w|] eqn:E4; [|repeat case_match; done].
  injection Hr as ->. eapply wf_To4; [|done]. by eapply ParseIP_wf.
Qed.

Section Built.
Context `{UnicodeCase}.

Lemma policy_ignored_v4 hosts addrs ign on p n :
  BuildPolicyEx hosts addrs ign on = Ok p -> Some n ∈ ignored p -> v4_net n.
Proof.
  intros HB Hn. apply BuildPolicyEx_inv in HB as (_ & _ & user & Hu & E). rewrite E in Hn.
  assert (forall m, Some m ∈ implicit_ignored on ++ user -> v4_net m) as Hwf.
  { intros m [Hm|Hm]%elem_of_app; [by eapply implicit_v4|by eapply ParseIgnoredIPNets_v4]. }
  destruct (mergeDeduped_inv (implicit_ignored on) user Hwf) as (seen & [_ Hfrom _ _ _]). cbn in Hfrom.
  destruct (Hfrom _ Hn) as (m & ? & [= <-] & Hm & E'). destruct (Hwf _ Hm) as (v & k & ? & ? & ? & ?).
  exists v, k. split_and!; [done..|]. congruence.
Qed.

(** A policy that is off lists no address. *)
Lemma disabled_lists_nothing hosts addrs ign on p addr : BuildPolicyEx hosts addrs ign on = Ok p -> length addr = 4%nat ->
  enabled p = false -> (addr ∉ ips p) /\ NetsContains (nets p) addr = false.
Proof.
  intros HB Ha He. apply BuildPolicyEx_inv in HB as (Hp & _).
  assert (forall e, e <> IPSkip -> ~ ip_entry_of addrs e) as Hno.
  { intros e Hne Hx. assert (enabled p = true); [|congruence]. apply (po_enabled _ _ _ Hp). eauto. }
  split.
  - intros Hi%(po_ips _ _ _ Hp). by eapply (Hno (IPLit4 addr)).
  - destruct (NetsContains (nets p) addr) eqn:E; [|done]. apply NetsContains_v4 in E as (n & Hn & _); [|done].
    apply (po_nets _ _ _ Hp) in Hn as (m & _ & Hm). by eapply (Hno (IPNet4 m)) in Hm.
Qed.

(** The classifier on an IPv4 address without a name. *)
Lemma classify_unnamed hosts addrs ign on p addr : BuildPolicyEx hosts addrs ign on = Ok p -> length addr = 4%nat ->
  (Classify (Some p) [] addr = ClassAllowed <-> addr ∈ ips p \/ NetsContains (nets p) addr = true) /\
  (Classify (Some p) [] addr = ClassIgnored <->
    ~ (addr ∈ ips p \/ NetsContains (nets p) addr = true) /\ NetsContains (ignored p) addr = true).
Proof.
  intros HB Ha. pose proof (disabled_lists_nothing hosts addrs ign on p addr HB Ha) as Hoff.
  unfold Classify. rewrite To4_v4 by done. change (normalize []) with ([] : bytes). rewrite (decide_True (P := [] = [])) by done.
  destruct (enabled p) eqn:He; cbn [andb negb].
  - destruct (bool_decide (addr ∈ ips p)) eqn:Eb; [apply bool_decide_eq_true in Eb|apply bool_decide_eq_false in Eb];
      destruct (NetsContains (nets p) addr), (NetsContains (ignored p) addr); cbn; intuition discriminate.
  - destruct (Hoff eq_refl) as [H1 H2]. rewrite H2. destruct (NetsContains (ignored p) addr); cbn; intuition discriminate.
Qed.
End Built.

(** * Properties: loading *)

Section LoadProperties.
Context `{!RangeOrder bytes} {M : Type} `{!BpfMapOps bytes Z M} `{!BpfMapLaws bytes Z M} `{!BpfMapExact bytes Z M}.
Context {MC : Type} `{!BpfMapOps Z Z MC} `{!BpfMapLaws Z Z MC}.

Lemma netKeys_cons n nets : netKeys (n :: nets) =
  match n with Some n => match netKey4 n with Ok k => {[k]} ∪ netKeys nets | Err _ => netKeys nets end | None => netKeys nets end.
Proof. unfold netKeys. cbn [omap list_omap]. destruct n as [n|]; [|done]. by destruct (netKey4 n). Qed.

Lemma ignoredLoop_dom (m : M) nets c m' c' : ignoredLoop m nets c = (m', Ok c') ->
  dom (bm_view m') = netKeys nets ∪ dom (bm_view m).
Proof.
  revert m c. induction nets as [|n nets IH]; intros m c E; cbn [ignoredLoop] in E.
  { simplify_eq. unfold netKeys. cbn. by rewrite union_empty_l_L. }
  rewrite netKeys_cons. destruct n as [n|]; [|by eapply IH].
  destruct (netKey4 n) as [k|e]; [|by eapply IH].
  destruct (bm_update m k 1) as [m1 [e|]] eqn:Eu; [done|]. rewrite (IH _ _ E), (bm_update_exact _ _ _ _ Eu), dom_insert_L.
  by rewrite assoc_L, (comm_L (∪) (netKeys nets)) by apply _.
Qed.

Lemma loadIgnored_dom (m : M) nets r c : loadIgnoredLPMMap (Some m) nets = (r, Ok c) ->
  exists m', r = Some m' /\ dom (bm_view m') = netKeys nets ∪ dom (bm_view m).
Proof.
  unfold loadIgnoredLPMMap. destruct nets as [|n nets].
  { intros [= <- <-]. exists m. split; [done|]. unfold netKeys. cbn. by rewrite union_empty_l_L. }
  case_match; [done|]. destruct (ignoredLoop m (n :: nets) 0) as [m' x] eqn:E. intros [= <- ->].
  exists m'. split; [done|]. by eapply ignoredLoop_dom.
Qed.

Lemma loadAllowed_dom (m : M) plan r : loadAllowedLPMMap (Some m) plan = (r, Ok tt) ->
  exists m', r = Some m' /\ dom (bm_view m') = list_to_set (singleIPKeys plan ++ cidrKeys plan) ∪ dom (bm_view m).
Proof.
  unfold loadAllowedLPMMap. destruct (updateKeys m (singleIPKeys plan)) as [m1 [e|]] eqn:E1; [done|].
  destruct (updateKeys m1 (cidrKeys plan)) as [m2 [e|]] eqn:E2; [done|]. intros [= <-].
  exists m2. split; [done|]. rewrite (updateKeys_dom _ _ _ E2), (updateKeys_dom _ _ _ E1), list_to_set_app_L.
  by rewrite assoc_L, (comm_L (∪) (list_to_set (cidrKeys plan))) by apply _.
Qed.

(** The state of a backend after a successful load into empty tries. *)
Lemma load_inv (ms ms' : defendMapSet MC M) m0 i0 compiled p n c :
  dm_allowedLPM ms = Some m0 -> dm_ignoredLPM ms = Some i0 -> bm_view m0 = ∅ -> bm_view i0 = ∅ ->
  loadDefendMapsForBackend ms compiled (Some p) = (ms', Ok (n, c)) ->
  exists m i plan, dm_allowedLPM ms' = Some m /\ dm_ignoredLPM ms' = Some i /\
    bm_view (dm_cfg ms') !! 0 = Some 1 /\
    dom (bm_view m) = expectedAllowedKeys compiled (Some p) /\
    dom (bm_view i) = expectedIgnoredKeys (Some p) /\
    n = Z.of_nat (size (expectedAllowedKeys compiled (Some p))) /\ n <= MaxAllowedDefendIPv4Keys /\
    buildAllowedLPMPlan (MergeLiteralAllowedIPv4Keys (Some p) (AllowedIPv4 compiled)) (nets p) = Ok plan.
Proof.
  intros Ha Hi Hva Hvi. unfold loadDefendMapsForBackend.
  destruct (bm_update (dm_cfg ms) 0 1) as [cfg [e|]] eqn:E0; [done|].
  cbn [dm_ignoredLPM dm_allowedLPM dm_allowedDomains]. rewrite Hi, Ha.
  destruct (loadIgnoredLPMMap (Some i0) _) as [ign [cn|]] eqn:E1; [|done].
  unfold buildDefendAllowedPlan.
  destruct (buildAllowedLPMPlan _ _) as [plan|] eqn:E2; [|done]. cbn [mbind result_bind].
  destruct (_ <? _) eqn:E3; [done|]. z_bool.
  destruct (loadAllowedLPMMap (Some m0) plan) as [al [[]|]] eqn:E4; [|done].
  destruct (loadAllowedDomainsMap _ _) as [doms [[]|]]; [|done]. intros [= <- <- <-].
  apply loadIgnored_dom in E1 as (i & -> & Di). apply loadAllowed_dom in E4 as (m & -> & Dm).
  rewrite Hvi, dom_empty_L, union_empty_r_L in Di. rewrite Hva, dom_empty_L, union_empty_r_L in Dm.
  destruct (plan_spec _ _ _ E2) as (Hnd & Hk & Ht & _).
  assert (dom (bm_view m) = expectedAllowedKeys compiled (Some p)) as Dm'.
  { rewrite Dm. apply set_eq. intros k. rewrite elem_of_list_to_set. apply Hk. }
  exists m, i, plan. cbn [dm_allowedLPM dm_ignoredLPM dm_cfg]. split_and!; try done.
  - by destruct (bm_update_ok _ _ _ _ E0) as [-> _].
  - rewrite Ht. symmetry. apply NoDup_size; [done|]. intros k. symmetry. apply Hk.
Qed.

(** C6: the load path and the re-arm path agree: after a successful load into
    empty tries the allowed and ignored tries hold exactly the keysets that
    [expectedAllowedKeys] and [expectedIgnoredKeys] compute, the mode key is
    set, and the reported count is the size of the keyset and within the
    BPF map's limit. *)
Theorem load_programs_expected (ms ms' : defendMapSet MC M) m0 i0 compiled p n c :
  dm_allowedLPM ms = Some m0 -> dm_ignoredLPM ms = Some i0 -> bm_view m0 = ∅ -> bm_view i0 = ∅ ->
  loadDefendMapsForBackend ms compiled (Some p) = (ms', Ok (n, c)) ->
  exists m i, dm_allowedLPM ms' = Some m /\ dm_ignoredLPM ms' = Some i /\
    bm_view (dm_cfg ms') !! 0 = Some 1 /\
    dom (bm_view m) = expectedAllowedKeys compiled (Some p) /\
    dom (bm_view i) = expectedIgnoredKeys (Some p) /\
    n = Z.of_nat (size (expectedAllowedKeys compiled (Some p))) /\ n <= MaxAllowedDefendIPv4Keys.
Proof.
  intros H1 H2 H3 H4 H5. destruct (load_inv _ _ _ _ _ _ _ _ H1 H2 H3 H4 H5) as (m & i & plan & ?). naive_solver.
Qed.

(** The hit of a trie depends on its keys only. *)
Lemma trie_keys_hit (n : nat) (trie : gmap bytes Z) (addr : bytes) :
  trie_hit n trie addr = true <-> exists k, k ∈ dom trie /\ lpm_covers n addr k = true.
Proof. rewrite trie_hit_spec. setoid_rewrite elem_of_dom. unfold is_Some. naive_solver. Qed.

(** The owner's branch of the hook, when the domains map holds the exact hosts. *)
Lemma owner_allowed (cache : gmap bytes bytes) (doms : gmap bytes Z) (p : Policy) (addr : bytes) :
  (forall key, is_Some (doms !! key) <-> exists host, host ∈ exactHosts p /\ key = copy_array 256 host) ->
  match cache !! addr with Some domain => bool_decide (is_Some (doms !! domain)) | None => false end = true <->
  exists host, host ∈ exactHosts p /\ cache !! addr = Some (copy_array 256 host).
Proof.
  intros Hd. destruct (cache !! addr) as [d|]; [|split; [done|by intros (? & _ & ?)]].
  rewrite bool_decide_eq_true, Hd. naive_solver.
Qed.

(** The IPv4 trie of a loaded policy. *)
Lemma allowed_hit `{UnicodeCase} (hosts addrs ign : bytes) (on : bool) (p : Policy) (compiled : CompileResult) (plan : allowedLPMPlan) (trie : gmap bytes Z) (addr : bytes) :
  BuildPolicyEx hosts addrs ign on = Ok p ->
  buildAllowedLPMPlan (MergeLiteralAllowedIPv4Keys (Some p) (AllowedIPv4 compiled)) (nets p) = Ok plan ->
  dom trie = expectedAllowedKeys compiled (Some p) ->
  (forall k, k ∈ AllowedIPv4 compiled -> length k = 4%nat /\ wf_bytes k) ->
  length addr = 4%nat -> wf_bytes addr ->
  trie_hit 4 trie addr = true <-> addr ∈ AllowedIPv4 compiled \/ addr ∈ ips p \/ NetsContains (nets p) addr = true.
Proof.
  intros HB Hplan Hdom Hc Ha Hw. apply BuildPolicyEx_inv in HB as ([_ _ Hips Hnets _ _ _ _] & _).
  destruct (plan_spec _ _ _ Hplan) as (_ & _ & _ & Hok).
  assert (forall k, k ∈ ips p -> length k = 4%nat /\ wf_bytes k) as Hlit.
  { intros k (raw & _ & Hr)%Hips. by apply parseIPEntry_lit4 in Hr. }
  rewrite trie_hit_spec. rewrite <- (netKeys_covers (nets p) addr Ha).
  - split.
    + intros (k & v & Hk & Hcov). apply (elem_of_dom_2 (D := gset bytes)) in Hk. rewrite Hdom in Hk.
      unfold expectedAllowedKeys in Hk. apply elem_of_union in Hk as [Hk|Hk]; [|right; right; eauto].
      apply elem_of_map in Hk as (a & -> & Ha'). apply elem_of_literals in Ha'.
      assert (length a = 4%nat /\ wf_bytes a) as [Hla Hwa] by (destruct Ha' as [?|[? _]]; auto).
      rewrite covers_32 in Hcov by done. apply bool_decide_eq_true in Hcov as ->. tauto.
    + intros Hx. assert (exists k, k ∈ expectedAllowedKeys compiled (Some p) /\ lpm_covers 4 addr k = true) as (k & Hk & Hcov).
      { unfold expectedAllowedKeys. destruct Hx as [Hx|[Hx|(k & Hk & Hcov)]].
        1, 2: exists (lpmKey 32 addr); split;
          [apply elem_of_union_l, elem_of_map; exists addr; split; [done|]; apply elem_of_literals; auto
          |rewrite covers_32 by done; by apply bool_decide_eq_true_2].
        exists k. split; [by apply elem_of_union_r|done]. }
      rewrite <- Hdom, elem_of_dom in Hk. destruct Hk as [v Hk]. eauto.
  - intros n Hn. apply Hnets in Hn as Hn'. destruct Hn' as (m & [= <-] & raw & _ & Hr).
    destruct (Hok _ Hn) as (m & k & [= <-] & Hk). by eapply policy_net_plain.
Qed.

(** The domains map after a successful load: the exact hosts of the policy. *)
Lemma loadDomains_dom (m m' : M) (p : Policy) : loadAllowedDomainsMap m (Some p) = (m', Ok tt) -> bm_view m = ∅ ->
  forall key, is_Some (bm_view m' !! key) <-> exists host, host ∈ exactHosts p /\ key = copy_array 256 host.
Proof.
  unfold loadAllowedDomainsMap. destruct (updateKeys m _) as [m1 [e|]] eqn:Eu; [done|]. intros [= <-] H0 key.
  rewrite <- (elem_of_dom (D := gset bytes)), (updateKeys_dom _ _ _ Eu), H0, dom_empty_L, union_empty_r_L, elem_of_list_to_set.
  rewrite list_elem_of_In, in_map_iff. setoid_rewrite <- list_elem_of_In. setoid_rewrite elem_of_set_range. naive_solver.
Qed.

(** What a successful load wrote to the domains map. *)
Lemma load_domains (ms ms' : defendMapSet MC M) compiled p r : loadDefendMapsForBackend ms compiled (Some p) = (ms', Ok r) ->
  loadAllowedDomainsMap (dm_allowedDomains ms) (Some p) = (dm_allowedDomains ms', Ok tt).
Proof.
  unfold loadDefendMapsForBackend. destruct (bm_update (dm_cfg ms) 0 1) as [cfg [e|]]; [done|].
  cbn [dm_ignoredLPM dm_allowedLPM dm_allowedDomains].
  destruct (loadIgnoredLPMMap _ _) as [ign [cn|]]; [|done]. destruct (buildDefendAllowedPlan _ _) as [plan|]; [|done].
  destruct (loadAllowedLPMMap _ _) as [al [[]|]]; [|done].
  destruct (loadAllowedDomainsMap _ _) as [doms [[]|]]; [|done]. by intros [= <- _].
Qed.

(** C1: the kernel enforces the policy userspace classifies by.  After a
    successful load of a built policy into empty maps, and whatever the owner
    cache holds by then, the IPv4 hook lets a destination pass exactly when it
    is loopback or unspecified, is one of the compiled addresses, is owned in
    the cache by an exact host of the policy, is an address that [Classify]
    calls allowed without knowing a name, or is a member of an ignored network
    with a 4-byte mask.  The last two are the addresses that [Classify] calls
    allowed or ignored, except that a network written with an IPv4-mapped
    address keeps a 16-byte mask and is not programmed. *)
Theorem kernel_enforces_policy `{UnicodeCase} hosts addrs ign on p compiled (ms ms' : defendMapSet MC M) m0 i0 n c addr :
  BuildPolicyEx hosts addrs ign on = Ok p ->
  (forall k, k ∈ AllowedIPv4 compiled -> length k = 4%nat /\ wf_bytes k) ->
  dm_allowedLPM ms = Some m0 -> dm_ignoredLPM ms = Some i0 ->
  bm_view m0 = ∅ -> bm_view i0 = ∅ -> bm_view (dm_allowedDomains ms) = ∅ ->
  loadDefendMapsForBackend ms compiled (Some p) = (ms', Ok (n, c)) ->
  length addr = 4%nat -> wf_bytes addr ->
  exists m i, dm_allowedLPM ms' = Some m /\ dm_ignoredLPM ms' = Some i /\
  let programmed := exists net, Some net ∈ ignored p /\ length (net_Mask net) = 4%nat /\ IPNet_Contains net addr = true in
  (forall cache : gmap bytes bytes,
    kernel_allows (mkKernel (bm_view (dm_cfg ms')) (bm_view m) (bm_view i) cache (bm_view (dm_allowedDomains ms'))) addr = true <->
    ipv4_is_loopback addr = true \/ ipv4_is_unspecified addr = true \/ addr ∈ AllowedIPv4 compiled \/
    (exists host, host ∈ exactHosts p /\ cache !! addr = Some (copy_array 256 host)) \/
    Classify (Some p) [] addr = ClassAllowed \/ programmed) /\
  (programmed -> Classify (Some p) [] addr = ClassAllowed \/ Classify (Some p) [] addr = ClassIgnored) /\
  (Classify (Some p) [] addr = ClassIgnored -> exists net, Some net ∈ ignored p /\ IPNet_Contains net addr = true /\
    (length (net_Mask net) = 4%nat \/ length (net_Mask net) = 16%nat)).
Proof.
  intros HB Hc H1 H2 H3 H4 H0 H5 Ha Hw.
  pose proof (loadDomains_dom _ _ _ (load_domains _ _ _ _ _ H5) H0) as Hdom.
  destruct (load_inv _ _ _ _ _ _ _ _ H1 H2 H3 H4 H5) as (m & i & plan & Em & Ei & Hmode & Dm & Di & _ & _ & Hplan).
  exists m, i. cbv zeta.
  pose proof (allowed_hit hosts addrs ign on p compiled plan (bm_view m) addr HB Hplan Dm Hc Ha Hw) as Hhit.
  pose proof (netKeys_hit (ignored p) addr Ha (fun net => policy_ignored_v4 hosts addrs ign on p net HB)) as Hign.
  pose proof (trie_keys_hit 4 (bm_view i) addr) as Hi. rewrite Di in Hi. unfold expectedIgnoredKeys in Hi. cbn [IgnoredIPv4Nets] in Hi.
  destruct (classify_unnamed hosts addrs ign on p addr HB Ha) as [Hcla Hcli].
  split_and!; [done|done| | |].
  - intros cache. unfold kernel_allows, defense_enabled, dst_in_ignored, dst_is_allowlisted.
    cbn [k_mode k_allowed k_ignored k_dns_cache k_allowed_domains]. rewrite Hmode. cbn [negb Z.eqb Pos.eqb orb].
    rewrite !orb_true_iff, Hhit, Hi, Hign, Hcla. rewrite (owner_allowed cache _ p addr Hdom). tauto.
  - intros (net & Hn & _ & Hin). rewrite Hcla, Hcli. assert (NetsContains (ignored p) addr = true) by (apply NetsContains_v4; eauto).
    destruct (decide (addr ∈ ips p)), (NetsContains (nets p) addr); tauto || (right; intuition discriminate).
  - intros [_ Hl]%Hcli. apply NetsContains_v4 in Hl as (net & Hn & Hin); [|done]. exists net. split_and!; [done|done|].
    eapply v4_net_mask, policy_ignored_v4; eauto.
Qed.
End LoadProperties.

(** * Properties: the IPv6 trie *)

(** A mask of at least 96 ones decides whether an address is IPv4-mapped. *)
Lemma To4_masked_high ip k : length ip = 16%nat -> wf_bytes ip -> (96 <= k <= 128)%nat ->
  is_Some (To4 (land_bytes ip (CIDRMask 16 k))) <-> is_Some (To4 ip).
Proof.
  intros Hl Hw Hk.
  assert (take 12 (land_bytes ip (CIDRMask 16 k)) = take 12 ip) as Et.
  { unfold land_bytes. rewrite zip_with_take_both. change (zip_with Z.land (take 12 ip) (take 12 (CIDRMask 16 k)))
      with (land_bytes (take 12 ip) (take 12 (CIDRMask 16 k))).
    replace (take 12 (CIDRMask 16 k)) with (CIDRMask 12 (8 * 12)).
    - apply land_ones; [rewrite length_take; lia|by apply Forall_take].
    - replace k with (96 + (k - 96))%nat by lia. reflexivity. }
  assert (length (land_bytes ip (CIDRMask 16 k)) = 16%nat) as Hn by (rewrite land_bytes_length; rewrite ?CIDRMask_length; done).
  unfold To4, IPv4len, IPv6len. rewrite !(decide_False (P := length _ = 4%nat)) by lia. rewrite Et.
  rewrite Hn, Hl. by repeat case_decide.
Qed.

(** An IPv6 network of a policy and its trie entry. *)
Lemma net6_key raw n : parseIPEntry raw = Ok (IPNet6 n) -> exists key, netKey6 n = Some key /\
  forall addr, length addr = 16%nat -> To4 addr = None -> lpm_covers 16 addr key = IPNet_Contains n addr.
Proof.
  unfold parseIPEntry. intros H. destruct (decide _); [done|]. destruct (Contains _ _); [|repeat case_match; done].
  destruct (ParseCIDR _) as [[ip m]|] eqn:E; [|done]. destruct (To4 ip) eqn:E4; [done|]. injection H as ->.
  pose proof (ParseCIDR_wf _ _ _ E) as Hwi.
  apply ParseCIDR_shape in E as [v k Hv _ -> _|k Hl Hk ->]; [by rewrite To4_mapped in E4|].
  set (nw := land_bytes ip (CIDRMask 16 k)).
  assert (length nw = 16%nat) as Hn by (unfold nw; rewrite land_bytes_length; rewrite ?CIDRMask_length; done).
  assert (To4 nw = None) as Hn4.
  { destruct (To4 nw) as [w|] eqn:Et; [|done]. exfalso.
    pose proof (mapped_mask_ones ip k Hl Hk) as H96. fold nw in H96. rewrite Et in H96. specialize (H96 ltac:(done)).
    assert (is_Some (To4 ip)) as [? ?]; [|congruence].
    apply (To4_masked_high ip k Hl Hwi ltac:(lia)). fold nw. by rewrite Et. }
  unfold netKey6. cbn [net_Mask net_IP]. fold nw. rewrite Mask_Size_CIDRMask by lia.
  change (negb (8 * 16 =? 128)%nat) with false. cbv iota. rewrite To16_v6, copy_array_exact by done.
  eexists. split; [done|]. intros addr Ha Ha4. rewrite lpm_covers_key by lia. rewrite Nat2Z.id.
  unfold IPNet_Contains, networkNumberAndMask. cbn [net_IP net_Mask]. fold nw. rewrite Hn4, Ha4, CIDRMask_length.
  unfold IPv6len, IPv4len. rewrite (decide_True (P := length nw = 16%nat)) by done.
  rewrite (decide_False (P := 16%nat = 4%nat)) by done. rewrite (decide_True (P := 16%nat = 16%nat)) by done.
  rewrite (decide_False (P := length nw = 4%nat)) by lia. by rewrite decide_True by lia.
Qed.

Lemma parseIPEntry_lit6 raw v : parseIPEntry raw = Ok (IPLit6 v) -> length v = 16%nat /\ To4 v = None /\ wf_bytes v.
Proof.
  intros Hr. destruct (parseIPEntry_valid raw (IPLit6 v) Hr) as [Hl H4]. split_and!; [done|done|]. unfold parseIPEntry in Hr.
  destruct (decide _); [done|]. destruct (Contains _ _); [repeat case_match; done|].
  destruct (ParseIP _) as [ip|] eqn:E; [|done]. apply ParseIP_wf in E.
  destruct (To4 ip) as [w|] eqn:E4; [done|]. unfold To16, IPv4len, IPv6len in Hr. repeat case_decide; simplify_eq; try done.
  unfold To4, IPv4len in E4. by rewrite decide_True in E4.
Qed.

Lemma elem_of_literals6 p keys k : (forall v, v ∈ ipv6s p -> length v = 16%nat /\ To4 v = None) ->
  k ∈ MergeLiteralAllowedIPv6Into (Some p) keys <-> k ∈ keys \/ k ∈ ipv6s p.
Proof.
  unfold MergeLiteralAllowedIPv6Into, set_fold. cbn. setoid_rewrite <- (elem_of_elements (ipv6s p)).
  induction (elements (ipv6s p)) as [|a l IH]; intros Hl; cbn [foldr]; [rewrite elem_of_nil; tauto|].
  destruct (Hl a ltac:(by left)) as [Ha H4]. unfold IPv6len. rewrite decide_True by done.
  unfold IPv6Set_Add. rewrite decide_False by (by intros ->). rewrite H4, To16_v6, copy_array_exact by done.
  rewrite elem_of_union, elem_of_singleton, elem_of_cons, IH; [tauto|]. intros v Hv. apply Hl. by right.
Qed.

Section IPv6.
Context `{!RangeOrder bytes} {M : Type} `{!BpfMapOps bytes Z M} `{!BpfMapLaws bytes Z M} `{!BpfMapExact bytes Z M}.

(** The loop writes the key of each network and counts it. *)
Lemma cidr6Loop_spec cidrs : (forall n, n ∈ cidrs -> exists net key, n = Some net /\ netKey6 net = Some key) ->
  forall (m : M) (c : Z), exists m' r, cidr6Loop m cidrs c = Ret (m', r) /\
    forall c', r = Ok c' -> c' = c + len cidrs /\
      forall k, is_Some (bm_view m' !! k) <->
        is_Some (bm_view m !! k) \/ exists net, Some net ∈ cidrs /\ netKey6 net = Some k.
Proof.
  induction cidrs as [|n cidrs IH]; intros Hn m c.
  { exists m, (Ok c). split; [done|]. intros c' [= <-]. split; [unfold len; cbn; lia|]. intros k. split; [by left|].
    intros [?|(net & H%elem_of_nil & _)]; done. }
  destruct (Hn n ltac:(by left)) as (net & key & -> & Ek). cbn [cidr6Loop]. rewrite Ek.
  destruct (bm_update m key 1) as [m1 [e|]] eqn:Eu; [by exists m1, (Err (ErrUpdate e))|].
  destruct (IH (fun n H => Hn n (list_elem_of_further _ _ _ H)) m1 (c + 1)) as (m' & r & E & Hr). exists m', r. split; [done|].
  intros c' Hc. destruct (Hr c' Hc) as [-> Hk]. split; [unfold len; cbn [length]; lia|]. intros k. rewrite Hk.
  rewrite (bm_update_exact _ _ _ _ Eu). destruct (decide (k = key)) as [->|Hne].
  - rewrite lookup_insert_eq. split; [|by left; eauto]. intros _. right. exists net. split; [by left|done].
  - rewrite lookup_insert_ne by done. split.
    + intros [?|(n' & ? & ?)]; [by left|]. right. exists n'. split; [by right|done].
    + intros [?|(n' & [[= ->]|?]%elem_of_cons & ?)]; [by left|congruence|right; eauto].
Qed.

(** The IPv6 trie.  Programming the IPv6 allowlist of a built policy never
    dereferences a nil network, whatever the map does; when it succeeds on an
    empty trie, the kernel's lookup of a native IPv6 destination hits exactly
    the resolved addresses, the literal addresses and the members of the
    allowed networks. *)
Theorem ipv6_trie_exact `{UnicodeCase} hosts addrs ign on p compiled (m0 : M) :
  BuildPolicyEx hosts addrs ign on = Ok p ->
  (forall k, k ∈ AllowedIPv6 compiled -> length k = 16%nat /\ wf_bytes k) -> bm_view m0 = ∅ ->
  exists m r, populateAllowedIPv6Map (Some m0) compiled (Some p) = Ret (Some m, r) /\
    forall n, r = Ok n -> n <= MaxAllowedDefendIPv6Keys /\
      forall addr, length addr = 16%nat -> wf_bytes addr -> To4 addr = None ->
        trie_hit 16 (bm_view m) addr = true <->
          addr ∈ AllowedIPv6 compiled \/ addr ∈ ipv6s p \/
          exists net, Some net ∈ ipv6nets p /\ IPNet_Contains net addr = true.
Proof.
  intros HB Hc H0. apply BuildPolicyEx_inv in HB as ([_ _ _ _ Hlit Hnet _ _] & _).
  assert (forall v, v ∈ ipv6s p -> length v = 16%nat /\ To4 v = None /\ wf_bytes v) as Hl.
  { intros v (raw & _ & Hr)%Hlit. by apply parseIPEntry_lit6 in Hr. }
  assert (forall net, Some net ∈ ipv6nets p -> exists key, netKey6 net = Some key /\
    forall addr, length addr = 16%nat -> To4 addr = None -> lpm_covers 16 addr key = IPNet_Contains net addr) as Hk.
  { intros net (m & [= <-] & raw & _ & Hr)%Hnet. by eapply net6_key. }
  cbn [populateAllowedIPv6Map]. set (allowed := MergeLiteralAllowedIPv6Into (Some p) (AllowedIPv6 compiled)).
  set (keys := Sort (set_range 0 allowed)). change (AllowedIPv6Nets (Some p)) with (ipv6nets p).
  destruct (MaxAllowedDefendIPv6Keys <? _) eqn:Emax; [by eexists _, _|]. apply Z.ltb_ge in Emax.
  destruct (updateKeys m0 _) as [m1 [e|]] eqn:Eu; [by eexists _, _|].
  destruct (cidr6Loop_spec (ipv6nets p)) with (m := m1) (c := len keys) as (m & r & -> & Hr).
  { intros n (net & -> & ?)%Hnet. destruct (Hk net) as (key & ? & _); [|eauto]. apply Hnet. eauto. }
  cbn [mbind go_bind fst snd]. exists m, r. split; [done|]. intros n ->. destruct (Hr n eq_refl) as [-> Hv]. split; [done|].
  intros addr Ha Hw H4. rewrite trie_hit_spec.
  assert (forall k, is_Some (bm_view m1 !! k) <-> exists a, k = lpmKey 128 a /\ (a ∈ AllowedIPv6 compiled \/ a ∈ ipv6s p)) as Hm1.
  { intros k. rewrite (updateKeys_view _ _ _ Eu k), H0, lookup_empty.
    setoid_rewrite <- elem_of_literals6; [|by intros v (? & ? & _)%Hl]. fold allowed.
    assert (k ∈ map (lpmKey 128) keys <-> exists a, k = lpmKey 128 a /\ a ∈ allowed) as <-.
    { unfold keys. rewrite list_elem_of_In, in_map_iff. setoid_rewrite <- list_elem_of_In.
      setoid_rewrite elem_of_Sort. setoid_rewrite elem_of_set_range. naive_solver. }
    destruct (decide _); split; try done; by intros []. }
  assert (forall a, a ∈ AllowedIPv6 compiled \/ a ∈ ipv6s p -> lpm_covers 16 addr (lpmKey 128 a) = bool_decide (a = addr)) as Hcov.
  { intros a Hin. assert (length a = 16%nat /\ wf_bytes a) as [? ?] by (destruct Hin as [?|(?&?&?)%Hl]; auto). by apply covers_128. }
  split.
  - intros (k & v & Hkv & Hcv). apply mk_is_Some, Hv in Hkv as [(a & -> & Hin)%Hm1|(net & Hin & Ek)].
    + rewrite Hcov in Hcv by done. apply bool_decide_eq_true in Hcv as ->. tauto.
    + right. right. exists net. split; [done|]. destruct (Hk net Hin) as (key & Ek' & E). simplify_eq. by rewrite <- E.
  - intros Hin. assert (exists k, is_Some (bm_view m !! k) /\ lpm_covers 16 addr k = true) as (k & [v ?] & ?); [|eauto].
    destruct Hin as [Hin|[Hin|(net & Hin & Hcn)]].
    1, 2: exists (lpmKey 128 addr); split; [apply Hv; left; apply Hm1; eauto|rewrite Hcov by auto; by apply bool_decide_eq_true].
    destruct (Hk net Hin) as (key & Ek & E). exists key. split; [apply Hv; right; eauto|by rewrite E].
Qed.
End IPv6.

(** * Properties: reconciliation *)

Section Reconcile.
Context `{!RangeOrder bytes} {M : Type} `{!BpfMapOps bytes Z M} `{!BpfMapLaws bytes Z M} `{!BpfMapExact bytes Z M}.
Context `{!BpfMapIter bytes Z M} `{!BpfMapIterLaws bytes Z M}.

Lemma reconcileAdd_spec (m m' : M) ex keys a a' err : reconcileAdd m ex keys a = (m', a', err) ->
  (forall k, is_Some (bm_view m !! k) -> is_Some (bm_view m' !! k)) /\
  (err = None -> dom (bm_view m') = list_to_set keys ∪ dom (bm_view m) /\ a' = a + len (filter (fun k => k ∉ ex) keys)).
Proof.
  revert m a. induction keys as [|k0 keys IH]; intros m a E; cbn [reconcileAdd] in E.
  { simplify_eq. split; [done|]. intros _. split; [by rewrite list_to_set_nil, union_empty_l_L|unfold len; cbn; lia]. }
  destruct (bm_update m k0 1) as [m1 [e|]] eqn:Eu.
  { simplify_eq. by rewrite (bm_update_err _ _ _ _ _ Eu). }
  apply IH in E as [Hk Hn]. rewrite (bm_update_exact _ _ _ _ Eu) in Hk, Hn. split.
  - intros k Hs. apply Hk. destruct (decide (k = k0)) as [->|?]; [by rewrite lookup_insert_eq|by rewrite lookup_insert_ne].
  - intros ->. destruct (Hn eq_refl) as [-> ->]. rewrite dom_insert_L, list_to_set_cons. split; [set_solver|].
    rewrite filter_cons. unfold len. destruct (decide (k0 ∈ ex)) as [Hx|Hx].
    + rewrite (decide_False (P := k0 ∉ ex)) by tauto. done.
    + rewrite (decide_True (P := k0 ∉ ex)) by done. cbn [length]. lia.
Qed.

Lemma reconcileDelete_spec (m m' : M) stale r r' err : reconcileDelete m stale r = (m', r', err) ->
  (forall k, k ∉ stale -> bm_view m' !! k = bm_view m !! k) /\
  (err = None -> dom (bm_view m') = dom (bm_view m) ∖ list_to_set stale /\
    (NoDup stale -> (forall k, k ∈ stale -> is_Some (bm_view m !! k)) -> r' = r + len stale)).
Proof.
  revert m r. induction stale as [|k0 stale IH]; intros m r E; cbn [reconcileDelete] in E.
  { simplify_eq. split; [done|]. intros _. split; [by rewrite list_to_set_nil, difference_empty_L|unfold len; cbn; lia]. }
  destruct (bm_delete m k0) as [m1 [[|e]|]] eqn:Ed.
  - destruct (bm_delete_none _ _ _ Ed) as [Hnone Hv]. apply IH in E as [Hk Hn]. rewrite Hv in Hk, Hn. split.
    + intros k Hs. apply Hk. intros ?. apply Hs. by right.
    + intros ->. destruct (Hn eq_refl) as [-> _]. split.
      * apply not_elem_of_dom in Hnone. apply set_eq. intros k. rewrite list_to_set_cons, !elem_of_difference, elem_of_union, elem_of_singleton.
        destruct (decide (k = k0)) as [->|]; tauto.
      * intros _ Hs. destruct (Hs k0 ltac:(by left)). congruence.
  - simplify_eq. by rewrite (bm_delete_err _ _ _ _ Ed).
  - apply IH in E as [Hk Hn]. rewrite (bm_delete_ok _ _ _ Ed) in Hk, Hn. split.
    + intros k Hs. rewrite Hk; [apply lookup_delete_ne; intros ->; apply Hs; by left|]. intros ?. apply Hs. by right.
    + intros ->. destruct (Hn eq_refl) as [-> Hc]. split.
      * rewrite dom_delete_L. apply set_eq. intros k. rewrite list_to_set_cons, !elem_of_difference, elem_of_union. tauto.
      * intros [Hk0 Hnd]%NoDup_cons Hs. rewrite Hc; [unfold len; cbn [length]; lia|done|].
        intros k Hin. rewrite lookup_delete_ne by (by intros ->). apply Hs. by right.
Qed.

Lemma iter_keys (m : M) seen : bm_iter m = (seen, None) ->
  NoDup seen.*1 /\ list_to_set (C := gset bytes) seen.*1 = dom (bm_view m) /\ forall k, k ∈ seen.*1 <-> is_Some (bm_view m !! k).
Proof.
  intros E%bm_iter_ok.
  assert (forall k, k ∈ seen.*1 <-> is_Some (bm_view m !! k)) as Hk.
  { intros k. rewrite E, list_elem_of_fmap. split.
    - intros ([k' v] & -> & ?%elem_of_map_to_list). by exists v.
    - intros [v ?]. exists (k, v). split; [done|]. by apply elem_of_map_to_list. }
  split_and!; [rewrite E; apply NoDup_fst_map_to_list| |done].
  apply set_eq. intros k. by rewrite elem_of_list_to_set, elem_of_dom, Hk.
Qed.

Lemma NoDup_size_set (l : list bytes) (s : gset bytes) : NoDup l -> (forall k, k ∈ l <-> k ∈ s) -> len l = Z.of_nat (size s).
Proof. intros. symmetry. by apply NoDup_size. Qed.

(** What a reconciliation leaves; see [reconcile_converges]. *)
Lemma reconcile_success (m m' : M) expected added removed err :
  reconcileLPMMap (Some m) expected = (Some m', (added, removed, err)) ->
  (forall k, k ∈ expected -> is_Some (bm_view m !! k) -> is_Some (bm_view m' !! k)) /\
  (err = None -> dom (bm_view m') = expected /\
    added = Z.of_nat (size (expected ∖ dom (bm_view m))) /\ removed = Z.of_nat (size (dom (bm_view m) ∖ expected))).
Proof.
  cbn [reconcileLPMMap]. destruct (bm_iter m) as [seen [e|]] eqn:Ei; [by intros [= <- <- <- <-]|].
  destruct (iter_keys m seen Ei) as (Hnd & Hset & Hin).
  destruct (reconcileAdd _ _ _ _) as [[m1 a] e1] eqn:Ea. apply reconcileAdd_spec in Ea as [Hkeep Hadd].
  destruct e1 as [e|]; [intros [= <- <- <- <-]; split; [auto|done]|]. destruct (Hadd eq_refl) as [Hd1 ->].
  destruct (reconcileDelete _ _ _) as [[m2 r] e2] eqn:Ed. apply reconcileDelete_spec in Ed as [Hkeep2 Hdel].
  intros [= <- <- <- <-]. split.
  - intros k Hk Hs. rewrite Hkeep2; [by apply Hkeep|]. rewrite list_elem_of_filter. tauto.
  - intros He. destruct e2; [done|]. destruct (Hdel eq_refl) as [-> Hr]. rewrite Hd1. split_and!.
    + apply set_eq. intros k. rewrite elem_of_difference, elem_of_union, !elem_of_list_to_set, elem_of_set_range, elem_of_dom,
        list_elem_of_filter, Hin. destruct (decide (k ∈ expected)); tauto.
    + rewrite Z.add_0_l. apply NoDup_size_set; [apply NoDup_filter, set_range_NoDup|]. intros k.
      rewrite list_elem_of_filter, elem_of_set_range, Hset, elem_of_difference. tauto.
    + rewrite Hr; [|by apply NoDup_filter|].
      * rewrite Z.add_0_l. apply NoDup_size_set; [by apply NoDup_filter|]. intros k.
        rewrite list_elem_of_filter, Hin, elem_of_difference, elem_of_dom. tauto.
      * intros k [_ Hk]%list_elem_of_filter. by apply Hkeep, Hin.
Qed.

(** C5: reconciliation converges.  On success the trie holds exactly the
    expected keys, and the counts are the sizes of the two set differences;
    on any outcome, an expected key that was in the trie is still there, so a
    failure in the middle never denies an allowed destination. *)
Theorem reconcile_converges (m m' : M) expected added removed err :
  reconcileLPMMap (Some m) expected = (Some m', (added, removed, err)) ->
  (forall k, k ∈ expected -> is_Some (bm_view m !! k) -> is_Some (bm_view m' !! k)) /\
  (err = None -> dom (bm_view m') = expected /\
    added = Z.of_nat (size (expected ∖ dom (bm_view m))) /\ removed = Z.of_nat (size (dom (bm_view m) ∖ expected))).
Proof. apply reconcile_success. Qed.
End Reconcile.

Lemma lpmKeysetsEqual_spec `{!RangeOrder bytes} (a b : gset bytes) : lpmKeysetsEqual a b = true <-> a = b.
Proof.
  unfold lpmKeysetsEqual. destruct (Nat.eqb_spec (size a) (size b)) as [Hs|Hs]; cbn [negb]; [|split; [done|by intros ->]].
  rewrite forallb_forall. setoid_rewrite bool_decide_eq_true. split.
  - intros Hin. apply set_subseteq_size_eq; [|lia]. intros k Hk. apply Hin, list_elem_of_In. by apply elem_of_set_range.
  - intros -> k Hk%list_elem_of_In. by apply elem_of_set_range in Hk.
Qed.

(** * Witnesses *)

Module Witness.
#[local] Existing Instance ascii_case.
#[local] Existing Instance plain_order.

Definition hosts : bytes := str "github.com".
Definition addrs : bytes := str "10.0.0.0/8, 192.0.2.7 2001:db8::/32".
Definition pol : Policy := match BuildPolicyEx hosts addrs [] true with Ok p => p | Err _ => emptyPolicy end.
Definition compiled : CompileResult := mkCompileResult [hosts] {[ [140; 82; 112; 3] ]} {[ IPv6loopback ]} [] [].
Abbreviation trie := (gmap bytes Z).
Definition maps : defendMapSet (gmap Z Z) trie := mkMapSet ∅ (Some ∅) (Some ∅) ∅.
Definition loaded : defendMapSet (gmap Z Z) trie := (loadDefendMapsForBackend maps compiled (Some pol)).1.

Lemma pol_built : BuildPolicyEx hosts addrs [] true = Ok pol.
Proof. vm_compute. reflexivity. Qed.

Lemma loads : loadDefendMapsForBackend maps compiled (Some pol) = (loaded, Ok (3, 2)).
Proof. vm_compute. reflexivity. Qed.

Lemma load_programs_expected_witness : exists m i, dm_allowedLPM loaded = Some m /\ dm_ignoredLPM loaded = Some i /\
  bm_view (dm_cfg loaded) !! 0 = Some 1 /\ dom (bm_view m) = expectedAllowedKeys compiled (Some pol) /\
  dom (bm_view i) = expectedIgnoredKeys (Some pol) /\
  3 = Z.of_nat (size (expectedAllowedKeys compiled (Some pol))) /\ 3 <= MaxAllowedDefendIPv4Keys.
Proof.
  apply (load_programs_expected maps loaded ∅ ∅ compiled pol 3 2); [reflexivity..|apply loads].
Defined.

(** The owner cache names an allowed host for one address. *)
Definition owners : gmap bytes bytes := {[ [203; 0; 113; 9] := copy_array 256 hosts ]}.

Lemma kernel_enforces_policy_witness : exists m i, dm_allowedLPM loaded = Some m /\ dm_ignoredLPM loaded = Some i /\
  let k := mkKernel (bm_view (dm_cfg loaded)) (bm_view m) (bm_view i) owners (bm_view (dm_allowedDomains loaded)) in
  kernel_allows k [10; 1; 2; 3] = true /\ kernel_allows k [203; 0; 113; 9] = true /\ kernel_allows k [8; 8; 8; 8] <> true.
Proof.
  assert (forall k, k ∈ AllowedIPv4 compiled -> length k = 4%nat /\ wf_bytes k) as Hc.
  { intros k Hk. apply (elem_of_singleton k [140; 82; 112; 3]) in Hk as ->. split; [done|]. repeat constructor; lia. }
  pose proof (fun addr => kernel_enforces_policy hosts addrs [] true pol compiled maps loaded ∅ ∅ 3 2 addr pol_built Hc
    eq_refl eq_refl eq_refl eq_refl eq_refl loads) as HK.
  destruct (HK [10; 1; 2; 3] eq_refl ltac:(repeat constructor; lia)) as (m & i & Em & Ei & H1 & _).
  destruct (HK [203; 0; 113; 9] eq_refl ltac:(repeat constructor; lia)) as (m' & i' & Em' & Ei' & H2 & _).
  destruct (HK [8; 8; 8; 8] eq_refl ltac:(repeat constructor; lia)) as (m'' & i'' & Em'' & Ei'' & H3 & _).
  assert (m' = m /\ i' = i /\ m'' = m /\ i'' = i) as (-> & -> & -> & ->) by (repeat split; congruence).
  exists m, i. split; [done|]. split; [done|]. split; [|split].
  - apply H1. do 4 right. left. vm_compute. reflexivity.
  - apply H2. do 3 right. left. exists hosts. split; [apply (bool_decide_unpack _); vm_compute; exact I|vm_compute; reflexivity].
  - rewrite H3. intros [H|[H|[H|[(h & _ & H)|[H|(net & Hn & _ & Hin)]]]]]; try (vm_compute in H; discriminate).
    assert (Forall (fun n => match n with Some n => IPNet_Contains n [8; 8; 8; 8] = false | None => True end) (ignored pol)) as HF
        by (vm_compute; repeat constructor). pose proof (proj1 (Forall_forall _ _) HF _ Hn) as Hx. cbn in Hx. congruence.
Defined.

Lemma ipv6_trie_exact_witness : exists m r, populateAllowedIPv6Map (Some (∅ : trie)) compiled (Some pol) = Ret (Some m, r) /\
  (r = Ok 2 -> trie_hit 16 m (copy_array 16 [0x20; 0x01; 0x0d; 0xb8; 7]) = true).
Proof.
  destruct (ipv6_trie_exact hosts addrs [] true pol compiled (∅ : trie) pol_built) as (m & r & E & H).
  - intros k Hk. apply (elem_of_singleton k IPv6loopback) in Hk as ->. split; [done|]. repeat constructor; lia.
  - done.
  - exists m, r. split; [done|]. intros Hr. apply (proj2 (H 2 Hr)); [done|repeat constructor; lia|done|].
    right. right. exists (mkIPNet (copy_array 16 [0x20; 0x01; 0x0d; 0xb8]) (CIDRMask 16 32)). split; [|done].
    vm_compute. by left.
Defined.

(** A trie that lost a key and gained another. *)
Definition drifted : trie := {[ lpmKey 32 [1; 2; 3; 4] := 1; lpmKey 32 [6; 6; 6; 6] := 1 ]}.
Definition wanted : gset bytes := {[ lpmKey 32 [1; 2; 3; 4]; lpmKey 32 [5; 5; 5; 5] ]}.
Definition reconciled : trie := default ∅ (reconcileLPMMap (Some drifted) wanted).1.

Lemma reconcile_converges_witness : dom (bm_view reconciled) = wanted.
Proof.
  eapply (reconcile_converges drifted reconciled wanted 1 1 None); [|reflexivity]. vm_compute. reflexivity.
Defined.

(** An IPv4-mapped CIDR keeps its 16-byte mask.  As an allowed network it is
    classified allowed but stops the plan; as an ignored network it is
    classified ignored but leaves no entry in the trie. *)
Definition mapped : bytes := str "::ffff:1.2.3.0/120".

Example mapped_cidr_diverges :
  match BuildPolicyEx [] mapped [] false, BuildPolicyEx [] [] mapped false with
  | Ok pa, Ok pi =>
    Classify (Some pa) [] [1; 2; 3; 4] = ClassAllowed /\ buildDefendAllowedPlan compiled (Some pa) = Err ErrCIDRMask /\
    Classify (Some pi) [] [1; 2; 3; 4] = ClassIgnored /\ expectedIgnoredKeys (Some pi) = ∅
  | _, _ => False
  end.
Proof. by vm_compute. Qed.
End Witness.
