(* ===== verification/Integrity.v ===== *)
(** The integrity watch: internal/agent/agent_linux_integrity.go.

    A tick reads the mode key and both IPv4 tries, reports each that is not what
    the compiled snapshot says, and repairs it.  Between two ticks other
    programs may write the maps ([WTamper]).  Every map operation and every
    append to the event log may fail: an update fails in particular when the
    trie is full, so the theorem says what is repaired, what is left when a
    repair fails, and that no repair fails for a trie that has room. *)
From S2P Require Import Prelude GoStrings GoNet Policy BpfMap Allowlist DefendMaps.

Open Scope Z_scope.

Definition integrityBackoffWindow : Z := 5 * 60 * 1000000000.

Definition noteFailure (lastFail : gmap bytes Z) (asset : bytes) (now : Z) : gmap bytes Z * bool :=
  (<[asset := now]> lastFail,
   match lastFail !! asset with None => true | Some last => integrityBackoffWindow <=? now - last end).

Definition clear (lastFail : gmap bytes Z) (asset : bytes) : gmap bytes Z := delete asset lastFail.

(** The event handed to [AppendJSONL]: sequence number, asset, error, expected
    and actual. *)
Record tamperEvent := mkTamper { tp_seq : Z; tp_asset : bytes; tp_error : bytes; tp_expected : bytes; tp_actual : bytes }.

(** What one tick reads and writes.  [iw_defend] is [None] for a nil
    [defendState]; [iw_jsonl] is [None] when there is no events log. *)
Record watchState (MC M : Type) := mkWatch {
  iw_cfg : MC;
  iw_allowed : M;
  iw_ignored : M;
  iw_stats : Z;
  iw_defend : option Z;
  iw_backoff : gmap bytes Z;
  iw_seq : Z;
  iw_jsonl : option (list tamperEvent);
}.
Arguments mkWatch {MC M}.
Arguments iw_cfg {MC M}.
Arguments iw_allowed {MC M}.
Arguments iw_ignored {MC M}.
Arguments iw_stats {MC M}.
Arguments iw_defend {MC M}.
Arguments iw_backoff {MC M}.
Arguments iw_seq {MC M}.
Arguments iw_jsonl {MC M}.

Section Watch.
Context `{!RangeOrder bytes} {M : Type} `{!BpfMapOps bytes Z M} `{!BpfMapIter bytes Z M} {MC : Type} `{!BpfMapOps Z Z MC}.
Implicit Types w : watchState MC M.

(** [written] says whether [AppendJSONL] succeeds; an append that fails leaves
    no event, but its number is drawn. *)
Definition logMapIntegrityFailure w (asset errStr expected actual : bytes) (now : Z) (written : bool) : watchState MC M :=
  let '(backoff, _) := noteFailure (iw_backoff w) asset now in
  mkWatch (iw_cfg w) (iw_allowed w) (iw_ignored w) (iw_stats w + 1) (option_map Z.succ (iw_defend w)) backoff
    (match iw_jsonl w with Some _ => iw_seq w + 1 | None => iw_seq w end)
    (option_map (fun l => if written then l ++ [mkTamper (iw_seq w + 1) asset errStr expected actual] else l) (iw_jsonl w)).

Definition set_cfg w (c : MC) : watchState MC M :=
  mkWatch c (iw_allowed w) (iw_ignored w) (iw_stats w) (iw_defend w) (iw_backoff w) (iw_seq w) (iw_jsonl w).
Definition set_allowed w (m : M) : watchState MC M :=
  mkWatch (iw_cfg w) m (iw_ignored w) (iw_stats w) (iw_defend w) (iw_backoff w) (iw_seq w) (iw_jsonl w).
Definition set_ignored w (m : M) : watchState MC M :=
  mkWatch (iw_cfg w) (iw_allowed w) m (iw_stats w) (iw_defend w) (iw_backoff w) (iw_seq w) (iw_jsonl w).
Definition set_backoff w (b : gmap bytes Z) : watchState MC M :=
  mkWatch (iw_cfg w) (iw_allowed w) (iw_ignored w) (iw_stats w) (iw_defend w) b (iw_seq w) (iw_jsonl w).

Definition assetDefendCfg : bytes := str "map:defend_cfg".
Definition assetAllowed : bytes := str "map:allowed_ipv4".
Definition assetIgnored : bytes := str "map:ignored_ipv4_lpm".

(** Restore the mode key; the backoff is cleared when that works. *)
Definition revertCfg w : watchState MC M :=
  let '(c, err) := bm_update (iw_cfg w) 0 1 in
  let w := set_cfg w c in
  match err with Some _ => w | None => set_backoff w (clear (iw_backoff w) assetDefendCfg) end.

Definition checkCfg w (now : Z) (written : bool) : watchState MC M :=
  match bm_lookup (iw_cfg w) 0 with
  | Err _ => revertCfg (logMapIntegrityFailure w assetDefendCfg (str "lookup error") [] [] now written)
  | Ok val =>
    if negb (val =? 1)
    then revertCfg (logMapIntegrityFailure w assetDefendCfg (str "value mismatch") (str "1") (Itoa val) now written)
    else w
  end.

Definition entries_text (n : nat) : bytes := Itoa (Z.of_nat n) ++ str " entries".

(** Steps 2 and 3 check a trie against a keyset; [get] and [set] select it. *)
Definition checkTrie (get : watchState MC M -> M) (set : watchState MC M -> M -> watchState MC M)
    (asset : bytes) (expected : gset bytes) w (now : Z) (written : bool) : watchState MC M :=
  let '(seen, err) := bm_iter (get w) in
  let actual : gset bytes := list_to_set seen.*1 in
  match err with
  | Some _ => logMapIntegrityFailure w asset (str "iterate error") [] [] now written
  | None =>
    if lpmKeysetsEqual actual expected then w
    else
      let w := logMapIntegrityFailure w asset (str "keyset mismatch")
                 (entries_text (size expected)) (entries_text (size actual)) now written in
      let '(m, (_, _, rearmErr)) := reconcileLPMMap (Some (get w)) expected in
      let w := match m with Some m => set w m | None => w end in
      match rearmErr with
      | Some _ => w
      | None => set_backoff w (clear (iw_backoff w) asset)
      end
  end.

(** One tick; [missing] is the guard on nil maps, [now] the clock of the
    failures, [written asset] whether the append of the asset's event works. *)
Definition checkMapIntegrity w (missing : bool) (compiled : CompileResult) (pol : option Policy) (now : Z) (written : bytes -> bool) : watchState MC M :=
  if missing then w
  else
  let w := checkCfg w now (written assetDefendCfg) in
  let w := checkTrie iw_allowed set_allowed assetAllowed (expectedAllowedKeys compiled pol) w now (written assetAllowed) in
  checkTrie iw_ignored set_ignored assetIgnored (expectedIgnoredKeys pol) w now (written assetIgnored).

(** What the watch waits for, and what happens to the maps meanwhile: a tick of
    the 30 s ticker with the outcomes of its appends, other programs writing the maps, the end of the context. *)
Inductive watchEvent := WTick (now : Z) (written : bytes -> bool) | WTamper (cfg : MC) (allowed ignored : M) | WDone (canceled : bool).

Definition tamper w (cfg : MC) (allowed ignored : M) : watchState MC M := set_ignored (set_allowed (set_cfg w cfg) allowed) ignored.

(** The result is [None] while the watch runs, else whether it returned nil. *)
Fixpoint watchLoop w (missing : bool) (compiled : CompileResult) (pol : option Policy) (evs : list watchEvent) : watchState MC M * option bool :=
  match evs with
  | [] => (w, None)
  | WDone canceled :: _ => (w, Some canceled)
  | WTamper c a i :: evs' => watchLoop (tamper w c a i) missing compiled pol evs'
  | WTick now written :: evs' => watchLoop (checkMapIntegrity w missing compiled pol now written) missing compiled pol evs'
  end.

(** A watch has a backoff of its own. *)
Definition watchMapIntegrity w (missing : bool) (compiled : CompileResult) (pol : option Policy) (evs : list watchEvent) : watchState MC M * option bool :=
  watchLoop (set_backoff w ∅) missing compiled pol evs.
End Watch.

(** * What a tick finds and what it cannot repair *)

Section Spec.
Context `{!RangeOrder bytes} {M : Type} `{!BpfMapOps bytes Z M} `{!BpfMapIter bytes Z M} {MC : Type} `{!BpfMapOps Z Z MC}.
Implicit Types w : watchState MC M.

Definition names (cfg allowed ignored : bool) : list bytes :=
  (if cfg then [assetDefendCfg] else []) ++ (if allowed then [assetAllowed] else []) ++ (if ignored then [assetIgnored] else []).

(** The reads of a tick: the mode is 1, a trie lists exactly the keys. *)
Definition cfg_reads_well (c : MC) : bool := match bm_lookup c 0 with Ok v => v =? 1 | Err _ => false end.
Definition trie_reads_well (m : M) (expected : gset bytes) : bool :=
  match bm_iter m with (seen, None) => bool_decide (list_to_set (C := gset bytes) seen.*1 = expected) | (_, Some _) => false end.

(** The assets that a tick reports. *)
Definition reported w (compiled : CompileResult) (pol : option Policy) : list bytes :=
  names (negb (cfg_reads_well (iw_cfg w))) (negb (trie_reads_well (iw_allowed w) (expectedAllowedKeys compiled pol)))
    (negb (trie_reads_well (iw_ignored w) (expectedIgnoredKeys pol))).

(** A repair that ends with an error. *)
Definition cfg_repair_fails (c : MC) : bool := bool_decide (is_Some (bm_update c 0 1).2).
Definition trie_repair_fails (m : M) (expected : gset bytes) : bool :=
  bool_decide (is_Some (reconcileLPMMap (Some m) expected).2.2).

Definition unrepaired w (compiled : CompileResult) (pol : option Policy) : list bytes :=
  names (cfg_repair_fails (iw_cfg w)) (trie_repair_fails (iw_allowed w) (expectedAllowedKeys compiled pol))
    (trie_repair_fails (iw_ignored w) (expectedIgnoredKeys pol)).

(** The reports of the ticks of a watch, in order, each with whether its append
    worked. *)
Fixpoint found w (compiled : CompileResult) (pol : option Policy) (evs : list watchEvent) : list (bytes * bool) :=
  match evs with
  | [] | WDone _ :: _ => []
  | WTamper c a i :: evs' => found (tamper w c a i) compiled pol evs'
  | WTick now written :: evs' =>
    map (fun a => (a, written a)) (reported w compiled pol) ++ found (checkMapIntegrity w false compiled pol now written) compiled pol evs'
  end.

(** The number and asset of the events logged for [bad] after the number [s]. *)
Fixpoint numbered (s : Z) (bad : list (bytes * bool)) : list (Z * bytes) :=
  match bad with
  | [] => []
  | (asset, written) :: bad' => (if written then [(s + 1, asset)] else []) ++ numbered (s + 1) bad'
  end.

Lemma numbered_app s a b : numbered s (a ++ b) = numbered s a ++ numbered (s + len a) b.
Proof.
  revert s. induction a as [|[x ok] a IH]; intros s; cbn [app numbered]; [by rewrite Z.add_0_r|].
  rewrite IH, app_assoc. do 2 f_equal. unfold len. cbn [length]. lia.
Qed.

(** How the counters and the log change when [bad] is reported. *)
Record reports w w' (bad : list (bytes * bool)) : Prop := {
  rp_stats : iw_stats w' = iw_stats w + len bad;
  rp_defend : iw_defend w' = option_map (fun n => n + len bad) (iw_defend w);
  rp_jsonl : match iw_jsonl w with
             | None => iw_jsonl w' = None
             | Some l => iw_seq w' = iw_seq w + len bad /\ exists new, iw_jsonl w' = Some (l ++ new) /\
                 map (fun t => (tp_seq t, tp_asset t)) new = numbered (iw_seq w) bad
             end;
}.

Lemma reports_nil w : reports w w [].
Proof.
  split; [by rewrite Z.add_0_r|destruct (iw_defend w) as [n|]; [cbn; by rewrite Z.add_0_r|done]|].
  destruct (iw_jsonl w) as [l|]; [|done]. split; [by rewrite Z.add_0_r|]. exists []. by rewrite app_nil_r.
Qed.

Lemma reports_trans w1 w2 w3 a b : reports w1 w2 a -> reports w2 w3 b -> reports w1 w3 (a ++ b).
Proof.
  intros [A1 A2 A3] [B1 B2 B3]. split.
  - rewrite B1, A1. unfold len. rewrite length_app. lia.
  - rewrite B2, A2. destruct (iw_defend w1) as [n|]; [|done]. cbn. f_equal. unfold len. rewrite length_app. lia.
  - destruct (iw_jsonl w1) as [l|]; [|by rewrite A3 in B3]. destruct A3 as (S1 & n1 & E1 & N1). rewrite E1 in B3.
    destruct B3 as (S2 & n2 & E2 & N2). split; [rewrite S2, S1; unfold len; rewrite length_app; lia|].
    exists (n1 ++ n2). by rewrite E2, app_assoc, map_app, N1, N2, S1, numbered_app.
Qed.

(** One report, whatever is written to the maps with it. *)
Lemma reports_one w asset e x y now ok c a i b :
  let wl := logMapIntegrityFailure w asset e x y now ok in
  reports w (mkWatch c a i (iw_stats wl) (iw_defend wl) b (iw_seq wl) (iw_jsonl wl)) [(asset, ok)].
Proof.
  cbv zeta. split; [done|done|]. unfold logMapIntegrityFailure, noteFailure.
  cbn [iw_stats iw_defend iw_seq iw_jsonl]. destruct (iw_jsonl w) as [l|]; [|done]. split; [done|].
  destruct ok; [by eexists|]. exists []. by rewrite app_nil_r.
Qed.
End Spec.

(** * Properties *)

Section WatchProperties.
Context `{!RangeOrder bytes} {M : Type} `{!BpfMapOps bytes Z M} `{!BpfMapLaws bytes Z M} `{!BpfMapExact bytes Z M}.
Context `{!BpfMapIter bytes Z M} `{!BpfMapIterLaws bytes Z M}.
Context {MC : Type} `{!BpfMapOps Z Z MC} `{!BpfMapLaws Z Z MC} `{!BpfMapIter Z Z MC}.
Implicit Types w : watchState MC M.

Lemma trie_reads_true (m : M) expected : trie_reads_well m expected = true -> dom (bm_view m) = expected.
Proof.
  unfold trie_reads_well. destruct (bm_iter m) as [seen [e|]] eqn:Ei; [done|]. intros H%bool_decide_eq_true.
  by destruct (iter_keys _ _ Ei) as (_ & <- & _).
Qed.

Lemma cfg_reads_true (c : MC) : cfg_reads_well c = true -> bm_view c !! 0 = Some 1.
Proof. unfold cfg_reads_well. destruct (bm_lookup c 0) as [v|] eqn:E; [|done]. intros ->%Z.eqb_eq. by apply bm_lookup_ok in E. Qed.

Lemma reconcile_some (m : M) expected : exists m' r, reconcileLPMMap (Some m) expected = (Some m', r).
Proof.
  cbn [reconcileLPMMap]. destruct (bm_iter m) as [seen [e|]]; [eauto|]. destruct (reconcileAdd _ _ _ _) as [[m1 a] [e|]]; [eauto|].
  destruct (reconcileDelete _ _ _) as [[m2 r] e]. eauto.
Qed.

Lemma set_backoff_same w : w = set_backoff w (iw_backoff w).
Proof. by destruct w. Qed.

(** What is left of a trie that was checked. *)
Definition repaired (m0 m : M) (expected : gset bytes) : Prop :=
  (forall k, k ∈ expected -> is_Some (bm_view m0 !! k) -> is_Some (bm_view m !! k)) /\
  (dom (bm_view m) = expected \/ trie_repair_fails m0 expected = true).

(** A check of a trie changes nothing when it reads well; else it reports the
    trie once and leaves a repaired one, or one whose repair failed. *)
Lemma checkTrie_spec (get : watchState MC M -> M) set asset expected w now ok :
  (forall w e x y, get (logMapIntegrityFailure w asset e x y now ok) = get w) ->
  (forall w e x y, set (logMapIntegrityFailure w asset e x y now ok) (get w) = logMapIntegrityFailure w asset e x y now ok) ->
  let w' := checkTrie get set asset expected w now ok in
  if trie_reads_well (get w) expected then w' = w
  else exists m e x y b, repaired (get w) m expected /\ w' = set_backoff (set (logMapIntegrityFailure w asset e x y now ok) m) b.
Proof.
  intros Hg Hset. cbv zeta. unfold checkTrie, trie_reads_well. destruct (bm_iter (get w)) as [seen [e|]] eqn:Ei.
  - exists (get w). eexists _, _, _, (iw_backoff (logMapIntegrityFailure w asset (str "iterate error") [] [] now ok)). split.
    + split; [auto|right]. unfold trie_repair_fails. cbn [reconcileLPMMap]. by rewrite Ei.
    + rewrite Hset. reflexivity.
  - destruct (lpmKeysetsEqual _ _) eqn:El.
    + apply lpmKeysetsEqual_spec in El. by rewrite bool_decide_eq_true_2.
    + rewrite bool_decide_eq_false_2 by (intros E; apply lpmKeysetsEqual_spec in E; congruence). rewrite Hg.
      destruct (reconcile_some (get w) expected) as (m & r & E). rewrite E. destruct r as [[a r] err].
      destruct (reconcile_success _ _ _ _ _ _ E) as [Hkeep Hd].
      destruct err as [err|]; exists m; eexists _, _, _, _; (split; [split; [done|]|]).
      * right. unfold trie_repair_fails. by rewrite E.
      * apply set_backoff_same.
      * left. by apply Hd.
      * reflexivity.
Qed.

Lemma checkCfg_spec w now ok :
  let w' := checkCfg w now ok in
  if cfg_reads_well (iw_cfg w) then w' = w
  else exists c e x y b, (bm_view c !! 0 = Some 1 \/ cfg_repair_fails (iw_cfg w) = true) /\
    w' = set_backoff (set_cfg (logMapIntegrityFailure w assetDefendCfg e x y now ok) c) b.
Proof.
  cbv zeta.
  assert (forall e x y, exists c e' x' y' b, (bm_view c !! 0 = Some 1 \/ cfg_repair_fails (iw_cfg w) = true) /\
    revertCfg (logMapIntegrityFailure w assetDefendCfg e x y now ok) =
      set_backoff (set_cfg (logMapIntegrityFailure w assetDefendCfg e' x' y' now ok) c) b) as Hrev.
  { intros e x y. unfold revertCfg. change (iw_cfg (logMapIntegrityFailure w assetDefendCfg e x y now ok)) with (iw_cfg w).
    destruct (bm_update (iw_cfg w) 0 1) as [c [err|]] eqn:E; exists c, e, x, y; eexists; (split; [|try reflexivity]).
    - right. unfold cfg_repair_fails. by rewrite E.
    - left. by destruct (bm_update_ok _ _ _ _ E). }
  unfold checkCfg, cfg_reads_well. destruct (bm_lookup (iw_cfg w) 0) as [v|e]; [|apply Hrev].
  destruct (v =? 1); cbn [negb]; [done|apply Hrev].
Qed.

(** The assets that are not what the snapshot says. *)
Definition tampered w (compiled : CompileResult) (pol : option Policy) : list bytes :=
  names (bool_decide (bm_view (iw_cfg w) !! 0 <> Some 1))
    (bool_decide (dom (bm_view (iw_allowed w)) <> expectedAllowedKeys compiled pol))
    (bool_decide (dom (bm_view (iw_ignored w)) <> expectedIgnoredKeys pol)).

Lemma elem_of_names a c l i : a ∈ names c l i <->
  (a = assetDefendCfg /\ c = true) \/ (a = assetAllowed /\ l = true) \/ (a = assetIgnored /\ i = true).
Proof. unfold names. destruct c, l, i; cbn [app]; rewrite ?elem_of_cons, ?elem_of_nil; naive_solver. Qed.

Lemma names_nil c l i : names c l i = [] <-> c = false /\ l = false /\ i = false.
Proof. unfold names. destruct c, l, i; cbn [app]; naive_solver. Qed.

(** A tick, step by step. *)
Record tick_result w w' (compiled : CompileResult) (pol : option Policy) (written : bytes -> bool) : Prop := {
  tr_cfg : if cfg_reads_well (iw_cfg w) then iw_cfg w' = iw_cfg w
           else bm_view (iw_cfg w') !! 0 = Some 1 \/ cfg_repair_fails (iw_cfg w) = true;
  tr_allowed : if trie_reads_well (iw_allowed w) (expectedAllowedKeys compiled pol) then iw_allowed w' = iw_allowed w
               else repaired (iw_allowed w) (iw_allowed w') (expectedAllowedKeys compiled pol);
  tr_ignored : if trie_reads_well (iw_ignored w) (expectedIgnoredKeys pol) then iw_ignored w' = iw_ignored w
               else repaired (iw_ignored w) (iw_ignored w') (expectedIgnoredKeys pol);
  tr_reports : reports w w' (map (fun a => (a, written a)) (reported w compiled pol));
  tr_quiet : reported w compiled pol = [] -> w' = w;
}.

Lemma tick_spec w compiled pol now written :
  tick_result w (checkMapIntegrity w false compiled pol now written) compiled pol written.
Proof.
  unfold checkMapIntegrity.
  pose proof (checkCfg_spec w now (written assetDefendCfg)) as H1. cbv zeta in H1. revert H1.
  generalize (checkCfg w now (written assetDefendCfg)) as w1. intros w1 H1.
  pose proof (checkTrie_spec iw_allowed set_allowed assetAllowed (expectedAllowedKeys compiled pol) w1 now (written assetAllowed)
    ltac:(done) ltac:(done)) as H2. cbv zeta in H2. revert H2.
  generalize (checkTrie iw_allowed set_allowed assetAllowed (expectedAllowedKeys compiled pol) w1 now (written assetAllowed)) as w2.
  intros w2 H2.
  pose proof (checkTrie_spec iw_ignored set_ignored assetIgnored (expectedIgnoredKeys pol) w2 now (written assetIgnored)
    ltac:(done) ltac:(done)) as H3. cbv zeta in H3. revert H3.
  generalize (checkTrie iw_ignored set_ignored assetIgnored (expectedIgnoredKeys pol) w2 now (written assetIgnored)) as w3.
  intros w3 H3.
  assert (R1 : reports w w1 (if cfg_reads_well (iw_cfg w) then [] else [(assetDefendCfg, written assetDefendCfg)]) /\
    iw_allowed w1 = iw_allowed w /\ iw_ignored w1 = iw_ignored w).
  { destruct (cfg_reads_well _); [subst; split; [apply reports_nil|done]|].
    destruct H1 as (c & e & x & y & b & _ & ->). split; [apply reports_one|done]. }
  destruct R1 as (R1 & A1 & I1). rewrite A1 in H2.
  assert (R2 : reports w1 w2 (if trie_reads_well (iw_allowed w) (expectedAllowedKeys compiled pol) then [] else [(assetAllowed, written assetAllowed)]) /\
    iw_cfg w2 = iw_cfg w1 /\ iw_ignored w2 = iw_ignored w1).
  { destruct (trie_reads_well _ _); [subst; split; [apply reports_nil|done]|].
    destruct H2 as (c & e & x & y & b & _ & ->). split; [apply reports_one|done]. }
  destruct R2 as (R2 & C2 & I2). rewrite I2, I1 in H3.
  assert (R3 : reports w2 w3 (if trie_reads_well (iw_ignored w) (expectedIgnoredKeys pol) then [] else [(assetIgnored, written assetIgnored)]) /\
    iw_cfg w3 = iw_cfg w2 /\ iw_allowed w3 = iw_allowed w2).
  { destruct (trie_reads_well (iw_ignored w) _); [subst; split; [apply reports_nil|done]|].
    destruct H3 as (c & e & x & y & b & _ & ->). split; [apply reports_one|done]. }
  destruct R3 as (R3 & C3 & A3). split.
  - rewrite C3, C2. destruct (cfg_reads_well _); [by subst|]. by destruct H1 as (c & e & x & y & b & ? & ->).
  - rewrite A3. destruct (trie_reads_well (iw_allowed w) _); [by subst|]. by destruct H2 as (m & e & x & y & b & ? & ->).
  - destruct (trie_reads_well (iw_ignored w) _); [by subst; congruence|]. by destruct H3 as (m & e & x & y & b & ? & ->).
  - pose proof (reports_trans _ _ _ _ _ R1 (reports_trans _ _ _ _ _ R2 R3)) as R. unfold reported, names.
    destruct (cfg_reads_well _), (trie_reads_well (iw_allowed w) _), (trie_reads_well (iw_ignored w) _); exact R.
  - unfold reported. rewrite names_nil, !negb_false_iff. intros (E1 & E2 & E3). rewrite E1 in H1. rewrite E2 in H2. rewrite E3 in H3. congruence.
Qed.

Lemma repaired_if (m0 m : M) expected : (if trie_reads_well m0 expected then m = m0 else repaired m0 m expected) ->
  (forall k, k ∈ expected -> is_Some (bm_view m0 !! k) -> is_Some (bm_view m !! k)) /\
  (dom (bm_view m) = expected \/ trie_reads_well m0 expected = false /\ trie_repair_fails m0 expected = true).
Proof.
  destruct (trie_reads_well m0 expected) eqn:E; [intros ->|intros [? [?|?]]]; [|by auto..]. split; [done|left]. by apply trie_reads_true.
Qed.

Lemma tick_tampered w compiled pol now written asset :
  asset ∈ tampered (checkMapIntegrity w false compiled pol now written) compiled pol ->
  asset ∈ reported w compiled pol /\ asset ∈ unrepaired w compiled pol.
Proof.
  destruct (tick_spec w compiled pol now written) as [T1 [_ T2]%repaired_if [_ T3]%repaired_if _ _].
  unfold tampered, reported, unrepaired. rewrite !elem_of_names, !negb_true_iff, !bool_decide_eq_true.
  intros [[-> Ht]|[[-> Ht]|[-> Ht]]].
  - destruct (cfg_reads_well (iw_cfg w)) eqn:E; [rewrite T1 in Ht; by apply cfg_reads_true in E|]. destruct T1; [done|]. naive_solver.
  - destruct T2 as [?|[? ?]]; [done|]. naive_solver.
  - destruct T3 as [?|[? ?]]; [done|]. naive_solver.
Qed.

(** A full trie is the only reason for which a repair fails. *)
Section Room.
Context `{!BpfMapCapacity bytes Z M} `{!BpfMapCapacity Z Z MC}.

Lemma reconcileAdd_room keys : forall (m : M) existing a,
  (size (dom (bm_view m) ∪ list_to_set keys) <= bm_cap m)%nat -> exists m' a', reconcileAdd m existing keys a = (m', a', None).
Proof.
  induction keys as [|k keys IH]; intros m existing a Hr; cbn [reconcileAdd]; [eauto|].
  pose proof (bm_update_room m k 1) as Hu. pose proof (bm_update_cap m k 1) as Hcap.
  destruct (bm_update m k 1) as [m1 e] eqn:E. cbn [fst snd] in *. rewrite list_to_set_cons in Hr. assert (e = None) as ->.
  { apply Hu. destruct (decide (k ∈ dom (bm_view m))) as [Hk|Hk]; [left; by apply elem_of_dom|right].
    rewrite <- (size_dom (D := gset bytes)).
    assert (size (dom (D := gset bytes) (bm_view m) ∪ {[k]}) <= size (dom (D := gset bytes) (bm_view m) ∪ ({[k]} ∪ list_to_set keys)))%nat as Hs
      by (apply subseteq_size; set_solver).
    rewrite size_union, size_singleton in Hs by set_solver. lia. }
  apply IH. rewrite Hcap, (bm_update_exact _ _ _ _ E), dom_insert_L.
  replace ({[k]} ∪ dom (bm_view m) ∪ list_to_set keys) with (dom (D := gset bytes) (bm_view m) ∪ ({[k]} ∪ list_to_set keys)); [done|set_solver].
Qed.

Lemma reconcileDelete_works keys : forall (m : M) r, exists m' r', reconcileDelete m keys r = (m', r', None).
Proof.
  induction keys as [|k keys IH]; intros m r; cbn [reconcileDelete]; [eauto|].
  pose proof (bm_delete_fails m k) as Hd. destruct (bm_delete m k) as [m1 [e|]]; [|apply IH]. rewrite (Hd e eq_refl). apply IH.
Qed.

Lemma trie_room (m : M) expected : bm_room (V := Z) m expected -> trie_repair_fails m expected = false.
Proof.
  unfold bm_room. intros Hr. unfold trie_repair_fails. cbn [reconcileLPMMap].
  pose proof (bm_iter_total m) as Hi. destruct (bm_iter m) as [seen e]. cbn in Hi. subst e.
  destruct (reconcileAdd_room (set_range 0 expected) m (list_to_set seen.*1) 0) as (m1 & a & ->).
  { replace (list_to_set (set_range 0 expected)) with expected; [done|]. apply set_eq. intros k. by rewrite elem_of_list_to_set, elem_of_set_range. }
  by destruct (reconcileDelete_works (filter (fun k => k ∉ expected) seen.*1) m1 0) as (m2 & r & ->).
Qed.

Lemma cfg_room (c : MC) : bm_room (V := Z) c {[0]} -> cfg_repair_fails c = false.
Proof.
  unfold bm_room, cfg_repair_fails. intros Hr. rewrite (bm_update_room c 0 1); [done|].
  destruct (decide (0 ∈ dom (D := gset Z) (bm_view c))) as [Hk|Hk]; [left; by apply elem_of_dom|right].
  rewrite <- (size_dom (D := gset Z)). rewrite size_union, size_singleton in Hr by set_solver. lia.
Qed.

Lemma reported_tampered w compiled pol : reported w compiled pol = tampered w compiled pol.
Proof.
  assert (forall (m : M) expected, negb (trie_reads_well m expected) = bool_decide (dom (bm_view m) <> expected)) as Ht.
  { intros m expected. unfold trie_reads_well. pose proof (bm_iter_total m) as Hi. destruct (bm_iter m) as [seen e] eqn:Ei.
    cbn in Hi. subst e. destruct (iter_keys _ _ Ei) as (_ & -> & _). by rewrite bool_decide_not. }
  assert (forall c : MC, negb (cfg_reads_well c) = bool_decide (bm_view c !! 0 <> Some 1)) as Hc.
  { intros c. rewrite bool_decide_not. f_equal. apply eq_true_iff_eq. rewrite bool_decide_eq_true. split; [apply cfg_reads_true|].
    intros Hv. unfold cfg_reads_well. by rewrite (bm_lookup_held c _ _ Hv). }
  unfold reported, tampered. by rewrite Hc, !Ht.
Qed.
End Room.

Lemma watchLoop_app w compiled pol pre post : Forall (fun e => forall b, e <> WDone b) pre ->
  watchLoop w false compiled pol (pre ++ post) = watchLoop (watchLoop w false compiled pol pre).1 false compiled pol post.
Proof. intros Hp. revert w. induction Hp as [|[now wr|c a i|b] pre He _ IH]; intros w; cbn [app watchLoop]; [done|apply IH|apply IH|]. by destruct (He b eq_refl). Qed.

Lemma watchLoop_reports w compiled pol evs : reports w (watchLoop w false compiled pol evs).1 (found w compiled pol evs).
Proof.
  revert w. induction evs as [|[now wr|c a i|b] evs IH]; intros w; cbn [found watchLoop fst]; [apply reports_nil| | |apply reports_nil].
  - eapply reports_trans; [|apply IH]. apply (tr_reports _ _ _ _ _ (tick_spec w compiled pol now wr)).
  - destruct (IH (tamper w c a i)) as [R1 R2 R3]. by split.
Qed.

(** C4: the integrity watch heals what can be healed.  Whatever was written to
    the maps before a tick, and whichever map operations and appends fail:
    after the tick an asset differs from the snapshot only if the tick reported
    it and its repair ended with an error; a key of the snapshot that a trie
    held is still there.  A map operation that fails only for want of room, as
    the kernel documents it, lets the tick report exactly the assets that
    differ and restore all of them, provided that each map has room for the
    snapshot's keys beside what was written to it.  The run's counter and the
    defend counter grow by one per report; with the event log on the log grows
    by the reports whose append worked, in order and with their numbers, one
    number being drawn per report; a watch whose maps read well and are not
    written changes nothing but its backoff; and the watch returns at the end of
    the context only, with nil exactly at a cancellation. *)
Theorem integrity_heals w compiled pol evs :
  (forall pre now written post, evs = pre ++ WTick now written :: post -> Forall (fun e => forall b, e <> WDone b) pre ->
    let w0 := (watchMapIntegrity w false compiled pol pre).1 in
    let w1 := (watchMapIntegrity w false compiled pol (pre ++ [WTick now written])).1 in
    (forall asset, asset ∈ tampered w1 compiled pol -> asset ∈ reported w0 compiled pol /\ asset ∈ unrepaired w0 compiled pol) /\
    (forall k, k ∈ expectedAllowedKeys compiled pol -> is_Some (bm_view (iw_allowed w0) !! k) -> is_Some (bm_view (iw_allowed w1) !! k)) /\
    (forall k, k ∈ expectedIgnoredKeys pol -> is_Some (bm_view (iw_ignored w0) !! k) -> is_Some (bm_view (iw_ignored w1) !! k)) /\
    (forall (tries : BpfMapCapacity bytes Z M) (cfgs : BpfMapCapacity Z Z MC), bm_room (V := Z) (iw_cfg w0) {[0]} ->
      bm_room (V := Z) (iw_allowed w0) (expectedAllowedKeys compiled pol) -> bm_room (V := Z) (iw_ignored w0) (expectedIgnoredKeys pol) ->
      reported w0 compiled pol = tampered w0 compiled pol /\ tampered w1 compiled pol = [])) /\
  (let bad := found (set_backoff w ∅) compiled pol evs in let w' := (watchMapIntegrity w false compiled pol evs).1 in
    iw_stats w' = iw_stats w + len bad /\ iw_defend w' = option_map (fun n => n + len bad) (iw_defend w) /\
    forall l, iw_jsonl w = Some l -> iw_seq w' = iw_seq w + len bad /\ exists new, iw_jsonl w' = Some (l ++ new) /\
      map (fun t => (tp_seq t, tp_asset t)) new = numbered (iw_seq w) bad) /\
  (reported w compiled pol = [] -> Forall (fun e => forall c a i, e <> WTamper c a i) evs ->
    (watchMapIntegrity w false compiled pol evs).1 = set_backoff w ∅) /\
  forall b, (watchMapIntegrity w false compiled pol evs).2 = Some b -> WDone b ∈ evs.
Proof.
  unfold watchMapIntegrity. split; [|split; [|split]].
  - intros pre now written post _ Hp. cbv zeta. rewrite watchLoop_app by done. cbn [watchLoop fst].
    set (w0 := (watchLoop (set_backoff w ∅) false compiled pol pre).1).
    destruct (tick_spec w0 compiled pol now written) as [_ [K2 _]%repaired_if [K3 _]%repaired_if _ _].
    split; [intros asset; apply tick_tampered|]. split; [exact K2|]. split; [exact K3|].
    intros C1 C2 R1 R2 R3. split; [apply reported_tampered|]. apply elem_of_nil_inv. intros a Ha.
    apply tick_tampered in Ha as [_ Ha]. unfold unrepaired in Ha. rewrite cfg_room, !trie_room in Ha by done. by apply elem_of_nil in Ha.
  - cbv zeta. destruct (watchLoop_reports (set_backoff w ∅) compiled pol evs) as [R1 R2 R3]. split; [done|]. split; [done|].
    intros l Hl. cbn [set_backoff iw_jsonl iw_seq] in R3. by rewrite Hl in R3.
  - intros Ht He. assert (reported (set_backoff w ∅) compiled pol = []) as Ht' by done. revert Ht'. generalize (set_backoff w ∅). intros w1 Ht1.
    induction He as [|[now wr|c a i|b] evs He _ IH]; cbn [watchLoop]; [done| |by destruct (He c a i eq_refl)|done].
    by rewrite (tr_quiet _ _ _ _ _ (tick_spec w1 compiled pol now wr) Ht1).
  - generalize (set_backoff w ∅). intros w1 b. revert w1. induction evs as [|[now wr|c a i|b'] evs IH]; intros w1; cbn [watchLoop]; [done|..].
    + intros Hr. right. eauto.
    + intros Hr. right. eauto.
    + intros [= ->]. by left.
Qed.
End WatchProperties.

(** * Witnesses *)

Module Witness.
#[local] Existing Instance ascii_case.
#[local] Existing Instance plain_order.

Abbreviation trie := (bounded bytes Z).
Definition pol : Policy := match BuildPolicyEx [] (str "1.2.3.4 5.5.5.5") [] false with Ok p => p | Err _ => emptyPolicy end.
Definition compiled : CompileResult := mkCompileResult [str "a.io"] {[ [1; 2; 3; 4] ]} ∅ [] [].
Definition mode (v : Z) : bounded Z Z := mkBounded 1 {[ 0 := v ]}.
(** A trie for four keys that lost one and gained [n] others. *)
Definition drifted (n : nat) : trie :=
  mkBounded 4 (<[lpmKey 32 [1; 2; 3; 4] := 1]> (list_to_map (map (fun i => (lpmKey 32 [6; 6; 6; Z.of_nat i], 1)) (seq 0 n)))).
Definition none : trie := mkBounded 4 ∅.
Definition watched : watchState (bounded Z Z) trie := mkWatch (mode 1) (drifted 1) none 0 (Some 0) ∅ 5 (Some []).

(** The mode is cleared and 0.0.0.0/0 ignored; the append for the mode fails. *)
Definition attack : list (watchEvent (M := trie) (MC := bounded Z Z)) :=
  [WTamper (mode 0) (drifted 2) (mkBounded 4 {[ lpmKey 0 [0; 0; 0; 0] := 1 ]}); WTick 10 (fun a => negb (bool_decide (a = assetDefendCfg)))].

Lemma integrity_heals_witness : let w' := (watchMapIntegrity watched false compiled (Some pol) attack).1 in
  tampered w' compiled (Some pol) = [] /\ iw_stats w' = 3 /\
  exists new, iw_jsonl w' = Some new /\ map (fun t => (tp_seq t, tp_asset t)) new = [(7, assetAllowed); (8, assetIgnored)].
Proof.
  destruct (integrity_heals watched compiled (Some pol) attack) as (H1 & (H2 & _ & H3) & _). cbv zeta.
  destruct (H1 [WTamper (mode 0) (drifted 2) (mkBounded 4 {[ lpmKey 0 [0; 0; 0; 0] := 1 ]})] 10 _ [] eq_refl
    ltac:(constructor; [discriminate|constructor])) as (_ & _ & _ & H4).
  split; [|split].
  - refine (proj2 (H4 bounded_capacity bounded_capacity _ _ _)); apply Nat.leb_le; vm_compute; reflexivity.
  - rewrite H2. vm_compute. reflexivity.
  - destruct (H3 [] eq_refl) as (_ & new & En & Hn). exists new. split; [exact En|]. rewrite Hn. vm_compute. reflexivity.
Defined.

(** A trie that other programs filled cannot be repaired: the missing key is
    added before the foreign ones are removed, there is no room for it, and
    they all stay, tick after tick. *)
Example full_trie_stays :
  let w' := (watchMapIntegrity watched false compiled (Some pol) [WTamper (mode 1) (drifted 3) none; WTick 10 (fun _ => true); WTick 40 (fun _ => true)]).1 in
  bd_map (iw_allowed w') = bd_map (drifted 3) /\ tampered w' compiled (Some pol) = [assetAllowed] /\ iw_stats w' = 2.
Proof. vm_compute. by repeat split. Qed.
End Witness.
