(* ===== verification/Telemetry.v ===== *)
(** Text that comes from the wire: internal/telemetry/sanitize.go
    ([SanitizeField]), parsehttp.go ([ParseHTTPRequestPrefix]) and
    connect_result.go ([ConnectResultString]). *)
From S2P Require Import Prelude GoStrings.

Open Scope Z_scope.

(** * UTF-8 validity (package unicode/utf8 and strings) *)

(** A chunk that stands for an invalid byte. *)
Definition invalid_chunk (c : Z * bytes) : bool := (c.1 =? RuneError) && (length c.2 =? 1)%nat.

Definition ValidString (s : bytes) : bool := forallb (fun c => negb (invalid_chunk c)) (chunks s).

(** [strings.ToValidUTF8]: each run of invalid bytes becomes one [rep]. *)
Fixpoint to_valid (rep : bytes) (cs : list (Z * bytes)) (invalid : bool) : bytes :=
  match cs with
  | [] => []
  | c :: cs' =>
    if invalid_chunk c then (if invalid then [] else rep) ++ to_valid rep cs' true
    else c.2 ++ to_valid rep cs' false
  end.
Definition ToValidUTF8 (s rep : bytes) : bytes := to_valid rep (chunks s) false.

Definition RuneStart (b : Z) : bool := negb (Z.land b 0xC0 =? 0x80).

(** * SanitizeField *)

(** The runes the loop writes: neither C0, DEL nor C1. *)
Definition keep_rune (r : Z) : bool := negb ((r <? 0x20) || (r =? 0x7F) || ((0x80 <=? r) && (r <=? 0x9F))).

(** [for cut > 0 && !utf8.RuneStart(out[cut])]. *)
Fixpoint cutBack (out : bytes) (cut : nat) : go nat :=
  match cut with
  | O => Ret O
  | S c => b ← idx out (Z.of_nat cut); if RuneStart b then Ret cut else cutBack out c
  end.

Definition SanitizeField (s : bytes) (maxLen : Z) : go bytes :=
  if maxLen <=? 0 then Ret []
  else
    let s := if negb (ValidString s) then ToValidUTF8 s (encode_rune RuneError) else s in
    let out := concat (map encode_rune (filter keep_rune (runes s))) in
    if maxLen <? len out
    then cut ← cutBack out (Z.to_nat maxLen); slice_to out (Z.of_nat cut)
    else Ret out.

(** * ParseHTTPRequestPrefix *)

(** [strings.TrimSpace], then the host without a port or brackets. *)
Definition normalizeHostHeader (val : bytes) : bytes :=
  let val := TrimSpace val in
  if decide (val = []) then str "?"
  else if HasPrefix val (str "[") then
    match IndexByte val 93 with
    | Some e => if (1 <? e)%nat then drop 1 (take e val) else str "?"
    | None => str "?"
    end
  else match IndexByte val 58 with
       | Some i => take i val
       | None => val
       end.

Definition skipEOL (b : bytes) : bytes := TrimPrefix (TrimPrefix b [13; 10]) [10].

(** [None] when the buffer has no line terminator. *)
Definition takeLine (b : bytes) : option (bytes * bytes) :=
  if decide (b = []) then None
  else match Index b [13; 10] with
       | Some i => Some (take i b, drop (i + 2) b)
       | None => match IndexByte b 10 with
                 | Some i => Some (take i b, drop (i + 1) b)
                 | None => None
                 end
       end.

Section Http.
Context `{UnicodeCase}.

(** The host a header line carries. *)
Definition headerHost (line : bytes) : option bytes :=
  match line with
  | [] => None
  | _ =>
    match IndexByte line 58 with
    | None | Some O => None
    | Some colon =>
      let name := TrimSpace (ToLower (take colon line)) in
      let val := TrimSpace (drop (colon + 1) line) in
      if decide (name = str "host" /\ val <> []) then Some (normalizeHostHeader val) else None
    end
  end.

(** The header loop; [fuel] bounds the number of lines, each of which takes
    at least its terminator. *)
Fixpoint hostLoop (fuel : nat) (rest : bytes) : bytes :=
  match fuel with
  | O => []
  | S fuel' =>
    match rest with
    | [] => []
    | _ => match takeLine rest with
           | None => []
           | Some (line, rest') =>
             match headerHost line with
             | Some h => h
             | None => hostLoop fuel' rest'
             end
           end
    end
  end.

Definition http_space (b : Z) : bool := (b =? 32) || (b =? 9) || (b =? 13) || (b =? 10).

(** The end of the request line. *)
Definition lineEndOf (raw : bytes) : nat :=
  match Index raw [13; 10] with
  | Some i => i
  | None => match IndexByte raw 10 with
            | Some i => i
            | None => Nat.min (length raw) 256
            end
  end.

(** Method, host and path; [None] is [ok = false]. *)
Definition ParseHTTPRequestPrefix (raw : bytes) : option (bytes * bytes * bytes) :=
  let raw := drop_while http_space raw in
  if (length raw <? 8)%nat then None
  else
    let lineEnd := lineEndOf raw in
    match Fields (take lineEnd raw) with
    | method :: path :: _ :: _ =>
      if HasPrefix path (str "/") then
        let rest := skipEOL (drop lineEnd raw) in
        let host := hostLoop (length rest) rest in
        Some (method, (if decide (host = []) then str "?" else host), path)
      else None
    | _ => None
    end.
End Http.

(** * ConnectResultString *)

Definition errnoEINPROGRESS : Z := 115.
Definition errnoETIMEDOUT : Z := 110.
Definition errnoECONNREFUSED : Z := 111.
Definition errnoENETUNREACH : Z := 101.
Definition errnoEHOSTUNREACH : Z := 113.
Definition errnoENETDOWN : Z := 100.
Definition errnoEHOSTDOWN : Z := 112.
Definition errnoEACCES : Z := 13.
Definition errnoEPERM : Z := 1.

(** The negation is at 32 bits. *)
Definition ConnectResultString (result : Z) : bytes :=
  if result =? 0 then str "established"
  else
    let e := int32_of_uint32 ((- result) mod 2 ^ 32) in
    if e =? errnoECONNREFUSED then str "refused"
    else if e =? errnoETIMEDOUT then str "timeout"
    else if (e =? errnoENETUNREACH) || (e =? errnoEHOSTUNREACH) || (e =? errnoENETDOWN) || (e =? errnoEHOSTDOWN)
    then str "unreachable"
    else if e =? errnoEINPROGRESS then str "in_progress"
    else if (e =? errnoEACCES) || (e =? errnoEPERM) then str "denied"
    else str "other".

(** * Examples *)

#[local] Existing Instance ascii_case.

Definition CRLF : bytes := [13; 10].

Example http_ex1 : ParseHTTPRequestPrefix (str "GET /a?b HTTP/1.1" ++ CRLF ++ str "Accept: x" ++ CRLF ++ str "HOST: ex.com:80" ++ CRLF)
  = Some (str "GET", str "ex.com", str "/a?b").
Proof. reflexivity. Qed.
Example http_ex2 : ParseHTTPRequestPrefix (str "GET / HTTP/1.1" ++ CRLF ++ str "Host: ex.co") = Some (str "GET", str "?", str "/").
Proof. reflexivity. Qed.
Example http_ex3 : ParseHTTPRequestPrefix (str "GET / HTTP/1.1" ++ CRLF ++ str "Host: [::1]:8080" ++ CRLF) = Some (str "GET", str "::1", str "/").
Proof. reflexivity. Qed.
Example sanitize_ex : SanitizeField (str "a" ++ [10; 0xE2; 0x82; 0xAC; 0xFF; 0xC2; 0x85] ++ str "b") 5 = Ret (str "a" ++ [0xE2; 0x82; 0xAC]).
Proof. reflexivity. Qed.

(** * Lemmas: UTF-8 *)

(** The well-formed encodings (Unicode, table 3-7), by the digits of the rune. *)
Inductive utf8 : Z -> bytes -> Prop :=
  | utf8_1 r : 0 <= r < 0x80 -> utf8 r [r]
  | utf8_2 a b : 2 <= a < 32 -> 0 <= b < 64 -> utf8 (a * 64 + b) [0xC0 + a; 0x80 + b]
  | utf8_3 a b c : 0 <= a < 16 -> 0 <= b < 64 -> 0 <= c < 64 -> (a = 0 -> 32 <= b) -> (a = 13 -> b < 32) ->
      utf8 (a * 4096 + b * 64 + c) [0xE0 + a; 0x80 + b; 0x80 + c]
  | utf8_4 a b c d : 0 <= a <= 4 -> 0 <= b < 64 -> 0 <= c < 64 -> 0 <= d < 64 -> (a = 0 -> 16 <= b) -> (a = 4 -> b < 16) ->
      utf8 (a * 262144 + b * 4096 + c * 64 + d) [0xF0 + a; 0x80 + b; 0x80 + c; 0x80 + d].

(** Decide every range test of the goal by arithmetic. *)
Lemma in_range_true lo hi b : lo <= b <= hi -> in_range lo hi b = true.
Proof. unfold in_range. lia. Qed.
Lemma in_range_false lo hi b : b < lo \/ hi < b -> in_range lo hi b = false.
Proof. unfold in_range. lia. Qed.

Ltac ranges := unfold cont; repeat first
  [ rewrite in_range_true by lia | rewrite in_range_false by lia
  | match goal with |- context [?x <? ?y] => first [replace (x <? y) with true by lia | replace (x <? y) with false by lia] end
  | match goal with |- context [?x =? ?y] => first [replace (x =? y) with true by lia | replace (x =? y) with false by lia] end ].

Lemma utf8_decode r c t : utf8 r c -> decode_rune (c ++ t) = Some (r, length c).
Proof.
  intros H. destruct H; cbn [app decode_rune length]; ranges; cbn [andb]; [done|do 2 f_equal; lia|..].
  - destruct (Z.eqb_spec (0xE0 + a) 0xE0); destruct (Z.eqb_spec (0xE0 + a) 0xED); ranges; cbn [andb]; do 2 f_equal; lia.
  - destruct (Z.eqb_spec (0xF0 + a) 0xF0); destruct (Z.eqb_spec (0xF0 + a) 0xF4); ranges; cbn [andb]; do 2 f_equal; lia.
Qed.

Lemma utf8_encode r c : utf8 r c -> encode_rune r = c.
Proof.
  intros H. destruct H; unfold encode_rune; ranges; cbn [orb]; try done.
  - repeat f_equal; Z.to_euclidean_division_equations; lia.
  - assert (in_range 0x800 0xD7FF (a * 4096 + b * 64 + c) || in_range 0xE000 0xFFFF (a * 4096 + b * 64 + c) = true) as ->
      by (unfold in_range; lia). repeat f_equal; Z.to_euclidean_division_equations; lia.
  - repeat f_equal; Z.to_euclidean_division_equations; lia.
Qed.

(** What [DecodeRune] reports: an invalid byte, or a well-formed encoding (or,
    on a list that is not of bytes, a negative element). *)
Lemma decode_utf8_any s r w : decode_rune s = Some (r, w) ->
  (r = RuneError /\ w = 1%nat) \/ (utf8 r (take w s) /\ forall b, take w s = [b] -> r < 0x80) \/ (r < 0 /\ r ∈ s).
Proof.
  unfold decode_rune. destruct s as [|b0 t]; [done|].
  destruct (b0 <? 0x80) eqn:E0.
  { intros [= <- <-]. right. destruct (decide (b0 < 0)); [right; split; [done|left]|]. left. split; [constructor; lia|intros; lia]. }
  assert (forall r', Some (RuneError, 1%nat) = Some (r', w) -> r' = RuneError /\ w = 1%nat) as Hbad by (intros ? [= <- <-]; done).
  destruct (in_range 0xC2 0xDF b0) eqn:E1.
  { destruct t as [|b1 t]; [by left; apply Hbad|]. destruct (cont b1) eqn:E2; [|by left; apply Hbad].
    unfold cont, in_range in *. intros [= <- <-]. right; left. split; [|done]. cbn [take]. rewrite take_0.
    replace [b0; b1] with [0xC0 + (b0 - 0xC0); 0x80 + (b1 - 0x80)] by (repeat f_equal; lia). apply utf8_2; lia. }
  destruct (in_range 0xE0 0xEF b0) eqn:E2.
  { destruct t as [|b1 [|b2 t]]; [by left; apply Hbad..|]. destruct (in_range _ _ b1 && _) eqn:E3; [|by left; apply Hbad].
    unfold cont, in_range in *. intros [= <- <-]. right; left. split; [|done]. cbn [take]. rewrite take_0.
    replace [b0; b1; b2] with [0xE0 + (b0 - 0xE0); 0x80 + (b1 - 0x80); 0x80 + (b2 - 0x80)] by (repeat f_equal; lia).
    destruct (b0 =? 0xE0) eqn:?, (b0 =? 0xED) eqn:?; apply utf8_3; lia. }
  destruct (in_range 0xF0 0xF4 b0) eqn:E3; [|by left; apply Hbad].
  destruct t as [|b1 [|b2 [|b3 t]]]; [by left; apply Hbad..|]. destruct (in_range _ _ b1 && _ && _) eqn:E4; [|by left; apply Hbad].
  unfold cont, in_range in *. intros [= <- <-]. right; left. split; [|done]. cbn [take]. rewrite take_0.
  replace [b0; b1; b2; b3] with [0xF0 + (b0 - 0xF0); 0x80 + (b1 - 0x80); 0x80 + (b2 - 0x80); 0x80 + (b3 - 0x80)] by (repeat f_equal; lia).
  destruct (b0 =? 0xF0) eqn:?, (b0 =? 0xF4) eqn:?; apply utf8_4; lia.
Qed.

Lemma decode_utf8 s r w : wf_bytes s -> decode_rune s = Some (r, w) ->
  (r = RuneError /\ w = 1%nat) \/ (utf8 r (take w s) /\ forall b, take w s = [b] -> r < 0x80).
Proof.
  intros Hw E. destruct (decode_utf8_any s r w E) as [H|[H|[H Hin]]]; auto.
  exfalso. unfold wf_bytes in Hw. rewrite Forall_forall in Hw. specialize (Hw _ Hin). unfold is_byte in Hw. lia.
Qed.

Lemma RuneError_utf8 : utf8 RuneError (encode_rune RuneError).
Proof. apply (utf8_3 15 63 61); lia. Qed.

(** The bytes of an encoding: a start byte, then continuation bytes. *)
Lemma utf8_shape r c : utf8 r c -> exists b cs, c = b :: cs /\ RuneStart b = true /\ Forall (fun b => RuneStart b = false) cs.
Proof.
  assert (Forall (fun x => RuneStart (0x80 + x) = false) (seqZ 0 64)) as Hc by (vm_compute; repeat constructor).
  assert (Forall (fun x => RuneStart x = true) (seqZ 0 128 ++ seqZ 192 64)) as Hs by (vm_compute; repeat constructor).
  setoid_rewrite Forall_forall in Hc. setoid_rewrite Forall_forall in Hs.
  setoid_rewrite elem_of_seqZ in Hc. setoid_rewrite elem_of_app in Hs. setoid_rewrite elem_of_seqZ in Hs.
  intros H. destruct H; eexists _, _; (split; [reflexivity|]); (split; [apply Hs; lia|]); repeat (constructor; [apply Hc; lia|]); constructor.
Qed.

(** * Lemmas: the runes of an encoded list *)

Definition encode (rs : list Z) : bytes := concat (map encode_rune rs).
Definition scalar (r : Z) : Prop := utf8 r (encode_rune r).

Lemma chunks_encode rs : Forall scalar rs -> chunks (encode rs) = map (fun r => (r, encode_rune r)) rs.
Proof.
  induction 1 as [|r rs Hr _ IH]; [done|]. unfold encode in *. cbn [map concat].
  rewrite (chunks_step _ r (length (encode_rune r))) by by apply utf8_decode.
  by rewrite take_app_length, drop_app_length, IH.
Qed.

Lemma runes_encode rs : Forall scalar rs -> runes (encode rs) = rs.
Proof. intros H. unfold runes. rewrite chunks_encode by done. rewrite <- list_fmap_compose. apply list_fmap_id. Qed.

(** Every chunk of a byte string decodes to a scalar value. *)
Lemma chunks_scalar s : wf_bytes s -> Forall (fun c => scalar c.1 /\ (invalid_chunk c = false -> c.2 = encode_rune c.1)) (chunks s).
Proof.
  remember (length s) as n eqn:En. revert s En. induction n as [n IH] using lt_wf_ind. intros s -> Hw.
  destruct s as [|b s]; [constructor|]. destruct (decode_rune_cons b s) as (r & w & E).
  pose proof (decode_rune_width _ _ _ E) as Hwd. rewrite (chunks_step _ _ _ E). constructor.
  - cbn [fst snd]. destruct (decode_utf8 _ _ _ Hw E) as [[-> ->]|[Hu Hb]].
    + split; [apply RuneError_utf8|]. by cbn.
    + rewrite (utf8_encode _ _ Hu) in *. split; [by rewrite <- (utf8_encode _ _ Hu) in Hu at 1|]. done.
  - eapply IH; [|reflexivity|by apply Forall_drop]. rewrite length_drop. lia.
Qed.

Lemma runes_scalar s : wf_bytes s -> Forall scalar (runes s).
Proof. intros Hw. unfold runes. apply Forall_fmap. eapply Forall_impl; [by apply chunks_scalar|]. by intros c [? _]. Qed.

(** On any list, a rune that [SanitizeField] keeps is a scalar value. *)
Lemma runes_kept s : Forall (fun r => keep_rune r = true -> scalar r) (runes s).
Proof.
  remember (length s) as n eqn:En. revert s En. induction n as [n IH] using lt_wf_ind. intros s ->.
  destruct s as [|b s]; [constructor|]. destruct (decode_rune_cons b s) as (r & w & E).
  pose proof (decode_rune_width _ _ _ E) as Hwd. unfold runes. rewrite (chunks_step _ _ _ E). constructor.
  - cbn [fst]. intros Hk. destruct (decode_utf8_any _ _ _ E) as [[-> _]|[[Hu _]|[Hneg _]]].
    + apply RuneError_utf8.
    + unfold scalar. by rewrite (utf8_encode _ _ Hu).
    + unfold keep_rune in Hk. lia.
  - eapply IH; [|reflexivity]. rewrite length_drop. lia.
Qed.

Lemma wf_to_valid rep cs b : wf_bytes rep -> Forall (fun c => wf_bytes c.2) cs -> wf_bytes (to_valid rep cs b).
Proof.
  intros Hr Hc. revert b. induction Hc as [|c cs Hc _ IH]; intros b; [constructor|]. cbn [to_valid].
  destruct (invalid_chunk c), b; apply Forall_app; (split; [|apply IH]); done || constructor.
Qed.

Lemma wf_chunks s : wf_bytes s -> Forall (fun c => wf_bytes c.2) (chunks s).
Proof.
  intros Hw. rewrite <- (chunks_concat s) in Hw. unfold wf_bytes in Hw. rewrite Forall_concat in Hw. by rewrite Forall_fmap in Hw.
Qed.

Lemma wf_ToValidUTF8 s : wf_bytes s -> wf_bytes (ToValidUTF8 s (encode_rune RuneError)).
Proof. intros Hw. apply wf_to_valid; [|by apply wf_chunks]. by apply (bool_decide_unpack _). Qed.

Lemma ValidString_encode rs : Forall scalar rs -> ValidString (encode rs) = true.
Proof.
  intros Hs. unfold ValidString. rewrite chunks_encode by done. apply forallb_forall. intros c Hc.
  apply in_map_iff in Hc as (r & <- & _). unfold invalid_chunk. cbn [fst snd].
  destruct (Z.eqb_spec r RuneError) as [->|]; done.
Qed.

(** * Lemmas: truncation *)

Lemma cutBack_app pre b s c : RuneStart b = true -> (c <= length s)%nat ->
  cutBack (pre ++ b :: s) (length pre + c) = (c' ← cutBack (b :: s) c; Ret (length pre + c')%nat).
Proof.
  intros Hb Hc. induction c as [|c IH].
  - cbn [cutBack mbind go_bind]. rewrite Nat.add_0_r. destruct (length pre) as [|n] eqn:E; [done|].
    cbn [cutBack]. rewrite (idx_app pre b s) by (unfold len; lia). cbn [mbind go_bind]. by rewrite Hb.
  - rewrite Nat.add_succ_r. cbn [cutBack].
    assert (idx (pre ++ b :: s) (Z.of_nat (S (length pre + c))) = idx (b :: s) (Z.of_nat (S c))) as ->.
    { unfold idx. rewrite !decide_True by lia. rewrite !Nat2Z.id, lookup_app_r by lia.
      by replace (S (length pre + c) - length pre)%nat with (S c) by lia. }
    destruct (idx (b :: s) _) as [x|] eqn:Ei; [|done]. cbn [mbind go_bind]. destruct (RuneStart x).
    + cbn [mbind go_bind]. by rewrite Nat.add_succ_r.
    + apply IH. lia.
Qed.

(** The cut falls at the end of a rune. *)
Lemma cutBack_encode rs cut : Forall scalar rs -> (cut < length (encode rs))%nat ->
  exists c k, cutBack (encode rs) cut = Ret c /\ (c <= cut)%nat /\ take c (encode rs) = encode (take k rs).
Proof.
  intros Hs. revert cut. induction Hs as [|r rs Hr Hrs IH]; intros cut Hc; [cbn in Hc; lia|].
  destruct (utf8_shape _ _ Hr) as (b & cs & Er & Hb & Hcs). unfold encode in *. cbn [map concat] in *. rewrite Er in *.
  destruct (decide (cut <= length cs)%nat) as [Hle|Hgt].
  - exists 0%nat, 0%nat. split_and!; [|lia|done]. clear IH Hc. induction cut as [|cut IHc]; [done|]. cbn [cutBack].
    destruct (lookup_lt_is_Some_2 cs cut ltac:(lia)) as [x Hx].
    assert (idx ((b :: cs) ++ concat (map encode_rune rs)) (Z.of_nat (S cut)) = Ret x) as ->.
    { unfold idx. rewrite decide_True by lia. rewrite Nat2Z.id. rewrite lookup_app_l by (cbn [length]; lia).
      change ((b :: cs) !! S cut) with (cs !! cut). by rewrite Hx. }
    cbn [mbind go_bind]. rewrite (proj1 (Forall_lookup _ _) Hcs _ _ Hx). apply IHc. lia.
  - rewrite length_app in Hc. cbn [length] in Hc.
    assert (exists c', cut = length (b :: cs) + c')%nat as [c' ->] by (exists (cut - S (length cs))%nat; cbn; lia).
    destruct (IH c') as (c & k & E & Hck & Ht); [cbn [length] in Hc; lia|].
    destruct (concat (map encode_rune rs)) as [|b2 s2] eqn:Es; [cbn [length] in Hc; lia|].
    assert (RuneStart b2 = true) as Hb2.
    { destruct Hrs as [|r2 rs2 Hr2 _]; [done|]. destruct (utf8_shape _ _ Hr2) as (b' & cs' & Er2 & Hb' & _).
      cbn [map concat] in Es. rewrite Er2 in Es. by injection Es as <- _. }
    exists (length (b :: cs) + c)%nat, (S k). rewrite cutBack_app by (done || (cbn [length] in Hc; lia)).
    rewrite E. cbn [mbind go_bind]. split_and!; [done|lia|].
    rewrite take_app_add. cbn [take map concat]. by rewrite Ht, Er.
Qed.

(** * Properties: SanitizeField *)

Lemma sanitize_clean rs n : Forall (fun r => scalar r /\ keep_rune r = true) rs -> 0 < n -> len (encode rs) <= n ->
  SanitizeField (encode rs) n = Ret (encode rs).
Proof.
  intros Hs H0 Hn. unfold SanitizeField. replace (n <=? 0) with false by lia.
  assert (Forall scalar rs) as Hsc by (eapply Forall_impl; [exact Hs|]; by intros ? [? _]).
  rewrite ValidString_encode by done. cbn [negb]. rewrite runes_encode by done.
  assert (filter keep_rune rs = rs) as ->.
  { apply filter_all. rewrite Forall_forall in Hs. intros r Hr. apply Is_true_eq_left. by apply Hs. }
  change (concat (map encode_rune rs)) with (encode rs). by replace (n <? len (encode rs)) with false by lia.
Qed.

(** The bytes of a kept rune: no control byte. *)
Lemma keep_bytes r : scalar r -> keep_rune r = true -> Forall (fun b => 0x20 <= b < 256 /\ b <> 0x7F) (encode_rune r).
Proof.
  intros Hs Hk. unfold keep_rune in Hk. red in Hs. remember (encode_rune r) as c eqn:Ec. clear Ec.
  destruct Hs; repeat constructor; lia.
Qed.

(** The result is the encoding of printable runes, within the budget. *)
Lemma sanitize_any s n : exists out rs, SanitizeField s n = Ret out /\ out = encode rs /\ len out <= Z.max 0 n /\
  Forall (fun r => scalar r /\ keep_rune r = true) rs.
Proof.
  unfold SanitizeField. destruct (Z.leb_spec n 0) as [H0|H0].
  { exists [], []. split_and!; [done|done|unfold len; cbn; lia|constructor]. }
  set (s1 := if negb (ValidString s) then _ else s).
  set (rs := filter keep_rune (runes s1)).
  assert (Forall (fun r => scalar r /\ keep_rune r = true) rs) as Hrs.
  { apply Forall_forall. intros r [Hk%Is_true_eq_true Hr]%list_elem_of_filter. split; [|done].
    pose proof (runes_kept s1) as HF. rewrite Forall_forall in HF. by apply HF. }
  assert (Forall scalar rs) as Hsc by (eapply Forall_impl; [exact Hrs|]; by intros ? [? _]).
  change (concat (map encode_rune rs)) with (encode rs). destruct (Z.ltb_spec n (len (encode rs))) as [Hn|Hn].
  - destruct (cutBack_encode rs (Z.to_nat n) Hsc) as (c & k & -> & Hc & Ht); [unfold len in Hn; lia|].
    cbn [mbind go_bind]. unfold slice_to. rewrite slice_in_range by (unfold len in *; lia).
    rewrite Z.sub_0_r, Nat2Z.id. change (drop (Z.to_nat 0) (encode rs)) with (encode rs). exists (encode (take k rs)), (take k rs). rewrite Ht.
    split_and!; [done|done| |by apply Forall_take]. rewrite <- Ht, len_take. lia.
  - exists (encode rs), rs. split_and!; [done|done|lia|done].
Qed.

Lemma sanitize_result s n : wf_bytes s -> exists out rs, SanitizeField s n = Ret out /\ out = encode rs /\ len out <= Z.max 0 n /\
  Forall (fun r => scalar r /\ keep_rune r = true) rs.
Proof. intros _. apply sanitize_any. Qed.

Lemma encode_clean rs : Forall (fun r => scalar r /\ keep_rune r = true) rs -> Forall (fun b => 0x20 <= b < 256 /\ b <> 0x7F) (encode rs).
Proof.
  intros Hrs. unfold encode. induction Hrs as [|r rs [Hs Hk] _ IH]; [constructor|]. cbn [map concat]. apply Forall_app.
  split; [by apply keep_bytes|done].
Qed.

(** What reaches the event log is harmless.  For any byte string and any
    budget, [SanitizeField] returns a string within the budget that is valid
    UTF-8 of printable runes, so it has no control byte (no newline can start a
    record); a string that already is of that form and fits is unchanged, so
    sanitizing twice is sanitizing once. *)
Theorem sanitize_field_safe s n : wf_bytes s -> exists out, SanitizeField s n = Ret out /\
  len out <= Z.max 0 n /\
  (exists rs, out = encode rs /\ Forall (fun r => scalar r /\ keep_rune r = true) rs) /\
  Forall (fun b => 0x20 <= b < 256 /\ b <> 0x7F) out /\
  SanitizeField out n = Ret out.
Proof.
  intros Hw. destruct (sanitize_result s n Hw) as (out & rs & E & -> & Hl & Hrs).
  exists (encode rs). split_and!; [done|done|eauto|by apply encode_clean|].
  destruct (Z.leb_spec n 0) as [H0|H0]; [|by apply sanitize_clean; [done|lia|lia]].
  assert (encode rs = []) as -> by (apply len_zero_inv; pose proof (len_nonneg (encode rs)); lia).
  unfold SanitizeField. by replace (n <=? 0) with true by lia.
Qed.

Lemma sanitize_field_safe_witness : exists out, SanitizeField [97; 10; 0xE2; 0x82; 0xAC; 0xFF; 98] 4 = Ret out /\ len out <= 4.
Proof.
  destruct (sanitize_field_safe [97; 10; 0xE2; 0x82; 0xAC; 0xFF; 98] 4) as (out & E & Hl & _); [repeat constructor; lia|].
  exists out. split; [exact E|exact Hl].
Defined.

(** * Lemmas: lines *)

Lemma HasPrefix_app s t p : (length p <= length s)%nat -> HasPrefix (s ++ t) p = HasPrefix s p.
Proof.
  revert s. induction p as [|x p IH]; intros [|y s]; cbn [length HasPrefix app]; try done; [lia|].
  intros H. by rewrite IH by lia.
Qed.

(** A first occurrence stays first when the string is extended. *)
Lemma Index_app s t sub i : Index s sub = Some i -> Index (s ++ t) sub = Some i.
Proof.
  revert i. induction s as [|b s IH]; intros i.
  - cbn [Index app]. destruct sub; [|done]. intros [= <-]. by destruct t.
  - intros E. pose proof (Index_Some_spec _ _ _ E) as (u & v & Es & _).
    assert (length sub <= length (b :: s))%nat as Hl by (rewrite Es, !length_app; lia).
    cbn [Index app] in *. change (b :: s ++ t) with ((b :: s) ++ t). rewrite HasPrefix_app by done.
    destruct (HasPrefix (b :: s) sub); [done|]. destruct (Index s sub) as [j|]; [|done]. by rewrite (IH j).
Qed.

(** The first occurrence of a string whose first byte is not before it. *)
Lemma Index_first u b sub v : b ∉ u -> Index (u ++ (b :: sub) ++ v) (b :: sub) = Some (length u).
Proof.
  induction u as [|c u IH]; intros Hb.
  - assert (HasPrefix ((b :: sub) ++ v) (b :: sub) = true) as E by (apply HasPrefix_spec; by exists v).
    cbn [app Index] in *. by rewrite E.
  - apply not_elem_of_cons in Hb as [Hne Hb]. cbn [app Index HasPrefix].
    replace (b =? c) with false by lia. cbn [andb]. by rewrite (IH Hb : Index (u ++ b :: sub ++ v) (b :: sub) = _).
Qed.

Lemma IndexByte_None s b : IndexByte s b = None <-> b ∉ s.
Proof.
  pose proof (Contains_byte s b) as H. unfold Contains, IndexByte in *. destruct (Index s [b]); split; try done.
  - intros Hn. exfalso. by apply Hn, H.
  - intros _ Hin. by apply H in Hin.
Qed.

(** Every line feed follows a carriage return. *)
Definition crlf_only (b : bytes) : Prop := forall u v, b = u ++ 10 :: v -> exists u', u = u' ++ [13].

Lemma crlf_only_suffix u v : crlf_only (u ++ v) -> (v <> [] -> u = [] \/ exists u' x, u = u' ++ [x] /\ x <> 13) -> crlf_only v.
Proof.
  intros H Hu a w ->. destruct (H (u ++ a) w) as [u' E]; [by rewrite app_assoc|].
  destruct a as [|x a] using rev_ind; [|rewrite app_assoc in E; apply app_inj_tail in E as [_ ->]; eauto].
  rewrite app_nil_r in E. destruct Hu as [->|(u2 & x & -> & Hx)]; [done|by destruct u'|].
  by apply app_inj_tail in E as [_ ->].
Qed.

Lemma crlf_only_LF b : crlf_only b -> Index b [13; 10] = None -> IndexByte b 10 = None.
Proof.
  intros H Hn. apply IndexByte_None. intros (u & v & ->)%list_elem_of_split.
  destruct (H u v eq_refl) as [u' ->]. apply (Index_None_spec _ _ Hn u' v). by rewrite <- app_assoc.
Qed.

(** A line of such a buffer ends at the first CRLF, and what follows is such a
    buffer that does not start with a line feed. *)
Lemma crlf_split b i : crlf_only b -> Index b [13; 10] = Some i ->
  exists line rest, b = line ++ [13; 10] ++ rest /\ length line = i /\ crlf_only rest /\ HasPrefix rest [10] = false.
Proof.
  intros H (line & rest & -> & Hi)%Index_Some_spec. exists line, rest. split_and!; [done|done| |].
  - apply (crlf_only_suffix (line ++ [13; 10])); [by rewrite <- app_assoc|]. intros _. right. exists (line ++ [13]), 10.
    split; [by rewrite <- app_assoc|done].
  - destruct (HasPrefix rest [10]) eqn:E; [|done]. apply HasPrefix_spec in E as [t ->].
    destruct (H (line ++ [13; 10]) t) as [u' E]; [by rewrite <- app_assoc|].
    change [13; 10] with ([13] ++ [10]) in E. rewrite app_assoc in E. by apply app_inj_tail in E as [_ ?].
Qed.

Lemma take_drop_line line (sep rest : bytes) : take (length line) (line ++ sep ++ rest) = line /\
  drop (length line + length sep) (line ++ sep ++ rest) = rest.
Proof. split; [apply take_app_length|]. by rewrite <- drop_drop, drop_app_length, drop_app_length. Qed.

Lemma takeLine_crlf line rest i : Index (line ++ [13; 10] ++ rest) [13; 10] = Some i -> length line = i ->
  takeLine (line ++ [13; 10] ++ rest) = Some (line, rest).
Proof.
  intros E Hl. unfold takeLine. rewrite decide_False by (by destruct line). rewrite E, <- Hl.
  destruct (take_drop_line line [13; 10] rest) as [E1 E2]. rewrite E1. cbn [length] in E2. by rewrite E2.
Qed.

Section HttpProperties.
Context `{UnicodeCase}.

Lemma hostLoop_step n rest : hostLoop (S n) rest =
  match takeLine rest with
  | None => []
  | Some (line, rest') => match headerHost line with Some h => h | None => hostLoop n rest' end
  end.
Proof. by destruct rest. Qed.

Lemma takeLine_None b : Index b [13; 10] = None -> IndexByte b 10 = None -> takeLine b = None.
Proof. intros E1 E2. unfold takeLine. rewrite E1, E2. by destruct (decide _). Qed.

(** More bytes after the header that named the host change nothing. *)
Lemma hostLoop_extend n rest ext m : crlf_only rest -> (length (rest ++ ext) <= m)%nat ->
  hostLoop n rest <> [] -> hostLoop m (rest ++ ext) = hostLoop n rest.
Proof.
  revert rest m. induction n as [|n IH]; intros rest m Hc Hm; [done|]. rewrite hostLoop_step.
  destruct (Index rest [13; 10]) as [i|] eqn:Ei.
  - destruct (crlf_split rest i Hc Ei) as (line & rest' & -> & Hi & Hc' & _).
    pose proof (Index_app _ ext _ _ Ei) as Ei'. rewrite <- !app_assoc in *.
    rewrite (takeLine_crlf line rest' i) by done.
    destruct m as [|m]; [rewrite !length_app in Hm; cbn in Hm; lia|].
    rewrite hostLoop_step, (takeLine_crlf line (rest' ++ ext) i) by done.
    destruct (headerHost line); [done|]. apply IH; [done|]. rewrite !length_app in *. cbn in Hm. lia.
  - by rewrite takeLine_None by (done || by apply crlf_only_LF).
Qed.

Lemma drop_while_app {A} (f : A -> bool) l k : drop_while f l <> [] -> drop_while f (l ++ k) = drop_while f l ++ k.
Proof. induction l as [|x l IH]; [done|]. cbn. destruct (f x); [done|by intros]. Qed.

Lemma drop_while_suffix {A} (f : A -> bool) l : exists u, l = u ++ drop_while f l /\ Forall (fun x => f x = true) u /\
  forall x k, drop_while f l = x :: k -> f x = false.
Proof.
  induction l as [|x l (u & E & Hu & Hx)]; [by exists []|]. cbn. destruct (f x) eqn:Ef.
  - exists (x :: u). cbn. split_and!; [by f_equal|by constructor|done].
  - exists []. split_and!; [done|constructor|]. by intros ? ? [= -> ->].
Qed.

Lemma hostLoop_no_LF n rest : 10 ∉ rest -> hostLoop n rest = [].
Proof.
  destruct n as [|n]; [done|]. intros Hn. rewrite hostLoop_step. rewrite takeLine_None; [done| |by apply IndexByte_None].
  destruct (Index rest [13; 10]) eqn:Ei; [|done]. apply Index_Some_spec in Ei as (u & v & -> & _). exfalso. apply Hn.
  rewrite elem_of_app, elem_of_app, !elem_of_cons. auto.
Qed.

Lemma elem_of_drop {A} (x : A) n l : x ∈ drop n l -> x ∈ l.
Proof. intros Hx. rewrite <- (take_drop n l). by apply elem_of_app; right. Qed.

Lemma elem_of_TrimPrefix x b p : x ∈ TrimPrefix b p -> x ∈ b.
Proof. unfold TrimPrefix. destruct (HasPrefix b p); [|done]. apply elem_of_drop. Qed.

(** A reported host is never a truncated one.  When a capture whose lines
    end in CRLF yields a host, any longer capture of the same request yields
    the same method, host and path: the window at which the kernel cut the
    request cannot change what is reported. *)
Theorem http_capture_monotone raw ext method host path : crlf_only raw ->
  ParseHTTPRequestPrefix raw = Some (method, host, path) -> host <> str "?" ->
  ParseHTTPRequestPrefix (raw ++ ext) = Some (method, host, path).
Proof.
  intros Hc. unfold ParseHTTPRequestPrefix. destruct (drop_while_suffix http_space raw) as (u & Eu & _ & Hx).
  remember (drop_while http_space raw) as raw1 eqn:E1.
  destruct (length raw1 <? 8)%nat eqn:E8; [done|]. apply Nat.ltb_ge in E8.
  assert (raw1 <> []) as Hne by (intros Hz; rewrite Hz in E8; cbn in E8; lia).
  rewrite drop_while_app by (by rewrite <- E1). rewrite <- E1.
  replace (length (raw1 ++ ext) <? 8)%nat with false by (symmetry; apply Nat.ltb_ge; rewrite length_app; lia).
  assert (crlf_only raw1) as Hc1.
  { intros a v Ea. destruct a as [|x a]; [exfalso; by specialize (Hx 10 v Ea)|].
    destruct (Hc (u ++ x :: a) v) as [u' E]; [by rewrite Eu, Ea, <- app_assoc|].
    destruct (x :: a) as [|y a'] eqn:Exa using rev_ind; [done|]. rewrite app_assoc in E. apply app_inj_tail in E as [_ ->]. eauto. }
  unfold lineEndOf. destruct (Index raw1 [13; 10]) as [i|] eqn:Ei.
  - rewrite (Index_app _ ext _ _ Ei). destruct (crlf_split raw1 i Hc1 Ei) as (line & rest & -> & <- & Hr & Hlf).
    rewrite <- !app_assoc. rewrite !take_app_length, !drop_app_length.
    destruct (Fields line) as [|m [|pt [|v fs]]]; try done. destruct (HasPrefix pt (str "/")); [|done].
    assert (forall t, HasPrefix t [10] = false -> skipEOL ([13; 10] ++ t) = t) as Hskip.
    { intros t Ht. unfold skipEOL. change (TrimPrefix ([13; 10] ++ t) [13; 10]) with (drop 0 t). rewrite drop_0.
      unfold TrimPrefix. by rewrite Ht. }
    rewrite Hskip by done. destruct rest as [|b rest]; [intros Heq Hq; by simplify_eq/=|].
    rewrite Hskip by (cbn in Hlf |- *; done). destruct (decide (hostLoop _ (b :: rest) = [])) as [Hh|Hh]; [intros Heq Hq; by simplify_eq/=|].
    intros Heq _. injection Heq as <- <- <-. rewrite (hostLoop_extend (length (b :: rest))) by done. by rewrite decide_False by done.
  - pose proof (crlf_only_LF raw1 Hc1 Ei) as El. rewrite El. apply IndexByte_None in El.
    destruct (Fields _) as [|m [|pt [|v fs]]]; try done. destruct (HasPrefix pt (str "/")); [|done].
    assert (10 ∉ skipEOL (drop (Nat.min (length raw1) 256) raw1)) as Hno.
    { intros Hin. apply El. unfold skipEOL in Hin. by apply elem_of_TrimPrefix, elem_of_TrimPrefix, elem_of_drop in Hin. }
    rewrite hostLoop_no_LF by done. intros Heq Hq. by simplify_eq/=.
Qed.

(** ** Round trip *)

(** Visible ASCII, and ASCII without control bytes. *)
Definition visible (s : bytes) : Prop := Forall (fun b => 0x21 <= b <= 0x7E) s.
Definition printable (s : bytes) : Prop := Forall (fun b => 0x20 <= b <= 0x7E) s.

Lemma visible_space b : 0x21 <= b <= 0x7E -> IsSpace b = false.
Proof. intros Hb. unfold IsSpace, in_range. lia. Qed.

Lemma printable_ascii s : printable s -> is_ascii s = true.
Proof. intros Hs. apply is_ascii_Forall. eapply Forall_impl; [exact Hs|]. cbn. lia. Qed.

Lemma visible_printable s : visible s -> printable s.
Proof. intros Hs. eapply Forall_impl; [exact Hs|]. cbn. lia. Qed.

Lemma trim_visible s : visible s -> TrimSpace s = s /\ TrimSpace (32 :: s) = s.
Proof.
  intros Hs. pose proof (printable_ascii s (visible_printable s Hs)) as Ha.
  assert (forall l, visible l -> drop_while IsSpace l = l) as Hd.
  { intros l Hl. destruct Hl as [|b l Hb _]; [done|]. cbn. by rewrite visible_space. }
  rewrite !TrimSpace_ascii by (done || by cbn; rewrite Ha). unfold trim.
  assert (drop_while IsSpace (32 :: s) = s) as -> by (cbn; by apply Hd).
  rewrite (Hd s) by done. rewrite (Hd (rev s)) by by apply Forall_rev. by rewrite rev_involutive.
Qed.

Lemma fields_aux_visible s cs cur : visible s ->
  fields_aux IsSpace (map (fun b => (b, [b])) s ++ cs) cur = fields_aux IsSpace cs (cur ++ s).
Proof.
  intros Hs. revert cur. induction Hs as [|b s Hb _ IH]; intros cur; cbn [map app fields_aux]; [by rewrite app_nil_r|].
  rewrite visible_space by done. by rewrite IH, <- app_assoc.
Qed.

Lemma Fields_three m p v : visible m -> visible p -> visible v -> m <> [] -> p <> [] -> v <> [] ->
  Fields (m ++ [32] ++ p ++ [32] ++ v) = [m; p; v].
Proof.
  intros Hm Hp Hv Nm Np Nv. unfold Fields, FieldsFunc. rewrite chunks_ascii.
  - rewrite !map_app, fields_aux_visible by done. cbn [map app fields_aux]. change (IsSpace 32) with true. cbv iota.
    destruct m as [|m0 m]; [done|]. rewrite fields_aux_visible by done. cbn [map app fields_aux]. change (IsSpace 32) with true. cbv iota.
    destruct p as [|p0 p]; [done|]. rewrite <- (app_nil_r (map _ v)), fields_aux_visible by done. by destruct v.
  - apply printable_ascii. unfold printable. rewrite !Forall_app, !Forall_singleton.
    split_and!; try lia; by apply visible_printable.
Qed.

(** A request: the request line, other headers, the Host header with an
    optional port, and whatever follows. *)
Record request := mkRequest {
  rq_method : bytes; rq_path : bytes; rq_version : bytes;
  rq_headers : list (bytes * bytes);
  rq_host : bytes; rq_port : bytes;
}.

Definition header_line (h : bytes * bytes) : bytes := h.1 ++ [58] ++ h.2.
Definition enc_request (r : request) : bytes :=
  (rq_method r ++ [32] ++ rq_path r ++ [32] ++ rq_version r) ++ CRLF ++
  concat (map (fun h => header_line h ++ CRLF) (rq_headers r)) ++
  (str "Host" ++ [58] ++ [32] ++ rq_host r ++ rq_port r) ++ CRLF.

Record request_ok (r : request) : Prop := {
  ro_method : visible (rq_method r) /\ rq_method r <> [];
  ro_path : visible (rq_path r) /\ HasPrefix (rq_path r) (str "/") = true;
  ro_version : visible (rq_version r) /\ rq_version r <> [];
  ro_headers : Forall (fun h => printable h.1 /\ printable h.2 /\ h.1 <> [] /\ (58 ∉ h.1) /\
    TrimSpace (ToLower h.1) <> str "host") (rq_headers r);
  ro_host : visible (rq_host r) /\ (58 ∉ rq_host r) /\ rq_host r <> [] /\ HasPrefix (rq_host r) (str "[") = false;
  ro_port : rq_port r = [] \/ exists digits, rq_port r = 58 :: digits /\ visible digits;
}.

Lemma printable_no_cr s : printable s -> 13 ∉ s.
Proof. intros Hs Hin. unfold printable in Hs. rewrite Forall_forall in Hs. specialize (Hs _ Hin). lia. Qed.

Lemma Index_crlf line rest : printable line -> Index (line ++ [13; 10] ++ rest) [13; 10] = Some (length line).
Proof. intros Hl. apply (Index_first line 13 [10] rest). by apply printable_no_cr. Qed.

Lemma IndexByte_first u b v : b ∉ u -> IndexByte (u ++ [b] ++ v) b = Some (length u).
Proof. intros Hb. apply (Index_first u b [] v Hb). Qed.

Lemma headerHost_spec name v : name <> [] -> 58 ∉ name ->
  headerHost (name ++ [58] ++ v) =
    if decide (TrimSpace (ToLower name) = str "host" /\ TrimSpace v <> []) then Some (normalizeHostHeader (TrimSpace v)) else None.
Proof.
  intros Hne Hc. unfold headerHost. rewrite IndexByte_first by done. destruct (take_drop_line name [58] v) as [Et Ed].
  cbn [length] in Ed. destruct name as [|b name]; [done|]. cbn [app length] in *. by rewrite Et, Ed.
Qed.

Lemma normalize_host r : request_ok r -> normalizeHostHeader (rq_host r ++ rq_port r) = rq_host r.
Proof.
  intros [_ _ _ _ (Hv & Hc & Hne & Hb) Hp]. unfold normalizeHostHeader.
  assert (visible (rq_host r ++ rq_port r)) as Hvp.
  { apply Forall_app. split; [done|]. destruct Hp as [->|(d & -> & Hd)]; [constructor|]. constructor; [lia|done]. }
  rewrite (proj1 (trim_visible _ Hvp)). rewrite decide_False by (by destruct (rq_host r)).
  replace (HasPrefix (rq_host r ++ rq_port r) (str "[")) with false
    by (rewrite HasPrefix_app; [done|destruct (rq_host r); [done|cbn; lia]]).
  destruct Hp as [->|(d & -> & _)].
  - rewrite app_nil_r. by rewrite (proj2 (IndexByte_None _ _) Hc).
  - change (58 :: d) with ([58] ++ d). rewrite IndexByte_first by done. apply take_app_length.
Qed.

Lemma takeLine_line line rest : printable line -> takeLine (line ++ CRLF ++ rest) = Some (line, rest).
Proof. intros Hl. eapply takeLine_crlf; [by apply Index_crlf|done]. Qed.

(** The loop skips the other headers and stops at the Host header. *)
Lemma hostLoop_request r tail n : request_ok r ->
  let rest := concat (map (fun h => header_line h ++ CRLF) (rq_headers r)) ++
    (str "Host" ++ [58] ++ [32] ++ rq_host r ++ rq_port r) ++ CRLF ++ tail in
  (length rest <= n)%nat -> hostLoop n rest = rq_host r.
Proof.
  intros Hr. cbv zeta. pose proof (ro_headers r Hr) as Hh. revert n.
  assert (visible (rq_host r ++ rq_port r)) as Hv.
  { apply Forall_app. split; [apply Hr|]. destruct (ro_port r Hr) as [->|(d & -> & Hd)]; [constructor|]. constructor; [lia|done]. }
  induction Hh as [|h hs (H1 & H2 & Hne & Hc & Hn) _ IH]; intros n Hlen; cbn [map concat] in *.
  - rewrite app_nil_l in *. destruct n as [|n]; [cbn in Hlen; lia|]. rewrite hostLoop_step, takeLine_line.
    + rewrite headerHost_spec by (done || by apply (bool_decide_unpack _)).
      rewrite (proj2 (trim_visible _ Hv) : TrimSpace ([32] ++ rq_host r ++ rq_port r) = _). rewrite decide_True; [by apply normalize_host|].
      split; [reflexivity|]. destruct (rq_host r) eqn:E; [by destruct (ro_host r Hr) as (_ & _ & ? & _)|done].
    + apply Forall_app. split; [by apply (bool_decide_unpack _)|]. do 2 (constructor; [lia|]). by apply visible_printable.
  - rewrite <- !app_assoc in *. assert (0 < length CRLF)%nat by (cbn; lia).
    destruct n as [|n]; [rewrite !length_app in Hlen; lia|].
    rewrite hostLoop_step, takeLine_line.
    + unfold header_line at 1. rewrite headerHost_spec by done. rewrite decide_False by tauto. apply IH.
      rewrite !length_app in *. lia.
    + unfold header_line, printable. rewrite !Forall_app, Forall_singleton. split_and!; done || lia.
Qed.

(** The request parser inverts the request format.  A request line, any
    headers before it, and a Host header (any port, nothing or anything
    after it) give back the method, the host without the port and the path. *)
Theorem http_request_roundtrip r tail : request_ok r ->
  ParseHTTPRequestPrefix (enc_request r ++ tail) = Some (rq_method r, rq_host r, rq_path r).
Proof.
  intros Hr. pose proof Hr as [[Hm Nm] [Hp Np] [Hv Nv] Hh [Hho [Hc [Nh Hb]]] Hpo].
  assert (rq_path r <> []) as Np' by (intros E; by rewrite E in Np).
  unfold ParseHTTPRequestPrefix, enc_request. set (line := rq_method r ++ _). set (hs := concat _).
  set (hl := str "Host" ++ _). rewrite <- !app_assoc.
  assert (printable line) as Hl.
  { unfold line, printable. rewrite !Forall_app, !Forall_singleton. split_and!; try lia; by apply visible_printable. }
  assert (drop_while http_space (line ++ CRLF ++ hs ++ hl ++ CRLF ++ tail) = line ++ CRLF ++ hs ++ hl ++ CRLF ++ tail) as ->.
  { unfold line. destruct (rq_method r) as [|b m]; [done|]. inversion Hm; subst. cbn [app drop_while].
    by replace (http_space b) with false by (unfold http_space; lia). }
  replace (_ <? 8)%nat with false.
  2: { symmetry. apply Nat.ltb_ge. rewrite !length_app. unfold hl. rewrite !length_app. cbn [length str CRLF]. lia. }
  assert (lineEndOf (line ++ CRLF ++ hs ++ hl ++ CRLF ++ tail) = length line) as ->
    by (unfold lineEndOf; by rewrite (Index_crlf line (hs ++ hl ++ CRLF ++ tail) Hl : Index (line ++ CRLF ++ _) _ = _)).
  rewrite take_app_length, drop_app_length. unfold line. rewrite Fields_three by done. rewrite Np.
  assert (skipEOL (CRLF ++ hs ++ hl ++ CRLF ++ tail) = hs ++ hl ++ CRLF ++ tail) as ->.
  { unfold skipEOL. change (TrimPrefix (CRLF ++ ?t) [13; 10]) with (drop 0 t). rewrite drop_0. unfold TrimPrefix.
    replace (HasPrefix _ _) with false; [done|]. unfold hs. destruct Hh as [|[k v] l (H1 & _ & Hne & _) _]; [done|].
    cbn [fst] in *. destruct H1 as [|b k' Hk _]; [done|]. cbn [concat map header_line app fst]. cbn [HasPrefix].
    replace (10 =? b) with false by (symmetry; apply Z.eqb_neq; intros <-; cbn in Hk; lia). done. }
  pose proof (hostLoop_request r tail (length (hs ++ hl ++ CRLF ++ tail)) Hr (le_n _)) as E. cbv zeta in E. fold hs hl in E.
  rewrite E. by rewrite decide_False by done.
Qed.
End HttpProperties.

Module Witness.
#[local] Existing Instance ascii_case.

Definition capture : bytes := str "GET /x HTTP/1.1" ++ CRLF ++ str "Host: a.io" ++ CRLF.

Lemma http_capture_monotone_witness :
  ParseHTTPRequestPrefix (capture ++ str "Host: b.io") = Some (str "GET", str "a.io", str "/x").
Proof.
  apply http_capture_monotone; [|reflexivity|done].
  intros u v E.
  assert (Forall (fun k => if decide (capture !! k = Some 10) then capture !! (k - 1)%nat = Some 13 /\ (0 < k)%nat else True) (seq 0 29)) as Hk
    by (vm_compute; repeat (constructor; [first [exact I | split; [reflexivity|lia]]|]); constructor).
  rewrite Forall_forall in Hk. specialize (Hk (length u)). rewrite E, list_lookup_middle, decide_True in Hk by done. rewrite <- E in Hk.
  destruct Hk as [H13 H0].
  - apply elem_of_seq. split; [lia|]. apply (f_equal length) in E. rewrite length_app in E. cbn in E. lia.
  - destruct u as [|x u _] using rev_ind; [cbn in H0; lia|]. exists u. f_equal. f_equal.
    rewrite E, length_app, Nat.add_sub, <- app_assoc in H13. cbn [app] in H13. rewrite list_lookup_middle in H13 by done. congruence.
Defined.

Definition req : request :=
  mkRequest (str "GET") (str "/x") (str "HTTP/1.1") [(str "Accept", str " */*")] (str "a.io") (str ":80").

Ltac ascii_ok := unfold visible, printable; vm_compute; repeat (constructor; [split; discriminate|]); constructor.

Lemma http_request_roundtrip_witness :
  ParseHTTPRequestPrefix (enc_request req ++ str "Us") = Some (str "GET", str "a.io", str "/x").
Proof.
  apply (http_request_roundtrip req (str "Us")).
  split; cbn [rq_method rq_path rq_version rq_headers rq_host rq_port req].
  - split; [|done]. ascii_ok.
  - split; [|done]. ascii_ok.
  - split; [|done]. ascii_ok.
  - constructor; [|constructor]. cbn [fst snd]. split_and!; [ascii_ok..|done| |done].
    by apply (bool_decide_unpack _).
  - split_and!; [ascii_ok| |done|done]. by apply (bool_decide_unpack _).
  - right. exists (str "80"). split; [done|]. ascii_ok.
Defined.
End Witness.

(** A line that ends in a bare LF is not taken alone when a CRLF follows: the
    Host header of the second line is missed. *)
Example take_line_bare_LF :
  takeLine (str "A: b" ++ [10] ++ str "Host: h" ++ CRLF) = Some (str "A: b" ++ [10] ++ str "Host: h", []) /\
  ParseHTTPRequestPrefix (str "GET / HTTP/1.1" ++ CRLF ++ str "A: b" ++ [10] ++ str "Host: h" ++ CRLF)
    = Some (str "GET", str "?", str "/").
Proof. by vm_compute. Qed.
