(* ===== verification/Config.v ===== *)
(** The configuration: internal/config/config.go and featuregates.go, and
    internal/cgroup/path_linux.go.  The environment is a function from names to
    values ([os.Getenv], the empty string when unset); the file system's answer
    to [os.Stat] is an argument of [AttachPath]. *)
From S2P Require Import Prelude GoStrings GoPath GoNet Policy BpfMap Allowlist.

Open Scope Z_scope.

Inductive Mode := ModeDetect | ModeDefend.

#[global] Instance Mode_eq_dec : EqDecision Mode.
Proof. solve_decision. Defined.

Definition Mode_string (m : Mode) : bytes := match m with ModeDetect => str "detect" | ModeDefend => str "defend" end.

Record Config := mkConfig {
  cf_Mode : Mode;
  StepSummaryPath : bytes;
  AllowedHosts : bytes;
  AllowedIPs : bytes;
  IgnoredIPNets : bytes;
  NoDefaultIgnoredNets : bool;
  cf_AllowedDomains : list bytes;
  LogLevel : bytes;
  EventsLogPath : bytes;
  TelemetrySummaryPath : bytes;
  AgentStatusPath : bytes;
  FeatureGates : gmap bytes bytes;
  DetectProfile : bytes;
  CgroupAttachPath : bytes;
  SigningKey : bytes;
  RunnerHasIPv6 : bool;
  NoResolverAutoAllow : bool;
}.

Inductive config_err :=
  | ErrInvalidMode (raw : bytes)
  | ErrEmptyAllowlist
  | ErrPolicy (e : policy_err)
  | ErrDetectProfile (pick : bytes)
  | ErrCgroupStat (o : bytes)
  | ErrCgroupNotDir (o : bytes)
  | ErrCgroupAbs (o : bytes).

(** * Feature gates *)

Section Gates.
Context `{UnicodeCase}.

(** One segment [k=v]; [None] is skipped. *)
Definition gateSegment (part : bytes) : option (bytes * bytes) :=
  let part := TrimSpace part in
  if decide (part = []) then None
  else
    let '(k, v, ok) := Cut part 61 in
    let k := TrimSpace k in
    let v := TrimSpace v in
    if negb ok || bool_decide (k = []) || bool_decide (v = []) then None else Some (ToLower k, v).

Definition ParseFeatureGates (raw : bytes) : gmap bytes bytes :=
  let raw := TrimSpace raw in
  if decide (raw = []) then ∅
  else fold_left (fun out part => match gateSegment part with Some (k, v) => <[k := v]> out | None => out end)
         (Split raw 44) ∅.

Definition truthy (v : bytes) : bool := bool_decide (v ∈ [str "1"; str "true"; str "yes"; str "on"]).

Definition FeatureGateEnabled (m : gmap bytes bytes) (key : bytes) : bool :=
  if decide (size m = 0%nat) then false
  else match m !! ToLower (TrimSpace key) with
       | None => false
       | Some v => truthy (ToLower (TrimSpace v))
       end.

Definition enhancedGates : list bytes := [str "proc_tree"; str "tls_sni"; str "fs_events"].

(** A nil map is the empty one. *)
Definition mergeEnhancedFeatureGates (profile : bytes) (gates : gmap bytes bytes) : gmap bytes bytes :=
  if negb (bool_decide (ToLower (TrimSpace profile) = str "enhanced")) then gates
  else fold_left (fun gates key => match gates !! key with Some _ => gates | None => <[key := str "1"]> gates end)
         enhancedGates gates.

(** * Profile *)

Definition ResolveDetectProfile (flagValue envValue : bytes) : result config_err bytes :=
  let pick := TrimSpace flagValue in
  let pick := if decide (pick = []) then TrimSpace envValue else pick in
  let normalized := ToLower pick in
  let normalized := if decide (normalized = []) then str "standard" else normalized in
  if negb (bool_decide (normalized = str "standard")) && negb (bool_decide (normalized = str "enhanced"))
  then Err (ErrDetectProfile pick)
  else Ok normalized.

(** * cgroup.AttachPath

    [stat o] is [Some isDir] when [os.Stat] succeeds; [cwd] is the working
    directory. *)
Definition AttachPath (stat : bytes -> option bool) (cwd : option bytes) (override : bytes) : result config_err bytes :=
  let o := TrimSpace override in
  if decide (o = []) then Ok (str "/sys/fs/cgroup")
  else match stat o with
       | None => Err (ErrCgroupStat o)
       | Some false => Err (ErrCgroupNotDir o)
       | Some true => match Abs cwd o with Some p => Ok p | None => Err (ErrCgroupAbs o) end
       end.

(** * LoadFromEnv *)

Definition parseMode (rawLower : bytes) : option Mode :=
  if decide (rawLower = str "detect") then Some ModeDetect
  else if decide (rawLower = str "defend") then Some ModeDefend
  else None.

Context (getenv : bytes -> bytes) (stat : bytes -> option bool) (cwd : option bytes).

Definition envBoolTrue (key : bytes) : bool :=
  let v := TrimSpace (getenv key) in
  EqualFold v (str "true") || bool_decide (v = str "1") || EqualFold v (str "yes") || EqualFold v (str "on").

Definition defaultUnderWorkspace (rel : bytes) : bytes :=
  let ws := TrimSpace (getenv (str "GITHUB_WORKSPACE")) in
  if decide (ws = []) then rel else Join [ws; rel].

Definition or_default (v d : bytes) : bytes := if decide (v = []) then d else v.

Definition LoadFromEnv : result config_err Config :=
  let raw := TrimSpace (getenv (str "CI_GUARD_MODE")) in
  let rawLower := or_default (ToLower raw) (str "detect") in
  match parseMode rawLower with
  | None => Err (ErrInvalidMode raw)
  | Some mode =>
    let summary := getenv (str "GITHUB_STEP_SUMMARY") in
    let allowedDomains := NormalizeDomainsFromRaw (getenv (str "COLDSTEP_ALLOWED_DOMAINS")) in
    if decide (mode = ModeDefend /\ allowedDomains = []) then Err ErrEmptyAllowlist
    else
      let hosts := getenv (str "COLDSTEP_ALLOWED_HOSTS") in
      let ips := getenv (str "COLDSTEP_ALLOWED_IPS") in
      let ignored := TrimSpace (getenv (str "COLDSTEP_IGNORED_IP_NETS")) in
      let noDefaultIgnored := envBoolTrue (str "COLDSTEP_NO_DEFAULT_IGNORED_NETS") in
      match BuildPolicyEx hosts ips ignored (negb noDefaultIgnored) with
      | Err e => Err (ErrPolicy e)
      | Ok _ =>
        let logLevel := or_default (TrimSpace (getenv (str "COLDSTEP_LOG_LEVEL"))) (str "info") in
        let eventsLog := or_default (TrimSpace (getenv (str "COLDSTEP_EVENTS_LOG")))
                           (defaultUnderWorkspace (str ".coldstep-events.jsonl")) in
        let telemetrySummary := or_default (TrimSpace (getenv (str "COLDSTEP_TELEMETRY_JSON")))
                                  (defaultUnderWorkspace (str ".coldstep-telemetry.json")) in
        let agentStatus := or_default (TrimSpace (getenv (str "COLDSTEP_AGENT_STATUS")))
                             (defaultUnderWorkspace (str ".coldstep-ready.json")) in
        profile ← ResolveDetectProfile [] (getenv (str "COLDSTEP_DETECT_PROFILE"));
        let gates := mergeEnhancedFeatureGates profile (ParseFeatureGates (getenv (str "COLDSTEP_FEATURE_GATES"))) in
        cgPath ← AttachPath stat cwd (getenv (str "COLDSTEP_CGROUP_PATH"));
        Ok (mkConfig mode summary hosts ips ignored noDefaultIgnored allowedDomains logLevel eventsLog telemetrySummary
              agentStatus gates profile cgPath (TrimSpace (getenv (str "COLDSTEP_SIGNING_KEY")))
              (envBoolTrue (str "COLDSTEP_RUNNER_HAS_IPV6")) (envBoolTrue (str "COLDSTEP_NO_RESOLVER_AUTOALLOW")))
      end
  end.
End Gates.

(** * Methods of Config *)

Definition Config_Policy `{UnicodeCase} (c : Config) : result policy_err Policy :=
  BuildPolicyEx (AllowedHosts c) (AllowedIPs c) (IgnoredIPNets c) (negb (NoDefaultIgnoredNets c)).

Definition PublicMode (c : Config) : bytes := Mode_string (cf_Mode c).

Record ModeConfig := mkModeConfig {
  Defend : bool;
  Detect : bool;
  AllowlistEnforced : bool;
  DenyEmitted : bool;
  DeferReadiness : bool;
  ResolverAutoAllow : bool;
}.

Definition Config_ModeConfig (c : Config) : ModeConfig :=
  let defend := bool_decide (cf_Mode c = ModeDefend) in
  mkModeConfig defend (negb defend) defend defend defend (defend && negb (NoResolverAutoAllow c)).

(** * Properties *)

Section Properties.
Context `{UnicodeCase}.

(** The defaults of the enhanced profile fill only absent keys. *)
Lemma mergeEnhanced_lookup profile gates k :
  mergeEnhancedFeatureGates profile gates !! k =
    match gates !! k with
    | Some v => Some v
    | None => if decide (ToLower (TrimSpace profile) = str "enhanced" /\ k ∈ enhancedGates) then Some (str "1") else None
    end.
Proof.
  unfold mergeEnhancedFeatureGates. case_bool_decide as Hp; cbn [negb].
  2: { rewrite decide_False by tauto. by destruct (gates !! k). }
  generalize enhancedGates as ks. intros ks. revert gates. induction ks as [|k0 ks IH]; intros gates; cbn [fold_left].
  - rewrite decide_False; [by destruct (gates !! k)|]. intros [_ Hin]. by apply elem_of_nil in Hin.
  - rewrite IH. clear IH. destruct (gates !! k0) as [v0|] eqn:E0.
    + destruct (gates !! k) eqn:Ek; [done|].
      destruct (decide (_ /\ k ∈ ks)) as [[? ?]|Hn]; [by rewrite decide_True by (split; [done|by right])|].
      rewrite decide_False; [done|]. intros [_ [->|Hin]%elem_of_cons]; [congruence|tauto].
    + destruct (decide (k = k0)) as [->|Hne].
      * rewrite lookup_insert_eq, E0. by rewrite decide_True by (split; [done|by left]).
      * rewrite lookup_insert_ne by done. destruct (gates !! k); [done|]. apply decide_ext. rewrite elem_of_cons. tauto.
Qed.

Lemma profile_ok flag env p : ResolveDetectProfile flag env = Ok p -> p = str "standard" \/ p = str "enhanced".
Proof.
  unfold ResolveDetectProfile. do 2 case_bool_decide; cbn [negb andb]; intros [= <-]; auto.
Qed.

Lemma attach_abs stat cwd o p : (forall wd, cwd = Some wd -> IsAbs wd = true) ->
  AttachPath stat cwd o = Ok p -> IsAbs p = true.
Proof.
  intros Hwd. unfold AttachPath. destruct (decide _) as [|Hne]; [by intros [= <-]|]. destruct (stat _) as [[]|]; [|done..].
  destruct (Abs cwd (TrimSpace o)) eqn:E; [|done]. intros [= <-]. by eapply IsAbs_Abs.
Qed.

Lemma or_default_ne v d : d <> [] -> or_default v d <> [].
Proof. unfold or_default. by destruct (decide _). Qed.

(** What a loaded configuration guarantees.  Defend mode has domains to
    allow; the policy of the configuration builds, so later calls of
    [Policy()] cannot fail; the profile is one of the two; feature gates are
    exactly the user's, extended by the enhanced profile's defaults where the
    user set none; the cgroup path is absolute. *)
Theorem config_load_sound getenv stat cwd c :
  (forall wd, cwd = Some wd -> IsAbs wd = true) ->
  LoadFromEnv getenv stat cwd = Ok c ->
  (cf_Mode c = ModeDefend -> cf_AllowedDomains c <> []) /\
  (exists p, Config_Policy c = Ok p) /\
  (DetectProfile c = str "standard" \/ DetectProfile c = str "enhanced") /\
  (forall k, FeatureGates c !! k =
    match ParseFeatureGates (getenv (str "COLDSTEP_FEATURE_GATES")) !! k with
    | Some v => Some v
    | None => if decide (DetectProfile c = str "enhanced" /\ k ∈ enhancedGates) then Some (str "1") else None
    end) /\
  IsAbs (CgroupAttachPath c) = true.
Proof.
  intros Hwd. unfold LoadFromEnv. destruct (parseMode _) as [mode|] eqn:Em; [|done].
  destruct (decide (mode = ModeDefend /\ _)) as [|Hdom]; [done|].
  destruct (BuildPolicyEx _ _ _ _) as [p|e] eqn:Ep; [|done].
  destruct (ResolveDetectProfile _ _) as [prof|] eqn:Er; [|done]. cbn [mbind result_bind].
  destruct (AttachPath _ _ _) as [cg|] eqn:Ec; [|done]. cbn [mbind result_bind]. intros [= <-].
  cbn [cf_Mode cf_AllowedDomains DetectProfile FeatureGates CgroupAttachPath].
  pose proof (profile_ok _ _ _ Er) as Hprof. split_and!.
  - intros ->. tauto.
  - by exists p.
  - done.
  - intros k. rewrite mergeEnhanced_lookup. destruct (_ !! k); [done|]. apply decide_ext.
    by destruct Hprof as [-> | ->].
  - by eapply attach_abs.
Qed.
End Properties.

Module Witness.
#[local] Existing Instance ascii_case.

Definition env (k : bytes) : bytes :=
  if decide (k = str "CI_GUARD_MODE") then str " Defend "
  else if decide (k = str "COLDSTEP_ALLOWED_DOMAINS") then str "github.com"
  else if decide (k = str "COLDSTEP_DETECT_PROFILE") then str "Enhanced"
  else if decide (k = str "COLDSTEP_FEATURE_GATES") then str "TLS_SNI=0, x=, proc_tree = on"
  else if decide (k = str "GITHUB_WORKSPACE") then str "/w/"
  else [].

Definition conf : Config :=
  match LoadFromEnv env (fun _ => None) (Some (str "/")) with
  | Ok c => c
  | Err _ => mkConfig ModeDetect [] [] [] [] false [] [] [] [] [] ∅ [] [] [] false false
  end.

Example conf_events : EventsLogPath conf = str "/w/.coldstep-events.jsonl".
Proof. vm_compute. reflexivity. Qed.

Lemma config_load_sound_witness : FeatureGates conf !! str "tls_sni" = Some (str "0") /\ FeatureGates conf !! str "fs_events" = Some (str "1").
Proof.
  destruct (config_load_sound env (fun _ => None) (Some (str "/")) conf) as (_ & _ & _ & Hg & _).
  - by intros wd [= <-].
  - vm_compute. reflexivity.
  - split; rewrite Hg; vm_compute; reflexivity.
Defined.
End Witness.
