(* ===== verification/Defend.v ===== *)
(** Defend mode at run time: internal/agent/agent_linux_state_defend.go (the
    counters and the cross-layer deduplication), the retry backoff and the
    canary of agent_linux_state_sections.go, and, of agent_linux_policy_maps.go,
    [compileDefendAllowlist], [autoAllowSystemResolvers], the per-CPU counters,
    [appendDenyFromRaw] and [readDenyRing].

    Time is in nanoseconds.  Mutexes are not modelled: each method holds its
    lock for its whole body, so a method is one step. *)
From S2P Require Import Prelude GoStrings GoNet Policy BpfMap Allowlist DnsCache Decode DefendMaps Telemetry Config.

Open Scope Z_scope.

(** * Backends *)

Inductive backend := BackendDetect | BackendLSM | BackendCgroup.

#[global] Instance backend_eq_dec : EqDecision backend.
Proof. solve_decision. Defined.

Definition backend_string (b : backend) : bytes :=
  match b with BackendDetect => str "detect" | BackendLSM => str "lsm" | BackendCgroup => str "cgroup" end.

Record defendBackendConfig := mkBackendConfig { modeDefend : bool; haveLSM : bool }.

(** [attachFailed]: [lsmAttachErr] is not nil. *)
Definition chooseDefendBackend (cfg : defendBackendConfig) (attachFailed : bool) : backend :=
  if negb (modeDefend cfg) then BackendDetect
  else if haveLSM cfg && negb attachFailed then BackendLSM
  else BackendCgroup.

Definition defendModeLSM : bytes := str "defend+lsm".
Definition defendModeCgroup : bytes := str "defend+cgroup".

Definition defendModeForBackend (b : backend) : bytes :=
  if decide (b = BackendLSM) then defendModeLSM else defendModeCgroup.

(** * The state *)

Definition denyDedupWindow : Z := 1000000000.
Definition denyDedupMaxEntries : Z := 4096.

(** tgid, tid, destination, port, protocol. *)
Abbreviation denyDedupKey := (Z * Z * bytes * Z * bytes)%type.

Record denyDedupEntry := mkDedup { dd_family : bytes; dd_nano : Z }.

Record defendState := mkDefendState {
  ds_mode : bytes;
  allowlistSize : Z;
  allowlistIPv6Size : Z;
  denyCountN : Z;
  denyCorroboratedN : Z;
  denyReserveFailuresN : Z;
  mapIntegrityFailures : Z;
  expectedEntries : Z;
  expectedIgnoredEntries : Z;
  denyDedup : gmap denyDedupKey denyDedupEntry;
}.

Definition newDefendState : defendState := mkDefendState [] 0 0 0 0 0 0 0 0 ∅.

Definition setModeAndAllowlist (s : defendState) (mode : bytes) (allowlist ignoredSize : Z) : defendState :=
  mkDefendState mode allowlist (allowlistIPv6Size s) (denyCountN s) (denyCorroboratedN s) (denyReserveFailuresN s)
    (mapIntegrityFailures s) allowlist ignoredSize (denyDedup s).

Definition downgradeMode (s : defendState) (mode : bytes) : defendState :=
  mkDefendState mode (allowlistSize s) (allowlistIPv6Size s) (denyCountN s) (denyCorroboratedN s) (denyReserveFailuresN s)
    (mapIntegrityFailures s) (expectedEntries s) (expectedIgnoredEntries s) (denyDedup s).

Definition setIPv6AllowlistSize (s : defendState) (n : Z) : defendState :=
  mkDefendState (ds_mode s) (allowlistSize s) n (denyCountN s) (denyCorroboratedN s) (denyReserveFailuresN s)
    (mapIntegrityFailures s) (expectedEntries s) (expectedIgnoredEntries s) (denyDedup s).

Definition addMapIntegrityFailure (s : defendState) : defendState :=
  mkDefendState (ds_mode s) (allowlistSize s) (allowlistIPv6Size s) (denyCountN s) (denyCorroboratedN s) (denyReserveFailuresN s)
    (mapIntegrityFailures s + 1) (expectedEntries s) (expectedIgnoredEntries s) (denyDedup s).

Definition setDenyReserveFailures (s : defendState) (n : Z) : defendState :=
  mkDefendState (ds_mode s) (allowlistSize s) (allowlistIPv6Size s) (denyCountN s) (denyCorroboratedN s) n
    (mapIntegrityFailures s) (expectedEntries s) (expectedIgnoredEntries s) (denyDedup s).

Definition with_deny (s : defendState) (count corroborated : Z) (dedup : gmap denyDedupKey denyDedupEntry) : defendState :=
  mkDefendState (ds_mode s) (allowlistSize s) (allowlistIPv6Size s) count corroborated (denyReserveFailuresN s)
    (mapIntegrityFailures s) (expectedEntries s) (expectedIgnoredEntries s) dedup.

Definition noteDeny (s : defendState) : defendState :=
  with_deny s (denyCountN s + 1) (denyCorroboratedN s) (denyDedup s).

(** [pruneDenyDedupLocked]: the loop deletes the stale entries. *)
Definition pruneDenyDedup (dedup : gmap denyDedupKey denyDedupEntry) (nowNano : Z) : gmap denyDedupKey denyDedupEntry :=
  filter (fun ke => ~ (denyDedupWindow < nowNano - dd_nano ke.2)) dedup.

(** A nil receiver is [None]. *)
Definition shouldEmitDeny (s : option defendState) (key : denyDedupKey) (family : bytes) (nowNano : Z) : option defendState * bool :=
  match s with
  | None => (None, true)
  | Some s =>
    let twin := match denyDedup s !! key with
                | Some prev =>
                  if (dd_nano prev <=? nowNano) && (nowNano - dd_nano prev <=? denyDedupWindow) &&
                     negb (bool_decide (dd_family prev = [])) && negb (bool_decide (family = [])) &&
                     negb (bool_decide (dd_family prev = family))
                  then Some prev else None
                | None => None
                end in
    match twin with
    | Some prev => (Some (with_deny s (denyCountN s) (denyCorroboratedN s + 1)
                            (<[key := mkDedup (dd_family prev) nowNano]> (denyDedup s))), false)
    | None =>
      let dedup := <[key := mkDedup family nowNano]> (denyDedup s) in
      let dedup := if denyDedupMaxEntries <? Z.of_nat (size dedup) then pruneDenyDedup dedup nowNano else dedup in
      (Some (with_deny s (denyCountN s) (denyCorroboratedN s) dedup), true)
    end
  end.

Record defendSnapshot := mkDefendSnapshot {
  sn_mode : bytes; sn_allowlistSize : Z; sn_allowlistIPv6Size : Z; sn_denyCount : Z;
  sn_denyCorroborated : Z; sn_denyReserveFailures : Z; sn_mapIntegrityFailures : Z }.

Definition snapshot (s : defendState) : defendSnapshot :=
  mkDefendSnapshot (ds_mode s) (allowlistSize s) (allowlistIPv6Size s) (denyCountN s) (denyCorroboratedN s)
    (denyReserveFailuresN s) (mapIntegrityFailures s).

(** * Backoff *)

Definition ringReadRetryBaseDelay : Z := 5 * 1000000.
Definition ringReadRetryMaxDelay : Z := 200 * 1000000.

(** [nextDelay]: the new [current] is the delay returned. *)
Definition nextDelay (current : Z) : Z :=
  if current <=? 0 then ringReadRetryBaseDelay
  else
    let next := current * 2 in
    if ringReadRetryMaxDelay <? next then ringReadRetryMaxDelay else next.

(** [sleep]: the new [current], and what [sleepFn] is called with. *)
Definition backoff_sleep (current : Z) : Z * option Z :=
  let delay := nextDelay current in
  (delay, if delay <=? 0 then None else Some delay).

(** * Canary *)

Definition canaryTimeout : Z := 30 * 1000000000.

Record canaryState := mkCanary { lastSent : Z; lastSentAt : Z; lastReceived : Z; lastRecvAt : Z; failCount : Z }.

Definition newCanaryState : canaryState := mkCanary 0 0 0 0 0.
Definition noteSent (c : canaryState) (seq now : Z) : canaryState := mkCanary seq now (lastReceived c) (lastRecvAt c) (failCount c).
Definition noteReceived (c : canaryState) (seq now : Z) : canaryState := mkCanary (lastSent c) (lastSentAt c) seq now (failCount c).

(** The condition shared by [snapshot] (negated, as [pipelineOK]) and
    [checkAndRecordFailure]. *)
Definition canary_overdue (c : canaryState) (now : Z) : bool :=
  (0 <? lastSent c) && (lastReceived c <? lastSent c) && (canaryTimeout <? now - lastSentAt c).

Definition checkAndRecordFailure (c : canaryState) (now : Z) : canaryState * bool :=
  if canary_overdue c now
  then (mkCanary (lastSent c) (lastSentAt c) (lastReceived c) (lastRecvAt c) (failCount c + 1), true)
  else (c, false).

(** * Per-CPU counters *)

Section PerCPU.
Context {M : Type} `{!BpfMapOps Z (list Z) M}.

Definition readUint32PerCPUKeySum (m : option M) (key : Z) : Z :=
  match m with
  | None => 0
  | Some m => match bm_lookup m key with
              | Err _ => 0
              | Ok vals => fold_left Z.add vals 0
              end
  end.

Definition readUint32PerCPUArraySum (m : option M) : Z := readUint32PerCPUKeySum m 0.

Definition readPartialEgressCounts (m : option M) : Z * Z * Z :=
  (readUint32PerCPUKeySum m 0, readUint32PerCPUKeySum m 1, readUint32PerCPUKeySum m 2).
End PerCPU.

Definition MaxUint32 : Z := 2 ^ 32 - 1.

Definition clampPerCPUSumToUint32 (n : Z) : Z :=
  if n <=? 0 then 0 else if MaxUint32 <? n then MaxUint32 else n.

(** * The allowlist at startup *)

Inductive compile_err :=
  | ErrNoDomains
  | ErrNoNormalized
  | ErrCompilePolicy (e : policy_err)
  | ErrNothingAllowed (unresolved : list bytes).

Definition emptyCompile : CompileResult := mkCompileResult [] ∅ ∅ [] [].

Section Startup.
Context `{UnicodeCase} `{Resolver}.

Definition compileDefendAllowlist (cfg : Config) (maxAttempts : Z) : result compile_err CompileResult :=
  if negb (Defend (Config_ModeConfig cfg)) then Ok emptyCompile
  else if decide (cf_AllowedDomains cfg = []) then Err ErrNoDomains
  else
    let compiled := CompileDomainAllowlist (cf_AllowedDomains cfg) maxAttempts in
    if decide (Domains compiled = []) then Err ErrNoNormalized
    else match Config_Policy cfg with
         | Err e => Err (ErrCompilePolicy e)
         | Ok pol =>
           let v4 := MergeLiteralAllowedIPv4Into (Some pol) (AllowedIPv4 compiled) in
           let v6 := MergeLiteralAllowedIPv6Into (Some pol) (AllowedIPv6 compiled) in
           if decide (v4 = ∅ /\ v6 = ∅ /\ AllowedIPv4Nets (Some pol) = [] /\ AllowedIPv6Nets (Some pol) = [])
           then Err (ErrNothingAllowed (UnresolvedDomains compiled))
           else Ok (mkCompileResult (Domains compiled) v4 v6 (UnresolvedDomains compiled) (WildcardRiskDomains compiled))
         end.
End Startup.

(** [open] reads a resolver configuration, as in [SystemResolverIPs]; the
    addresses added are returned with the result. *)
Definition autoAllowSystemResolvers (compiled : CompileResult) (open : bytes -> option bytes) (paths : list bytes)
    : CompileResult * (list bytes * list bytes) :=
  let '(v4, v6) := SystemResolverIPs open paths in
  (mkCompileResult (Domains compiled) (foldl IPv4Set_Add (AllowedIPv4 compiled) v4)
     (foldl IPv6Set_Add (AllowedIPv6 compiled) v6) (UnresolvedDomains compiled) (WildcardRiskDomains compiled), (v4, v6)).

(** * Deny events *)

Record DenyEvent := mkDeny {
  dn_TS : Z;
  dn_Seq : Z;
  dn_PID : Z;
  dn_TGID : Z;
  dn_ThreadID : Z;
  dn_Comm : bytes;
  dn_Protocol : bytes;
  dn_Dst : bytes;
  dn_Dport : Z;
  dn_Reason : bytes;
  dn_Mode : bytes;
  dn_HookFamily : bytes;
  dn_MatchKind : bytes;
}.

Inductive deny_err := ErrDecode | ErrFamily (af : Z) | ErrJSONL.

(** What the deny pipeline shares: the counters ([None] for a nil state), the
    sequence generator and the lines of the event log. *)
Record pipeline := mkPipeline { pl_state : option defendState; pl_seq : Z; pl_log : list DenyEvent }.

(** [SeqGen.Next] on a uint64. *)
Definition seq_next (next : Z) : Z := (next + 1) mod 2 ^ 64.

(** [bytes.TrimRight(b, "\x00")]. *)
Definition trim_nul (b : bytes) : bytes := rev (drop_while (Z.eqb 0) (rev b)).

Definition v4_mapped (a : bytes) : bytes := v4InV6Prefix ++ a.

Section Deny.
Context {M : Type} `{UnicodeCase} `{!BpfMapOps bytes bytes M}.
Context (cfg : Config) (hookFamily : bytes) (dns : option (DNSCache M)).

(** The event of a decoded record, without its sequence number, and its
    deduplication key. *)
Definition denyOf (d : denyEvent) (dstIP : bytes) (comm : bytes) (now : Z) : DenyEvent :=
  let matched := match dns with
                 | Some c => negb (bool_decide (Lookup c now dstIP = []))
                 | None => false
                 end in
  mkDeny now 0 (dn_tgid d) (dn_tgid d) (dn_tid d) comm (denyProtocolLabel (dn_protocol d)) (IP_String dstIP)
    (dn_dport d) (denyReasonLabel (dn_reason d)) (PublicMode cfg) hookFamily
    (if matched then str "dns_cache" else str "unknown").

Definition dedupKey (e : DenyEvent) : denyDedupKey := (dn_TGID e, dn_ThreadID e, dn_Dst e, dn_Dport e, dn_Protocol e).

Definition dstOf (d : denyEvent) : option bytes :=
  if dn_af d =? linuxAFInet then Some (v4_mapped (take 4 (dn_daddr16 d)))
  else if dn_af d =? linuxAFInet6 then Some (copy_array 16 (dn_daddr16 d))
  else None.

Definition with_seq (e : DenyEvent) (seq : Z) : DenyEvent :=
  mkDeny (dn_TS e) seq (dn_PID e) (dn_TGID e) (dn_ThreadID e) (dn_Comm e) (dn_Protocol e) (dn_Dst e) (dn_Dport e)
    (dn_Reason e) (dn_Mode e) (dn_HookFamily e) (dn_MatchKind e).

(** [now] is [time.Now()]; [written]: [AppendJSONL] returned nil. *)
Definition appendDenyFromRaw (pl : pipeline) (raw : bytes) (now : Z) (written : bool)
    : go (pipeline * result deny_err DenyEvent) :=
  decoded ← decodeDenyEvent raw;
  match decoded with
  | None => Ret (pl, Err ErrDecode)
  | Some d =>
    match dstOf d with
    | None => Ret (pl, Err (ErrFamily (dn_af d)))
    | Some dstIP =>
      comm ← SanitizeField (trim_nul (dn_comm d)) 16;
      let deny := denyOf d dstIP comm now in
      let '(state, emit) := shouldEmitDeny (pl_state pl) (dedupKey deny) hookFamily now in
      if negb emit then Ret (mkPipeline state (pl_seq pl) (pl_log pl), Ok deny)
      else if decide (EventsLogPath cfg = [])
      then Ret (mkPipeline (option_map noteDeny state) (pl_seq pl) (pl_log pl), Ok deny)
      else
        let seq := seq_next (pl_seq pl) in
        let deny := with_seq deny seq in
        if written then Ret (mkPipeline (option_map noteDeny state) seq (pl_log pl ++ [deny]), Ok deny)
        else Ret (mkPipeline state seq (pl_log pl), Err ErrJSONL)
    end
  end.

(** [processDenyRingSample]: the error is only logged. *)
Definition processDenyRingSample (pl : pipeline) (raw : bytes) (now : Z) (written : bool) : go pipeline :=
  r ← appendDenyFromRaw pl raw now written; Ret r.1.

(** ** The reader *)

Definition defendDenyDrainMaxEvents : Z := 32.
Definition defendDenyDrainDuration : Z := 1200 * 1000000.

(** A record with the clock and the outcome of its write, and the clock after
    it; or an error of [rd.Read] and whether the context is done. *)
Inductive ring_err := RingClosed | RingDeadline | RingOther.
Inductive readOutcome :=
  | RRecord (raw : bytes) (now : Z) (written : bool) (after : Z)
  | RError (e : ring_err) (ctxDone : bool).

(** The loops' locals: the backoffs, what was slept, and in the drain loop
    its count and deadline. *)
Record reader := mkReader {
  rd_pl : pipeline;
  rd_backoff : Z;
  rd_drainBackoff : Z;
  rd_slept : list Z;
  rd_drain : option (Z * Z);
}.

Inductive reader_exit := Blocked | ReturnedNil | ReturnedCtx.

Definition slept (d : option Z) : list Z := match d with Some d => [d] | None => [] end.

(** The condition of the drain loop, at clock [t]; when it fails the outer
    loop reads next. *)
Definition drain_phase (drain : option (Z * Z)) (t : Z) : option (Z * Z) :=
  match drain with
  | Some (n, until) => if (n <? defendDenyDrainMaxEvents) && (t <? until) then drain else None
  | None => None
  end.

(** One read: the new locals, or the exit. *)
Definition readStep (r : reader) (t : Z) (o : readOutcome) : go (reader * option reader_exit) :=
  let drain := drain_phase (rd_drain r) t in
  match drain, o with
  | None, RError RingClosed _ => Ret (r, Some ReturnedNil)
  | None, RError _ true => Ret (r, Some ReturnedCtx)
  | None, RError _ false =>
    let '(b, d) := backoff_sleep (rd_backoff r) in
    Ret (mkReader (rd_pl r) b (rd_drainBackoff r) (rd_slept r ++ slept d) None, None)
  | None, RRecord raw now written after =>
    x ← appendDenyFromRaw (rd_pl r) raw now written;
    Ret (mkReader x.1 0 (rd_drainBackoff r) (rd_slept r)
           (match x.2 with Ok _ => Some (1, after + defendDenyDrainDuration) | Err _ => None end), None)
  | Some _, RError RingClosed _ => Ret (mkReader (rd_pl r) (rd_backoff r) (rd_drainBackoff r) (rd_slept r) None, None)
  | Some _, RError RingDeadline _ => Ret (mkReader (rd_pl r) (rd_backoff r) (rd_drainBackoff r) (rd_slept r) drain, None)
  | Some _, RError RingOther true => Ret (r, Some ReturnedCtx)
  | Some _, RError RingOther false =>
    let '(b, d) := backoff_sleep (rd_drainBackoff r) in
    Ret (mkReader (rd_pl r) (rd_backoff r) b (rd_slept r ++ slept d) drain, None)
  | Some (n, until), RRecord raw now written _ =>
    x ← appendDenyFromRaw (rd_pl r) raw now written;
    Ret (mkReader x.1 (rd_backoff r) 0 (rd_slept r)
           (Some (match x.2 with Ok _ => n + 1 | Err _ => n end, until)), None)
  end.

(** The reader over what the ring delivers: each read with the clock at the
    loop test before it.  [Blocked] waits for more. *)
Fixpoint readLoop (r : reader) (reads : list (Z * readOutcome)) : go (reader * reader_exit) :=
  match reads with
  | [] => Ret (r, Blocked)
  | (t, o) :: reads' =>
    x ← readStep r t o;
    match x.2 with
    | Some e => Ret (x.1, e)
    | None => readLoop x.1 reads'
    end
  end.

Definition readDenyRing (pl : pipeline) (reads : list (Z * readOutcome)) : go (reader * reader_exit) :=
  readLoop (mkReader pl 0 0 [] None) reads.
End Deny.

(** * Properties: deduplication *)

(** A report reaching [shouldEmitDeny], and a run over reports: each with
    whether it was emitted. *)
Record report := mkReport { rp_key : denyDedupKey; rp_family : bytes; rp_now : Z }.

Definition report_step (acc : list (report * bool) * option defendState) (r : report) : list (report * bool) * option defendState :=
  let '(s, b) := shouldEmitDeny acc.2 (rp_key r) (rp_family r) (rp_now r) in (acc.1 ++ [(r, b)], s).

Definition run_reports (rs : list report) : list (report * bool) * option defendState :=
  foldl report_step ([], Some newDefendState) rs.

Definition suppressed (hist : list (report * bool)) : Z := len (filter (fun x => x.2 = false) hist).

(** What the map remembers of the history. *)
Record dedup_inv (hist : list (report * bool)) (s : defendState) : Prop := {
  di_count : denyCorroboratedN s = suppressed hist;
  di_emitter : forall key e, denyDedup s !! key = Some e ->
    exists r, (r, true) ∈ hist /\ rp_key r = key /\ rp_family r = dd_family e;
  di_recent : forall key e, denyDedup s !! key = Some e ->
    exists r b, (r, b) ∈ hist /\ rp_key r = key /\ rp_now r = dd_nano e;
  di_last : forall pre r post, hist = pre ++ (r, true) :: post -> (forall x, x ∈ post -> rp_key x.1 <> rp_key r) ->
    denyDedup s !! rp_key r = Some (mkDedup (rp_family r) (rp_now r)) \/
    exists x, x ∈ post /\ denyDedupWindow < rp_now x.1 - rp_now r;
}.

(** [shouldEmitDeny] in two cases: a twin of the entry, or not. *)
Definition is_twin (s : defendState) (r : report) (prev : denyDedupEntry) : Prop :=
  denyDedup s !! rp_key r = Some prev /\ 0 <= rp_now r - dd_nano prev <= denyDedupWindow /\
  dd_family prev <> [] /\ rp_family r <> [] /\ dd_family prev <> rp_family r.

Lemma shouldEmit_cases s r :
  (exists prev, is_twin s r prev /\
    shouldEmitDeny (Some s) (rp_key r) (rp_family r) (rp_now r) =
      (Some (with_deny s (denyCountN s) (denyCorroboratedN s + 1)
         (<[rp_key r := mkDedup (dd_family prev) (rp_now r)]> (denyDedup s))), false)) \/
  ((forall prev, ~ is_twin s r prev) /\ exists dedup,
    shouldEmitDeny (Some s) (rp_key r) (rp_family r) (rp_now r) =
      (Some (with_deny s (denyCountN s) (denyCorroboratedN s) dedup), true) /\
    forall k e, dedup !! k = Some e <->
      (<[rp_key r := mkDedup (rp_family r) (rp_now r)]> (denyDedup s)) !! k = Some e /\
      (denyDedupMaxEntries < Z.of_nat (size (<[rp_key r := mkDedup (rp_family r) (rp_now r)]> (denyDedup s))) ->
       rp_now r - dd_nano e <= denyDedupWindow)).
Proof.
  unfold shouldEmitDeny, is_twin. set (ins := <[rp_key r := mkDedup (rp_family r) (rp_now r)]> (denyDedup s)).
  set (dedup' := if denyDedupMaxEntries <? _ then _ else _).
  assert (forall k e, dedup' !! k = Some e <-> ins !! k = Some e /\
    (denyDedupMaxEntries < Z.of_nat (size ins) -> rp_now r - dd_nano e <= denyDedupWindow)) as Hd.
  { intros k e. unfold dedup'. destruct (Z.ltb_spec denyDedupMaxEntries (Z.of_nat (size ins))) as [Hs|Hs].
    - unfold pruneDenyDedup. rewrite map_lookup_filter_Some. cbn [snd]. split.
      + intros [? ?]. split; [done|]. lia.
      + intros [? Hle]. split; [done|]. specialize (Hle Hs). lia.
    - split; [intros ?; split; [done|lia]|by intros [? _]]. }
  destruct (denyDedup s !! rp_key r) as [prev|] eqn:E.
  2: { right. split; [by intros prev [? _]|]. by exists dedup'. }
  destruct (_ && _) eqn:Eb.
  - left. exists prev. split; [|done]. z_bool. repeat match goal with H : _ /\ _ |- _ => destruct H end.
    rewrite !bool_decide_eq_false in *. split_and!; done || lia.
  - right. split; [|by exists dedup']. intros prev' ([= <-] & Hn & H1 & H2 & H3).
    rewrite !bool_decide_eq_false_2 in Eb by done. cbn [negb] in Eb. rewrite !andb_true_r in Eb. lia.
Qed.

Lemma suppressed_snoc hist r b : suppressed (hist ++ [(r, b)]) = suppressed hist + (if b then 0 else 1).
Proof. unfold suppressed. rewrite filter_app, len_app. destruct b; done. Qed.

Lemma dedup_inv_step hist s r : dedup_inv hist s ->
  exists s' b, report_step (hist, Some s) r = (hist ++ [(r, b)], Some s') /\ dedup_inv (hist ++ [(r, b)]) s' /\
    (b = false <-> exists prev, is_twin s r prev).
Proof.
  intros [Hc He Hr Hl]. unfold report_step. cbn [fst snd].
  destruct (shouldEmit_cases s r) as [(prev & Ht & ->)|(Hn & dedup & -> & Hd)]; eexists _, _; (split; [reflexivity|]); split.
  - split; cbn [denyCorroboratedN denyDedup with_deny].
    + rewrite suppressed_snoc. lia.
    + intros key e [[<- <-]|[Hne He']]%lookup_insert_Some; cbn [dd_family].
      * destruct (He _ _ (proj1 Ht)) as (r0 & Hin & Hk & Hf). exists r0. rewrite elem_of_app. tauto.
      * destruct (He _ _ He') as (r0 & Hin & Hk & Hf). exists r0. rewrite elem_of_app. tauto.
    + intros key e [[<- <-]|[Hne He']]%lookup_insert_Some; cbn [dd_nano].
      * exists r, false. rewrite elem_of_app, list_elem_of_singleton. tauto.
      * destruct (Hr _ _ He') as (r0 & b & Hin & Hk & Hf). exists r0, b. rewrite elem_of_app. tauto.
    + intros pre r0 post E Hpost. destruct post as [|x post _] using rev_ind.
      * apply app_inj_tail in E as [_ [=]].
      * rewrite app_comm_cons, app_assoc in E. apply app_inj_tail in E as [E <-].
        assert (rp_key r <> rp_key r0) as Hne by (apply (Hpost (r, false)); rewrite elem_of_app, list_elem_of_singleton; tauto).
        rewrite lookup_insert_ne by done. destruct (Hl pre r0 post E) as [?|(x & Hx & ?)]; [|by left|].
        { intros x Hx. apply Hpost. rewrite elem_of_app. tauto. }
        right. exists x. rewrite elem_of_app. tauto.
  - split; [eauto|done].
  - split; cbn [denyCorroboratedN denyDedup with_deny].
    + rewrite suppressed_snoc. lia.
    + intros key e [[[<- <-]|[Hne He']]%lookup_insert_Some _]%Hd; cbn [dd_family].
      * exists r. rewrite elem_of_app, list_elem_of_singleton. tauto.
      * destruct (He _ _ He') as (r0 & Hin & Hk & Hf). exists r0. rewrite elem_of_app. tauto.
    + intros key e [[[<- <-]|[Hne He']]%lookup_insert_Some _]%Hd; cbn [dd_nano].
      * exists r, true. rewrite elem_of_app, list_elem_of_singleton. tauto.
      * destruct (Hr _ _ He') as (r0 & b & Hin & Hk & Hf). exists r0, b. rewrite elem_of_app. tauto.
    + intros pre r0 post E Hpost. destruct post as [|x post _] using rev_ind.
      * apply app_inj_tail in E as [_ [= <-]]. left. apply Hd. rewrite lookup_insert_eq. split; [done|]. cbn [dd_nano].
        intros _. unfold denyDedupWindow. lia.
      * rewrite app_comm_cons, app_assoc in E. apply app_inj_tail in E as [E <-].
        assert (rp_key r <> rp_key r0) as Hne by (apply (Hpost (r, true)); rewrite elem_of_app, list_elem_of_singleton; tauto).
        destruct (Hl pre r0 post E) as [Hk|(x & Hx & ?)].
        { intros x Hx. apply Hpost. rewrite elem_of_app. tauto. }
        -- destruct (decide (denyDedupWindow < rp_now r - rp_now r0)) as [Hold|Hnew].
           ++ right. exists (r, true). rewrite elem_of_app, list_elem_of_singleton. tauto.
           ++ left. apply Hd. rewrite lookup_insert_ne by done. split; [done|]. cbn [dd_nano]. lia.
        -- right. exists x. rewrite elem_of_app. tauto.
  - split; [done|]. intros [prev Ht]. by destruct (Hn prev).
Qed.

Lemma run_reports_inv rs : exists hist s, run_reports rs = (hist, Some s) /\ hist.*1 = rs /\ dedup_inv hist s /\
  forall pre r b post, hist = pre ++ (r, b) :: post ->
    exists s0, dedup_inv pre s0 /\ (b = false <-> exists prev, is_twin s0 r prev).
Proof.
  induction rs as [|r rs (hist & s & E & Hf & Hi & Hp)] using rev_ind.
  - exists [], newDefendState. split_and!; [done|done| |by intros [] ? ? ?].
    split; cbn [denyCorroboratedN denyDedup newDefendState]; [done| | |].
    + intros key e Hx. by rewrite lookup_empty in Hx.
    + intros key e Hx. by rewrite lookup_empty in Hx.
    + by intros [] ? ?.
  - destruct (dedup_inv_step hist s r Hi) as (s' & b & Es & Hi' & Hb). exists (hist ++ [(r, b)]), s'. split_and!; [|by rewrite fmap_app, Hf|done|].
    + unfold run_reports in *. by rewrite foldl_app, E.
    + intros pre r0 b0 post Eh. destruct post as [|x post _] using rev_ind.
      * apply app_inj_tail in Eh as [<- [= <- <-]]. eauto.
      * rewrite app_comm_cons, app_assoc in Eh. apply app_inj_tail in Eh as [Eh _]. by eapply Hp.
Qed.

(** Deduplication hides no traffic.  Over any run of deny reports, under any
    clock: the corroboration counter is the number of suppressed reports; a
    report is suppressed only when a report with the same process, destination
    and protocol but another hook family was emitted before it, and one with
    that key was seen within the window; and the twin of an emitted report that
    arrives within the window is suppressed, unless the clock ran backwards in
    between. *)
Theorem deny_dedup_sound rs : exists hist s, run_reports rs = (hist, Some s) /\ hist.*1 = rs /\
  denyCorroboratedN s = suppressed hist /\
  (forall pre r post, hist = pre ++ (r, false) :: post ->
    (exists r1, (r1, true) ∈ pre /\ rp_key r1 = rp_key r /\ rp_family r1 <> [] /\ rp_family r <> [] /\ rp_family r1 <> rp_family r) /\
    (exists r2 b, (r2, b) ∈ pre /\ rp_key r2 = rp_key r /\ 0 <= rp_now r - rp_now r2 <= denyDedupWindow)) /\
  (forall pre r0 mid r b post, hist = (pre ++ (r0, true) :: mid) ++ (r, b) :: post ->
    rp_key r = rp_key r0 -> (forall x, x ∈ mid -> rp_key x.1 <> rp_key r0 /\ rp_now x.1 <= rp_now r) ->
    rp_family r0 <> [] -> rp_family r <> [] -> rp_family r0 <> rp_family r ->
    0 <= rp_now r - rp_now r0 <= denyDedupWindow -> b = false).
Proof.
  destruct (run_reports_inv rs) as (hist & s & E & Hf & Hi & Hp). exists hist, s. split_and!; [done|done|apply Hi|..].
  - intros pre r post Eh. destruct (Hp _ _ _ _ Eh) as (s0 & [_ He Hr _] & Hb).
    destruct (proj1 Hb eq_refl) as (prev & Hk & Hn & H1 & H2 & H3). split.
    + destruct (He _ _ Hk) as (r1 & Hin & Hk1 & Hf1). exists r1. rewrite Hf1. done.
    + destruct (Hr _ _ Hk) as (r2 & b & Hin & Hk2 & Hn2). exists r2, b. rewrite Hn2. done.
  - intros pre r0 mid r b post Eh Hk Hmid H1 H2 H3 Hn. destruct (Hp _ _ _ _ Eh) as (s0 & [_ _ _ Hl] & Hb). apply Hb.
    exists (mkDedup (rp_family r0) (rp_now r0)). unfold is_twin. cbn [dd_family dd_nano].
    destruct (Hl pre r0 mid eq_refl) as [Hd|(x & Hx & Hw)]; [intros x Hx; by apply Hmid|by rewrite Hk|].
    apply Hmid in Hx. lia.
Qed.

(** * Properties: the deny log *)

Lemma wf_trim_nul b : wf_bytes b -> wf_bytes (trim_nul b).
Proof.
  intros Hb. unfold trim_nul. apply Forall_rev. destruct (drop_while_split (Z.eqb 0) (rev b)) as [u Hu].
  pose proof (Forall_rev Hb) as Hr. rewrite Hu in Hr. by apply Forall_app in Hr as [_ ?].
Qed.

Section DenyProperties.
Context {M : Type} `{UnicodeCase} `{!BpfMapOps bytes bytes M}.
Context (cfg : Config) (hookFamily : bytes) (dns : option (DNSCache M)).

(** The event a record stands for. *)
Definition event_of (raw : bytes) (now : Z) (ev : DenyEvent) : Prop := exists d dst comm,
  decodeDenyEvent raw = Ret (Some d) /\ dstOf d = Some dst /\
  SanitizeField (trim_nul (dn_comm d)) 16 = Ret comm /\ ev = denyOf cfg hookFamily dns d dst comm now.

(** A record, the clock and the outcome of the write. *)
Abbreviation sample := (bytes * Z * bool)%type.

(** The effect of one record on the pipeline. *)
Inductive deny_effect (pl : pipeline) (x : sample) : pipeline -> result deny_err DenyEvent -> Prop :=
  | de_skip e : deny_effect pl x pl (Err e)
  | de_twin ev st : event_of x.1.1 x.1.2 ev ->
      shouldEmitDeny (pl_state pl) (dedupKey ev) hookFamily x.1.2 = (st, false) ->
      deny_effect pl x (mkPipeline st (pl_seq pl) (pl_log pl)) (Ok ev)
  | de_count ev st : event_of x.1.1 x.1.2 ev -> EventsLogPath cfg = [] ->
      shouldEmitDeny (pl_state pl) (dedupKey ev) hookFamily x.1.2 = (st, true) ->
      deny_effect pl x (mkPipeline (option_map noteDeny st) (pl_seq pl) (pl_log pl)) (Ok ev)
  | de_log ev st : event_of x.1.1 x.1.2 ev -> EventsLogPath cfg <> [] -> x.2 = true ->
      shouldEmitDeny (pl_state pl) (dedupKey ev) hookFamily x.1.2 = (st, true) ->
      let ev' := with_seq ev (seq_next (pl_seq pl)) in
      deny_effect pl x (mkPipeline (option_map noteDeny st) (seq_next (pl_seq pl)) (pl_log pl ++ [ev'])) (Ok ev')
  | de_failed ev st : event_of x.1.1 x.1.2 ev -> EventsLogPath cfg <> [] -> x.2 = false ->
      shouldEmitDeny (pl_state pl) (dedupKey ev) hookFamily x.1.2 = (st, true) ->
      deny_effect pl x (mkPipeline st (seq_next (pl_seq pl)) (pl_log pl)) (Err ErrJSONL).

Lemma append_effect pl raw now written : wf_bytes raw -> exists pl' r,
  appendDenyFromRaw cfg hookFamily dns pl raw now written = Ret (pl', r) /\ deny_effect pl (raw, now, written) pl' r.
Proof.
  intros Hw. unfold appendDenyFromRaw.
  destruct (proj1 (returns_exists _ _) (decodeDenyEvent_wf raw Hw)) as (decoded & Ed & Hd). rewrite Ed. cbn [mbind go_bind].
  destruct decoded as [d|]; [destruct (Hd d eq_refl) as (Hcomm & _)|eexists _, _; split; [done|constructor]].
  destruct (dstOf d) as [dst|] eqn:Edst; [|eexists _, _; split; [done|constructor]].
  assert (wf_bytes (trim_nul (dn_comm d))) as Hc by by apply wf_trim_nul.
  destruct (sanitize_result (trim_nul (dn_comm d)) 16 Hc) as (comm & _ & Ec & _). rewrite Ec. cbn [mbind go_bind].
  assert (event_of raw now (denyOf cfg hookFamily dns d dst comm now)) as Hev by (exists d, dst, comm; done).
  destruct (shouldEmitDeny _ _ _ _) as [st emit] eqn:Es. destruct emit; cbn [negb].
  - destruct (decide (EventsLogPath cfg = [])) as [El|El]; [eexists _, _; split; [done|by eapply de_count]|].
    destruct written; eexists _, _; (split; [done|]); [by eapply (de_log _ (raw, now, true))|by eapply de_failed].
  - eexists _, _. split; [done|by eapply de_twin].
Qed.

(** Records in sequence, with the result of each. *)
Fixpoint processAll (pl : pipeline) (xs : list sample) : go (pipeline * list (result deny_err DenyEvent)) :=
  match xs with
  | [] => Ret (pl, [])
  | (raw, now, written) :: xs' =>
    r ← appendDenyFromRaw cfg hookFamily dns pl raw now written;
    rest ← processAll r.1 xs';
    Ret (rest.1, r.2 :: rest.2)
  end.

Lemma shouldEmit_counts s key now st b : shouldEmitDeny (Some s) key hookFamily now = (st, b) ->
  exists s', st = Some s' /\ denyCountN s' = denyCountN s /\
    denyCorroboratedN s' = denyCorroboratedN s + (if b then 0 else 1).
Proof.
  destruct (shouldEmit_cases s (mkReport key hookFamily now)) as [(prev & _ & E)|(_ & dedup & E & _)];
    cbn [rp_key rp_family rp_now] in E; rewrite E; intros [= <- <-]; eexists; (split; [reflexivity|]); cbn; lia.
Qed.

Lemma event_comm raw now ev : wf_bytes raw -> event_of raw now ev ->
  len (dn_Comm ev) <= 16 /\ Forall (fun b => 0x20 <= b < 256 /\ b <> 0x7F) (dn_Comm ev).
Proof.
  intros Hw (d & dst & comm & Ed & _ & Ec & ->). cbn [dn_Comm denyOf].
  pose proof (proj1 (returns_exists _ _) (decodeDenyEvent_wf raw Hw)) as (? & Ed' & Hd). rewrite Ed in Ed'. injection Ed' as <-.
  destruct (Hd d eq_refl) as (Hcomm & _). assert (wf_bytes (trim_nul (dn_comm d))) as Hc by by apply wf_trim_nul.
  destruct (sanitize_result _ 16 Hc) as (out & rs & E & -> & Hl & Hrs). rewrite Ec in E. injection E as ->.
  split; [done|by apply encode_clean].
Qed.

(** One record, when there is a state and an event log: what is appended. *)
Lemma append_logged pl s raw now written : pl_state pl = Some s -> EventsLogPath cfg <> [] -> wf_bytes raw ->
  0 <= pl_seq pl -> pl_seq pl + 1 < 2 ^ 64 -> exists pl' r s' new,
  appendDenyFromRaw cfg hookFamily dns pl raw now written = Ret (pl', r) /\ pl_state pl' = Some s' /\
  pl_log pl' = pl_log pl ++ new /\ denyCountN s' = denyCountN s + len new /\
  (if is_ok r then 1 else 0) = len new + (denyCorroboratedN s' - denyCorroboratedN s) /\
  pl_seq pl <= pl_seq pl' <= pl_seq pl + 1 /\
  (new = [] \/ exists ev, event_of raw now ev /\ new = [with_seq ev (pl_seq pl')] /\ pl_seq pl < pl_seq pl').
Proof.
  intros Hs Hl Hw H0 H1. destruct (append_effect pl raw now written Hw) as (pl' & r & E & Heff). exists pl', r.
  assert (seq_next (pl_seq pl) = pl_seq pl + 1) as Hn by (unfold seq_next; apply Z.mod_small; lia).
  destruct Heff as [e|ev st Hev Hem|ev st Hev ? Hem|ev st Hev _ Ht Hem|ev st Hev _ Ht Hem]; [|rewrite Hs in Hem..].
  - exists s, []. rewrite app_nil_r, len_nil. cbn [is_ok]. split_and!; first [done|lia|by left].
  - destruct (shouldEmit_counts _ _ _ _ _ Hem) as (s' & -> & Hc & Hco). exists s', []. rewrite app_nil_r, len_nil.
    cbn [pl_state pl_seq pl_log is_ok]. split_and!; first [done|lia|by left].
  - done.
  - destruct (shouldEmit_counts _ _ _ _ _ Hem) as (s' & -> & Hc & Hco). exists (noteDeny s'), [with_seq ev (seq_next (pl_seq pl))].
    cbn [pl_state pl_seq pl_log is_ok option_map]. unfold len. cbn.
    split_and!; try first [done|lia]. right. exists ev. split_and!; [done|done|lia].
  - destruct (shouldEmit_counts _ _ _ _ _ Hem) as (s' & -> & Hc & Hco). exists s', []. rewrite app_nil_r, len_nil.
    cbn [pl_state pl_seq pl_log is_ok]. split_and!; first [done|lia|by left].
Qed.

(** C9: the deny log is faithful.  Whatever records the ring delivers and
    whichever log writes fail, processing them never panics; the deny counter
    grows by exactly the lines appended; every record that did not fail is
    either one of those lines or counted as corroborated; sequence numbers
    strictly increase; and every line is the event of a delivered record, with
    a command name that has no control byte and at most 16 bytes. *)
Theorem deny_log_faithful pl s xs : pl_state pl = Some s -> EventsLogPath cfg <> [] -> Forall (fun x => wf_bytes x.1.1) xs ->
  0 <= pl_seq pl -> pl_seq pl + len xs < 2 ^ 64 -> exists pl' rs s' new,
  processAll pl xs = Ret (pl', rs) /\ pl_state pl' = Some s' /\ pl_log pl' = pl_log pl ++ new /\
  denyCountN s' = denyCountN s + len new /\
  len (List.filter is_ok rs) = len new + (denyCorroboratedN s' - denyCorroboratedN s) /\
  pl_seq pl <= pl_seq pl' /\ StronglySorted Z.lt (map dn_Seq new) /\ Forall (fun ev => pl_seq pl < dn_Seq ev <= pl_seq pl') new /\
  Forall (fun ev => (exists x ev0, x ∈ xs /\ event_of x.1.1 x.1.2 ev0 /\ ev = with_seq ev0 (dn_Seq ev)) /\
    len (dn_Comm ev) <= 16 /\ Forall (fun b => 0x20 <= b < 256 /\ b <> 0x7F) (dn_Comm ev)) new.
Proof.
  revert pl s. induction xs as [|[[raw now] written] xs IH]; intros pl s Hs Hl Hw H0 H1.
  { exists pl, [], s, []. rewrite app_nil_r, len_nil. split_and!; first [done|lia|constructor|unfold len; cbn [List.filter length]; lia]. }
  inversion Hw as [|? ? Hw0 Hws]; subst. cbn [fst snd] in Hw0. rewrite len_cons in H1. pose proof (len_nonneg xs).
  destruct (append_logged pl s raw now written Hs Hl Hw0 H0 ltac:(lia)) as (pl1 & r & s1 & new1 & E1 & Hs1 & Hlog1 & Hc1 & Hok1 & Hseq1 & Hnew1).
  destruct (IH pl1 s1 Hs1 Hl Hws ltac:(lia) ltac:(lia)) as (pl2 & rs & s2 & new2 & E2 & Hs2 & Hlog2 & Hc2 & Hok2 & Hmono & Hsort & Hrange & Hall).
  exists pl2, (r :: rs), s2, (new1 ++ new2). cbn [processAll]. rewrite E1. cbn [mbind go_bind fst snd]. rewrite E2.
  cbn [mbind go_bind fst snd].
  rewrite len_app. split_and!; [done|done|by rewrite Hlog2, Hlog1, app_assoc|lia| |lia| | |].
  - cbn [List.filter]. destruct (is_ok r); rewrite ?len_cons; lia.
  - destruct Hnew1 as [->|(ev & _ & -> & Hlt)]; [done|]. cbn [map app]. constructor; [done|].
    apply Forall_map. eapply Forall_impl; [exact Hrange|]. cbn. lia.
  - apply Forall_app. split; [|eapply Forall_impl; [exact Hrange|]; cbn; lia].
    destruct Hnew1 as [->|(ev & _ & -> & Hlt)]; [constructor|]. constructor; [cbn; lia|constructor].
  - apply Forall_app. split.
    + destruct Hnew1 as [->|(ev & Hev & -> & _)]; [constructor|]. constructor; [|constructor]. split.
      * exists (raw, now, written), ev. split_and!; [by left|done|done].
      * destruct (event_comm raw now ev Hw0 Hev) as [? ?]. done.
    + eapply Forall_impl; [exact Hall|]. cbn. intros ev [(x & ev0 & Hx & Hev & He) ?]. split; [|done].
      exists x, ev0. split_and!; [by right|done|done].
Qed.

(** ** The reader *)

Definition delay_ok (d : Z) : Prop := ringReadRetryBaseDelay <= d <= ringReadRetryMaxDelay.
Definition backoff_ok (b : Z) : Prop := b = 0 \/ delay_ok b.

Lemma backoff_sleep_ok b : backoff_ok b -> exists d, backoff_sleep b = (d, Some d) /\ delay_ok d.
Proof.
  intros Hb. unfold backoff_sleep, nextDelay, backoff_ok, delay_ok, ringReadRetryBaseDelay, ringReadRetryMaxDelay in *.
  destruct (Z.leb_spec b 0); [by eexists; split; [reflexivity|lia]|].
  destruct (Z.ltb_spec (200 * 1000000) (b * 2)); [by eexists; split; [reflexivity|lia]|].
  replace (b * 2 <=? 0) with false by lia. eexists. split; [reflexivity|lia].
Qed.

Definition read_wf (x : Z * readOutcome) : Prop := match x.2 with RRecord raw _ _ _ => wf_bytes raw | RError _ _ => True end.

Definition reader_ok (r : reader) : Prop := backoff_ok (rd_backoff r) /\ backoff_ok (rd_drainBackoff r) /\ Forall delay_ok (rd_slept r).

(** One read passes its record on, or keeps the pipeline. *)
Lemma readStep_spec r t o : reader_ok r -> read_wf (t, o) -> exists r' ex,
  readStep cfg hookFamily dns r t o = Ret (r', ex) /\ reader_ok r' /\
  match o with
  | RRecord raw now written _ => ex = None /\
      exists res, appendDenyFromRaw cfg hookFamily dns (rd_pl r) raw now written = Ret (rd_pl r', res)
  | RError e fin => rd_pl r' = rd_pl r /\ ex <> Some Blocked /\
      (ex = Some ReturnedNil -> e = RingClosed) /\ (ex = Some ReturnedCtx -> fin = true)
  end.
Proof.
  intros (Hb & Hd & Hs) Hw. unfold readStep. assert (backoff_ok 0) as H0 by by left.
  destruct (backoff_sleep_ok _ Hb) as (b1 & E1 & Hb1). destruct (backoff_sleep_ok _ Hd) as (b2 & E2 & Hb2). rewrite E1, E2.
  destruct o as [raw now written after|e fin].
  - destruct (append_effect (rd_pl r) raw now written Hw) as (pl' & res & -> & _). cbn [mbind go_bind fst snd].
    destruct (drain_phase _ _) as [[n until]|]; eexists _, _; (split; [reflexivity|]); (split; [done|]); split; eauto.
  - assert (Forall delay_ok (rd_slept r ++ slept (Some b1)) /\ Forall delay_ok (rd_slept r ++ slept (Some b2))) as [Hs1 Hs2].
    { split; apply Forall_app; (split; [done|]); constructor; done || constructor. }
    assert (backoff_ok b1 /\ backoff_ok b2) as [? ?] by (split; by right).
    destruct (drain_phase _ _) as [[n until]|], e, fin; eexists _, _; (split; [reflexivity|]); (split; [done|]); done.
Qed.

Definition records_of (reads : list (Z * readOutcome)) : list sample :=
  omap (fun x => match x.2 with RRecord raw now written _ => Some (raw, now, written) | RError _ _ => None end) reads.

Lemma readLoop_spec reads r : reader_ok r -> Forall read_wf reads -> exists r' e pre post rs,
  readLoop cfg hookFamily dns r reads = Ret (r', e) /\ reader_ok r' /\ reads = pre ++ post /\
  processAll (rd_pl r) (records_of pre) = Ret (rd_pl r', rs) /\
  match e with
  | Blocked => post = []
  | ReturnedNil => exists p t c, pre = p ++ [(t, RError RingClosed c)]
  | ReturnedCtx => exists p t x, pre = p ++ [(t, RError x true)]
  end.
Proof.
  revert r. induction reads as [|[t o] reads IH]; intros r Hr Hw.
  { exists r, Blocked, [], [], []. done. }
  inversion Hw as [|? ? Hw0 Hws]; subst. destruct (readStep_spec r t o Hr Hw0) as (r1 & ex & E1 & Hr1 & Ho).
  cbn [readLoop]. rewrite E1. cbn [mbind go_bind fst snd]. destruct ex as [e|].
  - destruct o as [raw now written after|x c]; [by destruct Ho|]. destruct Ho as (Hpl & Hb & Hnil & Hctx).
    exists r1, e, [(t, RError x c)], reads, []. split_and!; [done|done|done|by rewrite Hpl|].
    destruct e; [done|rewrite (Hnil eq_refl); by exists [], t, c|rewrite (Hctx eq_refl); by exists [], t, x].
  - destruct (IH r1 Hr1 Hws) as (r2 & e & pre & post & rs & E2 & Hr2 & -> & Ep & He). rewrite E2.
    assert (match e with
      | Blocked => post = []
      | ReturnedNil => exists p t' c, (t, o) :: pre = p ++ [(t', RError RingClosed c)]
      | ReturnedCtx => exists p t' x, (t, o) :: pre = p ++ [(t', RError x true)] end) as He'.
    { destruct e; [done|destruct He as (p & t' & c & ->)|destruct He as (p & t' & c & ->)]; by exists ((t, o) :: p), t', c. }
    destruct o as [raw now written after|x c].
    + destruct Ho as [_ [res Ea]]. exists r2, e, ((t, RRecord raw now written after) :: pre), post, (res :: rs).
      split_and!; [done|done|done| |done]. change (records_of ((t, RRecord raw now written after) :: pre)) with ((raw, now, written) :: records_of pre).
      cbn [processAll]. rewrite Ea. cbn [mbind go_bind fst snd]. by rewrite Ep.
    + destruct Ho as (Hpl & _). exists r2, e, ((t, RError x c) :: pre), post, rs. split_and!; [done|done|done| |done].
      rewrite <- Hpl. exact Ep.
Qed.

(** C10: the deny reader loses nothing and keeps going.  Over any sequence of
    ring reads, the burst structure is invisible: the pipeline ends as if
    [appendDenyFromRaw] had been called once on each delivered record, in
    order, whatever failed; the reader returns only when the ring is closed or
    the context is done, and otherwise consumed every read; every pause is
    between 5 and 200 milliseconds. *)
Theorem deny_reader_complete pl reads : Forall read_wf reads -> exists r e pre post rs,
  readDenyRing cfg hookFamily dns pl reads = Ret (r, e) /\ reads = pre ++ post /\
  processAll pl (records_of pre) = Ret (rd_pl r, rs) /\ Forall delay_ok (rd_slept r) /\
  match e with
  | Blocked => post = []
  | ReturnedNil => exists p t c, pre = p ++ [(t, RError RingClosed c)]
  | ReturnedCtx => exists p t x, pre = p ++ [(t, RError x true)]
  end.
Proof.
  intros Hw. unfold readDenyRing.
  destruct (readLoop_spec reads (mkReader pl 0 0 [] None)) as (r & e & pre & post & rs & E & (_ & _ & Hs) & Hsp & Ep & He).
  - split_and!; [by left|by left|constructor].
  - done.
  - exists r, e, pre, post, rs. done.
Qed.
End DenyProperties.

(** * Properties: startup *)

Lemma elem_of_literals4_into p keys k : (forall v, v ∈ ips p -> length v = 4%nat) ->
  k ∈ MergeLiteralAllowedIPv4Into (Some p) keys <-> k ∈ keys \/ k ∈ ips p.
Proof.
  unfold MergeLiteralAllowedIPv4Into, set_fold. cbn. setoid_rewrite <- (elem_of_elements (ips p)).
  induction (elements (ips p)) as [|a l IH]; intros Hl; cbn [foldr]; [rewrite elem_of_nil; tauto|].
  pose proof (Hl a ltac:(by left)) as Ha. unfold IPv4len. rewrite decide_True by done.
  unfold IPv4Set_Add. rewrite To4_v4, copy_array_exact by done.
  rewrite elem_of_union, elem_of_singleton, elem_of_cons, IH; [tauto|]. intros v Hv. apply Hl. by right.
Qed.

Lemma elem_of_add4 l s k : (forall ip, ip ∈ l -> length ip = 16%nat) ->
  k ∈ foldl IPv4Set_Add s l <-> k ∈ s \/ exists ip, ip ∈ l /\ To4 ip = Some k.
Proof.
  revert s. induction l as [|ip l IH]; intros s Hl; cbn [foldl].
  - split; [by left|]. by intros [?|(ip & ?%elem_of_nil & _)].
  - rewrite IH by (intros x Hx; apply Hl; by right). unfold IPv4Set_Add. setoid_rewrite elem_of_cons.
    pose proof (Hl ip ltac:(by left)) as Hip. destruct (To4 ip) as [v|] eqn:E.
    + assert (length v = 4%nat) as Hv by (by eapply To4_length). rewrite copy_array_exact, elem_of_union, elem_of_singleton by done. naive_solver.
    + naive_solver.
Qed.

Lemma elem_of_add6 l s k : (forall ip, ip ∈ l -> length ip = 16%nat) ->
  k ∈ foldl IPv6Set_Add s l <-> k ∈ s \/ (k ∈ l /\ To4 k = None).
Proof.
  revert s. induction l as [|ip l IH]; intros s Hl; cbn [foldl].
  - split; [by left|]. by intros [?|[?%elem_of_nil _]].
  - rewrite IH by (intros x Hx; apply Hl; by right). unfold IPv6Set_Add. rewrite elem_of_cons.
    pose proof (Hl ip ltac:(by left)) as Hip. rewrite decide_False by (by intros ->).
    destruct (To4 ip) as [v|] eqn:E; [naive_solver|]. rewrite To16_v6, copy_array_exact, elem_of_union, elem_of_singleton by done. naive_solver.
Qed.

(** A line [nameserver ip ...] of one of the files, that no comment sign opens,
    for an address that is not loopback. *)
Definition names_resolver (open : bytes -> option bytes) (paths : list bytes) (ip : bytes) : Prop :=
  exists path content line addr rest, path ∈ paths /\ open path = Some content /\ line ∈ ScanLines content /\
    Fields (TrimSpace line) = str "nameserver" :: addr :: rest /\
    HasPrefix (TrimSpace line) (str "#") = false /\ HasPrefix (TrimSpace line) (str ";") = false /\
    ParseIP addr = Some ip /\ IsLoopback ip = false.

Lemma elem_of_listed open paths ip : ip ∈ listed_resolvers open paths <-> names_resolver open paths ip.
Proof.
  unfold listed_resolvers, names_resolver. rewrite list_elem_of_omap. split.
  - intros (t & Ht & Hn). rewrite list_elem_of_In, in_concat in Ht. destruct Ht as (ls & (path & <- & Hp)%in_map_iff & Hin).
    destruct (open path) as [c|] eqn:Eo; [|done]. apply list_elem_of_In in Hp, Hin. unfold nameserver in Hn.
    case_decide; [done|]. destruct (HasPrefix _ (str "#")) eqn:E1; [done|]. destruct (HasPrefix _ (str ";")) eqn:E2; [done|]. cbn [orb] in Hn.
    destruct (Fields _) as [|f0 [|f1 rest]] eqn:Ef; [done|done|]. case_decide as E0; [subst f0|done].
    destruct (ParseIP f1) as [i|] eqn:Ei; [|done]. destruct (IsLoopback i) eqn:El; [done|]. injection Hn as ->.
    by exists path, c, t, f1, rest.
  - intros (path & c & t & f1 & rest & Hp & Eo & Hin & Ef & E1 & E2 & Ei & El). exists t. split.
    + rewrite list_elem_of_In, in_concat. eexists. split; [apply in_map_iff; exists path; split; [done|by apply list_elem_of_In]|].
      rewrite Eo. by apply list_elem_of_In.
    + unfold nameserver. rewrite decide_False by (intros E; rewrite E in Ef; done). by rewrite E1, E2, Ef, decide_True, Ei, El.
Qed.

(** What auto-allowing adds. *)
Lemma auto_allow_adds (compiled : CompileResult) (open : bytes -> option bytes) (paths : list bytes) :
  let widened := (autoAllowSystemResolvers compiled open paths).1 in
  exists added, len added <= 8 /\ (forall ip, ip ∈ added -> names_resolver open paths ip) /\
  (forall ip, names_resolver open paths ip -> len added = 8 \/ exists ip', ip' ∈ added /\ IP_String ip' = IP_String ip) /\
  (forall k, k ∈ AllowedIPv4 widened <-> k ∈ AllowedIPv4 compiled \/ exists ip, ip ∈ added /\ To4 ip = Some k) /\
  (forall k, k ∈ AllowedIPv6 widened <-> k ∈ AllowedIPv6 compiled \/ (k ∈ added /\ To4 k = None)) /\
  Domains widened = Domains compiled /\ UnresolvedDomains widened = UnresolvedDomains compiled.
Proof.
  cbv zeta. destruct (system_resolvers_exact open paths) as (E & Hlen & _ & Hall). unfold autoAllowSystemResolvers. rewrite E.
  set (added := auto_resolvers open paths) in *. cbn [fst AllowedIPv4 AllowedIPv6 Domains UnresolvedDomains].
  assert (forall ip, ip ∈ added -> names_resolver open paths ip) as Hnamed by (intros ip [_ Hip]%Hall; by apply elem_of_listed).
  assert (forall ip, ip ∈ added -> length ip = 16%nat) as H16
    by (intros ip Hip; destruct (Hnamed ip Hip) as (? & ? & ? & ? & ? & _ & _ & _ & _ & _ & _ & Hp & _); by eapply ParseIP_length).
  exists added. split; [exact Hlen|]. split; [done|]. split; [|split; [|split]]; [..|done].
  - intros ip Hip%elem_of_listed. destruct (dedup_by_complete IP_String ∅ _ ip Hip ltac:(set_solver)) as (y & Hy & Ey).
    unfold added, auto_resolvers. destruct (decide (length (dedup_by IP_String ∅ (listed_resolvers open paths)) <= 8)%nat) as [Hs|Hs].
    + right. exists y. by rewrite take_ge by done.
    + left. unfold len. rewrite length_take. lia.
  - intros k. rewrite elem_of_add4 by (intros ip [Hip _]%elem_of_lfilter; auto). setoid_rewrite elem_of_lfilter. unfold is_v4.
    split; (intros [?|(ip & Hx)]; [by left|right; exists ip]); [tauto|]. destruct Hx as [? Hx]. by rewrite Hx.
  - intros k. rewrite elem_of_add6 by (intros ip [Hip _]%elem_of_lfilter; auto). rewrite elem_of_lfilter. unfold is_v4.
    destruct (To4 k); cbn [negb]; naive_solver.
Qed.

Section StartupProperties.
Context `{UnicodeCase} `{Resolver}.

(** C3: defend mode fails closed.  It starts only with at least one allowed
    address or network; what it allows is what the domains resolved to and the
    literals of the policy, in both families.  Auto-allowing the host's
    resolvers adds at most eight addresses, all named by nameserver lines of the
    files that can be read and none loopback, as IPv4 or IPv6 addresses, and
    nothing else; it leaves out a named resolver only when there are eight
    others. *)
Theorem defend_fails_closed cfg maxAttempts compiled open paths :
  cf_Mode cfg = ModeDefend -> compileDefendAllowlist cfg maxAttempts = Ok compiled ->
  let resolved := CompileDomainAllowlist (cf_AllowedDomains cfg) maxAttempts in
  exists pol, Config_Policy cfg = Ok pol /\
  Domains compiled <> [] /\
  (AllowedIPv4 compiled <> ∅ \/ AllowedIPv6 compiled <> ∅ \/ nets pol <> [] \/ ipv6nets pol <> []) /\
  (forall k, k ∈ AllowedIPv4 compiled <-> k ∈ AllowedIPv4 resolved \/ k ∈ ips pol) /\
  (forall k, k ∈ AllowedIPv6 compiled <-> k ∈ AllowedIPv6 resolved \/ k ∈ ipv6s pol) /\
  let widened := (autoAllowSystemResolvers compiled open paths).1 in
  exists added, len added <= 8 /\ (forall ip, ip ∈ added -> names_resolver open paths ip) /\
  (forall ip, names_resolver open paths ip -> len added = 8 \/ exists ip', ip' ∈ added /\ IP_String ip' = IP_String ip) /\
  (forall k, k ∈ AllowedIPv4 widened <-> k ∈ AllowedIPv4 compiled \/ exists ip, ip ∈ added /\ To4 ip = Some k) /\
  (forall k, k ∈ AllowedIPv6 widened <-> k ∈ AllowedIPv6 compiled \/ (k ∈ added /\ To4 k = None)) /\
  Domains widened = Domains compiled /\ UnresolvedDomains widened = UnresolvedDomains compiled.
Proof.
  intros Hm. unfold compileDefendAllowlist, Config_ModeConfig. rewrite Hm. cbn [Defend negb].
  rewrite bool_decide_eq_true_2 by done. cbn [negb].
  destruct (decide _) as [|Hd]; [done|]. destruct (decide (Domains _ = [])) as [|Hdom]; [done|].
  destruct (Config_Policy cfg) as [pol|] eqn:Ep; [|done]. destruct (decide (_ /\ _)) as [|Hne]; [done|]. intros [= <-].
  unfold Config_Policy in Ep. apply BuildPolicyEx_inv in Ep as ([_ _ Hi _ Hi6 _ _ _] & _).
  cbv zeta. exists pol. cbn [Domains AllowedIPv4 AllowedIPv6].
  split_and!; [done|done| | | |].
  - change (AllowedIPv4Nets (Some pol)) with (nets pol) in Hne. change (AllowedIPv6Nets (Some pol)) with (ipv6nets pol) in Hne.
    destruct (decide (nets pol = [])); [|tauto]. destruct (decide (ipv6nets pol = [])); [|tauto].
    destruct (decide (MergeLiteralAllowedIPv4Into (Some pol) (AllowedIPv4 (CompileDomainAllowlist (cf_AllowedDomains cfg) maxAttempts)) = ∅)); tauto.
  - intros k. apply elem_of_literals4_into. intros v (r & _ & Hr)%Hi. by apply (parseIPEntry_valid r (IPLit4 v)).
  - intros k. apply elem_of_literals6. intros v (r & _ & Hr)%Hi6. by apply (parseIPEntry_valid r (IPLit6 v)).
  - exact (auto_allow_adds _ open paths).
Qed.
End StartupProperties.

(** * Witnesses *)

Module Witness.
#[local] Existing Instance ascii_case.
#[local] Existing Instance plain_order.

Definition cfg : Config :=
  mkConfig ModeDefend [] [] (str "192.0.2.7") [] false [str "a.io"] (str "info") (str "/e.jsonl") [] [] ∅
    (str "standard") (str "/sys/fs/cgroup") [] false false.

Definition resolver : Resolver := {|
  lookup_ip _ net _ := match net with Ip4 => Ok [[1; 2; 3; 4]] | Ip6 => Err LookupErr end;
  cancelled _ _ := false |}.

Definition raw : bytes := concat (deny_event ex_deny 0).
Definition pl : pipeline := mkPipeline (Some newDefendState) 7 [].
Abbreviation kmap := (gmap bytes bytes).

Lemma raw_wf : wf_bytes raw.
Proof. unfold wf_bytes. by apply (bool_decide_unpack _). Qed.

(** Two records of one syscall from the same family, then garbage. *)
Definition samples : list (bytes * Z * bool) := [(raw, 10, true); (raw, 20, true); ([1; 2], 30, true)].

Lemma deny_log_faithful_witness : exists pl' rs s' new,
  processAll (M := kmap) cfg (str "cgroup") None pl samples = Ret (pl', rs) /\ pl_state pl' = Some s' /\
  denyCountN s' = 0 + len new /\ StronglySorted Z.lt (map dn_Seq new).
Proof.
  destruct (deny_log_faithful (M := kmap) cfg (str "cgroup") None pl newDefendState samples)
    as (pl' & rs & s' & new & E1 & E2 & _ & E3 & _ & _ & E4 & _).
  - reflexivity.
  - discriminate.
  - constructor; [exact raw_wf|]. constructor; [exact raw_wf|]. constructor; [|constructor].
    constructor; [split; [discriminate|reflexivity]|]. constructor; [split; [discriminate|reflexivity]|constructor].
  - by vm_compute.
  - by vm_compute.
  - exists pl', rs, s', new. split; [exact E1|]. split; [exact E2|]. split; [exact E3|exact E4].
Defined.

Definition reads : list (Z * readOutcome) :=
  [(0, RError RingOther false); (5, RRecord raw 10 true 11); (12, RError RingDeadline false); (13, RError RingClosed false);
   (14, RError RingClosed false); (15, RRecord raw 16 true 17)].

Lemma deny_reader_complete_witness : exists r e pre post rs,
  readDenyRing (M := kmap) cfg (str "lsm") None pl reads = Ret (r, e) /\ reads = pre ++ post /\
  processAll (M := kmap) cfg (str "lsm") None pl (records_of pre) = Ret (rd_pl r, rs).
Proof.
  destruct (deny_reader_complete (M := kmap) cfg (str "lsm") None pl reads) as (r & e & pre & post & rs & E1 & E2 & E3 & _).
  - repeat (constructor; [first [exact raw_wf|exact I]|]). constructor.
  - exists r, e, pre, post, rs. split; [exact E1|]. split; [exact E2|exact E3].
Defined.

Example reader_exit_value :
  (r ← readDenyRing (M := kmap) cfg (str "lsm") None pl reads; Ret (r.2, rd_slept r.1, map dn_Dst (pl_log (rd_pl r.1))))
  = Ret (ReturnedNil, [5000000], [str "10.0.0.7"]).
Proof. by vm_compute. Qed.

Definition compiled : CompileResult :=
  match compileDefendAllowlist (H0 := resolver) cfg 1 with Ok c => c | Err _ => emptyCompile end.

Lemma defend_fails_closed_witness : [192; 0; 2; 7] ∈ AllowedIPv4 compiled.
Proof.
  destruct (defend_fails_closed (H0 := resolver) cfg 1 compiled (fun _ => None) []) as (pol & Hp & _ & _ & H4 & _).
  - reflexivity.
  - vm_compute. reflexivity.
  - apply H4. right. vm_compute in Hp. injection Hp as <-. by apply (bool_decide_unpack _); vm_compute.
Defined.

(** When the write of a report fails, its twin from the other layer is still
    taken as corroborating it: the deny is neither logged nor counted. *)
Example failed_write_loses_deny :
  (x ← appendDenyFromRaw (M := kmap) cfg (str "cgroup") None pl raw 10 false;
   y ← appendDenyFromRaw (M := kmap) cfg (str "lsm") None x.1 raw 20 true;
   Ret (pl_log y.1, option_map denyCountN (pl_state y.1), option_map denyCorroboratedN (pl_state y.1)))
  = Ret ([], Some 0, Some 1).
Proof. by vm_compute. Qed.
End Witness.
