(* ===== verification/ProcTree.v ===== *)
(** Package [internal/proctree] (summary.go): the process forest printed in the
    report, from the sampled fork edges.

    A thread-group id is an integer, a Go map from ids a [gmap Z].  The closure
    [emitSubtree] appends to [lines], seeds [execCopy] and adds to and deletes
    from [pathSet], which it shares with its callers: these are the fields of
    the state [forest].  Its recursion is bounded by the nodes not yet on the
    path, at most one per edge, so the fuel is the number of edges and one. *)
From S2P Require Import Prelude GoStrings BpfMap.

Open Scope Z_scope.

Record Edge := mkEdge {
  ParentTGID : Z;
  ChildTGID : Z;
  ParentComm : bytes;
  ChildComm : bytes;
  ChildSID : Z;
  ChildPidnsNum : Z
}.

Record ExecIdentity := mkIdentity { Comm : bytes; Exe : bytes }.

Definition noIdentity : ExecIdentity := mkIdentity [] [].

(** [exec[pid]], the zero value when absent. *)
Definition identOf (exec : gmap Z ExecIdentity) (pid : Z) : ExecIdentity := default noIdentity (exec !! pid).

Definition nodeLine (pid : Z) (exec : gmap Z ExecIdentity) : bytes :=
  let id := identOf exec pid in
  let paren := str "(" ++ Uitoa pid ++ str ")" in
  let label := if decide (Comm id = []) then str "?" ++ paren else Comm id ++ paren in
  if decide (Exe id = []) then label else label ++ str " " ++ Exe id.

(** [if _, ok := exec[k]; !ok && comm != ""]. *)
Definition seedName (exec : gmap Z ExecIdentity) (kc : Z * bytes) : gmap Z ExecIdentity :=
  match exec !! kc.1 with
  | Some _ => exec
  | None => if decide (kc.2 = []) then exec else <[kc.1 := mkIdentity kc.2 []]> exec
  end.

Definition seedExecFromEdges (edges : list Edge) (exec : gmap Z ExecIdentity) : gmap Z ExecIdentity :=
  foldl (fun exec e => seedName (seedName exec (ParentTGID e, ParentComm e)) (ChildTGID e, ChildComm e)) exec edges.

(** The loop runs from the last edge to the first. *)
Definition edgeChildComm (edges : list Edge) (p c : Z) : bytes :=
  match List.find (fun e => (ParentTGID e =? p) && (ChildTGID e =? c)) (rev edges) with
  | Some e => ChildComm e
  | None => []
  end.

(** One round of the loop that builds [adj]: [seen] and [adj]. *)
Definition adjStep (st : gset (Z * Z) * gmap Z (list Z)) (e : Edge) : gset (Z * Z) * gmap Z (list Z) :=
  let '(seen, adj) := st in
  let p := ParentTGID e in
  let c := ChildTGID e in
  if (p =? 0) || (c =? 0) || (p =? c) then st
  else if decide ((p, c) ∈ seen) then st
  else ({[(p, c)]} ∪ seen, <[p := default [] (adj !! p) ++ [c]]> adj).

Definition sortIDs (l : list Z) : list Z := merge_sort Z.le l.

Definition adjacency (edges : list Edge) : gmap Z (list Z) :=
  sortIDs <$> (foldl adjStep (∅, ∅) (rev edges)).2.

Definition childSetOf (edges : list Edge) : gset Z :=
  foldl (fun s e => if ChildTGID e =? 0 then s else {[ChildTGID e]} ∪ s) ∅ edges.

Definition rootsOf `{!RangeOrder Z} (edges : list Edge) : list Z :=
  sortIDs (List.filter (fun p => bool_decide (p ∉ childSetOf edges)) (range 0 (adjacency edges)).*1).

Record forest := mkForest { lines : list bytes; execCopy : gmap Z ExecIdentity; pathSet : gset Z }.

Definition arms (last : bool) : bytes * bytes :=
  if last then (str "└── ", str "    ") else (str "├── ", str "│   ").

Section Emit.
Context (edges : list Edge) (adj : gmap Z (list Z)) (maxLines : Z).

(** [if _, ok := execCopy[c]; !ok] *)
Definition seedMissing (s : forest) (c : Z) (id : ExecIdentity) : forest :=
  match execCopy s !! c with
  | Some _ => s
  | None => mkForest (lines s) (<[c := id]> (execCopy s)) (pathSet s)
  end.

Definition full (s : forest) : bool := maxLines <=? len (lines s).

Definition enter (s : forest) (c : Z) (line : bytes) : forest :=
  mkForest (lines s ++ [line]) (execCopy s) ({[c]} ∪ pathSet s).
Definition leave (s : forest) (c : Z) : forest :=
  mkForest (lines s) (execCopy s) (pathSet s ∖ {[c]}).

(** The loop of [emitSubtree] over the [n] children of [pid], from the [i]-th
    on; [rec] is the recursive call. *)
Fixpoint emitLoop (rec : Z -> bytes -> forest -> forest) (pid : Z) (continuation : bytes)
    (n i : nat) (ch : list Z) (s : forest) : forest :=
  match ch with
  | [] => s
  | c :: ch' =>
    if full s then s
    else if decide (c ∈ pathSet s) then emitLoop rec pid continuation n (S i) ch' s
    else
      let s := seedMissing s c (mkIdentity (edgeChildComm edges pid c) []) in
      let '(arm, ext) := arms (S i =? n)%nat in
      let s := enter s c (continuation ++ arm ++ nodeLine c (execCopy s)) in
      if full s then leave s c
      else emitLoop rec pid continuation n (S i) ch' (leave (rec c (continuation ++ ext) s) c)
  end.

Fixpoint emitSubtree (fuel : nat) (pid : Z) (continuation : bytes) (s : forest) : forest :=
  match fuel with
  | O => s
  | S fuel' =>
    let ch := default [] (adj !! pid) in
    emitLoop (emitSubtree fuel') pid continuation (length ch) 0 ch s
  end.

(** The loop over the roots. *)
Fixpoint emitRoots (fuel : nat) (roots : list Z) (s : forest) : forest :=
  match roots with
  | [] => s
  | r :: roots' =>
    if full s then s
    else
      let s := seedMissing s r noIdentity in
      let s := mkForest (lines s ++ [nodeLine r (execCopy s)]) (execCopy s) {[r]} in
      if full s then s
      else emitRoots fuel roots' (emitSubtree fuel r [] s)
  end.
End Emit.

Definition FormatForestLines `{!RangeOrder Z} (edges : list Edge) (exec : gmap Z ExecIdentity) (maxLines : Z) : list bytes :=
  if maxLines <=? 0 then []
  else
    let execCopy := seedExecFromEdges edges exec in
    let adj := adjacency edges in
    let s := emitRoots edges adj maxLines (S (length edges)) (rootsOf edges) (mkForest [] execCopy ∅) in
    if decide (lines s = [] /\ edges <> []) then [str "(unable to derive roots from sampled edges)"]
    else lines s.

(** * Reference: the forest of simple paths *)

Definition real_edge (e : Edge) : Prop := ParentTGID e <> 0 /\ ChildTGID e <> 0 /\ ParentTGID e <> ChildTGID e.
#[global] Instance real_edge_dec e : Decision (real_edge e).
Proof. unfold real_edge. apply _. Defined.

(** The distinct children of [p] in increasing order. *)
Definition children (edges : list Edge) (p : Z) : list Z :=
  sortIDs (remove_dups (ChildTGID <$> filter (fun e => real_edge e /\ ParentTGID e = p) edges)).

(** The distinct parents that are nobody's child, in increasing order. *)
Definition root_ids (edges : list Edge) : list Z :=
  sortIDs (remove_dups (ParentTGID <$> filter (fun e => real_edge e /\ ParentTGID e ∉ ChildTGID <$> edges) edges)).

(** Who [pid] is: what the caller knows, else the first name an edge gives. *)
Definition names (edges : list Edge) : list (Z * bytes) :=
  edges ≫= fun e => [(ParentTGID e, ParentComm e); (ChildTGID e, ChildComm e)].
Definition identity (edges : list Edge) (exec : gmap Z ExecIdentity) (pid : Z) : ExecIdentity :=
  match exec !! pid with
  | Some id => id
  | None => match List.find (fun kc => bool_decide (kc.1 = pid /\ kc.2 <> [])) (names edges) with
            | Some kc => mkIdentity kc.2 []
            | None => noIdentity
            end
  end.
Definition label (edges : list Edge) (exec : gmap Z ExecIdentity) (pid : Z) : bytes :=
  nodeLine pid {[pid := identity edges exec pid]}.

(** The lines below [pid], which continue the simple path [path]. *)
Section Render.
Context (edges : list Edge) (exec : gmap Z ExecIdentity).

Definition render_child (rec : gset Z -> Z -> bytes -> list bytes) (path : gset Z) (cont : bytes) (n i : nat) (c : Z) : list bytes :=
  if decide (c ∈ path) then []
  else (cont ++ (arms (S i =? n)%nat).1 ++ label edges exec c) ::
       rec ({[c]} ∪ path) c (cont ++ (arms (S i =? n)%nat).2).

Fixpoint render_below (depth : nat) (path : gset Z) (pid : Z) (cont : bytes) : list bytes :=
  match depth with
  | O => []
  | S depth' =>
    let ch := children edges pid in
    concat (imap (render_child (render_below depth') path cont (length ch)) ch)
  end.

Definition render_forest (depth : nat) : list bytes :=
  root_ids edges ≫= fun r => label edges exec r :: render_below depth {[r]} r [].
End Render.

(** * Lemmas *)

Lemma sortIDs_perm l : sortIDs l ≡ₚ l.
Proof. apply merge_sort_Permutation. Qed.

Lemma sortIDs_Permutation l k : l ≡ₚ k -> sortIDs l = sortIDs k.
Proof.
  intros Hp. apply (StronglySorted_unique Z.le).
  - apply (StronglySorted_merge_sort _).
  - apply (StronglySorted_merge_sort _).
  - by rewrite !sortIDs_perm.
Qed.

Lemma seed_lookup l exec pid : foldl seedName exec l !! pid =
  match exec !! pid with
  | Some id => Some id
  | None => (fun kc => mkIdentity kc.2 []) <$> List.find (fun kc : Z * bytes => bool_decide (kc.1 = pid /\ kc.2 <> [])) l
  end.
Proof.
  revert exec. induction l as [|[k c] l IH]; intros exec; cbn [foldl List.find].
  { by destruct (exec !! pid). }
  rewrite IH. unfold seedName. cbn [fst snd]. destruct (exec !! k) eqn:Ek.
  - destruct (exec !! pid) eqn:Ep; [done|]. rewrite bool_decide_eq_false_2; [done|]. intros [-> _]. congruence.
  - destruct (decide (c = [])) as [->|Hc].
    + destruct (exec !! pid); [done|]. by rewrite bool_decide_eq_false_2 by (by intros [_ ?]).
    + destruct (decide (pid = k)) as [->|Hk].
      * rewrite lookup_insert_eq, Ek. by rewrite bool_decide_eq_true_2.
      * rewrite lookup_insert_ne by done. destruct (exec !! pid); [done|].
        rewrite bool_decide_eq_false_2; [done|]. intros [? _]. congruence.
Qed.

Lemma seedExec_names edges exec : seedExecFromEdges edges exec = foldl seedName exec (names edges).
Proof.
  unfold seedExecFromEdges, names. revert exec. induction edges as [|e edges IH]; intros exec; [done|].
  cbn [foldl mbind list_bind]. rewrite foldl_app. cbn [foldl]. apply IH.
Qed.

Lemma identOf_seed edges exec pid : identOf (seedExecFromEdges edges exec) pid = identity edges exec pid.
Proof.
  unfold identOf, identity. rewrite seedExec_names, seed_lookup. destruct (exec !! pid); [done|].
  by destruct (List.find _ _).
Qed.

(** A child the seeding left out has no name on any edge. *)
Lemma edgeChildComm_missing edges exec p c : seedExecFromEdges edges exec !! c = None -> edgeChildComm edges p c = [].
Proof.
  rewrite seedExec_names, seed_lookup. destruct (exec !! c); [done|].
  destruct (List.find _ (names edges)) eqn:E; [done|]. intros _.
  unfold edgeChildComm. destruct (List.find _ (rev edges)) as [e|] eqn:Ef; [|done].
  apply find_some in Ef as [Hin Hpc]. apply andb_true_iff in Hpc as [_ Hc%Z.eqb_eq].
  apply in_rev in Hin. destruct (decide (ChildComm e = [])) as [|Hne]; [done|]. exfalso.
  eapply find_none with (x := (ChildTGID e, ChildComm e)) in E.
  - rewrite bool_decide_eq_false in E. by apply E.
  - apply list_elem_of_In. unfold names. apply list_elem_of_bind. exists e.
    split; [|by apply list_elem_of_In]. by right; left.
Qed.

Lemma nodeLine_label edges exec m pid : identOf m pid = identity edges exec pid -> nodeLine pid m = label edges exec pid.
Proof. intros Hm. unfold label, nodeLine. rewrite Hm. unfold identOf. by rewrite lookup_singleton_eq. Qed.

(** ** The adjacency *)

Definition child_of (l : list Edge) (p c : Z) : Prop :=
  exists e, e ∈ l /\ real_edge e /\ ParentTGID e = p /\ ChildTGID e = c.

Record adj_inv (l : list Edge) (st : gset (Z * Z) * gmap Z (list Z)) : Prop := {
  ai_seen : forall p c, (p, c) ∈ st.1 <-> child_of l p c;
  ai_list : forall p c, c ∈ default [] (st.2 !! p) <-> child_of l p c;
  ai_nodup : forall p, NoDup (default [] (st.2 !! p));
  ai_some : forall p, st.2 !! p <> Some [];
}.

Lemma child_of_snoc l e p c : child_of (l ++ [e]) p c <->
  child_of l p c \/ (real_edge e /\ ParentTGID e = p /\ ChildTGID e = c).
Proof.
  unfold child_of. setoid_rewrite elem_of_app. setoid_rewrite list_elem_of_singleton. split.
  - intros (x & [Hx| ->] & H); eauto.
  - intros [(x & Hx & H)|H]; eauto.
Qed.

Lemma adjStep_inv l st e : adj_inv l st -> adj_inv (l ++ [e]) (adjStep st e).
Proof.
  destruct st as [seen adj]. intros [Hs Hl Hn Ho]. cbn [fst snd] in *. unfold adjStep.
  destruct ((_ =? _) || _ || _) eqn:Eg.
  { assert (~ real_edge e) by (unfold real_edge; z_bool; tauto).
    split; cbn [fst snd]; [| |done..]; intros; rewrite child_of_snoc; naive_solver. }
  assert (Hr : real_edge e) by (unfold real_edge; z_bool; tauto).
  destruct (decide _) as [Hin|Hout].
  { assert (Hc : forall p c, child_of (l ++ [e]) p c <-> child_of l p c)
      by (intros; rewrite child_of_snoc; apply Hs in Hin; naive_solver).
    split; cbn [fst snd]; [| |done..]; intros; by rewrite Hc. }
  assert (Hnew : ChildTGID e ∉ default [] (adj !! ParentTGID e)) by (by rewrite Hl, <- Hs).
  split; cbn [fst snd]; intros p; [intros c; rewrite child_of_snoc, <- Hs, elem_of_union, elem_of_singleton; naive_solver congruence|intros c|..];
    (destruct (decide (p = ParentTGID e)) as [->|Hne];
      [rewrite lookup_insert_eq; cbn [from_option]; unfold id|rewrite lookup_insert_ne by done]).
  - rewrite elem_of_app, list_elem_of_singleton, Hl, child_of_snoc. naive_solver.
  - rewrite Hl, child_of_snoc. naive_solver.
  - apply NoDup_app. split; [done|]. split; [|apply NoDup_singleton].
    intros c Hc ->%list_elem_of_singleton. done.
  - done.
  - by destruct (default _ _).
  - done.
Qed.

Lemma adj_built edges : adj_inv (rev edges) (foldl adjStep (∅, ∅) (rev edges)).
Proof.
  induction (rev edges) as [|e l IH] using rev_ind; [|rewrite foldl_app; by apply adjStep_inv].
  split; cbn; intros; unfold child_of; rewrite ?lookup_empty; cbn; try set_solver. constructor.
Qed.

Lemma child_of_rev edges p c : child_of (rev edges) p c <-> child_of edges p c.
Proof. unfold child_of. setoid_rewrite list_elem_of_In. setoid_rewrite <- in_rev. done. Qed.

Lemma elem_of_children edges p c : c ∈ children edges p <-> child_of edges p c.
Proof.
  unfold children, child_of. rewrite sortIDs_perm, elem_of_remove_dups, list_elem_of_fmap.
  setoid_rewrite list_elem_of_filter. naive_solver.
Qed.

Lemma adjacency_children edges p : default [] (adjacency edges !! p) = children edges p.
Proof.
  pose proof (adj_built edges) as [_ Hl Hn _]. unfold adjacency, children. rewrite lookup_fmap.
  trans (sortIDs (default [] ((foldl adjStep (∅, ∅) (rev edges)).2 !! p))); [by destruct (_ !! p)|].
  apply sortIDs_Permutation, NoDup_Permutation; [apply Hn|apply NoDup_remove_dups|].
  intros c. rewrite Hl, child_of_rev, <- elem_of_children. unfold children. by rewrite sortIDs_perm.
Qed.

Lemma adjacency_dom edges p : is_Some (adjacency edges !! p) <-> exists c, child_of edges p c.
Proof.
  pose proof (adj_built edges) as [_ Hl _ Ho]. unfold adjacency. rewrite lookup_fmap, fmap_is_Some.
  setoid_rewrite <- child_of_rev. setoid_rewrite <- Hl. specialize (Ho p). split.
  - intros [[|c l] E]; [congruence|]. exists c. rewrite E. left.
  - intros [c Hc]. destruct (_ !! p); [eauto|]. by apply not_elem_of_nil in Hc.
Qed.

Lemma elem_of_childSet edges c : c ∈ childSetOf edges <-> c <> 0 /\ c ∈ ChildTGID <$> edges.
Proof.
  unfold childSetOf. rewrite <- (rev_involutive edges). induction (rev edges) as [|e l IH]; [set_solver|].
  cbn [rev]. rewrite foldl_app, fmap_app, elem_of_app. cbn [foldl]. destruct (Z.eqb_spec (ChildTGID e) 0); set_solver.
Qed.

Lemma rootsOf_root_ids `{!RangeOrder Z} edges : rootsOf edges = root_ids edges.
Proof.
  unfold rootsOf, root_ids. apply sortIDs_Permutation, NoDup_Permutation.
  - apply NoDup_ListNoDup, List.NoDup_filter, NoDup_ListNoDup, range_NoDup.
  - apply NoDup_remove_dups.
  - intros p. rewrite list_elem_of_In, filter_In, <- list_elem_of_In, bool_decide_eq_true, elem_of_childSet.
    rewrite elem_of_remove_dups, !list_elem_of_fmap. setoid_rewrite list_elem_of_filter.
    assert (Hd : (exists y : Z * list Z, p = y.1 /\ y ∈ range 0 (adjacency edges)) <-> exists c, child_of edges p c).
    { rewrite <- adjacency_dom. split.
      - intros ([k l] & -> & Hin). apply elem_of_range in Hin. eauto.
      - intros [l Hl]. exists (p, l). split; [done|]. by apply elem_of_range. }
    rewrite Hd. unfold child_of, real_edge. setoid_rewrite list_elem_of_fmap. naive_solver.
Qed.

(** ** The emission *)

Lemma take_take_app {A} n (l k : list A) : take n (take n l ++ k) = take n (l ++ k).
Proof.
  destruct (decide (n <= length l)%nat) as [Hn|Hn].
  - rewrite take_app_le by (rewrite length_take; lia). rewrite take_take, Nat.min_id. by rewrite take_app_le.
  - by rewrite (take_ge l) by lia.
Qed.

Lemma take_snoc {A} n (l : list A) x k : length (l ++ [x]) = n -> take n (l ++ x :: k) = l ++ [x].
Proof. intros <-. rewrite (cons_middle x l k), app_assoc. apply take_app_length. Qed.

Section Emission.
Context (edges : list Edge) (exec : gmap Z ExecIdentity) (maxLines : Z) (Hmax : 0 < maxLines).
Let N := Z.to_nat maxLines.

Record good (s : forest) : Prop := {
  g_len : (length (lines s) <= N)%nat;
  g_ident : forall pid, identOf (execCopy s) pid = identity edges exec pid;
  g_base : forall k, execCopy s !! k = None -> seedExecFromEdges edges exec !! k = None;
}.

(** From [s] the code adds [L], up to the limit, and restores the path. *)
Record emits (s : forest) (L : list bytes) (s' : forest) : Prop := {
  e_good : good s';
  e_path : pathSet s' = pathSet s;
  e_lines : lines s' = take N (lines s ++ L);
}.

Lemma full_spec s : good s -> full maxLines s = true <-> length (lines s) = N.
Proof. intros [Hl _ _]. unfold full, len. rewrite Z.leb_le. unfold N in *. lia. Qed.

Lemma emits_full s L : good s -> full maxLines s = true -> emits s L s.
Proof.
  intros Hg Hf. apply full_spec in Hf; [|done]. split; [done..|].
  rewrite take_app_le by lia. by rewrite take_ge by lia.
Qed.

Lemma emits_nil s : good s -> emits s [] s.
Proof. intros Hg. split; [done..|]. rewrite app_nil_r, take_ge; [done|apply Hg]. Qed.

Lemma seedMissing_good s c id : good s -> (execCopy s !! c = None -> id = noIdentity) -> good (seedMissing s c id).
Proof.
  intros [Hl Hi Hb] Hid. unfold seedMissing. destruct (execCopy s !! c) as [i|] eqn:E; [by split|].
  split; cbn [lines execCopy]; [done| |]; intros k.
  - destruct (decide (k = c)) as [->|Hk]; unfold identOf in *; [|rewrite lookup_insert_ne by done; apply Hi].
    rewrite lookup_insert_eq, Hid by done. rewrite <- Hi. by rewrite E.
  - destruct (decide (k = c)) as [->|Hk]; [by rewrite lookup_insert_eq|].
    rewrite lookup_insert_ne by done. apply Hb.
Qed.

Lemma seedMissing_same s c id : lines (seedMissing s c id) = lines s /\ pathSet (seedMissing s c id) = pathSet s.
Proof. unfold seedMissing. by destruct (execCopy s !! c). Qed.

(** One child, then the rest of its siblings. *)
Lemma emitLoop_emits rec pid cont n (below : gset Z -> Z -> bytes -> list bytes) P :
  (forall c cont s, good s -> c ∉ P -> pathSet s = {[c]} ∪ P -> emits s (below ({[c]} ∪ P) c cont) (rec c cont s)) ->
  forall ch i s, good s -> pathSet s = P ->
  emits s (concat (imap (fun j => render_child edges exec below P cont n (i + j)) ch))
    (emitLoop edges maxLines rec pid cont n i ch s).
Proof.
  intros Hrec ch. induction ch as [|c ch IH]; intros i s Hg HP; [by apply emits_nil|].
  cbn [emitLoop]. destruct (full maxLines s) eqn:Ef; [by apply emits_full|].
  cbn [imap concat]. rewrite Nat.add_0_r.
  rewrite (imap_ext _ (fun j => render_child edges exec below P cont n (S i + j)) ch)
    by (intros; cbn; f_equal; lia).
  unfold render_child at 1. rewrite HP. destruct (decide (c ∈ P)) as [Hc|Hc]; [by apply IH|].
  destruct (arms _) as [arm ext] eqn:Ea. cbn [fst snd app].
  set (s1 := seedMissing s c _). assert (Hg1 : good s1).
  { apply seedMissing_good; [done|]. intros Hn. apply (g_base _ Hg) in Hn. by erewrite edgeChildComm_missing. }
  destruct (seedMissing_same s c (mkIdentity (edgeChildComm edges pid c) [])) as [El Ep]. fold s1 in El, Ep.
  set (s2 := enter s1 c _). assert (Hlt : (length (lines s) < N)%nat).
  { destruct (full_spec s Hg) as [_ H]. pose proof (g_len _ Hg). destruct (decide (length (lines s) = N)); [|lia].
    rewrite H in Ef by done. done. }
  assert (El2 : lines s2 = lines s ++ [cont ++ arm ++ label edges exec c]).
  { cbn. rewrite El. by erewrite nodeLine_label by apply (g_ident _ Hg1). }
  assert (Hg2 : good s2).
  { split; [rewrite El2, length_app; cbn; lia|apply (g_ident _ Hg1)|apply (g_base _ Hg1)]. }
  assert (Hleave : ({[c]} ∪ P) ∖ {[c]} = P) by set_solver.
  assert (Hp2 : pathSet s2 = {[c]} ∪ P) by (cbn; by rewrite Ep, HP).
  destruct (full maxLines s2) eqn:Ef2.
  - apply full_spec in Ef2; [|done]. split; [|cbn [leave pathSet]; rewrite Hp2; congruence|].
    + split; [apply (g_len _ Hg2)|apply (g_ident _ Hg2)|apply (g_base _ Hg2)].
    + cbn [leave lines]. rewrite El2 in Ef2 |- *. symmetry. by apply take_snoc.
  - destruct (Hrec c (cont ++ ext) s2 Hg2 Hc Hp2) as [Hg3 Hp3 Hl3].
    assert (Hgl : good (leave (rec c (cont ++ ext) s2) c)) by (by destruct Hg3).
    destruct (IH (S i) _ Hgl) as [Hg4 Hp4 Hl4]; [cbn; rewrite Hp3; congruence|].
    split; [done|rewrite Hp4; cbn; rewrite Hp3; congruence|].
    rewrite Hl4. cbn [leave lines]. rewrite Hl3, take_take_app, El2. f_equal. by rewrite <- !app_assoc.
Qed.

Lemma emitSubtree_emits depth pid cont s : good s ->
  emits s (render_below edges exec depth (pathSet s) pid cont)
    (emitSubtree edges (adjacency edges) maxLines depth pid cont s).
Proof.
  revert pid cont s. induction depth as [|depth IH]; intros pid cont s Hg; [by apply emits_nil|].
  cbn [emitSubtree render_below]. rewrite adjacency_children.
  refine (emitLoop_emits _ pid cont _ (render_below edges exec depth) (pathSet s) _ _ 0%nat s Hg eq_refl).
  intros c cont' s' Hg' _ Hp. rewrite <- Hp. by apply IH.
Qed.

Lemma emitRoots_lines depth roots s : good s ->
  lines (emitRoots edges (adjacency edges) maxLines depth roots s) =
    take N (lines s ++ (roots ≫= fun r => label edges exec r :: render_below edges exec depth {[r]} r [])).
Proof.
  revert s. induction roots as [|r roots IH]; intros s Hg; [by destruct (emits_nil s Hg)|].
  cbn [emitRoots mbind list_bind]. destruct (full maxLines s) eqn:Ef; [by destruct (emits_full s ((label edges exec r :: render_below edges exec depth {[r]} r []) ++ (roots ≫= fun r => label edges exec r :: render_below edges exec depth {[r]} r [])) Hg Ef)|].
  set (s1 := seedMissing s r noIdentity).
  assert (Hg1 : good s1) by (by apply seedMissing_good).
  destruct (seedMissing_same s r noIdentity) as [El _]. fold s1 in El.
  set (s2 := mkForest _ _ _). assert (El2 : lines s2 = lines s ++ [label edges exec r]).
  { cbn. rewrite El. by erewrite nodeLine_label by apply (g_ident _ Hg1). }
  assert (Hlt : (length (lines s) < N)%nat).
  { destruct (full_spec s Hg) as [_ H]. pose proof (g_len _ Hg). destruct (decide (length (lines s) = N)); [|lia].
    rewrite H in Ef by done. done. }
  assert (Hg2 : good s2).
  { split; [rewrite El2, length_app; cbn; lia|apply (g_ident _ Hg1)|apply (g_base _ Hg1)]. }
  destruct (full maxLines s2) eqn:Ef2.
  - apply full_spec in Ef2; [|done]. rewrite El2 in Ef2 |- *. cbn [app].
    symmetry. by apply take_snoc.
  - destruct (emitSubtree_emits depth r [] s2 Hg2) as [Hg3 _ Hl3]. cbn [pathSet s2] in Hl3.
    rewrite IH by done. rewrite Hl3, take_take_app, El2. f_equal. by rewrite <- !app_assoc.
Qed.
End Emission.

(** ** The depth is enough *)

Lemma imap_elem_ext {A B} (f g : nat -> A -> B) l : (forall i x, x ∈ l -> f i x = g i x) -> imap f l = imap g l.
Proof. intros H. apply imap_ext. intros i x Hx. apply H. by eapply list_elem_of_lookup_2. Qed.

Lemma render_below_depth edges exec d d' P pid cont :
  (size (list_to_set (ChildTGID <$> edges) ∖ P : gset Z) < d)%nat ->
  (size (list_to_set (ChildTGID <$> edges) ∖ P : gset Z) < d')%nat ->
  render_below edges exec d P pid cont = render_below edges exec d' P pid cont.
Proof.
  revert d' P pid cont. induction d as [|d IH]; intros [|d'] P pid cont Hd Hd'; [lia..|].
  cbn [render_below]. f_equal. apply imap_elem_ext. intros i c Hc. unfold render_child.
  destruct (decide (c ∈ P)) as [|HP]; [done|]. f_equal.
  assert (Hin : c ∈ (list_to_set (ChildTGID <$> edges) : gset Z) ∖ P).
  { apply elem_of_children in Hc as (e & He & _ & _ & <-). apply elem_of_difference. split; [|done].
    apply elem_of_list_to_set. by apply list_elem_of_fmap_2. }
  assert (Hsz : (size (list_to_set (ChildTGID <$> edges) ∖ ({[c]} ∪ P) : gset Z) <
          size (list_to_set (ChildTGID <$> edges) ∖ P : gset Z))%nat).
  { apply subset_size. set_solver. }
  apply IH; lia.
Qed.

Lemma size_children_le edges : (size (list_to_set (ChildTGID <$> edges) : gset Z) <= length edges)%nat.
Proof.
  induction edges as [|e l IH]; [done|]. cbn [fmap list_fmap list_to_set length].
  rewrite size_union_alt, size_singleton.
  assert (size ((list_to_set (ChildTGID <$> l) : gset Z) ∖ {[ChildTGID e]}) <= size (list_to_set (ChildTGID <$> l) : gset Z))%nat
    by (apply subseteq_size; set_solver).
  change (list_fmap Edge Z ChildTGID l) with (ChildTGID <$> l). lia.
Qed.

Lemma render_forest_depth edges exec d d' : (length edges < d)%nat -> (length edges < d')%nat ->
  render_forest edges exec d = render_forest edges exec d'.
Proof.
  intros Hd Hd'. unfold render_forest. apply list_bind_ext; [|done]. intros r. f_equal.
  pose proof (size_children_le edges).
  assert (size (list_to_set (ChildTGID <$> edges) ∖ {[r]} : gset Z) <= size (list_to_set (ChildTGID <$> edges) : gset Z))%nat
    by (apply subseteq_size; set_solver).
  apply render_below_depth; lia.
Qed.

Lemma start_good edges exec maxLines : good edges exec maxLines (mkForest [] (seedExecFromEdges edges exec) ∅).
Proof. split; cbn [lines execCopy length]; [lia|intros; apply identOf_seed|done]. Qed.

(** the stateful, truncating traversal prints the first [maxLines] lines
    of the forest of simple paths from the roots, with children in increasing
    order and every process under the name the caller or the first edge gives
    it, for every order of the map iterations and every sufficient depth of the
    forest; when sampled edges have no root it prints one line saying so.  It
    never prints more than [maxLines] lines. *)
Theorem forest_lines_reference `{!RangeOrder Z} edges exec maxLines depth : (length edges < depth)%nat ->
  FormatForestLines edges exec maxLines =
    (if decide (maxLines <= 0) then []
     else if decide (root_ids edges = [] /\ edges <> []) then [str "(unable to derive roots from sampled edges)"]
     else take (Z.to_nat maxLines) (render_forest edges exec depth)) /\
  len (FormatForestLines edges exec maxLines) <= Z.max 0 maxLines.
Proof.
  intros Hd. assert (HE : forall a b : list bytes, a = b -> len b <= Z.max 0 maxLines -> a = b /\ len a <= Z.max 0 maxLines) by (by intros ? ? ->).
  unfold FormatForestLines. apply HE; clear HE.
  - destruct (Z.leb_spec maxLines 0); [by rewrite decide_True|]. rewrite (decide_False (P := maxLines <= 0)) by lia.
    rewrite rootsOf_root_ids, (emitRoots_lines edges exec maxLines) by (done || apply start_good). cbn [lines app].
    fold (render_forest edges exec (S (length edges))).
    rewrite (render_forest_depth edges exec (S (length edges)) depth) by lia.
    destruct (decide (root_ids edges = [] /\ edges <> [])) as [[Hr He]|Hr].
    + rewrite decide_True; [done|]. unfold render_forest. rewrite Hr. split; [|done]. by destruct (Z.to_nat maxLines).
    + rewrite decide_False; [done|]. intros [Ht He]. apply Hr. split; [|done].
      unfold render_forest in Ht. destruct (root_ids edges) as [|r l]; [done|].
      cbn in Ht. destruct (Z.to_nat maxLines) eqn:En; [lia|]. done.
  - case_decide; [rewrite len_nil; lia|]. case_decide; [rewrite len_cons, len_nil; lia|]. rewrite len_take. lia.
Qed.

Module Witness.
Definition e (p c : Z) (pn cn : bytes) : Edge := mkEdge p c pn cn 0 0.
(** A shell that starts two tools, with a cycle between them and a duplicate. *)
Definition edges : list Edge :=
  [e 1 2 (str "init") (str "sh"); e 1 2 (str "init") (str "bash"); e 2 3 [] (str "make");
   e 1 5 [] []; e 3 2 [] []; e 2 4 [] (str "cc")].
Definition known : gmap Z ExecIdentity := {[4 := mkIdentity (str "cc1") (str "/usr/bin/cc1")]}.

Lemma forest_lines_reference_witness :
  @FormatForestLines plain_order edges known 4 =
    [str "init(1)"; str "├── sh(2)"; str "│   ├── make(3)"; str "│   └── cc1(4) /usr/bin/cc1"] /\
  len (@FormatForestLines plain_order edges known 4) <= 4.
Proof.
  destruct (@forest_lines_reference plain_order edges known 4 7) as [H1 H2]; [cbn; lia|].
  split; [rewrite H1; by vm_compute|exact H2].
Defined.
End Witness.
