(* ===== verification/RunStats.v ===== *)
(** internal/agent/agent_linux_state.go: the counters of a run ([runStats]) and
    the summary written at shutdown; the counter maps of agent_linux_digest.go.

    The integer fields of the struct are the constructors of [counter], and
    their values a function [ct].  Every method holds the struct's mutex for
    its whole body, so a method is one step.  The counters count events one by
    one from zero, so they are unbounded integers here: an overflow of 64 bits
    is out of reach of a run.  A Go map that is created on first use is the
    empty map before it. *)
From S2P Require Import Prelude GoStrings Policy BpfMap.

Open Scope Z_scope.

Inductive counter :=
  | execN | tcpN | udpN | httpN | tlsN | tlsConfidenceFullN | tlsConfidencePartialN | tlsConfidenceInferredN
  | tlsConfidenceUnknownN | tlsConfidenceUnknownKTLSN | procForkN | fsN | ktlsN | ktlsRingbufReserveFailuresN
  | connect4TupleUpdateFailuresN | udpRingbufReserveFailuresN | dnsRingbufReserveFailuresN
  | connectRingbufReserveFailuresN | httpRingbufReserveFailuresN | tlsRingbufReserveFailuresN
  | execRingbufReserveFailuresN | forkRingbufReserveFailuresN | fsRingbufReserveFailuresN
  | udpSendmsgMultiIovecObservedN | sendmmsgMultiMessageN | sendmmsgUnobservedExtraN
  | tlsWritevMultiIovecObservedN | sendfileObservedN | spliceObservedN | sendmmsgFirstOnlyN
  | ipv6ConnectObservedN | ipv6SendmsgObservedN | ipv6EventCountN | ipv6RingbufReserveFailuresN
  | sendpageObservedN | ioUringSetupObservedN | ioUringSendN | ioUringTLSHelloN
  | ioUringRingbufReserveFailuresN | ioUringTLSRingbufReserveFailuresN | egressBackstopN
  | egressBackstopReserveFailuresN | bpfSelfDefenseN | bpfSelfDefenseReserveFailuresN
  | tcpDNSResponsesObservedN | tcpDNSSkippedShortReadN | quicCandidateN | quicObservedN | bpfAuditN
  | bpfMapIntegrityFailuresN | bpfDNSCacheUpdateFailuresN | bpfAuditRingbufReserveFailuresN
  | bpfHeartbeatFailures | tcpStateN | tcpStateConfirmed | tcpStateRefused | tcpStateRingbufReserveFailuresN
  | dnsDriftN.

Scheme Equality for counter.
#[global] Instance counter_dec : EqDecision counter := counter_eq_dec.

Inductive TLSConfidence := TLSConfidenceFull | TLSConfidencePartial | TLSConfidenceInferred | TLSConfidenceUnknown.

#[global] Instance TLSConfidence_eq_dec : EqDecision TLSConfidence.
Proof. solve_decision. Defined.

Record runStats := mkRunStats {
  ct : counter -> Z;
  egressBackstopDsts : gset bytes;
  ioUringTLSSNISet : gset bytes;
  policyCounts : gmap bytes Z;
  droppedCounts : gmap bytes Z;
  tcpResultCounts : gmap bytes Z;
  allowlistCompileTime : Z;
  allowlistIPCount : Z;
  allowlistDomains : list bytes;
  allowlistUnresolvedDomains : list bytes;
  allowlistWildcardRiskDomains : list bytes;
  dstDomainCounts : gmap bytes Z;
  runnerEnv : bytes;
}.

Definition newRunStats : runStats := mkRunStats (fun _ => 0) ∅ ∅ ∅ ∅ ∅ 0 0 [] [] [] ∅ [].

(** ** Field updates *)

Definition setc (c : counter) (n : Z) (s : runStats) : runStats :=
  mkRunStats (fun c' => if decide (c' = c) then n else ct s c') (egressBackstopDsts s) (ioUringTLSSNISet s) (policyCounts s)
    (droppedCounts s) (tcpResultCounts s) (allowlistCompileTime s) (allowlistIPCount s) (allowlistDomains s)
    (allowlistUnresolvedDomains s) (allowlistWildcardRiskDomains s) (dstDomainCounts s) (runnerEnv s).

(** [s.c++]. *)
Definition bumpc (c : counter) (s : runStats) : runStats := setc c (ct s c + 1) s.

(** [m[k]++] on a map of integers. *)
Definition incr (k : bytes) (m : gmap bytes Z) : gmap bytes Z := <[k := default 0 (m !! k) + 1]> m.

Definition with_maps (s : runStats) (dsts snis : gset bytes) (pol drop res dom : gmap bytes Z) : runStats :=
  mkRunStats (ct s) dsts snis pol drop res (allowlistCompileTime s) (allowlistIPCount s) (allowlistDomains s)
    (allowlistUnresolvedDomains s) (allowlistWildcardRiskDomains s) dom (runnerEnv s).

(** ** The methods *)

Definition addDropped (kind : bytes) (s : runStats) : runStats :=
  if decide (TrimSpace kind = []) then s
  else with_maps s (egressBackstopDsts s) (ioUringTLSSNISet s) (policyCounts s) (incr kind (droppedCounts s)) (tcpResultCounts s) (dstDomainCounts s).

Definition addExec : runStats -> runStats := bumpc execN.
Definition addProcFork : runStats -> runStats := bumpc procForkN.
Definition addFS : runStats -> runStats := bumpc fsN.
Definition addKTLS : runStats -> runStats := bumpc ktlsN.
Definition addIPv6Event : runStats -> runStats := bumpc ipv6EventCountN.
Definition addIoUringSend : runStats -> runStats := bumpc ioUringSendN.
Definition addBpfSelfDefense : runStats -> runStats := bumpc bpfSelfDefenseN.
Definition addQUICCandidate : runStats -> runStats := bumpc quicCandidateN.
Definition addQUICObserved : runStats -> runStats := bumpc quicObservedN.
Definition addBPFHeartbeatFailure : runStats -> runStats := bumpc bpfHeartbeatFailures.
Definition addBPFAudit : runStats -> runStats := bumpc bpfAuditN.
Definition addBPFMapIntegrityFailure : runStats -> runStats := bumpc bpfMapIntegrityFailuresN.
Definition addDNSCacheUpdateFailure : runStats -> runStats := bumpc bpfDNSCacheUpdateFailuresN.
Definition addDNSDrift : runStats -> runStats := bumpc dnsDriftN.

Definition setKTLSRingbufReserveFailures (n : Z) : runStats -> runStats := setc ktlsRingbufReserveFailuresN n.
Definition setConnect4TupleUpdateFailures (n : Z) : runStats -> runStats := setc connect4TupleUpdateFailuresN n.
Definition setUDPRingbufReserveFailures (n : Z) : runStats -> runStats := setc udpRingbufReserveFailuresN n.
Definition setDNSRingbufReserveFailures (n : Z) : runStats -> runStats := setc dnsRingbufReserveFailuresN n.
Definition setConnectRingbufReserveFailures (n : Z) : runStats -> runStats := setc connectRingbufReserveFailuresN n.
Definition setHTTPRingbufReserveFailures (n : Z) : runStats -> runStats := setc httpRingbufReserveFailuresN n.
Definition setTLSRingbufReserveFailures (n : Z) : runStats -> runStats := setc tlsRingbufReserveFailuresN n.
Definition setExecRingbufReserveFailures (n : Z) : runStats -> runStats := setc execRingbufReserveFailuresN n.
Definition setForkRingbufReserveFailures (n : Z) : runStats -> runStats := setc forkRingbufReserveFailuresN n.
Definition setFSRingbufReserveFailures (n : Z) : runStats -> runStats := setc fsRingbufReserveFailuresN n.
Definition setUDPSendmsgMultiIovecObserved (n : Z) : runStats -> runStats := setc udpSendmsgMultiIovecObservedN n.
Definition setSendmmsgMultiMessage (n : Z) : runStats -> runStats := setc sendmmsgMultiMessageN n.
Definition setSendmmsgUnobservedExtra (n : Z) : runStats -> runStats := setc sendmmsgUnobservedExtraN n.
Definition setTLSWritevMultiIovecObserved (n : Z) : runStats -> runStats := setc tlsWritevMultiIovecObservedN n.
Definition setIPv6ConnectObserved (n : Z) : runStats -> runStats := setc ipv6ConnectObservedN n.
Definition setIPv6SendmsgObserved (n : Z) : runStats -> runStats := setc ipv6SendmsgObservedN n.
Definition setIPv6RingbufReserveFailures (n : Z) : runStats -> runStats := setc ipv6RingbufReserveFailuresN n.
Definition setSendpageObserved (n : Z) : runStats -> runStats := setc sendpageObservedN n.
Definition setIoUringSetupObserved (n : Z) : runStats -> runStats := setc ioUringSetupObservedN n.
Definition setIoUringTLSHelloObserved (n : Z) : runStats -> runStats := setc ioUringTLSHelloN n.
Definition setIoUringRingbufReserveFailures (n : Z) : runStats -> runStats := setc ioUringRingbufReserveFailuresN n.
Definition setEgressBackstopReserveFailures (n : Z) : runStats -> runStats := setc egressBackstopReserveFailuresN n.
Definition setBpfSelfDefenseReserveFailures (n : Z) : runStats -> runStats := setc bpfSelfDefenseReserveFailuresN n.
Definition setIoUringTLSRingbufReserveFailures (n : Z) : runStats -> runStats := setc ioUringTLSRingbufReserveFailuresN n.
Definition setTCPDNSResponsesObserved (n : Z) : runStats -> runStats := setc tcpDNSResponsesObservedN n.
Definition setTCPDNSSkippedShortRead (n : Z) : runStats -> runStats := setc tcpDNSSkippedShortReadN n.
Definition setTCPStateRingbufReserveFailures (n : Z) : runStats -> runStats := setc tcpStateRingbufReserveFailuresN n.
Definition setBPFAuditRingbufReserveFailures (n : Z) : runStats -> runStats := setc bpfAuditRingbufReserveFailuresN n.

Definition ktlsRingbufReserveFailures (s : runStats) : Z := ct s ktlsRingbufReserveFailuresN.
Definition udpRingbufReserveFailures (s : runStats) : Z := ct s udpRingbufReserveFailuresN.
Definition dnsRingbufReserveFailures (s : runStats) : Z := ct s dnsRingbufReserveFailuresN.
Definition connectRingbufReserveFailures (s : runStats) : Z := ct s connectRingbufReserveFailuresN.
Definition httpRingbufReserveFailures (s : runStats) : Z := ct s httpRingbufReserveFailuresN.
Definition tlsRingbufReserveFailures (s : runStats) : Z := ct s tlsRingbufReserveFailuresN.
Definition execRingbufReserveFailures (s : runStats) : Z := ct s execRingbufReserveFailuresN.
Definition forkRingbufReserveFailures (s : runStats) : Z := ct s forkRingbufReserveFailuresN.
Definition fsRingbufReserveFailures (s : runStats) : Z := ct s fsRingbufReserveFailuresN.
Definition ioUringRingbufReserveFailures (s : runStats) : Z := ct s ioUringRingbufReserveFailuresN.
Definition egressBackstopCount (s : runStats) : Z := ct s egressBackstopN.
Definition egressBackstopReserveFailures (s : runStats) : Z := ct s egressBackstopReserveFailuresN.
Definition bpfSelfDefenseCount (s : runStats) : Z := ct s bpfSelfDefenseN.
Definition bpfSelfDefenseReserveFailures (s : runStats) : Z := ct s bpfSelfDefenseReserveFailuresN.
Definition ioUringTLSRingbufReserveFailures (s : runStats) : Z := ct s ioUringTLSRingbufReserveFailuresN.
Definition quicObservedTotal (s : runStats) : Z := ct s quicObservedN.
Definition tcpStateRingbufReserveFailures (s : runStats) : Z := ct s tcpStateRingbufReserveFailuresN.
Definition bpfAuditRingbufReserveFailures (s : runStats) : Z := ct s bpfAuditRingbufReserveFailuresN.

Definition setRunnerEnv (env : bytes) (s : runStats) : runStats :=
  mkRunStats (ct s) (egressBackstopDsts s) (ioUringTLSSNISet s) (policyCounts s) (droppedCounts s) (tcpResultCounts s)
    (allowlistCompileTime s) (allowlistIPCount s) (allowlistDomains s) (allowlistUnresolvedDomains s)
    (allowlistWildcardRiskDomains s) (dstDomainCounts s) env.

Definition addPolicyLocked (cl : Class) (s : runStats) : runStats :=
  with_maps s (egressBackstopDsts s) (ioUringTLSSNISet s) (incr (Class_string cl) (policyCounts s)) (droppedCounts s) (tcpResultCounts s) (dstDomainCounts s).

Definition addTCP (cl : Class) (s : runStats) : runStats := addPolicyLocked cl (bumpc tcpN s).

Definition addTCPResult (bucket : bytes) (s : runStats) : runStats :=
  if decide (TrimSpace bucket = []) then s
  else with_maps s (egressBackstopDsts s) (ioUringTLSSNISet s) (policyCounts s) (droppedCounts s) (incr bucket (tcpResultCounts s)) (dstDomainCounts s).

Definition addUDP (cl : Class) (s : runStats) : runStats := addPolicyLocked cl (bumpc udpN s).

Definition addHTTP (cl : Class) (s : runStats) : runStats := addPolicyLocked cl (bumpc httpN s).

Definition addTLS (cl : Class) (conf : TLSConfidence) (ktlsOverride : bool) (s : runStats) : runStats :=
  let s := bumpc tlsN s in
  let s := match conf with
           | TLSConfidenceFull => bumpc tlsConfidenceFullN s
           | TLSConfidencePartial => bumpc tlsConfidencePartialN s
           | TLSConfidenceInferred => bumpc tlsConfidenceInferredN s
           | TLSConfidenceUnknown =>
             let s := bumpc tlsConfidenceUnknownN s in
             if ktlsOverride then bumpc tlsConfidenceUnknownKTLSN s else s
           end in
  addPolicyLocked cl s.

Definition setPartialEgressObserved (sendfile splice sendmmsg : Z) (s : runStats) : runStats :=
  setc sendmmsgFirstOnlyN sendmmsg (setc spliceObservedN splice (setc sendfileObservedN sendfile s)).

Definition addIoUringTLSSNI (sni : bytes) (s : runStats) : runStats :=
  if decide (sni = []) then s
  else with_maps s (egressBackstopDsts s) ({[sni]} ∪ ioUringTLSSNISet s) (policyCounts s) (droppedCounts s) (tcpResultCounts s) (dstDomainCounts s).

Definition addEgressBackstop (dst : bytes) (s : runStats) : runStats :=
  let s := bumpc egressBackstopN s in
  if decide (dst = []) then s
  else with_maps s ({[dst]} ∪ egressBackstopDsts s) (ioUringTLSSNISet s) (policyCounts s) (droppedCounts s) (tcpResultCounts s) (dstDomainCounts s).

Definition egressBackstopDstList `{!RangeOrder bytes} (s : runStats) : list bytes :=
  if decide (egressBackstopDsts s = ∅) then [] else Sort (set_range 0 (egressBackstopDsts s)).

Definition addTCPState (confirmed refused : bool) (s : runStats) : runStats :=
  let s := bumpc tcpStateN s in
  let s := if confirmed then bumpc tcpStateConfirmed s else s in
  if refused then bumpc tcpStateRefused s else s.

Definition setAllowlistCompileSnapshot (t ipCount : Z) (domains unresolved wildcardRisk : list bytes) (s : runStats) : runStats :=
  mkRunStats (ct s) (egressBackstopDsts s) (ioUringTLSSNISet s) (policyCounts s) (droppedCounts s) (tcpResultCounts s)
    t ipCount domains unresolved wildcardRisk (dstDomainCounts s) (runnerEnv s).

Definition incDomainCount (domain : bytes) (s : runStats) : runStats :=
  if decide (domain = []) then s
  else with_maps s (egressBackstopDsts s) (ioUringTLSSNISet s) (policyCounts s) (droppedCounts s) (tcpResultCounts s) (incr domain (dstDomainCounts s)).

(** ** The summary *)

Definition SumRingbufReserveFailuresDetectPath
    (udp dns connect http tlsRingbuf execRingbuf forkRingbuf fsRingbuf bpfAuditRingbuf : Z) : Z :=
  udp + dns + connect + http + tlsRingbuf + execRingbuf + forkRingbuf + fsRingbuf + bpfAuditRingbuf.

Record BPFStatus := mkBPFStatus { bs_Name : bytes; bs_OK : bool; bs_Detail : bytes; bs_BTFAvailable : bool }.

Definition SchemaVersion : Z := 2.

(** The fields [snapshotSummary] sets; the others are zero. *)
Record Summary := mkSummary {
  sm_Version : Z; sm_SchemaVersion : Z; sm_ExecEvents : Z; sm_TCPEvents : Z; sm_UDPEvents : Z;
  sm_HTTPEvents : Z; sm_TLSEvents : Z; sm_KTLSOffloadEvents : Z; sm_KTLSRingbufReserveFailures : Z;
  sm_TLSConfidenceFull : Z; sm_TLSConfidencePartial : Z; sm_TLSConfidenceInferred : Z;
  sm_TLSConfidenceUnknown : Z; sm_ProcForkEvents : Z; sm_Connect4TupleUpdateFailures : Z;
  sm_UDPRingbufReserveFailures : Z; sm_DNSRingbufReserveFailures : Z; sm_ConnectRingbufReserveFailures : Z;
  sm_HTTPRingbufReserveFailures : Z; sm_TLSRingbufReserveFailures : Z; sm_ExecRingbufReserveFailures : Z;
  sm_ForkRingbufReserveFailures : Z; sm_FSRingbufReserveFailures : Z; sm_RingbufReserveFailuresTotal : Z;
  sm_UDPSendmsgMultiIovecObserved : Z; sm_SendmmsgMultiMessage : Z; sm_SendmmsgUnobservedExtra : Z;
  sm_TLSWritevMultiIovecObserved : Z; sm_SendfileObserved : Z; sm_SpliceObserved : Z;
  sm_SendmmsgFirstOnly : Z; sm_IPv6ConnectObserved : Z; sm_IPv6SendmsgObserved : Z; sm_IPv6Events : Z;
  sm_IPv6RingbufReserveFailures : Z; sm_SendpageObserved : Z; sm_IoUringSetupObserved : Z;
  sm_IoUringSendTotal : Z; sm_IoUringRingbufReserveFailures : Z; sm_IoUringTLSRingbufReserveFailures : Z;
  sm_IoUringTLSHelloObserved : Z; sm_TCPDNSResponsesObserved : Z; sm_TCPDNSSkippedShortRead : Z;
  sm_TCPStateTotal : Z; sm_TCPStateConfirmed : Z; sm_TCPStateRefused : Z;
  sm_TCPStateRingbufReserveFailures : Z; sm_QuicObserved : Z; sm_DNSDriftObservations : Z;
  sm_BPFAuditEvents : Z; sm_BPFHeartbeatFailures : Z; sm_BPFMapIntegrityFailures : Z;
  sm_BPFDNSCacheUpdateFailures : Z; sm_BPFAuditRingbufReserveFailures : Z;
  sm_DroppedCounts : gmap bytes Z;
  sm_PolicyCounts : gmap bytes Z;
  sm_KernelRelease : bytes;
  sm_BPF : list BPFStatus;
}.

(** The maps are copied. *)
Definition snapshotSummary (s : runStats) (kernel : bytes) (bpf : list BPFStatus) : Summary :=
  let rbTotal := SumRingbufReserveFailuresDetectPath (ct s udpRingbufReserveFailuresN) (ct s dnsRingbufReserveFailuresN) (ct s connectRingbufReserveFailuresN) (ct s httpRingbufReserveFailuresN)
    (ct s tlsRingbufReserveFailuresN) (ct s execRingbufReserveFailuresN) (ct s forkRingbufReserveFailuresN) (ct s fsRingbufReserveFailuresN) (ct s bpfAuditRingbufReserveFailuresN) in
  {|
    sm_Version := 2; sm_SchemaVersion := SchemaVersion; sm_ExecEvents := ct s execN; sm_TCPEvents := ct s tcpN;
    sm_UDPEvents := ct s udpN; sm_HTTPEvents := ct s httpN; sm_TLSEvents := ct s tlsN;
    sm_KTLSOffloadEvents := ct s ktlsN; sm_KTLSRingbufReserveFailures := ct s ktlsRingbufReserveFailuresN;
    sm_TLSConfidenceFull := ct s tlsConfidenceFullN; sm_TLSConfidencePartial := ct s tlsConfidencePartialN;
    sm_TLSConfidenceInferred := ct s tlsConfidenceInferredN;
    sm_TLSConfidenceUnknown := ct s tlsConfidenceUnknownN; sm_ProcForkEvents := ct s procForkN;
    sm_Connect4TupleUpdateFailures := ct s connect4TupleUpdateFailuresN;
    sm_UDPRingbufReserveFailures := ct s udpRingbufReserveFailuresN;
    sm_DNSRingbufReserveFailures := ct s dnsRingbufReserveFailuresN;
    sm_ConnectRingbufReserveFailures := ct s connectRingbufReserveFailuresN;
    sm_HTTPRingbufReserveFailures := ct s httpRingbufReserveFailuresN;
    sm_TLSRingbufReserveFailures := ct s tlsRingbufReserveFailuresN;
    sm_ExecRingbufReserveFailures := ct s execRingbufReserveFailuresN;
    sm_ForkRingbufReserveFailures := ct s forkRingbufReserveFailuresN;
    sm_FSRingbufReserveFailures := ct s fsRingbufReserveFailuresN; sm_RingbufReserveFailuresTotal := rbTotal;
    sm_UDPSendmsgMultiIovecObserved := ct s udpSendmsgMultiIovecObservedN;
    sm_SendmmsgMultiMessage := ct s sendmmsgMultiMessageN;
    sm_SendmmsgUnobservedExtra := ct s sendmmsgUnobservedExtraN;
    sm_TLSWritevMultiIovecObserved := ct s tlsWritevMultiIovecObservedN;
    sm_SendfileObserved := ct s sendfileObservedN; sm_SpliceObserved := ct s spliceObservedN;
    sm_SendmmsgFirstOnly := ct s sendmmsgFirstOnlyN; sm_IPv6ConnectObserved := ct s ipv6ConnectObservedN;
    sm_IPv6SendmsgObserved := ct s ipv6SendmsgObservedN; sm_IPv6Events := ct s ipv6EventCountN;
    sm_IPv6RingbufReserveFailures := ct s ipv6RingbufReserveFailuresN;
    sm_SendpageObserved := ct s sendpageObservedN; sm_IoUringSetupObserved := ct s ioUringSetupObservedN;
    sm_IoUringSendTotal := ct s ioUringSendN;
    sm_IoUringRingbufReserveFailures := ct s ioUringRingbufReserveFailuresN;
    sm_IoUringTLSRingbufReserveFailures := ct s ioUringTLSRingbufReserveFailuresN;
    sm_IoUringTLSHelloObserved := ct s ioUringTLSHelloN;
    sm_TCPDNSResponsesObserved := ct s tcpDNSResponsesObservedN;
    sm_TCPDNSSkippedShortRead := ct s tcpDNSSkippedShortReadN; sm_TCPStateTotal := ct s tcpStateN;
    sm_TCPStateConfirmed := ct s tcpStateConfirmed; sm_TCPStateRefused := ct s tcpStateRefused;
    sm_TCPStateRingbufReserveFailures := ct s tcpStateRingbufReserveFailuresN;
    sm_QuicObserved := ct s quicObservedN; sm_DNSDriftObservations := ct s dnsDriftN;
    sm_BPFAuditEvents := ct s bpfAuditN; sm_BPFHeartbeatFailures := ct s bpfHeartbeatFailures;
    sm_BPFMapIntegrityFailures := ct s bpfMapIntegrityFailuresN;
    sm_BPFDNSCacheUpdateFailures := ct s bpfDNSCacheUpdateFailuresN;
    sm_BPFAuditRingbufReserveFailures := ct s bpfAuditRingbufReserveFailuresN;
    sm_DroppedCounts := droppedCounts s; sm_PolicyCounts := policyCounts s; sm_KernelRelease := kernel;
    sm_BPF := bpf
  |}.

(** ** The digest (agent_linux_digest.go) *)

(** [denyReserveFailures] is [None] for a nil defend state; the result [None]
    is a nil map. *)
Definition addPositive (k : bytes) (v : Z) (m : gmap bytes Z) : gmap bytes Z := if 0 <? v then <[k := v]> m else m.

Definition droppedRows (s : runStats) : list (bytes * Z) :=
  [(str "connect", connectRingbufReserveFailures s);
   (str "udp", udpRingbufReserveFailures s);
   (str "dns", dnsRingbufReserveFailures s);
   (str "http", httpRingbufReserveFailures s);
   (str "tls", tlsRingbufReserveFailures s);
   (str "exec", execRingbufReserveFailures s);
   (str "fork", forkRingbufReserveFailures s);
   (str "fs", fsRingbufReserveFailures s);
   (str "ktls", ktlsRingbufReserveFailures s);
   (str "bpf_audit", bpfAuditRingbufReserveFailures s);
   (str "tcp_state", tcpStateRingbufReserveFailures s);
   (str "io_uring", ioUringRingbufReserveFailures s);
   (str "io_uring_tls", ioUringTLSRingbufReserveFailures s);
   (str "egress_backstop", egressBackstopReserveFailures s);
   (str "bpf_self_defense", bpfSelfDefenseReserveFailures s)].

Definition buildDroppedEventsMap (s : runStats) (denyReserveFailures : option Z) : option (gmap bytes Z) :=
  let m := foldl (fun m kv => addPositive kv.1 kv.2 m) ∅ (droppedRows s) in
  let m := match denyReserveFailures with Some n => addPositive (str "deny") n m | None => m end in
  if decide (m = ∅) then None else Some m.

Definition hookDegraded (bpf : list BPFStatus) (hookName : bytes) : bool :=
  match List.find (fun row => bool_decide (bs_Name row = hookName)) bpf with
  | Some row => negb (bs_OK row)
  | None => true
  end.

Definition capabilityEnabled (gate : bool) (bpf : list BPFStatus) (hookName : bytes) : bool :=
  gate && negb (hookDegraded bpf hookName).

Record CoverageReport := mkCoverage {
  cv_IPv4TCP : bool; cv_IPv4UDPSendmsg : bool; cv_IPv6 : bytes; cv_QUICHTTP3 : bool; cv_QuicObserved : Z;
  cv_TLSSNI : bytes; cv_IoUring : bool }.

Definition buildCoverageReport (bpf : list BPFStatus) (tlsSNIGate ioUringAttached ipv6Enforced : bool) (quicObserved : Z) : CoverageReport :=
  mkCoverage true true (if ipv6Enforced then str "enforce" else str "off") false quicObserved
    (if capabilityEnabled tlsSNIGate bpf (str "raw_tp/sys_enter (connect, sendto, http sniff, tls)") then str "full" else str "none")
    ioUringAttached.

(** * Lemmas *)

Lemma ct_setc c n s c' : ct (setc c n s) c' = if decide (c' = c) then n else ct s c'.
Proof. done. Qed.

Lemma ct_bumpc c s c' : ct (bumpc c s) c' = ct s c' + if decide (c' = c) then 1 else 0.
Proof. unfold bumpc. rewrite ct_setc. destruct (decide _) as [->|]; lia. Qed.

Lemma bumpc_maps c s : policyCounts (bumpc c s) = policyCounts s /\ droppedCounts (bumpc c s) = droppedCounts s /\
  tcpResultCounts (bumpc c s) = tcpResultCounts s.
Proof. done. Qed.

(** The sum of a counter map, and the count of one key. *)
Definition total (m : gmap bytes Z) : Z := map_fold (fun _ v acc => v + acc) 0 m.
Definition count (k : bytes) (m : gmap bytes Z) : Z := default 0 (m !! k).

Lemma total_insert k v m : m !! k = None -> total (<[k := v]> m) = v + total m.
Proof. intros Hk. unfold total. apply map_fold_insert_L; [|done]. intros. lia. Qed.

Lemma total_delete k m : total m = count k m + total (delete k m).
Proof.
  unfold count. destruct (m !! k) as [v|] eqn:E; cbn.
  - rewrite <- (insert_delete_id m k v E) at 1. rewrite total_insert by apply lookup_delete_eq. done.
  - by rewrite delete_id.
Qed.

Lemma total_incr k m : total (incr k m) = total m + 1.
Proof.
  rewrite (total_delete k m). unfold incr. rewrite <- insert_delete_eq, total_insert by apply lookup_delete_eq.
  unfold count. lia.
Qed.

Lemma count_incr k k' m : count k' (incr k m) = count k' m + if decide (k' = k) then 1 else 0.
Proof.
  unfold count, incr. destruct (decide (k' = k)) as [->|H].
  - by rewrite lookup_insert_eq.
  - rewrite lookup_insert_ne by done. lia.
Qed.

(** How often a record of the given kind was dropped. *)
Definition dropped (kind : bytes) (s : runStats) : Z := count kind (droppedCounts s).

(** The consistency of the counters: every classified event has one policy
    class, every TLS event one confidence tier, and the sub-counts stay below
    their totals. *)
Record stats_inv (s : runStats) : Prop := {
  si_policy : total (policyCounts s) = ct s tcpN + ct s udpN + ct s httpN + ct s tlsN;
  si_tiers : ct s tlsN = ct s tlsConfidenceFullN + ct s tlsConfidencePartialN + ct s tlsConfidenceInferredN + ct s tlsConfidenceUnknownN;
  si_ktls : 0 <= ct s tlsConfidenceUnknownKTLSN <= ct s tlsConfidenceUnknownN;
  si_tcp : 0 <= ct s tcpStateConfirmed /\ 0 <= ct s tcpStateRefused /\ ct s tcpStateConfirmed + ct s tcpStateRefused <= ct s tcpStateN;
}.

(** [stats] evaluates the methods on single counters. *)
Ltac stats :=
  repeat (unfold addTCP, addUDP, addHTTP, addTLS, addTCPState, addPolicyLocked, addEgressBackstop, addDropped, addTCPResult,
    incDomainCount, addIoUringTLSSNI, with_maps, dropped in * );
  repeat (progress (cbn [ct policyCounts droppedCounts tcpResultCounts] in *; rewrite ?ct_bumpc, ?ct_setc, ?total_incr, ?count_incr,
    ?(proj1 (bumpc_maps _ _)), ?(proj1 (proj2 (bumpc_maps _ _))), ?(proj2 (proj2 (bumpc_maps _ _))) in *)).

(** [decides] settles the equality tests between closed constructors. *)
Ltac decides := repeat first [rewrite decide_True by reflexivity | rewrite decide_False by discriminate].

(** ** The methods keep the counters consistent *)

Definition free_counter (c : counter) : bool :=
  negb (bool_decide (c ∈ [tcpN; udpN; httpN; tlsN; tlsConfidenceFullN; tlsConfidencePartialN; tlsConfidenceInferredN;
    tlsConfidenceUnknownN; tlsConfidenceUnknownKTLSN; tcpStateN; tcpStateConfirmed; tcpStateRefused])).

Lemma stats_inv_bumpc c s : free_counter c = true -> stats_inv s -> stats_inv (bumpc c s).
Proof.
  intros Hc [H1 H2 H3 H4].
  assert (Hk : forall c', free_counter c' = false -> ct (bumpc c s) c' = ct s c').
  { intros c' Hc'. rewrite ct_bumpc, decide_False by congruence. lia. }
  by split; rewrite !Hk by reflexivity.
Qed.

Lemma stats_inv_new : stats_inv newRunStats.
Proof. split; cbn; try lia. reflexivity. Qed.

Lemma stats_inv_addDropped k s : stats_inv s -> stats_inv (addDropped k s).
Proof. intros [H1 H2 H3 H4]. unfold addDropped. by case_decide; split. Qed.

Lemma stats_inv_addTCPResult b s : stats_inv s -> stats_inv (addTCPResult b s).
Proof. intros [H1 H2 H3 H4]. unfold addTCPResult. by case_decide; split. Qed.

Lemma stats_inv_incDomainCount d s : stats_inv s -> stats_inv (incDomainCount d s).
Proof. intros [H1 H2 H3 H4]. unfold incDomainCount. by case_decide; split. Qed.

Lemma stats_inv_addIoUringTLSSNI d s : stats_inv s -> stats_inv (addIoUringTLSSNI d s).
Proof. intros [H1 H2 H3 H4]. unfold addIoUringTLSSNI. by case_decide; split. Qed.

Lemma stats_inv_addEgressBackstop d s : stats_inv s -> stats_inv (addEgressBackstop d s).
Proof.
  intros Hs. unfold addEgressBackstop. pose proof (stats_inv_bumpc egressBackstopN s eq_refl Hs) as [H1 H2 H3 H4].
  by case_decide; split.
Qed.

Lemma stats_inv_addTCP cl s : stats_inv s -> stats_inv (addTCP cl s).
Proof. intros [H1 H2 H3 H4]. split; stats; decides; lia. Qed.
Lemma stats_inv_addUDP cl s : stats_inv s -> stats_inv (addUDP cl s).
Proof. intros [H1 H2 H3 H4]. split; stats; decides; lia. Qed.
Lemma stats_inv_addHTTP cl s : stats_inv s -> stats_inv (addHTTP cl s).
Proof. intros [H1 H2 H3 H4]. split; stats; decides; lia. Qed.

Lemma stats_inv_addTLS cl conf ktls s : stats_inv s -> stats_inv (addTLS cl conf ktls s).
Proof. intros [H1 H2 H3 H4]. destruct conf, ktls; split; stats; decides; lia. Qed.

Lemma stats_inv_addTCPState c r s : c && r = false -> stats_inv s -> stats_inv (addTCPState c r s).
Proof. intros Hcr [H1 H2 H3 H4]. destruct c, r; try discriminate Hcr; split; stats; decides; lia. Qed.

#[export] Hint Resolve stats_inv_bumpc stats_inv_addDropped stats_inv_addTCPResult stats_inv_incDomainCount stats_inv_addIoUringTLSSNI
  stats_inv_addEgressBackstop stats_inv_addTCP stats_inv_addUDP stats_inv_addHTTP stats_inv_addTLS stats_inv_addTCPState : core.
