(* ===== verification/Events.v ===== *)
(** The event log: the event types of internal/telemetry/event.go that the ring
    readers write, with the labels of their fields (event.go,
    agent_linux_ring_read.go), and the wire structs of
    agent_linux_ring_read.go and agent_linux_decode.go that [binary.Read]
    decodes.

    A timestamp is the clock reading it prints.  The [Type] of an event is the
    function [Type_] of its constructor.  [Sig] is filled in by the signer and
    left out. *)
From S2P Require Import Prelude GoStrings GoNet Decode RunStats.

Open Scope Z_scope.

(** * Labels *)

Definition TCPStateName (s : Z) : bytes :=
  if s =? 1 then str "ESTABLISHED" else if s =? 2 then str "SYN_SENT" else if s =? 3 then str "SYN_RECV"
  else if s =? 4 then str "FIN_WAIT1" else if s =? 5 then str "FIN_WAIT2" else if s =? 6 then str "TIME_WAIT"
  else if s =? 7 then str "CLOSE" else if s =? 8 then str "CLOSE_WAIT" else if s =? 9 then str "LAST_ACK"
  else if s =? 10 then str "LISTEN" else if s =? 11 then str "CLOSING" else if s =? 12 then str "NEW_SYN_RECV"
  else str "UNKNOWN".

(** [confirmed], [refused]. *)
Definition classifyTCPStateTransition (newStr : bytes) : bool * bool :=
  if decide (newStr = str "ESTABLISHED") then (true, false)
  else if decide (newStr = str "CLOSE" \/ newStr = str "CLOSE_WAIT" \/ newStr = str "TIME_WAIT") then (false, true)
  else (false, false).

Definition TLSSNIMaxLen : Z := 255.

Definition ScoreTLSConfidence (sni : bytes) : TLSConfidence :=
  if decide (sni = []) then TLSConfidenceUnknown
  else if TLSSNIMaxLen <=? len sni then TLSConfidencePartial
  else TLSConfidenceFull.

Definition fsOpName (op : Z) : bytes :=
  if op =? 1 then str "create" else if op =? 2 then str "unlink" else if op =? 3 then str "rename"
  else if op =? 4 then str "chmod" else str "unknown".

Definition egressBackstopProtoName (p : Z) : bytes :=
  if p =? 6 then str "tcp" else if p =? 17 then str "udp" else if p =? 1 then str "icmp"
  else if p =? 58 then str "icmpv6" else if p =? 255 then str "raw" else str "other".

Definition bpfSelfDefenseKindName (k : Z) : bytes :=
  if k =? 1 then str "prog" else if k =? 2 then str "map" else if k =? 3 then str "pin"
  else if k =? 4 then str "link" else str "other".

Definition ipv6ObsHookName (hook : Z) : bytes := if hook =? 1 then str "udp6" else str "tcp6".

(** * Events *)

Record ExecEvent := mkExec { ex_TS : Z; ex_Seq : Z; ex_PID : Z; ex_TGID : Z; ex_ThreadID : Z; ex_Comm : bytes; ex_Exe : bytes;
  ex_ExeInode : Z; ex_ExeDev : Z; ex_ExeSHA256 : bytes }.

Record ProcForkEvent := mkFork { pf_TS : Z; pf_Seq : Z; pf_ParentPID : Z; pf_ChildPID : Z; pf_ParentComm : bytes;
  pf_ChildComm : bytes; pf_ChildSID : Z; pf_ChildPidnsNum : Z; pf_Note : bytes }.

Record FSEvent := mkFS { fe_TS : Z; fe_Seq : Z; fe_PID : Z; fe_TGID : Z; fe_ThreadID : Z; fe_Comm : bytes; fe_Op : bytes; fe_Path : bytes }.

Record TCPEvent := mkTCP { tc_TS : Z; tc_Seq : Z; tc_PID : Z; tc_TGID : Z; tc_ThreadID : Z; tc_Comm : bytes; tc_Dst : bytes;
  tc_Dport : Z; tc_FQDN : bytes; tc_FQDNProvenance : bytes; tc_Direction : bytes; tc_Policy : bytes }.

Record TCPResultEvent := mkTCPResult { tr_TS : Z; tr_Seq : Z; tr_PID : Z; tr_TGID : Z; tr_ThreadID : Z; tr_Comm : bytes;
  tr_Result : Z; tr_ResultStr : bytes }.

Record TCPStateEvent := mkTCPState { tp_TS : Z; tp_Seq : Z; tp_TimestampNS : Z; tp_PID : Z; tp_Comm : bytes; tp_SrcIP : bytes;
  tp_SrcPort : Z; tp_DstIP : bytes; tp_DstPort : Z; tp_OldState : bytes; tp_NewState : bytes }.

Record UDPEvent := mkUDP { ud_TS : Z; ud_Seq : Z; ud_PID : Z; ud_TGID : Z; ud_ThreadID : Z; ud_Comm : bytes; ud_Dst : bytes;
  ud_Dport : Z; ud_DatagramLen : Z; ud_FQDN : bytes; ud_FQDNProvenance : bytes; ud_Direction : bytes; ud_Policy : bytes;
  ud_PossibleQUIC : bool }.

Record QUICCandidateEvent := mkQUIC { qc_TS : Z; qc_Seq : Z; qc_PID : Z; qc_TGID : Z; qc_Comm : bytes; qc_DstIP : bytes;
  qc_DstPort : Z; qc_Note : bytes }.

Record HTTPEvent := mkHTTP { ht_TS : Z; ht_Seq : Z; ht_PID : Z; ht_TGID : Z; ht_ThreadID : Z; ht_Comm : bytes; ht_Method : bytes;
  ht_Host : bytes; ht_Path : bytes; ht_Dst : bytes; ht_Dport : Z; ht_Policy : bytes }.

Record TLSEvent := mkTLS { tl_TS : Z; tl_Seq : Z; tl_PID : Z; tl_TGID : Z; tl_ThreadID : Z; tl_Comm : bytes; tl_SNI : bytes;
  tl_Confidence : TLSConfidence; tl_ConfidenceReason : bytes; tl_ReassembledSNI : bool; tl_Dst : bytes; tl_Dport : Z;
  tl_IsIPv6 : bool; tl_Policy : bytes; tl_Note : bytes }.

Record KTLSEvent := mkKTLS { kl_TS : Z; kl_Seq : Z; kl_PID : Z; kl_TGID : Z; kl_ThreadID : Z; kl_Comm : bytes; kl_FD : Z; kl_Direction : bytes }.

Record IPv6Event := mkIPv6 { v6_Type : bytes; v6_TS : Z; v6_Seq : Z; v6_PID : Z; v6_Comm : bytes; v6_Dst : bytes; v6_Dport : Z; v6_Note : bytes }.

Record IOUringSendEvent := mkIOSend { us_TS : Z; us_Seq : Z; us_PID : Z; us_Comm : bytes; us_FD : Z; us_Op : bytes;
  us_DstIP : bytes; us_DstPort : Z; us_HasTLSHello : bool }.

Record IOUringTLSEvent := mkIOTLS { ut_TS : Z; ut_Seq : Z; ut_PID : Z; ut_Comm : bytes; ut_Op : bytes; ut_SNI : bytes;
  ut_Dst : bytes; ut_DstPort : Z }.

Record EgressBackstopEvent := mkEgress { eg_TS : Z; eg_Seq : Z; eg_PID : Z; eg_Comm : bytes; eg_AF : bytes; eg_Proto : bytes;
  eg_Dst : bytes; eg_Dport : Z; eg_Note : bytes }.

Record BPFAuditEvent := mkAudit { au_TS : Z; au_Seq : Z; au_PID : Z; au_TGID : Z; au_ThreadID : Z; au_Comm : bytes; au_Cmd : Z }.

Record BpfSelfDefenseEvent := mkSelfDef { sf_TS : Z; sf_Seq : Z; sf_TGID : Z; sf_Comm : bytes; sf_Cmd : Z; sf_TargetKind : bytes;
  sf_TargetID : Z; sf_Action : bytes }.

(** A line of the event log. *)
Inductive event :=
  | EvExec (e : ExecEvent) | EvFork (e : ProcForkEvent) | EvFS (e : FSEvent) | EvTCP (e : TCPEvent)
  | EvTCPResult (e : TCPResultEvent) | EvTCPState (e : TCPStateEvent) | EvUDP (e : UDPEvent) | EvQUIC (e : QUICCandidateEvent)
  | EvHTTP (e : HTTPEvent) | EvTLS (e : TLSEvent) | EvKTLS (e : KTLSEvent) | EvIPv6 (e : IPv6Event)
  | EvIOSend (e : IOUringSendEvent) | EvIOTLS (e : IOUringTLSEvent) | EvEgress (e : EgressBackstopEvent)
  | EvAudit (e : BPFAuditEvent) | EvSelfDef (e : BpfSelfDefenseEvent).

Definition Type_ (e : event) : bytes :=
  match e with
  | EvExec _ => str "exec" | EvFork _ => str "proc_fork" | EvFS _ => str "fs_event" | EvTCP _ => str "tcp"
  | EvTCPResult _ => str "tcp_result" | EvTCPState _ => str "tcp_state" | EvUDP _ => str "udp" | EvQUIC _ => str "quic_candidate"
  | EvHTTP _ => str "http" | EvTLS _ => str "tls" | EvKTLS _ => str "ktls_offload" | EvIPv6 e => v6_Type e
  | EvIOSend _ => str "io_uring_send" | EvIOTLS _ => str "io_uring_tls" | EvEgress _ => str "egress_backstop"
  | EvAudit _ => str "bpf_audit" | EvSelfDef _ => str "bpf_self_defense"
  end.

Definition Seq (e : event) : Z :=
  match e with
  | EvExec e => ex_Seq e | EvFork e => pf_Seq e | EvFS e => fe_Seq e | EvTCP e => tc_Seq e
  | EvTCPResult e => tr_Seq e | EvTCPState e => tp_Seq e | EvUDP e => ud_Seq e | EvQUIC e => qc_Seq e
  | EvHTTP e => ht_Seq e | EvTLS e => tl_Seq e | EvKTLS e => kl_Seq e | EvIPv6 e => v6_Seq e
  | EvIOSend e => us_Seq e | EvIOTLS e => ut_Seq e | EvEgress e => eg_Seq e
  | EvAudit e => au_Seq e | EvSelfDef e => sf_Seq e
  end.

(** * Wire structs decoded with [binary.Read]

    [binary.Read] into a struct takes the fields in order from the first
    bytes, little endian; it fails when there are fewer bytes than the struct
    has, and ignores what follows them. *)

Record execEvent := mkExecWire { xw_TGID : Z; xw_TID : Z; xw_Comm : bytes; xw_ExePath : bytes; xw_ExeIno : Z; xw_ExeDev : Z }.

Definition execEventSize : Z := 4 + 4 + 16 + 256 + 8 + 4 + 4.

Definition readExecEvent (raw : bytes) : go (option execEvent) :=
  if len raw <? execEventSize then Ret None
  else
    tgid ← le_at 4 raw 0; tid ← le_at 4 raw 4; comm ← arr_at 16 raw 8; path ← arr_at 256 raw 24;
    ino ← le_at 8 raw 280; dev ← le_at 4 raw 288;
    Ret (Some (mkExecWire tgid tid comm path ino dev)).

Record forkEventWire := mkForkWire { fw_ParentPID : Z; fw_ChildPID : Z; fw_ParentComm : bytes; fw_ChildComm : bytes;
  fw_ChildSID : Z; fw_ChildPidnsNum : Z }.

Definition forkEventSize : Z := 4 + 4 + 16 + 16 + 4 + 4.

Definition readForkEvent (raw : bytes) : go (option forkEventWire) :=
  if len raw <? forkEventSize then Ret None
  else
    ppid ← le_at 4 raw 0; cpid ← le_at 4 raw 4; pcomm ← arr_at 16 raw 8; ccomm ← arr_at 16 raw 24;
    sid ← le_at 4 raw 40; ns ← le_at 4 raw 44;
    Ret (Some (mkForkWire ppid cpid pcomm ccomm sid ns)).

Record fsEventWire := mkFSWire { fsw_TGID : Z; fsw_TID : Z; fsw_Comm : bytes; fsw_Op : Z; fsw_Path : bytes }.

Definition fsEventSize : Z := 4 + 4 + 16 + 1 + 256 + 3.

Definition readFSEvent (raw : bytes) : go (option fsEventWire) :=
  if len raw <? fsEventSize then Ret None
  else
    tgid ← le_at 4 raw 0; tid ← le_at 4 raw 4; comm ← arr_at 16 raw 8; op ← idx raw 24; path ← arr_at 256 raw 25;
    Ret (Some (mkFSWire tgid tid comm op path)).

Record ipv6ObsEventWire := mkIPv6Wire { iw_Daddr : bytes; iw_Dport : bytes; iw_PID : Z; iw_Comm : bytes; iw_Hook : Z }.

Definition ipv6ObsEventWireSize : Z := 44.

Definition readIPv6ObsEvent (raw : bytes) : go (option ipv6ObsEventWire) :=
  if len raw <? ipv6ObsEventWireSize then Ret None
  else
    daddr ← arr_at 16 raw 0; dport ← arr_at 2 raw 16; pid ← le_at 4 raw 20; comm ← arr_at 16 raw 24; hook ← idx raw 40;
    Ret (Some (mkIPv6Wire daddr dport pid comm hook)).

(** [nullTermStr]: [bytes.TrimRight(b, "\x00")]. *)
Definition nullTermStr (b : bytes) : bytes := rev (drop_while (Z.eqb 0) (rev b)).

(** * Connect records *)

Definition canaryMagic : Z := 0xCA1A1210.
Definition connectResultMagic : Z := 0xC0EE0001.
Definition canaryEventWireSize : Z := 16.

Inductive connectRingRecordKind := connectRingKindConnectEvent | connectRingKindCanary | connectRingKindConnectResult.

Definition classifyConnectRingRecord (raw : bytes) : go connectRingRecordKind :=
  if len raw <? 4 then Ret connectRingKindConnectEvent
  else
    magic ← le_at 4 raw 0;
    Ret (if magic =? canaryMagic then connectRingKindCanary
         else if magic =? connectResultMagic then connectRingKindConnectResult
         else connectRingKindConnectEvent).
