(* ===== verification/Rings.v ===== *)
(** internal/agent/agent_linux_ring_read.go: the readers of the detection rings,
    running concurrently.

    A reader's handler of one record is a [task]: a program over the atomic
    actions on what the readers share.  An action is the body of one lock: a
    method of [runStats], of the DNS cache, of the KTLS tracker or of the
    canary; drawing a sequence number and appending a line under [jsonlMu]; or
    an observation of the environment (the clock, the file an exec ran).  What
    the environment answers to an action is an argument of [do_action].

    [step] interleaves the actions of all readers arbitrarily; [runRingReader]
    is its part outside the handlers: a record starts a handler and resets the
    backoff, a closed ring or a cancelled context ends the reader, any other
    read error backs off. *)
From S2P Require Import Prelude GoStrings GoNet GoPath Policy BpfMap DnsWire DnsCache TlsHello TlsTrack Decode Telemetry Config Defend RunStats Events.

Open Scope Z_scope.

(** * Actions and tasks *)

Inductive action : Type -> Type :=
  | ANow : action Z
  | AHash (path : bytes) : action bytes
  | AStat (f : runStats -> runStats) : action unit
  | AEmit (ev : Z -> event) : action bool
  | ALookup (ip : bytes) : action (bytes * bytes)
  | AAddPacket (pkt : bytes) : action unit
  | AMark (pid fd at_ : Z) : action unit
  | AIsKTLS (pid fd ts : Z) : action bool
  | ACanary (seq : Z) : action unit.

Inductive task (A : Type) : Type :=
  | Done (a : A)
  | Crash
  | Act {B : Type} (a : action B) (k : B -> task A).
Arguments Done {A} a.
Arguments Crash {A}.
Arguments Act {A B} a k.

#[global] Instance task_ret : MRet task := @Done.
#[global] Instance task_bind : MBind task := fun A C f =>
  fix go t := match t with
              | Done a => f a
              | Crash => Crash
              | Act a k => Act a (fun b => go (k b))
              end.

(** One action, and a computation that may panic. *)
Definition act {B} (a : action B) : task B := Act a Done.
Definition lift {A} (c : go A) : task A := match c with Ret a => Done a | Panic => Crash end.
Definition stat (f : runStats -> runStats) : task unit := act (AStat f).

(** * exec_identity_linux.go *)

Definition execHashMaxBytes : Z := 16 * 2 ^ 20.

(** The file system at the time of the call: [lstat] gives whether the file is
    regular and its size, [open] its content; [sha256] is the digest. *)
Definition bestEffortExeSHA256 (lstat : bytes -> option (bool * Z)) (open : bytes -> option bytes) (sha256 : bytes -> bytes)
    (path : bytes) : bytes :=
  if bool_decide (path = []) || negb (IsAbs path) then []
  else match lstat path with
       | None => []
       | Some (regular, size) =>
         if negb regular || (execHashMaxBytes <? size) then []
         else match open path with
              | None => []
              | Some data => hex_bytes (sha256 (take (Z.to_nat execHashMaxBytes) data))
              end
       end.

(** * What the readers share *)

Record shared (M : Type) := mkShared {
  sh_stats : runStats;
  sh_seq : Z;
  sh_log : list event;
  sh_dns : option (DNSCache M);
  sh_ktls : option ktlsTracker;
  sh_canary : option canaryState;
}.
Arguments mkShared {M}.
Arguments sh_stats {M}.
Arguments sh_seq {M}.
Arguments sh_log {M}.
Arguments sh_dns {M}.
Arguments sh_ktls {M}.
Arguments sh_canary {M}.

(** What the environment answers: the clock, whether a line was written, the
    file system. *)
Record env := mkEnv {
  en_now : Z;
  en_written : bool;
  en_lstat : bytes -> option (bool * Z);
  en_open : bytes -> option bytes;
  en_sha256 : bytes -> bytes;
}.

Section Actions.
Context {M : Type} `{UnicodeCase} `{!BpfMapOps bytes bytes M} `{!RangeOrder bytes} `{!RangeOrder tlsReassemblyKey} `{!RangeOrder ktlsKey}.

Definition do_action (e : env) (s : shared M) {B} (a : action B) : go (shared M * B) :=
  match a in action B return go (shared M * B) with
  | ANow => Ret (s, en_now e)
  | AHash path => Ret (s, bestEffortExeSHA256 (en_lstat e) (en_open e) (en_sha256 e) path)
  | AStat f => Ret (mkShared (f (sh_stats s)) (sh_seq s) (sh_log s) (sh_dns s) (sh_ktls s) (sh_canary s), tt)
  | AEmit ev =>
    let n := seq_next (sh_seq s) in
    Ret (mkShared (sh_stats s) n (if en_written e then sh_log s ++ [ev n] else sh_log s) (sh_dns s) (sh_ktls s) (sh_canary s),
         en_written e)
  | ALookup ip => Ret (s, match sh_dns s with Some c => LookupProvenance c (en_now e) ip | None => ([], str "unknown") end)
  | AAddPacket pkt =>
    match sh_dns s with
    | None => Panic
    | Some c => c' ← AddFromPacket c (en_now e) pkt;
                Ret (mkShared (sh_stats s) (sh_seq s) (sh_log s) (Some c') (sh_ktls s) (sh_canary s), tt)
    end
  | AMark pid fd at_ =>
    Ret (mkShared (sh_stats s) (sh_seq s) (sh_log s) (sh_dns s) (Mark (sh_ktls s) (en_now e) pid fd at_) (sh_canary s), tt)
  | AIsKTLS pid fd ts => Ret (s, IsKTLS (sh_ktls s) (en_now e) pid fd ts)
  | ACanary seq =>
    Ret (mkShared (sh_stats s) (sh_seq s) (sh_log s) (sh_dns s) (sh_ktls s)
           (option_map (fun c => noteReceived c seq (en_now e)) (sh_canary s)), tt)
  end.
End Actions.

(** * The handlers *)

(** State local to a reader: the file-system event count and the TLS
    reassembler. *)
Record local := mkLocal { lo_count : Z; lo_reasm : tlsReassembler }.

Definition newLocal : local := mkLocal 0 newTLSReassembler.

Section Handlers.
Context `{UnicodeCase} `{!RangeOrder tlsReassemblyKey}.
Context (cfg : Config) (pol : option Policy) (redact : bytes -> bytes).

(** The block [if cfg.EventsLogPath != ""]: a line under [jsonlMu], and the
    count of a failed write. *)
Definition logLine (ev : Z -> event) (dropKind : bytes) : task unit :=
  if decide (EventsLogPath cfg = []) then Done tt
  else
    ok ← act (AEmit ev);
    if ok : bool then Done tt else stat (addDropped dropKind).

Definition sanitize (s : bytes) (n : Z) : task bytes := lift (SanitizeField s n).

Definition handleExec (raw : bytes) : task unit :=
  d ← lift (readExecEvent raw);
  match d with
  | None => stat (addDropped (str "exec_decode"))
  | Some ev =>
    comm ← sanitize (nullTermStr (xw_Comm ev)) 16;
    exe ← sanitize (nullTermStr (xw_ExePath ev)) 4096;
    _ ← stat addExec;
    ts ← act ANow;
    exeSHA ← act (AHash exe);
    logLine (fun n => EvExec (mkExec ts n (xw_TGID ev) (xw_TGID ev) (xw_TID ev) comm exe (xw_ExeIno ev) (xw_ExeDev ev) exeSHA))
      (str "exec_jsonl")
  end.

Definition handleFork (raw : bytes) : task unit :=
  d ← lift (readForkEvent raw);
  match d with
  | None => stat (addDropped (str "proc_fork_decode"))
  | Some ev =>
    pcomm ← sanitize (nullTermStr (fw_ParentComm ev)) 16;
    ccomm ← sanitize (nullTermStr (fw_ChildComm ev)) 16;
    _ ← stat addProcFork;
    ts ← act ANow;
    logLine (fun n => EvFork (mkFork ts n (fw_ParentPID ev) (fw_ChildPID ev) pcomm ccomm (fw_ChildSID ev) (fw_ChildPidnsNum ev)
               (str "best-effort pid namespace; parent/child are kernel fork trace ids")))
      (str "proc_fork_jsonl")
  end.

Definition maxFSEventsTotal : Z := 5000.

Definition handleFS (l : local) (raw : bytes) : task local :=
  d ← lift (readFSEvent raw);
  match d with
  | None => _ ← stat (addDropped (str "fs_decode")); Done l
  | Some ev =>
    let count := lo_count l + 1 in
    let l := mkLocal count (lo_reasm l) in
    _ ← stat addFS;
    if maxFSEventsTotal <? count then _ ← stat (addDropped (str "fs_cap")); Done l
    else
      comm ← sanitize (nullTermStr (fsw_Comm ev)) 16;
      path ← sanitize (nullTermStr (fsw_Path ev)) 4096;
      ts ← act ANow;
      _ ← logLine (fun n => EvFS (mkFS ts n (fsw_TGID ev) (fsw_TGID ev) (fsw_TID ev) comm (fsOpName (fsw_Op ev)) path)) (str "fs_jsonl");
      Done l
  end.

(** The destination's name for a connect or UDP event. *)
Definition lookupFQDN (ip : bytes) : task (bytes * bytes) :=
  r ← act (ALookup ip); fqdn ← sanitize r.1 253; Done (fqdn, r.2).

Definition handleConnectResult (raw : bytes) : task unit :=
  d ← lift (decodeConnectResultEvent raw);
  match d with
  | None => stat (addDropped (str "tcp_result_decode"))
  | Some r =>
    comm ← sanitize (nullTermStr (cr_comm r)) 16;
    let bucket := ConnectResultString (cr_result r) in
    _ ← stat (addTCPResult bucket);
    ts ← act ANow;
    logLine (fun n => EvTCPResult (mkTCPResult ts n (cr_tgid r) (cr_tgid r) (cr_tid r) comm (cr_result r) bucket)) (str "tcp_result_jsonl")
  end.

Definition handleConnectEvent (raw : bytes) : task unit :=
  d ← lift (decodeConnectEvent raw);
  match d with
  | None => stat (addDropped (str "tcp_decode"))
  | Some c =>
    match To4 (ce_daddr c) with
    | None => Done tt
    | Some ip =>
      comm ← sanitize (nullTermStr (ce_comm c)) 16;
      q ← lookupFQDN ip;
      let '(fqdn, fqdnProv) := q in
      let cl := Classify pol fqdn ip in
      _ ← stat (addTCP cl);
      _ ← stat (incDomainCount fqdn);
      ts ← act ANow;
      logLine (fun n => EvTCP (mkTCP ts n (ce_tgid c) (ce_tgid c) (ce_tid c) comm (IP_String ip) (ce_dport c) fqdn fqdnProv
                 (str "egress") (Class_string cl))) (str "tcp_jsonl")
    end
  end.

Definition handleConnect (raw : bytes) : task unit :=
  kind ← lift (classifyConnectRingRecord raw);
  match kind with
  | connectRingKindCanary =>
    if canaryEventWireSize <=? len raw then seqNr ← lift (le_at 8 raw 8); act (ACanary seqNr) else Done tt
  | connectRingKindConnectResult => handleConnectResult raw
  | connectRingKindConnectEvent => handleConnectEvent raw
  end.

(** The destination of a TLS record; [None] is the early return. *)
Definition tlsDst (d : tlsSniffEvent) : option bytes :=
  if ts_isIPv6 d then (if decide (length (ts_daddr6 d) = IPv6len) then Some (ts_daddr6 d) else None)
  else To4 (ts_daddr d).

(** The server name of the payload, alone or appended to what is buffered for
    its flow, and whether it was reassembled; [None] is the drop. *)
Definition tlsSNI (l : local) (d : tlsSniffEvent) : task (local * option (bytes * bool)) :=
  p ← lift (ParseClientHelloSNI (ts_payload d));
  match p with
  | Some sni => Done (l, Some (sni, false))
  | None =>
    match tlsReassemblyKeyForEvent (ts_tgid d) (ts_daddr d) (ts_daddr6 d) (ts_isIPv6 d) (ts_dport d) with
    | None => Done (l, None)
    | Some key =>
      t1 ← act ANow; t2 ← act ANow; t3 ← act ANow;
      r ← lift (appendAndParse (lo_reasm l) key (ts_payload d) t1 t2 t3);
      let l := mkLocal (lo_count l) r.1 in
      if ar_parsed r.2 then Done (l, Some (ar_sni r.2, ar_reassembly r.2)) else Done (l, None)
    end
  end.

Definition handleTLS (l : local) (raw : bytes) : task local :=
  tlsRecvAtNs ← act ANow;
  d ← lift (decodeTLSSniffEvent raw);
  match d with
  | None => _ ← stat (addDropped (str "tls_decode")); Done l
  | Some d =>
    match tlsDst d with
    | None => Done l
    | Some ip =>
      comm ← sanitize (nullTermStr (ts_comm d)) 16;
      q ← tlsSNI l d;
      let '(l, r) := q in
      match r with
      | None => _ ← stat (addDropped (str "tls_sni_parse")); Done l
      | Some (sni, reassembled) =>
        let conf := ScoreTLSConfidence sni in
        sni ← sanitize sni 253;
        let cl := Classify pol sni ip in
        ktls ← act (AIsKTLS (ts_tgid d) 0 tlsRecvAtNs);
        let conf := if ktls : bool then TLSConfidenceUnknown else conf in
        let confReason := if ktls : bool then str "ktls" else [] in
        _ ← stat (addTLS cl conf ktls);
        _ ← stat (incDomainCount sni);
        ts ← act ANow;
        let note := if reassembled : bool
          then str "ClientHello SNI recovered via inter-syscall reassembly (header/body split across writes)"
          else str "ClientHello SNI from first write/writev/sendto buffer (best-effort); fragmented handshakes may be missed" in
        _ ← logLine (fun n => EvTLS (mkTLS ts n (ts_tgid d) (ts_tgid d) (ts_tid d) comm sni conf confReason reassembled
                       (IP_String ip) (ts_dport d) (ts_isIPv6 d) (Class_string cl) note)) (str "tls_jsonl");
        Done l
      end
    end
  end.

Definition handleUDP (raw : bytes) : task unit :=
  d ← lift (decodeUDPSendEvent raw);
  match d with
  | None => stat (addDropped (str "udp_decode"))
  | Some u =>
    match To4 (us_daddr u) with
    | None => Done tt
    | Some ip =>
      comm ← sanitize (nullTermStr (us_comm u)) 16;
      q ← lookupFQDN ip;
      let '(fqdn, fqdnProv) := q in
      let cl := Classify pol fqdn ip in
      _ ← stat (addUDP cl);
      _ ← stat (incDomainCount fqdn);
      ts ← act ANow;
      let ipStr := IP_String ip in
      let possibleQUIC := IsQUICCandidate ipStr (us_dport u) in
      _ ← (if possibleQUIC then stat addQUICObserved else Done tt);
      _ ← logLine (fun n => EvUDP (mkUDP ts n (us_tgid u) (us_tgid u) (us_tid u) comm ipStr (us_dport u) (us_dgramLen u) fqdn fqdnProv
                     (str "egress") (Class_string cl) possibleQUIC)) (str "udp_jsonl");
      if IsQUICCandidate ipStr (us_dport u) then
        _ ← stat addQUICCandidate;
        logLine (fun n => EvQUIC (mkQUIC ts n (us_tgid u) (us_tgid u) comm ipStr (us_dport u)
                   (str "UDP/443 to non-loopback IPv4; payload encrypted (QUIC) — not inspected"))) (str "quic_candidate_jsonl")
      else Done tt
    end
  end.

Definition handleHTTP (raw : bytes) : task unit :=
  d ← lift (decodeHTTPSniffEvent raw);
  match d with
  | None => stat (addDropped (str "http_decode"))
  | Some h =>
    match To4 (hs_daddr h) with
    | None => Done tt
    | Some ip =>
      comm ← sanitize (nullTermStr (hs_comm h)) 16;
      match ParseHTTPRequestPrefix (hs_payload h) with
      | None => stat (addDropped (str "http_prefix_parse"))
      | Some (method, host, path) =>
        method ← sanitize method 16;
        host ← sanitize host 253;
        path ← sanitize path 4096;
        let cl := Classify pol host ip in
        _ ← stat (addHTTP cl);
        _ ← stat (incDomainCount host);
        ts ← act ANow;
        logLine (fun n => EvHTTP (mkHTTP ts n (hs_tgid h) (hs_tgid h) (hs_tid h) comm method host (redact path) (IP_String ip)
                   (hs_dport h) (Class_string cl))) (str "http_jsonl")
      end
    end
  end.

(** The DNS message of a sample, or the kind of the drop. *)
Definition dnsMessage (raw : bytes) : go (result bytes bytes) :=
  d ← decodeDNSSniffSample raw;
  match d with
  | None => Ret (Err (str "dns_decode"))
  | Some (pkt, isTCP) =>
    if len pkt <? 12 then Ret (Err (str "dns_decode"))
    else if isTCP : bool then
      if len pkt <? 14 then Ret (Err (str "dns_decode_tcp_short"))
      else pkt ← slice_from pkt 2; if len pkt <? 12 then Ret (Err (str "dns_decode")) else Ret (Ok pkt)
    else Ret (Ok pkt)
  end.

Definition handleDNS (raw : bytes) : task unit :=
  m ← lift (dnsMessage raw);
  match m with
  | Err kind => stat (addDropped kind)
  | Ok pkt => act (AAddPacket pkt)
  end.

Definition handleKTLS (raw : bytes) : task unit :=
  recvAtNs ← act ANow;
  d ← lift (decodeKTLSEvent raw);
  match d with
  | None => stat (addDropped (str "ktls_decode"))
  | Some k =>
    _ ← stat addKTLS;
    _ ← act (AMark (kt_tgid k) (kt_fd k) recvAtNs);
    comm ← sanitize (nullTermStr (kt_comm k)) 16;
    ts ← act ANow;
    logLine (fun n => EvKTLS (mkKTLS ts n (kt_tgid k) (kt_tgid k) (kt_tid k) comm (kt_fd k) (ktlsDirectionLabel (kt_direction k))))
      (str "ktls_jsonl")
  end.

Definition handleTCPState (raw : bytes) : task unit :=
  d ← lift (decodeTCPStateEvent raw);
  match d with
  | None => stat (addDropped (str "tcp_state_decode"))
  | Some t =>
    let oldStr := TCPStateName (st_oldState t) in
    let newStr := TCPStateName (st_newState t) in
    let '(confirmed, refused) := classifyTCPStateTransition newStr in
    _ ← stat (addTCPState confirmed refused);
    match To4 (st_daddr t) with
    | None => Done tt
    | Some dstIP =>
      let srcIP := default [] (To4 (st_saddr t)) in
      comm ← sanitize (nullTermStr (st_comm t)) 16;
      ts ← act ANow;
      logLine (fun n => EvTCPState (mkTCPState ts n (st_timestampNS t) (st_pid t) comm (IP_String srcIP) (st_sport t)
                 (IP_String dstIP) (st_dport t) oldStr newStr)) (str "tcp_state_jsonl")
    end
  end.

Definition handleIoUring (raw : bytes) : task unit :=
  d ← lift (decodeIOUringSendEvent raw);
  match d with
  | None => stat (addDropped (str "io_uring_decode"))
  | Some u =>
    _ ← stat addIoUringSend;
    comm ← sanitize (nullTermStr (io_comm u)) 16;
    ts ← act ANow;
    let '(dstIP, dstPort) :=
      match To4 (io_daddr u) with
      | Some ip => if decide (io_daddr u = [0; 0; 0; 0] /\ io_dport u = 0) then ([], 0) else (IP_String ip, io_dport u)
      | None => ([], 0)
      end in
    logLine (fun n => EvIOSend (mkIOSend ts n (io_pid u) comm (io_fd u) (ioUringOpName (io_op u)) dstIP dstPort (io_hasTLSHello u)))
      (str "io_uring_jsonl")
  end.

Definition egressBackstopEventFromRaw (raw : bytes) (ts seq : Z) : go (option EgressBackstopEvent) :=
  d ← decodeEgressBackstopEvent raw;
  match d with
  | None => Ret None
  | Some b =>
    let family := if eb_af b =? linuxAFInet then Some (str "ipv4", take 4 (eb_daddr b))
                  else if eb_af b =? linuxAFInet6 then Some (str "ipv6", take 16 (eb_daddr b))
                  else None in
    match family with
    | None => Ret None
    | Some (afStr, ip) =>
      comm ← SanitizeField (nullTermStr (eb_comm b)) 16;
      Ret (Some (mkEgress ts seq (eb_pid b) comm afStr (egressBackstopProtoName (eb_ipproto b)) (IP_String ip) (eb_dport b)
             (str "egress to non-allowlisted IP reached the egress qdisc without a connect4/sendmsg4 decision (raw-socket or post-connect bypass)")))
    end
  end.

Definition eg_with_seq (e : EgressBackstopEvent) (n : Z) : EgressBackstopEvent :=
  mkEgress (eg_TS e) n (eg_PID e) (eg_Comm e) (eg_AF e) (eg_Proto e) (eg_Dst e) (eg_Dport e) (eg_Note e).

Definition handleEgressBackstop (raw : bytes) : task unit :=
  ts ← act ANow;
  r ← lift (egressBackstopEventFromRaw raw ts 0);
  match r with
  | None => Done tt
  | Some ev => _ ← stat (addEgressBackstop (eg_Dst ev)); logLine (fun n => EvEgress (eg_with_seq ev n)) (str "egress_backstop_jsonl")
  end.

Definition bpfSelfDefenseEventFromRaw (raw : bytes) (ts seq : Z) : go (option BpfSelfDefenseEvent) :=
  d ← decodeBpfSelfDefenseEvent raw;
  match d with
  | None => Ret None
  | Some b =>
    comm ← SanitizeField (nullTermStr (sd_comm b)) 16;
    Ret (Some (mkSelfDef ts seq (sd_tgid b) comm (sd_cmd b) (bpfSelfDefenseKindName (sd_kind b)) (sd_targetID b) (str "denied")))
  end.

Definition sf_with_seq (e : BpfSelfDefenseEvent) (n : Z) : BpfSelfDefenseEvent :=
  mkSelfDef (sf_TS e) n (sf_TGID e) (sf_Comm e) (sf_Cmd e) (sf_TargetKind e) (sf_TargetID e) (sf_Action e).

Definition handleBpfSelfDefense (raw : bytes) : task unit :=
  ts ← act ANow;
  r ← lift (bpfSelfDefenseEventFromRaw raw ts 0);
  match r with
  | None => Done tt
  | Some ev => _ ← stat addBpfSelfDefense; logLine (fun n => EvSelfDef (sf_with_seq ev n)) (str "bpf_self_defense_jsonl")
  end.

Definition ioUringTLSEventFromRaw (raw : bytes) (ts seq : Z) : go (option IOUringTLSEvent) :=
  d ← decodeIOUringTLSEvent raw;
  match d with
  | None => Ret None
  | Some u =>
    p ← ParseClientHelloSNI (it_payload u);
    match p with
    | None => Ret None
    | Some sni =>
      if decide (sni = []) then Ret None
      else
        let dst := if decide (it_daddr u = [0; 0; 0; 0]) then str "unknown" else IP_String (v4_mapped (it_daddr u)) in
        comm ← SanitizeField (nullTermStr (it_comm u)) 16;
        sni ← SanitizeField sni 253;
        Ret (Some (mkIOTLS ts seq (it_pid u) comm (ioUringOpName (it_op u)) sni dst (it_dport u)))
    end
  end.

Definition ut_with_seq (e : IOUringTLSEvent) (n : Z) : IOUringTLSEvent :=
  mkIOTLS (ut_TS e) n (ut_PID e) (ut_Comm e) (ut_Op e) (ut_SNI e) (ut_Dst e) (ut_DstPort e).

Definition handleIoUringTLS (raw : bytes) : task unit :=
  ts ← act ANow;
  r ← lift (ioUringTLSEventFromRaw raw ts 0);
  match r with
  | None => Done tt
  | Some ev => _ ← stat (addIoUringTLSSNI (ut_SNI ev)); logLine (fun n => EvIOTLS (ut_with_seq ev n)) (str "io_uring_tls_jsonl")
  end.

Definition handleBPFAudit (raw : bytes) : task unit :=
  d ← lift (decodeBPFAuditEvent raw);
  match d with
  | None => stat (addDropped (str "bpf_audit_decode"))
  | Some b =>
    _ ← stat addBPFAudit;
    comm ← sanitize (nullTermStr (ba_comm b)) 16;
    ts ← act ANow;
    logLine (fun n => EvAudit (mkAudit ts n (ba_tgid b) (ba_tgid b) (ba_tid b) comm (ba_cmd b))) (str "bpf_audit_jsonl")
  end.

Definition handleIPv6Obs (raw : bytes) : task unit :=
  d ← lift (readIPv6ObsEvent raw);
  match d with
  | None => stat (addDropped (str "ipv6_obs_decode"))
  | Some w =>
    _ ← stat addIPv6Event;
    comm ← sanitize (nullTermStr (iw_Comm w)) 16;
    dport ← lift (BE_Uint16 (iw_Dport w));
    ts ← act ANow;
    logLine (fun n => EvIPv6 (mkIPv6 (ipv6ObsHookName (iw_Hook w)) ts n (iw_PID w) comm (IP_String (iw_Daddr w)) dport (str "ipv6-not-enforced")))
      (str "ipv6_obs_jsonl")
  end.

(** ** The rings *)

Inductive ring :=
  | RExec | RFork | RFS | RConnect | RTLS | RUDP | RHTTP | RDNS | RKTLS | RTCPState | RIoUring | RIoUringTLS
  | REgressBackstop | RSelfDefense | RBPFAudit | RIPv6Obs.

Definition handler (r : ring) (l : local) (raw : bytes) : task local :=
  let keep (t : task unit) := _ ← t; Done l in
  match r with
  | RExec => keep (handleExec raw)
  | RFork => keep (handleFork raw)
  | RFS => handleFS l raw
  | RConnect => keep (handleConnect raw)
  | RTLS => handleTLS l raw
  | RUDP => keep (handleUDP raw)
  | RHTTP => keep (handleHTTP raw)
  | RDNS => keep (handleDNS raw)
  | RKTLS => keep (handleKTLS raw)
  | RTCPState => keep (handleTCPState raw)
  | RIoUring => keep (handleIoUring raw)
  | RIoUringTLS => keep (handleIoUringTLS raw)
  | REgressBackstop => keep (handleEgressBackstop raw)
  | RSelfDefense => keep (handleBpfSelfDefense raw)
  | RBPFAudit => keep (handleBPFAudit raw)
  | RIPv6Obs => keep (handleIPv6Obs raw)
  end.
End Handlers.

#[global] Instance ring_eq_dec : EqDecision ring.
Proof. solve_decision. Defined.

(** * The readers together *)

(** Where a reader is: waiting in [rd.Read] with its local state and its
    current backoff, handling a record, or returned. *)
Inductive reader :=
  | Waiting (l : local) (backoff : Z)
  | Handling (t : task local)
  | Returned (ctxErr : bool).

(** The state of all readers, with the records delivered so far and the number
    of sequence numbers drawn. *)
Record world (M : Type) := mkWorld {
  w_sh : shared M;
  w_rd : ring -> reader;
  w_in : list (ring * bytes);
  w_drawn : Z;
}.
Arguments mkWorld {M}.
Arguments w_sh {M}.
Arguments w_rd {M}.
Arguments w_in {M}.
Arguments w_drawn {M}.

Definition upd (f : ring -> reader) (r : ring) (x : reader) : ring -> reader :=
  fun r' => if decide (r' = r) then x else f r'.

Definition draws {B} (a : action B) : Z := match a with AEmit _ => 1 | _ => 0 end.

Section Step.
Context {M : Type} `{UnicodeCase} `{!BpfMapOps bytes bytes M} `{!RangeOrder bytes} `{!RangeOrder tlsReassemblyKey} `{!RangeOrder ktlsKey}.
Context (cfg : Config) (pol : option Policy) (redact : bytes -> bytes).
Implicit Types w : world M.

Definition set_reader w (r : ring) (x : reader) : world M := mkWorld (w_sh w) (upd (w_rd w) r x) (w_in w) (w_drawn w).

Inductive step : ring -> world M -> world M -> Prop :=
  | step_record r raw l b w : w_rd w r = Waiting l b -> wf_bytes raw ->
      step r w (mkWorld (w_sh w) (upd (w_rd w) r (Handling (handler cfg pol redact r l raw))) (w_in w ++ [(r, raw)]) (w_drawn w))
  | step_act r {B} (a : action B) k e w sh b : w_rd w r = Handling (Act a k) -> do_action e (w_sh w) a = Ret (sh, b) ->
      step r w (mkWorld sh (upd (w_rd w) r (Handling (k b))) (w_in w) (w_drawn w + draws a))
  | step_done r l w : w_rd w r = Handling (Done l) -> step r w (set_reader w r (Waiting l 0))
  | step_closed r l b w : w_rd w r = Waiting l b -> step r w (set_reader w r (Returned false))
  | step_cancelled r l b w : w_rd w r = Waiting l b -> step r w (set_reader w r (Returned true))
  | step_retry r l b w : w_rd w r = Waiting l b -> step r w (set_reader w r (Waiting l (nextDelay b))).

(** Reachability, by steps of any reader or of one reader. *)
Definition any_step w w' : Prop := exists r, step r w w'.
Definition reaches : world M -> world M -> Prop := rtc any_step.

Definition start (dns : DNSCache M) (ktls : ktlsTracker) : world M :=
  mkWorld (mkShared newRunStats 0 [] (Some dns) (Some ktls) (Some newCanaryState)) (fun _ => Waiting newLocal 0) [] 0.

(** A task run to its end without interleaving; the answers to its actions are
    taken from a list (the last one is repeated). *)
Fixpoint run_task {A} (t : task A) (es : list env) (e : env) (s : shared M) : go (shared M * A) :=
  match t with
  | Done a => Ret (s, a)
  | Crash => Panic
  | Act a k =>
    let '(now, rest) := match es with e' :: es' => (e', es') | [] => (e, []) end in
    r ← do_action now s a;
    run_task (k r.2) rest e r.1
  end.

(** A whole reader on the records and errors its ring delivers, one after the
    other. *)
Inductive delivery := DRecord (raw : bytes) (es : list env) (e : env) | DClosed | DError (ctxDone : bool).

Fixpoint runRingReader (r : ring) (ds : list delivery) (l : local) (backoff : Z) (s : shared M) : go (shared M * reader) :=
  match ds with
  | [] => Ret (s, Waiting l backoff)
  | DRecord raw es e :: ds' =>
    x ← run_task (handler cfg pol redact r l raw) es e s;
    runRingReader r ds' x.2 0 x.1
  | DClosed :: _ => Ret (s, Returned false)
  | DError true :: _ => Ret (s, Returned true)
  | DError false :: ds' => runRingReader r ds' l (backoff_sleep backoff).1 s
  end.
End Step.
