(* ===== verification/RingAccounts.v ===== *)
(** The books of the ring readers: that every record is counted once and every
    line is accounted for, in any interleaving of the readers (Rings.v).

    Each ring has an account: the counters and drop kinds that its records end
    in.  The handlers are verified once with a weakest precondition [wp] that
    carries what a handler still owes to its account; the theorems follow by
    induction on the steps. *)
From S2P Require Import Prelude GoStrings GoNet Policy BpfMap DnsWire DnsCache TlsHello TlsTrack Decode Telemetry Config Defend RunStats Events Rings.

Open Scope Z_scope.

(** * Accounts *)

(** [ac_counted]: a record ends in one of these counters or of the drops
    [ac_drops]; [ac_lines]: counters of events that have a line; [ac_unlogged]:
    drop kinds of events without their line. *)
Record account := mkAccount { ac_counted : list counter; ac_drops : list bytes; ac_lines : list counter; ac_unlogged : list bytes }.

Definition accounts (r : ring) : account :=
  match r with
  | RExec => mkAccount [execN] [str "exec_decode"] [execN] [str "exec_jsonl"]
  | RFork => mkAccount [procForkN] [str "proc_fork_decode"] [procForkN] [str "proc_fork_jsonl"]
  | RFS => mkAccount [fsN] [str "fs_decode"] [fsN] [str "fs_jsonl"; str "fs_cap"]
  | RConnect => mkAccount [tcpN] [str "tcp_decode"; str "tcp_result_decode"] [tcpN] [str "tcp_jsonl"; str "tcp_result_jsonl"]
  | RTLS => mkAccount [tlsN] [str "tls_decode"; str "tls_sni_parse"] [tlsN] [str "tls_jsonl"]
  | RUDP => mkAccount [udpN] [str "udp_decode"] [udpN; quicCandidateN] [str "udp_jsonl"; str "quic_candidate_jsonl"]
  | RHTTP => mkAccount [httpN] [str "http_decode"; str "http_prefix_parse"] [httpN] [str "http_jsonl"]
  | RDNS => mkAccount [] [str "dns_decode"; str "dns_decode_tcp_short"] [] []
  | RKTLS => mkAccount [ktlsN] [str "ktls_decode"] [ktlsN] [str "ktls_jsonl"]
  | RTCPState => mkAccount [tcpStateN] [str "tcp_state_decode"] [tcpStateN] [str "tcp_state_jsonl"]
  | RIoUring => mkAccount [ioUringSendN] [str "io_uring_decode"] [ioUringSendN] [str "io_uring_jsonl"]
  | RIoUringTLS => mkAccount [] [] [] [str "io_uring_tls_jsonl"]
  | REgressBackstop => mkAccount [egressBackstopN] [] [egressBackstopN] [str "egress_backstop_jsonl"]
  | RSelfDefense => mkAccount [bpfSelfDefenseN] [] [bpfSelfDefenseN] [str "bpf_self_defense_jsonl"]
  | RBPFAudit => mkAccount [bpfAuditN] [str "bpf_audit_decode"] [bpfAuditN] [str "bpf_audit_jsonl"]
  | RIPv6Obs => mkAccount [ipv6EventCountN] [str "ipv6_obs_decode"] [ipv6EventCountN] [str "ipv6_obs_jsonl"]
  end.

(** The ring whose reader writes an event. *)
Definition ring_of (e : event) : ring :=
  match e with
  | EvExec _ => RExec | EvFork _ => RFork | EvFS _ => RFS | EvTCP _ | EvTCPResult _ => RConnect | EvTCPState _ => RTCPState
  | EvUDP _ | EvQUIC _ => RUDP | EvHTTP _ => RHTTP | EvTLS _ => RTLS | EvKTLS _ => RKTLS | EvIPv6 _ => RIPv6Obs
  | EvIOSend _ => RIoUring | EvIOTLS _ => RIoUringTLS | EvEgress _ => REgressBackstop | EvAudit _ => RBPFAudit
  | EvSelfDef _ => RSelfDefense
  end.

Definition sumZ {A} (f : A -> Z) (l : list A) : Z := foldr (fun x acc => f x + acc) 0 l.

(** Connect results are counted in buckets. *)
Definition results (s : runStats) (r : ring) : Z := if decide (r = RConnect) then total (tcpResultCounts s) else 0.

(** Records of the ring that were counted or dropped. *)
Definition tally (s : runStats) (r : ring) : Z :=
  sumZ (ct s) (ac_counted (accounts r)) + results s r + sumZ (fun k => dropped k s) (ac_drops (accounts r)).

(** Lines of the ring in the log, and events that have no line. *)
Definition lines_in (log : list event) (r : ring) : Z := len (filter (fun e => ring_of e = r) log).
Definition unlogged (s : runStats) (r : ring) : Z := sumZ (fun k => dropped k s) (ac_unlogged (accounts r)).
Definition logged_events (s : runStats) (r : ring) : Z := sumZ (ct s) (ac_lines (accounts r)) + results s r.

Section Due.
Context `{UnicodeCase}.

(** The little-endian integer of [n] bytes at an offset of a record, and its
    byte at an offset. *)
Definition uint_at (n : nat) (off : Z) (raw : bytes) : Z := le_val (take n (drop (Z.to_nat off) raw)).
Definition byte_at (off : Z) (raw : bytes) : Z := default 0 (raw !! Z.to_nat off).

(** Records that are counted nowhere, read off the bytes of the record:
    - of the connect ring, the canaries (first word 0xCA1A1210);
    - of the DNS ring, the messages that reach the cache: a length [n] of at
      most 4096, in the old layout (4100 bytes, UDP) or in the new one (4104
      bytes, transport at offset 4), with a whole DNS header after the length
      prefix of TCP;
    - every record of the io_uring ClientHello ring, which has no counter;
    - of the egress and self-defense rings, the records that the reader skips
      in silence: a short one, and an egress record of neither address family. *)
Definition uncounted (r : ring) (raw : bytes) : bool :=
  match r with
  | RConnect => (4 <=? len raw) && (uint_at 4 0 raw =? 0xCA1A1210)
  | RDNS => (uint_at 4 0 raw <=? 4096) &&
      (if len raw =? 4100 then 12 <=? uint_at 4 0 raw
       else (4104 <=? len raw) && ((if byte_at 4 raw =? 0 then 12 else 14) <=? uint_at 4 0 raw))
  | RIoUringTLS => true
  | REgressBackstop => (len raw <? 56) || negb ((byte_at 28 raw =? 2) || (byte_at 28 raw =? 10))
  | RSelfDefense => len raw <? 40
  | _ => false
  end.

(** Every other record has to be counted, once. *)
Definition due (r : ring) (raw : bytes) : Z := if uncounted r raw then 0 else 1.

(** Lines that have no counter: an io_uring record of the whole layout whose
    captured bytes (at 34, as many as the length at 32 says but at most 256)
    are a ClientHello that names a server. *)
Definition due_line (r : ring) (raw : bytes) : Z :=
  match r with
  | RIoUringTLS =>
    match ParseClientHelloSNI (take (Z.to_nat (Z.min 256 (uint_at 2 32 raw))) (drop 34 raw)) with
    | Ret (Some (_ :: _)) => if 304 <=? len raw then 1 else 0
    | _ => 0
    end
  | _ => 0
  end.

Definition records (f : ring -> bytes -> Z) (r : ring) (l : list (ring * bytes)) : Z :=
  sumZ (fun x => if decide (x.1 = r) then f x.1 x.2 else 0) l.
End Due.

(** ** Effect of the methods on the accounts *)

(** How often [x] occurs in [l]. *)
Definition occ {A} `{EqDecision A} (x : A) (l : list A) : Z := sumZ (fun y => if decide (y = x) then 1 else 0) l.

Lemma sumZ_ext {A} (f g : A -> Z) l : (forall x, f x = g x) -> sumZ f l = sumZ g l.
Proof. intros Hf. unfold sumZ. induction l; cbn [foldr]; rewrite ?Hf; lia. Qed.

Lemma sumZ_add {A} (f g : A -> Z) l : sumZ (fun x => f x + g x) l = sumZ f l + sumZ g l.
Proof. unfold sumZ. induction l; cbn [foldr]; lia. Qed.

Lemma sumZ_app {A} (f : A -> Z) l k : sumZ f (l ++ k) = sumZ f l + sumZ f k.
Proof. unfold sumZ. induction l; cbn [foldr app]; lia. Qed.

Lemma sum_ct_bumpc c s l : sumZ (ct (bumpc c s)) l = sumZ (ct s) l + occ c l.
Proof. unfold occ. rewrite <- sumZ_add. apply sumZ_ext. intros. apply ct_bumpc. Qed.

Lemma sum_dropped_add k s l : TrimSpace k <> [] ->
  sumZ (fun k' => dropped k' (addDropped k s)) l = sumZ (fun k' => dropped k' s) l + occ k l.
Proof.
  intros Hk. unfold occ. rewrite <- sumZ_add. apply sumZ_ext. intros k'. unfold dropped, addDropped.
  rewrite decide_False by done. cbn [with_maps droppedCounts]. apply count_incr.
Qed.

(** What a method adds to every account: to its tally, and to the balance of
    unlogged events and events that have a line. *)
Definition balance (s : runStats) (r : ring) : Z := unlogged s r - logged_events s r.

Definition adds (f : runStats -> runStats) (t b : ring -> Z) : Prop :=
  forall s r, tally (f s) r = tally s r + t r /\ balance (f s) r = balance s r + b r.

Lemma adds_bumpc c : adds (bumpc c) (fun r => occ c (ac_counted (accounts r))) (fun r => - occ c (ac_lines (accounts r))).
Proof.
  intros s r. unfold balance, tally, unlogged, logged_events, results. rewrite !sum_ct_bumpc.
  split; [|]; unfold dropped; cbn [bumpc setc droppedCounts tcpResultCounts]; lia.
Qed.

Lemma adds_dropped k : TrimSpace k <> [] ->
  adds (addDropped k) (fun r => occ k (ac_drops (accounts r))) (fun r => occ k (ac_unlogged (accounts r))).
Proof.
  intros Hk s r. unfold balance, tally, unlogged, logged_events. rewrite !sum_dropped_add by done.
  unfold results, addDropped. rewrite decide_False by done. cbn [with_maps ct tcpResultCounts]. split; lia.
Qed.

Lemma adds_same f : (forall s, ct (f s) = ct s /\ droppedCounts (f s) = droppedCounts s /\ tcpResultCounts (f s) = tcpResultCounts s) ->
  adds f (fun _ => 0) (fun _ => 0).
Proof.
  intros Hf s r. destruct (Hf s) as (E1 & E2 & E3). unfold tally, balance, unlogged, logged_events, results, dropped.
  rewrite E1, E2, E3. lia.
Qed.

Lemma adds_result b : TrimSpace b <> [] ->
  adds (addTCPResult b) (fun r => if decide (r = RConnect) then 1 else 0) (fun r => if decide (r = RConnect) then -1 else 0).
Proof.
  intros Hb s r. unfold tally, balance, unlogged, logged_events, results, dropped, addTCPResult.
  rewrite decide_False by done. cbn [with_maps ct droppedCounts tcpResultCounts].
  destruct (decide (r = RConnect)); rewrite ?total_incr; lia.
Qed.

Lemma adds_comp f g t b t' b' : adds f t b -> adds g t' b' -> adds (fun s => g (f s)) (fun r => t r + t' r) (fun r => b r + b' r).
Proof. intros Hf Hg s r. destruct (Hf s r), (Hg (f s) r). lia. Qed.

Lemma adds_eq f t b t' b' : adds f t b -> (forall r, t r = t' r) -> (forall r, b r = b' r) -> adds f t' b'.
Proof. intros Hf Ht Hb s r. rewrite <- Ht, <- Hb. apply Hf. Qed.

(** * Weakest preconditions *)

(** A field of a line: printable runes in UTF-8, at most [n] bytes. *)
Definition clean (n : Z) (s : bytes) : Prop :=
  exists rs, s = encode rs /\ len s <= n /\ Forall (fun r => scalar r /\ keep_rune r = true) rs.

(** The redaction of the path of a request. *)
Class Redact := redacted : bytes -> bytes.

(** The texts that a line takes from a record are clean, but for the path of a
    request: it is the redaction of a clean text, and the redaction may decode
    escapes (RedactedLog.v). *)
Definition clean_event `{Redact} (e : event) : Prop :=
  match e with
  | EvExec e => clean 16 (ex_Comm e) /\ clean 4096 (ex_Exe e)
  | EvFork e => clean 16 (pf_ParentComm e) /\ clean 16 (pf_ChildComm e)
  | EvFS e => clean 16 (fe_Comm e) /\ clean 4096 (fe_Path e)
  | EvTCP e => clean 16 (tc_Comm e) /\ clean 253 (tc_FQDN e)
  | EvTCPResult e => clean 16 (tr_Comm e)
  | EvTCPState e => clean 16 (tp_Comm e)
  | EvUDP e => clean 16 (ud_Comm e) /\ clean 253 (ud_FQDN e)
  | EvQUIC e => clean 16 (qc_Comm e)
  | EvHTTP e => clean 16 (ht_Comm e) /\ clean 16 (ht_Method e) /\ clean 253 (ht_Host e) /\ exists p, clean 4096 p /\ ht_Path e = redacted p
  | EvTLS e => clean 16 (tl_Comm e) /\ clean 253 (tl_SNI e)
  | EvKTLS e => clean 16 (kl_Comm e)
  | EvIPv6 e => clean 16 (v6_Comm e)
  | EvIOSend e => clean 16 (us_Comm e)
  | EvIOTLS e => clean 16 (ut_Comm e) /\ clean 253 (ut_SNI e)
  | EvEgress e => clean 16 (eg_Comm e)
  | EvAudit e => clean 16 (au_Comm e)
  | EvSelfDef e => clean 16 (sf_Comm e)
  end.

(** What an action may rely on. *)
Definition aok `{Redact} {B} (a : action B) : Prop :=
  match a with
  | AStat f => forall s, stats_inv s -> stats_inv (f s)
  | AEmit ev => forall n, clean_event (ev n) /\ Seq (ev n) = n
  | AAddPacket pkt => wf_bytes pkt
  | _ => True
  end.

Definition only (r : ring) (n : Z) : ring -> Z := fun r' => if decide (r' = r) then n else 0.

Section Wp.
Context `{Redact} (cfg : Config) (r : ring).

(** 1 when the event log is on. *)
Definition logging : Z := if decide (EventsLogPath cfg = []) then 0 else 1.

(** What an action with answer [b] pays into the accounts of [r]; those of the
    other rings are untouched. *)
Definition pays {B} (a : action B) : B -> Z -> Z -> Prop :=
  match a in action B return B -> Z -> Z -> Prop with
  | AStat f => fun _ d1 d2 => exists e2, d2 = logging * e2 /\ adds f (only r d1) (only r e2)
  | AEmit ev => fun ok d1 d2 => d1 = 0 /\ d2 = (if ok then logging else 0) /\ EventsLogPath cfg <> [] /\ forall n, ring_of (ev n) = r
  | _ => fun _ d1 d2 => d1 = 0 /\ d2 = 0
  end.

(** The task does not crash, its actions are allowed, and with [n1] and [n2]
    still owed at its start it ends in [Q]. *)
Fixpoint wp {A} (n1 n2 : Z) (t : task A) (Q : Z -> Z -> A -> Prop) : Prop :=
  match t with
  | Done a => Q n1 n2 a
  | Crash => False
  | Act a k => aok a /\ forall b, exists d1 d2, pays a b d1 d2 /\ wp (n1 - d1) (n2 - d2) (k b) Q
  end.

Lemma wp_mono {A} n1 n2 (t : task A) (Q R : Z -> Z -> A -> Prop) :
  wp n1 n2 t Q -> (forall m1 m2 a, Q m1 m2 a -> R m1 m2 a) -> wp n1 n2 t R.
Proof.
  revert n1 n2. induction t as [a| |B a k IH]; intros n1 n2 Ht HQ; cbn [wp] in *; [auto|done|].
  destruct Ht as [Ha Hk]. split; [done|]. intros b. destruct (Hk b) as (d1 & d2 & Hp & Hw). eauto 10.
Qed.

Lemma wp_bind {A C} n1 n2 (t : task A) (f : A -> task C) Q :
  wp n1 n2 t (fun m1 m2 a => wp m1 m2 (f a) Q) -> wp n1 n2 (t ≫= f) Q.
Proof.
  revert n1 n2. induction t as [a| |B a k IH]; intros n1 n2 Ht; cbn [wp mbind task_bind] in *; [done|done|].
  destruct Ht as [Ha Hk]. split; [done|]. intros b. destruct (Hk b) as (d1 & d2 & Hp & Hw).
  exists d1, d2. split; [done|]. by apply IH.
Qed.

Lemma wp_lift {A} n1 n2 (c : go A) (P : A -> Prop) Q : returns c P ->
  (forall a, c = Ret a -> P a -> Q n1 n2 a) -> wp n1 n2 (lift c) Q.
Proof. destruct c as [a|]; cbn; [eauto|done]. Qed.

Lemma wp_stat n1 n2 f e1 e2 (Q : Z -> Z -> unit -> Prop) : (forall s, stats_inv s -> stats_inv (f s)) -> adds f (only r e1) (only r e2) ->
  Q (n1 - e1) (n2 - logging * e2) tt -> wp n1 n2 (stat f) Q.
Proof. intros Hf Ha HQ. split; [done|]. intros []. exists e1, (logging * e2). split; [cbn; eauto|done]. Qed.

(** Actions that touch no account. *)
Definition neutral {B} (a : action B) : Prop := match a with AStat _ | AEmit _ => False | _ => True end.

Lemma wp_neutral {B} n1 n2 (a : action B) (Q : Z -> Z -> B -> Prop) : neutral a -> aok a -> (forall b, Q n1 n2 b) -> wp n1 n2 (act a) Q.
Proof.
  intros Hn Ha HQ. split; [done|]. intros b. exists 0, 0. rewrite !Z.sub_0_r. split; [|apply HQ]. by destruct a.
Qed.

Lemma wp_sanitize n1 n2 s n (Q : Z -> Z -> bytes -> Prop) : 0 <= n -> (forall out, clean n out -> Q n1 n2 out) -> wp n1 n2 (sanitize s n) Q.
Proof.
  intros Hn HQ. unfold sanitize. destruct (sanitize_any s n) as (out & rs & -> & -> & Hl & Hr). cbn. apply HQ. exists rs.
  split_and!; [done|lia|done].
Qed.

Lemma wp_logLine n1 n2 ev k (Q : Z -> Z -> unit -> Prop) :
  (forall n, clean_event (ev n) /\ Seq (ev n) = n /\ ring_of (ev n) = r) -> adds (addDropped k) (only r 0) (only r 1) ->
  Q n1 (n2 - logging) tt -> wp n1 n2 (logLine cfg ev k) Q.
Proof.
  intros Hev Hk HQ. unfold logLine. case_decide as Hc.
  { unfold logging in HQ. rewrite decide_True in HQ by done. rewrite Z.sub_0_r in HQ. done. }
  cbn [wp mbind task_bind act]. split; [intros n; by destruct (Hev n) as (? & ? & ?)|].
  intros [|]; eexists _, _.
  - split; [split_and!; [done..|]; intros n; by destruct (Hev n) as (? & ? & ?)|]. cbn [wp]. by rewrite Z.sub_0_r.
  - split; [split_and!; [done..|]; intros n; by destruct (Hev n) as (? & ? & ?)|]. rewrite !Z.sub_0_r.
    eapply wp_stat; [eauto|exact Hk|]. by rewrite Z.sub_0_r, Z.mul_1_r.
Qed.
End Wp.

(** ** What the methods pay *)

Lemma adds_policy cl : adds (addPolicyLocked cl) (fun _ => 0) (fun _ => 0).
Proof. by apply adds_same. Qed.

Lemma adds_domain d : adds (incDomainCount d) (fun _ => 0) (fun _ => 0).
Proof. apply adds_same. intros s. unfold incDomainCount. by case_decide. Qed.

Lemma adds_sni d : adds (addIoUringTLSSNI d) (fun _ => 0) (fun _ => 0).
Proof. apply adds_same. intros s. unfold addIoUringTLSSNI. by case_decide. Qed.

(** [pays_with lem] computes what a method pays, by [lem], and compares it with
    the account. *)
Ltac pays_with lem := eapply adds_eq;
  [apply lem; try (vm_compute; discriminate)|intros []; vm_compute; reflexivity|intros []; vm_compute; reflexivity].
Ltac classified c cl := eapply adds_eq; [exact (adds_comp _ _ _ _ _ _ (adds_bumpc c) (adds_policy cl))
  |intros []; vm_compute; reflexivity|intros []; vm_compute; reflexivity].

Lemma pays_addTCP cl : adds (addTCP cl) (only RConnect 1) (only RConnect (-1)).
Proof. classified tcpN cl. Qed.

Lemma pays_addUDP cl : adds (addUDP cl) (only RUDP 1) (only RUDP (-1)).
Proof. classified udpN cl. Qed.

Lemma pays_addHTTP cl : adds (addHTTP cl) (only RHTTP 1) (only RHTTP (-1)).
Proof. classified httpN cl. Qed.

Lemma adds_free c : (forall r, occ c (ac_counted (accounts r)) = 0 /\ occ c (ac_lines (accounts r)) = 0) -> adds (bumpc c) (fun _ => 0) (fun _ => 0).
Proof. intros Hc. eapply adds_eq; [apply adds_bumpc|..]; intros r; destruct (Hc r); lia. Qed.

Lemma adds_then f g t b : adds f t b -> adds g (fun _ => 0) (fun _ => 0) -> adds (fun s => g (f s)) t b.
Proof. intros Hf Hg. eapply adds_eq; [exact (adds_comp _ _ _ _ _ _ Hf Hg)|..]; intros; cbn; lia. Qed.

Lemma adds_id : adds (fun s => s) (fun _ => 0) (fun _ => 0).
Proof. by apply adds_same. Qed.

Ltac free_counters := first [exact adds_id | apply adds_free; intros []; split; reflexivity].

Lemma adds_tier c : (forall r, occ c (ac_counted (accounts r)) = 0 /\ occ c (ac_lines (accounts r)) = 0) ->
  adds (fun s => bumpc c (bumpc tlsN s)) (only RTLS 1) (only RTLS (-1)).
Proof. intros Hc. apply (adds_then (bumpc tlsN) (bumpc c)); [by pays_with adds_bumpc|by apply adds_free]. Qed.

Lemma pays_addTLS cl conf ktls : adds (addTLS cl conf ktls) (only RTLS 1) (only RTLS (-1)).
Proof.
  unfold addTLS. destruct conf; [| | |destruct ktls]; cbv zeta.
  1-3,5: refine (adds_then (fun s => bumpc _ (bumpc tlsN s)) (addPolicyLocked cl) _ _ _ (adds_policy cl)); apply adds_tier; by intros [].
  refine (adds_then (fun s => bumpc _ (bumpc _ (bumpc tlsN s))) (addPolicyLocked cl) _ _ _ (adds_policy cl)).
  refine (adds_then (fun s => bumpc _ (bumpc tlsN s)) (bumpc _) _ _ _ _); [apply adds_tier; by intros []|free_counters].
Qed.

Lemma pays_addTCPState c f : adds (addTCPState c f) (only RTCPState 1) (only RTCPState (-1)).
Proof.
  unfold addTCPState. apply (adds_then _ (fun s => if f then bumpc tcpStateRefused s else s)); [|destruct f; free_counters].
  apply (adds_then (bumpc tcpStateN) (fun s => if c then bumpc tcpStateConfirmed s else s)); [by pays_with adds_bumpc|].
  destruct c; free_counters.
Qed.

Lemma adds_frame f g t b : adds f t b ->
  (forall s, ct (g s) = ct (f s) /\ droppedCounts (g s) = droppedCounts (f s) /\ tcpResultCounts (g s) = tcpResultCounts (f s)) -> adds g t b.
Proof.
  intros Hf Hg s r. destruct (Hf s r) as [<- <-], (Hg s) as (E1 & E2 & E3).
  unfold tally, balance, unlogged, logged_events, results, dropped. by rewrite E1, E2, E3.
Qed.

Lemma pays_addEgressBackstop d : adds (addEgressBackstop d) (only REgressBackstop 1) (only REgressBackstop (-1)).
Proof.
  apply (adds_frame (bumpc egressBackstopN)); [by pays_with adds_bumpc|]. intros s. unfold addEgressBackstop. by case_decide.
Qed.

Lemma pays_addTCPResult x : adds (addTCPResult (ConnectResultString x)) (only RConnect 1) (only RConnect (-1)).
Proof.
  eapply adds_eq; [apply adds_result|..]; [|by intros []..]. unfold ConnectResultString. repeat case_match; vm_compute; discriminate.
Qed.

(** [pays_auto] finds what a method pays. *)
Create HintDb accounts discriminated.
#[export] Hint Resolve pays_addTCP pays_addUDP pays_addHTTP pays_addTLS pays_addTCPState pays_addEgressBackstop pays_addTCPResult : accounts.
Ltac pays_auto := lazymatch goal with
  | |- adds (addDropped _) _ _ => pays_with adds_dropped
  | |- adds (incDomainCount _) _ _ => pays_with adds_domain
  | |- adds (addIoUringTLSSNI _) _ _ => pays_with adds_sni
  | |- _ => first [solve [auto with accounts nocore] | pays_with adds_bumpc]
  end.

(** ** Decoded fields *)

(** The decoder does not panic, and a decoded record satisfies [P]. *)
Definition decodes {A} (dec : bytes -> go (option A)) (P : A -> Prop) : Prop :=
  forall raw, wf_bytes raw -> returns (dec raw) (fun o => forall d, o = Some d -> P d).

Ltac decode_fields :=
  repeat (lazymatch goal with
          | |- returns (Ret _) _ => apply returns_ret; intros ? [= <-]; cbn; auto
          | |- _ => decode_step
          end).
Ltac decodes_by := intros raw Hw; unfold dnsSniffEventWireSizeLegacy, dnsSniffEventWireSize, dnsSniffMaxPayload,
    tlsSniffEventIPv6Offset, tlsSniffEventHeaderSize, httpSniffEventHeaderSize, tlsPayloadMax, httpPayloadMax,
    connectEventWireSize, udpSendEventWireSize, httpSniffEventWireSize, tlsSniffEventWireSize,
    bpfAuditEventWireSize, ktlsEventWireSize, tcpStateEventWireSize, ioUringSendEventWireSize,
    egressBackstopEventWireSize, ioUringTLSEventWireSize, ioUringTLSPayloadMax, bpfSelfDefenseEventWireSize,
    connectResultEventWireSize, execEventSize, forkEventSize, fsEventSize, ipv6ObsEventWireSize;
  decode_fields.

Lemma exec_decodes : decodes readExecEvent (fun _ => True).
Proof. unfold readExecEvent. decodes_by. Qed.
Lemma fork_decodes : decodes readForkEvent (fun _ => True).
Proof. unfold readForkEvent. decodes_by. Qed.
Lemma fs_decodes : decodes readFSEvent (fun _ => True).
Proof. unfold readFSEvent. decodes_by. Qed.
Lemma ipv6_decodes : decodes readIPv6ObsEvent (fun d => wf_bytes (iw_Dport d) /\ length (iw_Dport d) = 2%nat).
Proof. unfold readIPv6ObsEvent. decodes_by. Qed.
Lemma connect_decodes : decodes decodeConnectEvent (fun d => length (ce_daddr d) = 4%nat).
Proof. unfold decodeConnectEvent. decodes_by. Qed.
Lemma result_decodes : decodes decodeConnectResultEvent (fun _ => True).
Proof. unfold decodeConnectResultEvent. decodes_by. Qed.
Lemma udp_decodes : decodes decodeUDPSendEvent (fun d => length (us_daddr d) = 4%nat).
Proof. unfold decodeUDPSendEvent. decodes_by. Qed.
Lemma http_decodes : decodes decodeHTTPSniffEvent (fun d => length (hs_daddr d) = 4%nat).
Proof. unfold decodeHTTPSniffEvent. decodes_by. Qed.
Lemma tls_decodes : decodes decodeTLSSniffEvent (fun d => length (ts_daddr d) = 4%nat /\ length (ts_daddr6 d) = 16%nat /\ wf_bytes (ts_payload d)).
Proof. unfold decodeTLSSniffEvent. decodes_by. Qed.
Lemma dns_decodes : decodes decodeDNSSniffSample (fun d => wf_bytes d.1).
Proof. unfold decodeDNSSniffSample. decodes_by. Qed.
Lemma audit_decodes : decodes decodeBPFAuditEvent (fun _ => True).
Proof. unfold decodeBPFAuditEvent. decodes_by. Qed.
Lemma ktls_decodes : decodes decodeKTLSEvent (fun _ => True).
Proof. unfold decodeKTLSEvent. decodes_by. Qed.
Lemma tcp_state_decodes : decodes decodeTCPStateEvent (fun d => length (st_daddr d) = 4%nat).
Proof. unfold decodeTCPStateEvent. decodes_by. Qed.
Lemma io_uring_decodes : decodes decodeIOUringSendEvent (fun _ => True).
Proof. unfold decodeIOUringSendEvent. decodes_by. Qed.
Lemma egress_decodes : decodes decodeEgressBackstopEvent (fun _ => True).
Proof. unfold decodeEgressBackstopEvent. decodes_by. Qed.
Lemma self_defense_decodes : decodes decodeBpfSelfDefenseEvent (fun _ => True).
Proof. unfold decodeBpfSelfDefenseEvent. decodes_by. Qed.
Lemma io_uring_tls_decodes : decodes decodeIOUringTLSEvent (fun d => wf_bytes (it_payload d)).
Proof. unfold decodeIOUringTLSEvent. decodes_by. case_match; z_bool; decode_fields. Qed.

(** ** The handlers *)

(** Nothing is owed at the end. *)
Definition settled {A} : Z -> Z -> A -> Prop := fun m1 m2 _ => m1 = 0 /\ m2 = 0.

(** [wps] runs a handler up to its next branch. *)
Ltac paying e1 e2 := apply (wp_stat _ _ _ _ _ e1 e2);
  [first [solve [eauto] | intros; apply stats_inv_bumpc; [reflexivity|assumption]]|solve [pays_auto]|].
Ltac wps := repeat (cbv beta; lazymatch goal with
  | |- wp _ _ _ _ (mbind _ _) _ => apply wp_bind
  | |- wp _ _ _ _ (sanitize _ _) _ => apply wp_sanitize; [lia|intros ? ?]
  | |- wp _ _ _ _ (act _) _ => apply wp_neutral; [exact I|exact I|intros ?]
  | |- wp _ _ _ _ (stat (addDropped _)) _ => first [paying 1 0 | paying 0 1]
  | |- wp _ _ _ _ (stat _) _ => first [paying 1 (-1) | paying 0 0 | paying 0 (-1)]
  | |- wp _ _ _ _ (logLine _ _ _) _ => apply wp_logLine; [intros ?; cbn; eauto 10|solve [pays_auto]|]
  | |- wp _ _ _ _ (Done _) _ => cbn [wp]
  | |- settled _ _ _ => split; lia
  end).
(** Run a decoder that satisfies [lem]. *)
Ltac wp_decode lem := wps; eapply wp_lift; [apply lem; assumption|]; cbv beta; intros [?d|] ? ?Hd; [specialize (Hd _ eq_refl)|].

Section HandlersWp.
Context `{UnicodeCase} `{!RangeOrder tlsReassemblyKey}.
Context (cfg : Config) (pol : option Policy) (redact : bytes -> bytes).
#[local] Instance redact_here : Redact := redact.

Lemma exec_wp raw : wf_bytes raw -> wp cfg RExec 1 0 (handleExec cfg raw) settled.
Proof. intros Hw. unfold handleExec. wp_decode exec_decodes; wps. Qed.

Lemma fork_wp raw : wf_bytes raw -> wp cfg RFork 1 0 (handleFork cfg raw) settled.
Proof. intros Hw. unfold handleFork. wp_decode fork_decodes; wps. Qed.

Lemma ktls_wp raw : wf_bytes raw -> wp cfg RKTLS 1 0 (handleKTLS cfg raw) settled.
Proof. intros Hw. unfold handleKTLS. wp_decode ktls_decodes; wps. Qed.

Lemma audit_wp raw : wf_bytes raw -> wp cfg RBPFAudit 1 0 (handleBPFAudit cfg raw) settled.
Proof. intros Hw. unfold handleBPFAudit. wp_decode audit_decodes; wps. Qed.

Lemma io_uring_wp raw : wf_bytes raw -> wp cfg RIoUring 1 0 (handleIoUring cfg raw) settled.
Proof. intros Hw. unfold handleIoUring. wp_decode io_uring_decodes; wps. repeat case_match; wps. Qed.

Lemma returns_BE_Uint16 s : wf_bytes s -> length s = 2%nat -> returns (BE_Uint16 s) (fun _ => True).
Proof. intros Hw Hl. apply returns_get_be; [done|unfold len; lia|done]. Qed.

Lemma ipv6_wp raw : wf_bytes raw -> wp cfg RIPv6Obs 1 0 (handleIPv6Obs cfg raw) settled.
Proof.
  intros Hw. unfold handleIPv6Obs. wp_decode ipv6_decodes; wps. destruct Hd. eapply wp_lift; [by apply returns_BE_Uint16|].
  intros dport _ _. wps.
Qed.

(** A 4-byte address has a 4-byte form. *)
Lemma To4_short ip : length ip = 4%nat -> To4 ip = Some ip.
Proof. intros Hl. unfold To4. by rewrite decide_True. Qed.

Lemma udp_wp raw : wf_bytes raw -> wp cfg RUDP 1 0 (handleUDP cfg pol raw) settled.
Proof.
  intros Hw. unfold handleUDP, lookupFQDN. wp_decode udp_decodes; wps. rewrite To4_short by done. wps.
  destruct (IsQUICCandidate _ _); wps.
Qed.

Lemma http_wp raw : wf_bytes raw -> wp cfg RHTTP 1 0 (handleHTTP cfg pol redact raw) settled.
Proof.
  intros Hw. unfold handleHTTP. wp_decode http_decodes; wps. rewrite To4_short by done. wps.
  destruct (ParseHTTPRequestPrefix _) as [[[method host] path]|]; wps.
Qed.

Lemma transition_excl s : (classifyTCPStateTransition s).1 && (classifyTCPStateTransition s).2 = false.
Proof. unfold classifyTCPStateTransition. by repeat case_decide. Qed.

Lemma tcp_state_wp raw : wf_bytes raw -> wp cfg RTCPState 1 0 (handleTCPState cfg raw) settled.
Proof.
  intros Hw. unfold handleTCPState. wp_decode tcp_state_decodes; wps. pose proof (transition_excl (TCPStateName (st_newState d))) as Hx.
  destruct (classifyTCPStateTransition _) as [c f]. wps. rewrite To4_short by done. wps.
Qed.

Lemma connect_result_wp raw : wf_bytes raw -> wp cfg RConnect 1 0 (handleConnectResult cfg raw) settled.
Proof. intros Hw. unfold handleConnectResult. wp_decode result_decodes; wps. Qed.

Lemma connect_event_wp raw : wf_bytes raw -> wp cfg RConnect 1 0 (handleConnectEvent cfg pol raw) settled.
Proof. intros Hw. unfold handleConnectEvent, lookupFQDN. wp_decode connect_decodes; wps. rewrite To4_short by done. wps. Qed.

(** The kind of a connect record, and the fields of a record, off its bytes. *)
Lemma le_at_read n raw off : 0 <= off -> off + Z.of_nat n <= len raw -> le_at n raw off = Ret (uint_at n off raw).
Proof.
  intros H0 Hl. unfold le_at, uint_at. rewrite slice_in_range by lia. cbn [mbind go_bind].
  replace (Z.to_nat (off + Z.of_nat n - off)) with n by lia. rewrite get_le_ok by len_lia. by rewrite take_take, Nat.min_id.
Qed.

Lemma idx_read raw off : 0 <= off < len raw -> idx raw off = Ret (byte_at off raw).
Proof. intros Hl. destruct (idx_in_range raw off) as (b & -> & E); [lia|]. unfold byte_at. by rewrite E. Qed.

Lemma classify_read raw : returns (classifyConnectRingRecord raw) (fun k =>
  match k with connectRingKindCanary => uncounted RConnect raw = true | _ => uncounted RConnect raw = false end).
Proof.
  unfold classifyConnectRingRecord, uncounted. destruct (Z.leb_spec 4 (len raw)).
  - rewrite (proj2 (Z.ltb_ge _ _)) by done. rewrite (le_at_read 4 raw 0) by lia. cbn [mbind go_bind andb]. unfold canaryMagic, connectResultMagic.
    destruct (_ =? 0xCA1A1210); [done|]. by destruct (_ =? 0xC0EE0001).
  - by rewrite (proj2 (Z.ltb_lt _ _)).
Qed.

Lemma connect_wp raw : wf_bytes raw -> wp cfg RConnect (due RConnect raw) 0 (handleConnect cfg pol raw) settled.
Proof.
  intros Hw. unfold handleConnect, due. wps. eapply wp_lift; [by apply classify_read|]. intros kind _ Hk.
  destruct kind; rewrite Hk; [by apply connect_event_wp| |by apply connect_result_wp].
  unfold canaryEventWireSize. destruct (Z.leb_spec 16 (len raw)); wps.
  eapply wp_lift; [apply (returns_le_at _ _ _ (fun _ => True)); [done|lia..|done]|]. intros n _ _. wps.
Qed.

(** Handlers with a local state keep the reassembler's invariant. *)
Definition settled_local : Z -> Z -> local -> Prop := fun m1 m2 l => m1 = 0 /\ m2 = 0 /\ reasm_inv (lo_reasm l).

Lemma fs_wp l raw : wf_bytes raw -> reasm_inv (lo_reasm l) -> wp cfg RFS 1 0 (handleFS cfg l raw) settled_local.
Proof.
  intros Hw Hl. unfold handleFS. wp_decode fs_decodes; wps; [|split_and!; [lia|lia|done]].
  case_match; wps; (split_and!; [lia|lia|done]).
Qed.

Lemma tls_sni_wp n1 n2 l d Q : wf_bytes (ts_payload d) -> reasm_inv (lo_reasm l) ->
  (forall l' o, reasm_inv (lo_reasm l') -> Q n1 n2 (l', o)) -> wp cfg RTLS n1 n2 (tlsSNI l d) Q.
Proof.
  intros Hw Hl HQ. unfold tlsSNI. wps. eapply wp_lift; [by apply ParseClientHelloSNI_safe|]. intros [sni|] _ _; [wps; auto|].
  destruct (tlsReassemblyKeyForEvent _ _ _ _ _) as [key|]; wps; [|auto].
  destruct (append_inv (lo_reasm l) key (ts_payload d) b b0 b1 Hl Hw) as (r' & res & -> & Hr'). cbn. destruct (ar_parsed res); cbn; auto.
Qed.

Lemma tlsDst_some d : length (ts_daddr d) = 4%nat -> length (ts_daddr6 d) = 16%nat -> exists ip, tlsDst d = Some ip.
Proof. intros H4 H6. unfold tlsDst. destruct (ts_isIPv6 d); [rewrite decide_True by done|rewrite To4_short by done]; eauto. Qed.

Lemma tls_wp l raw : wf_bytes raw -> reasm_inv (lo_reasm l) -> wp cfg RTLS 1 0 (handleTLS cfg pol l raw) settled_local.
Proof.
  intros Hw Hl. unfold handleTLS. wp_decode tls_decodes; wps; [|split_and!; [lia|lia|done]].
  destruct Hd as (H4 & H6 & Hp). destruct (tlsDst_some _ H4 H6) as [ip ->]. wps.
  apply tls_sni_wp; [done|done|]. intros l' [[sni re]|] Hl'; wps; (split_and!; [lia|lia|done]).
Qed.

(** What of a DNS sample is handed to the cache, and the kinds of its drops. *)
Definition dns_ok (raw : bytes) (m : result bytes bytes) : Prop :=
  match m with
  | Ok pkt => wf_bytes pkt /\ uncounted RDNS raw = true
  | Err k => (k = str "dns_decode" \/ k = str "dns_decode_tcp_short") /\ uncounted RDNS raw = false
  end.

Lemma dns_sample_read raw : wf_bytes raw -> returns (decodeDNSSniffSample raw) (fun o =>
  match o with
  | Some (pkt, tcp) => wf_bytes pkt /\ len pkt = uint_at 4 0 raw /\ len pkt <= 4096 /\
      if len raw =? 4100 then tcp = false else 4104 <= len raw /\ tcp = negb (byte_at 4 raw =? 0)
  | None => uncounted RDNS raw = false
  end).
Proof.
  intros Hw. unfold decodeDNSSniffSample, uncounted, dnsSniffMaxPayload, dnsSniffEventWireSizeLegacy, dnsSniffEventWireSize, dnsSniffMaxPayload.
  change (4 + 4096) with 4100. change (4 + 1 + 3 + 4096) with 4104. destruct (Z.ltb_spec (len raw) 4).
  { apply returns_ret. destruct (Z.eqb_spec (len raw) 4100); [lia|]. rewrite (proj2 (Z.leb_gt 4104 _)) by lia. apply andb_false_r. }
  rewrite (le_at_read 4 raw 0) by lia. cbn [mbind go_bind]. pose proof (le_val_bounds (take 4 (drop (Z.to_nat 0) raw)) ltac:(by apply Forall_take, Forall_drop)) as Hn.
  fold (uint_at 4 0 raw) in Hn. destruct (Z.ltb_spec 4096 (uint_at 4 0 raw)); [apply returns_ret; by rewrite (proj2 (Z.leb_gt _ _))|].
  destruct (Z.eqb_spec (len raw) 4100).
  - rewrite (proj2 (Z.ltb_ge _ _)) by lia. apply returns_bind, returns_slice; [done|lia..|]. intros t Ht El Hl. apply returns_ret. split_and!; [done|lia|lia|done].
  - destruct (Z.ltb_spec (len raw) 4104); [apply returns_ret; rewrite (proj2 (Z.leb_gt 4104 _)) by lia; apply andb_false_r|].
    rewrite (idx_read raw 4) by lia. cbn [mbind go_bind]. rewrite (proj2 (Z.ltb_ge _ _)) by lia.
    apply returns_bind, returns_slice; [done|lia..|]. intros t Ht El Hl. apply returns_ret. split_and!; [done|lia|lia|lia|done].
Qed.

Lemma dns_message_ok raw : wf_bytes raw -> returns (dnsMessage raw) (dns_ok raw).
Proof.
  intros Hw. unfold dnsMessage. apply returns_bind. eapply returns_mono; [by apply dns_sample_read|]. cbv beta. intros [[pkt tcp]|] Hd; [|by split; [left|]].
  destruct Hd as (Hp & Hn & Hm & Ht). unfold dns_ok, uncounted. rewrite <- Hn. rewrite (proj2 (Z.leb_le _ _)) by done. cbn [andb].
  assert ((if len raw =? 4100 then 12 <=? len pkt else (4104 <=? len raw) && ((if byte_at 4 raw =? 0 then 12 else 14) <=? len pkt)) =
    ((if tcp then 14 else 12) <=? len pkt)) as ->.
  { destruct (len raw =? 4100); [by rewrite Ht|]. destruct Ht as [H4 ->]. rewrite (proj2 (Z.leb_le _ _)) by done. by destruct (byte_at 4 raw =? 0). }
  destruct tcp.
  - destruct (Z.leb_spec 14 (len pkt)).
    + rewrite !(proj2 (Z.ltb_ge _ _)) by lia. apply returns_bind. unfold slice_from.
      apply returns_slice; [done|lia..|]. intros t ? ? ?. by rewrite (proj2 (Z.ltb_ge _ _)) by lia.
    + destruct (len pkt <? 12); [by split; [left|]|]. rewrite (proj2 (Z.ltb_lt _ _)) by lia. by split; [right|].
  - destruct (Z.leb_spec 12 (len pkt)); [rewrite (proj2 (Z.ltb_ge _ _)) by lia; done|].
    rewrite (proj2 (Z.ltb_lt _ _)) by lia. by split; [left|].
Qed.

Lemma dns_wp raw : wf_bytes raw -> wp cfg RDNS (due RDNS raw) 0 (handleDNS raw) settled.
Proof.
  intros Hw. unfold handleDNS, due. wps. eapply wp_lift; [by apply dns_message_ok|]. intros m _ Hm.
  destruct m as [pkt|k]; destruct Hm as [Hm ->].
  - apply wp_neutral; [exact I|exact Hm|]. intros u. by split.
  - destruct Hm as [-> | ->]; wps.
Qed.

(** The rings that skip a record in silence: what the reader makes of a record
    against its bytes, and that the text of the event is clean. *)
Lemma sanitize_returns s n : 0 <= n -> returns (SanitizeField s n) (clean n).
Proof. intros Hn. destruct (sanitize_any s n) as (out & rs & -> & -> & Hl & Hr). cbn. exists rs. split_and!; [done|lia|done]. Qed.

Lemma backstop_read raw : wf_bytes raw -> returns (decodeEgressBackstopEvent raw) (fun o =>
  match o with Some b => 56 <= len raw /\ eb_af b = byte_at 28 raw | None => len raw < 56 end).
Proof.
  intros Hw. unfold decodeEgressBackstopEvent, egressBackstopEventWireSize. destruct (len raw <? 56) eqn:?; z_bool; [done|].
  rewrite (idx_read raw 28) by lia. repeat first [decode_step|progress cbn [mbind go_bind]]. by apply returns_ret.
Qed.

Lemma egress_spec raw ts : wf_bytes raw -> returns (egressBackstopEventFromRaw raw ts 0) (fun o =>
  match o with Some e => uncounted REgressBackstop raw = false /\ clean 16 (eg_Comm e) | None => uncounted REgressBackstop raw = true end).
Proof.
  intros Hw. unfold egressBackstopEventFromRaw, uncounted. apply returns_bind. eapply returns_mono; [by apply backstop_read|]. cbv beta.
  intros [b|] Hb; [destruct Hb as [Hl <-]; rewrite (proj2 (Z.ltb_ge _ _)) by done|by rewrite (proj2 (Z.ltb_lt _ _))]. cbv zeta.
  unfold linuxAFInet, linuxAFInet6. destruct (eb_af b =? 2); [|destruct (eb_af b =? 10); [|done]];
    (apply returns_bind; eapply returns_mono; [by apply sanitize_returns|]; cbv beta; intros c Hc; by apply returns_ret).
Qed.

Lemma self_defense_spec raw ts : wf_bytes raw -> returns (bpfSelfDefenseEventFromRaw raw ts 0) (fun o =>
  match o with Some e => uncounted RSelfDefense raw = false /\ clean 16 (sf_Comm e) | None => uncounted RSelfDefense raw = true end).
Proof.
  intros Hw. unfold bpfSelfDefenseEventFromRaw, decodeBpfSelfDefenseEvent, uncounted, bpfSelfDefenseEventWireSize.
  destruct (len raw <? 40) eqn:?; z_bool; [done|]. apply returns_bind. repeat decode_step. apply returns_ret.
  apply returns_bind. eapply returns_mono; [by apply sanitize_returns|]. cbv beta. intros c Hc. by apply returns_ret.
Qed.

(** The captured bytes of an io_uring record. *)
Definition hello_bytes (raw : bytes) : bytes := take (Z.to_nat (Z.min 256 (uint_at 2 32 raw))) (drop 34 raw).

Lemma io_tls_read raw : wf_bytes raw -> returns (decodeIOUringTLSEvent raw) (fun o =>
  match o with Some u => 304 <= len raw /\ it_payload u = hello_bytes raw | None => len raw < 304 end).
Proof.
  intros Hw. unfold decodeIOUringTLSEvent, ioUringTLSEventWireSize, ioUringTLSPayloadMax. destruct (len raw <? 304) eqn:?; z_bool; [done|].
  pose proof (le_val_bounds (take 2 (drop (Z.to_nat 32) raw)) ltac:(by apply Forall_take, Forall_drop)) as Hn. fold (uint_at 2 32 raw) in Hn.
  rewrite (le_at_read 2 raw 32) by lia.
  assert ((if 256 <? uint_at 2 32 raw then 256 else uint_at 2 32 raw) = Z.min 256 (uint_at 2 32 raw)) as E.
  { destruct (Z.ltb_spec 256 (uint_at 2 32 raw)); lia. }
  do 4 decode_step. cbn [mbind go_bind]. cbv zeta. rewrite E, slice_in_range by lia. cbn [mbind go_bind]. unfold hello_bytes.
  replace (34 + Z.min 256 (uint_at 2 32 raw) - 34) with (Z.min 256 (uint_at 2 32 raw)) by lia. repeat decode_step. by apply returns_ret.
Qed.

Lemma io_tls_spec raw ts : wf_bytes raw -> returns (ioUringTLSEventFromRaw raw ts 0) (fun o =>
  match o with
  | Some e => due_line RIoUringTLS raw = 1 /\ clean 16 (ut_Comm e) /\ clean 253 (ut_SNI e)
  | None => due_line RIoUringTLS raw = 0
  end).
Proof.
  intros Hw. unfold ioUringTLSEventFromRaw, due_line. fold (hello_bytes raw).
  assert (wf_bytes (hello_bytes raw)) as Hh by by apply Forall_take, Forall_drop. destruct (ParseClientHelloSNI_total _ Hh) as [p E]. rewrite E.
  apply returns_bind. eapply returns_mono; [by apply io_tls_read|]. cbv beta. intros [u|] Hu.
  - destruct Hu as [Hl ->]. rewrite E. cbn [mbind go_bind]. rewrite (proj2 (Z.leb_le _ _)) by done.
    destruct p as [[|c sni]|]; [by rewrite decide_True| |done]. rewrite decide_False by done. cbv zeta.
    apply returns_bind. eapply returns_mono; [by apply sanitize_returns|]. cbv beta. intros c1 Hc1.
    apply returns_bind. eapply returns_mono; [by apply sanitize_returns|]. cbv beta. intros c2 Hc2. by apply returns_ret.
  - apply returns_ret. destruct p as [[|c sni]|]; [done| |done]. by rewrite (proj2 (Z.leb_gt _ _)).
Qed.

Lemma egress_wp raw : wf_bytes raw -> wp cfg REgressBackstop (due REgressBackstop raw) 0 (handleEgressBackstop cfg raw) settled.
Proof.
  intros Hw. unfold handleEgressBackstop, due. wps. eapply wp_lift; [by apply egress_spec|]. cbv beta. intros o _ Ho.
  destruct o as [ev|]; [destruct Ho as [-> Hc]|rewrite Ho]; wps.
Qed.

Lemma self_defense_wp raw : wf_bytes raw -> wp cfg RSelfDefense (due RSelfDefense raw) 0 (handleBpfSelfDefense cfg raw) settled.
Proof.
  intros Hw. unfold handleBpfSelfDefense, due. wps. eapply wp_lift; [by apply self_defense_spec|]. cbv beta. intros o _ Ho.
  destruct o as [ev|]; [destruct Ho as [-> Hc]|rewrite Ho]; wps.
Qed.

Lemma io_tls_wp raw : wf_bytes raw -> wp cfg RIoUringTLS 0 (logging cfg * due_line RIoUringTLS raw) (handleIoUringTLS cfg raw) settled.
Proof.
  intros Hw. unfold handleIoUringTLS. wps. eapply wp_lift; [by apply io_tls_spec|]. cbv beta. intros o _ Ho.
  destruct o as [ev|]; [destruct Ho as [-> Hc]|rewrite Ho]; wps.
Qed.

(** Every handler settles what its record owes. *)
Lemma handler_wp r l raw : wf_bytes raw -> reasm_inv (lo_reasm l) ->
  wp cfg r (due r raw) (logging cfg * due_line r raw) (handler cfg pol redact r l raw) settled_local.
Proof.
  intros Hw Hl.
  assert (forall n1 n2 (t : task unit), wp cfg r n1 n2 t settled -> wp cfg r n1 n2 (_ ← t; Done l) settled_local) as Hkeep.
  { intros n1 n2 t Ht. apply wp_bind. eapply wp_mono; [exact Ht|]. intros m1 m2 a [-> ->]. done. }
  destruct r; cbn [handler]; cbn [due uncounted due_line]; rewrite ?Z.mul_0_r; try apply Hkeep.
  - by apply exec_wp.
  - by apply fork_wp.
  - by apply fs_wp.
  - by apply connect_wp.
  - by apply tls_wp.
  - by apply udp_wp.
  - by apply http_wp.
  - by apply dns_wp.
  - by apply ktls_wp.
  - by apply tcp_state_wp.
  - by apply io_uring_wp.
  - by apply io_tls_wp.
  - by apply egress_wp.
  - by apply self_defense_wp.
  - by apply audit_wp.
  - by apply ipv6_wp.
Qed.
End HandlersWp.

(** * The invariant of the running agent *)

Section Books.
Context {M : Type} `{UnicodeCase} `{!BpfMapOps bytes bytes M} `{!RangeOrder bytes} `{!RangeOrder tlsReassemblyKey} `{!RangeOrder ktlsKey}.
Context (cfg : Config) (pol : option Policy) (redact : bytes -> bytes).
#[local] Instance redact_of : Redact := redact.
Implicit Types (w : world M) (s : shared M).

(** Lines and unlogged events, less the events that should have a line. *)
Definition log_balance s (r : ring) : Z := lines_in (sh_log s) r + balance (sh_stats s) r.

Definition owed w (r : ring) : Z := records due r (w_in w) - tally (sh_stats (w_sh w)) r.
Definition owed_lines w (r : ring) : Z := logging cfg * (records due_line r (w_in w) - log_balance (w_sh w) r).

Definition reader_inv w (r : ring) : Prop :=
  match w_rd w r with
  | Waiting l _ => settled_local (owed w r) (owed_lines w r) l
  | Handling t => wp cfg r (owed w r) (owed_lines w r) t settled_local
  | Returned _ => owed w r = 0 /\ owed_lines w r = 0
  end.

Definition shared_inv s : Prop := stats_inv (sh_stats s) /\ (exists c, sh_dns s = Some c /\ 0 <= maxEntries c) /\ Forall clean_event (sh_log s).

(** Sequence numbers are drawn in the order of the lines. *)
Definition seq_inv (drawn : Z) s : Prop := 0 <= drawn /\
  (drawn < 2 ^ 64 -> sh_seq s = drawn /\ Forall (fun e => Seq e <= drawn) (sh_log s) /\ StronglySorted Z.lt (map Seq (sh_log s))).

Record winv w : Prop := {
  wi_readers : forall r, reader_inv w r;
  wi_shared : shared_inv (w_sh w);
  wi_seq : seq_inv (w_drawn w) (w_sh w);
}.

(** ** Actions *)

Lemma add_packet_total (c : DNSCache M) now pkt : 0 <= maxEntries c -> wf_bytes pkt ->
  exists c', AddFromPacket c now pkt = Ret c' /\ 0 <= maxEntries c'.
Proof.
  intros Hc Hw. destruct (parse_wf pkt Hw) as (m & Hp & _). destruct (decide (m = ∅)) as [Hm|Hm].
  - exists c. split; [|done]. unfold AddFromPacket. rewrite Hp. cbn [mbind go_bind]. by rewrite decide_True.
  - destruct (AddFromPacket_entries c now pkt m Hc Hp Hm) as (c' & E & Em & _). exists c'. split; [done|]. by rewrite Em.
Qed.

Lemma do_action_total e s {B} (a : action B) : shared_inv s -> aok a -> exists s' b, do_action e s a = Ret (s', b) /\ shared_inv s'.
Proof.
  intros (Hs & Hd & Hl) Ha. destruct a; cbn [do_action aok] in *; try (eexists _, _; split; [done|split_and!; done]).
  - eexists _, _. split; [done|]. split_and!; [by apply Ha|done|done].
  - eexists _, _. split; [done|]. split_and!; [done|done|]. cbn. destruct (en_written e); [|done].
    apply Forall_app. split; [done|]. constructor; [by apply Ha|constructor].
  - destruct Hd as (c & -> & Hc). destruct (add_packet_total c (en_now e) pkt Hc Ha) as (c' & -> & Hc'). cbn [mbind go_bind].
    eexists _, _. split; [done|]. split_and!; [done| |done]. cbn. eauto.
Qed.

Lemma lines_in_snoc log e r : lines_in (log ++ [e]) r = lines_in log r + (if decide (ring_of e = r) then 1 else 0).
Proof.
  unfold lines_in. rewrite filter_app, len_app. f_equal. rewrite filter_cons, filter_nil. by case_decide.
Qed.

Lemma do_action_pays e s {B} (a : action B) s' b r d1 d2 : do_action e s a = Ret (s', b) -> pays cfg r a b d1 d2 ->
  forall r', tally (sh_stats s') r' = tally (sh_stats s) r' + only r d1 r' /\
    logging cfg * log_balance s' r' = logging cfg * log_balance s r' + only r d2 r'.
Proof.
  intros E Hp r'. unfold log_balance, only.
  destruct a; cbn [do_action pays] in *; try (destruct Hp as [-> ->]; injection E as <- <-; cbn; case_decide; lia).
  - injection E as <- <-. destruct Hp as (e2 & -> & Ha). cbn. destruct (Ha (sh_stats s) r') as [-> ->]. unfold only. case_decide; lia.
  - injection E as <- <-. destruct Hp as (-> & -> & Hc & Hr). cbn. split; [case_decide; lia|].
    destruct (en_written e); [|case_decide; lia]. rewrite lines_in_snoc, Hr.
    destruct (decide (r' = r)), (decide (r = r')); try congruence; lia.
  - destruct Hp as [-> ->]. destruct (sh_dns s); [|done]. destruct (AddFromPacket _ _ _); [|done]. injection E as <- <-. cbn. case_decide; lia.
Qed.

Lemma do_action_seq e s {B} (a : action B) s' b d : do_action e s a = Ret (s', b) -> aok a -> seq_inv d s -> seq_inv (d + draws a) s'.
Proof.
  intros E Ha [H0 Hs]. destruct a; cbn [do_action draws aok] in *;
    try (injection E as <- <-; rewrite Z.add_0_r; by split).
  - injection E as <- <-. split; [lia|]. intros Hd. destruct Hs as (Es & Hle & Hso); [lia|]. cbn.
    assert (seq_next (sh_seq s) = d + 1) as -> by (rewrite Es; unfold seq_next; apply Z.mod_small; lia).
    split; [done|]. assert (Forall (fun e => Seq e <= d + 1) (sh_log s)) as Hle' by (eapply Forall_impl; [exact Hle|]; cbn; lia).
    destruct (en_written e); [|done]. destruct (Ha (d + 1)) as [_ Eq]. split.
    + apply Forall_app. split; [done|]. constructor; [lia|constructor].
    + rewrite map_app. cbn. rewrite Eq. apply StronglySorted_app_2; [|done|repeat constructor].
      intros x y Hx ->%list_elem_of_singleton. apply list_elem_of_fmap in Hx as (line & -> & Hline).
      rewrite Forall_forall in Hle. specialize (Hle _ Hline). cbn in *. lia.
  - destruct (sh_dns s); [|done]. destruct (AddFromPacket _ _ _); [|done]. injection E as <- <-. rewrite Z.add_0_r. by split.
Qed.

(** ** Steps *)

Lemma records_snoc (f : ring -> bytes -> Z) r l r' raw : records f r (l ++ [(r', raw)]) = records f r l + only r' (f r' raw) r.
Proof.
  unfold records, only. rewrite sumZ_app. cbn. destruct (decide (r' = r)), (decide (r = r')); try congruence; lia.
Qed.

Lemma upd_same f r x : upd f r x r = x.
Proof. unfold upd. by rewrite decide_True. Qed.

Lemma upd_other f r x r' : r' <> r -> upd f r x r' = f r'.
Proof. intros. unfold upd. by rewrite decide_False. Qed.

(** A step that leaves the accounts of [r] alone. *)
Lemma reader_frame w w' r : w_rd w' r = w_rd w r -> owed w' r = owed w r -> owed_lines w' r = owed_lines w r -> reader_inv w r -> reader_inv w' r.
Proof. unfold reader_inv. by intros -> -> ->. Qed.

Lemma set_reader_inv w r x : winv w ->
  match x with
  | Waiting l _ => settled_local (owed w r) (owed_lines w r) l
  | Handling t => wp cfg r (owed w r) (owed_lines w r) t settled_local
  | Returned _ => owed w r = 0 /\ owed_lines w r = 0
  end -> winv (set_reader w r x).
Proof.
  intros [Hr Hs Hq] Hx. split; [|done|done]. intros r'. destruct (decide (r' = r)) as [->|Hne].
  - unfold reader_inv. cbn [set_reader w_rd]. rewrite upd_same. exact Hx.
  - apply (reader_frame w); [by apply upd_other|done..].
Qed.

Lemma step_inv r w w' : step cfg pol redact r w w' -> winv w -> winv w'.
Proof.
  intros Hst Hinv. pose proof Hinv as [Hr Hs Hq]. destruct Hst as [r raw l b w Er Hraw|r B a k e w sh b Er E|r l w Er|r l b w Er|r l b w Er|r l b w Er];
    pose proof (Hr r) as Hme; unfold reader_inv in Hme; rewrite Er in Hme.
  - split; [|done|done]. intros r'. destruct (decide (r' = r)) as [->|Hne].
    + unfold reader_inv. cbn [w_rd]. rewrite upd_same. destruct Hme as (H1 & H2 & Hl).
      pose proof (handler_wp cfg pol redact r l raw Hraw Hl) as Hw.
      unfold owed, owed_lines in *. cbn [w_in w_sh]. rewrite !records_snoc. unfold only. rewrite !decide_True by done.
      replace (records due r (w_in w) + due r raw - tally (sh_stats (w_sh w)) r) with (due r raw) by lia.
      replace (logging cfg * _) with (logging cfg * due_line r raw) by lia. exact Hw.
    + apply (reader_frame w); [by apply upd_other| | |done]; unfold owed, owed_lines; cbn [w_in w_sh]; rewrite records_snoc;
        unfold only; rewrite decide_False by done; f_equal; lia.
  - destruct Hme as [Ha Hk]. destruct (Hk b) as (d1 & d2 & Hp & Hw). destruct (do_action_total e (w_sh w) a Hs Ha) as (s' & b' & E' & Hs').
    rewrite E in E'. injection E' as <- <-. pose proof (do_action_pays _ _ _ _ _ _ _ _ E Hp) as Hpay.
    split; [|done|by eapply do_action_seq]. intros r'. destruct (Hpay r') as [Et Eb]. destruct (decide (r' = r)) as [->|Hne].
    + unfold reader_inv. cbn [w_rd]. rewrite upd_same. unfold only in *. rewrite decide_True in Et, Eb by done.
      replace (owed _ r) with (owed w r - d1) by (unfold owed; cbn [w_in w_sh]; lia).
      replace (owed_lines _ r) with (owed_lines w r - d2) by (unfold owed_lines; cbn [w_in w_sh]; lia). exact Hw.
    + unfold only in *. rewrite decide_False in Et, Eb by done.
      apply (reader_frame w); [by apply upd_other|unfold owed; cbn [w_in w_sh]; lia|unfold owed_lines; cbn [w_in w_sh]; lia|done].
  - by apply set_reader_inv.
  - apply set_reader_inv; [done|]. by destruct Hme as (? & ? & ?).
  - apply set_reader_inv; [done|]. by destruct Hme as (? & ? & ?).
  - by apply set_reader_inv.
Qed.

Lemma start_inv dns ktls : 0 <= maxEntries dns -> winv (start (M := M) dns ktls).
Proof.
  intros Hd. split.
  - intros r. assert (tally newRunStats r = 0 /\ balance newRunStats r = 0) as [Et Eb] by by destruct r.
    unfold reader_inv, owed, owed_lines, log_balance. cbn. rewrite Et, Eb. split_and!; [done| |]; [change (lines_in [] r) with 0; unfold records; cbn; lia|].
    by split_and!.
  - split_and!; [apply stats_inv_new|by exists dns|constructor].
  - split; [done|]. intros _. split_and!; constructor.
Qed.

Lemma reaches_inv w w' : reaches cfg pol redact w w' -> winv w -> winv w'.
Proof. induction 1 as [|w1 w2 w3 [r Hst] _ IH]; [done|]. intros Hw. apply IH. by eapply step_inv. Qed.

(** ** Progress *)

(** Steps of the other readers, and that [r] returns to its ring: whatever the
    others do in between, it has a next step, and any such step brings it
    nearer to its next read. *)
Definition others (r : ring) w w' : Prop := exists r', r' <> r /\ step cfg pol redact r' w w'.

Inductive finishes (r : ring) : world M -> Prop :=
  | fin_now w l b : w_rd w r = Waiting l b -> finishes r w
  | fin_later w : (forall w1, rtc (others r) w w1 -> exists w2, step cfg pol redact r w1 w2) ->
      (forall w1 w2, rtc (others r) w w1 -> step cfg pol redact r w1 w2 -> finishes r w2) -> finishes r w.

Lemma step_others r r' w w' : step cfg pol redact r' w w' -> r <> r' -> w_rd w' r = w_rd w r.
Proof. intros Hst Hne. destruct Hst; cbn; by apply upd_other. Qed.

Lemma step_handling r w w' : step cfg pol redact r w w' -> forall t, w_rd w r = Handling t ->
  match t with Done l => w_rd w' r = Waiting l 0 | Crash => False | Act a k => exists b, w_rd w' r = Handling (k b) end.
Proof.
  intros Hst. destruct Hst as [r raw l b w Er Hraw|r B a k e w sh b Er E|r l w Er|r l b w Er|r l b w Er|r l b w Er];
    intros t Et; rewrite Er in Et; try discriminate Et; injection Et as <-; cbn [w_rd set_reader].
  - exists b. by rewrite upd_same.
  - by rewrite upd_same.
Qed.

Lemma others_keep r w w' : rtc (others r) w w' -> winv w -> winv w' /\ w_rd w' r = w_rd w r.
Proof.
  induction 1 as [|w1 w2 w3 (r' & Hne & Hst) _ IH]; [done|]. intros Hw. destruct IH as [Hw3 E]; [by eapply step_inv|].
  split; [done|]. rewrite E. eapply step_others; [done|congruence].
Qed.

Lemma busy_steps (e : env) r w t : winv w -> w_rd w r = Handling t -> exists w', step cfg pol redact r w w'.
Proof.
  intros [Hr Hs _] E. pose proof (Hr r) as Hme. unfold reader_inv in Hme. rewrite E in Hme. destruct t as [l| |B a k].
  - eexists. by eapply step_done.
  - done.
  - destruct Hme as [Ha _]. destruct (do_action_total e _ a Hs Ha) as (s' & b & Ea & _). eexists. by eapply step_act.
Qed.

Definition some_env : env := mkEnv 0 true (fun _ => None) (fun _ => None) (fun _ => []).

Lemma busy_finishes r t w : winv w -> w_rd w r = Handling t -> finishes r w.
Proof.
  revert w. induction t as [l| |B a k IH]; intros w Hw E; (apply fin_later; [|intros w1 w2 Ho Hst]).
  1,3,5: intros w1 Ho; destruct (others_keep _ _ _ Ho Hw) as [Hw1 E1]; eapply (busy_steps some_env); [done|by rewrite E1].
  all: destruct (others_keep _ _ _ Ho Hw) as [Hw1 E1]; rewrite E in E1; pose proof (step_handling _ _ _ Hst _ E1) as Hn; cbn in Hn.
  - by eapply fin_now.
  - done.
  - destruct Hn as [b Hb]. apply (IH b); [by eapply step_inv|done].
Qed.

(** ** A reader alone *)

Lemma run_task_steps r t es e w : winv w -> w_rd w r = Handling t ->
  exists s' l w', run_task t es e (w_sh w) = Ret (s', l) /\ rtc (step cfg pol redact r) w w' /\
    w_sh w' = s' /\ w_rd w' r = Waiting l 0 /\ w_in w' = w_in w.
Proof.
  revert es w. induction t as [l| |B a k IH]; intros es w Hw E.
  - eexists _, _, _. split; [done|]. split; [apply rtc_once; by apply step_done|]. cbn. by rewrite upd_same.
  - pose proof (wi_readers _ Hw r) as Hme. unfold reader_inv in Hme. by rewrite E in Hme.
  - pose proof (wi_readers _ Hw r) as Hme. unfold reader_inv in Hme. rewrite E in Hme. destruct Hme as [Ha _].
    cbn [run_task]. set (x := match es with e' :: es' => (e', es') | [] => (e, []) end). destruct x as [now rest].
    destruct (do_action_total now _ a (wi_shared _ Hw) Ha) as (s1 & b & Ea & _). rewrite Ea. cbn [mbind go_bind fst snd].
    pose proof (step_act cfg pol redact r a k now w s1 b E Ea) as Hst.
    destruct (IH b rest _ (step_inv _ _ _ Hst Hw)) as (s' & l & w' & Hrun & Hsteps & Hs & Hr & Hin); [cbn; apply upd_same|].
    exists s', l, w'. split; [exact Hrun|]. split; [by eapply rtc_l|done].
Qed.

Definition delivery_ok (d : delivery) : Prop := match d with DRecord raw _ _ => wf_bytes raw | _ => True end.

(** The records of the deliveries that a reader gets to. *)
Fixpoint delivered (ds : list delivery) : list bytes :=
  match ds with
  | DRecord raw _ _ :: ds' => raw :: delivered ds'
  | DError false :: ds' => delivered ds'
  | _ => []
  end.

Lemma reader_steps r ds l b w : winv w -> w_rd w r = Waiting l b -> Forall delivery_ok ds ->
  exists w', runRingReader cfg pol redact r ds l b (w_sh w) = Ret (w_sh w', w_rd w' r) /\
    rtc (step cfg pol redact r) w w' /\ w_in w' = w_in w ++ map (fun raw => (r, raw)) (delivered ds).
Proof.
  intros Hw E Hds. revert l b w Hw E. induction Hds as [|d ds Hd _ IH]; intros l b w Hw E.
  - exists w. cbn. rewrite E, app_nil_r. done.
  - destruct d as [raw es e| |[|]]; cbn [runRingReader delivered].
    + pose proof (step_record cfg pol redact r raw l b w E Hd) as H1. set (w1 := mkWorld _ _ _ _) in H1.
      destruct (run_task_steps r (handler cfg pol redact r l raw) es e w1) as (s2 & l2 & w2 & Er & H2 & Es & E2 & Ein);
        [by eapply step_inv|apply upd_same|]. cbn [w1 w_sh] in Er. rewrite Er. cbn [mbind go_bind fst snd].
      destruct (IH l2 0 w2) as (w3 & Er3 & H3 & Ein3); [|done|].
      { eapply reaches_inv; [|exact (step_inv _ _ _ H1 Hw)]. eapply rtc_subrel; [|exact H2]. intros x y ?. by exists r. }
      exists w3. rewrite <- Es. split; [done|]. split; [eapply rtc_l; [exact H1|]; by etrans|].
      rewrite Ein3, Ein. cbn. by rewrite <- app_assoc.
    + eexists. split; [|split; [apply rtc_once; by eapply step_closed|]]; cbn; [by rewrite upd_same|by rewrite app_nil_r].
    + eexists. split; [|split; [apply rtc_once; by eapply step_cancelled|]]; cbn; [by rewrite upd_same|by rewrite app_nil_r].
    + pose proof (step_retry cfg pol redact r l b w E) as H1.
      destruct (IH l (nextDelay b) _ (step_inv _ _ _ H1 Hw)) as (w3 & Er3 & H3 & Ein3); [apply upd_same|].
      exists w3. split; [exact Er3|]. split; [by eapply rtc_l|done].
Qed.

(** ** Theorems *)

Definition idle (x : reader) : Prop := match x with Handling _ => False | _ => True end.

(** C17: the books of the rings.  In every world that the concurrent readers
    reach, in any interleaving and whatever the environment answers, a reader
    that is between two records has counted each of its records once, as an
    event or as a drop of its ring, and has counted nothing else.  The records
    that are counted nowhere are those [uncounted] reads off their bytes:
    canaries, DNS messages that went to the cache, io_uring ClientHellos, and
    the egress and self-defense records that the code skips in silence because
    they are short or of no address family.  With the event log on, each
    counted event has its line in the log or is counted as unlogged, and so is
    each io_uring record that holds a ClientHello with a server name.  The
    counters agree with each other (every classified event has one policy
    class, every TLS event one confidence tier, confirmed and refused state
    changes are state changes). *)
Theorem ring_accounting dns ktls w : 0 <= maxEntries dns -> reaches cfg pol redact (start dns ktls) w ->
  stats_inv (sh_stats (w_sh w)) /\
  forall r, idle (w_rd w r) ->
    tally (sh_stats (w_sh w)) r = records due r (w_in w) /\
    (EventsLogPath cfg <> [] ->
      lines_in (sh_log (w_sh w)) r + unlogged (sh_stats (w_sh w)) r = logged_events (sh_stats (w_sh w)) r + records due_line r (w_in w)).
Proof.
  intros Hd Hw. destruct (reaches_inv _ _ Hw (start_inv dns ktls Hd)) as [Hr [Hs _] _]. split; [done|]. intros r Hi.
  assert (owed w r = 0 /\ owed_lines w r = 0) as [H1 H2].
  { specialize (Hr r). unfold reader_inv in Hr. destruct (w_rd w r); [by destruct Hr as (? & ? & _)|done|done]. }
  unfold owed, owed_lines, log_balance, balance in *. split; [lia|]. intros Hc. unfold logging in H2. rewrite decide_False in H2 by done. lia.
Qed.

(** The log as the interleavings leave it: its numbers and its texts. *)
Lemma log_inv dns ktls w : 0 <= maxEntries dns -> reaches cfg pol redact (start dns ktls) w ->
  seq_inv (w_drawn w) (w_sh w) /\ Forall clean_event (sh_log (w_sh w)).
Proof. intros Hd Hw. by destruct (reaches_inv _ _ Hw (start_inv dns ktls Hd)) as [_ (_ & _ & Hl) Hq]. Qed.

(** C32: a reader always comes back to its ring.  In every reachable world, a
    reader that is handling a record has a next step (no handler panics, no
    action of one reader can block another), and whatever the other readers
    do between its steps, it is waiting for the next record after finitely
    many of them. *)
Theorem reader_finishes dns ktls w r t : 0 <= maxEntries dns -> reaches cfg pol redact (start dns ktls) w -> w_rd w r = Handling t ->
  finishes r w.
Proof. intros Hd Hw. apply busy_finishes. by apply (reaches_inv _ _ Hw), start_inv. Qed.

(** [runRingReader] on its own: on any sequence of records and read errors
    it returns, without a panic, and its run is one of the schedules of the
    concurrent readers in which it has read exactly the records before the
    ring was closed or the context cancelled. *)
Theorem runRingReader_is_schedule dns ktls w r l b ds : 0 <= maxEntries dns -> reaches cfg pol redact (start dns ktls) w ->
  w_rd w r = Waiting l b -> Forall delivery_ok ds ->
  exists w', runRingReader cfg pol redact r ds l b (w_sh w) = Ret (w_sh w', w_rd w' r) /\
    rtc (step cfg pol redact r) w w' /\ w_in w' = w_in w ++ map (fun raw => (r, raw)) (delivered ds).
Proof. intros Hd Hw. apply reader_steps. by apply (reaches_inv _ _ Hw), start_inv. Qed.
End Books.

(** * Example run *)

Section Advance.
Context {M : Type} `{UnicodeCase} `{!BpfMapOps bytes bytes M} `{!RangeOrder bytes} `{!RangeOrder tlsReassemblyKey} `{!RangeOrder ktlsKey}.
Context (cfg : Config) (pol : option Policy) (redact : bytes -> bytes).

(** The first actions of a task, one per answer. *)
Fixpoint advance {A} (es : list env) (t : task A) (s : shared M) (d : Z) : option (shared M * task A * Z) :=
  match es, t with
  | [], _ => Some (s, t, d)
  | e :: es', Act a k => match do_action e s a with Ret (s', b) => advance es' (k b) s' (d + draws a) | Panic => None end
  | _, _ => None
  end.

Lemma advance_reaches r es t w s' t' d' : w_rd w r = Handling t -> advance es t (w_sh w) (w_drawn w) = Some (s', t', d') ->
  exists w', rtc (step cfg pol redact r) w w' /\ w_sh w' = s' /\ w_rd w' r = Handling t' /\ w_drawn w' = d'.
Proof.
  revert t w. induction es as [|e es IH]; intros t w Et Ea; [injection Ea as <- <- <-; by exists w|].
  destruct t as [l| |B a k]; try discriminate Ea. cbn in Ea. destruct (do_action e (w_sh w) a) as [[s1 b]|] eqn:E; [|done].
  destruct (IH (k b) (mkWorld s1 (upd (w_rd w) r (Handling (k b))) (w_in w) (w_drawn w + draws a))) as (w' & Hw & Hr); [apply upd_same|exact Ea|].
  exists w'. split; [|done]. eapply rtc_l; [by eapply step_act|exact Hw].
Qed.
End Advance.

Module Witness.
#[local] Existing Instance ascii_case.
#[local] Existing Instance plain_order.

Definition cfg : Config := mkConfig ModeDetect [] [] [] [] false [] [] (str "/run/events.jsonl") [] [] ∅ [] [] [] false false.
Definition dns : DNSCache (gmap bytes bytes) := NewDNSCache.
Definition redact (path : bytes) : bytes := path.

(** An exec record, and one that is too short. *)
Definition exec_raw : bytes := repeat 1 8 ++ str "curl" ++ repeat 0 12 ++ str "/bin/curl" ++ repeat 0 263.
Definition at_ : env := mkEnv 5 true (fun _ => None) (fun _ => None) (fun _ => []).
Definition deliveries : list delivery := [DRecord exec_raw [] at_; DError false; DRecord [7] [] at_].

Lemma deliveries_ok : Forall delivery_ok deliveries.
Proof. repeat constructor; unfold delivery_ok, wf_bytes; try done; by apply (bool_decide_unpack _). Qed.

(** The run of the exec reader on the two records. *)
Lemma after_two : exists w : world (gmap bytes bytes), reaches cfg None redact (start dns newKTLSTracker) w /\
  w_in w = [(RExec, exec_raw); (RExec, [7])] /\ idle (w_rd w RExec).
Proof.
  destruct (reader_steps cfg None redact RExec deliveries newLocal 0 (start dns newKTLSTracker)) as (w & Er & Hw & Hin);
    [by apply start_inv|done|apply deliveries_ok|].
  exists w. split; [|split; [exact Hin|]].
  - eapply rtc_subrel; [|exact Hw]. intros x y Hxy. by exists RExec.
  - assert (match runRingReader cfg None redact RExec deliveries newLocal 0 (w_sh (start dns newKTLSTracker)) with
            | Ret x => idle x.2 | Panic => False end) as Hi by (vm_compute; exact I).
    rewrite Er in Hi. exact Hi.
Qed.

Definition fork_raw : bytes := repeat 1 8 ++ str "sh" ++ repeat 0 14 ++ str "curl" ++ repeat 0 20.

(** The fork reader in the middle of a record whose line it has written. *)
Lemma mid_record : exists w : world (gmap bytes bytes), reaches cfg None redact (start dns newKTLSTracker) w /\
  w_drawn w = 1 /\ length (sh_log (w_sh w)) = 1%nat /\ exists t, w_rd w RFork = Handling t.
Proof.
  assert (wf_bytes fork_raw) as Hraw by (unfold wf_bytes; by apply (bool_decide_unpack _)).
  pose proof (step_record cfg None redact RFork fork_raw newLocal 0 (start dns newKTLSTracker) eq_refl Hraw) as H1.
  set (w1 := mkWorld _ _ _ _) in H1. set (t1 := handler cfg None redact RFork newLocal fork_raw).
  assert (match advance [at_; at_; at_] t1 (w_sh w1) (w_drawn w1) with
          | Some (s', _, d') => d' = 1 /\ length (sh_log s') = 1%nat | None => False end) as Ha by (vm_compute; done).
  destruct (advance _ t1 _ _) as [[[s' t'] d']|] eqn:E; [|done]. destruct Ha as [-> Hl].
  destruct (advance_reaches cfg None redact RFork _ t1 w1 s' t' 1 (upd_same _ _ _) E) as (w & Hw & Es & Et & Ed).
  exists w. split; [eapply rtc_l; [by exists RFork|]; eapply rtc_subrel; [|exact Hw]; intros x y Hxy; by exists RFork|].
  split_and!; [done|by rewrite Es|by exists t'].
Qed.

Lemma ring_accounting_witness : exists w : world (gmap bytes bytes),
  w_in w = [(RExec, exec_raw); (RExec, [7])] /\ tally (sh_stats (w_sh w)) RExec = 2.
Proof.
  destruct after_two as (w & Hw & Hin & Hi). exists w. split; [exact Hin|].
  destruct (ring_accounting cfg None redact dns newKTLSTracker w ltac:(done) Hw) as [_ Ha]. destruct (Ha RExec Hi) as [-> _].
  rewrite Hin. reflexivity.
Defined.

Lemma reader_finishes_witness : exists w : world (gmap bytes bytes), w_drawn w = 1 /\ finishes cfg None redact RFork w.
Proof.
  destruct mid_record as (w & Hw & Hd & _ & t & Ht). exists w. split; [exact Hd|].
  exact (reader_finishes cfg None redact dns newKTLSTracker w RFork t ltac:(done) Hw Ht).
Defined.

Lemma runRingReader_is_schedule_witness : exists w' : world (gmap bytes bytes),
  runRingReader cfg None redact RExec deliveries newLocal 0 (w_sh (start dns newKTLSTracker)) = Ret (w_sh w', w_rd w' RExec) /\
  rtc (step cfg None redact RExec) (start dns newKTLSTracker) w' /\ w_in w' = [(RExec, exec_raw); (RExec, [7])].
Proof.
  apply (runRingReader_is_schedule cfg None redact dns newKTLSTracker (start dns newKTLSTracker) RExec newLocal 0 deliveries);
    [done|apply rtc_refl|done|apply deliveries_ok].
Defined.
End Witness.
