(* ===== verification/SafePath.v ===== *)
(** internal/safepath/safepath.go: containment of paths under the trusted
    roots, on a file system with symbolic links.

    A file system is a finite map from the physical components of a file to
    what is there; [EvalSymlinks] is the walk of path/filepath over it (255
    links at most).  A call sees one state of the file system; the commands
    that run while it changes take one state per call (AllowFiles.v). *)
From S2P Require Import Prelude GoStrings GoPath.

Open Scope Z_scope.

(** * The file system *)

Inductive node := NDir | NFile (data : bytes) | NLink (target : bytes).

Abbreviation filesystem := (gmap (list bytes) node).

Section Walk.
Context (fs : filesystem) (cwd : list bytes).

(** Where the components collected so far (last first) are: under the root, or
    under the physical working directory. *)
Definition place (rooted : bool) (stack : list bytes) : list bytes :=
  rev (if rooted then stack else foldl (clean_step true) (rev cwd) (rev stack)).

(** filepath's [walkSymlinks]: the components [rest] are appended to the
    resolved ones in [stack]; [None] is an error ([Lstat] fails, a file is used
    as a directory, or too many links). *)
Fixpoint walk (links : nat) : bool -> list bytes -> list bytes -> option (bool * list bytes) :=
  fix go (rooted : bool) (stack rest : list bytes) : option (bool * list bytes) :=
    match rest with
    | [] => Some (rooted, stack)
    | c :: rest' =>
      if decide (c = [] \/ c = dot) then go rooted stack rest'
      else if decide (c = dotdot) then go rooted (clean_step rooted stack c) rest'
      else match fs !! place rooted (c :: stack) with
           | None => None
           | Some NDir => go rooted (c :: stack) rest'
           | Some (NFile _) => if decide (rest' = []) then go rooted (c :: stack) rest' else None
           | Some (NLink target) =>
             match links with
             | O => None
             | S links' => walk links' (rooted || IsAbs target) (if IsAbs target then [] else stack) (Split target 47 ++ rest')
             end
           end
    end.

Definition maxLinks : nat := 255.

Definition EvalSymlinks (p : bytes) : option bytes :=
  match walk maxLinks (IsAbs p) [] (Split p 47) with
  | Some (rooted, stack) => Some (path_of rooted (rev stack))
  | None => None
  end.
End Walk.

(** * The environment of a call *)

(** [os_getwd] is what [os.Getwd] returns, [os_cwd] the physical working
    directory. *)
Record os := mkOS {
  os_fs : filesystem;
  os_cwd : list bytes;
  os_getwd : option bytes;
  os_getenv : bytes -> bytes;
}.

Definition os_eval (o : os) : bytes -> option bytes := EvalSymlinks (os_fs o) (os_cwd o).

Definition TempDir (o : os) : bytes :=
  let dir := os_getenv o (str "TMPDIR") in if decide (dir = []) then str "/tmp" else dir.

(** * safepath *)

Inductive path_err := ErrDisallowedCharacters | ErrAbs | ErrOutsideRoots (resolved : bytes).

(** [safePathRE], as the set of its characters; it wants one at least. *)
Definition safe_byte (b : Z) : bool :=
  in_range 65 90 b || in_range 97 122 b || in_range 48 57 b || bool_decide (b ∈ [95; 46; 47; 92; 58; 45]).

Definition safePathRE (raw : bytes) : bool := negb (bool_decide (raw = [])) && forallb safe_byte raw.

(** The resolved path, or the path as it is when it does not resolve. *)
Definition evalOr (o : os) (p : bytes) : bytes := default p (os_eval o p).

Definition trustedRoots (o : os) : list bytes :=
  let ws := os_getenv o (str "GITHUB_WORKSPACE") in
  let rt := os_getenv o (str "RUNNER_TEMP") in
  (if decide (ws = []) then [] else [evalOr o ws]) ++
  (if decide (rt = []) then [] else [evalOr o rt]) ++
  [evalOr o (TempDir o)] ++
  match os_getwd o with Some wd => [evalOr o wd] | None => [] end.

Definition hasPrefix (path root : bytes) : bool :=
  match Rel root path with
  | None => false
  | Some rel =>
    if decide (rel = dot) then true
    else if bool_decide (rel = dotdot) || HasPrefix rel (dotdot ++ slash) then false
    else negb (IsAbs rel)
  end.

(** The loop of [resolveWithExistingAncestor] from [cur], with the names below
    it collected in [suffix]; [None] is out of fuel. *)
Fixpoint ancestorLoop (fuel : nat) (o : os) (path cur : bytes) (suffix : list bytes) : option bytes :=
  match fuel with
  | O => None
  | S fuel' =>
    let parent := Dir cur in
    if decide (parent = cur) then Some path
    else
      let suffix := suffix ++ [Base cur] in
      match os_eval o parent with
      | Some realParent => Some (foldl (fun resolved s => Join [resolved; s]) realParent (rev suffix))
      | None => ancestorLoop fuel' o path parent suffix
      end
  end.

Definition resolveWithExistingAncestor (o : os) (path : bytes) : option bytes :=
  match os_eval o path with
  | Some real => Some real
  | None => ancestorLoop (S (length path)) o path path []
  end.

(** The outer [None] is out of fuel ([Workspace_returns]: it is not reached). *)
Definition Workspace (o : os) (raw : bytes) : option (result path_err bytes) :=
  if negb (safePathRE raw) then Some (Err ErrDisallowedCharacters)
  else match Abs (os_getwd o) raw with
       | None => Some (Err ErrAbs)
       | Some resolved =>
         match resolveWithExistingAncestor o resolved with
         | None => None
         | Some resolved =>
           Some (if existsb (hasPrefix resolved) (trustedRoots o) then Ok resolved else Err (ErrOutsideRoots resolved))
         end
       end.

(** * Real paths *)

(** Directories all the way. *)
Definition dirs (fs : filesystem) (cs : list bytes) : Prop := forall q, q `prefix_of` cs -> q <> [] -> fs !! q = Some NDir.

(** Directories on the way, and a directory or a regular file at the end. *)
Definition real (fs : filesystem) (cs : list bytes) : Prop :=
  dirs fs cs \/ exists ds c data, cs = ds ++ [c] /\ dirs fs ds /\ fs !! cs = Some (NFile data).

Lemma dirs_nil fs : dirs fs [].
Proof. intros q Hq Hne. by apply prefix_nil_inv in Hq. Qed.

Lemma dirs_prefix fs cs ds : ds `prefix_of` cs -> dirs fs cs -> dirs fs ds.
Proof. intros Hp Hr q Hq. apply Hr. by etrans. Qed.

Lemma dirs_snoc fs cs c : dirs fs cs -> fs !! (cs ++ [c]) = Some NDir -> dirs fs (cs ++ [c]).
Proof.
  intros Hr Hn q Hq Hne. destruct (decide (q = cs ++ [c])) as [->|Hq']; [done|]. apply Hr; [|done].
  destruct Hq as [k E]. destruct k as [|x k _] using rev_ind; [by rewrite app_nil_r in E|].
  rewrite app_assoc in E. apply app_inj_tail in E as [-> _]. by exists k.
Qed.

Lemma clean_step_dirs fs stack : Forall normal stack -> dirs fs (rev stack) ->
  Forall normal (clean_step true stack dotdot) /\ dirs fs (rev (clean_step true stack dotdot)).
Proof.
  intros Hn Hr. unfold clean_step. rewrite decide_False by (by intros [|]). rewrite decide_True by done.
  destruct Hn as [|top below Ht Hb]; [done|]. rewrite decide_False by apply Ht. split; [done|].
  eapply dirs_prefix; [|exact Hr]. cbn [rev]. by exists [top].
Qed.

(** One component of a walk. *)
Lemma walk_cons fs cwd links rooted stack c rest : walk fs cwd links rooted stack (c :: rest) =
  if decide (c = [] \/ c = dot) then walk fs cwd links rooted stack rest
  else if decide (c = dotdot) then walk fs cwd links rooted (clean_step rooted stack c) rest
  else match fs !! place cwd rooted (c :: stack) with
       | None => None
       | Some NDir => walk fs cwd links rooted (c :: stack) rest
       | Some (NFile _) => if decide (rest = []) then walk fs cwd links rooted (c :: stack) rest else None
       | Some (NLink target) =>
         match links with
         | O => None
         | S links' => walk fs cwd links' (rooted || IsAbs target) (if IsAbs target then [] else stack) (Split target 47 ++ rest)
         end
       end.
Proof. by destruct links. Qed.

Lemma walk_nil fs cwd links rooted stack : walk fs cwd links rooted stack [] = Some (rooted, stack).
Proof. by destruct links. Qed.

(** A walk from the root ends in a real place. *)
Lemma walk_real fs cwd links stack rest res : Forall normal stack -> dirs fs (rev stack) -> Forall (fun c => 47 ∉ c) rest ->
  walk fs cwd links true stack rest = Some res -> exists stack', res = (true, stack') /\ Forall normal stack' /\ real fs (rev stack').
Proof.
  revert stack rest. induction links as [links IHl] using lt_wf_ind. intros stack rest Hn Hr Hrest. revert stack Hn Hr.
  induction Hrest as [|c rest Hc Hrest IH]; intros stack Hn Hr; [rewrite walk_nil; intros [= <-]; exists stack; split_and!; [done..|by left]|].
  rewrite walk_cons. case_decide as H1; [by apply IH|]. case_decide as H2; [subst c; destruct (clean_step_dirs fs stack Hn Hr); by apply IH|].
  assert (normal c) as Hnc by (unfold normal; tauto).
  destruct (fs !! _) as [[|data|target]|] eqn:E; [| | |done]; cbn [place rev] in E.
  - apply IH; [by constructor|by apply dirs_snoc].
  - case_decide; [|done]. subst rest. rewrite walk_nil. intros [= <-]. exists (c :: stack). split_and!; [done|by constructor|].
    right. by exists (rev stack), c, data.
  - destruct links as [|links]; [done|]. apply IHl; [lia|destruct (IsAbs target); [constructor|done]| |].
    + destruct (IsAbs target); [apply dirs_nil|done].
    + apply Forall_app. split; [apply Split_no_sep|done].
Qed.

Lemma eval_real fs cwd p q : IsAbs p = true -> EvalSymlinks fs cwd p = Some q ->
  exists cs, q = path_of true cs /\ Forall normal cs /\ real fs cs.
Proof.
  intros Hp. unfold EvalSymlinks. rewrite Hp. destruct (walk _ _ _ _ _ _) as [[rooted stack]|] eqn:E; [|done]. intros [= <-].
  apply walk_real in E as (stack' & [= -> ->] & Hn & Hr); [|done|apply dirs_nil|apply Split_no_sep].
  exists (rev stack'). split_and!; [done|by apply Forall_rev|done].
Qed.

(** A walk along a real path follows no link and stays on it. *)
Lemma walk_dirs fs cwd links stack cs rest : Forall normal cs -> dirs fs (rev stack ++ cs) ->
  walk fs cwd links true stack (cs ++ rest) = walk fs cwd links true (rev cs ++ stack) rest.
Proof.
  intros Hcs. revert stack. induction Hcs as [|c cs (H1 & H2 & H3 & _) Hcs IH]; intros stack Hd; [done|].
  cbn [app]. rewrite walk_cons, (decide_False (P := c = [] \/ c = dot)), (decide_False (P := c = dotdot)) by tauto. cbn [place rev].
  rewrite (Hd (rev stack ++ [c])); [|by exists cs; rewrite <- app_assoc|by destruct (rev stack)].
  rewrite IH by (cbn [rev]; by rewrite <- app_assoc). by rewrite <- app_assoc.
Qed.

Lemma walk_real_path fs cwd links cs : Forall normal cs -> real fs cs -> walk fs cwd links true [] (Split (path_of true cs) 47) = Some (true, rev cs).
Proof.
  intros Hn Hr. destruct (decide (cs = [])) as [->|Hne].
  { change (Split (path_of true []) 47) with [@nil Z; []]. rewrite !walk_cons, walk_nil. done. }
  rewrite Split_path_of by done. rewrite walk_cons, (decide_True (P := [] = [] \/ _)) by by left.
  destruct Hr as [Hd|(ds & c & data & -> & Hd & Hf)].
  - rewrite <- (app_nil_r cs) at 1. rewrite walk_dirs by done. by rewrite walk_nil, app_nil_r.
  - apply Forall_app in Hn as [Hds Hc]. inversion Hc as [|? ? (H1 & H2 & H3 & _) _]; subst.
    rewrite walk_dirs by done. rewrite walk_cons, (decide_False (P := c = [] \/ c = dot)), (decide_False (P := c = dotdot)) by tauto.
    rewrite app_nil_r. unfold place. cbn [rev]. rewrite rev_involutive, Hf. rewrite decide_True by done. rewrite walk_nil, rev_app_distr. done.
Qed.

Lemma eval_real_path fs cwd cs : Forall normal cs -> real fs cs -> EvalSymlinks fs cwd (path_of true cs) = Some (path_of true cs).
Proof. intros Hn Hr. unfold EvalSymlinks. rewrite IsAbs_path_of, walk_real_path by done. by rewrite rev_involutive. Qed.

(** ** [hasPrefix] *)

Lemma Split_head (cs : list bytes) (rel u : bytes) : cs <> [] -> Forall (fun c => 47 ∉ c) cs -> rel = Strings_Join cs slash ->
  HasPrefix rel (u ++ slash) = true -> 47 ∉ u -> head cs = Some u.
Proof.
  intros Hne Hcs -> [x E]%HasPrefix_spec Hu. rewrite <- app_assoc in E. unfold slash in E. cbn [app] in E.
  apply (f_equal (fun s => Split s 47)) in E. cbv beta in E. rewrite Split_Join, Split_app in E by done.
  rewrite E. unfold Split at 1. by rewrite split_aux_plain.
Qed.

Lemma Join_plain (cs : list bytes) (u : bytes) : cs <> [] -> Forall (fun c => 47 ∉ c) cs -> 47 ∉ u -> Strings_Join cs slash = u -> cs = [u].
Proof.
  intros Hne Hcs Hu E. unfold slash in E. apply (f_equal (fun s => Split s 47)) in E. cbv beta in E. rewrite Split_Join in E by done.
  rewrite E. unfold Split. by rewrite split_aux_plain.
Qed.

(** A relative path stays relative. *)
Lemma clean_step_plain rooted stack c : Forall (fun c => c <> [] /\ 47 ∉ c) stack -> 47 ∉ c ->
  Forall (fun c => c <> [] /\ 47 ∉ c) (clean_step rooted stack c).
Proof.
  intros Hs Hc. unfold clean_step. case_decide; [done|]. case_decide; [|constructor; [tauto|done]]. subst c.
  assert (dotdot <> [] /\ 47 ∉ dotdot) as Hdd by (split; [done|by apply (bool_decide_unpack _)]).
  destruct Hs as [|top below Ht Hb]; [destruct rooted; [|constructor; [done|]]; constructor|].
  case_decide; [constructor; [done|by constructor]|done].
Qed.

Lemma IsAbs_Clean_rel p : IsAbs p = false -> IsAbs (Clean p) = false.
Proof.
  intros Hp. unfold Clean. rewrite Hp. unfold clean_comps.
  assert (Forall (fun c => c <> [] /\ 47 ∉ c) (foldl (clean_step false) [] (Split p 47))) as HF.
  { generalize (Split_no_sep p 47). generalize (Forall_nil_2 (fun c : bytes => c <> [] /\ 47 ∉ c)).
    generalize (@nil bytes) as st. induction (Split p 47) as [|c cs IH]; intros st Hst Hcs; [done|]. inversion Hcs; subst.
    cbn [foldl]. apply IH; [by apply clean_step_plain|done]. }
  apply Forall_rev in HF. destruct (rev _) as [|c cs]; [done|]. inversion HF as [|? ? [Hc1 Hc2] _]; subst. unfold path_of. cbn [app].
  destruct c as [|b c]; [done|]. apply not_elem_of_cons in Hc2 as [Hb _]. 
  assert (forall t, IsAbs (b :: t) = false) as Hb'.
  { intros t. destruct (IsAbs (b :: t)) eqn:E; [|done]. apply HasPrefix_spec in E as [x [= -> ->]]. done. }
  destruct cs; apply Hb'.
Qed.

(** A relative path that goes up first. *)
Definition escapes (rel : bytes) : bool := bool_decide (rel = dotdot) || HasPrefix rel (dotdot ++ slash).

(** Between absolute paths, the relative path goes up exactly when the base is
    not on the way to the target. *)
Lemma Rel_prefix base targ : IsAbs base = true -> IsAbs targ = true -> exists rel, Rel base targ = Some rel /\
  (clean_comps true base `prefix_of` clean_comps true targ <-> escapes rel = false) /\ IsAbs rel = false.
Proof.
  intros Hb Ht. destruct (Rel_abs base targ Hb Ht) as (b & t & E & ->). eexists. split; [done|].
  destruct (drop_common_spec (clean_comps true base) (clean_comps true targ)) as (c & b' & t' & E' & Eb & Et & Hd).
  rewrite E in E'. injection E' as <- <-. rewrite (prefix_drop_common Eb Et Hd).
  pose proof (clean_comps_normal targ) as Nt. rewrite Et in Nt. apply Forall_app in Nt as [_ Nt].
  assert (47 ∉ dotdot) as Hdd by (by apply (bool_decide_unpack _)). destruct b as [|x b]; cbn [length replicate app].
  - destruct t as [|y t]; [done|]. assert (normal y) as (Hy1 & Hy2 & Hy3 & Hy4) by by inversion Nt.
    assert (HF : Forall (fun c => 47 ∉ c) (y :: t)) by by apply normal_no_slash. split.
    + split; [intros _|done]. unfold escapes. rewrite bool_decide_eq_false_2; [cbn [orb]|].
      2:{ intros Ed. apply Join_plain in Ed; [|done..]. by injection Ed as ->. }
      destruct (HasPrefix _ _) eqn:Eh; [|done]. apply (Split_head (y :: t)) in Eh; try done. by injection Eh as ->.
    + destruct (IsAbs (Strings_Join (y :: t) slash)) eqn:Ea; [|done]. unfold IsAbs in Ea.
      pose proof (Split_head (y :: t) _ [] ltac:(done) HF eq_refl Ea (not_elem_of_nil _)) as Eh. by injection Eh as ->.
  - destruct (replicate (length b) dotdot ++ t) as [|z zs]; [done|]. rewrite Join_cons by done. split; [|done]. split; [done|].
    unfold escapes. by rewrite (proj2 (HasPrefix_spec _ (dotdot ++ slash))), orb_true_r by (eexists; by rewrite <- app_assoc).
Qed.

(** For an absolute path, the test is that the root is absolute and its
    components start those of the path. *)
Lemma hasPrefix_spec path root : IsAbs path = true ->
  hasPrefix path root = true <-> IsAbs root = true /\ clean_comps true root `prefix_of` clean_comps true path.
Proof.
  intros Hp. unfold hasPrefix. destruct (IsAbs root) eqn:Er.
  - destruct (Rel_prefix root path Er Hp) as (rel & -> & -> & ->). fold (escapes rel). cbn [negb].
    destruct (decide (rel = dot)) as [->|]; [done|]. destruct (escapes rel); [|done]. split; [done|by intros [_ ?]].
  - split; [|by intros [? _]]. unfold Rel. rewrite Hp, Er. rewrite decide_False; [done|].
    intros E. apply (f_equal IsAbs) in E. by rewrite IsAbs_Clean, IsAbs_Clean_rel in E.
Qed.

(** ** The nearest ancestor that resolves *)

Lemma foldl_Join rs ts : Forall normal rs -> Forall normal ts ->
  foldl (fun resolved s => Join [resolved; s]) (path_of true rs) ts = path_of true (rs ++ ts).
Proof.
  intros Hr Ht. revert rs Hr. induction Ht as [|t ts Ht Hts IH]; intros rs Hr; cbn [foldl]; [by rewrite app_nil_r|].
  rewrite Join_snoc, clean_comps_path_of by (done || apply IsAbs_path_of). rewrite IH, <- app_assoc; [done|].
  apply Forall_app. split; [done|by constructor].
Qed.

Lemma length_path_of cs : (length cs <= length (path_of true cs))%nat.
Proof.
  induction cs as [|c cs IH] using rev_ind; [cbn; lia|]. rewrite path_of_snoc, !length_app. cbn [length].
  destruct cs; cbn in *; lia.
Qed.

(** [path_of (rs ++ ts)]: the names [ts] below a real place [rs]. *)
Lemma ancestor_spec o path fuel ds ss : Forall normal ds -> Forall normal ss -> (length ds < fuel)%nat ->
  os_eval o (path_of true ds) = None ->
  exists es ts rs, ds ++ ss = es ++ ts /\ os_eval o (path_of true es) = Some (path_of true rs) /\
    Forall normal rs /\ Forall normal ts /\ real (os_fs o) rs /\
    ancestorLoop fuel o path (path_of true ds) (rev ss) = Some (path_of true (rs ++ ts)).
Proof.
  revert ds ss. induction fuel as [|fuel IH]; intros ds ss Hds Hss Hf He; [lia|].
  destruct ds as [|c ds _] using rev_ind; [discriminate He|].
  rewrite length_app in Hf. cbn in Hf. apply Forall_app in Hds as [Hds Hc]. inversion Hc as [|? ? Hc1 _]; subst.
  cbn [ancestorLoop]. rewrite Dir_snoc by done. rewrite decide_False.
  2:{ intros E. apply path_of_inj in E; [|done|apply Forall_app; by split]. apply (f_equal length) in E. rewrite length_app in E. cbn in E. lia. }
  rewrite Base_snoc by done. change (rev ss ++ [c]) with (rev (c :: ss)).
  destruct (os_eval o (path_of true ds)) as [rp|] eqn:Er.
  - destruct (eval_real _ _ _ _ (IsAbs_path_of ds) Er) as (rs & -> & Hrs & Hreal). exists ds, (c :: ss), rs.
    rewrite rev_involutive, foldl_Join by (done || by constructor). by rewrite <- app_assoc; split_and!; try by constructor.
  - destruct (IH ds (c :: ss)) as (es & ts & rs & E & H); [done|by constructor|lia|done|].
    exists es, ts, rs. by rewrite <- app_assoc.
Qed.

Lemma Abs_clean getwd raw p : (forall wd, getwd = Some wd -> IsAbs wd = true) -> raw <> [] -> Abs getwd raw = Some p ->
  exists cs, p = path_of true cs /\ Forall normal cs.
Proof.
  intros Hwd Hne. unfold Abs. destruct (IsAbs raw) eqn:E.
  { intros [= <-]. rewrite Clean_abs by done. eauto using clean_comps_normal. }
  destruct getwd as [wd|]; [|done]. intros [= <-]. specialize (Hwd wd eq_refl).
  unfold Join. cbn [List.filter]. rewrite (bool_decide_eq_false_2 (wd = [])) by (by intros ->).
  rewrite (bool_decide_eq_false_2 (raw = [])) by done. cbn [negb Strings_Join].
  rewrite Clean_abs by by apply IsAbs_app. eauto using clean_comps_normal.
Qed.

Section Contained.
Context (o : os) (Hwd : forall wd, os_getwd o = Some wd -> IsAbs wd = true).

Lemma resolve_spec cs : Forall normal cs -> exists es ts rs, cs = es ++ ts /\ os_eval o (path_of true es) = Some (path_of true rs) /\
  Forall normal rs /\ Forall normal ts /\ real (os_fs o) rs /\
  (os_eval o (path_of true cs) <> None -> ts = []) /\
  resolveWithExistingAncestor o (path_of true cs) = Some (path_of true (rs ++ ts)).
Proof.
  intros Hcs. unfold resolveWithExistingAncestor. destruct (os_eval o (path_of true cs)) as [real_|] eqn:E.
  - destruct (eval_real _ _ _ _ (IsAbs_path_of cs) E) as (rs & -> & Hrs & Hreal). exists cs, [], rs. rewrite !app_nil_r. by split_and!.
  - destruct (ancestor_spec o (path_of true cs) (S (length (path_of true cs))) cs []) as (es & ts & rs & H1 & H2 & H3 & H4 & H5 & H6);
      [done|done|pose proof (length_path_of cs); lia|done|]. rewrite app_nil_r in H1. exists es, ts, rs. by split_and!.
Qed.

(** The answer for a raw path, given its components below the root. *)
Lemma Workspace_spec raw : exists r, Workspace o raw = Some r /\ forall p, r = Ok p ->
  safePathRE raw = true /\ exists cs es ts rs, Abs (os_getwd o) raw = Some (path_of true cs) /\ cs = es ++ ts /\
    os_eval o (path_of true es) = Some (path_of true rs) /\ (os_eval o (path_of true cs) <> None -> ts = []) /\
    real (os_fs o) rs /\ Forall normal (rs ++ ts) /\ p = path_of true (rs ++ ts) /\
    existsb (hasPrefix p) (trustedRoots o) = true.
Proof.
  unfold Workspace. destruct (safePathRE raw) eqn:Es; cbn [negb]; [|by eexists]. destruct (Abs _ raw) as [a|] eqn:Ea; [|by eexists].
  assert (raw <> []) as Hraw by (by intros ->).
  destruct (Abs_clean _ _ _ Hwd Hraw Ea) as (cs & -> & Hcs).
  destruct (resolve_spec cs Hcs) as (es & ts & rs & H1 & H2 & H3 & H4 & H5 & H6 & ->). eexists. split; [done|].
  intros p. destruct (existsb _ _) eqn:Ex; [|done]. intros [= <-]. split; [done|]. exists cs, es, ts, rs.
  split_and!; try done. apply Forall_app. by split.
Qed.
End Contained.

(** C29: [Workspace] always answers, and a path it accepts is contained.  The
    accepted path is absolute and clean, its components extend those of an
    absolute trusted root, and it is made of a real place (directories on the
    way, a directory or regular file at the end, no link) followed by names
    that are left only when the given path does not resolve.  So a path that
    resolves is returned with every link followed: it resolves to itself, and
    no link leads out of the root. *)
Theorem safe_path_contained o raw : (forall wd, os_getwd o = Some wd -> IsAbs wd = true) ->
  exists r, Workspace o raw = Some r /\ forall p, r = Ok p ->
  exists a root rs ts, Abs (os_getwd o) raw = Some a /\ p = path_of true (rs ++ ts) /\ Forall normal (rs ++ ts) /\
    real (os_fs o) rs /\ (os_eval o a <> None -> ts = [] /\ os_eval o a = Some p /\ os_eval o p = Some p) /\
    root ∈ trustedRoots o /\ IsAbs root = true /\ clean_comps true root `prefix_of` rs ++ ts.
Proof.
  intros Hwd. destruct (Workspace_spec o Hwd raw) as (r & Er & H). exists r. split; [done|]. intros p Ep.
  destruct (H p Ep) as (_ & cs & es & ts & rs & Ea & E1 & E2 & E3 & Hreal & Hn & -> & Hx).
  apply existsb_exists in Hx as (root & Hroot & Hpre). apply hasPrefix_spec in Hpre as [Habs Hpre]; [|apply IsAbs_path_of].
  rewrite clean_comps_path_of in Hpre by done.
  exists (path_of true cs), root, rs, ts. split_and!; try done; [|by apply list_elem_of_In].
  intros He. specialize (E3 He) as ->. rewrite app_nil_r in E1, Hn |- *. subst es. split_and!; [done..|]. by apply eval_real_path.
Qed.

(** * Examples *)

Module Witness.
Definition getenv (k : bytes) : bytes := if decide (k = str "GITHUB_WORKSPACE") then str "/ws" else [].

(** A workspace with a link inside it, a link out of it, and a link whose target
    does not exist. *)
Definition files : filesystem := list_to_map
  [([str "ws"], NDir); ([str "ws"; str "a"], NDir); ([str "ws"; str "a"; str "f"], NFile (str "x"));
   ([str "ws"; str "in"], NLink (str "a/../a")); ([str "ws"; str "out"], NLink (str "/etc"));
   ([str "etc"], NDir); ([str "etc"; str "f"], NFile (str "y"));
   ([str "ws"; str "dangling"], NLink (str "/etc/new"))].
Definition machine : os := mkOS files [] (Some (str "/ws")) getenv.

Example workspace_link : Workspace machine (str "in/f") = Some (Ok (str "/ws/a/f")).
Proof. vm_compute. reflexivity. Qed.
Example workspace_out : Workspace machine (str "/ws/out/f") = Some (Err (ErrOutsideRoots (str "/etc/f"))).
Proof. vm_compute. reflexivity. Qed.
Example workspace_new : Workspace machine (str "in/new/x") = Some (Ok (str "/ws/a/new/x")).
Proof. vm_compute. reflexivity. Qed.

(** A link to a file that does not exist yet is accepted as a name in the
    workspace, although opening it creates its target outside. *)
Example dangling_link_accepted : Workspace machine (str "/ws/dangling") = Some (Ok (str "/ws/dangling")) /\
  files !! [str "ws"; str "dangling"] = Some (NLink (str "/etc/new")).
Proof. split; vm_compute; reflexivity. Qed.

(** A path whose directory takes the 255 links that [EvalSymlinks] follows: the
    last name, itself a link out of the workspace, is not followed but
    appended, and the accepted path resolves outside. *)
Definition chain : filesystem := list_to_map
  ([([str "ws"], NDir); ([str "ws"; str "d"], NDir); ([str "ws"; str "l0"], NLink (str "d"));
    ([str "ws"; str "d"; str "x"], NLink (str "/secret")); ([str "secret"], NFile (str "s"))] ++
   map (fun n => ([str "ws"; str "l" ++ Itoa (Z.of_nat (S n))], NLink (str "l" ++ Itoa (Z.of_nat n)))) (seq 0 254)).
Definition chained : os := mkOS chain [] (Some (str "/ws")) getenv.

Example long_chain_escapes : Workspace chained (str "/ws/l254/x") = Some (Ok (str "/ws/d/x")) /\
  os_eval chained (str "/ws/d/x") = Some (str "/secret").
Proof. split; vm_compute; reflexivity. Qed.

Lemma safe_path_contained_witness : real files [str "ws"; str "a"; str "f"].
Proof.
  destruct (safe_path_contained machine (str "in/f")) as (r & Er & H); [by intros wd [= <-]|].
  rewrite workspace_link in Er. injection Er as <-.
  destruct (H _ eq_refl) as (a & root & rs & ts & Ea & Ep & Hn & Hr & Hts & _).
  destruct Hts as [-> _]; [injection Ea as <-; vm_compute; discriminate|]. rewrite app_nil_r in Ep, Hn.
  assert ([str "ws"; str "a"; str "f"] = rs) as ->; [|done].
  apply path_of_inj; [exact (clean_comps_normal (str "/ws/a/f"))|done|done].
Defined.
End Witness.
