(* ===== verification/AllowFiles.v ===== *)
(** internal/actioncli/allowlist_files.go and the allow inputs of [runStart]
    (internal/actioncli/main.go), and cmd/coldstep/validate.go.

    The commands run while the workspace may change under them: the file system
    is a function of time, and each system call that looks at it takes the next
    instant.  [open] follows links as the kernel does, 40 at most. *)
From S2P Require Import Prelude GoStrings GoNet GoPath Policy Allowlist Config SafePath.

Open Scope Z_scope.

Definition maxAllowlistFiles : Z := 64.
Definition maxAllowlistFileBytes : Z := 8 * 2 ^ 20.

(** * Classification of the entries *)

(** [\d{lo,hi}] as a whole string. *)
Definition digits (lo hi : Z) (s : bytes) : bool := (lo <=? len s) && (len s <=? hi) && forallb is_digit s.

Definition dotted_quad (s : bytes) : bool :=
  match Split s 46 with
  | [a; b; c; d] => digits 1 3 a && digits 1 3 b && digits 1 3 c && digits 1 3 d
  | _ => false
  end.

(** The expression [^(\d{1,3}\.){3}\d{1,3}(/\d{1,2})?$]. *)
Definition ipv4LiteralOrCIDR (t : bytes) : bool :=
  match Split t 47 with
  | [ip] => dotted_quad ip
  | [ip; bits] => dotted_quad ip && digits 1 2 bits
  | _ => false
  end.

Definition isIPLiteralOrCIDR (t : bytes) : bool :=
  if ipv4LiteralOrCIDR t then true
  else if Contains t (str "/") then bool_decide (ParseCIDR t <> None)
  else bool_decide (ParseIP t <> None).

Record classifiedAllow := mkClassified { ca_domains : list bytes; ca_hosts : list bytes; ca_ips : list bytes; ca_ignoredNets : list bytes }.

Definition classifyToken (c : classifiedAllow) (t : bytes) : classifiedAllow :=
  let t := TrimSpace t in
  if decide (t = []) then c
  else if HasPrefix t (str "!") then
    let inner := TrimPrefix t (str "!") in
    if ipv4LiteralOrCIDR inner then mkClassified (ca_domains c) (ca_hosts c) (ca_ips c) (ca_ignoredNets c ++ [inner]) else c
  else if isIPLiteralOrCIDR t then mkClassified (ca_domains c) (ca_hosts c) (ca_ips c ++ [t]) (ca_ignoredNets c)
  else mkClassified (ca_domains c ++ [t]) (ca_hosts c ++ [t]) (ca_ips c) (ca_ignoredNets c).

Definition classifyAllowTokens (tokens : list bytes) : classifiedAllow := foldl classifyToken (mkClassified [] [] [] []) tokens.

(** The wildcards of both lists, each once; [None] is no error. *)
Definition addWildcard (st : gset bytes * list bytes) (h : bytes) : gset bytes * list bytes :=
  let '(seen, bad) := st in
  if HasPrefix h (str "*.") then (if decide (h ∈ seen) then st else ({[h]} ∪ seen, bad ++ [h])) else st.

Definition rejectDefendWildcards (c : classifiedAllow) : option (list bytes) :=
  let bad := (foldl addWildcard (foldl addWildcard (∅, []) (ca_hosts c)) (ca_domains c)).2 in
  if decide (bad = []) then None else Some bad.

Definition comma : bytes := str ",".

Definition validateAllowPolicy `{UnicodeCase} (c : classifiedAllow) (noDefaultIgnoredNets : bool) : option policy_err :=
  match BuildPolicyEx (Strings_Join (ca_hosts c) comma) (Strings_Join (ca_ips c) comma) (Strings_Join (ca_ignoredNets c) comma)
          (negb noDefaultIgnoredNets) with
  | Ok _ => None
  | Err e => Some e
  end.

(** * Tokens *)

Definition splitTrimNonEmpty (s : bytes) (sep : Z -> bool) : list bytes :=
  foldl (fun out p => let p := TrimSpace p in if decide (p = []) then out else out ++ [p]) [] (FieldsFunc sep s).

Definition splitCommaPaths (csv : bytes) : list bytes := splitTrimNonEmpty csv (fun r => r =? 44).

Definition inline_sep (r : Z) : bool := (r =? 44) || (r =? 32) || (r =? 10) || (r =? 13) || (r =? 9).
Definition splitAllowInlineTokens (inline : bytes) : list bytes := splitTrimNonEmpty inline inline_sep.

Definition line_sep (r : Z) : bool := (r =? 44) || (r =? 32) || (r =? 9).

Definition lineTokens (line : bytes) : list bytes :=
  let line := TrimSpace line in
  if decide (line = []) then []
  else if HasPrefix line (str "#") then []
  else
    let line := match IndexByte line 35 with Some i => TrimSpace (take i line) | None => line end in
    if decide (line = []) then [] else splitTrimNonEmpty line line_sep.

Definition parseAllowlistFileBody (data : bytes) : list bytes := concat (map lineTokens (Split data 10)).

(** * Files *)

Inductive allow_err :=
  | ErrTooManyFiles (n : Z)
  | ErrWorkspaceAbs
  | ErrEmptyPath (rel : bytes)
  | ErrUnresolved (rel : bytes)
  | ErrOutsideWorkspace (rel : bytes)
  | ErrOpen (rel : bytes)
  | ErrTooLarge (rel : bytes)
  | ErrPathChanged (rel : bytes)
  | ErrMode (raw : bytes)
  | ErrAllowPolicy (e : policy_err)
  | ErrWildcards (bad : list bytes)
  | ErrProfile (e : config_err).

Section Files.
Context (fsAt : nat -> filesystem) (cwd : list bytes) (getwd : option bytes).

(** [resolvePathUnderWorkspace], from instant [t]: the path, and the next
    instant. *)
Definition joinWorkspace (workspaceAbs p : bytes) : bytes := if IsAbs p then Clean p else Join [workspaceAbs; Clean p].

Definition resolvePathUnderWorkspace (t : nat) (workspaceAbs userPath : bytes) : nat * result allow_err bytes :=
  let workspaceAbs := Clean workspaceAbs in
  let p := TrimSpace userPath in
  if decide (p = []) then (t, Err (ErrEmptyPath userPath))
  else
    let joined := joinWorkspace workspaceAbs p in
    match EvalSymlinks (fsAt t) cwd joined with
    | None => (S t, Err (ErrUnresolved userPath))
    | Some rp =>
      match EvalSymlinks (fsAt (S t)) cwd workspaceAbs with
      | None => (S (S t), Err (ErrUnresolved userPath))
      | Some ws =>
        (S (S t), match Rel ws rp with
                  | None => Err (ErrOutsideWorkspace userPath)
                  | Some rel => if bool_decide (rel = dotdot) || HasPrefix rel (dotdot ++ slash)
                                then Err (ErrOutsideWorkspace userPath) else Ok rp
                  end)
      end
    end.

(** [os.Open] and the whole content of a regular file. *)
Definition maxOpenLinks : nat := 40.
Definition openFile (fs : filesystem) (p : bytes) : option bytes :=
  match walk fs cwd maxOpenLinks (IsAbs p) [] (Split p 47) with
  | Some (rooted, stack) => match fs !! place cwd rooted stack with Some (NFile data) => Some data | _ => None end
  | None => None
  end.

Definition readFileCapped (t : nat) (rel path : bytes) (maxBytes : Z) : nat * result allow_err bytes :=
  match openFile (fsAt t) path with
  | None => (S t, Err (ErrOpen rel))
  | Some content =>
    let data := take (Z.to_nat (maxBytes + 1)) content in
    (S t, if maxBytes <? len data then Err (ErrTooLarge rel) else Ok data)
  end.

(** One file of the list. *)
Definition readAllowFile (t : nat) (wsAbs rel : bytes) : nat * result allow_err (list bytes) :=
  let '(t, full) := resolvePathUnderWorkspace t wsAbs rel in
  match full with
  | Err e => (t, Err e)
  | Ok full =>
    let '(t, body) := readFileCapped t rel full maxAllowlistFileBytes in
    match body with
    | Err e => (t, Err e)
    | Ok body =>
      let '(t, full2) := resolvePathUnderWorkspace t wsAbs rel in
      match full2 with
      | Ok full2 => if decide (full2 = full) then (t, Ok (parseAllowlistFileBody body)) else (t, Err (ErrPathChanged rel))
      | Err _ => (t, Err (ErrPathChanged rel))
      end
    end
  end.

Fixpoint readAllowFiles (t : nat) (wsAbs : bytes) (paths : list bytes) (fileTokens : list bytes) : nat * result allow_err (list bytes) :=
  match paths with
  | [] => (t, Ok fileTokens)
  | rel :: paths' =>
    let '(t, r) := readAllowFile t wsAbs rel in
    match r with
    | Err e => (t, Err e)
    | Ok toks => readAllowFiles t wsAbs paths' (fileTokens ++ toks)
    end
  end.

Definition mergeInlineAndAllowlistFiles (t : nat) (workspaceRoot inline filesCSV : bytes) : result allow_err bytes :=
  let paths := splitCommaPaths filesCSV in
  if decide (paths = []) then Ok (TrimSpace inline)
  else if maxAllowlistFiles <? len paths then Err (ErrTooManyFiles (len paths))
  else match Abs getwd workspaceRoot with
       | None => Err ErrWorkspaceAbs
       | Some wsAbs =>
         match (readAllowFiles t wsAbs paths []).2 with
         | Err e => Err e
         | Ok fileTokens => Ok (Strings_Join (splitAllowInlineTokens inline ++ fileTokens) comma)
         end
       end.

(** * The allow inputs of [runStart] *)

Record startInputs := mkStartInputs {
  in_mode : bytes; in_allow : bytes; in_allowFile : bytes; in_noDefaultIgnoredNets : bool; in_detectProfile : bytes;
  in_logLevel : bytes; in_signingKey : bytes }.

Definition normalizeCompositeMode `{UnicodeCase} (raw : bytes) : result allow_err bytes :=
  let mode := TrimSpace (ToLower raw) in
  let mode := if decide (mode = []) then str "detect" else mode in
  if negb (bool_decide (mode = str "detect")) && negb (bool_decide (mode = str "defend")) then Err (ErrMode (TrimSpace raw)) else Ok mode.

Definition boolString (v : bool) : bytes := if v then str "true" else str "false".

Record startPlan := mkPlan { pl_mode : bytes; pl_allow : classifiedAllow; pl_profile : bytes }.

Definition planStart `{UnicodeCase} (t : nat) (getenv : bytes -> bytes) (baseDir : bytes) (cfg : startInputs) : result allow_err startPlan :=
  mode ← normalizeCompositeMode (in_mode cfg);
  allowMerged ← mergeInlineAndAllowlistFiles t baseDir (in_allow cfg) (in_allowFile cfg);
  let allow := classifyAllowTokens (splitAllowInlineTokens allowMerged) in
  match validateAllowPolicy allow (in_noDefaultIgnoredNets cfg) with
  | Some e => Err (ErrAllowPolicy e)
  | None =>
    match (if decide (mode = str "defend") then rejectDefendWildcards allow else None) with
    | Some bad => Err (ErrWildcards bad)
    | None =>
      match ResolveDetectProfile (in_detectProfile cfg) (getenv (str "COLDSTEP_DETECT_PROFILE")) with
      | Err e => Err (ErrProfile e)
      | Ok profile => Ok (mkPlan mode allow profile)
      end
    end
  end.

(** The environment of the agent: the last of two entries for a name counts. *)
Definition childEnv (getenv : bytes -> bytes) (baseDir agentStatus : bytes) (cfg : startInputs) (p : startPlan) : list (bytes * bytes) :=
  let allow := pl_allow p in
  [(str "GITHUB_WORKSPACE", baseDir);
   (str "COLDSTEP_ALLOWED_DOMAINS", Strings_Join (ca_domains allow) comma);
   (str "COLDSTEP_ALLOWED_HOSTS", Strings_Join (ca_hosts allow) comma);
   (str "COLDSTEP_ALLOWED_IPS", Strings_Join (ca_ips allow) comma);
   (str "COLDSTEP_IGNORED_IP_NETS", Strings_Join (ca_ignoredNets allow) comma);
   (str "COLDSTEP_NO_DEFAULT_IGNORED_NETS", boolString (in_noDefaultIgnoredNets cfg));
   (str "COLDSTEP_FEATURE_GATES", if decide (pl_profile p = str "enhanced") then str "proc_tree=1,tls_sni=1,fs_events=1" else []);
   (str "COLDSTEP_DETECT_PROFILE", pl_profile p);
   (str "CI_GUARD_MODE", pl_mode p);
   (str "COLDSTEP_LOG_LEVEL", in_logLevel cfg);
   (str "COLDSTEP_AGENT_STATUS", agentStatus);
   (str "COLDSTEP_SIGNING_KEY", if decide (in_signingKey cfg = []) then getenv (str "COLDSTEP_SIGNING_KEY") else in_signingKey cfg)].

Definition childGetenv (getenv : bytes -> bytes) (extra : list (bytes * bytes)) (k : bytes) : bytes :=
  match List.find (fun kv => bool_decide (kv.1 = k)) (rev extra) with
  | Some kv => kv.2
  | None => getenv k
  end.
End Files.

(** * cmd/coldstep/validate.go *)

Inductive entryKind := kindIP | kindCIDR | kindDomain | kindWildcardDomain | kindNegation | kindError.

#[global] Instance entryKind_eq_dec : EqDecision entryKind.
Proof. solve_decision. Defined.

Inductive label_err := EmptyHostname | EmptyLabel | HyphenEdge (label : bytes) | InvalidCharacter (ch : Z).

Inductive entry_err :=
  | NegationUnsupported | InvalidCIDR | IPv6CIDR | IPv6Address | EmptyWildcard | InnerWildcard
  | InvalidWildcard (e : label_err) | UnrecognisedToken (e : label_err).

Definition label_rune (ch : Z) : bool := in_range 97 122 ch || in_range 48 57 ch || (ch =? 45).

Definition checkLabel (label : bytes) : option label_err :=
  if decide (label = []) then Some EmptyLabel
  else if HasPrefix label (str "-") || HasSuffix label (str "-") then Some (HyphenEdge label)
  else InvalidCharacter <$> List.find (fun ch => negb (label_rune ch)) (runes label).

(** The first error of a list of checks. *)
Fixpoint first_error {A E} (f : A -> option E) (l : list A) : option E :=
  match l with
  | [] => None
  | x :: l' => match f x with Some e => Some e | None => first_error f l' end
  end.

Section Validate.
Context `{UnicodeCase}.

Definition validateDomainLabel (s : bytes) : option label_err :=
  if decide (s = []) then Some EmptyHostname else first_error checkLabel (Split (ToLower s) 46).

Definition validateEntry (raw : bytes) : entryKind * option entry_err :=
  if HasPrefix raw (str "!") then (kindNegation, Some NegationUnsupported)
  else if Contains raw (str "/") then
    match ParseCIDR raw with
    | None => (kindError, Some InvalidCIDR)
    | Some (ip, _) => match To4 ip with None => (kindError, Some IPv6CIDR) | Some _ => (kindCIDR, None) end
    end
  else match ParseIP raw with
       | Some ip => match To4 ip with None => (kindError, Some IPv6Address) | Some _ => (kindIP, None) end
       | None =>
         if HasPrefix raw (str "*.") then
           let suf := TrimPrefix raw (str "*.") in
           if decide (suf = []) then (kindError, Some EmptyWildcard)
           else if Contains suf (str "*") then (kindError, Some InnerWildcard)
           else match validateDomainLabel suf with
                | Some e => (kindError, Some (InvalidWildcard e))
                | None => (kindWildcardDomain, None)
                end
         else match validateDomainLabel raw with
              | Some e => (kindError, Some (UnrecognisedToken e))
              | None => (kindDomain, None)
              end
       end.

Record validateResult := mkResult { vr_Line : Z; vr_Raw : bytes; vr_Kind : entryKind; vr_Error : option entry_err }.

(** One line of the scanner, numbered from 1. *)
Definition lineResult (lineNum : Z) (line : bytes) : list validateResult :=
  let line := match IndexByte line 35 with Some i => take i line | None => line end in
  let line := TrimSpace line in
  if decide (line = []) then []
  else let '(kind, err) := validateEntry line in [mkResult lineNum line kind err].

Fixpoint resultsFrom (lineNum : Z) (lines : list bytes) : list validateResult :=
  match lines with
  | [] => []
  | line :: lines' => lineResult lineNum line ++ resultsFrom (lineNum + 1) lines'
  end.

Definition parseAllowlistLines (input : bytes) : list validateResult := resultsFrom 1 (ScanLines input).

Record validateCounts := mkCounts { vc_ips : Z; vc_cidrs : Z; vc_domains : Z; vc_wildcards : Z; vc_negations : Z; vc_errors : Z }.

Definition countResult (c : validateCounts) (res : validateResult) : validateCounts :=
  let '(mkCounts ips cidrs domains wildcards negations errors) := c in
  match vr_Kind res with
  | kindIP => mkCounts (ips + 1) cidrs domains wildcards negations errors
  | kindCIDR => mkCounts ips (cidrs + 1) domains wildcards negations errors
  | kindDomain => mkCounts ips cidrs (domains + 1) wildcards negations errors
  | kindWildcardDomain => mkCounts ips cidrs domains (wildcards + 1) negations errors
  | kindNegation => mkCounts ips cidrs domains wildcards (negations + 1) (errors + 1)
  | kindError => mkCounts ips cidrs domains wildcards negations (errors + 1)
  end.

(** The exit code, with the counts printed when a list was read. *)
Definition runValidate (args : list bytes) (stdin : bytes) (open : bytes -> option bytes) : Z * option validateCounts :=
  let run input :=
    let counts := foldl countResult (mkCounts 0 0 0 0 0 0) (parseAllowlistLines input) in
    (if 0 <? vc_errors counts then 1 else 0, Some counts) in
  match args with
  | [] => run stdin
  | [name] => match open name with None => (1, None) | Some input => run input end
  | _ => (2, None)
  end.
End Validate.

(** * Tokens: lemmas *)

Lemma fields_aux_app f cs c ds cur : f c.1 = true -> fields_aux f (cs ++ c :: ds) cur = fields_aux f cs cur ++ fields_aux f ds [].
Proof.
  intros Hc. revert cur. induction cs as [|[r x] cs IH]; intros cur; destruct c as [rc xc]; cbn [app fields_aux].
  - cbn in Hc. rewrite Hc. by destruct cur.
  - destruct (f r); [|by rewrite IH]. destruct cur; by rewrite IH.
Qed.

(** A separator splits the fields. *)
Lemma FieldsFunc_app f a c b : c < 128 -> f c = true -> FieldsFunc f (a ++ c :: b) = FieldsFunc f a ++ FieldsFunc f b.
Proof. intros Hc Hf. unfold FieldsFunc. rewrite chunks_app_ascii by done. by apply fields_aux_app. Qed.

Definition trim_keep (p : bytes) : option bytes := let p := TrimSpace p in if decide (p = []) then None else Some p.

Lemma splitTrim_omap s sep : splitTrimNonEmpty s sep = omap trim_keep (FieldsFunc sep s).
Proof.
  unfold splitTrimNonEmpty. set (f := fun out p => _).
  assert (forall l out, foldl f out l = out ++ omap trim_keep l) as ->; [|done].
  induction l as [|p l IH]; intros out; cbn [foldl omap list_omap]; [by rewrite app_nil_r|].
  rewrite IH. unfold f, trim_keep at 2. cbv zeta. case_decide; [done|]. by rewrite <- app_assoc.
Qed.

Lemma splitTrim_app a c b sep : c < 128 -> sep c = true -> splitTrimNonEmpty (a ++ c :: b) sep = splitTrimNonEmpty a sep ++ splitTrimNonEmpty b sep.
Proof. intros Hc Hs. rewrite !splitTrim_omap, FieldsFunc_app by done. apply omap_app. Qed.

(** A field is made of consecutive runes that are no separators. *)
Lemma fields_mid f pre cs x : Forall (fun c => f c.1 = false) pre -> x ∈ fields_aux f cs (concat pre.*2) ->
  exists a b c, pre ++ cs = a ++ b ++ c /\ x = concat b.*2 /\ Forall (fun c => f c.1 = false) b.
Proof.
  revert x pre. induction cs as [|[r y] cs IH]; intros x pre Hpre Hx; cbn [fields_aux] in Hx.
  { exists [], pre, []. split; [done|]. split; [|done]. by destruct (concat _); [apply not_elem_of_nil in Hx|apply list_elem_of_singleton in Hx]. }
  assert (forall z, z ∈ fields_aux f cs [] -> exists a b c, pre ++ (r, y) :: cs = a ++ b ++ c /\ z = concat b.*2 /\ Forall (fun c => f c.1 = false) b) as Hnext.
  { intros z Hz. destruct (IH z [] (Forall_nil_2 _) Hz) as (a & b & c & E & H). exists ((pre ++ [(r, y)]) ++ a), b, c.
    split; [|done]. rewrite <- !app_assoc. cbn. by rewrite <- E. }
  destruct (f r) eqn:Ef.
  - destruct (concat _) as [|h t] eqn:Ec; [by apply Hnext|]. rewrite elem_of_cons in Hx. destruct Hx as [->|Hx]; [|by apply Hnext].
    exists [], pre, ((r, y) :: cs). by split_and!.
  - destruct (IH x (pre ++ [(r, y)])) as (a & b & c & E & H); [apply Forall_app; by repeat constructor| |].
    { by rewrite fmap_app, concat_app; cbn; rewrite app_nil_r. }
    exists a, b, c. split; [|done]. by rewrite <- E, <- app_assoc.
Qed.

Lemma fields_none f cs cur : Forall (fun c => f c.1 = false) cs -> cur ++ concat cs.*2 <> [] -> fields_aux f cs cur = [cur ++ concat cs.*2].
Proof.
  intros Hcs. revert cur. induction Hcs as [|[r y] cs Hr Hcs IH]; intros cur Hne; cbn in *; [rewrite app_nil_r in *; by destruct cur|].
  rewrite Hr, IH by (by rewrite <- app_assoc). by rewrite <- app_assoc.
Qed.

(** A token is split no further. *)
Lemma split_token sep s tok : tok ∈ splitTrimNonEmpty s sep -> splitTrimNonEmpty tok sep = [tok].
Proof.
  rewrite !splitTrim_omap, list_elem_of_omap. intros (x & Hx & E). unfold trim_keep in E. case_decide as Hne; [done|]. injection E as <-.
  destruct (fields_mid sep [] (chunks s) x (Forall_nil_2 _) Hx) as (a & b & c & E & -> & Hb). cbn [app] in E.
  assert (chunks (TrimSpace (concat b.*2)) = trim (fun c => IsSpace c.1) b) as Ec by (unfold TrimSpace; by rewrite chunks_Trim, (chunks_mid _ _ _ _ E)).
  assert (Forall (fun c => sep c.1 = false) (trim (fun c => IsSpace c.1) b)) as Ht.
  { destruct (trim_mid (fun c => IsSpace c.1) b) as (u & v & E'). rewrite E' in Hb. apply Forall_app in Hb as [_ Hb]. by apply Forall_app in Hb as [Hb _]. }
  unfold FieldsFunc. rewrite Ec, fields_none by (try done; cbn; by rewrite <- Ec, chunks_concat). cbn [app].
  rewrite <- Ec, chunks_concat. cbn [omap list_omap]. unfold trim_keep. unfold TrimSpace. rewrite Trim_idem. by rewrite decide_False.
Qed.

(** Splitting the joined tokens splits each of them. *)
Lemma split_tokens ts : splitAllowInlineTokens (Strings_Join ts comma) = concat (map splitAllowInlineTokens ts).
Proof.
  induction ts as [|t ts IH]; [done|]. destruct ts as [|t' ts]; [cbn [Strings_Join map concat]; by rewrite app_nil_r|].
  rewrite Join_cons by done. change (t ++ comma ++ ?x) with (t ++ 44 :: x). unfold splitAllowInlineTokens at 1.
  rewrite splitTrim_app by done. fold (splitAllowInlineTokens t). change (splitTrimNonEmpty ?x inline_sep) with (splitAllowInlineTokens x).
  by rewrite IH.
Qed.

Lemma split_again s : concat (map splitAllowInlineTokens (splitAllowInlineTokens s)) = splitAllowInlineTokens s.
Proof.
  assert (forall l, (forall t, t ∈ l -> splitAllowInlineTokens t = [t]) -> concat (map splitAllowInlineTokens l) = l) as Hl.
  { induction l as [|t l IH]; intros Hl; [done|]. cbn [map concat]. rewrite Hl by apply list_elem_of_here. rewrite IH; [done|].
    intros u Hu. apply Hl. by apply list_elem_of_further. }
  apply Hl. intros t. apply split_token.
Qed.

(** * The files that are read *)

Section Contained.
Context (fsAt : nat -> filesystem) (cwd : list bytes).

Lemma joinWorkspace_abs ws p : IsAbs ws = true -> IsAbs (joinWorkspace ws p) = true.
Proof.
  intros Hw. unfold joinWorkspace. destruct (IsAbs p) eqn:E; [by apply IsAbs_Clean|].
  unfold Join. cbn [List.filter]. rewrite (bool_decide_eq_false_2 (ws = [])) by (by intros ->). cbn [negb].
  destruct (negb _); apply IsAbs_Clean; cbn [Strings_Join]; [by apply IsAbs_app|done].
Qed.

(** A path under the workspace at instant [t]: real, and below the workspace as
    it is one instant later. *)
Record inside (t : nat) (wsAbs rel : bytes) (cs : list bytes) : Prop := {
  in_real : real (fsAt t) cs;
  in_normal : Forall normal cs;
  in_eval : EvalSymlinks (fsAt t) cwd (joinWorkspace (Clean wsAbs) (TrimSpace rel)) = Some (path_of true cs);
  in_below : exists ws, EvalSymlinks (fsAt (S t)) cwd (Clean wsAbs) = Some (path_of true ws) /\ ws `prefix_of` cs;
}.

Lemma resolve_inside t wsAbs rel t' rp : IsAbs wsAbs = true -> resolvePathUnderWorkspace fsAt cwd t wsAbs rel = (t', Ok rp) ->
  t' = S (S t) /\ exists cs, rp = path_of true cs /\ inside t wsAbs rel cs.
Proof.
  intros Hw. unfold resolvePathUnderWorkspace. case_decide as Hp; [done|].
  assert (Hcw := IsAbs_Clean wsAbs Hw).
  destruct (EvalSymlinks (fsAt t) _ _) as [rp'|] eqn:E1; [|done]. destruct (EvalSymlinks (fsAt (S t)) _ _) as [ws|] eqn:E2; [|done].
  destruct (eval_real _ _ _ _ (joinWorkspace_abs _ _ Hcw) E1) as (cs & -> & Hn & Hr).
  destruct (eval_real _ _ _ _ Hcw E2) as (wcs & -> & Hwn & _).
  destruct (Rel_prefix _ _ (IsAbs_path_of wcs) (IsAbs_path_of cs)) as (r & -> & Hpre & _). fold (escapes r).
  rewrite !clean_comps_path_of in Hpre by done.
  destruct (escapes r); intros [= <- <-]. split; [done|]. exists cs. split; [done|]. split; try done. exists wcs. split; [done|by apply Hpre].
Qed.

(** A file that was read: inside the workspace before and after, with the
    content it had in between. *)
Record read_ok (wsAbs rel : bytes) (cs : list bytes) (body : bytes) : Prop := {
  rd_before : exists t, inside t wsAbs rel cs /\ openFile cwd (fsAt (S (S t))) (path_of true cs) = Some body /\
    inside (S (S (S t))) wsAbs rel cs;
  rd_size : len body <= maxAllowlistFileBytes;
}.

Lemma readFile_ok t rel p t' body : readFileCapped fsAt cwd t rel p maxAllowlistFileBytes = (t', Ok body) ->
  t' = S t /\ openFile cwd (fsAt t) p = Some body /\ len body <= maxAllowlistFileBytes.
Proof.
  unfold readFileCapped. destruct (openFile _ _ _) as [content|]; [|done]. cbv zeta.
  generalize (eq_refl maxAllowlistFileBytes). generalize maxAllowlistFileBytes at 1 3 4 5. intros cap Hcap.
  assert (0 <= cap) as H0 by (subst cap; unfold maxAllowlistFileBytes; lia).
  destruct (Z.ltb_spec cap (len (take (Z.to_nat (cap + 1)) content))) as [|Hl]; [done|]. intros [= <- <-].
  split; [done|]. unfold len in *. rewrite length_take in Hl. rewrite take_ge by lia. split; [done|lia].
Qed.

Lemma readAllowFile_ok t wsAbs rel t' toks : IsAbs wsAbs = true -> readAllowFile fsAt cwd t wsAbs rel = (t', Ok toks) ->
  exists cs body, read_ok wsAbs rel cs body /\ toks = parseAllowlistFileBody body.
Proof.
  intros Hw. unfold readAllowFile. destruct (resolvePathUnderWorkspace _ _ t _ _) as [t1 [full|]] eqn:E1; [|done].
  destruct (resolve_inside _ _ _ _ _ Hw E1) as (-> & cs & -> & H1).
  destruct (readFileCapped _ _ _ _ _ _) as [t2 [body|]] eqn:E2; [|done]. apply readFile_ok in E2 as (-> & Ho & Hl).
  clear E1. destruct (resolvePathUnderWorkspace fsAt cwd (S (S (S t))) wsAbs rel) as [t3 [full2|]] eqn:E3; [|done].
  destruct (resolve_inside _ _ _ _ _ Hw E3) as (-> & cs2 & -> & H2). case_decide as Heq; [|done].
  apply path_of_inj in Heq; [|apply H2|apply H1]. subst cs2. intros [= <- <-]. exists cs, body. split; [|done]. split; [|done]. by exists t.
Qed.

Lemma readAllowFiles_ok wsAbs paths t acc t' toks : IsAbs wsAbs = true -> readAllowFiles fsAt cwd t wsAbs paths acc = (t', Ok toks) ->
  exists reads : list (list bytes * bytes), Forall2 (fun rel r => read_ok wsAbs rel r.1 r.2) paths reads /\
    toks = acc ++ concat (map (fun r => parseAllowlistFileBody r.2) reads).
Proof.
  intros Hw. revert t acc. induction paths as [|rel paths IH]; intros t acc; cbn [readAllowFiles].
  { intros [= <- <-]. exists []. by rewrite app_nil_r. }
  destruct (readAllowFile _ _ _ _ _) as [t1 [ts|]] eqn:E; [|done]. intros H.
  destruct (readAllowFile_ok _ _ _ _ _ Hw E) as (cs & body & Hok & ->). destruct (IH _ _ H) as (reads & HF & ->).
  exists ((cs, body) :: reads). split; [by constructor|]. cbn. by rewrite app_assoc.
Qed.

(** Without changes in between, the content is that of a regular file inside the
    workspace. *)
Lemma read_unchanged wsAbs rel cs body fs : read_ok wsAbs rel cs body -> (forall t, fsAt t = fs) -> fs !! cs = Some (NFile body).
Proof.
  intros [(t & H1 & Ho & _) _] Hfs. rewrite Hfs in Ho. unfold openFile in Ho. rewrite IsAbs_path_of in Ho.
  rewrite walk_real_path in Ho; [|apply H1|rewrite <- (Hfs t); apply H1]. unfold place in Ho. rewrite rev_involutive in Ho.
  destruct (fs !! cs) as [[]|]; try done. by injection Ho as ->.
Qed.
End Contained.

(** * What [start] hands to the agent *)

(** ** Strings that trimming leaves alone *)

Lemma drop_while_none {A} (f : A -> bool) l : Forall (fun x => f x = false) l -> drop_while f l = l.
Proof. by intros [|x l' Hx _]; cbn; [|rewrite Hx]. Qed.

Lemma TrimSpace_none s : Forall (fun b => b < 128 /\ IsSpace b = false) s -> TrimSpace s = s.
Proof.
  intros Hs. rewrite TrimSpace_ascii.
  - unfold trim. rewrite (drop_while_none _ s) by (eapply Forall_impl; [exact Hs|]; by intros ? [_ ?]).
    rewrite drop_while_none by (apply Forall_rev; eapply Forall_impl; [exact Hs|]; by intros ? [_ ?]). apply rev_involutive.
  - apply is_ascii_Forall. eapply Forall_impl; [exact Hs|]. by intros ? [? _].
Qed.

Lemma split_aux_ne sep s cur : split_aux sep s cur <> [].
Proof. revert cur. induction s as [|b s IH]; intros cur; cbn [split_aux]; [done|]. by destruct (b =? sep). Qed.

Lemma Join_Split s sep : Strings_Join (Split s sep) [sep] = s.
Proof.
  unfold Split. assert (forall cur, Strings_Join (split_aux sep s cur) [sep] = cur ++ s) as ->; [|done].
  induction s as [|b s IH]; intros cur; cbn [split_aux]; [by rewrite app_nil_r|].
  destruct (Z.eqb_spec b sep) as [->|]; [|by rewrite IH, <- app_assoc].
  rewrite Join_cons by apply split_aux_ne. by rewrite IH.
Qed.

Lemma Forall_Join (P : Z -> Prop) l sep : Forall (Forall P) l -> Forall P sep -> Forall P (Strings_Join l sep).
Proof.
  intros Hl Hsep. induction Hl as [|x l Hx Hl IH]; [constructor|]. destruct l as [|y l]; [done|].
  rewrite Join_cons by done. by rewrite !Forall_app.
Qed.

(** The characters of an address or network. *)
Definition plain_byte (b : Z) : Prop := b < 128 /\ IsSpace b = false.

Lemma digit_plain b : is_digit b = true -> plain_byte b.
Proof. unfold is_digit, plain_byte, IsSpace, in_range. intros Hd. lia. Qed.

Lemma digits_plain lo hi s : digits lo hi s = true -> Forall plain_byte s.
Proof.
  unfold digits. intros [_ Hs]%andb_prop. apply Forall_forall. intros b Hb. rewrite forallb_forall in Hs.
  by apply digit_plain, Hs, list_elem_of_In.
Qed.

Lemma quad_plain s : dotted_quad s = true -> Forall plain_byte s.
Proof.
  intros Hq. rewrite <- (Join_Split s 46). unfold dotted_quad in Hq. destruct (Split s 46) as [|a [|b [|c [|d [|? ?]]]]]; try done.
  apply andb_prop in Hq as [[[Ha Hb]%andb_prop Hc]%andb_prop Hd].
  apply Forall_Join; [|by repeat constructor]. rewrite !Forall_cons, Forall_nil. split_and!; try done; by eapply digits_plain.
Qed.

Lemma ipv4_plain t : ipv4LiteralOrCIDR t = true -> Forall plain_byte t.
Proof.
  intros Hq. rewrite <- (Join_Split t 47). unfold ipv4LiteralOrCIDR in Hq. destruct (Split t 47) as [|a [|b [|? ?]]]; try done.
  - by apply quad_plain.
  - apply andb_prop in Hq as [Ha Hb]. apply Forall_Join; [|by repeat constructor].
    rewrite !Forall_cons, Forall_nil. split_and!; [by apply quad_plain|by eapply digits_plain|done].
Qed.

(** ** The buckets *)

Record buckets_ok (c : classifiedAllow) : Prop := {
  bk_same : ca_domains c = ca_hosts c;
  bk_ips : Forall (fun t => isIPLiteralOrCIDR t = true) (ca_ips c);
  bk_hosts : Forall (fun t => isIPLiteralOrCIDR t = false /\ HasPrefix t (str "!") = false) (ca_hosts c);
  bk_ignored : Forall (fun t => ipv4LiteralOrCIDR t = true) (ca_ignoredNets c);
}.

Lemma classify_ok tokens : buckets_ok (classifyAllowTokens tokens).
Proof.
  unfold classifyAllowTokens. assert (buckets_ok (mkClassified [] [] [] [])) as H0 by (split; [done|constructor..]).
  revert H0. generalize (mkClassified [] [] [] []). induction tokens as [|t tokens IH]; intros c Hc; [done|].
  cbn [foldl]. apply IH. destruct Hc as [H1 H2 H3 H4]. unfold classifyToken. case_decide; [done|].
  destruct (HasPrefix (TrimSpace t) (str "!")) eqn:Eb.
  - destruct (ipv4LiteralOrCIDR _) eqn:E; [|done]. split; cbn; [done..|]. apply Forall_app. by repeat constructor.
  - destruct (isIPLiteralOrCIDR _) eqn:E; split; cbn; try done.
    + apply Forall_app. by repeat constructor.
    + by rewrite H1.
    + apply Forall_app. by repeat constructor.
Qed.

Lemma ignored_trim c : buckets_ok c -> TrimSpace (Strings_Join (ca_ignoredNets c) comma) = Strings_Join (ca_ignoredNets c) comma.
Proof.
  intros Hc. apply TrimSpace_none, Forall_Join; [|by repeat constructor].
  eapply Forall_impl; [apply Hc|]. intros t. apply ipv4_plain.
Qed.

(** No wildcard is left when none is reported. *)
Lemma addWildcard_none st l : (foldl addWildcard st l).2 = [] -> st.2 = [] /\ (st.1 = ∅ -> Forall (fun h => HasPrefix h (str "*.") = false) l).
Proof.
  revert st. induction l as [|h l IH]; intros [seen bad]; cbn [foldl]; [by split; [|constructor]|].
  intros E. apply IH in E as [E1 E2]. unfold addWildcard in *. destruct (HasPrefix h (str "*.")) eqn:Eh; cbn in *.
  - destruct (decide (h ∈ seen)) as [Hin|]; cbn in *; [split; [done|]; intros ->; by apply not_elem_of_empty in Hin|]. by destruct bad.
  - split; [done|]. intros Hs. constructor; [done|auto].
Qed.

Lemma rejectWildcards_none c : ca_domains c = ca_hosts c -> rejectDefendWildcards c = None ->
  Forall (fun h => HasPrefix h (str "*.") = false) (ca_domains c).
Proof.
  intros Es. unfold rejectDefendWildcards. case_decide as E; [|done]. intros _. rewrite Es in *.
  apply addWildcard_none in E as [E _]. apply addWildcard_none in E as [_ E]. by apply E.
Qed.

(** ** Theorems *)

Section Theorems.
Context `{UnicodeCase}.

(** C30: the allow files.  When the merge succeeds, either no file was named, or
    every named file was read through a path that resolved, before and after
    the read, to the same place inside the workspace, and was within the size
    limit; the tokens that are classified are those of the inline input and of
    the files, in order.  If the file system does not change meanwhile, each
    content is that of a regular file inside the workspace. *)
Theorem allow_files_contained fsAt cwd getwd t root inline files merged :
  (forall wd, getwd = Some wd -> IsAbs wd = true) -> root <> [] ->
  mergeInlineAndAllowlistFiles fsAt cwd getwd t root inline files = Ok merged ->
  splitCommaPaths files = [] /\ merged = TrimSpace inline \/
  exists wsAbs reads, Abs getwd root = Some wsAbs /\ len reads <= maxAllowlistFiles /\
    Forall2 (fun rel r => read_ok fsAt cwd wsAbs rel r.1 r.2) (splitCommaPaths files) reads /\
    splitAllowInlineTokens merged =
      splitAllowInlineTokens inline ++ concat (map splitAllowInlineTokens (concat (map (fun r => parseAllowlistFileBody r.2) reads))) /\
    forall fs, (forall t, fsAt t = fs) -> Forall (fun r => fs !! r.1 = Some (NFile r.2)) reads.
Proof.
  intros Hwd Hroot. unfold mergeInlineAndAllowlistFiles. case_decide as Hp; [intros [= <-]; by left|].
  destruct (Z.ltb_spec maxAllowlistFiles (len (splitCommaPaths files))) as [|Hn]; [done|].
  destruct (Abs getwd root) as [wsAbs|] eqn:Ea; [|done].
  destruct (readAllowFiles _ _ _ _ _ _) as [t' [toks|]] eqn:Er; [|done]. cbn [snd]. intros [= <-]. right.
  destruct (readAllowFiles_ok _ _ _ _ _ _ _ _ (IsAbs_Abs _ _ _ Hwd Hroot Ea) Er) as (reads & HF & ->). cbn [app].
  exists wsAbs, reads. split_and!; [done| |done|by rewrite split_tokens, map_app, concat_app, split_again|].
  - unfold len in *. by rewrite <- (Forall2_length _ _ _ HF).
  - intros fs Hfs. clear -HF Hfs. induction HF as [|rel r rels reads Hr _ IH]; [constructor|]. constructor; [by eapply read_unchanged|done].
Qed.

(** A plan that was made has a mode, a profile, a policy and no wildcard in
    defend mode. *)
Lemma plan_ok fsAt cwd getwd t getenv baseDir cfg p : planStart fsAt cwd getwd t getenv baseDir cfg = Ok p ->
  (pl_mode p = str "detect" \/ pl_mode p = str "defend") /\ (pl_profile p = str "standard" \/ pl_profile p = str "enhanced") /\
  buckets_ok (pl_allow p) /\
  (exists pol, BuildPolicyEx (Strings_Join (ca_hosts (pl_allow p)) comma) (Strings_Join (ca_ips (pl_allow p)) comma)
     (Strings_Join (ca_ignoredNets (pl_allow p)) comma) (negb (in_noDefaultIgnoredNets cfg)) = Ok pol) /\
  (pl_mode p = str "defend" -> Forall (fun h => HasPrefix h (str "*.") = false) (ca_domains (pl_allow p))).
Proof.
  unfold planStart, normalizeCompositeMode. cbv zeta. set (mode := if decide (_ = []) then _ else _).
  assert (negb (bool_decide (mode = str "detect")) && negb (bool_decide (mode = str "defend")) = false -> mode = str "detect" \/ mode = str "defend") as Hm.
  { do 2 case_bool_decide; cbn; auto. done. }
  destruct (negb _ && negb _); [done|]. specialize (Hm eq_refl). cbn [mbind result_bind].
  destruct (mergeInlineAndAllowlistFiles _ _ _ _ _ _ _) as [merged|]; [|done]. cbn [mbind result_bind].
  pose proof (classify_ok (splitAllowInlineTokens merged)) as Hc. set (c := classifyAllowTokens _) in *. clearbody c.
  unfold validateAllowPolicy. destruct (BuildPolicyEx _ _ _ _) as [pol|] eqn:Ep; [|done].
  destruct (if decide (mode = str "defend") then _ else None) eqn:Ew; [done|].
  destruct (ResolveDetectProfile _ _) as [prof|] eqn:Eprof; [|done]. intros [= <-]. cbn.
  split_and!; [done|by eapply profile_ok|done|by exists pol|]. intros Hd. rewrite decide_True in Ew by done.
  apply rejectWildcards_none; [apply Hc|done].
Qed.

Section Child.
Context (getenv : bytes -> bytes) (baseDir status : bytes) (cfg : startInputs) (p : startPlan).

Definition child : bytes -> bytes := childGetenv getenv (childEnv getenv baseDir status cfg p).

Lemma child_env :
  child (str "CI_GUARD_MODE") = pl_mode p /\ child (str "COLDSTEP_ALLOWED_DOMAINS") = Strings_Join (ca_domains (pl_allow p)) comma /\
  child (str "COLDSTEP_ALLOWED_HOSTS") = Strings_Join (ca_hosts (pl_allow p)) comma /\
  child (str "COLDSTEP_ALLOWED_IPS") = Strings_Join (ca_ips (pl_allow p)) comma /\
  child (str "COLDSTEP_IGNORED_IP_NETS") = Strings_Join (ca_ignoredNets (pl_allow p)) comma /\
  child (str "COLDSTEP_NO_DEFAULT_IGNORED_NETS") = boolString (in_noDefaultIgnoredNets cfg) /\
  child (str "COLDSTEP_DETECT_PROFILE") = pl_profile p /\ child (str "COLDSTEP_CGROUP_PATH") = getenv (str "COLDSTEP_CGROUP_PATH").
Proof. split_and!; reflexivity. Qed.
End Child.

Lemma mode_loads m : m = str "detect" \/ m = str "defend" ->
  exists mode, parseMode (or_default (ToLower (TrimSpace m)) (str "detect")) = Some mode /\ Mode_string mode = m.
Proof. intros [-> | ->]; eexists; (split; [reflexivity|done]). Qed.

Lemma profile_loads prof : prof = str "standard" \/ prof = str "enhanced" -> ResolveDetectProfile [] prof = Ok prof.
Proof. by intros [-> | ->]. Qed.

(** C33: what [start] accepts, the agent accepts.  The environment that a
    successful plan gives to the agent never makes its configuration fail on
    the mode, the policy or the profile: loading it gives the mode, profile and
    lists of the plan, without a wildcard in defend mode, or fails because
    defend mode has no domain, or because of the caller's own cgroup path. *)
Theorem started_agent_loads fsAt cwd getwd t getenv baseDir status cfg p stat awd :
  planStart fsAt cwd getwd t getenv baseDir cfg = Ok p ->
  match LoadFromEnv (child getenv baseDir status cfg p) stat awd with
  | Ok c =>
    Mode_string (cf_Mode c) = pl_mode p /\ DetectProfile c = pl_profile p /\
    AllowedHosts c = Strings_Join (ca_hosts (pl_allow p)) comma /\ AllowedIPs c = Strings_Join (ca_ips (pl_allow p)) comma /\
    IgnoredIPNets c = Strings_Join (ca_ignoredNets (pl_allow p)) comma /\ NoDefaultIgnoredNets c = in_noDefaultIgnoredNets cfg /\
    (cf_Mode c = ModeDefend -> Forall (fun h => HasPrefix h (str "*.") = false) (ca_domains (pl_allow p)))
  | Err ErrEmptyAllowlist => pl_mode p = str "defend" /\ NormalizeDomainsFromRaw (Strings_Join (ca_domains (pl_allow p)) comma) = []
  | Err (ErrCgroupStat _ | ErrCgroupNotDir _ | ErrCgroupAbs _) => TrimSpace (getenv (str "COLDSTEP_CGROUP_PATH")) <> []
  | Err _ => False
  end.
Proof.
  intros Hp. destruct (plan_ok _ _ _ _ _ _ _ _ Hp) as (Hm & Hprof & Hc & [pol Hpol] & Hw).
  destruct (child_env getenv baseDir status cfg p) as (E1 & E2 & E3 & E4 & E5 & E6 & E7 & E8).
  set (env := child _ _ _ _ _) in *. clearbody env. unfold LoadFromEnv. rewrite E1, E2, E3, E4, E5, E7, E8.
  destruct (mode_loads _ Hm) as (mode & -> & Emode).
  assert (envBoolTrue env (str "COLDSTEP_NO_DEFAULT_IGNORED_NETS") = in_noDefaultIgnoredNets cfg) as ->.
  { unfold envBoolTrue. rewrite E6. by destruct (in_noDefaultIgnoredNets cfg). }
  rewrite ignored_trim, Hpol, profile_loads by done. cbn [mbind result_bind]. case_decide as Hd.
  { destruct Hd as [-> ?]. by rewrite <- Emode. }
  unfold AttachPath. case_decide; [|destruct (stat _) as [[]|]; [destruct (Abs _ _)|..]; cbn; try done].
  all: cbn; split_and!; try done; intros ->; by apply Hw; rewrite <- Emode.
Qed.
End Theorems.

(** * What [validate] accepts *)

(** A rune below 128 is its byte. *)
Lemma decode_rune_small s r w : decode_rune s = Some (r, w) -> r < 128 -> exists t, s = r :: t /\ w = 1%nat.
Proof.
  destruct s as [|b0 t]; [done|]. intros E Hr. exists t.
  unfold decode_rune, cont, in_range, RuneError in E. repeat case_match; simplify_eq; try done; lia.
Qed.

Lemma small_runes s : Forall (fun r => r < 128) (runes s) -> runes s = s.
Proof.
  remember (length s) as n eqn:En. revert s En. induction n as [n IH] using lt_wf_ind. intros s -> Hs.
  destruct s as [|x s]; [done|]. destruct (decode_rune_cons x s) as (r & w & E). unfold runes in *. rewrite (chunks_step _ _ _ E) in *.
  cbn [fmap list_fmap fst] in *. apply Forall_cons in Hs as [Hr Hs]. destruct (decode_rune_small _ _ _ E Hr) as (t & [= -> ->] & ->).
  cbn [drop] in *. f_equal. eapply IH; [|done|done]. cbn. lia.
Qed.

Lemma ToLower_cons `{UnicodeCase} c s : 0 <= c < 128 -> ToLower (c :: s) = lower_byte c :: ToLower s.
Proof.
  intros Hc. unfold ToLower. cbn [is_ascii forallb]. rewrite (proj2 (Z.ltb_lt c 128)) by lia. cbn [andb]. fold (is_ascii s).
  destruct (is_ascii s); [done|]. rewrite (chunks_step _ c 1) by (apply decode_rune_ascii; lia). cbn [map concat drop fst].
  rewrite rune_lower_ascii by lia. unfold encode_rune.
  assert (in_range 0 0x7F (lower_byte c) = true) as ->; [|done]. unfold lower_byte, is_upper, in_range in *. case_match; lia.
Qed.

(** A label that passes: not empty, letters, digits and inner hyphens. *)
Record label_ok (l : bytes) : Prop := {
  lb_ne : l <> [];
  lb_head : forall b t, l = b :: t -> host_alnum b = true;
  lb_last : forall b t, l = t ++ [b] -> host_alnum b = true;
  lb_chars : Forall (fun b => host_char b = true) l;
}.

Lemma label_rune_host b : label_rune b = true -> b < 128 /\ host_char b = true /\ (b <> 45 -> host_alnum b = true).
Proof. unfold label_rune, host_char, host_alnum, is_lower, is_digit, in_range. lia. Qed.

Lemma checkLabel_ok l : checkLabel l = None -> label_ok l.
Proof.
  unfold checkLabel. case_decide as Hne; [done|]. destruct (HasPrefix l (str "-")) eqn:Ep; [done|]. destruct (HasSuffix l (str "-")) eqn:Es; [done|].
  cbn [orb]. destruct (List.find _ _) eqn:Ef; [done|]. intros _.
  assert (Forall (fun b => label_rune b = true) (runes l)) as Hr.
  { apply Forall_forall. intros b Hb. apply list_elem_of_In in Hb. pose proof (List.find_none _ _ Ef b Hb) as Hn. cbn beta in Hn. by apply negb_false_iff in Hn. }
  rewrite small_runes in Hr by (eapply Forall_impl; [exact Hr|]; intros b Hb; apply (label_rune_host b Hb)). split; [done| | |].
  - intros b t ->. apply Forall_cons in Hr as [Hb _]. apply label_rune_host in Hb as (_ & _ & Hb). apply Hb. intros ->.
    by rewrite (proj2 (HasPrefix_spec _ _)) in Ep by (by exists t).
  - intros b t ->. apply Forall_app in Hr as [_ Hb]. apply Forall_cons in Hb as [Hb _]. apply label_rune_host in Hb as (_ & _ & Hb). apply Hb. intros ->.
    by rewrite (proj2 (HasSuffix_spec _ _)) in Es by (by exists t).
  - eapply Forall_impl; [exact Hr|]. intros b Hb. apply (label_rune_host b Hb).
Qed.

Lemma first_error_none {A E} (f : A -> option E) l : first_error f l = None -> Forall (fun x => f x = None) l.
Proof. induction l as [|x l IH]; cbn; [constructor|]. destruct (f x) eqn:E1; [done|]. intros. constructor; auto. Qed.

(** Labels joined by dots are a hostname for the policy. *)
Lemma labels_valid ls : ls <> [] -> Forall label_ok ls -> validHostnameSuffix (Strings_Join ls [46]) = true.
Proof.
  intros Hne Hls.
  assert (Hc : Forall (fun b => host_char b = true) (Strings_Join ls [46])).
  { apply Forall_Join; [|by repeat constructor]. eapply Forall_impl; [exact Hls|]. by intros l [? ? ? ?]. }
  assert (Hl : exists t b, Strings_Join ls [46] = t ++ [b] /\ host_alnum b = true).
  { destruct ls as [|l ls _] using rev_ind; [done|]. apply Forall_app in Hls as [_ Hl]. apply Forall_cons in Hl as [[Hn _ Hlast _] _].
    destruct l as [|b t _] using rev_ind; [done|]. specialize (Hlast b t eq_refl).
    destruct (decide (ls = [])) as [->|]; [by exists t, b|]. rewrite Strings_Join_snoc, !app_assoc by done. by eexists _, b. }
  assert (Hh : exists b t, Strings_Join ls [46] = b :: t /\ host_alnum b = true).
  { destruct Hls as [|l ls [Hn Hhead _ _] _]; [done|]. destruct l as [|b t]; [done|]. specialize (Hhead b t eq_refl).
    destruct ls; [by exists b, t|]. rewrite Join_cons by done. by eexists b, _. }
  destruct Hh as (b & t & Eh & Hb). destruct Hl as (t' & b' & El & Hb'). unfold validHostnameSuffix. rewrite Eh at 1. rewrite Hb.
  rewrite El, List.last_last, Hb'. cbn [andb]. rewrite <- El. apply forallb_forall. intros x Hx. rewrite Forall_forall in Hc. by apply Hc, list_elem_of_In.
Qed.

Section ValidateSound.
Context `{UnicodeCase}.

Lemma domain_valid s : validateDomainLabel s = None -> s <> [] /\ validHostnameSuffix (ToLower s) = true.
Proof.
  unfold validateDomainLabel. case_decide; [done|]. intros Hf%first_error_none. split; [done|].
  rewrite <- (Join_Split (ToLower s) 46). apply labels_valid; [apply split_aux_ne|]. eapply Forall_impl; [exact Hf|]. apply checkLabel_ok.
Qed.

Lemma valid_parts s : validHostnameSuffix s = true -> s <> [] /\ TrimSuffix s (str ".") = s /\ HasPrefix s (str "*.") = false /\
  Contains s (str "*") = false.
Proof.
  unfold validHostnameSuffix. destruct s as [|b s]; [done|]. intros [[Hb Hl]%andb_prop Hc]%andb_prop. split_and!; [done| | |].
  - unfold TrimSuffix. destruct (HasSuffix _ _) eqn:E; [|done]. apply HasSuffix_spec in E as [t E]. change (str ".") with [46] in E. rewrite E, List.last_last in Hl. discriminate Hl.
  - destruct (HasPrefix _ _) eqn:E; [|done]. apply HasPrefix_spec in E as [t [= -> _]]. discriminate Hb.
  - destruct (Contains _ _) eqn:E; [|done]. apply Contains_byte in E. rewrite forallb_forall in Hc. apply list_elem_of_In, Hc in E. discriminate E.
Qed.

(** What the policy makes of an entry that was accepted. *)
Definition entry_accepted (raw : bytes) (k : entryKind) : Prop :=
  match k with
  | kindIP => exists ip, parseIPEntry raw = Ok (IPLit4 ip)
  | kindCIDR => exists n, parseIPEntry raw = Ok (IPNet4 n)
  | kindDomain => len (ToLower raw) <= MaxAllowedHostnameBytes -> parseHostEntry raw = Ok (HostExact (ToLower raw))
  | kindWildcardDomain => exists suf, raw = str "*." ++ suf /\
      (len (ToLower suf) <= MaxAllowedHostnameBytes -> parseHostEntry raw = Ok (HostWild (ToLower suf)))
  | _ => False
  end.

Lemma validateEntry_ok raw k : raw <> [] -> TrimSpace raw = raw -> validateEntry raw = (k, None) -> entry_accepted raw k.
Proof.
  intros Hne Ht. unfold validateEntry, entry_accepted. destruct (HasPrefix raw (str "!")); [done|].
  destruct (Contains raw (str "/")) eqn:Ec.
  { destruct (ParseCIDR raw) as [[ip n]|] eqn:Ep; [|done]. destruct (To4 ip) eqn:E4; [|done]. intros [= <-]. exists n.
    unfold parseIPEntry. rewrite Ht, decide_False, Ec, Ep, E4 by done. done. }
  destruct (ParseIP raw) as [ip|] eqn:Ep.
  { destruct (To4 ip) as [ip4|] eqn:E4; [|done]. intros [= <-]. unfold parseIPEntry. rewrite Ht, decide_False, Ec, Ep, E4 by done. eauto. }
  destruct (HasPrefix raw (str "*.")) eqn:Ew.
  - apply HasPrefix_spec in Ew as [suf ->]. assert (TrimPrefix (str "*." ++ suf) (str "*.") = suf) as -> by reflexivity.
    case_decide; [done|]. destruct (Contains suf (str "*")); [done|]. destruct (validateDomainLabel suf) eqn:Ev; [done|]. intros [= <-].
    exists suf. split; [done|]. intros Hlen. apply domain_valid in Ev as [_ Hv]. destruct (valid_parts _ Hv) as (Hn & _ & _ & Hs).
    unfold parseHostEntry, normalize. rewrite Ht. change (str "*." ++ suf) with (42 :: 46 :: suf). rewrite !ToLower_cons by lia.
    change (lower_byte 42 :: lower_byte 46 :: ToLower suf) with (str "*." ++ ToLower suf). rewrite decide_False by done.
    rewrite (proj2 (HasPrefix_spec _ _)) by (by eexists). assert (TrimPrefix (str "*." ++ ToLower suf) (str "*.") = ToLower suf) as -> by reflexivity.
    rewrite decide_False by done. rewrite Hs, Hv, (proj2 (Z.ltb_ge _ _)) by done. done.
  - destruct (validateDomainLabel raw) eqn:Ev; [done|]. intros [= <-] Hlen. apply domain_valid in Ev as [_ Hv].
    destruct (valid_parts _ Hv) as (Hn & Hd & Hp & _). unfold parseHostEntry, normalize. rewrite Ht, decide_False, Hp by done.
    rewrite (proj2 (Z.ltb_ge _ _)), Hd, Hv by done. done.
Qed.

Definition is_error (k : entryKind) : bool := match k with kindNegation | kindError => true | _ => false end.

Lemma validateEntry_error raw k e : validateEntry raw = (k, e) -> (e = None <-> is_error k = false).
Proof. unfold validateEntry. repeat case_match; intros [= <- <-]; done. Qed.

Record result_ok (r : validateResult) : Prop := {
  rs_entry : validateEntry (vr_Raw r) = (vr_Kind r, vr_Error r);
  rs_ne : vr_Raw r <> [];
  rs_trim : TrimSpace (vr_Raw r) = vr_Raw r;
}.

Lemma results_ok n lines : Forall result_ok (resultsFrom n lines).
Proof.
  revert n. induction lines as [|l lines IH]; intros n; [constructor|]. cbn [resultsFrom]. apply Forall_app. split; [|apply IH].
  unfold lineResult. case_decide as Hne; [constructor|]. destruct (validateEntry _) as [k e] eqn:E.
  apply Forall_singleton. split; cbn; [done|done|apply Trim_idem].
Qed.

Definition counted (c : validateCounts) : Z := vc_ips c + vc_cidrs c + vc_domains c + vc_wildcards c + vc_errors c.

Lemma count_results rs c : Forall result_ok rs -> 0 <= vc_errors c ->
  counted (foldl countResult c rs) = counted c + len rs /\ vc_errors c <= vc_errors (foldl countResult c rs) /\
  (vc_errors (foldl countResult c rs) = vc_errors c <-> Forall (fun r => vr_Error r = None) rs).
Proof.
  intros Hrs. revert c. induction Hrs as [|r rs [Hr _ _] Hrs IH]; intros c Hc; cbn [foldl]; [rewrite len_nil; split_and!; [lia..|done]|].
  apply validateEntry_error in Hr. rewrite Forall_cons, Hr, len_cons.
  assert (counted (countResult c r) = counted c + 1 /\ vc_errors (countResult c r) = vc_errors c + (if is_error (vr_Kind r) then 1 else 0)) as [E1 E2].
  { destruct c, r as [? ? k ?]; destruct k; unfold counted; cbn; split; lia. }
  destruct (IH (countResult c r)) as (H1 & H2 & H3); [case_match; lia|]. split_and!; [lia|case_match; lia|].
  destruct (is_error (vr_Kind r)); [split; [lia|by intros [? _]]|]. rewrite <- H3. split; [intros; split; [done|lia]|intros [_ ?]; lia].
Qed.

(** The validate command.  Its exit code is 2 without a list to read, 1 when
    the file cannot be opened, and otherwise 0 exactly when no line has an
    error; every line is counted once; and a line that is accepted is, unless
    its hostname is too long, what the policy parser takes it for: the same
    address, network, hostname or wildcard. *)
Theorem validate_agrees_with_policy args stdin open : exists code counts, runValidate args stdin open = (code, counts) /\
  forall input, (args = [] /\ input = stdin) \/ (exists name, args = [name] /\ open name = Some input) ->
    (code = 0 <-> Forall (fun r => vr_Error r = None) (parseAllowlistLines input)) /\ (code = 0 \/ code = 1) /\
    (exists c, counts = Some c /\ counted c = len (parseAllowlistLines input)) /\
    Forall (fun r => vr_Error r = None -> entry_accepted (vr_Raw r) (vr_Kind r)) (parseAllowlistLines input).
Proof.
  destruct (runValidate args stdin open) as [code counts] eqn:E. exists code, counts. split; [done|]. intros input Hin.
  pose proof (results_ok 1 (ScanLines input)) as Hok. change (resultsFrom 1 (ScanLines input)) with (parseAllowlistLines input) in Hok.
  destruct (count_results _ (mkCounts 0 0 0 0 0 0) Hok) as (H1 & H2 & H3); [done|]. set (c := foldl _ _ _) in *.
  assert ((code, counts) = (if 0 <? vc_errors c then 1 else 0, Some c)) as [= -> ->].
  { rewrite <- E. destruct Hin as [[-> ->]|(name & -> & Eo)]; cbn; [done|by rewrite Eo]. }
  cbn in H2, H3. split_and!.
  - rewrite <- H3. destruct (Z.ltb_spec 0 (vc_errors c)); split; lia.
  - case_match; auto.
  - exists c. split; [done|]. rewrite H1. done.
  - eapply Forall_impl; [exact Hok|]. intros r [Hr Hn Ht] He. rewrite He in Hr. by apply validateEntry_ok.
Qed.
End ValidateSound.

(** The scanner stops at a line of 64 KiB: nothing of the input is checked. *)
Lemma long_line_hides_rest `{UnicodeCase} line rest : 10 ∉ line -> MaxScanTokenSize <= len line -> parseAllowlistLines (line ++ 10 :: rest) = [].
Proof.
  intros Hn Hl. unfold parseAllowlistLines, ScanLines. rewrite Split_app. unfold Split at 1. rewrite split_aux_plain by done.
  cbn [app scan_tokens]. rewrite (proj2 (Z.ltb_ge _ _)) by done. by destruct line.
Qed.

(** * Examples *)

Module Witness.
#[local] Existing Instance ascii_case.

Definition disk : filesystem := list_to_map
  [([str "ws"], NDir); ([str "ws"; str "allow.txt"], NFile (str "example.com, 10.1.0.0/16 # internal
!10.0.0.0/8")); ([str "ws"; str "out"], NLink (str "/etc/passwd")); ([str "etc"], NDir); ([str "etc"; str "passwd"], NFile (str "root"))].
Definition now (t : nat) : filesystem := disk.
Definition getenv (k : bytes) : bytes := [].
Definition inputs (mode files : bytes) : startInputs := mkStartInputs mode (str "a.example 1.2.3.4") files false [] [] [].
Definition plan : startPlan := mkPlan (str "defend")
  (mkClassified [str "a.example"; str "example.com"] [str "a.example"; str "example.com"] [str "1.2.3.4"; str "10.1.0.0/16"] [str "10.0.0.0/8"])
  (str "standard").

Example plan_ex : planStart now [] (Some (str "/")) 0 getenv (str "/ws") (inputs (str "Defend") (str "allow.txt")) = Ok plan.
Proof. vm_compute. reflexivity. Qed.
Example plan_outside : planStart now [] (Some (str "/")) 0 getenv (str "/ws") (inputs (str "detect") (str "out")) = Err (ErrOutsideWorkspace (str "out")).
Proof. vm_compute. reflexivity. Qed.

(** A file that is replaced by a link out of the workspace after it was
    resolved is detected. *)
Definition swapped (t : nat) : filesystem := if (t <? 2)%nat then disk else <[[str "ws"; str "allow.txt"] := NLink (str "/etc/passwd")]> disk.
Example swap_detected : mergeInlineAndAllowlistFiles swapped [] None 0 (str "/ws") [] (str "allow.txt") = Err (ErrPathChanged (str "allow.txt")).
Proof. vm_compute. reflexivity. Qed.

(** An address with a bad octet is a hostname for [validate] and an error for
    [start]. *)
Example bad_octet_validates : validateEntry (str "10.0.0.256") = (kindDomain, None) /\
  validateAllowPolicy (classifyAllowTokens [str "10.0.0.256"]) false = Some (ErrAllowedIP (str "10.0.0.256")).
Proof. split; vm_compute; reflexivity. Qed.

(** IPv6 entries and ignored networks are errors for [validate] and accepted by
    [start]. *)
Example start_accepts_more : is_error (validateEntry (str "2001:db8::1")).1 = true /\ is_error (validateEntry (str "!10.0.0.0/8")).1 = true /\
  validateAllowPolicy (classifyAllowTokens [str "2001:db8::1"; str "!10.0.0.0/8"]) false = None.
Proof. split_and!; vm_compute; reflexivity. Qed.

Lemma allow_files_contained_witness : exists merged reads,
  mergeInlineAndAllowlistFiles now [] (Some (str "/")) 0 (str "/ws") (str "a.example 1.2.3.4") (str "allow.txt") = Ok merged /\
  Forall (fun r => disk !! r.1 = Some (NFile r.2)) (reads : list (list bytes * bytes)) /\ len reads = 1.
Proof.
  destruct (mergeInlineAndAllowlistFiles now [] (Some (str "/")) 0 (str "/ws") (str "a.example 1.2.3.4") (str "allow.txt")) as [merged|e] eqn:E;
    [|exfalso; revert E; vm_compute; discriminate].
  exists merged.
  destruct (allow_files_contained now [] (Some (str "/")) 0 (str "/ws") (str "a.example 1.2.3.4") (str "allow.txt") merged)
    as [[Hn _]|(ws & reads & _ & _ & HF & _ & Hf)]; [by intros wd [= <-]|done|exact E| |].
  { exfalso. revert Hn. vm_compute. discriminate. }
  exists reads. split; [reflexivity|]. split; [by apply Hf|]. apply Forall2_length in HF. unfold len. rewrite <- HF. reflexivity.
Defined.

Lemma started_agent_loads_witness : exists c, LoadFromEnv (child getenv (str "/ws") [] (inputs (str "Defend") (str "allow.txt")) plan) (fun _ => None) None = Ok c /\
  cf_Mode c = ModeDefend /\ AllowedIPs c = str "1.2.3.4,10.1.0.0/16".
Proof.
  pose proof (started_agent_loads now [] (Some (str "/")) 0 getenv (str "/ws") [] (inputs (str "Defend") (str "allow.txt")) plan (fun _ => None) None plan_ex) as Hl.
  destruct (LoadFromEnv _ _ _) as [c|e] eqn:E; [|exfalso; revert E; vm_compute; discriminate].
  exists c. destruct Hl as (Hm & _ & _ & Hi & _). split; [reflexivity|]. split; [|exact Hi]. destruct (cf_Mode c); [discriminate Hm|reflexivity].
Defined.
End Witness.
