(* ===== verification/Loader.v ===== *)
(** internal/bpf/defend/loader.go: loading the defend collection for the running
    kernel.

    A collection specification and a collection are the names of their programs
    and maps.  The specification comes from generated code ([LoadDefend]) and
    the collection from the kernel ([NewCollectionWithOptions]); both are fields
    of [kernel], with the number of the call as an argument, so that a second
    call may answer differently.  [DefendObjects] maps the Go name of each field
    that is not nil to the program or map it points to, so that a wrong
    destination can be written down; the generated code tags each field with the
    name it stands for ([field_tag]).  What must be there is taken from the C
    sources that are compiled into the collection, not from the loader. *)
From S2P Require Import Prelude GoStrings.

Open Scope Z_scope.

Record collection := mkColl { c_progs : gset bytes; c_maps : gset bytes }.

(** An error of [NewCollectionWithOptions]: its text, and whether it wraps
    [btf.ErrNotFound] or is a verifier error. *)
Record coll_err := mkCollErr { ce_text : bytes; ce_notFound : bool; ce_verifier : bool }.

Inductive load_err :=
  | ErrSpec (text : bytes)
  | ErrCollection (e : coll_err)
  | ErrMissingProgram (name : bytes)
  | ErrMissingMap (name : bytes).

Record kernel := mkKernelEnv {
  LoadDefend : nat -> result bytes collection;
  NewCollection : nat -> collection -> result coll_err collection;
  kernelBTF : option (gset bytes) }.

Record LoadResult := mkLoadResult { LSMFellBack : bool; LSMFallbackErr : option coll_err }.

(** * Specifications *)

Definition delete_prog (name : bytes) (sp : collection) : collection := mkColl (c_progs sp ∖ {[name]}) (c_maps sp).
Definition delete_map (name : bytes) (sp : collection) : collection := mkColl (c_progs sp) (c_maps sp ∖ {[name]}).

Definition stripAllLSM (sp : collection) : collection :=
  let sp := foldl (fun sp n => delete_prog n sp) sp
    [str "lsm_socket_connect"; str "lsm_socket_sendmsg"; str "lsm_socket_sendpage"; str "lsm_io_uring_cmd"] in
  let sp := foldl (fun sp n => delete_map n sp) sp
    [str "lsm_deny_events"; str "lsm_deny_reserve_failures"; str "lsm_defend_cfg"; str "lsm_allowed_ipv4";
     str "lsm_ignored_ipv4_lpm"; str "sendpage_observed"] in
  let sp := delete_prog (str "coldstep_bpf_self_defense") sp in
  foldl (fun sp n => delete_map n sp) sp
    [str "self_prog_ids"; str "self_map_ids"; str "self_link_ids"; str "self_pin_prefix"; str "self_defense_cfg";
     str "bpf_self_defense_events"; str "bpf_self_defense_reserve_failures"; str "self_defense_seen"].

Definition deleteSendpage (sp : collection) : collection :=
  delete_map (str "sendpage_observed") (delete_prog (str "lsm_socket_sendpage") sp).

Definition kernelHasLSMHook (k : kernel) (name : bytes) : bool :=
  match kernelBTF k with
  | None => false
  | Some funcs => bool_decide (str "bpf_lsm_" ++ name ∈ funcs)
  end.

Definition HaveIOUringLSM (k : kernel) : bool := kernelHasLSMHook k (str "io_uring_cmd").

Definition isSendpageLoadFailure (e : coll_err) : bool :=
  if negb (Contains (ce_text e) (str "lsm_socket_sendpage")) && negb (Contains (ce_text e) (str "socket_sendpage")) then false
  else ce_notFound e || ce_verifier e.

(** * Moving programs and maps out of the collection *)

(** The collection, and the fields of the object with what they point to. *)
Record lstate := mkLState { l_coll : collection; o_progs : gmap bytes bytes; o_maps : gmap bytes bytes }.

(** The name that the generated code declares a field for: it capitalises the
    parts of the name, DefendConnect4 for defend_connect4. *)
Definition field_tag (field : bytes) : bytes :=
  drop 1 (concat (map (fun c => if (65 <=? c) && (c <=? 90) then [95; c + 32] else [c]) field)).

(** The fields that are not nil, by their tags. *)
Definition obj_progs (st : lstate) : gset bytes := set_map field_tag (dom (o_progs st) : gset bytes).
Definition obj_maps (st : lstate) : gset bytes := set_map field_tag (dom (o_maps st) : gset bytes).

Definition ld (A : Type) : Type := lstate -> lstate * result load_err A.

#[global] Instance ld_ret : MRet ld := fun A a st => (st, Ok a).
#[global] Instance ld_bind : MBind ld := fun A B f m st =>
  let '(st', r) := m st in match r with Ok a => f a st' | Err e => (st', Err e) end.

Definition detachProgram (name dst : bytes) : ld unit := fun st =>
  let '(mkLState coll ps ms) := st in
  if decide (name ∈ c_progs coll) then (mkLState (delete_prog name coll) (<[dst := name]> ps) ms, Ok tt)
  else (st, Err (ErrMissingProgram name)).

Definition detachMap (name dst : bytes) : ld unit := fun st =>
  let '(mkLState coll ps ms) := st in
  if decide (name ∈ c_maps coll) then (mkLState (delete_map name coll) ps (<[dst := name]> ms), Ok tt)
  else (st, Err (ErrMissingMap name)).

Definition detachProgramIfPresent (name dst : bytes) : ld unit := fun st =>
  let '(mkLState coll ps ms) := st in
  if decide (name ∈ c_progs coll) then (mkLState (delete_prog name coll) (<[dst := name]> ps) ms, Ok tt) else (st, Ok tt).

Definition detachMapIfPresent (name dst : bytes) : ld unit := fun st =>
  let '(mkLState coll ps ms) := st in
  if decide (name ∈ c_maps coll) then (mkLState (delete_map name coll) ps (<[dst := name]> ms), Ok tt) else (st, Ok tt).

(** A loop over names and destinations that returns at the first error. *)
Fixpoint each (f : bytes -> bytes -> ld unit) (l : list (bytes * bytes)) : ld unit :=
  match l with
  | [] => mret tt
  | (name, dst) :: l' => _ ← f name dst; each f l'
  end.

Definition cgPrograms : list (bytes * bytes) :=
  [(str "defend_connect4", str "DefendConnect4"); (str "defend_sendmsg4", str "DefendSendmsg4")].
Definition cgIPv6Programs : list (bytes * bytes) :=
  [(str "defend_cgroup_connect6", str "DefendCgroupConnect6"); (str "defend_cgroup_sendmsg6", str "DefendCgroupSendmsg6")].
Definition cgAndSharedMaps : list (bytes * bytes) :=
  [(str "deny_events", str "DenyEvents"); (str "deny_reserve_failures", str "DenyReserveFailures"); (str "defend_cfg", str "DefendCfg");
   (str "allowed_ipv4", str "AllowedIpv4"); (str "ignored_ipv4_lpm", str "IgnoredIpv4Lpm");
   (str "allowed_domains", str "AllowedDomains"); (str "dns_cache", str "DnsCache")].
Definition cgIPv6Maps : list (bytes * bytes) :=
  [(str "ipv6_connect_observed", str "Ipv6ConnectObserved"); (str "ipv6_sendmsg_observed", str "Ipv6SendmsgObserved")].
Definition lsmPrograms : list (bytes * bytes) :=
  [(str "lsm_socket_connect", str "LsmSocketConnect"); (str "lsm_socket_sendmsg", str "LsmSocketSendmsg")].
Definition lsmMaps : list (bytes * bytes) :=
  [(str "lsm_deny_events", str "LsmDenyEvents"); (str "lsm_deny_reserve_failures", str "LsmDenyReserveFailures");
   (str "lsm_defend_cfg", str "LsmDefendCfg"); (str "lsm_allowed_ipv4", str "LsmAllowedIpv4");
   (str "lsm_ignored_ipv4_lpm", str "LsmIgnoredIpv4Lpm")].

(** The LSM section of the object. *)
Definition detachLSM (wantIOUringLSM : bool) : ld unit :=
  _ ← each detachProgram lsmPrograms;
  _ ← (if wantIOUringLSM then detachProgram (str "lsm_io_uring_cmd") (str "LsmIoUringCmd") else mret tt);
  _ ← each detachMap lsmMaps;
  _ ← detachProgramIfPresent (str "lsm_socket_sendpage") (str "LsmSocketSendpage");
  _ ← detachMapIfPresent (str "sendpage_observed") (str "SendpageObserved");
  _ ← detachProgramIfPresent (str "coldstep_bpf_self_defense") (str "ColdstepBpfSelfDefense");
  each detachMapIfPresent
    [(str "self_prog_ids", str "SelfProgIds"); (str "self_map_ids", str "SelfMapIds"); (str "self_link_ids", str "SelfLinkIds");
     (str "self_pin_prefix", str "SelfPinPrefix"); (str "self_defense_cfg", str "SelfDefenseCfg");
     (str "bpf_self_defense_events", str "BpfSelfDefenseEvents");
     (str "bpf_self_defense_reserve_failures", str "BpfSelfDefenseReserveFailures"); (str "self_defense_seen", str "SelfDefenseSeen")].

Definition detachAll (lsm wantIOUringLSM : bool) : ld unit :=
  _ ← each detachProgram cgPrograms;
  _ ← each detachProgram cgIPv6Programs;
  _ ← each detachMap cgAndSharedMaps;
  _ ← each detachMap cgIPv6Maps;
  _ ← detachMap (str "allowed_ipv6") (str "AllowedIpv6");
  _ ← detachProgramIfPresent (str "defend_skb_egress") (str "DefendSkbEgress");
  _ ← each detachMapIfPresent
        [(str "skb_backstop_events", str "SkbBackstopEvents"); (str "skb_backstop_reserve_failures", str "SkbBackstopReserveFailures");
         (str "skb_backstop_seen", str "SkbBackstopSeen")];
  if lsm then detachLSM wantIOUringLSM else mret tt.

(** * The loader *)

(** The specification of the first attempt. *)
Definition firstSpec (k : kernel) (wantLSM wantIOUringLSM : bool) (sp : collection) : collection :=
  if negb wantLSM then stripAllLSM sp
  else
    let sp := if kernelHasLSMHook k (str "socket_sendpage") then sp else deleteSendpage sp in
    if wantIOUringLSM then sp else delete_prog (str "lsm_io_uring_cmd") sp.

(** The collection that loaded, after at most one retry. *)
Definition loadCollection (k : kernel) (wantLSM wantIOUringLSM : bool) : result load_err (collection * LoadResult) :=
  match LoadDefend k 0 with
  | Err e => Err (ErrSpec e)
  | Ok sp =>
    match NewCollection k 0 (firstSpec k wantLSM wantIOUringLSM sp) with
    | Ok coll => Ok (coll, mkLoadResult false None)
    | Err e =>
      if negb wantLSM then Err (ErrCollection e)
      else match LoadDefend k 1 with
           | Err e2 => Err (ErrSpec e2)
           | Ok sp2 =>
             if isSendpageLoadFailure e then
               match NewCollection k 1 (deleteSendpage sp2) with
               | Ok coll => Ok (coll, mkLoadResult false None)
               | Err e => Err (ErrCollection e)
               end
             else
               match NewCollection k 1 (stripAllLSM sp2) with
               | Ok coll => Ok (coll, mkLoadResult true (Some e))
               | Err e => Err (ErrCollection e)
               end
           end
    end
  end.

(** The state left behind and the result.  On an error the deferred function
    closes what is still in the collection. *)
Definition LoadDefendObjectsForKernel (k : kernel) (wantLSM wantIOUringLSM : bool) : lstate * result load_err LoadResult :=
  match loadCollection k wantLSM wantIOUringLSM with
  | Err e => (mkLState (mkColl ∅ ∅) ∅ ∅, Err e)
  | Ok (coll, res) =>
    let '(st, r) := detachAll (wantLSM && negb (LSMFellBack res)) wantIOUringLSM (mkLState coll ∅ ∅) in
    match r with
    | Ok _ => (st, Ok res)
    | Err e => (mkLState (mkColl ∅ ∅) (o_progs st) (o_maps st), Err e)
    end
  end.

(** * What the C sources declare (src/bpf, included by trace_defend_all.bpf.c) *)

(** trace_defend_cgroup.inc and dns_cache.h: enforcement, IPv6 included. *)
Definition cgroupHooks4 : list bytes := [str "defend_connect4"; str "defend_sendmsg4"].
Definition cgroupHooks6 : list bytes := [str "defend_cgroup_connect6"; str "defend_cgroup_sendmsg6"].
Definition cgroupMaps : list bytes :=
  [str "deny_events"; str "deny_reserve_failures"; str "defend_cfg"; str "allowed_ipv4"; str "ignored_ipv4_lpm"; str "allowed_ipv6";
   str "ipv6_connect_observed"; str "ipv6_sendmsg_observed"].
Definition sharedMaps : list bytes := [str "dns_cache"; str "allowed_domains"].

(** trace_defend_skb.inc: the backstop, which only observes. *)
Definition skbHook : bytes := str "defend_skb_egress".
Definition skbMaps : list bytes := [str "skb_backstop_events"; str "skb_backstop_reserve_failures"; str "skb_backstop_seen"].

(** trace_lsm_defend_lsm.inc and trace_lsm_defend_iouring.inc. *)
Definition lsmConnectHook : bytes := str "lsm_socket_connect".
Definition lsmSendmsgHook : bytes := str "lsm_socket_sendmsg".
Definition lsmSendpageHook : bytes := str "lsm_socket_sendpage".
Definition lsmSectionMaps : list bytes :=
  [str "lsm_deny_events"; str "lsm_deny_reserve_failures"; str "lsm_defend_cfg"; str "lsm_allowed_ipv4"; str "lsm_ignored_ipv4_lpm"].
Definition sendpageMap : bytes := str "sendpage_observed".
Definition ioUringHook : bytes := str "lsm_io_uring_cmd".

(** trace_lsm_bpf_self_defense.inc. *)
Definition selfDefenseHook : bytes := str "coldstep_bpf_self_defense".
Definition selfDefenseMaps : list bytes :=
  [str "self_prog_ids"; str "self_map_ids"; str "self_link_ids"; str "self_pin_prefix"; str "self_defense_cfg";
   str "bpf_self_defense_events"; str "bpf_self_defense_reserve_failures"; str "self_defense_seen"].

(** What defend mode needs of them, and what it can do without: the LSM
    section where the kernel has it, the hooks of some kernels and the parts
    that only observe or guard the agent. *)
Definition requiredPrograms (lsm wantIOUringLSM : bool) : gset bytes :=
  list_to_set (cgroupHooks4 ++ cgroupHooks6 ++
    if lsm then [lsmConnectHook; lsmSendmsgHook] ++ (if wantIOUringLSM then [ioUringHook] else []) else []).
Definition requiredMaps (lsm : bool) : gset bytes :=
  list_to_set (cgroupMaps ++ sharedMaps ++ if lsm then lsmSectionMaps else []).
Definition optionalPrograms (lsm : bool) : gset bytes :=
  list_to_set (skbHook :: if lsm then [lsmSendpageHook; selfDefenseHook] else []).
Definition optionalMaps (lsm : bool) : gset bytes :=
  list_to_set (skbMaps ++ if lsm then sendpageMap :: selfDefenseMaps else []).

(** * Properties *)

(** What is in the collection and what is in the object, without overlap, and
    each field points to what it is declared for. *)
Record split_ok (st : lstate) : Prop := {
  so_progs : c_progs (l_coll st) ## obj_progs st;
  so_maps : c_maps (l_coll st) ## obj_maps st;
  so_placed : (forall f p, o_progs st !! f = Some p -> field_tag f = p) /\ (forall f m, o_maps st !! f = Some m -> field_tag f = m) }.

(** Nothing is lost on the way from [st] to [st']. *)
Record moves (mayp maym : gset bytes) (st st' : lstate) : Prop := {
  mv_split : split_ok st';
  mv_progs : c_progs (l_coll st') ∪ obj_progs st' = c_progs (l_coll st) ∪ obj_progs st;
  mv_maps : c_maps (l_coll st') ∪ obj_maps st' = c_maps (l_coll st) ∪ obj_maps st;
  mv_growp : obj_progs st ⊆ obj_progs st' ⊆ obj_progs st ∪ mayp;
  mv_growm : obj_maps st ⊆ obj_maps st' ⊆ obj_maps st ∪ maym }.

(** A name that was in the collection and may not have been moved still is. *)
Lemma still_there (c o c1 o1 may need : gset bytes) : c ## o -> c1 ∪ o1 = c ∪ o -> o1 ⊆ o ∪ may -> may ## need -> need ⊆ c -> need ⊆ c1.
Proof.
  intros Hd Hu Hg Hm Hn x Hx. assert (x ∈ c1 ∪ o1) as [|Ho]%elem_of_union by (rewrite Hu; apply elem_of_union_l; auto); [done|].
  apply Hg, elem_of_union in Ho as [Ho|Ho]; [by destruct (Hd x); auto|by destruct (Hm x)].
Qed.

Lemma grow_trans (a b c p q : gset bytes) : a ⊆ b ⊆ a ∪ p -> b ⊆ c ⊆ b ∪ q -> a ⊆ c ⊆ a ∪ (p ∪ q).
Proof. intros [? ?] [? ?]. split; set_solver. Qed.

Lemma grow_weaken (a b p q : gset bytes) : a ⊆ b ⊆ a ∪ p -> p ⊆ q -> a ⊆ b ⊆ a ∪ q.
Proof. intros [? ?] ?. split; set_solver. Qed.

(** A sequence of moves: it moves only names of [mayp] and [maym]; when it
    succeeds the names [needp] and [needm] are in the object, and it succeeds
    when the collection has them. *)
Definition moving (needp needm mayp maym : gset bytes) (m : ld unit) : Prop := forall st, split_ok st ->
  moves mayp maym st (m st).1 /\
  (is_ok (m st).2 = true -> needp ⊆ obj_progs (m st).1 /\ needm ⊆ obj_maps (m st).1) /\
  (needp ⊆ c_progs (l_coll st) -> needm ⊆ c_maps (l_coll st) -> is_ok (m st).2 = true).

Lemma moves_refl mayp maym st : split_ok st -> moves mayp maym st st.
Proof. intros H. split; [done|done|done|set_solver|set_solver]. Qed.

Lemma moving_ret : moving ∅ ∅ ∅ ∅ (mret tt).
Proof. intros st H. cbn. split_and!; [by apply moves_refl|set_solver|done]. Qed.

Lemma moving_weaken p1 m1 p2 m2 q1 n1 q2 n2 m : moving p1 m1 p2 m2 m -> p1 = q1 -> m1 = n1 -> p2 ⊆ q2 -> m2 ⊆ n2 -> moving q1 n1 q2 n2 m.
Proof.
  intros H <- <- H1 H2 st Hst. destruct (H st Hst) as ([] & ? & ?). split_and!; [|done|done]. split; try done; by eapply grow_weaken.
Qed.

Lemma moving_bind p1 m1 p2 m2 q1 n1 q2 n2 m f : moving p1 m1 p2 m2 m -> moving q1 n1 q2 n2 (f tt) ->
  p2 ## q1 -> m2 ## n1 -> moving (p1 ∪ q1) (m1 ∪ n1) (p2 ∪ q2) (m2 ∪ n2) (mbind f m).
Proof.
  intros Hm Hf D1 D2 st Hst. unfold mbind, ld_bind. destruct (Hm st Hst) as ([Hs Hp Hq Hgp Hgm] & Hok & Hlive).
  destruct Hst as [Hd1 Hd2 _].
  destruct (m st) as [st1 [[]|e]]; cbn [fst snd is_ok] in *.
  - destruct (Hf st1 Hs) as ([Hs' Hp' Hq' Hgp' Hgm'] & Hok' & Hlive'). destruct Hok as [Ha Hb]; [done|]. split_and!.
    + split; [done|congruence|congruence|by eapply grow_trans..].
    + intros Ho. destruct (Hok' Ho), Hgp', Hgm'. split; (apply union_subseteq; split; [by etrans|done]).
    + intros [_ Hc1]%union_subseteq [_ Hc2]%union_subseteq. destruct Hgp as [_ Hgp], Hgm as [_ Hgm]. apply Hlive'.
      * exact (still_there _ _ _ _ _ _ Hd1 Hp Hgp D1 Hc1).
      * exact (still_there _ _ _ _ _ _ Hd2 Hq Hgm D2 Hc2).
  - split_and!; [split; [done|done|done|by eapply grow_weaken, union_subseteq_l..]|done|]. intros H1 H2. apply union_subseteq in H1 as [? _], H2 as [? _]. auto.
Qed.

Lemma tags_insert (o : gmap bytes bytes) dst n : field_tag dst = n ->
  set_map (D := gset bytes) field_tag (dom (D := gset bytes) (<[dst := n]> o)) = {[n]} ∪ set_map field_tag (dom (D := gset bytes) o).
Proof. intros <-. rewrite dom_insert_L. set_solver. Qed.

Lemma placed_insert (o : gmap bytes bytes) dst n : field_tag dst = n -> (forall f p, o !! f = Some p -> field_tag f = p) ->
  forall f p, <[dst := n]> o !! f = Some p -> field_tag f = p.
Proof. intros Ht Ho f p. rewrite lookup_insert. case_decide as E; [intros [= <-]; congruence|apply Ho]. Qed.

(** A program or map that the collection has moves to the field declared for it. *)
Lemma moved_program (st : lstate) n dst : field_tag dst = n -> n ∈ c_progs (l_coll st) -> split_ok st ->
  moves {[n]} ∅ st (mkLState (delete_prog n (l_coll st)) (<[dst := n]> (o_progs st)) (o_maps st)).
Proof.
  destruct st as [[cp cm] ps ms]. intros Ht Hn [H1 H2 [H3 H4]]. unfold obj_progs, obj_maps in *. cbn in *.
  split; unfold obj_progs, obj_maps; cbn; rewrite ?(tags_insert _ _ _ Ht).
  - split; unfold obj_progs, obj_maps; cbn; rewrite ?(tags_insert _ _ _ Ht); [set_solver|done|]. split; [by apply placed_insert|done].
  - apply set_eq. intros x. destruct (decide (x = n)); set_solver.
  - done.
  - set_solver.
  - set_solver.
Qed.

Lemma moved_map (st : lstate) n dst : field_tag dst = n -> n ∈ c_maps (l_coll st) -> split_ok st ->
  moves ∅ {[n]} st (mkLState (delete_map n (l_coll st)) (o_progs st) (<[dst := n]> (o_maps st))).
Proof.
  destruct st as [[cp cm] ps ms]. intros Ht Hn [H1 H2 [H3 H4]]. unfold obj_progs, obj_maps in *. cbn in *.
  split; unfold obj_progs, obj_maps; cbn; rewrite ?(tags_insert _ _ _ Ht).
  - split; unfold obj_progs, obj_maps; cbn; rewrite ?(tags_insert _ _ _ Ht); [done|set_solver|]. split; [done|by apply placed_insert].
  - done.
  - apply set_eq. intros x. destruct (decide (x = n)); set_solver.
  - set_solver.
  - set_solver.
Qed.

Lemma tags_have (o : gmap bytes bytes) dst n : field_tag dst = n ->
  {[n]} ⊆ set_map (D := gset bytes) field_tag (dom (D := gset bytes) (<[dst := n]> o)).
Proof. intros Ht. rewrite (tags_insert _ _ _ Ht). set_solver. Qed.

Lemma moving_detachProgram n dst : field_tag dst = n -> moving {[n]} ∅ {[n]} ∅ (detachProgram n dst).
Proof.
  intros Ht [coll ps ms] Hst. unfold detachProgram. case_decide as Hn; cbn [fst snd is_ok l_coll].
  - split_and!; [by apply (moved_program (mkLState coll ps ms))|intros _; split; [by apply tags_have|set_solver]|done].
  - split_and!; [by apply moves_refl|done|set_solver].
Qed.

Lemma moving_detachMap n dst : field_tag dst = n -> moving ∅ {[n]} ∅ {[n]} (detachMap n dst).
Proof.
  intros Ht [coll ps ms] Hst. unfold detachMap. case_decide as Hn; cbn [fst snd is_ok l_coll].
  - split_and!; [by apply (moved_map (mkLState coll ps ms))|intros _; split; [set_solver|by apply tags_have]|done].
  - split_and!; [by apply moves_refl|done|set_solver].
Qed.

Lemma moving_programIfPresent n dst : field_tag dst = n -> moving ∅ ∅ {[n]} ∅ (detachProgramIfPresent n dst).
Proof.
  intros Ht [coll ps ms] Hst. unfold detachProgramIfPresent. case_decide as Hn; cbn [fst snd is_ok l_coll].
  - split_and!; [by apply (moved_program (mkLState coll ps ms))|set_solver|done].
  - split_and!; [by apply moves_refl|set_solver|done].
Qed.

Lemma moving_mapIfPresent n dst : field_tag dst = n -> moving ∅ ∅ ∅ {[n]} (detachMapIfPresent n dst).
Proof.
  intros Ht [coll ps ms] Hst. unfold detachMapIfPresent. case_decide as Hn; cbn [fst snd is_ok l_coll].
  - split_and!; [by apply (moved_map (mkLState coll ps ms))|set_solver|done].
  - split_and!; [by apply moves_refl|set_solver|done].
Qed.

Lemma moving_each (f : bytes -> bytes -> ld unit) (np nm mp mm : bytes -> gset bytes) :
  (forall n dst, field_tag dst = n -> moving (np n) (nm n) (mp n) (mm n) (f n dst)) ->
  (forall n, mp n ⊆ {[n]} /\ mm n ⊆ {[n]} /\ np n ⊆ {[n]} /\ nm n ⊆ {[n]}) ->
  forall l, Forall (fun x => field_tag x.2 = x.1) l /\ NoDup l.*1 ->
  moving (⋃ (np <$> l.*1)) (⋃ (nm <$> l.*1)) (⋃ (mp <$> l.*1)) (⋃ (mm <$> l.*1)) (each f l).
Proof.
  intros Hf Hsub l [Ht Hnd]. induction Ht as [|[n dst] l Hn _ IH]; cbn [each fmap list_fmap union_list foldr fst] in *; [apply moving_ret|].
  apply NoDup_cons in Hnd as [Hnl Hnd]. apply moving_bind; [by apply Hf|by apply IH|..].
  - intros x Hx (Y & (m & -> & Hm)%list_elem_of_fmap & Hy)%elem_of_union_list. destruct (Hsub n) as (? & _), (Hsub m) as (_ & _ & ? & _). set_solver.
  - intros x Hx (Y & (m & -> & Hm)%list_elem_of_fmap & Hy)%elem_of_union_list. destruct (Hsub n) as (_ & ? & _), (Hsub m) as (_ & _ & _ & ?). set_solver.
Qed.

Ltac by_computation := apply (bool_decide_unpack _); vm_compute; exact I.

Ltac moving_step := lazymatch goal with
  | |- moving _ _ _ _ (mret _) => apply moving_ret
  | |- moving _ _ _ _ (detachProgram _ _) => apply moving_detachProgram; by_computation
  | |- moving _ _ _ _ (detachMap _ _) => apply moving_detachMap; by_computation
  | |- moving _ _ _ _ (detachProgramIfPresent _ _) => apply moving_programIfPresent; by_computation
  | |- moving _ _ _ _ (detachMapIfPresent _ _) => apply moving_mapIfPresent; by_computation
  | |- moving _ _ _ _ (each detachProgram _) =>
    apply (moving_each detachProgram singleton (fun _ => ∅) singleton (fun _ => ∅) moving_detachProgram); [set_solver|by_computation]
  | |- moving _ _ _ _ (each detachMap _) =>
    apply (moving_each detachMap (fun _ => ∅) singleton (fun _ => ∅) singleton moving_detachMap); [set_solver|by_computation]
  | |- moving _ _ _ _ (each detachMapIfPresent _) =>
    apply (moving_each detachMapIfPresent (fun _ => ∅) (fun _ => ∅) (fun _ => ∅) singleton moving_mapIfPresent); [set_solver|by_computation]
  | |- moving _ _ _ _ (mbind _ _) => eapply moving_bind; [moving_step|moving_step|by_computation..]
  end.

(** The state of a collection before anything is moved. *)
Lemma start_split coll : split_ok (mkLState coll ∅ ∅).
Proof. split; unfold obj_progs, obj_maps; cbn; [set_solver..|]. split; intros f p; by rewrite lookup_empty. Qed.

Lemma moving_all lsm io : moving (requiredPrograms lsm io) (requiredMaps lsm)
  (requiredPrograms lsm io ∪ optionalPrograms lsm) (requiredMaps lsm ∪ optionalMaps lsm) (detachAll lsm io).
Proof. destruct lsm, io; (eapply moving_weaken; [unfold detachAll, detachLSM; moving_step|by_computation..]). Qed.

(** A specification with every program and map of the sources. *)
Definition complete_spec (sp : collection) : Prop := requiredPrograms true true ⊆ c_progs sp /\ requiredMaps true ⊆ c_maps sp.

(** The kernel answers with the collection it was asked for. *)
Definition honest (k : kernel) : Prop := forall n sp coll, NewCollection k n sp = Ok coll -> coll = sp.

Lemma strip_keeps sp : complete_spec sp ->
  requiredPrograms false false ⊆ c_progs (stripAllLSM sp) /\ requiredMaps false ⊆ c_maps (stripAllLSM sp).
Proof.
  intros [Hp Hm]. cbn [stripAllLSM foldl delete_prog delete_map c_progs c_maps].
  split; repeat (apply subseteq_difference_r; [by_computation|]); (etrans; [|eassumption]); by_computation.
Qed.

Lemma required_mono io : requiredPrograms true io ⊆ requiredPrograms true true.
Proof. destruct io; by_computation. Qed.

Lemma sendpage_keeps io sp : complete_spec sp ->
  requiredPrograms true io ⊆ c_progs (deleteSendpage sp) /\ requiredMaps true ⊆ c_maps (deleteSendpage sp).
Proof.
  intros [Hp Hm]. cbn [deleteSendpage delete_prog delete_map c_progs c_maps].
  split; (apply subseteq_difference_r; [destruct io; by_computation|]); [by etrans; [apply required_mono|]|done].
Qed.

(** The collection that loads has what the object needs. *)
Lemma loaded_complete k wantLSM io coll res : honest k -> (forall n sp, LoadDefend k n = Ok sp -> complete_spec sp) ->
  loadCollection k wantLSM io = Ok (coll, res) ->
  requiredPrograms (wantLSM && negb (LSMFellBack res)) io ⊆ c_progs coll /\ requiredMaps (wantLSM && negb (LSMFellBack res)) ⊆ c_maps coll.
Proof.
  intros Hk Hs. unfold loadCollection.
  destruct (LoadDefend k 0) as [sp|] eqn:E0; [|done]. apply Hs in E0.
  assert (requiredPrograms false io = requiredPrograms false false) as Hio by done.
  destruct (NewCollection k 0 _) as [c|e] eqn:E1; [intros [= <- <-]; apply Hk in E1; subst c; cbn [LSMFellBack negb]|].
  - unfold firstSpec. destruct wantLSM; cbn [andb negb]; [|rewrite Hio; by apply strip_keeps].
    destruct E0 as [Hp Hm]. pose proof (sendpage_keeps io sp (conj Hp Hm)) as [Hp' Hm'].
    assert (forall sp, requiredPrograms true false ⊆ c_progs sp -> requiredPrograms true false ⊆ c_progs (delete_prog (str "lsm_io_uring_cmd") sp)) as Hd.
    { intros q Hq. apply subseteq_difference_r; [by_computation|done]. }
    destruct (kernelHasLSMHook _ _), io; cbn [c_maps delete_prog]; (split; [|assumption]); [assumption| |assumption|apply Hd; assumption].
    apply Hd. etrans; [apply required_mono|assumption].
  - destruct wantLSM; [|discriminate]. cbn [negb andb]. destruct (LoadDefend k 1) as [sp2|] eqn:E2; [|discriminate]. apply Hs in E2.
    destruct (isSendpageLoadFailure e).
    + destruct (NewCollection k 1 (deleteSendpage sp2)) as [c|] eqn:E3; [|discriminate]. intros [= <- <-]. rewrite (Hk _ _ _ E3).
      apply sendpage_keeps. assumption.
    + destruct (NewCollection k 1 (stripAllLSM sp2)) as [c|] eqn:E3; [|discriminate]. intros [= <- <-]. rewrite (Hk _ _ _ E3).
      cbn [LSMFellBack negb]. rewrite Hio. apply strip_keeps. assumption.
Qed.

(** C15: the loader fails closed and loses nothing.  A successful load has set
    a field for every program and map that the C sources declare for
    enforcement: the four cgroup hooks with their maps, and the LSM section
    exactly when it was asked for and loaded; and nothing beyond these and the
    optional ones.  Every field points to the program or map it is declared for;
    what is not in the object is still in the collection, never in both.  A load
    that fails leaves nothing in the collection.  When the specification has
    what the sources declare and the kernel answers with what it was asked for,
    no name is missing: the load fails only when the specification or the kernel
    refuse. *)
Theorem loader_fail_closed k wantLSM io : exists st r, LoadDefendObjectsForKernel k wantLSM io = (st, r) /\
  (forall f p, o_progs st !! f = Some p -> field_tag f = p) /\ (forall f m, o_maps st !! f = Some m -> field_tag f = m) /\
  match r with
  | Ok res => exists coll, loadCollection k wantLSM io = Ok (coll, res) /\
    let lsm := wantLSM && negb (LSMFellBack res) in
    requiredPrograms lsm io ⊆ obj_progs st ⊆ requiredPrograms lsm io ∪ optionalPrograms lsm /\
    requiredMaps lsm ⊆ obj_maps st ⊆ requiredMaps lsm ∪ optionalMaps lsm /\
    c_progs (l_coll st) ∪ obj_progs st = c_progs coll /\ c_maps (l_coll st) ∪ obj_maps st = c_maps coll /\
    c_progs (l_coll st) ## obj_progs st /\ c_maps (l_coll st) ## obj_maps st /\
    (LSMFellBack res = true -> wantLSM = true)
  | Err e => l_coll st = mkColl ∅ ∅ /\
    (honest k -> (forall n sp, LoadDefend k n = Ok sp -> complete_spec sp) -> loadCollection k wantLSM io = Err e)
  end.
Proof.
  unfold LoadDefendObjectsForKernel. destruct (loadCollection k wantLSM io) as [[coll res]|e] eqn:El; [|by eexists _, _].
  set (lsm := wantLSM && negb (LSMFellBack res)). destruct (moving_all lsm io _ (start_split coll)) as ([Hsp Hp Hm Hgp Hgm] & Hok & Hlive).
  destruct Hsp as [S1 S2 [S3 S4]]. unfold obj_progs, obj_maps in *.
  destruct (detachAll lsm io (mkLState coll ∅ ∅)) as [st [[]|e]]; cbn [fst snd is_ok l_coll o_progs o_maps c_progs c_maps] in *;
    eexists _, _; (split; [done|]); (split; [exact S3|]); (split; [exact S4|]).
  - exists coll. destruct Hok as [? ?]; [done|]. destruct Hgp as [_ Hgp], Hgm as [_ Hgm].
    rewrite dom_empty_L, set_map_empty, ?union_empty_r_L, ?union_empty_l_L in *.
    split_and!; try done. intros Hf. by destruct wantLSM; [|unfold loadCollection in El; repeat case_match; simplify_eq].
  - split; [done|]. intros Hk Hspec. destruct (loaded_complete _ _ _ _ _ Hk Hspec El) as [H1 H2]. by specialize (Hlive H1 H2).
Qed.

(** * Examples *)

Module Witness.
Definition names : collection := mkColl (requiredPrograms true true ∪ optionalPrograms true) (requiredMaps true ∪ optionalMaps true).
Definition btf : gset bytes := {[str "bpf_lsm_socket_sendpage"]}.

(** A kernel that refuses every specification with one of the programs. *)
Definition refusing (bad : list (bytes * bytes)) (sp : collection) : kernel :=
  mkKernelEnv (fun _ => Ok sp)
    (fun _ sp => match List.find (fun b => bool_decide (b.1 ∈ c_progs sp)) bad with
                 | Some b => Err (mkCollErr b.2 true false)
                 | None => Ok sp
                 end) (Some btf).

Definition sendpage : bytes * bytes := (str "lsm_socket_sendpage", str "program lsm_socket_sendpage: not found").
Definition uring : bytes * bytes := (str "lsm_io_uring_cmd", str "program lsm_io_uring_cmd: not found").

Lemma names_complete : complete_spec names.
Proof. split; by_computation. Qed.

Lemma refusing_honest bad : honest (refusing bad names).
Proof. intros n sp coll. cbn. destruct (List.find _ bad); [done|]. by intros [= ->]. Qed.

Definition refused : bytes * bytes := (str "defend_connect4", str "refused").

Lemma loads_lsm : match (LoadDefendObjectsForKernel (refusing [] names) true true).2 with Ok res => negb (LSMFellBack res) | Err _ => false end = true.
Proof. vm_compute. reflexivity. Qed.

Lemma loads_not : is_ok (LoadDefendObjectsForKernel (refusing [refused] names) true true).2 = false.
Proof. vm_compute. reflexivity. Qed.

(** A load with the LSM section, and one that fails only because the kernel
    refuses a hook of every section. *)
Lemma loader_fail_closed_witness :
  (exists st res, LoadDefendObjectsForKernel (refusing [] names) true true = (st, Ok res) /\
     requiredPrograms true true ⊆ obj_progs st /\ requiredMaps true ⊆ obj_maps st) /\
  exists e, loadCollection (refusing [refused] names) true true = Err e.
Proof.
  split.
  - pose proof loads_lsm as L. destruct (loader_fail_closed (refusing [] names) true true) as (st & r & E & _ & _ & H). rewrite E in L. cbn [snd] in L.
    destruct r as [res|e]; [|discriminate L]. destruct H as (coll & _ & [H1 _] & [H2 _] & _). exists st, res. rewrite L in H1, H2. cbn [andb] in H1, H2.
    split; [exact E|]. split; assumption.
  - pose proof loads_not as L. destruct (loader_fail_closed (refusing [refused] names) true true) as (st & r & E & _ & _ & H). rewrite E in L. cbn [snd] in L.
    destruct r as [res|e]; [discriminate L|]. destruct H as [_ H]. exists e. apply H; [apply refusing_honest|].
    intros n sp Hsp. assert (sp = names) as -> by (unfold refusing in Hsp; cbn [LoadDefend] in Hsp; congruence). exact names_complete.
Defined.

(** A hook the kernel refuses makes the load fall back to the cgroup section. *)
Example falls_back :
  match (LoadDefendObjectsForKernel (refusing [uring] names) true true).2 with Ok res => LSMFellBack res = true | Err _ => False end.
Proof. vm_compute. reflexivity. Qed.

(** A program that is missing is found after others were moved: the object is
    not untouched, and what was moved is not closed. *)
Example stale_spec_touches_object :
  let '(st, r) := LoadDefendObjectsForKernel (refusing [] (delete_map (str "allowed_ipv6") names)) false false in
  r = Err (ErrMissingMap (str "allowed_ipv6")) /\ o_progs st !! str "DefendConnect4" = Some (str "defend_connect4").
Proof. vm_compute. split; reflexivity. Qed.

(** The retry without the sendpage program loads the io_uring program although
    it was not asked for, and a kernel that refuses that one too is not given
    the cgroup section, which it would load. *)
Example retry_forgets_io_uring : let k := refusing [sendpage; uring] names in
  (LoadDefendObjectsForKernel k true false).2 = Err (ErrCollection (mkCollErr uring.2 true false)) /\
  is_ok (LoadDefendObjectsForKernel k false false).2 = true.
Proof. vm_compute. split; reflexivity. Qed.
End Witness.
