(* ===== verification/Lifecycle.v ===== *)
(** The run of the agent: agent_linux.go ([Run]), agent_run_load.go (the load and
    attach phases), agent_linux_bpf_start.go, agent_run_state.go (the cleanup
    stack, spawning of readers), agent_linux_ringreader.go, agent_linux_probe.go,
    bpf_self_defense_linux.go, and the error handling of agent_linux_digest.go.

    A phase is a program of the monad [run] over the state of a run, which has
    two parts.  [life] is the part that owns things: the cleanup stack, the ring
    readers, the pointers that may be nil, and a history of what was opened,
    closed and reported.  [data] is what the phases compute and program: the
    compiled allowlist, the kernel maps of the defend collection, the counters,
    the status rows.  What the kernel and the libraries answer is a [host].
    A cleanup function is the list of its statements, so that the unwinding at
    the end of a run can interleave with the goroutine that closes the readers. *)
From S2P Require Import Prelude GoStrings GoNet GoPath Policy BpfMap Allowlist DnsCache Decode DefendMaps Telemetry Config Defend RunStats Loader.

Open Scope Z_scope.

(** * Resources *)

(** The BPF collections, the links attached from them, and the ring readers. *)
Inductive obj := ODefend | OExec | OSyscall | ODns | OFork | OFs | OKtls | OIPv6 | OAudit.

Inductive lnk :=
  | LLsmConnect | LLsmSendmsg | LLsmSendpage | LSelfDefense | LIoUringCmd
  | LConnect4 | LSendmsg4 | LTcx (iface : nat) | LConnect6 | LSendmsg6
  | LExec | LSyscall | LKprobe | LKretprobe | LTcpState | LIoUring
  | LDnsEnter | LDnsExit | LFork | LFs | LKtls | LObsConnect | LObsSendmsg | LAudit.

Inductive rd :=
  | RExec | RConn | RUdp | RHttp | RTls | RTcpState | RIoUring | RIoUringTLS | RDeny | RLsmDeny | REgressBackstop
  | RSelfDefense | RDns | RBpfAudit | RFork | RFs | RKtls | RIPv6Obs.

Inductive res := Obj (o : obj) | Lnk (l : lnk) | Rdr (r : rd).

#[global] Instance obj_eq_dec : EqDecision obj.
Proof. solve_decision. Defined.
#[global] Instance lnk_eq_dec : EqDecision lnk.
Proof. solve_decision. Defined.
#[global] Instance rd_eq_dec : EqDecision rd.
Proof. solve_decision. Defined.
#[global] Instance res_eq_dec : EqDecision res.
Proof. solve_decision. Defined.

(** * Errors *)

Inductive run_err :=
  | ErrPolicy (e : policy_err)
  | ErrSetupSigner (text : bytes)
  | ErrInitMemlock (text : bytes)
  | ErrCompile (e : compile_err)
  | ErrLoadDefend (e : load_err)
  | ErrMaps (e : defend_err)
  | ErrRingReader (r : rd) (text : bytes)
  | ErrAttach (l : lnk) (text : bytes)
  | ErrIPv6Enforcement (l : lnk) (text : bytes)
  | ErrProbe (timeout : bool)
  | ErrLoadObjects (text : bytes)
  | ErrSyscallTrace (text : bytes)
  | ErrReadyStatus (text : bytes)
  | ErrCanceled
  | ErrDeny
  | ErrOther (text : bytes).

Definition isCanceled (e : run_err) : bool := match e with ErrCanceled => true | _ => false end.
Definition isDefendDenyError (e : run_err) : bool := match e with ErrDeny => true | _ => false end.

Definition preferRunError (current candidate : option run_err) : option run_err :=
  match candidate with
  | None => current
  | Some c =>
    if isCanceled c then current
    else match current with
         | None => Some c
         | Some cur => if isDefendDenyError c && negb (isDefendDenyError cur) then Some c else Some cur
         end
  end.

(** [for max > 0 && !utf8.RuneStart(s[max])]; the index is below [len(s)]. *)
Fixpoint runeStartBack (s : bytes) (max : nat) : nat :=
  match max with
  | O => O
  | S m => if RuneStart (default 0 (s !! max)) then max else runeStartBack s m
  end.

Definition truncateUTF8ToMaxBytes (s : bytes) (max : Z) : bytes :=
  if max <=? 0 then []
  else if len s <=? max then s
  else take (runeStartBack s (Z.to_nat max)) s.

(** [bpfDetail] of the text of an error. *)
Definition bpfDetail (text : bytes) : bytes :=
  if len text <=? 180 then text else truncateUTF8ToMaxBytes text 180 ++ [0xE2; 0x80; 0xA6].

(** * agent_linux_probe.go *)

(** What [rd.Read] returns under the probe's deadline; when the ring delivers
    nothing more the deadline passes. *)
Inductive probe_read := PRecord (raw : bytes) | PDeadline | PError.

Definition probeDefendDst : bytes := [203; 0; 113; 1].
Definition probeDefendDport : Z := 1.

Definition matchProbeDenyEvent (raw : bytes) : go bool :=
  if len raw <? denyEventWireSize then Ret false
  else
    protocol ← idx raw 24; af ← idx raw 26; dport ← be_at 2 raw 44;
    if negb (protocol =? denyProtoTCP) || negb (af =? linuxAFInet) || negb (dport =? probeDefendDport) then Ret false
    else daddr ← slice raw 28 32; Ret (bool_decide (daddr = probeDefendDst)).

(** [None] is enforcement confirmed; the error says whether it is the timeout. *)
Fixpoint probeDefendEnforcement (reads : list probe_read) : go (option bool) :=
  match reads with
  | [] | PDeadline :: _ => Ret (Some true)
  | PError :: _ => Ret (Some false)
  | PRecord raw :: reads' => b ← matchProbeDenyEvent raw; if b : bool then Ret None else probeDefendEnforcement reads'
  end.

Fixpoint probeLSMSilent (reads : list probe_read) : go bool :=
  match reads with
  | [] | PDeadline :: _ | PError :: _ => Ret true
  | PRecord raw :: reads' => b ← matchProbeDenyEvent raw; if b : bool then Ret false else probeLSMSilent reads'
  end.

(** * The state of a run *)

(** The statements of the cleanup functions.  The [If] forms are guarded by a
    nil check of the pointer. *)
Inductive act :=
  | ACancelCompile | ACancelRun | ATelemetry
  | ACloseRd (r : rd)
  | ACloseLnk (l : lnk) | ACloseLnkIf (l : lnk)
  | ACloseObj (o : obj) | ACloseObjIf (o : obj)
  | ASnap (o : obj) | ASnapIf (o : obj).

(** The goroutines of a run. *)
Inductive goroutine := GReader (r : rd) | GCanary | GDrift | GHeartbeat | GWatch (lsm : bool).

(** The startup record of the event log. *)
Record startupMeta := mkStartupMeta {
  mt_procTree : bool; mt_tlsSNI : bool; mt_fsEvents : bool;
  mt_allowlistIPs : Z; mt_allowlistEntries : Z; mt_wildcardRisk : list bytes; mt_unresolved : list bytes;
  mt_runnerHasIPv6 : bool; mt_runnerEnv : bytes; mt_coverage : CoverageReport }.

Inductive event :=
  | Opened (r : res)
  | Closed (r : res)
  | Snapshot (o : obj)
  | Status (ok : bool)
  | Startup (m : startupMeta)
  | Spawned (gs : list goroutine)
  | Shutdown (sum : Summary) (meta : option (option (gmap bytes Z) * CoverageReport)).

(** [l_R] is the set of ring readers whose [R] is set, [l_once] those whose
    [Close] has run, [l_ptr] the collections and links whose pointer is set.
    The stack and the history have the newest element first. *)
Record life := mkLife {
  l_cleanup : list (list act);
  l_R : list rd;
  l_once : list rd;
  l_ptr : list res;
  l_hasDefend : bool;
  l_hasLSM : bool;
  l_hist : list event }.

Definition closedIn (o : obj) (h : list event) : bool :=
  existsb (fun e => match e with Closed (Obj o') => bool_decide (o = o') | _ => false end) h.

Definition allReaders : list rd :=
  [RExec; RConn; RUdp; RHttp; RTls; RTcpState; RIoUring; RIoUringTLS; RDeny; RLsmDeny; REgressBackstop; RSelfDefense;
   RDns; RBpfAudit; RFork; RFs; RKtls; RIPv6Obs].

Section Run.
(** The kernel maps: tries and domain set, configuration and id sets, the owner
    map, the self-defense configuration, and the per-CPU counters. *)
Context `{UnicodeCase} `{!RangeOrder bytes}.
Context {M MC MO MS MP : Type}.
Context `{!BpfMapOps bytes Z M} `{!BpfMapOps Z Z MC} `{!BpfMapOps bytes bytes MO} `{!BpfMapOps Z (Z * Z) MS} `{!BpfMapOps Z (list Z) MP}.

(** The maps of [defendObjs]; [AllowedDomains] is shared by both backends. *)
Record dmaps := mkDMaps {
  d_cfg : MC; d_ignored : option M; d_allowed : option M; d_allowed6 : option M; d_domains : M;
  d_lsmCfg : MC; d_lsmIgnored : option M; d_lsmAllowed : option M;
  d_owners : option MO;
  d_selfProgs : option MC; d_selfMaps : option MC; d_selfLinks : option MC; d_selfCfg : option MS }.

Record data := mkData {
  a_rows : list BPFStatus;
  a_stats : runStats;
  a_defend : defendState;
  a_compiled : CompileResult;
  a_progs : gset bytes;
  a_names : gset bytes;
  a_maps : dmaps;
  a_linkIDs : list Z;
  a_selfAttached : bool;
  a_dnsMaps : list obj }.

(** What the host answers.  [None] is success where an error text is optional. *)
Record host := mkHost {
  h_memlock : option bytes;
  h_signer : option bytes;
  h_kernel : kernel;
  h_haveLSM : bool;
  h_load : obj -> option bytes;
  h_attach : lnk -> option bytes;
  h_reader : rd -> option bytes;
  h_linkID : lnk -> option Z;
  h_update : bytes -> option bytes;
  h_ifaces : result bytes (list (bool * bool));
  h_denyReads : list probe_read;
  h_lsmReads : list probe_read;
  h_status : bool -> option bytes;
  h_progID : bytes -> option Z;
  h_mapID : bytes -> option Z;
  h_pid : Z;
  h_hasSubmitSqe : bool;
  h_resolver : Resolver;
  h_resolvConf : bytes -> option bytes;
  h_now : Z;
  h_buildMeta : bool;
  h_runnerEnv : bytes;
  h_kernelRelease : bytes;
  h_percpu : bytes -> option MP;
  h_fresh : M; h_freshCfg : MC; h_freshOwners : MO; h_freshSelf : MS;
  h_running : runStats * defendState -> runStats * defendState;
  h_results : list (option run_err) }.

Record rstate := mkR { r_life : life; r_data : data }.

Definition run (A : Type) : Type := rstate -> rstate * go A.

#[global] Instance run_ret : MRet run := fun A a s => (s, Ret a).
#[global] Instance run_bind : MBind run := fun A B f m s =>
  let '(s', r) := m s in match r with Ret a => f a s' | Panic => (s', Panic) end.

Definition lift {A} (g : go A) : run A := fun s => (s, g).
Definition gets {A} (f : data -> A) : run A := fun s => (s, Ret (f (r_data s))).
Definition getl {A} (f : life -> A) : run A := fun s => (s, Ret (f (r_life s))).
Definition onData (f : data -> data) : run unit := fun s => (mkR (r_life s) (f (r_data s)), Ret tt).
Definition onLife (f : life -> life) : run unit := fun s => (mkR (f (r_life s)) (r_data s), Ret tt).

(** ** Primitive updates *)

Definition note (e : event) (l : life) : life :=
  mkLife (l_cleanup l) (l_R l) (l_once l) (l_ptr l) (l_hasDefend l) (l_hasLSM l) (e :: l_hist l).
Definition pushed (f : list act) (l : life) : life :=
  mkLife (f :: l_cleanup l) (l_R l) (l_once l) (l_ptr l) (l_hasDefend l) (l_hasLSM l) (l_hist l).
Definition withR (r : rd) (l : life) : life :=
  mkLife (l_cleanup l) (r :: l_R l) (l_once l) (l_ptr l) (l_hasDefend l) (l_hasLSM l) (l_hist l).
Definition withOnce (r : rd) (l : life) : life :=
  mkLife (l_cleanup l) (l_R l) (r :: l_once l) (l_ptr l) (l_hasDefend l) (l_hasLSM l) (l_hist l).
Definition withPtr (r : res) (l : life) : life :=
  mkLife (l_cleanup l) (l_R l) (l_once l) (r :: l_ptr l) (l_hasDefend l) (l_hasLSM l) (l_hist l).
Definition nilPtr (r : res) (l : life) : life :=
  mkLife (l_cleanup l) (l_R l) (l_once l) (filter (.≠ r) (l_ptr l)) (l_hasDefend l) (l_hasLSM l) (l_hist l).
Definition withDefend (l : life) : life :=
  mkLife (l_cleanup l) (l_R l) (l_once l) (l_ptr l) true (l_hasLSM l) (l_hist l).
Definition withLSM (l : life) : life :=
  mkLife (l_cleanup l) (l_R l) (l_once l) (l_ptr l) (l_hasDefend l) true (l_hist l).

Definition with_rows (f : list BPFStatus -> list BPFStatus) (a : data) : data :=
  mkData (f (a_rows a)) (a_stats a) (a_defend a) (a_compiled a) (a_progs a) (a_names a) (a_maps a) (a_linkIDs a) (a_selfAttached a) (a_dnsMaps a).
Definition with_stats (f : runStats -> runStats) (a : data) : data :=
  mkData (a_rows a) (f (a_stats a)) (a_defend a) (a_compiled a) (a_progs a) (a_names a) (a_maps a) (a_linkIDs a) (a_selfAttached a) (a_dnsMaps a).
Definition with_defend (f : defendState -> defendState) (a : data) : data :=
  mkData (a_rows a) (a_stats a) (f (a_defend a)) (a_compiled a) (a_progs a) (a_names a) (a_maps a) (a_linkIDs a) (a_selfAttached a) (a_dnsMaps a).
Definition with_compiled (c : CompileResult) (a : data) : data :=
  mkData (a_rows a) (a_stats a) (a_defend a) c (a_progs a) (a_names a) (a_maps a) (a_linkIDs a) (a_selfAttached a) (a_dnsMaps a).
Definition with_objects (progs names : gset bytes) (m : dmaps) (a : data) : data :=
  mkData (a_rows a) (a_stats a) (a_defend a) (a_compiled a) progs names m (a_linkIDs a) (a_selfAttached a) (a_dnsMaps a).
Definition with_dmaps (m : dmaps) (a : data) : data :=
  mkData (a_rows a) (a_stats a) (a_defend a) (a_compiled a) (a_progs a) (a_names a) m (a_linkIDs a) (a_selfAttached a) (a_dnsMaps a).
Definition with_linkID (id : Z) (a : data) : data :=
  mkData (a_rows a) (a_stats a) (a_defend a) (a_compiled a) (a_progs a) (a_names a) (a_maps a) (a_linkIDs a ++ [id]) (a_selfAttached a) (a_dnsMaps a).
Definition with_selfAttached (a : data) : data :=
  mkData (a_rows a) (a_stats a) (a_defend a) (a_compiled a) (a_progs a) (a_names a) (a_maps a) (a_linkIDs a) true (a_dnsMaps a).
Definition with_dnsMaps (l : list obj) (a : data) : data :=
  mkData (a_rows a) (a_stats a) (a_defend a) (a_compiled a) (a_progs a) (a_names a) (a_maps a) (a_linkIDs a) (a_selfAttached a) l.

Context (h : host).

Definition push (f : list act) : run unit := onLife (pushed f).
Definition closeRes (r : res) : run unit := onLife (note (Closed r)).
Definition setR (r : rd) : run unit := onLife (withR r).
Definition setPtr (r : res) : run unit := onLife (withPtr r).
Definition clearPtr (r : res) : run unit := onLife (nilPtr r).

(** A library call that opens a resource; [Some] is the text of its error. *)
Definition opening (answer : option bytes) (r : res) : run (option bytes) :=
  match answer with
  | Some e => mret (Some e)
  | None => _ ← onLife (note (Opened r)); mret None
  end.
Definition loadObjects (o : obj) : run (option bytes) := opening (h_load h o) (Obj o).
Definition attach (l : lnk) : run (option bytes) := opening (h_attach h l) (Lnk l).
Definition newReader (r : rd) : run (option bytes) := opening (h_reader h r) (Rdr r).

Definition row (name : bytes) (ok : bool) (detail : bytes) : BPFStatus := mkBPFStatus name ok detail false.
Definition addRow (name : bytes) (ok : bool) (detail : bytes) : run unit := onData (with_rows (fun rows => rows ++ [row name ok detail])).

(** [s.bpfSt[i] = row] *)
Definition setRow (i : nat) (name : bytes) (ok : bool) (detail : bytes) : run unit := fun s =>
  if (i <? length (a_rows (r_data s)))%nat
  then (mkR (r_life s) (with_rows (<[i := row name ok detail]>) (r_data s)), Ret tt)
  else (s, Panic).

Definition writeAgentStatus (cfg : Config) (ok : bool) : run (option bytes) :=
  if decide (AgentStatusPath cfg = []) then mret None
  else match h_status h ok with
       | Some e => mret (Some e)
       | None => _ ← onLife (note (Status ok)); mret None
       end.

(** ** agent_linux_bpf_start.go

    On an error the intermediates are closed and the text is returned; the
    readers, collection and links of a success are what was opened. *)

Definition startSyscallTrace (enableTLSSNI : bool) : run (result bytes bool) :=
  e ← loadObjects OSyscall;
  match e with Some e => mret (Err e) | None =>
  e ← attach LSyscall;
  match e with Some e => _ ← closeRes (Obj OSyscall); mret (Err e) | None =>
  e ← newReader RConn;
  match e with Some e => _ ← closeRes (Lnk LSyscall); _ ← closeRes (Obj OSyscall); mret (Err e) | None =>
  e ← newReader RUdp;
  match e with Some e => _ ← closeRes (Rdr RConn); _ ← closeRes (Lnk LSyscall); _ ← closeRes (Obj OSyscall); mret (Err e) | None =>
  e ← newReader RHttp;
  match e with
  | Some e => _ ← closeRes (Rdr RUdp); _ ← closeRes (Rdr RConn); _ ← closeRes (Lnk LSyscall); _ ← closeRes (Obj OSyscall); mret (Err e)
  | None =>
  e ← newReader RTls;
  match e with
  | Some e => _ ← closeRes (Rdr RHttp); _ ← closeRes (Rdr RUdp); _ ← closeRes (Rdr RConn); _ ← closeRes (Lnk LSyscall);
              _ ← closeRes (Obj OSyscall); mret (Err e)
  | None =>
  mret (Ok (enableTLSSNI && bool_decide (is_Some (h_update h (str "tls_agent_cfg")))))
  end end end end end end.

Definition attachTCPConnectKprobes : run (option bytes) :=
  e ← attach LKprobe;
  match e with Some e => mret (Some (str "attach kprobe tcp_v4_connect: " ++ e)) | None =>
  e ← attach LKretprobe;
  match e with Some e => _ ← closeRes (Lnk LKprobe); mret (Some (str "attach kretprobe tcp_v4_connect: " ++ e)) | None =>
  mret None
  end end.

(** One collection with one link and one reader: [startKTLSTrace] and
    [startBPFAuditTrace]. *)
Definition startOne (o : obj) (l : lnk) (r : rd) : run (option bytes) :=
  e ← loadObjects o;
  match e with Some e => mret (Some e) | None =>
  e ← attach l;
  match e with Some e => _ ← closeRes (Obj o); mret (Some e) | None =>
  e ← newReader r;
  match e with Some e => _ ← closeRes (Lnk l); _ ← closeRes (Obj o); mret (Some e) | None =>
  mret None
  end end end.

Definition startKTLSTrace : run (option bytes) := startOne OKtls LKtls RKtls.
Definition startBPFAuditTrace : run (option bytes) := startOne OAudit LAudit RBpfAudit.

(** The result is whether the TLS reader was opened and whether the peek
    configuration failed. *)
Definition startIoUringTrace (enhancedPeek : bool) : run (result bytes (bool * bool)) :=
  ptrs ← getl l_ptr;
  if negb (bool_decide (Obj OSyscall ∈ ptrs)) then mret (Err (str "io_uring trace: traceconnect objects not loaded"))
  else if negb (h_hasSubmitSqe h) then mret (Err (str "io_uring trace: program absent from collection"))
  else
  e ← attach LIoUring;
  match e with Some e => mret (Err e) | None =>
  e ← newReader RIoUring;
  match e with Some e => _ ← closeRes (Lnk LIoUring); mret (Err e) | None =>
  if enhancedPeek then
    match h_update h (str "io_uring_peek_cfg") with
    | Some _ => mret (Ok (false, true))
    | None =>
      e ← newReader RIoUringTLS;
      match e with
      | Some e => _ ← closeRes (Rdr RIoUring); _ ← closeRes (Lnk LIoUring); mret (Err e)
      | None => mret (Ok (true, false))
      end
    end
  else mret (Ok (false, false))
  end end.

Definition startIPv6ObsTrace : run (option bytes) :=
  e ← loadObjects OIPv6;
  match e with Some e => mret (Some e) | None =>
  e ← attach LObsConnect;
  match e with Some e => _ ← closeRes (Obj OIPv6); mret (Some (str "attach cgroup/connect6 (ipv6_obs): " ++ e)) | None =>
  e ← attach LObsSendmsg;
  match e with
  | Some e => _ ← closeRes (Lnk LObsConnect); _ ← closeRes (Obj OIPv6); mret (Some (str "attach cgroup/sendmsg6 (ipv6_obs): " ++ e))
  | None =>
  e ← newReader RIPv6Obs;
  match e with
  | Some e => _ ← closeRes (Lnk LObsSendmsg); _ ← closeRes (Lnk LObsConnect); _ ← closeRes (Obj OIPv6); mret (Some e)
  | None => mret None
  end end end end.

Definition startDNSTrace : run (option bytes) :=
  e ← loadObjects ODns;
  match e with Some e => mret (Some e) | None =>
  e ← attach LDnsEnter;
  match e with Some e => _ ← closeRes (Obj ODns); mret (Some e) | None =>
  e ← attach LDnsExit;
  match e with Some e => _ ← closeRes (Lnk LDnsEnter); _ ← closeRes (Obj ODns); mret (Some e) | None =>
  e ← newReader RDns;
  match e with
  | Some e => _ ← closeRes (Lnk LDnsExit); _ ← closeRes (Lnk LDnsEnter); _ ← closeRes (Obj ODns); mret (Some e)
  | None => mret None
  end end end end.

(** ** bpf_self_defense_linux.go *)

Definition selfDefenseProgramSet : list bytes :=
  [str "defend_connect4"; str "defend_sendmsg4"; str "defend_cgroup_connect6"; str "defend_cgroup_sendmsg6"; str "defend_skb_egress";
   str "lsm_socket_connect"; str "lsm_socket_sendmsg"; str "lsm_socket_sendpage"; str "lsm_io_uring_cmd"; str "coldstep_bpf_self_defense"].

Definition selfDefenseMapSet : list bytes :=
  [str "deny_events"; str "deny_reserve_failures"; str "defend_cfg"; str "allowed_ipv4"; str "ignored_ipv4_lpm"; str "allowed_domains";
   str "dns_cache"; str "ipv6_connect_observed"; str "ipv6_sendmsg_observed"; str "allowed_ipv6"; str "skb_backstop_events";
   str "skb_backstop_reserve_failures"; str "skb_backstop_seen"; str "lsm_deny_events"; str "lsm_deny_reserve_failures";
   str "lsm_defend_cfg"; str "lsm_allowed_ipv4"; str "lsm_ignored_ipv4_lpm"; str "sendpage_observed"; str "self_prog_ids";
   str "self_map_ids"; str "self_link_ids"; str "self_pin_prefix"; str "self_defense_cfg"; str "bpf_self_defense_events";
   str "bpf_self_defense_reserve_failures"; str "self_defense_seen"].

(** The ids that are known are put into the map; the count is of the
    successful writes. *)
Fixpoint putIDs (m : MC) (ids : list (option Z)) (n : Z) : MC * Z :=
  match ids with
  | [] => (m, n)
  | None :: ids' => putIDs m ids' n
  | Some id :: ids' => let '(m', err) := bm_update m id 1 in putIDs m' ids' (match err with None => n + 1 | Some _ => n end)
  end.

Definition putIDsIf (m : option MC) (ids : list (option Z)) : option MC * Z :=
  match m with None => (None, 0) | Some m => let '(m', n) := putIDs m ids 0 in (Some m', n) end.

Definition armBpfSelfDefense (progs names : gset bytes) (linkIDs : list Z) (d : dmaps) : dmaps * (Z * Z * Z) :=
  match d_selfCfg d with
  | None => (d, (0, 0, 0))
  | Some cfg =>
    let '(ps, progN) := putIDsIf (d_selfProgs d) (map (h_progID h) (filter (.∈ progs) selfDefenseProgramSet)) in
    let '(ms, mapN) := putIDsIf (d_selfMaps d) (map (h_mapID h) (filter (.∈ names) selfDefenseMapSet)) in
    let '(ls, linkN) := putIDsIf (d_selfLinks d) (map Some linkIDs) in
    let '(cfg', _) := bm_update cfg 0 (h_pid h, 1) in
    (mkDMaps (d_cfg d) (d_ignored d) (d_allowed d) (d_allowed6 d) (d_domains d) (d_lsmCfg d) (d_lsmIgnored d) (d_lsmAllowed d)
       (d_owners d) ps ms ls (Some cfg'), (progN, mapN, linkN))
  end.

(** ** agent_run_load.go *)

Section Phases.
Context (cfg : Config) (pol : option Policy).

Definition trackDefendLink (l : lnk) : run unit :=
  _ ← push [ACloseLnk l];
  match h_linkID h l with Some id => onData (with_linkID id) | None => mret tt end.

Definition finalizeBpfSelfDefense : run unit :=
  attached ← gets a_selfAttached;
  if negb attached then mret tt
  else
    a ← gets id;
    let '(d, (progN, mapN, linkN)) := armBpfSelfDefense (a_progs a) (a_names a) (a_linkIDs a) (a_maps a) in
    _ ← onData (with_dmaps d);
    addRow (str "lsm/bpf (self-defense)") true
      (str "protecting " ++ Itoa progN ++ str " prog(s) + " ++ Itoa mapN ++ str " map(s) + " ++ Itoa linkN ++ str " link(s)").

(** [loadLSMDefendMaps(&s.defendObjs, ...)] *)
Definition loadLSMMaps : run (option defend_err) :=
  a ← gets id;
  let d := a_maps a in
  let '(ms, r) := loadLSMDefendMaps (Some (mkMapSet (d_lsmCfg d) (d_lsmIgnored d) (d_lsmAllowed d) (d_domains d))) (a_compiled a) pol in
  match ms with
  | None => mret (Some ErrObjsNil)
  | Some ms =>
    _ ← onData (with_dmaps (mkDMaps (d_cfg d) (d_ignored d) (d_allowed d) (d_allowed6 d) (dm_allowedDomains ms)
                 (dm_cfg ms) (dm_ignoredLPM ms) (dm_allowedLPM ms) (d_owners d) (d_selfProgs d) (d_selfMaps d) (d_selfLinks d) (d_selfCfg d)));
    mret (match r with Ok _ => None | Err e => Some e end)
  end.

(** The hooks that are attached once both socket hooks are. *)
Definition attachSendpage : run unit :=
  progs ← gets a_progs;
  if decide (str "lsm_socket_sendpage" ∈ progs) then
    e ← attach LLsmSendpage;
    match e with Some _ => mret tt | None => trackDefendLink LLsmSendpage end
  else mret tt.

Definition attachSelfDefense : run unit :=
  progs ← gets a_progs;
  if decide (str "coldstep_bpf_self_defense" ∈ progs) then
    e ← attach LSelfDefense;
    match e with
    | Some e => addRow (str "lsm/bpf (self-defense)") false (bpfDetail e)
    | None =>
      _ ← trackDefendLink LSelfDefense;
      _ ← onData with_selfAttached;
      e ← newReader RSelfDefense;
      match e with Some _ => mret tt | None => setR RSelfDefense end
    end
  else mret tt.

(** [None] when the hook was not attempted, else the outcome of the attach. *)
Definition attachIoUringCmd (haveIOUringLSM : bool) : run (option (option bytes)) :=
  progs ← gets a_progs;
  if haveIOUringLSM && bool_decide (str "lsm_io_uring_cmd" ∈ progs) then
    e ← attach LIoUringCmd;
    match e with
    | Some e => mret (Some (Some e))
    | None => _ ← trackDefendLink LIoUringCmd; mret (Some None)
    end
  else mret None.

(** [Ok] carries whether the attach failed, which falls back to the cgroup
    hooks; [Err] is fatal. *)
Definition loadDefendLSM (haveLSM haveIOUringLSM : bool) : run (result run_err bool) :=
  if negb haveLSM then mret (Ok false)
  else
  e ← loadLSMMaps;
  match e with Some e => mret (Err (ErrMaps e)) | None =>
  e ← newReader RLsmDeny;
  match e with Some e => mret (Err (ErrRingReader RLsmDeny e)) | None =>
  e ← attach LLsmConnect;
  match e with Some _ => _ ← closeRes (Rdr RLsmDeny); mret (Ok true) | None =>
  e ← attach LLsmSendmsg;
  match e with Some _ => _ ← closeRes (Lnk LLsmConnect); _ ← closeRes (Rdr RLsmDeny); mret (Ok true) | None =>
  _ ← onLife withLSM;
  _ ← setR RLsmDeny;
  _ ← trackDefendLink LLsmConnect;
  _ ← trackDefendLink LLsmSendmsg;
  _ ← attachSendpage;
  _ ← attachSelfDefense;
  attempt ← attachIoUringCmd haveIOUringLSM;
  _ ← match attempt with
      | None => mret tt
      | Some (Some e) => addRow (str "lsm/io_uring_cmd") false (bpfDetail e)
      | Some None => addRow (str "lsm/io_uring_cmd") true []
      end;
  mret (Ok false)
  end end end end.

(** The loop over the interfaces: the next index and how many were attached. *)
Fixpoint attachTCX (ifaces : list (bool * bool)) (i : nat) (attached : Z) : run Z :=
  match ifaces with
  | [] => mret attached
  | (loopback, up) :: ifaces' =>
    if loopback || negb up then attachTCX ifaces' (S i) attached
    else
      e ← attach (LTcx i);
      match e with
      | Some _ => attachTCX ifaces' (S i) attached
      | None => _ ← trackDefendLink (LTcx i); attachTCX ifaces' (S i) (attached + 1)
      end
  end.

Definition attachEgressBackstop : run unit :=
  progs ← gets a_progs;
  if decide (str "defend_skb_egress" ∈ progs) then
    e ← newReader REgressBackstop;
    match e with
    | Some _ => mret tt
    | None =>
      attached ← attachTCX (match h_ifaces h with Ok l => l | Err _ => [] end) 0 0;
      if 0 <? attached then
        _ ← setR REgressBackstop;
        addRow (str "tcx/egress (backstop)") true (Itoa attached ++ str " interface(s)")
      else
        _ ← closeRes (Rdr REgressBackstop);
        addRow (str "tcx/egress (backstop)") false (str "no non-loopback interface attached")
    end
  else mret tt.

Definition attachDefendIPv6 : run (option run_err) :=
  progs ← gets a_progs;
  e ← (if decide (str "defend_cgroup_connect6" ∈ progs) then
         e ← attach LConnect6;
         match e with Some e => mret (Some (ErrIPv6Enforcement LConnect6 e)) | None => _ ← trackDefendLink LConnect6; mret None end
       else mret None);
  match e with
  | Some e => mret (Some e)
  | None =>
    if decide (str "defend_cgroup_sendmsg6" ∈ progs) then
      e ← attach LSendmsg6;
      match e with Some e => mret (Some (ErrIPv6Enforcement LSendmsg6 e)) | None => _ ← trackDefendLink LSendmsg6; mret None end
    else mret None
  end.

(** [loadDefendMaps(&s.defendObjs, ...)] *)
Definition loadCgroupMaps : run (result run_err (Z * Z * Z)) :=
  a ← gets id;
  let d := a_maps a in
  x ← lift (loadDefendMaps (Some (mkMapSet (d_cfg d) (d_ignored d) (d_allowed d) (d_domains d), d_allowed6 d)) (a_compiled a) pol);
  match x.1 with
  | None => mret (Err (ErrMaps ErrObjsNil))
  | Some (ms, m6) =>
    _ ← onData (with_dmaps (mkDMaps (dm_cfg ms) (dm_ignoredLPM ms) (dm_allowedLPM ms) m6 (dm_allowedDomains ms)
                 (d_lsmCfg d) (d_lsmIgnored d) (d_lsmAllowed d) (d_owners d) (d_selfProgs d) (d_selfMaps d) (d_selfLinks d) (d_selfCfg d)));
    mret (match x.2 with Ok n => Ok n | Err e => Err (ErrMaps e) end)
  end.

(** The owner map, with a failure counted per write that failed. *)
Definition seedOwnerMap : run unit :=
  a ← gets id;
  let d := a_maps a in
  if decide (d_owners d = None \/ cf_AllowedDomains cfg = []) then mret tt
  else
    let owners := ResolveOwners (H0 := h_resolver h) (cf_AllowedDomains cfg) 2 in
    let '(m, _, fails) := seedDefendOwners (d_owners d) owners (Some 0) in
    _ ← onData (with_dmaps (mkDMaps (d_cfg d) (d_ignored d) (d_allowed d) (d_allowed6 d) (d_domains d) (d_lsmCfg d) (d_lsmIgnored d)
                 (d_lsmAllowed d) m (d_selfProgs d) (d_selfMaps d) (d_selfLinks d) (d_selfCfg d)));
    onData (with_stats (Nat.iter (Z.to_nat (default 0 fails)) addDNSCacheUpdateFailure)).

Definition attachTracked (l : lnk) : run (option run_err) :=
  e ← attach l;
  match e with Some e => mret (Some (ErrAttach l e)) | None => _ ← trackDefendLink l; mret None end.

Definition silentDetail : bytes :=
  str "lsm hooks attached but no deny events observed during post-attach probe; downgraded backend label to cgroup. Common on Ubuntu 24.04 where the kernel `lsm=` boot chain omits bpf " ++
  [0xE2; 0x80; 0x94] ++ str " boot with e.g. `lsm=lockdown,yama,bpf,apparmor` to restore LSM dispatch.".

(** The two probes after the hooks are attached. *)
Definition confirmEnforcement : run (option run_err) :=
  p ← lift (probeDefendEnforcement (h_denyReads h));
  match p with
  | Some timeout => _ ← writeAgentStatus cfg false; mret (Some (ErrProbe timeout))
  | None =>
    lsm ← getl l_hasLSM;
    rs ← getl l_R;
    if lsm && bool_decide (RLsmDeny ∈ rs) then
      silent ← lift (probeLSMSilent (h_lsmReads h));
      if silent : bool then
        _ ← onData (with_defend (fun ds => downgradeMode ds (defendModeForBackend BackendCgroup)));
        _ ← addRow (str "lsm_attached_but_silent") false
              silentDetail;
        mret None
      else mret None
    else mret None
  end.

(** The reader of the deny ring and the IPv4 hooks. *)
Definition attachDefendIPv4 : run (option run_err) :=
  e ← newReader RDeny;
  match e with Some e => mret (Some (ErrRingReader RDeny e)) | None =>
  _ ← setR RDeny;
  e ← attachTracked LConnect4;
  match e with Some e => mret (Some e) | None => attachTracked LSendmsg4 end end.

Definition loadDefendCgroup (backend : backend) : run (option run_err) :=
  n ← loadCgroupMaps;
  match n with Err e => mret (Some e) | Ok (allowlistSize, ipv6AllowlistSize, ignoredSize) =>
  _ ← onData (with_defend (fun ds => setModeAndAllowlist ds (defendModeForBackend backend) allowlistSize ignoredSize));
  _ ← onData (with_defend (fun ds => setIPv6AllowlistSize ds ipv6AllowlistSize));
  _ ← seedOwnerMap;
  e ← attachDefendIPv4;
  match e with Some e => mret (Some e) | None =>
  _ ← attachEgressBackstop;
  e ← attachDefendIPv6;
  match e with Some e => mret (Some e) | None =>
  confirmEnforcement
  end end end.

(** The maps of a loaded collection are new; a map that was not loaded is nil. *)
Definition freshMaps (names : gset bytes) : dmaps :=
  let trie (n : bytes) := if decide (n ∈ names) then Some (h_fresh h) else None in
  let ids (n : bytes) := if decide (n ∈ names) then Some (h_freshCfg h) else None in
  mkDMaps (h_freshCfg h) (trie (str "ignored_ipv4_lpm")) (trie (str "allowed_ipv4")) (trie (str "allowed_ipv6")) (h_fresh h)
    (h_freshCfg h) (trie (str "lsm_ignored_ipv4_lpm")) (trie (str "lsm_allowed_ipv4"))
    (if decide (str "dns_cache" ∈ names) then Some (h_freshOwners h) else None)
    (ids (str "self_prog_ids")) (ids (str "self_map_ids")) (ids (str "self_link_ids"))
    (if decide (str "self_defense_cfg" ∈ names) then Some (h_freshSelf h) else None).

(** The collection is loaded: its fields, the row of a fallback, the flag and
    the cleanup. *)
Definition registerDefend (st : lstate) (res : LoadResult) : run unit :=
  _ ← onLife (note (Opened (Obj ODefend)));
  _ ← onData (with_objects (obj_progs st) (obj_maps st) (freshMaps (obj_maps st)));
  _ ← (if LSMFellBack res then
         addRow (str "lsm_load_failed_fallback_cgroup") false
           (str "lsm prog_load failed; reloaded cgroup-only defend collection" ++
            match LSMFallbackErr res with Some e => str ": " ++ ce_text e | None => [] end)
       else mret tt);
  _ ← onLife withDefend;
  push [ASnap ODefend; ACloseObj ODefend].

Definition loadDefend : run (option run_err) :=
  if negb (Defend (Config_ModeConfig cfg)) then mret None
  else
  let haveLSM := h_haveLSM h in
  let haveIOUringLSM := haveLSM && HaveIOUringLSM (h_kernel h) in
  let '(st, r) := LoadDefendObjectsForKernel (h_kernel h) haveLSM haveIOUringLSM in
  match r with Err e => mret (Some (ErrLoadDefend e)) | Ok res =>
  _ ← registerDefend st res;
  x ← loadDefendLSM (haveLSM && negb (LSMFellBack res)) haveIOUringLSM;
  match x with Err fatal => mret (Some fatal) | Ok lsmAttachFailed =>
  lsm ← getl l_hasLSM;
  e ← loadDefendCgroup (chooseDefendBackend (mkBackendConfig (Defend (Config_ModeConfig cfg)) lsm) lsmAttachFailed);
  match e with Some e => mret (Some e) | None =>
  _ ← finalizeBpfSelfDefense;
  mret None
  end end end.

Definition loadExec : run (option run_err) :=
  e ← loadObjects OExec;
  match e with Some e => mret (Some (ErrLoadObjects e)) | None =>
  _ ← push [ACloseObj OExec];
  _ ← push [ASnap OExec];
  e ← attach LExec;
  match e with Some e => mret (Some (ErrAttach LExec e)) | None =>
  _ ← push [ACloseLnk LExec];
  _ ← setRow 0 (str "sched_process_exec") true [];
  e ← newReader RExec;
  match e with Some e => mret (Some (ErrRingReader RExec e)) | None =>
  _ ← setR RExec;
  mret None
  end end end.

Definition syscallHook : bytes := str "raw_tp/sys_enter (connect, sendto, http sniff, tls)".
Definition kprobeHook : bytes := str "kprobe tcp_v4_connect (connect_result)".

Definition armTCPStateTrace : run unit :=
  e ← attach LTcpState;
  match e with Some e => addRow (str "tp/sock/inet_sock_set_state") false (bpfDetail e) | None =>
  _ ← setPtr (Lnk LTcpState);
  e ← newReader RTcpState;
  match e with
  | Some e =>
    _ ← addRow (str "tp/sock/inet_sock_set_state") false (bpfDetail e);
    _ ← closeRes (Lnk LTcpState);
    clearPtr (Lnk LTcpState)
  | None =>
    _ ← setR RTcpState;
    _ ← addRow (str "tp/sock/inet_sock_set_state") true [];
    push [ACloseLnkIf LTcpState]
  end end.

Definition armIoUringTrace : run unit :=
  x ← startIoUringTrace (EqualFold (TrimSpace (DetectProfile cfg)) (str "enhanced"));
  match x with
  | Err e => addRow (str "raw_tp/io_uring_submit_sqe") false (bpfDetail e)
  | Ok (tls, peekFailed) =>
    _ ← setPtr (Lnk LIoUring);
    _ ← setR RIoUring;
    _ ← (if tls : bool then setR RIoUringTLS else mret tt);
    _ ← (if peekFailed : bool
         then addRow (str "raw_tp/io_uring_submit_sqe") false (str "io_uring_peek_cfg map update failed (TLS ClientHello peek disabled in BPF)")
         else addRow (str "raw_tp/io_uring_submit_sqe") true []);
    push [ACloseLnkIf LIoUring]
  end.

Definition armSyscall : run (option run_err) :=
  x ← startSyscallTrace (FeatureGateEnabled (FeatureGates cfg) (str "tls_sni"));
  match x with
  | Err e =>
    _ ← setRow 1 syscallHook false (bpfDetail e);
    if Defend (Config_ModeConfig cfg) then
      _ ← writeAgentStatus cfg false;
      mret (Some (ErrSyscallTrace e))
    else mret None
  | Ok tlsCfgFailed =>
    _ ← setR RConn; _ ← setR RUdp; _ ← setR RHttp; _ ← setR RTls;
    _ ← setPtr (Obj OSyscall); _ ← setPtr (Lnk LSyscall);
    _ ← (if tlsCfgFailed : bool then setRow 1 syscallHook false (str "tls_agent_cfg map update failed (TLS SNI sniff disabled in BPF)")
         else setRow 1 syscallHook true []);
    k ← attachTCPConnectKprobes;
    _ ← match k with
        | Some e => setRow 4 kprobeHook false (bpfDetail e)
        | None => _ ← setRow 4 kprobeHook true []; _ ← push [ACloseLnk LKprobe]; push [ACloseLnk LKretprobe]
        end;
    _ ← push [ACloseObj OSyscall];
    _ ← push [ACloseLnk LSyscall];
    _ ← push [ASnapIf OSyscall];
    _ ← armTCPStateTrace;
    _ ← armIoUringTrace;
    mret None
  end.

Definition loadDNS : run unit :=
  e ← startDNSTrace;
  match e with Some e => setRow 2 (str "dns recvfrom sniff") false (bpfDetail e) | None =>
  _ ← setR RDns;
  _ ← setPtr (Obj ODns);
  _ ← onData (with_dnsMaps [ODns]);
  _ ← setRow 2 (str "dns recvfrom sniff") true [];
  _ ← push [ACloseObj ODns];
  _ ← push [ACloseLnk LDnsExit];
  _ ← push [ACloseLnk LDnsEnter];
  push [ASnapIf ODns]
  end.

(** [loadFork] and [loadFS] after their gate; [cfgErr] is the error of the
    configuration map of [loadFS]. *)
Definition loadTraced (o : obj) (l : lnk) (r : rd) (name : bytes) (ok : bool) (detail : bytes) : run unit :=
  e ← loadObjects o;
  match e with Some e => addRow name false (bpfDetail e) | None =>
  _ ← setPtr (Obj o);
  e ← attach l;
  match e with
  | Some e => _ ← addRow name false (bpfDetail e); _ ← closeRes (Obj o); clearPtr (Obj o)
  | None =>
  _ ← setPtr (Lnk l);
  e ← newReader r;
  match e with
  | Some e =>
    _ ← addRow name false (bpfDetail e);
    _ ← closeRes (Lnk l); _ ← closeRes (Obj o);
    _ ← clearPtr (Obj o); clearPtr (Lnk l)
  | None =>
    _ ← setR r;
    _ ← addRow name ok detail;
    push [ASnapIf o; ACloseRd r; ACloseLnkIf l; ACloseObjIf o]
  end end end.

Definition loadFork : run unit :=
  if negb (FeatureGateEnabled (FeatureGates cfg) (str "proc_tree")) then mret tt
  else loadTraced OFork LFork RFork (str "sched_process_fork") true [].

Definition loadFS : run unit :=
  if negb (FeatureGateEnabled (FeatureGates cfg) (str "fs_events")) then mret tt
  else
    let cfgErr := h_update h (str "fs_agent_cfg") in
    loadTraced OFs LFs RFs (str "raw_tp/sys_enter (fs)") (match cfgErr with Some _ => false | None => true end)
      (match cfgErr with
       | Some e => if decide (bpfDetail e = []) then str "fs_agent_cfg map update failed (fs events disabled in BPF)" else bpfDetail e
       | None => []
       end).

Definition loadKTLS : run unit :=
  e ← startKTLSTrace;
  match e with Some e => addRow (str "raw_tp/sys_enter (ktls)") false (bpfDetail e) | None =>
  _ ← setR RKtls;
  _ ← setPtr (Obj OKtls); _ ← setPtr (Lnk LKtls);
  _ ← addRow (str "raw_tp/sys_enter (ktls)") true [];
  _ ← push [ACloseObj OKtls];
  _ ← push [ACloseLnk LKtls];
  push [ASnapIf OKtls]
  end.

Definition loadIPv6Obs : run unit :=
  if Defend (Config_ModeConfig cfg) then mret tt
  else
  e ← startIPv6ObsTrace;
  match e with Some e => addRow (str "cgroup/connect6+sendmsg6 (ipv6_obs)") false (bpfDetail e) | None =>
  _ ← setR RIPv6Obs;
  _ ← setPtr (Obj OIPv6); _ ← setPtr (Lnk LObsConnect); _ ← setPtr (Lnk LObsSendmsg);
  _ ← addRow (str "cgroup/connect6+sendmsg6 (ipv6_obs)") true [];
  push [ASnapIf OIPv6; ACloseRd RIPv6Obs; ACloseLnkIf LObsSendmsg; ACloseLnkIf LObsConnect; ACloseObjIf OIPv6]
  end.

Definition loadBPFAudit : run unit :=
  e ← startBPFAuditTrace;
  match e with Some e => addRow (str "raw_tp/sys_enter (bpf audit)") false (bpfDetail e) | None =>
  _ ← setR RBpfAudit;
  _ ← setPtr (Obj OAudit); _ ← setPtr (Lnk LAudit);
  _ ← addRow (str "raw_tp/sys_enter (bpf audit)") true [];
  _ ← push [ACloseObj OAudit];
  _ ← push [ACloseLnk LAudit];
  push [ASnapIf OAudit]
  end.

(** ** agent_run_state.go *)

(** [DefaultResolvConfPaths] are read when the resolvers are auto-allowed. *)
Definition finalizeAllowlist : run unit :=
  _ ← (if ResolverAutoAllow (Config_ModeConfig cfg) then
         onData (fun a => with_compiled (autoAllowSystemResolvers (a_compiled a) (h_resolvConf h) DefaultResolvConfPaths).1 a)
       else mret tt);
  onData (fun a => with_stats (setAllowlistCompileSnapshot (h_now h) (Z.of_nat (size (AllowedIPv4 (a_compiled a)))) (Domains (a_compiled a))
                     (UnresolvedDomains (a_compiled a)) (WildcardRiskDomains (a_compiled a))) a).

Definition RunnerEnvStandard : bytes := str "standard".

Definition writeStartupMeta : run unit := fun s =>
  if decide (EventsLogPath cfg = []) then (s, Ret tt)
  else if negb (h_buildMeta h) then (s, Ret tt)
  else
    let a := r_data s in
    let l := r_life s in
    let tls := FeatureGateEnabled (FeatureGates cfg) (str "tls_sni") in
    let m := mkStartupMeta
      (capabilityEnabled (FeatureGateEnabled (FeatureGates cfg) (str "proc_tree")) (a_rows a) (str "sched_process_fork"))
      (capabilityEnabled tls (a_rows a) syscallHook)
      (capabilityEnabled (FeatureGateEnabled (FeatureGates cfg) (str "fs_events")) (a_rows a) (str "raw_tp/sys_enter (fs)"))
      (Z.of_nat (size (AllowedIPv4 (a_compiled a)))) (sn_allowlistSize (snapshot (a_defend a)))
      (WildcardRiskDomains (a_compiled a)) (UnresolvedDomains (a_compiled a)) (RunnerHasIPv6 cfg)
      (if decide (h_runnerEnv h = RunnerEnvStandard) then [] else h_runnerEnv h)
      (buildCoverageReport (a_rows a) tls (bool_decide (RIoUring ∈ l_R l)) (Defend (Config_ModeConfig cfg) && l_hasDefend l) 0) in
    (mkR (note (Startup m) l) a, Ret tt).

(** *** Cleanup *)

(** A counter of a collection: the map is unreadable once the collection is
    closed, and a map that was not loaded is nil. *)
Definition readSum (s : rstate) (o : obj) (name : bytes) : option MP :=
  if closedIn o (l_hist (r_life s)) then None
  else if bool_decide (o = ODefend) && negb (bool_decide (name ∈ a_names (r_data s))) then None
  else h_percpu h name.

(** The counters read before a collection is closed. *)
Definition snapshotOf (o : obj) (s : rstate) : data :=
  let sum n := readUint32PerCPUArraySum (readSum s o n) in
  let a := r_data s in
  match o with
  | ODefend =>
    let a := with_defend (fun ds => setDenyReserveFailures ds (sum (str "deny_reserve_failures"))) a in
    let a := with_stats (setEgressBackstopReserveFailures (sum (str "skb_backstop_reserve_failures"))) a in
    let a := with_stats (setBpfSelfDefenseReserveFailures (sum (str "bpf_self_defense_reserve_failures"))) a in
    let a := if l_hasLSM (r_life s) then with_defend (fun ds => setDenyReserveFailures ds (sum (str "lsm_deny_reserve_failures"))) a else a in
    let a := with_stats (setIPv6ConnectObserved (clampPerCPUSumToUint32 (sum (str "ipv6_connect_observed")))) a in
    let a := with_stats (setIPv6SendmsgObserved (clampPerCPUSumToUint32 (sum (str "ipv6_sendmsg_observed")))) a in
    with_stats (setSendpageObserved (clampPerCPUSumToUint32 (sum (str "sendpage_observed")))) a
  | OExec => with_stats (setExecRingbufReserveFailures (sum (str "exec_ringbuf_reserve_failures"))) a
  | OSyscall =>
    let a := with_stats (setConnect4TupleUpdateFailures (sum (str "connect4_tuple_update_failures"))) a in
    let a := with_stats (setUDPRingbufReserveFailures (sum (str "udp_ringbuf_reserve_failures"))) a in
    let a := with_stats (setConnectRingbufReserveFailures (sum (str "connect_ringbuf_reserve_failures"))) a in
    let a := with_stats (setHTTPRingbufReserveFailures (sum (str "http_ringbuf_reserve_failures"))) a in
    let a := with_stats (setTLSRingbufReserveFailures (sum (str "tls_ringbuf_reserve_failures"))) a in
    let a := with_stats (setUDPSendmsgMultiIovecObserved (sum (str "udp_sendmsg_multi_iovec_observed"))) a in
    let a := with_stats (setSendmmsgMultiMessage (sum (str "sendmmsg_multi_message_observed"))) a in
    let a := with_stats (setSendmmsgUnobservedExtra (sum (str "sendmmsg_unobserved_extra"))) a in
    let a := with_stats (setTLSWritevMultiIovecObserved (sum (str "tls_writev_multi_iovec_observed"))) a in
    let '(sendfile, splice, sendmmsg) := readPartialEgressCounts (readSum s o (str "partial_egress_observed")) in
    let a := with_stats (setPartialEgressObserved sendfile splice sendmmsg) a in
    let a := with_stats (setIoUringSetupObserved (sum (str "io_uring_setup_observed"))) a in
    let a := with_stats (setTCPStateRingbufReserveFailures (sum (str "tcp_state_ringbuf_reserve_failures"))) a in
    let a := with_stats (setIoUringRingbufReserveFailures (sum (str "io_uring_ringbuf_reserve_failures"))) a in
    let a := with_stats (setIoUringTLSRingbufReserveFailures (sum (str "io_uring_tls_ringbuf_reserve_failures"))) a in
    with_stats (setIoUringTLSHelloObserved (sum (str "io_uring_tls_hello_observed"))) a
  | ODns =>
    let a := with_stats (setDNSRingbufReserveFailures (sum (str "dns_ringbuf_reserve_failures"))) a in
    let a := with_stats (setTCPDNSResponsesObserved (sum (str "tcp_dns_responses_observed"))) a in
    with_stats (setTCPDNSSkippedShortRead (sum (str "tcp_dns_skipped_short_read"))) a
  | OFork => with_stats (setForkRingbufReserveFailures (sum (str "fork_ringbuf_reserve_failures"))) a
  | OFs => with_stats (setFSRingbufReserveFailures (sum (str "fs_ringbuf_reserve_failures"))) a
  | OKtls => with_stats (setKTLSRingbufReserveFailures (sum (str "ktls_ringbuf_reserve_failures"))) a
  | OIPv6 => with_stats (setIPv6RingbufReserveFailures (sum (str "ipv6_obs_ringbuf_reserve_failures"))) a
  | OAudit => with_stats (setBPFAuditRingbufReserveFailures (sum (str "bpf_audit_ringbuf_reserve_failures"))) a
  end.

Definition writeShutdownTelemetry (s : rstate) : event :=
  let a := r_data s in
  Shutdown (snapshotSummary (a_stats a) (h_kernelRelease h) (a_rows a))
    (if decide (EventsLogPath cfg = []) then None
     else if negb (h_buildMeta h) then None
     else Some (buildDroppedEventsMap (a_stats a) (Some (sn_denyReserveFailures (snapshot (a_defend a)))),
                buildCoverageReport (a_rows a) (FeatureGateEnabled (FeatureGates cfg) (str "tls_sni"))
                  (bool_decide (RIoUring ∈ l_R (r_life s))) (Defend (Config_ModeConfig cfg) && l_hasDefend (r_life s))
                  (quicObservedTotal (a_stats a)))).

(** [ringReader.Close] and the other statements. *)
Definition closeRd (r : rd) (l : life) : life :=
  if decide (r ∈ l_once l) then l
  else
    let l := withOnce r l in
    if decide (r ∈ l_R l) then note (Closed (Rdr r)) l else l.

Definition guarded (r : res) (s s' : rstate) : rstate := if decide (r ∈ l_ptr (r_life s)) then s' else s.

Definition do_act (a : act) (s : rstate) : rstate :=
  let closed r := mkR (note (Closed r) (r_life s)) (r_data s) in
  let snap o := mkR (note (Snapshot o) (r_life s)) (snapshotOf o s) in
  match a with
  | ACancelCompile | ACancelRun => s
  | ATelemetry => mkR (note (writeShutdownTelemetry s) (r_life s)) (r_data s)
  | ACloseRd r => mkR (closeRd r (r_life s)) (r_data s)
  | ACloseLnk l => closed (Lnk l)
  | ACloseLnkIf l => guarded (Lnk l) s (closed (Lnk l))
  | ACloseObj o => closed (Obj o)
  | ACloseObjIf o => guarded (Obj o) s (closed (Obj o))
  | ASnap o => snap o
  | ASnapIf o => guarded (Obj o) s (snap o)
  end.

Definition closeAllReaders : list act := map ACloseRd allReaders.

(** *** Readers and monitors *)

Definition when {A} (b : bool) (x : A) : list A := if b then [x] else [].

(** The goroutines in the order in which they are started. *)
Definition spawnReaders (s : rstate) : list goroutine :=
  let active r := bool_decide (r ∈ l_R (r_life s)) in
  let syscall := bool_decide (Obj OSyscall ∈ l_ptr (r_life s)) in
  [GReader RExec] ++ when (active RFork) (GReader RFork) ++ when (active RFs) (GReader RFs) ++ when (active RConn) (GReader RConn) ++
  when syscall GCanary ++ when (negb (bool_decide (Domains (a_compiled (r_data s)) = []))) GDrift ++ when syscall GHeartbeat ++
  when (active RUdp) (GReader RUdp) ++ when (active RHttp) (GReader RHttp) ++ when (active RTls) (GReader RTls) ++
  when (active RTcpState) (GReader RTcpState) ++ when (active RIoUring) (GReader RIoUring) ++ when (active RIoUringTLS) (GReader RIoUringTLS) ++
  when (active RDeny) (GReader RDeny) ++ when (active REgressBackstop) (GReader REgressBackstop) ++ when (active RLsmDeny) (GReader RLsmDeny) ++
  when (active RSelfDefense) (GReader RSelfDefense) ++ when (active RDns) (GReader RDns) ++ when (active RBpfAudit) (GReader RBpfAudit) ++
  when (active RKtls) (GReader RKtls) ++ when (active RIPv6Obs) (GReader RIPv6Obs) ++
  when (l_hasDefend (r_life s)) (GWatch false) ++ when (l_hasLSM (r_life s)) (GWatch true).

(** The monitors that do not report through [sendReaderErr]. *)
Definition sendsResult (g : goroutine) : bool :=
  match g with GReader _ | GWatch _ => true | GCanary | GDrift | GHeartbeat => false end.

Definition countReaders (s : rstate) : Z :=
  let active r := bool_decide (r ∈ l_R (r_life s)) in
  1 + len (filter (fun b : bool => b = true)
    [active RFork; active RFs; active RConn; active RUdp; active RHttp; active RTls; active RTcpState; active RIoUring; active RIoUringTLS;
     active RDeny; active REgressBackstop; active RLsmDeny; active RSelfDefense; active RDns; active RBpfAudit; active RKtls; active RIPv6Obs;
     l_hasDefend (r_life s); l_hasLSM (r_life s)]).

(** ** agent_linux.go *)

Definition orElse (m k : run (option run_err)) : run (option run_err) :=
  e ← m; match e with Some e => mret (Some e) | None => k end.

Definition detectReady : run (option run_err) :=
  if DeferReadiness (Config_ModeConfig cfg) then mret None
  else e ← writeAgentStatus cfg true; mret (ErrReadyStatus <$> e).

(** The best-effort phases, the startup record and the cancel of the readers'
    context. *)
Definition loadOptional : run (option run_err) :=
  _ ← loadDNS; _ ← loadFork; _ ← loadFS; _ ← loadKTLS; _ ← loadIPv6Obs; _ ← loadBPFAudit;
  _ ← writeStartupMeta;
  _ ← push [ACancelRun];
  mret None.

(** The readers run and end: what they leave in the counters and what they
    return, in the order of the channel, are answers of the host. *)
Definition serve : run (option run_err) :=
  _ ← (fun s => (mkR (note (Spawned (spawnReaders s)) (r_life s)) (r_data s), Ret tt));
  readyErr ← (if DeferReadiness (Config_ModeConfig cfg) then e ← writeAgentStatus cfg true; mret (ErrReadyStatus <$> e) else mret None);
  _ ← onData (fun a => let '(st, ds) := h_running h (a_stats a, a_defend a) in with_defend (fun _ => ds) (with_stats (fun _ => st) a));
  let retErr := foldl preferRunError None (h_results h) in
  mret (match readyErr with Some _ => preferRunError readyErr retErr | None => retErr end).

Definition compile : run (option run_err) :=
  match compileDefendAllowlist (H0 := h_resolver h) cfg 2 with
  | Err e => mret (Some (ErrCompile e))
  | Ok c => _ ← onData (with_compiled c); mret None
  end.

Definition runBody : run (option run_err) :=
  _ ← push [ATelemetry];
  _ ← push [ACancelCompile];
  orElse compile (
  _ ← finalizeAllowlist;
  _ ← push closeAllReaders;
  orElse loadDefend (orElse loadExec (orElse armSyscall (orElse detectReady (orElse loadOptional serve))))).
End Phases.

Definition initialRows : list BPFStatus :=
  [row (str "sched_process_exec") false (str "not loaded"); row syscallHook false (str "not loaded");
   row (str "dns recvfrom sniff") false (str "not loaded"); mkBPFStatus (str "btf") true [] true; row kprobeHook false (str "not loaded")].

Definition initial : rstate :=
  mkR (mkLife [] [] [] [] false false [])
    (mkData initialRows (setRunnerEnv (h_runnerEnv h) newRunStats) newDefendState emptyCompile ∅ ∅ (freshMaps ∅) [] false []).

(** [Run] up to its return: the state in which the cleanup stack is unwound,
    and the error; [None] when the stack was not set up. *)
Definition Run (cfg : Config) : option (rstate * Policy) * go (option run_err) :=
  match Config_Policy cfg with
  | Err e => (None, Ret (Some (ErrPolicy e)))
  | Ok pol =>
    match h_signer h with
    | Some e => (None, Ret (Some (ErrSetupSigner e)))
    | None =>
      match h_memlock h with
      | Some e => (None, Ret (Some (ErrInitMemlock e)))
      | None => let '(s, r) := runBody cfg (Some pol) initial in (Some (s, pol), r)
      end
    end
  end.

(** The statements of the cleanup stack in the order of [unwind]. *)
Definition plan (s : rstate) : list act := concat (l_cleanup (r_life s)).

Definition unwind (cfg : Config) (s : rstate) : rstate := foldl (fun s a => do_act cfg a s) s (plan s).

(** Once the readers were started, their shutdown goroutine closes them on its
    own; its statements interleave with the unwinding. *)
Definition spawned (s : rstate) : bool :=
  existsb (fun e => match e with Spawned _ => true | _ => false end) (l_hist (r_life s)).

Inductive ustep (cfg : Config) : rstate * list act * list act -> rstate * list act * list act -> Prop :=
  | ustep_main s a m g : ustep cfg (s, a :: m, g) (do_act cfg a s, m, g)
  | ustep_goroutine s m a g : ustep cfg (s, m, a :: g) (do_act cfg a s, m, g).

Definition shutdown (s : rstate) : rstate * list act * list act := (s, plan s, if spawned s then closeAllReaders else []).

(** [Main]: a cancelled run is a success. *)
Definition mainResult (e : option run_err) : option run_err :=
  match e with Some e => if isCanceled e then None else Some e | None => None end.
End Run.
