(* ===== verification/LifecycleSafe.v ===== *)
(** What a run of the agent owns: nothing is leaked, nothing is closed twice, and
    the order of closing is the documented one, on every path of [Run] and in
    every interleaving of its unwinding.

    A phase changes the owning part of the state by a sequence of operations
    ([op]).  [eff m Q] says that every execution of [m] performs a sequence of
    which [Q] holds, whatever the data and the host are; the rules for [eff]
    follow the primitives of the monad.  [seg] is the condition on the
    operations of one phase, checked by computation on each of its paths, and
    [good] the condition on those of a whole run, which phases extend. *)
From S2P Require Import Prelude GoStrings GoNet GoPath Policy BpfMap Allowlist DnsCache Decode DefendMaps Telemetry Config Defend RunStats Loader Lifecycle.

Open Scope Z_scope.

(** * Operations *)

Inductive op :=
  | OOpen (r : res) | OClose (r : res) | OPush (f : list act) | OSetR (r : rd) | OSetPtr (r : res) | ONilPtr (r : res)
  | ODefendOn | OLSMOn | ONote (e : event).

Definition apply_op (l : life) (o : op) : life :=
  match o with
  | OOpen r => note (Opened r) l
  | OClose r => note (Closed r) l
  | OPush f => pushed f l
  | OSetR r => withR r l
  | OSetPtr r => withPtr r l
  | ONilPtr r => nilPtr r l
  | ODefendOn => withDefend l
  | OLSMOn => withLSM l
  | ONote e => note e l
  end.

Definition applied (l : life) (d : list op) : life := foldl apply_op l d.

(** What a sequence opens; what it closes or registers for closing. *)
Definition act_res (a : act) : list res :=
  match a with
  | ACloseLnk l | ACloseLnkIf l => [Lnk l]
  | ACloseObj o | ACloseObjIf o => [Obj o]
  | _ => []
  end.

Definition op_open (o : op) : list res := match o with OOpen r => [r] | _ => [] end.
Definition op_gone (o : op) : list res :=
  match o with OClose r => [r] | OPush f => f ≫= act_res | OSetR r => [Rdr r] | _ => [] end.
Definition opened (d : list op) : list res := d ≫= op_open.
Definition gone (d : list op) : list res := d ≫= op_gone.

(** The cleanup statements, newest function first; the guards on them, and the
    pointers that are set. *)
Definition op_plan (o : op) : list act := match o with OPush f => f | _ => [] end.
Fixpoint planned (d : list op) : list act := match d with [] => [] | o :: d' => planned d' ++ op_plan o end.

Definition act_guard (a : act) : list res :=
  match a with ACloseLnkIf l => [Lnk l] | ACloseObjIf o | ASnapIf o => [Obj o] | _ => [] end.

Definition op_ptr (p : list res) (o : op) : list res :=
  match o with OSetPtr r => r :: p | ONilPtr r => filter (.≠ r) p | _ => p end.
Definition ptrs (p : list res) (d : list op) : list res := foldl op_ptr p d.

(** What is seen of links and collections: the closing of a link or collection
    and the reading of a collection's counters. *)
Definition act_event (a : act) : list event :=
  match a with
  | ACloseLnk l | ACloseLnkIf l => [Closed (Lnk l)]
  | ACloseObj o | ACloseObjIf o => [Closed (Obj o)]
  | ASnap o | ASnapIf o => [Snapshot o]
  | _ => []
  end.
Definition visible (e : event) : bool := match e with Closed (Rdr _) => false | Closed _ | Snapshot _ => true | _ => false end.
Definition op_event (o : op) : list event := match o with OClose (Rdr _) => [] | OClose r => [Closed r] | _ => [] end.
Definition direct (d : list op) : list event := d ≫= op_event.
Definition story (d : list op) : list event := direct d ++ (planned d ≫= act_event).

(** The collection that a link was attached from. *)
Definition collection_of (l : lnk) : obj :=
  match l with
  | LLsmConnect | LLsmSendmsg | LLsmSendpage | LSelfDefense | LIoUringCmd | LConnect4 | LSendmsg4 | LTcx _ | LConnect6 | LSendmsg6 => ODefend
  | LExec => OExec
  | LSyscall | LTcpState | LIoUring | LKprobe | LKretprobe => OSyscall
  | LDnsEnter | LDnsExit => ODns
  | LFork => OFork
  | LFs => OFs
  | LKtls => OKtls
  | LObsConnect | LObsSendmsg => OIPv6
  | LAudit => OAudit
  end.

(** The collection that must still be open when a link is closed.  The pair of
    connect probes is left out: it is closed after its collection. *)
Definition home (l : lnk) : option obj :=
  match l with LKprobe | LKretprobe => None | _ => Some (collection_of l) end.

(** [may_follow e e']: nothing of a collection follows its closing. *)
Definition may_follow (e e' : event) : bool :=
  match e with
  | Closed (Obj o) =>
    match e' with
    | Closed (Lnk l) => negb (bool_decide (home l = Some o))
    | Snapshot o' => negb (bool_decide (o' = o))
    | _ => true
    end
  | _ => true
  end.

Fixpoint tidy (k : list event) : bool :=
  match k with [] => true | e :: k' => forallb (may_follow e) k' && tidy k' end.

Lemma tidy_app a b : tidy (a ++ b) = tidy a && tidy b && forallb (fun x => forallb (may_follow x) b) a.
Proof.
  induction a as [|e a IH]; cbn [app tidy forallb]; [by rewrite andb_true_r|]. rewrite IH, forallb_app.
  by destruct (forallb (may_follow e) a), (forallb (may_follow e) b), (tidy a), (tidy b), (forallb _ a).
Qed.

Definition cnt (r : res) (l : list res) : nat := length (filter (.= r) l).

Lemma cnt_app r a b : cnt r (a ++ b) = (cnt r a + cnt r b)%nat.
Proof. unfold cnt. by rewrite filter_app, length_app. Qed.

Lemma cnt_elem r l : r ∈ l <-> (0 < cnt r l)%nat.
Proof.
  unfold cnt. induction l as [|x l IH]; [split; [by intros ?%elem_of_nil|cbn; lia]|]. rewrite elem_of_cons, IH, filter_cons.
  case_decide; cbn [length]; [split; [lia|auto]|]. split; [intros [->|?]; [done|done]|auto].
Qed.

Lemma cnt_absent r l : r ∉ l -> cnt r l = 0%nat.
Proof. rewrite cnt_elem. lia. Qed.

Lemma cnt_single r x : cnt r [x] = if decide (r = x) then 1%nat else 0%nat.
Proof. unfold cnt. rewrite filter_cons. destruct (decide (x = r)), (decide (r = x)); cbn; congruence. Qed.

(** * Effects *)

Section Effects.
Context `{UnicodeCase} `{!RangeOrder bytes} {M MC MO MS MP : Type}.
Context `{!BpfMapOps bytes Z M} `{!BpfMapOps Z Z MC} `{!BpfMapOps bytes bytes MO} `{!BpfMapOps Z (Z * Z) MS} `{!BpfMapOps Z (list Z) MP}.
Abbreviation run := (@run M MC MO MS).

(** The five rows that are set by index are always there. *)
Definition rows_ok (a : @data M MC MO MS) : Prop := (5 <= length (a_rows a))%nat.

Definition eff {A} (m : run A) (Q : list op -> go A -> Prop) : Prop :=
  forall s, rows_ok (r_data s) -> rows_ok (r_data (m s).1) /\ exists d, r_life (m s).1 = applied (r_life s) d /\ Q d (m s).2.

Lemma eff_weaken {A} (m : run A) Q Q' : eff m Q -> (forall d r, Q d r -> Q' d r) -> eff m Q'.
Proof. intros Hm HQ s Hs. destruct (Hm s Hs) as (? & d & ? & ?). eauto. Qed.

Lemma eff_ret {A} (a : A) Q : Q [] (Ret a) -> eff (mret a) Q.
Proof. intros HQ s Hs. split; [done|by exists []]. Qed.

Lemma eff_bind {A B} (m : run A) (f : A -> run B) Q :
  eff m (fun d r => match r with Ret a => eff (f a) (fun d' r' => Q (d ++ d') r') | Panic => Q d Panic end) -> eff (mbind f m) Q.
Proof.
  intros Hm s Hs. unfold mbind, run_bind. destruct (Hm s Hs) as (Hs1 & d & Hl & HQ). destruct (m s) as [s1 [a|]]; cbn [fst snd] in *; [|split; [done|by exists d]].
  destruct (HQ s1 Hs1) as (Hs2 & d' & Hl' & HQ'). split; [done|]. exists (d ++ d'). split; [|done]. unfold applied in *. by rewrite Hl', foldl_app, Hl.
Qed.

Lemma eff_onData f Q : (forall a, a_rows (f a) = a_rows a) -> Q [] (Ret tt) -> eff (onData f : run unit) Q.
Proof. intros Hf HQ s Hs. split; [unfold rows_ok; cbn; by rewrite Hf|by exists []]. Qed.
Lemma eff_gets {A} (f : data -> A) Q : (forall a, Q [] (Ret a)) -> eff (gets f : run A) Q.
Proof. intros HQ s Hs. split; [done|]. exists []. split; [done|apply HQ]. Qed.
Lemma eff_getl {A} (f : life -> A) Q : (forall a, Q [] (Ret a)) -> eff (getl f : run A) Q.
Proof. intros HQ s Hs. split; [done|]. exists []. split; [done|apply HQ]. Qed.
Lemma eff_lift {A} (g : go A) Q : (forall r, Q [] r) -> eff (lift g : run A) Q.
Proof. intros HQ s Hs. split; [done|]. exists []. split; [done|apply HQ]. Qed.

Lemma eff_op (o : op) Q : Q [o] (Ret tt) -> eff (onLife (fun l => apply_op l o) : run unit) Q.
Proof. intros HQ s Hs. split; [done|by exists [o]]. Qed.
Lemma eff_push f Q : Q [OPush f] (Ret tt) -> eff (push f : run unit) Q.
Proof. apply (eff_op (OPush f)). Qed.
Lemma eff_closeRes r Q : Q [OClose r] (Ret tt) -> eff (closeRes r : run unit) Q.
Proof. apply (eff_op (OClose r)). Qed.
Lemma eff_setR r Q : Q [OSetR r] (Ret tt) -> eff (setR r : run unit) Q.
Proof. apply (eff_op (OSetR r)). Qed.
Lemma eff_setPtr r Q : Q [OSetPtr r] (Ret tt) -> eff (setPtr r : run unit) Q.
Proof. apply (eff_op (OSetPtr r)). Qed.
Lemma eff_clearPtr r Q : Q [ONilPtr r] (Ret tt) -> eff (clearPtr r : run unit) Q.
Proof. apply (eff_op (ONilPtr r)). Qed.

Lemma eff_opening ans r Q : (forall e, Q [] (Ret (Some e))) -> Q [OOpen r] (Ret None) -> eff (opening ans r : run _) Q.
Proof. intros H1 H2. unfold opening. destruct ans; [by apply eff_ret|]. intros s Hs. split; [done|by exists [OOpen r]]. Qed.

Lemma eff_addRow n b dt Q : Q [] (Ret tt) -> eff (addRow n b dt : run unit) Q.
Proof. intros HQ s Hs. split; [|by exists []]. unfold rows_ok in *. cbn. rewrite length_app. lia. Qed.
Lemma eff_setRow i n b dt Q : (i < 5)%nat -> Q [] (Ret tt) -> eff (setRow i n b dt : run unit) Q.
Proof.
  intros Hi HQ s Hs. unfold setRow. unfold rows_ok in Hs. destruct (Nat.ltb_spec i (length (a_rows (r_data s)))); [|lia].
  split; [unfold rows_ok; cbn; by rewrite length_insert|by exists []].
Qed.

Context (h : @host M MC MO MS MP).

Lemma eff_writeAgentStatus cfg b Q : (forall e, Q [] (Ret e)) -> Q [ONote (Status b)] (Ret None) -> eff (writeAgentStatus h cfg b : run _) Q.
Proof. intros H1 H2. unfold writeAgentStatus. case_decide; [by apply eff_ret|]. destruct (h_status h b); [by apply eff_ret|]. intros s Hs. split; [done|by exists [ONote (Status b)]]. Qed.

Lemma eff_trackDefendLink l Q : Q [OPush [ACloseLnk l]] (Ret tt) -> eff (trackDefendLink h l : run unit) Q.
Proof.
  intros HQ. unfold trackDefendLink. apply eff_bind, eff_push. destruct (h_linkID h l); [by apply eff_onData|by apply eff_ret].
Qed.
End Effects.

(** The rules, applied to the head of a program; matches on answers and tests
    split. *)
Ltac eff_step :=
  lazymatch goal with
  | |- eff (mbind _ _) _ => apply eff_bind
  | |- eff (mret _) _ => apply eff_ret
  | |- eff (onData _) _ => apply eff_onData; [done|]
  | |- eff (gets _) _ => apply eff_gets; intros ?
  | |- eff (getl _) _ => apply eff_getl; intros ?
  | |- eff (lift _) _ => apply eff_lift; intros [?|]
  | |- eff (push _) _ => apply eff_push
  | |- eff (closeRes _) _ => apply eff_closeRes
  | |- eff (setR _) _ => apply eff_setR
  | |- eff (setPtr _) _ => apply eff_setPtr
  | |- eff (clearPtr _) _ => apply eff_clearPtr
  | |- eff (onLife withLSM) _ => apply (eff_op OLSMOn)
  | |- eff (onLife withDefend) _ => apply (eff_op ODefendOn)
  | |- eff (onLife (note (Opened ?r))) _ => apply (eff_op (OOpen r))
  | |- eff (attach _ _) _ => apply eff_opening; [intros ?|]
  | |- eff (loadObjects _ _) _ => apply eff_opening; [intros ?|]
  | |- eff (newReader _ _) _ => apply eff_opening; [intros ?|]
  | |- eff (addRow _ _ _) _ => apply eff_addRow
  | |- eff (setRow _ _ _ _) _ => apply eff_setRow; [lia|]
  | |- eff (writeAgentStatus _ _ _) _ => apply eff_writeAgentStatus; [intros ?|]
  | |- eff (trackDefendLink _ _) _ => apply eff_trackDefendLink
  | |- eff (if ?b then _ else _) _ => destruct b
  | |- eff (match ?x with _ => _ end) _ => destruct x
  end; cbn beta iota.

(** * The operations of one phase *)

Definition phase (r : res) : nat :=
  match r with
  | Obj ODefend => 0
  | Rdr (RLsmDeny | RSelfDefense) | Lnk (LLsmConnect | LLsmSendmsg | LLsmSendpage | LSelfDefense | LIoUringCmd) => 1
  | Rdr RDeny | Lnk (LConnect4 | LSendmsg4) => 2
  | Rdr REgressBackstop | Lnk (LTcx _) => 3
  | Lnk (LConnect6 | LSendmsg6) => 4
  | Obj OExec | Lnk LExec | Rdr RExec => 5
  | Obj OSyscall | Lnk (LSyscall | LKprobe | LKretprobe | LTcpState | LIoUring)
  | Rdr (RConn | RUdp | RHttp | RTls | RTcpState | RIoUring | RIoUringTLS) => 6
  | Obj ODns | Lnk (LDnsEnter | LDnsExit) | Rdr RDns => 7
  | Obj OFork | Lnk LFork | Rdr RFork => 8
  | Obj OFs | Lnk LFs | Rdr RFs => 9
  | Obj OKtls | Lnk LKtls | Rdr RKtls => 10
  | Obj OIPv6 | Lnk (LObsConnect | LObsSendmsg) | Rdr RIPv6Obs => 11
  | Obj OAudit | Lnk LAudit | Rdr RBpfAudit => 12
  end%nat.

Definition snaps (k : list event) : list obj := k ≫= fun e => match e with Snapshot o => [o] | _ => [] end.
Definition closings (k : list event) : list obj := k ≫= fun e => match e with Closed (Obj o) => [o] | _ => [] end.
Definition op_nil (o : op) : list res := match o with ONilPtr r => [r] | _ => [] end.
Definition quiet_event (e : event) : bool := match e with Status _ | Startup _ | Spawned _ => true | _ => false end.
Definition op_quiet (o : op) : bool :=
  match o with
  | ONote e => quiet_event e
  | OPush f => forallb (fun a => match a with ATelemetry => false | _ => true end) f
  | _ => true
  end.

(** Everything opened in phase [k] is closed or registered, once; what is seen
    is in order; a collection whose closing is registered has its counters read;
    every guarded statement finds its pointer; the telemetry is not written. *)
Record seg (k : nat) (d : list op) : Prop := {
  sg_phase : Forall (fun r => phase r = k) (opened d);
  sg_bal : forall r, cnt r (opened d) = cnt r (gone d) /\ (cnt r (opened d) <= 1)%nat;
  sg_tidy : tidy (story d) = true;
  sg_home : forall l o, Lnk l ∈ opened d -> home l = Some o -> Obj o ∈ opened d \/ o = ODefend;
  sg_snap : forall o, o ∈ snaps (story d) -> Obj o ∈ opened d;
  sg_read : forall o, o ∈ closings (planned d ≫= act_event) -> o ∈ snaps (planned d ≫= act_event);
  sg_guard : Forall (fun r => r ∈ ptrs [] d /\ phase r = k) (planned d ≫= act_guard);
  sg_nil : Forall (fun r => phase r = k) (d ≫= op_nil);
  sg_quiet : forallb op_quiet d = true }.

Definition segb (k : nat) (d : list op) : bool :=
  forallb (fun r => bool_decide (phase r = k)) (opened d) &&
  forallb (fun r => bool_decide (cnt r (opened d) = cnt r (gone d)) && bool_decide (cnt r (opened d) <= 1)%nat) (opened d ++ gone d) &&
  tidy (story d) &&
  forallb (fun r => match r with
                    | Lnk l => match home l with Some o => bool_decide (Obj o ∈ opened d) || bool_decide (o = ODefend) | None => true end
                    | _ => true
                    end) (opened d) &&
  forallb (fun o => bool_decide (Obj o ∈ opened d)) (snaps (story d)) &&
  forallb (fun o => bool_decide (o ∈ snaps (planned d ≫= act_event))) (closings (planned d ≫= act_event)) &&
  forallb (fun r => bool_decide (r ∈ ptrs [] d) && bool_decide (phase r = k)) (planned d ≫= act_guard) &&
  forallb (fun r => bool_decide (phase r = k)) (d ≫= op_nil) &&
  forallb op_quiet d.

Lemma forallb_elem {A} (f : A -> bool) l x : forallb f l = true -> x ∈ l -> f x = true.
Proof. rewrite forallb_forall. intros Hf Hx. by apply Hf, list_elem_of_In. Qed.

Lemma segb_seg k d : segb k d = true -> seg k d.
Proof.
  unfold segb. rewrite !andb_true_iff. intros [[[[[[[[H1 H2] H3] H4] H5] H6] H7] H8] H9].
  split; try done.
  - apply Forall_forall. intros r Hr. pose proof (forallb_elem _ _ _ H1 Hr) as Hb. by apply bool_decide_eq_true in Hb.
  - intros r. destruct (decide (r ∈ opened d ++ gone d)) as [Hr|Hr].
    + pose proof (forallb_elem _ _ _ H2 Hr) as Hb. rewrite andb_true_iff, !bool_decide_eq_true in Hb. done.
    + rewrite elem_of_app in Hr. rewrite !cnt_absent by tauto. lia.
  - intros l o Hl Ho. pose proof (forallb_elem _ _ _ H4 Hl) as Hb. cbn in Hb. rewrite Ho, orb_true_iff, !bool_decide_eq_true in Hb. done.
  - intros o Hr. pose proof (forallb_elem _ _ _ H5 Hr) as Hb. by apply bool_decide_eq_true in Hb.
  - intros o Hr. pose proof (forallb_elem _ _ _ H6 Hr) as Hb. by apply bool_decide_eq_true in Hb.
  - apply Forall_forall. intros r Hr. pose proof (forallb_elem _ _ _ H7 Hr) as Hb. rewrite andb_true_iff, !bool_decide_eq_true in Hb. done.
  - apply Forall_forall. intros r Hr. pose proof (forallb_elem _ _ _ H8 Hr) as Hb. by apply bool_decide_eq_true in Hb.
Qed.

(** Run a phase through the rules and check each of its paths. *)
Ltac by_paths := repeat eff_step; apply segb_seg; vm_compute; reflexivity.

(** * The operations of a run *)

Lemma opened_app a b : opened (a ++ b) = opened a ++ opened b.
Proof. apply bind_app. Qed.
Lemma gone_app a b : gone (a ++ b) = gone a ++ gone b.
Proof. apply bind_app. Qed.
Lemma direct_app a b : direct (a ++ b) = direct a ++ direct b.
Proof. apply bind_app. Qed.
Lemma planned_app a b : planned (a ++ b) = planned b ++ planned a.
Proof. induction a as [|o a IH]; cbn [app planned]; [by rewrite app_nil_r|]. by rewrite IH, app_assoc. Qed.
Lemma snaps_app a b : snaps (a ++ b) = snaps a ++ snaps b.
Proof. apply bind_app. Qed.
Lemma closings_app a b : closings (a ++ b) = closings a ++ closings b.
Proof. apply bind_app. Qed.

Definition op_close (o : op) : list res := match o with OClose r => [r] | _ => [] end.
Definition op_setR (o : op) : list res := match o with OSetR r => [Rdr r] | _ => [] end.

(** What is gone was closed on the way, is registered on the stack, or is a
    reader that was stored. *)
Lemma cnt_gone r d : cnt r (gone d) = (cnt r (d ≫= op_close) + cnt r (planned d ≫= act_res) + cnt r (d ≫= op_setR))%nat.
Proof.
  induction d as [|o d IH]; [done|]. unfold gone in *. cbn [mbind list_bind planned]. rewrite bind_app, !cnt_app, IH.
  destruct o; cbn [op_gone op_close op_setR op_plan mbind list_bind app]; change (cnt r []) with 0%nat; lia.
Qed.

Lemma direct_closed r d : Closed r ∈ direct d -> r ∈ d ≫= op_close.
Proof.
  unfold direct. rewrite !list_elem_of_bind. intros (o & Hin & Ho). exists o. split; [|done].
  destruct o as [|[]| | | | | | | ]; cbn in Hin |- *; try (by apply elem_of_nil in Hin); apply list_elem_of_singleton in Hin as [= ->]; by left.
Qed.

Lemma planned_closed r p : Closed r ∈ p ≫= act_event -> r ∈ p ≫= act_res.
Proof.
  rewrite !list_elem_of_bind. intros (a & Hin & Ha). exists a. split; [|done].
  destruct a; cbn in Hin |- *; try (by apply elem_of_nil in Hin); apply list_elem_of_singleton in Hin; by simplify_eq; left.
Qed.

Lemma story_gone r d : Closed r ∈ story d -> r ∈ gone d.
Proof.
  unfold story. rewrite elem_of_app, !cnt_elem, cnt_gone. intros [Hr|Hr].
  - apply direct_closed, cnt_elem in Hr. lia.
  - apply planned_closed, cnt_elem in Hr. lia.
Qed.

Lemma elem_snaps o k : o ∈ snaps k <-> Snapshot o ∈ k.
Proof.
  unfold snaps. rewrite list_elem_of_bind. split.
  - intros (e & Hin & He). destruct e; try (by apply elem_of_nil in Hin). apply list_elem_of_singleton in Hin as ->. done.
  - intros He. exists (Snapshot o). split; [by left|done].
Qed.

Lemma elem_closings o k : o ∈ closings k <-> Closed (Obj o) ∈ k.
Proof.
  unfold closings. rewrite list_elem_of_bind. split.
  - intros (e & Hin & He). destruct e as [|[]| | | | | ]; try (by apply elem_of_nil in Hin). apply list_elem_of_singleton in Hin as ->. done.
  - intros He. exists (Closed (Obj o)). split; [by left|done].
Qed.

(** Pointers: later phases keep them, and a larger start gives more. *)
Lemma ptrs_keep r p d : r ∈ p -> r ∉ d ≫= op_nil -> r ∈ ptrs p d.
Proof.
  unfold ptrs. revert p. induction d as [|o d IH]; intros p Hp Hn; [done|]. cbn [foldl]. cbn [mbind list_bind] in Hn. rewrite elem_of_app in Hn.
  apply IH; [|tauto]. destruct o; cbn [op_ptr]; try done; [by right|]. apply list_elem_of_filter. split; [|done]. intros ->. apply Hn. left. by left.
Qed.

Lemma ptrs_mono p q d : (forall r, r ∈ p -> r ∈ q) -> forall r, r ∈ ptrs p d -> r ∈ ptrs q d.
Proof.
  unfold ptrs. revert p q. induction d as [|o d IH]; intros p q Hpq r; cbn [foldl]; [apply Hpq|]. apply IH. intros x.
  destruct o; cbn [op_ptr]; try apply Hpq; [rewrite !elem_of_cons; naive_solver|rewrite !list_elem_of_filter; naive_solver].
Qed.

(** The state of the books after the phases below [k]. *)
Record good (k : nat) (D : list op) : Prop := {
  gd_phase : Forall (fun r => phase r < k)%nat (opened D);
  gd_bal : forall r, cnt r (opened D) = cnt r (gone D) /\ (cnt r (opened D) <= 1)%nat;
  gd_tidy : tidy (story D) = true;
  gd_home : forall l o, Lnk l ∈ opened D -> home l = Some o -> Obj o ∈ opened D;
  gd_snap : forall o, o ∈ snaps (story D) -> Obj o ∈ opened D;
  gd_read : forall o, o ∈ closings (planned D ≫= act_event) -> o ∈ snaps (planned D ≫= act_event);
  gd_guard : Forall (fun r => r ∈ ptrs [] D /\ phase r < k)%nat (planned D ≫= act_guard);
  gd_quiet : forallb op_quiet D = true }.

Definition pending (o : obj) (D : list op) : Prop := Obj o ∈ planned D ≫= act_res.

Lemma pending_app o D d : pending o D -> pending o (D ++ d).
Proof. unfold pending. rewrite planned_app, bind_app, elem_of_app. auto. Qed.

Lemma good_mono k k' D : good k D -> (k <= k')%nat -> good k' D.
Proof.
  intros [H1 H2 H3 H4 H5 H6 H7 H8] Hk. split; try done; (eapply Forall_impl; [eassumption|]); cbn.
  - lia.
  - intros r [? ?]. split; [done|lia].
Qed.

Section Step.
Context (k : nat) (D d : list op) (HD : good k D) (Hd : seg k d).
Context (Hh : forall l, Lnk l ∈ opened d -> home l = Some ODefend -> Obj ODefend ∈ opened d \/ pending ODefend D).

Lemma step_fresh r : r ∈ opened d -> r ∉ opened D.
Proof.
  intros H1 H2. pose proof (proj1 (Forall_forall _ _) (sg_phase _ _ Hd) _ H1). pose proof (proj1 (Forall_forall _ _) (gd_phase _ _ HD) _ H2). cbn in *. lia.
Qed.

Lemma gone_opened r : r ∈ gone d -> r ∈ opened d.
Proof. rewrite !cnt_elem. by rewrite (proj1 (sg_bal _ _ Hd r)). Qed.
Lemma gone_opened_run r : r ∈ gone D -> r ∈ opened D.
Proof. rewrite !cnt_elem. by rewrite (proj1 (gd_bal _ _ HD r)). Qed.

(** What the phase shows may follow what was closed before it ... *)
Lemma step_before x y : x ∈ direct D -> y ∈ story d -> may_follow x y = true.
Proof.
  intros Hx Hy. destruct x as [|[o| | ]| | | | | ]; try done. pose proof (direct_closed _ _ Hx) as Hc.
  assert (Obj o ∈ opened D) as Ho by (apply gone_opened_run; rewrite cnt_elem, cnt_gone; apply cnt_elem in Hc; lia).
  destruct y as [|[|l|]|o'| | | | ]; try done; cbn; apply negb_true_iff, bool_decide_eq_false.
  - intros Hl. assert (Lnk l ∈ opened d) as Hin by (by apply gone_opened, story_gone).
    destruct (sg_home _ _ Hd _ _ Hin Hl) as [Hod | ->]; [by apply (step_fresh _ Hod)|].
    destruct (Hh _ Hin Hl) as [Hod|Hp]; [by apply (step_fresh _ Hod)|]. unfold pending in Hp.
    apply cnt_elem in Hc, Hp. destruct (gd_bal _ _ HD (Obj ODefend)) as [E Hle]. rewrite cnt_gone in E. lia.
  - intros ->. apply (step_fresh (Obj o)); [|done]. by apply (sg_snap _ _ Hd), elem_snaps.
Qed.

(** ... and what is registered before it may follow what it closes. *)
Lemma step_after x y : x ∈ story d -> y ∈ planned D ≫= act_event -> may_follow x y = true.
Proof.
  intros Hx Hy. destruct x as [|[o| | ]| | | | | ]; try done. apply story_gone, gone_opened in Hx.
  destruct y as [|[|l|]|o'| | | | ]; try done; cbn; apply negb_true_iff, bool_decide_eq_false.
  - intros Hl. apply (step_fresh _ Hx), (gd_home _ _ HD l); [|done]. apply gone_opened_run, story_gone. unfold story. apply elem_of_app. by right.
  - intros ->. apply (step_fresh _ Hx), (gd_snap _ _ HD), elem_snaps. unfold story. apply elem_of_app. by right.
Qed.

Lemma forallb_elem_2 {A} (f : A -> bool) l : (forall x, x ∈ l -> f x = true) -> forallb f l = true.
Proof. intros Hf. apply forallb_forall. intros x Hx. by apply Hf, list_elem_of_In. Qed.

Lemma good_step : good (S k) (D ++ d).
Proof.
  split.
  - rewrite opened_app. apply Forall_app. split; (eapply Forall_impl; [first [apply (gd_phase _ _ HD)|apply (sg_phase _ _ Hd)]|]); cbn; lia.
  - intros r. rewrite opened_app, gone_app, !cnt_app. destruct (gd_bal _ _ HD r) as [-> ?], (sg_bal _ _ Hd r) as [E ?]. rewrite E. split; [done|].
    destruct (decide (r ∈ opened d)) as [Hr|Hr]; [|apply cnt_absent in Hr; lia].
    pose proof (cnt_absent _ _ (step_fresh _ Hr)). destruct (gd_bal _ _ HD r). lia.
  - unfold story. rewrite direct_app, planned_app, bind_app, <- app_assoc, (app_assoc (direct d)). fold (story d).
    pose proof (gd_tidy _ _ HD) as Ht. unfold story in Ht. rewrite tidy_app, !andb_true_iff in Ht. destruct Ht as [[Ta Tb] Tc].
    rewrite !tidy_app, !andb_true_iff. split_and!; try done; [apply Hd| |]; apply forallb_elem_2.
    + intros x Hx. apply forallb_elem_2. intros y Hy. by apply step_after.
    + intros x Hx. rewrite forallb_app. apply andb_true_iff. split; [apply forallb_elem_2; intros y Hy; by apply step_before|].
      by apply (forallb_elem _ _ _ Tc).
  - intros l o. rewrite !opened_app, !elem_of_app. intros [Hl|Hl] Ho; [left; by eapply (gd_home _ _ HD)|].
    destruct (sg_home _ _ Hd _ _ Hl Ho) as [?| ->]; [by right|]. destruct (Hh _ Hl Ho) as [?|Hp]; [by right|left].
    apply gone_opened_run. unfold pending in Hp. apply cnt_elem. rewrite cnt_gone. apply cnt_elem in Hp. lia.
  - intros o. rewrite opened_app, elem_of_app. unfold story. rewrite direct_app, planned_app, bind_app, !snaps_app, !elem_of_app.
    pose proof (gd_snap _ _ HD o) as H1. pose proof (sg_snap _ _ Hd o) as H2. unfold story in H1, H2. rewrite snaps_app, elem_of_app in H1, H2. tauto.
  - intros o. rewrite planned_app, bind_app, snaps_app, closings_app, !elem_of_app.
    pose proof (gd_read _ _ HD o). pose proof (sg_read _ _ Hd o). tauto.
  - rewrite planned_app, bind_app. apply Forall_app. unfold ptrs. rewrite foldl_app. fold (ptrs [] D). fold (ptrs (ptrs [] D) d). split.
    + eapply Forall_impl; [apply (sg_guard _ _ Hd)|]. cbn. intros r [Hr Hk]. split; [|lia]. revert Hr. apply ptrs_mono. intros ? []%elem_of_nil.
    + eapply Forall_impl; [apply (gd_guard _ _ HD)|]. cbn. intros r [Hr Hk]. split; [|lia]. apply ptrs_keep; [done|].
      intros Hn. pose proof (proj1 (Forall_forall _ _) (sg_nil _ _ Hd) _ Hn). cbn in *. lia.
  - rewrite forallb_app. by rewrite (gd_quiet _ _ HD), (sg_quiet _ _ Hd).
Qed.
End Step.

Section Phases.
Context `{UnicodeCase} `{!RangeOrder bytes} {M MC MO MS MP : Type}.
Context `{!BpfMapOps bytes Z M} `{!BpfMapOps Z Z MC} `{!BpfMapOps bytes bytes MO} `{!BpfMapOps Z (Z * Z) MS} `{!BpfMapOps Z (list Z) MP}.
Context (h : @host M MC MO MS MP) (cfg : Config) (pol : option Policy).

Lemma loadExec_seg : eff (loadExec h) (fun d _ => seg 5 d).
Proof. unfold loadExec. by_paths. Qed.

Lemma armSyscall_seg : eff (armSyscall h cfg) (fun d _ => seg 6 d).
Proof.
  unfold armSyscall, armTCPStateTrace, armIoUringTrace, startSyscallTrace, attachTCPConnectKprobes, startIoUringTrace. by_paths.
Qed.

Lemma loadDNS_seg : eff (loadDNS h) (fun d _ => seg 7 d).
Proof. unfold loadDNS, startDNSTrace. by_paths. Qed.

Lemma loadFork_seg : eff (loadFork h cfg) (fun d _ => seg 8 d).
Proof. unfold loadFork, loadTraced. by_paths. Qed.

Lemma loadFS_seg : eff (loadFS h cfg) (fun d _ => seg 9 d).
Proof. unfold loadFS, loadTraced. by_paths. Qed.

Lemma loadKTLS_seg : eff (loadKTLS h) (fun d _ => seg 10 d).
Proof. unfold loadKTLS, startKTLSTrace, startOne. by_paths. Qed.

Lemma loadIPv6Obs_seg : eff (loadIPv6Obs h cfg) (fun d _ => seg 11 d).
Proof. unfold loadIPv6Obs, startIPv6ObsTrace. by_paths. Qed.

Lemma loadBPFAudit_seg : eff (loadBPFAudit h) (fun d _ => seg 12 d).
Proof. unfold loadBPFAudit, startBPFAuditTrace, startOne. by_paths. Qed.

Lemma loadDefendLSM_seg a b : eff (loadDefendLSM h pol a b) (fun d _ => seg 1 d).
Proof. unfold loadDefendLSM, loadLSMMaps, attachSendpage, attachSelfDefense, attachIoUringCmd. by_paths. Qed.

Lemma attachDefendIPv6_seg : eff (attachDefendIPv6 h) (fun d _ => seg 4 d).
Proof. unfold attachDefendIPv6. by_paths. Qed.

(** The interfaces that were attached, in order. *)
Definition tcx (js : list nat) : list op := js ≫= fun j => [OOpen (Lnk (LTcx j)); OPush [ACloseLnk (LTcx j)]].

Lemma attachTCX_eff l i n Q : (forall js r, NoDup js -> Forall (fun j => (i <= j)%nat) js -> Q (tcx js) (Ret r)) -> eff (attachTCX h l i n) Q.
Proof.
  revert i n Q. induction l as [|[lo up] l IH]; intros i n Q HQ; cbn [attachTCX]; [apply eff_ret, (HQ []); constructor|].
  assert (forall n Q, (forall js r, NoDup js -> Forall (fun j => (S i <= j)%nat) js -> Q (tcx js) (Ret r)) -> eff (attachTCX h l (S i) n) Q) as IH' by eauto.
  assert (forall js, Forall (fun j => (S i <= j)%nat) js -> Forall (fun j => (i <= j)%nat) js) as Hle
    by (intros js Hj; eapply Forall_impl; [exact Hj|cbn; lia]).
  destruct (lo || negb up); [apply IH'; auto|]. apply eff_bind. unfold attach. apply eff_opening; [intros e|]; cbn beta iota.
  - apply IH'. intros js r Hn Hf. apply (HQ js); auto.
  - apply eff_bind, eff_trackDefendLink, IH'. intros js r Hn Hf. apply (HQ (i :: js)).
    + constructor; [|done]. intros Hin. rewrite Forall_forall in Hf. apply Hf in Hin. lia.
    + constructor; [lia|auto].
Qed.


Lemma tidy_no_closing k : closings k = [] -> tidy k = true.
Proof.
  induction k as [|e k IH]; [done|]. unfold closings in *. cbn [mbind list_bind tidy]. intros [He Hk]%app_eq_nil. rewrite IH by done. rewrite andb_true_r.
  destruct e as [|[o|l|r]| | | | | ]; try done; apply forallb_forall; by intros.
Qed.

Lemma tcx_shape js : NoDup js ->
  (forall r, cnt r (opened (tcx js)) = cnt r (gone (tcx js)) /\ (cnt r (opened (tcx js)) <= 1)%nat /\
    (r ∈ opened (tcx js) -> exists j, r = Lnk (LTcx j))) /\
  direct (tcx js) = [] /\ closings (planned (tcx js) ≫= act_event) = [] /\ snaps (planned (tcx js) ≫= act_event) = [] /\
  (planned (tcx js) ≫= act_guard) = [] /\ (tcx js ≫= op_nil) = [] /\ forallb op_quiet (tcx js) = true.
Proof.
  induction 1 as [|j js Hj Hn (IH & H1 & H2 & H3 & H4 & H5 & H6)]; [by split_and!; [intros r; split_and!; [done|cbn; lia|intros ?%elem_of_nil]|..]|].
  cbn [tcx mbind list_bind]. fold (tcx js) in *. change (js ≫= _) with (tcx js).
  split_and!.
  - intros r. destruct (IH r) as (E & Hle & Hin). rewrite opened_app, gone_app, !cnt_app, E.
    change (opened [OOpen (Lnk (LTcx j)); OPush [ACloseLnk (LTcx j)]]) with [Lnk (LTcx j)].
    change (gone [OOpen (Lnk (LTcx j)); OPush [ACloseLnk (LTcx j)]]) with [Lnk (LTcx j)]. split_and!; [done| |].
    + rewrite cnt_single, <- E. case_decide as Hr; [subst r|lia]. enough (cnt (Lnk (LTcx j)) (opened (tcx js)) = 0%nat) by lia. apply cnt_absent.
      clear - Hj. intros (o & Ho & (j' & Ho' & Hj')%list_elem_of_bind)%list_elem_of_bind.
      apply elem_of_cons in Ho' as [-> | ->%list_elem_of_singleton]; cbn in Ho; [|by apply elem_of_nil in Ho]. apply list_elem_of_singleton in Ho. by simplify_eq.
    + intros [->%list_elem_of_singleton|?]%elem_of_app; [by eexists|auto].
  - by rewrite direct_app, H1.
  - rewrite planned_app, bind_app. unfold closings in *. by rewrite bind_app, H2.
  - rewrite planned_app, bind_app. unfold snaps in *. by rewrite bind_app, H3.
  - by rewrite planned_app, bind_app, H4.
  - by rewrite bind_app, H5.
  - by rewrite forallb_app, H6.
Qed.

Lemma backstop_seg js x : NoDup js -> x = OSetR REgressBackstop \/ x = OClose (Rdr REgressBackstop) ->
  seg 3 ([OOpen (Rdr REgressBackstop)] ++ tcx js ++ [x]).
Proof.
  intros Hn Hx. destruct (tcx_shape js Hn) as (Hc & H1 & H2 & H3 & H4 & H5 & H6).
  assert (opened [x] = [] /\ gone [x] = [Rdr REgressBackstop] /\ planned [x] = [] /\ direct [x] = [] /\ [x] ≫= op_nil = [] /\ op_quiet x = true)
    as (X1 & X2 & X3 & X4 & X5 & X6) by (by destruct Hx as [-> | ->]).
  assert (planned ([OOpen (Rdr REgressBackstop)] ++ tcx js ++ [x]) = planned (tcx js)) as Ep by (by rewrite !planned_app, X3, app_nil_r).
  assert (story ([OOpen (Rdr REgressBackstop)] ++ tcx js ++ [x]) = planned (tcx js) ≫= act_event) as Es
    by (unfold story; by rewrite !direct_app, H1, X4, Ep).
  assert (opened ([OOpen (Rdr REgressBackstop)] ++ tcx js ++ [x]) = Rdr REgressBackstop :: opened (tcx js)) as Eo
    by (by rewrite !opened_app, X1, app_nil_r).
  assert (forall r, r ∈ opened (tcx js) -> exists j, r = Lnk (LTcx j)) as Hin by (intros r; apply (Hc r)).
  split.
  - rewrite Eo. constructor; [done|]. apply Forall_forall. by intros r (j & ->)%Hin.
  - intros r. rewrite Eo, !gone_app, X2. change (Rdr REgressBackstop :: opened (tcx js)) with ([Rdr REgressBackstop] ++ opened (tcx js)).
    rewrite !cnt_app, cnt_single. change (gone [OOpen (Rdr REgressBackstop)]) with (@nil res). change (cnt r []) with 0%nat.
    destruct (Hc r) as (<- & Hle & _). split; [lia|]. case_decide as Hr; [subst r|lia].
    rewrite (cnt_absent (Rdr REgressBackstop) (opened (tcx js))); [done|]. by intros (j & ?)%Hin.
  - rewrite Es. by apply tidy_no_closing.
  - intros l o Hl Ho. right. rewrite Eo in Hl. apply elem_of_cons in Hl as [?|(j & [= ->])%Hin]; [done|]. by simplify_eq/=.
  - intros o. rewrite Es, H3. by intros ?%elem_of_nil.
  - intros o. rewrite Ep, H2. by intros ?%elem_of_nil.
  - by rewrite Ep, H4.
  - rewrite !bind_app, H5, X5. by cbn.
  - rewrite !forallb_app, H6. cbn. by rewrite X6.
Qed.

Lemma attachEgressBackstop_seg : eff (attachEgressBackstop h) (fun d _ => seg 3 d).
Proof.
  unfold attachEgressBackstop. do 2 eff_step. case_decide; [|by_paths]. do 2 eff_step; [by_paths|]. eff_step.
  apply attachTCX_eff. intros js n Hn _. cbn beta iota.
  destruct (0 <? n); do 3 eff_step; [apply (backstop_seg js (OSetR _))|apply (backstop_seg js (OClose _))]; auto.
Qed.

Lemma attachDefendIPv4_seg : eff (attachDefendIPv4 h) (fun d _ => seg 2 d).
Proof. unfold attachDefendIPv4, attachTracked. by_paths. Qed.

Lemma registerDefend_seg st res : eff (registerDefend h st res) (fun d _ => seg 0 d /\ Obj ODefend ∈ (planned d ≫= act_res)).
Proof.
  unfold registerDefend. repeat eff_step; (split; [apply segb_seg; vm_compute; reflexivity|]); apply (bool_decide_unpack _); vm_compute; exact I.
Qed.

(** ** The whole run *)

Definition silent (d : list op) : Prop :=
  Forall (fun o => match o with ONote e => quiet_event e = true | ODefendOn | OLSMOn => True | _ => False end) d.

Lemma silent_shape d : silent d -> opened d = [] /\ gone d = [] /\ planned d = [] /\ direct d = [] /\ (forall p, ptrs p d = p) /\ forallb op_quiet d = true.
Proof.
  induction 1 as [|o d Ho Hd (H1 & H2 & H3 & H4 & H5 & H6)]; [done|].
  cbn [planned forallb]. unfold opened, gone, direct, ptrs in *. cbn [mbind list_bind foldl]. destruct o; try done; rewrite H1, H2, H3, H4, H6; cbn; rewrite ?Ho; done.
Qed.

Lemma good_silent k D d : good k D -> silent d -> good k (D ++ d).
Proof.
  intros [H1 H2 H3 H4 H5 H6 H7 H8] (S1 & S2 & S3 & S4 & S5 & S6)%silent_shape.
  assert (planned (D ++ d) = planned D) as Ep by (by rewrite planned_app, S3).
  assert (opened (D ++ d) = opened D) as Eo by (by rewrite opened_app, S1, app_nil_r).
  assert (story (D ++ d) = story D) as Es by (unfold story; by rewrite Ep, direct_app, S4, app_nil_r).
  assert (ptrs [] (D ++ d) = ptrs [] D) as Et by (unfold ptrs in *; by rewrite foldl_app, S5).
  split; rewrite ?Eo, ?Es, ?Ep, ?Et; try done; [|by rewrite forallb_app, H8]. intros r. by rewrite gone_app, S2, app_nil_r.
Qed.

Definition extends {A} (K : nat) (D : list op) (m : @run M MC MO MS A) : Prop := eff m (fun d _ => good K (D ++ d)).

Lemma ext_ret {A} K k D (a : A) : good k D -> (k <= K)%nat -> extends K D (mret a).
Proof. intros HD Hk. apply eff_ret. rewrite app_nil_r. by eapply good_mono. Qed.

Lemma ext_then {A B} K D (m : @run M MC MO MS A) (f : A -> run B) (P : list op -> Prop) :
  eff m (fun d _ => P d) -> (forall d, P d -> good K (D ++ d)) -> (forall d a, P d -> extends K (D ++ d) (f a)) -> extends K D (mbind f m).
Proof.
  intros Hm H1 H2. apply eff_bind. eapply eff_weaken; [exact Hm|]. intros d [a|] Hd; [|auto].
  eapply eff_weaken; [apply (H2 d a Hd)|]. cbn. intros d' _. by rewrite <- app_assoc.
Qed.

Lemma ext_silent {A B} K k D (m : @run M MC MO MS A) (f : A -> run B) : good k D -> (k <= K)%nat -> eff m (fun d _ => silent d) ->
  (forall d a, good k (D ++ d) -> extends K (D ++ d) (f a)) -> extends K D (mbind f m).
Proof.
  intros HD Hk Hm Hf. eapply ext_then; [exact Hm| |].
  - intros d Hd. eapply good_mono; [by apply good_silent|done].
  - intros d a Hd. apply Hf. by apply good_silent.
Qed.

Lemma home_defend l : home l = Some ODefend -> (1 <= phase (Lnk l) <= 4)%nat.
Proof. destruct l; cbn; try done; lia. Qed.

Lemma ext_seg {A B} K k D (m : @run M MC MO MS A) (f : A -> run B) : good k D -> (k < K)%nat -> eff m (fun d _ => seg k d) ->
  ((1 <= k <= 4)%nat -> pending ODefend D) -> (forall d a, good (S k) (D ++ d) -> extends K (D ++ d) (f a)) -> extends K D (mbind f m).
Proof.
  intros HD Hk Hm Hp Hf.
  assert (forall d, seg k d -> good (S k) (D ++ d)) as Hs.
  { intros d Hd. apply good_step; [done|done|]. intros l Hl Ho. right. apply Hp. pose proof (home_defend _ Ho).
    pose proof (proj1 (Forall_forall _ _) (sg_phase _ _ Hd) _ Hl). cbn in *. lia. }
  eapply ext_then; [exact Hm| |]; intros d; [intros Hd|intros a Hd; apply Hf; auto]. eapply good_mono; [by apply Hs|lia].
Qed.

(** A program at the end of another. *)
Lemma ext_last {A} K D (m : @run M MC MO MS A) : extends K D (mbind mret m) -> extends K D m.
Proof.
  intros Hm s Hs. destruct (Hm s Hs) as (Hr & d & Hl & Hd). unfold mbind, run_bind in *. destruct (m s) as [s' [a|]]; cbn in *; eauto.
Qed.

Lemma good_nil : good 0 [].
Proof. split; cbn; try done; try (by intros; exfalso; eapply not_elem_of_nil). intros r. cbn. split; [done|lia]. Qed.

Ltac silently := repeat eff_step; repeat constructor.

Lemma loadCgroupMaps_silent : eff (loadCgroupMaps pol : @run M MC MO MS _) (fun d _ => silent d).
Proof. unfold loadCgroupMaps. silently. Qed.
Lemma seedOwnerMap_silent : eff (seedOwnerMap h cfg) (fun d _ => silent d).
Proof. unfold seedOwnerMap. silently. Qed.
Lemma confirmEnforcement_silent : eff (confirmEnforcement h cfg) (fun d _ => silent d).
Proof. unfold confirmEnforcement. silently. Qed.
Lemma finalizeBpfSelfDefense_silent : eff (finalizeBpfSelfDefense h) (fun d _ => silent d).
Proof. unfold finalizeBpfSelfDefense. silently. Qed.

Ltac ext_silently L := eapply ext_silent; [eassumption|lia|first [exact L|silently]|]; intros ? ? ?; cbn beta iota.
Ltac ext_phase L := eapply ext_seg; [eassumption|lia|exact L|first [lia|solve [eauto 20 using pending_app]]|]; intros ? ? ?; cbn beta iota.

Ltac ext_case := lazymatch goal with |- extends _ _ (match ?x with _ => _ end) => destruct x end.
Ltac ext_end := eapply ext_ret; [eassumption|lia].

Lemma loadDefendCgroup_ext D b : good 2 D -> pending ODefend D -> extends 5 D (loadDefendCgroup h cfg pol b).
Proof.
  intros HD Hp. unfold loadDefendCgroup. ext_silently loadCgroupMaps_silent. ext_case; [|ext_end]. ext_case. ext_case.
  do 2 ext_silently I. ext_silently seedOwnerMap_silent. ext_phase attachDefendIPv4_seg.
  ext_case; [ext_end|]. ext_phase attachEgressBackstop_seg. ext_phase attachDefendIPv6_seg.
  ext_case; [ext_end|]. apply ext_last. ext_silently confirmEnforcement_silent. ext_end.
Qed.

Lemma loadDefend_ext D : good 0 D -> extends 5 D (loadDefend h cfg pol).
Proof.
  intros HD. unfold loadDefend. destruct (negb _); [ext_end|].
  destruct (LoadDefendObjectsForKernel _ _ _) as [st [res|e]]; [|ext_end].
  eapply ext_then; [apply registerDefend_seg| |].
  - intros d [Hd _]. eapply good_mono; [eapply good_step|]; [done|done| |lia]. intros l Hl Ho.
    pose proof (home_defend _ Ho). pose proof (proj1 (Forall_forall _ _) (sg_phase _ _ Hd) _ Hl). cbn in *. lia.
  - intros d [] [Hd Hp]. assert (good 1 (D ++ d)) as HD1.
    { eapply good_step; [done|done|]. intros l Hl Ho. pose proof (home_defend _ Ho). pose proof (proj1 (Forall_forall _ _) (sg_phase _ _ Hd) _ Hl). cbn in *. lia. }
    assert (pending ODefend (D ++ d)) as Hpend by (unfold pending; rewrite planned_app, bind_app, elem_of_app; by left).
    ext_phase (loadDefendLSM_seg (h_haveLSM h && negb (LSMFellBack res)) (h_haveLSM h && HaveIOUringLSM (h_kernel h))).
    ext_case; [|ext_end].
    ext_silently I. eapply ext_then; [apply loadDefendCgroup_ext; [eassumption|eauto 20 using pending_app]|done|]. intros d2 [e|] Hd2; [ext_end|].
    ext_silently finalizeBpfSelfDefense_silent. ext_end.
Qed.

Lemma writeStartupMeta_silent : eff (writeStartupMeta h cfg) (fun d _ => silent d).
Proof.
  intros s Hs. unfold writeStartupMeta. case_decide; [split; [done|exists []; repeat constructor]|].
  destruct (negb _); (split; [done|]); [exists []; repeat constructor|]. eexists [ONote _]. split; [reflexivity|repeat constructor].
Qed.

Lemma detectReady_silent : eff (detectReady h cfg) (fun d _ => silent d).
Proof. unfold detectReady. silently. Qed.

Lemma serve_silent : eff (serve h cfg) (fun d _ => silent d).
Proof.
  unfold serve. eff_step. intros s Hs. split; [done|]. eexists [ONote _]. split; [reflexivity|]. cbn beta iota.
  assert (forall A (m : @run M MC MO MS A) o, eff m (fun d _ => silent d) -> silent [o] -> eff m (fun d _ => silent ([o] ++ d))) as Hcons.
  { intros A m o Hm Ho. eapply eff_weaken; [exact Hm|]. intros d r Hd. by apply Forall_app. }
  apply Hcons; [|repeat constructor]. eff_step. eapply (eff_weaken _ (fun d _ => silent d)).
  - destruct (DeferReadiness _); silently.
  - intros d [a|] Hd; cbn beta iota; [|done]. apply eff_bind, eff_onData; [intros a0; by destruct (h_running h _)|].
    repeat eff_step; by rewrite !app_nil_r.
Qed.

Lemma loadOptional_ext D : good 7 D -> extends 14 D (loadOptional h cfg).
Proof.
  intros HD. unfold loadOptional. ext_phase loadDNS_seg. ext_phase loadFork_seg. ext_phase loadFS_seg. ext_phase loadKTLS_seg.
  ext_phase loadIPv6Obs_seg. ext_phase loadBPFAudit_seg. ext_silently writeStartupMeta_silent.
  assert (eff (push [ACancelRun] : @run M MC MO MS unit) (fun d _ => seg 13 d)) as Hc by by_paths.
  ext_phase Hc. ext_end.
Qed.

(** Every path of a run: the stack starts with the telemetry, the reader
    closings and what the phases pushed are above it. *)
Lemma runBody_ops : eff (runBody h cfg pol) (fun d _ => exists D, d = [OPush [ATelemetry]; OPush [ACancelCompile]] ++ D /\
  (D = [] \/ exists D', D = OPush closeAllReaders :: D' /\ good 14 D')).
Proof.
  unfold runBody. do 4 eff_step. unfold orElse at 1. eff_step.
  apply (eff_weaken _ (fun d r => d = [] /\ r <> Panic)).
  { unfold compile. destruct (compileDefendAllowlist _ _); repeat eff_step; done. }
  intros d [[e|]|] [-> Hr]; [|clear Hr|done]; cbn beta iota; [apply eff_ret; exists []; split; [done|by left]|].
  eff_step. apply (eff_weaken _ (fun d r => d = [] /\ r = Ret tt)).
  { unfold finalizeAllowlist. repeat eff_step; done. }
  intros d _ [-> ->]. do 2 eff_step.
  enough (extends 14 [] (orElse (loadDefend h cfg pol) (orElse (loadExec h) (orElse (armSyscall h cfg) (orElse (detectReady h cfg)
            (orElse (loadOptional h cfg) (serve h cfg))))))) as He.
  { eapply eff_weaken; [exact He|]. cbn. intros d _ Hd. eexists (OPush closeAllReaders :: d). split; [done|]. right. by exists d. }
  eapply ext_then; [apply (loadDefend_ext []), good_nil|intros d Hd; eapply good_mono; [exact Hd|lia]|]. intros d0 a Hd0. cbn [app] in *. ext_case; [ext_end|].
  ext_phase loadExec_seg. ext_case; [ext_end|]. ext_phase armSyscall_seg. ext_case; [ext_end|].
  ext_silently detectReady_silent. ext_case; [ext_end|].
  eapply ext_then; [by apply loadOptional_ext|done|]. intros d5 a5 Hd5; cbn beta in Hd5. ext_case; [ext_end|].
  apply ext_last. ext_silently serve_silent. ext_end.
Qed.
End Phases.

(** * Unwinding *)

(** How often a resource was opened and closed; what was seen, oldest first. *)
Definition opens (x : res) (hs : list event) : nat := cnt x (hs ≫= fun e => match e with Opened r => [r] | _ => [] end).
Definition closed_res (e : event) : list res := match e with Closed r => [r] | _ => [] end.
Definition closes (x : res) (hs : list event) : nat := cnt x (hs ≫= closed_res).
Definition seen (hs : list event) : list event := rev (filter (fun e => visible e = true) hs).

Lemma opens_cons x e hs : opens x (e :: hs) = ((match e with Opened r => cnt x [r] | _ => 0 end) + opens x hs)%nat.
Proof. unfold opens. cbn [mbind list_bind]. rewrite cnt_app. by destruct e. Qed.
Lemma closes_cons x e hs : closes x (e :: hs) = ((match e with Closed r => cnt x [r] | _ => 0 end) + closes x hs)%nat.
Proof. unfold closes. cbn [mbind list_bind]. rewrite cnt_app. by destruct e. Qed.
Lemma seen_cons e hs : seen (e :: hs) = seen hs ++ (if visible e then [e] else []).
Proof. unfold seen. rewrite filter_cons. destruct (visible e); case_decide; try done; by rewrite ?app_nil_r. Qed.

Lemma cnt_rev x l : cnt x (rev l) = cnt x l.
Proof. induction l as [|y l IH]; [done|]. cbn [rev]. rewrite cnt_app, IH. change (y :: l) with ([y] ++ l). rewrite cnt_app. lia. Qed.

(** The closings of links and collections are among what is seen. *)
Lemma closes_seen x hs : (forall r, x <> Rdr r) -> closes x hs = cnt x (seen hs ≫= closed_res).
Proof.
  intros Hx. induction hs as [|e hs IH]; [done|]. rewrite closes_cons, seen_cons, bind_app, cnt_app, IH.
  destruct e as [|[o|l|r]| | | | | ]; cbn [visible closed_res mbind list_bind app]; change (cnt x []) with 0%nat; try lia.
  rewrite cnt_single, decide_False; [lia|done].
Qed.

Lemma applied_cons l o d : applied l (o :: d) = applied (apply_op l o) d.
Proof. done. Qed.

Definition op_notes (o : op) : bool := match o with ONote e => quiet_event e | _ => true end.

Lemma quiet_notes d : forallb op_quiet d = true -> forallb op_notes d = true.
Proof. rewrite !forallb_forall. intros Hq o Ho. specialize (Hq o Ho). by destruct o. Qed.

(** The owning state after a sequence of operations. *)
Lemma applied_shape l d : forallb op_notes d = true ->
  concat (l_cleanup (applied l d)) = planned d ++ concat (l_cleanup l) /\ l_once (applied l d) = l_once l /\ l_ptr (applied l d) = ptrs (l_ptr l) d /\
  (forall r, r ∈ l_R (applied l d) <-> Rdr r ∈ d ≫= op_setR \/ r ∈ l_R l) /\
  (forall x, opens x (l_hist (applied l d)) = cnt x (opened d) + opens x (l_hist l))%nat /\
  (forall x, closes x (l_hist (applied l d)) = cnt x (d ≫= op_close) + closes x (l_hist l))%nat /\
  seen (l_hist (applied l d)) = seen (l_hist l) ++ direct d.
Proof.
  revert l. induction d as [|o d IH]; intros l Hq; [split_and!; try done; [by intros r; rewrite elem_of_nil; tauto|by rewrite app_nil_r]|].
  cbn [forallb] in Hq. apply andb_true_iff in Hq as [Ho Hq]. rewrite applied_cons. destruct (IH (apply_op l o) Hq) as (-> & -> & -> & H4 & H5 & H6 & ->).
  unfold opened, direct in *. cbn [planned mbind list_bind]. split_and!.
  - destruct o; cbn; rewrite ?app_nil_r; try done. by rewrite <- app_assoc.
  - by destruct o.
  - by destruct o.
  - intros r. rewrite H4, elem_of_app. destruct o; cbn; rewrite ?elem_of_nil, ?elem_of_cons, ?elem_of_nil; try tauto. naive_solver.
  - intros x. rewrite H5, cnt_app. destruct o as [| | | | | | | |e]; cbn [apply_op note l_hist op_open]; rewrite ?opens_cons; cbn beta iota; change (cnt x []) with 0%nat; try (done || lia). destruct e; done || lia.
  - intros x. rewrite H6, cnt_app. destruct o as [| | | | | | | |e]; cbn [apply_op note l_hist op_close]; rewrite ?closes_cons; cbn beta iota; change (cnt x []) with 0%nat; try (done || lia). destruct e; done || lia.
  - rewrite app_assoc. f_equal. destruct o as [|[]| | | | | | |e]; cbn [apply_op note l_hist op_event]; rewrite ?seen_cons, ?app_nil_r; try done. destruct e; try done; by rewrite app_nil_r.
Qed.

Section Unwind.
Context `{UnicodeCase} `{!RangeOrder bytes} {M MC MO MS MP : Type}.
Context `{!BpfMapOps bytes Z M} `{!BpfMapOps Z Z MC} `{!BpfMapOps bytes bytes MO} `{!BpfMapOps Z (Z * Z) MS} `{!BpfMapOps Z (list Z) MP}.
Context (h : @host M MC MO MS MP) (cfg : Config).
Implicit Types s : @rstate M MC MO MS.

(** A closing of a reader that counted: the first of a reader that is set. *)
Definition spent (s : @rstate M MC MO MS) (r : rd) : nat := if decide (r ∈ l_once (r_life s) /\ r ∈ l_R (r_life s)) then 1 else 0.

(** What a statement changes when its guard holds. *)
Record framed (a : act) (s s' : @rstate M MC MO MS) : Prop := {
  fr_R : l_R (r_life s') = l_R (r_life s);
  fr_ptr : l_ptr (r_life s') = l_ptr (r_life s);
  fr_lsm : l_hasLSM (r_life s') = l_hasLSM (r_life s);
  fr_opens : forall x, opens x (l_hist (r_life s')) = opens x (l_hist (r_life s));
  fr_seen : seen (l_hist (r_life s')) = seen (l_hist (r_life s)) ++ act_event a;
  fr_closes : forall r, (closes (Rdr r) (l_hist (r_life s')) + spent s r = closes (Rdr r) (l_hist (r_life s)) + spent s' r)%nat;
  fr_once : forall r, r ∈ l_once (r_life s') <-> r ∈ l_once (r_life s) \/ a = ACloseRd r }.

Lemma framed_same a s s' : r_life s' = r_life s -> act_event a = [] -> (forall r, a <> ACloseRd r) -> framed a s s'.
Proof.
  intros E He Ha. split; unfold spent; rewrite ?E, ?He, ?app_nil_r; try done. intros r. specialize (Ha r). naive_solver.
Qed.

Lemma framed_note a s e d1 : match e with Closed (Rdr _) | Opened _ => False | _ => True end ->
  (if visible e then [e] else []) = act_event a -> (forall r, a <> ACloseRd r) -> framed a s (mkR (note e (r_life s)) d1).
Proof.
  intros He Hv Ha. split; unfold spent; cbn [r_life note l_R l_ptr l_cleanup l_hist l_once]; try done.
  - intros x. rewrite opens_cons. by destruct e.
  - by rewrite seen_cons, Hv.
  - intros r. rewrite closes_cons. destruct e as [|[]| | | | | ]; done.
  - intros r. specialize (Ha r). naive_solver.
Qed.

Lemma framed_closeRd r s : framed (ACloseRd r) s (mkR (closeRd r (r_life s)) (r_data s)).
Proof.
  unfold closeRd. destruct (decide (r ∈ l_once (r_life s))) as [Ho|Ho].
  { split; cbn [r_life act_event]; rewrite ?app_nil_r; try done. intros r'. split; [by left|]. by intros [?|[= <-]]. }
  cbn [withOnce l_R]. destruct (decide (r ∈ l_R (r_life s))) as [HR|HR]; (split; unfold spent; cbn [r_life note withOnce l_R l_ptr l_hist l_once act_event];
    rewrite ?seen_cons, ?app_nil_r; try done; intros r').
  - rewrite closes_cons, cnt_single. destruct (decide (r' = r)) as [->|Hne].
    + rewrite decide_True by done. rewrite decide_False by tauto. rewrite decide_True by (split; [by left|done]). lia.
    + rewrite decide_False by congruence. repeat case_decide; rewrite ?elem_of_cons in *; try lia; naive_solver.
  - rewrite elem_of_cons. naive_solver.
  - repeat case_decide; rewrite ?elem_of_cons in *; try lia; naive_solver.
  - rewrite elem_of_cons. naive_solver.
Qed.

Lemma do_act_framed a s : Forall (.∈ l_ptr (r_life s)) (act_guard a) -> framed a s (do_act h cfg a s).
Proof.
  intros Hg. unfold do_act, guarded. destruct a; cbn [act_guard] in Hg; try (rewrite Forall_singleton in Hg; rewrite decide_True by done);
    try (by apply framed_same); try (by apply framed_note). apply framed_closeRd.
Qed.

(** The counters of an open collection, put into the statistics. *)
Definition counters (lsm : bool) (a : @data M MC MO MS) (o : obj) : data := snapshotOf h o (mkR (mkLife [] [] [] [] false lsm []) a).

Lemma snapshotOf_open o s : closedIn o (l_hist (r_life s)) = false -> snapshotOf h o s = counters (l_hasLSM (r_life s)) (r_data s) o.
Proof. intros Ho. unfold counters, snapshotOf, readSum. cbn [r_life r_data l_hasLSM l_hist closedIn existsb]. rewrite Ho. by destruct o. Qed.

Lemma closedIn_seen o hs : Closed (Obj o) ∉ seen hs -> closedIn o hs = false.
Proof.
  induction hs as [|e hs IH]; [done|]. rewrite seen_cons, elem_of_app. intros He. unfold closedIn in *. cbn [existsb]. rewrite IH by tauto. rewrite orb_false_r.
  destruct e as [|[o'| | ]| | | | | ]; try done. apply bool_decide_eq_false. intros ->. apply He. right. by left.
Qed.

(** The statement that reads a collection that is open. *)
Lemma do_act_data a s : (forall o, act_event a = [Snapshot o] -> Closed (Obj o) ∉ seen (l_hist (r_life s))) -> Forall (.∈ l_ptr (r_life s)) (act_guard a) ->
  r_data (do_act h cfg a s) = foldl (counters (l_hasLSM (r_life s))) (r_data s) (snaps (act_event a)).
Proof.
  intros Hc Hg. unfold do_act, guarded. destruct a; cbn [act_guard] in Hg; try (rewrite Forall_singleton in Hg; rewrite decide_True by done); try done;
    cbn; apply snapshotOf_open, closedIn_seen; by apply Hc.
Qed.

(** Nothing of a collection is seen after its closing. *)
Lemma tidy_later K a o b e : tidy K = true -> a ++ b = K -> Closed (Obj o) ∈ a -> e ∈ b -> may_follow (Closed (Obj o)) e = true.
Proof.
  intros HK <- Ha Hb. rewrite tidy_app, !andb_true_iff in HK. destruct HK as [_ HK].
  pose proof (forallb_elem _ _ _ HK Ha) as Hf. by apply (forallb_elem _ _ _ Hf).
Qed.

(** The invariant of the unwinding of [s0], of which [K] is what will be seen. *)
Record unwinding (s0 : @rstate M MC MO MS) (K : list event) (c : @rstate M MC MO MS * list act * list act) : Prop := {
  uw_R : l_R (r_life c.1.1) = l_R (r_life s0);
  uw_ptr : l_ptr (r_life c.1.1) = l_ptr (r_life s0);
  uw_lsm : l_hasLSM (r_life c.1.1) = l_hasLSM (r_life s0);
  uw_data : foldl (counters (l_hasLSM (r_life s0))) (r_data c.1.1) (snaps (c.1.2 ≫= act_event)) =
    foldl (counters (l_hasLSM (r_life s0))) (r_data s0) (snaps (plan s0 ≫= act_event));
  uw_opens : forall x, opens x (l_hist (r_life c.1.1)) = opens x (l_hist (r_life s0));
  uw_seen : seen (l_hist (r_life c.1.1)) ++ (c.1.2 ≫= act_event) = K;
  uw_guard : Forall (.∈ l_ptr (r_life s0)) (c.1.2 ≫= act_guard);
  uw_closes : forall r, closes (Rdr r) (l_hist (r_life c.1.1)) = (closes (Rdr r) (l_hist (r_life s0)) + spent c.1.1 r)%nat;
  uw_once : forall r, r ∈ l_R (r_life s0) -> r ∈ l_once (r_life c.1.1) \/ ACloseRd r ∈ c.1.2;
  uw_goroutine : Forall (fun a => exists r, a = ACloseRd r) c.2;
  uw_telemetry : (exists m', c.1.2 = m' ++ [ATelemetry]) \/
    c.1.2 = [] /\ exists s1 hs, l_hist (r_life c.1.1) = writeShutdownTelemetry h cfg s1 :: hs /\ r_data s1 = r_data c.1.1 }.

Lemma unwinding_step s0 K c c' : tidy K = true -> unwinding s0 K c -> ustep h cfg c c' -> unwinding s0 K c'.
Proof.
  intros HK [HR Hp Hl Hd Ho Hs Hg Hc Hn Hw Ht] Hstep. destruct Hstep as [s a m g|s m a g]; cbn [fst snd] in *.
  - cbn [mbind list_bind] in Hg, Hs. apply Forall_app in Hg as [Hga Hg].
    destruct (do_act_framed a s) as [F1 F2 F7 F3 F4 F5 F6]; [by rewrite Hp|].
    split; cbn [fst snd]; rewrite ?F1, ?F2; try done; [by rewrite F7| | | | | |].
    + rewrite do_act_data; [|intros o He Hin|by rewrite Hp].
      2: { rewrite He in Hs. pose proof (tidy_later K _ o _ (Snapshot o) HK Hs Hin ltac:(by left)) as Hf. cbn in Hf.
           rewrite bool_decide_eq_true_2 in Hf by done. discriminate Hf. }
      rewrite <- Hd. cbn [mbind list_bind]. unfold snaps. by rewrite bind_app, foldl_app, Hl.
    + intros x. by rewrite F3.
    + by rewrite F4, <- app_assoc.
    + intros r. specialize (F5 r). specialize (Hc r). lia.
    + intros r Hr. rewrite F6. destruct (Hn r Hr) as [?|[?|?]%elem_of_cons]; auto.
    + destruct Ht as [[m' Hm]|[? _]]; [|done]. destruct m' as [|b m']; [|left; exists m'; by injection Hm].
      injection Hm as -> ->. right. split; [done|]. exists s. eexists. split; reflexivity.
  - apply Forall_cons in Hw as [[r0 ->] Hw]. destruct (do_act_framed (ACloseRd r0) s) as [F1 F2 F7 F3 F4 F5 F6]; [done|].
    split; cbn [fst snd]; rewrite ?F1, ?F2; try done; [by rewrite F7| | | | |].
    + intros x. by rewrite F3.
    + by rewrite F4, app_nil_r.
    + intros r. specialize (F5 r). specialize (Hc r). lia.
    + intros r Hr. rewrite F6. destruct (Hn r Hr); auto.
    + destruct Ht as [?|[-> (s1 & hs & E & Ed)]]; [by left|]. right. split; [done|]. exists s1, hs. split; [|done].
      cbn [do_act r_life]. unfold closeRd. case_decide as Hr0; [done|]. cbn [withOnce l_R]. rewrite decide_False; [done|].
      rewrite HR. intros Hin. destruct (Hn _ Hin) as [?|?%elem_of_nil]; done.
Qed.

Lemma initial_rows : rows_ok (r_data (initial h)).
Proof. unfold rows_ok. cbn. lia. Qed.

(** The state that [Run] leaves to the cleanup stack. *)
Lemma run_unwinding s pol r : Run h cfg = (Some (s, pol), r) -> exists D, good 14 D /\ unwinding s (story D) (shutdown s) /\
  (forall x, opens x (l_hist (r_life s)) = cnt x (opened D)) /\
  (forall x, closes x (l_hist (r_life s)) = cnt x (D ≫= op_close)) /\
  (forall r, r ∈ l_R (r_life s) <-> Rdr r ∈ D ≫= op_setR) /\
  seen (l_hist (r_life s)) = direct D /\
  (plan s ≫= act_event) = (planned D ≫= act_event).
Proof.
  unfold Run. destruct (Config_Policy cfg) as [p|]; [|done]. destruct (h_signer h); [done|]. destruct (h_memlock h); [done|].
  destruct (runBody h cfg (Some p) (initial h)) as [s1 r1] eqn:Eb. intros [= <- <- <-].
  destruct (runBody_ops h cfg (Some p) (initial h) initial_rows) as (_ & d & Hl & D0 & -> & HD). rewrite Eb in Hl. cbn [fst] in Hl.
  assert (exists D, good 14 D /\ (D0 = [] /\ D = [] \/ D0 = OPush closeAllReaders :: D)) as (D & Hgood & Hshape).
  { destruct HD as [->|(D' & -> & Hg)]; [exists []|exists D'; auto]. split; [|by left]. eapply good_mono; [apply good_nil|lia]. }
  exists D. split; [done|].
  assert (forallb op_notes ([OPush [ATelemetry]; OPush [ACancelCompile]] ++ D0) = true) as Hq.
  { cbn. destruct Hshape as [[-> _]| ->]; [done|]. cbn. apply quiet_notes, Hgood. }
  destruct (applied_shape (r_life (initial h)) _ Hq) as (H1 & H2 & H3 & H4 & H5 & H6 & H7). rewrite <- Hl in *. cbn [r_life initial l_cleanup l_once l_ptr l_R l_hist] in *.
  assert (plan s1 = planned D ++ (if decide (D0 = []) then [] else closeAllReaders) ++ [ACancelCompile; ATelemetry]) as Ep.
  { unfold plan. rewrite H1. cbn [concat]. rewrite app_nil_r. destruct Hshape as [[-> ->]| ->]; cbn; [done|]. by rewrite <- !app_assoc. }
  assert (plan s1 ≫= act_event = planned D ≫= act_event) as Ee by (rewrite Ep, !bind_app; case_decide; by rewrite app_nil_r).
  assert (plan s1 ≫= act_guard = planned D ≫= act_guard) as Eg by (rewrite Ep, !bind_app; case_decide; by rewrite app_nil_r).
  assert (direct ([OPush [ATelemetry]; OPush [ACancelCompile]] ++ D0) = direct D) as Ed by (by destruct Hshape as [[-> ->]| ->]).
  assert (forall x, closes x (l_hist (r_life s1)) = cnt x (D ≫= op_close)) as Hcl.
  { intros x. rewrite H6. change (closes x []) with 0%nat. rewrite Nat.add_0_r. by destruct Hshape as [[-> ->]| ->]. }
  split; [|split_and!].
  - split; cbn [shutdown fst snd]; try done.
    + by rewrite H7, Ee, Ed.
    + rewrite Eg, H3. eapply Forall_impl; [apply (gd_guard _ _ Hgood)|]. cbn. intros x [Hx _]. by destruct Hshape as [[-> ->]| ->].
    + intros r0. unfold spent. rewrite decide_False; [lia|]. rewrite H2. intros [?%elem_of_nil _]. done.
    + intros r0 Hr. right. rewrite Ep, !elem_of_app. right. left. destruct Hshape as [[-> _]| ->].
      { apply H4 in Hr as [[]%elem_of_nil|[]%elem_of_nil]. }
      rewrite decide_False by done. unfold closeAllReaders. apply list_elem_of_fmap. exists r0. split; [done|]. apply (bool_decide_unpack _). by destruct r0.
    + destruct (spawned s1); [|done]. unfold closeAllReaders. apply Forall_forall. intros a (r0 & -> & _)%list_elem_of_fmap. by exists r0.
    + left. exists (planned D ++ (if decide (D0 = []) then [] else closeAllReaders) ++ [ACancelCompile]). rewrite Ep. by rewrite <- !app_assoc.
  - intros x. rewrite H5. change (opens x []) with 0%nat. rewrite Nat.add_0_r. by destruct Hshape as [[-> ->]| ->].
  - done.
  - intros r0. rewrite H4, elem_of_nil. destruct Hshape as [[-> ->]| ->]; cbn; tauto.
  - rewrite H7. done.
  - done.
Qed.

Lemma unwinding_rtc s0 K c c' : tidy K = true -> rtc (ustep h cfg) c c' -> unwinding s0 K c -> unwinding s0 K c'.
Proof. intros HK. induction 1; eauto using unwinding_step. Qed.

(** Unwinding without the goroutine is one of the schedules. *)
Lemma unwind_schedule s : rtc (ustep h cfg) (shutdown s) (unwind h cfg s, [], (shutdown s).2).
Proof.
  unfold shutdown, unwind. cbn [snd]. generalize (plan s) as m, (if spawned s then closeAllReaders else []) as g. intros m g. revert s.
  induction m as [|a m IH]; intros s; [done|]. eapply rtc_l; [apply ustep_main|]. apply IH.
Qed.

Lemma story_cnt x D : (forall r, x <> Rdr r) -> cnt x (story D ≫= closed_res) = cnt x (gone D).
Proof.
  intros Hx. unfold story. rewrite cnt_gone, bind_app, cnt_app.
  assert (cnt x (D ≫= op_setR) = 0%nat) as ->.
  { apply cnt_absent. intros (o & Ho & _)%list_elem_of_bind. destruct o; try (by apply elem_of_nil in Ho). apply list_elem_of_singleton in Ho. by apply (Hx r). }
  assert (cnt x (direct D ≫= closed_res) = cnt x (D ≫= op_close)) as ->.
  { unfold direct. induction D as [|o D IH]; [done|]. cbn [mbind list_bind]. rewrite bind_app, !cnt_app, IH.
    destruct o as [|[]| | | | | | | ]; try done. cbn [op_event op_close mbind list_bind]. rewrite cnt_single, decide_False by done. done. }
  assert (forall p, cnt x ((p ≫= act_event) ≫= closed_res) = cnt x (p ≫= act_res)) as ->; [|lia].
  induction p as [|a p IH]; [done|]. cbn [mbind list_bind]. rewrite bind_app, !cnt_app, IH. by destruct a.
Qed.

Lemma story_ends s pol r s' g : Run h cfg = (Some (s, pol), r) -> rtc (ustep h cfg) (shutdown s) (s', [], g) ->
  exists D, good 14 D /\ unwinding s (story D) (s', [], g) /\ seen (l_hist (r_life s')) = story D /\
  (forall x, opens x (l_hist (r_life s)) = cnt x (opened D)) /\ (forall x, closes x (l_hist (r_life s)) = cnt x (D ≫= op_close)) /\
  (forall r, r ∈ l_R (r_life s) <-> Rdr r ∈ D ≫= op_setR) /\ seen (l_hist (r_life s)) = direct D /\ plan s ≫= act_event = planned D ≫= act_event.
Proof.
  intros Hrun Hu. destruct (run_unwinding _ _ _ Hrun) as (D & Hg & Hw & H1). exists D.
  assert (unwinding s (story D) (s', [], g)) as Hw' by (eapply unwinding_rtc; [apply Hg|exact Hu|exact Hw]).
  split_and!; try done; try apply H1. pose proof (uw_seen _ _ _ Hw') as E. cbn in E. by rewrite app_nil_r in E.
Qed.

(** C13: what a run opens it closes, exactly once.  Whatever the kernel answers
    at each step, wherever [Run] returns, and however the unwinding of its
    cleanup stack interleaves with the goroutine that closes the readers, at
    the end every collection, link and ring reader was closed as often as it
    was opened, which is at most once.  Unwinding alone is such a schedule. *)
Theorem run_releases_all s pol r : Run h cfg = (Some (s, pol), r) ->
  rtc (ustep h cfg) (shutdown s) (unwind h cfg s, [], (shutdown s).2) /\
  forall s' g, rtc (ustep h cfg) (shutdown s) (s', [], g) ->
  forall x, closes x (l_hist (r_life s')) = opens x (l_hist (r_life s')) /\ (opens x (l_hist (r_life s')) <= 1)%nat.
Proof.
  intros Hrun. split; [apply unwind_schedule|]. intros s' g Hu x.
  destruct (story_ends _ _ _ _ _ Hrun Hu) as (D & Hg & Hw & Hseen & Ho & Hc & HR & _).
  pose proof (uw_opens _ _ _ Hw x) as Eo. cbn [fst] in Eo. rewrite Eo, Ho. destruct (gd_bal _ _ Hg x) as [Eb Hle]. split; [|done]. rewrite Eb.
  assert ((forall r, x <> Rdr r) \/ exists r, x = Rdr r) as [Hx|[r0 ->]] by (destruct x; [left|left|right]; eauto; congruence).
  - by rewrite closes_seen, Hseen, story_cnt.
  - pose proof (uw_closes _ _ _ Hw r0) as Ec. cbn [fst] in Ec. rewrite Ec, Hc, cnt_gone.
    assert (cnt (Rdr r0) (planned D ≫= act_res) = 0%nat) as E0.
    { apply cnt_absent. intros (a & Ha & _)%list_elem_of_bind. destruct a; try (by apply elem_of_nil in Ha); by apply list_elem_of_singleton in Ha. }
    rewrite E0. pose proof (uw_R _ _ _ Hw) as ER. cbn [fst] in ER. unfold spent. rewrite ER. rewrite cnt_gone in Eb.
    destruct (decide (r0 ∈ l_R (r_life s))) as [Hin|Hin].
    + rewrite decide_True; [apply HR, cnt_elem in Hin; lia|]. split; [|done]. by destruct (uw_once _ _ _ Hw _ Hin) as [?|?%elem_of_nil].
    + rewrite decide_False by tauto. rewrite (cnt_absent _ (D ≫= op_setR)); [lia|]. by rewrite <- HR.
Qed.

(** C14: the order of closing.  In every schedule of the unwinding, after a
    collection is closed its counters are not read, and of its links only the
    pair of connect probes is closed (these are closed after the collection they
    were attached from, although the code's comment promises links first); a collection that the run
    still held has its counters read before; the statistics at the end are
    those of the run with the counters of these collections, each read while
    its maps were open; and the shutdown record, which reports them, is the
    last event of all. *)
Theorem shutdown_ordered s pol r s' g : Run h cfg = (Some (s, pol), r) -> rtc (ustep h cfg) (shutdown s) (s', [], g) ->
  (forall o before after, seen (l_hist (r_life s')) = before ++ Closed (Obj o) :: after ->
    Forall (fun e => e <> Snapshot o /\ forall l, e = Closed (Lnk l) -> collection_of l = o -> l = LKprobe \/ l = LKretprobe) after /\
    (closes (Obj o) (l_hist (r_life s)) = 0%nat -> Snapshot o ∈ before)) /\
  r_data s' = foldl (counters (l_hasLSM (r_life s))) (r_data s) (snaps (seen (l_hist (r_life s')))) /\
  exists s1 hs, l_hist (r_life s') = writeShutdownTelemetry h cfg s1 :: hs /\ r_data s1 = r_data s'.
Proof.
  intros Hrun Hu. destruct (story_ends _ _ _ _ _ Hrun Hu) as (D & Hg & Hw & Hseen & Ho & Hc & HR & Hd & Hp). rewrite Hseen. split_and!.
  - intros o before after E. pose proof (gd_tidy _ _ Hg) as Ht. rewrite E, tidy_app, !andb_true_iff in Ht. destruct Ht as [[_ Ht] Hcross].
    cbn [tidy] in Ht. apply andb_true_iff in Ht as [Hafter _]. split.
    + apply Forall_forall. intros e He. pose proof (forallb_elem _ _ _ Hafter He) as Hf. split.
      * intros ->. cbn in Hf. by rewrite bool_decide_eq_true_2 in Hf.
      * intros l -> <-. cbn in Hf. apply negb_true_iff, bool_decide_eq_false in Hf. unfold home in Hf. destruct l; tauto.
    + intros H0. rewrite Hc in H0.
      assert (Closed (Obj o) ∈ story D) as Hin by (rewrite E; apply elem_of_app; right; by left).
      unfold story in Hin. apply elem_of_app in Hin as [Hin|Hin]; [apply direct_closed, cnt_elem in Hin; lia|].
      apply elem_closings, (gd_read _ _ Hg), elem_snaps in Hin. assert (Snapshot o ∈ story D) as Hs by (unfold story; apply elem_of_app; by right).
      rewrite E in Hs. apply elem_of_app in Hs as [?|[?|Hs]%elem_of_cons]; [done|done|]. pose proof (forallb_elem _ _ _ Hafter Hs) as Hf. cbn in Hf.
      by rewrite bool_decide_eq_true_2 in Hf.
  - pose proof (uw_data _ _ _ Hw) as Ed. cbn in Ed. rewrite Ed, Hp. f_equal. unfold story. rewrite snaps_app.
    assert (snaps (direct D) = []) as ->; [|done]. apply elem_of_nil_inv. intros o. rewrite elem_snaps. unfold direct.
    intros (x & Hx & _)%list_elem_of_bind. destruct x as [|[]| | | | | | | ]; try (by apply elem_of_nil in Hx); by apply list_elem_of_singleton in Hx.
  - pose proof (uw_telemetry _ _ _ Hw) as [[m' Hm]|(_ & s1 & hs & E1 & E2)]; [by destruct m'|]. eauto.
Qed.
End Unwind.

Module Witness.
#[local] Existing Instance ascii_case.
#[local] Existing Instance plain_order.

(** The record of the connect that the probe makes. *)
Definition probed : bytes := replicate 24 0 ++ [denyProtoTCP; 0; 2; 0] ++ probeDefendDst ++ replicate 12 0 ++ [0; 1].

Definition resolver : Resolver := {|
  lookup_ip _ net _ := match net with Ip4 => Ok [[1; 2; 3; 4]] | Ip6 => Err LookupErr end;
  cancelled _ _ := false |}.

(** A kernel that loads everything, where the cgroup programs dropped five
    records of denials and the LSM programs two. *)
Definition host0 (haveLSM : bool) (attach : lnk -> option bytes) : @host (gmap bytes Z) (gmap Z Z) (gmap bytes bytes) (gmap Z (Z * Z)) (gmap Z (list Z)) :=
  mkHost None None (Loader.Witness.refusing [] Loader.Witness.names) haveLSM (fun _ => None) attach (fun _ => None) (fun _ => Some 1)
    (fun _ => None) (Ok [(true, true); (false, true)]) [PRecord probed] [PDeadline] (fun _ => None) (fun _ => Some 1) (fun _ => Some 1) 77 true resolver
    (fun _ => None) 0 true (str "standard") (str "6.8")
    (fun n => Some (if decide (n = str "deny_reserve_failures") then {[0 := [5]]} else if decide (n = str "lsm_deny_reserve_failures") then {[0 := [2]]} else ∅))
    ∅ ∅ ∅ ∅ id [Some ErrCanceled].

Definition cfg0 (m : Mode) : Config :=
  mkConfig m [] [] (str "192.0.2.7") [] false [str "a.io"] (str "info") (str "/e.jsonl") [] (str "/s.json") ∅ (str "standard") (str "/sys/fs/cgroup") [] false false.

Definition h0 := host0 true (fun _ => None).
Definition cfg_d : Config := cfg0 ModeDefend.
Definition final0 := match (Run h0 cfg_d).1 with Some (s, p) => (s, p) | None => (initial h0, emptyPolicy) end.
Definition end0 := unwind h0 cfg_d final0.1.

Lemma runs : Run h0 cfg_d = (Some final0, Ret None).
Proof.
  assert ((match (Run h0 cfg_d).1 with Some _ => true | None => false end, (Run h0 cfg_d).2) = (true, Ret None)) as Ht by (vm_compute; reflexivity).
  unfold final0. revert Ht. generalize (Run h0 cfg_d). intros [[[s p]|] r]; [|discriminate]. cbn [fst snd]. intros [= ->]. reflexivity.
Qed.

(** A run that arms the kernel, runs and is cancelled: it opened nine of the
    readers' rings and the defend collection, and closed them. *)
Lemma run_releases_all_witness : closes (Obj ODefend) (l_hist (r_life end0)) = opens (Obj ODefend) (l_hist (r_life end0)) /\
  opens (Obj ODefend) (l_hist (r_life end0)) = 1%nat /\ opens (Rdr RDeny) (l_hist (r_life end0)) = 1%nat /\
  closes (Rdr RDeny) (l_hist (r_life end0)) = 1%nat.
Proof.
  destruct (run_releases_all h0 cfg_d final0.1 final0.2 (Ret None)) as [Hs Hall].
  - rewrite <- (surjective_pairing final0). exact runs.
  - destruct (Hall _ _ Hs (Obj ODefend)) as [H1 _]. destruct (Hall _ _ Hs (Rdr RDeny)) as [H2 _]. unfold end0. rewrite H2.
    split; [exact H1|]. split; [vm_compute; reflexivity|]. split; vm_compute; reflexivity.
Defined.

(** The records of denials that the cgroup programs could not write, five, are
    not in the final counters when the LSM programs are armed: [Set] with the
    two of the LSM programs replaced them. *)
Lemma shutdown_ordered_witness :
  (exists s1 hs, l_hist (r_life end0) = writeShutdownTelemetry h0 cfg_d s1 :: hs /\ r_data s1 = r_data end0) /\
  sn_denyReserveFailures (snapshot (a_defend (r_data end0))) = 2.
Proof.
  split; [|vm_compute; reflexivity].
  apply (shutdown_ordered h0 cfg_d final0.1 final0.2 (Ret None) end0 (shutdown final0.1).2).
  - rewrite <- (surjective_pairing final0). exact runs.
  - exact (unwind_schedule h0 cfg_d final0.1).
Defined.

Example lsm_counter_replaces : (readUint32PerCPUArraySum (h_percpu h0 (str "deny_reserve_failures")), readUint32PerCPUArraySum (h_percpu h0 (str "lsm_deny_reserve_failures"))) = (5, 2).
Proof. vm_compute. reflexivity. Qed.

(** The connect probes are closed after the collection they were attached
    from. *)
Example kprobes_close_last :
  filter (fun r => r ∈ [Obj OSyscall; Lnk LKprobe; Lnk LKretprobe; Lnk LSyscall]) (rev (l_hist (r_life end0)) ≫= closed_res) =
  [Lnk LSyscall; Obj OSyscall; Lnk LKretprobe; Lnk LKprobe].
Proof. vm_compute. reflexivity. Qed.
End Witness.
