(* ===== verification/RunReady.v ===== *)
(** What a run promises by its status file and its results: readiness is
    reported only when enforcement is armed, the channel of the results is
    large enough for every goroutine, and the error of a run is the one that
    matters.

    [frame Q m] says that [m] keeps what enforcement depends on (the loaded
    programs, the compiled allowlist, the maps of the cgroup backend) and that
    each of its operations satisfies [Q]. *)
From S2P Require Import Prelude GoStrings GoNet GoPath Policy BpfMap Allowlist DnsCache Decode DefendMaps Telemetry Config Defend RunStats Loader Lifecycle LifecycleSafe.

Open Scope Z_scope.

(** * Frames *)

Section Frames.
Context `{UnicodeCase} `{!RangeOrder bytes} {M MC MO MS MP : Type}.
Context `{!BpfMapOps bytes Z M} `{!BpfMapOps Z Z MC} `{!BpfMapOps bytes bytes MO} `{!BpfMapOps Z (Z * Z) MS} `{!BpfMapOps Z (list Z) MP}.
Abbreviation run := (@run M MC MO MS).

(** What enforcement depends on. *)
Definition core (a : @data M MC MO MS) : gset bytes * CompileResult * (MC * option M * option M * option M) :=
  (a_progs a, a_compiled a, (d_cfg (a_maps a), d_ignored (a_maps a), d_allowed (a_maps a), d_allowed6 (a_maps a))).

Definition frame (Q : op -> bool) {A} (m : run A) : Prop := forall s,
  core (r_data (m s).1) = core (r_data s) /\ exists d, r_life (m s).1 = applied (r_life s) d /\ forallb Q d = true.

Context (Q : op -> bool).

Lemma frame_ret {A} (a : A) : frame Q (mret a : run A).
Proof. intros s. split; [done|by exists []]. Qed.
Lemma frame_bind {A B} (m : run A) (f : A -> run B) : frame Q m -> (forall a, frame Q (f a)) -> frame Q (mbind f m).
Proof.
  intros Hm Hf s. unfold mbind, run_bind. destruct (Hm s) as (Hc & d & Hl & Hd). destruct (m s) as [s1 [a|]]; cbn [fst snd] in *; [|eauto].
  destruct (Hf a s1) as (Hc' & d' & Hl' & Hd'). split; [by rewrite Hc'|]. exists (d ++ d'). split; [|by rewrite forallb_app, Hd, Hd'].
  unfold applied in *. by rewrite Hl', foldl_app, Hl.
Qed.
Lemma frame_onData f : (forall a, core (f a) = core a) -> frame Q (onData f : run unit).
Proof. intros Hf s. split; [apply Hf|by exists []]. Qed.
Lemma frame_gets {A} (f : data -> A) : frame Q (gets f : run A).
Proof. intros s. split; [done|by exists []]. Qed.
Lemma frame_getl {A} (f : life -> A) : frame Q (getl f : run A).
Proof. intros s. split; [done|by exists []]. Qed.
Lemma frame_lift {A} (g : go A) : frame Q (lift g : run A).
Proof. intros s. split; [done|by exists []]. Qed.
Lemma frame_op o : Q o = true -> frame Q (onLife (fun l => apply_op l o) : run unit).
Proof. intros Ho s. split; [done|]. exists [o]. cbn. by rewrite Ho. Qed.
Lemma frame_opening ans r : Q (OOpen r) = true -> frame Q (opening ans r : run _).
Proof. intros Ho. unfold opening. destruct ans; [apply frame_ret|]. apply frame_bind; [by apply (frame_op (OOpen r))|intros; apply frame_ret]. Qed.
Lemma frame_setRow i n b dt : frame Q (setRow i n b dt : run unit).
Proof. intros s. unfold setRow. destruct (_ <? _)%nat; (split; [done|by exists []]). Qed.
Context (h : @host M MC MO MS MP).

Lemma frame_writeAgentStatus cfg b : Q (ONote (Status b)) = true -> frame Q (writeAgentStatus h cfg b).
Proof.
  intros Hb. unfold writeAgentStatus. case_decide; [apply frame_ret|]. destruct (h_status h b); [apply frame_ret|].
  apply frame_bind; [by apply (frame_op (ONote (Status b)))|intros; apply frame_ret].
Qed.

(** Without the promise on the data. *)
Definition calm {A} (m : run A) : Prop := forall s, exists d, r_life (m s).1 = applied (r_life s) d /\ forallb Q d = true.

Lemma frame_calm {A} (m : run A) : frame Q m -> calm m.
Proof. intros Hm s. apply Hm. Qed.
Lemma calm_bind {A B} (m : run A) (f : A -> run B) : calm m -> (forall a, calm (f a)) -> calm (mbind f m).
Proof.
  intros Hm Hf s. unfold mbind, run_bind. destruct (Hm s) as (d & Hl & Hd). destruct (m s) as [s1 [a|]]; cbn [fst snd] in *; [|eauto].
  destruct (Hf a s1) as (d' & Hl' & Hd'). exists (d ++ d'). split; [|by rewrite forallb_app, Hd, Hd'].
  unfold applied in *. by rewrite Hl', foldl_app, Hl.
Qed.
Lemma calm_onData f : calm (onData f).
Proof. intros s. by exists []. Qed.

Lemma applied_hist e l d : e ∈ l_hist l -> e ∈ l_hist (applied l d).
Proof.
  unfold applied. revert l. induction d as [|o d IH]; intros l He; [done|]. cbn [foldl]. apply IH. destruct o; cbn; try done; by right.
Qed.

Lemma calm_hist {A} (m : run A) s e : calm m -> e ∈ l_hist (r_life s) -> e ∈ l_hist (r_life (m s).1).
Proof. intros Hm He. destruct (Hm s) as (d & -> & _). by apply applied_hist. Qed.
End Frames.

Ltac frame_step :=
  lazymatch goal with
  | |- frame _ (mbind _ _) => apply frame_bind; [|intros ?]
  | |- frame _ (mret _) => apply frame_ret
  | |- frame _ (onData _) => apply frame_onData; done
  | |- frame _ (gets _) => apply frame_gets
  | |- frame _ (getl _) => apply frame_getl
  | |- frame _ (lift _) => apply frame_lift
  | |- frame _ (push ?f) => apply (frame_op _ (OPush f)); vm_compute; reflexivity
  | |- frame _ (closeRes ?r) => apply (frame_op _ (OClose r)); vm_compute; reflexivity
  | |- frame _ (setR ?r) => apply (frame_op _ (OSetR r)); vm_compute; reflexivity
  | |- frame _ (setPtr ?r) => apply (frame_op _ (OSetPtr r)); vm_compute; reflexivity
  | |- frame _ (clearPtr ?r) => apply (frame_op _ (ONilPtr r)); vm_compute; reflexivity
  | |- frame _ (onLife withLSM) => apply (frame_op _ OLSMOn); vm_compute; reflexivity
  | |- frame _ (onLife withDefend) => apply (frame_op _ ODefendOn); vm_compute; reflexivity
  | |- frame _ (attach _ _) => apply frame_opening; vm_compute; reflexivity
  | |- frame _ (loadObjects _ _) => apply frame_opening; vm_compute; reflexivity
  | |- frame _ (newReader _ _) => apply frame_opening; vm_compute; reflexivity
  | |- frame _ (addRow _ _ _) => apply frame_onData; done
  | |- frame _ (setRow _ _ _ _) => apply frame_setRow
  | |- frame _ (writeAgentStatus _ _ _) => apply frame_writeAgentStatus; vm_compute; reflexivity
  | |- frame _ (if ?b then _ else _) => destruct b
  | |- frame _ (match ?x with _ => _ end) => destruct x
  end; cbn beta iota zeta.

(** * Readiness *)

(** The links without which a defend run is not ready. *)
Definition enforcing : list lnk := [LConnect4; LSendmsg4; LConnect6; LSendmsg6; LExec; LSyscall].

(** No operation closes one of them; before the readiness it is not reported. *)
Definition keeps (o : op) : bool :=
  match o with OClose (Lnk l) => negb (bool_decide (l ∈ enforcing)) | ONote (Closed _) => false | _ => true end.
Definition unready (o : op) : bool := match o with ONote (Status true) => false | _ => true end.
Definition waits (o : op) : bool := keeps o && unready o.

Section Ready.
Context `{UnicodeCase} `{!RangeOrder bytes} {M MC MO MS MP : Type}.
Context `{!BpfMapOps bytes Z M} `{!BpfMapOps Z Z MC} `{!BpfMapOps bytes bytes MO} `{!BpfMapOps Z (Z * Z) MS} `{!BpfMapOps Z (list Z) MP}.
Context (h : @host M MC MO MS MP) (cfg : Config) (pol : option Policy).

Lemma trackDefendLink_frame l : frame waits (trackDefendLink h l).
Proof. unfold trackDefendLink. repeat frame_step. Qed.

Lemma attachTCX_frame l i n : frame waits (attachTCX h l i n).
Proof.
  revert i n. induction l as [|[lo up] l IH]; intros i n; cbn [attachTCX]; [apply frame_ret|]. destruct (lo || negb up); [apply IH|].
  frame_step; [frame_step|]. destruct a; [apply IH|]. frame_step; [apply trackDefendLink_frame|apply IH].
Qed.

Lemma seedOwnerMap_frame : frame waits (seedOwnerMap h cfg).
Proof.
  intros s. unfold seedOwnerMap, mbind, run_bind, gets. cbn [id]. case_decide; [split; [done|by exists []]|].
  destruct (seedDefendOwners _ _ _) as [[m ?] fails]. split; [done|by exists []].
Qed.
Lemma attachTracked_frame l : frame waits (attachTracked h l).
Proof. unfold attachTracked. repeat first [apply trackDefendLink_frame|frame_step]. Qed.
Lemma attachDefendIPv4_frame : frame waits (attachDefendIPv4 h).
Proof. unfold attachDefendIPv4. repeat first [apply attachTracked_frame|frame_step]. Qed.
Lemma attachEgressBackstop_frame : frame waits (attachEgressBackstop h).
Proof. unfold attachEgressBackstop. repeat first [apply attachTCX_frame|frame_step]. Qed.
Lemma attachDefendIPv6_frame : frame waits (attachDefendIPv6 h).
Proof. unfold attachDefendIPv6. repeat first [apply trackDefendLink_frame|frame_step]. Qed.
Lemma confirmEnforcement_frame : frame waits (confirmEnforcement h cfg).
Proof. unfold confirmEnforcement. repeat frame_step. Qed.
Lemma finalizeBpfSelfDefense_frame : frame waits (finalizeBpfSelfDefense h).
Proof.
  unfold finalizeBpfSelfDefense. frame_step; [frame_step|]. destruct (negb a); [frame_step|].
  (* the maps of the self-defence program are not those of the backend *)
  intros s. unfold mbind, run_bind, gets. cbn [fst snd id]. unfold armBpfSelfDefense.
  destruct (d_selfCfg _) as [c|]; [|split; [done|by exists []]].
  destruct (putIDsIf _ _) as [? ?], (putIDsIf _ _) as [? ?], (putIDsIf _ _) as [? ?], (bm_update c 0 _) as [? ?]. split; [done|by exists []].
Qed.
Lemma loadLSMMaps_frame : frame waits (loadLSMMaps pol : @run M MC MO MS _).
Proof.
  intros s. unfold loadLSMMaps, mbind, run_bind, gets. cbn [id]. destruct (loadLSMDefendMaps _ _ _) as [[ms|] r]; (split; [done|by exists []]).
Qed.
Lemma loadDefendLSM_frame a b : frame waits (loadDefendLSM h pol a b).
Proof.
  unfold loadDefendLSM, attachSendpage, attachSelfDefense, attachIoUringCmd.
  repeat first [apply trackDefendLink_frame|apply loadLSMMaps_frame|frame_step].
Qed.
Lemma loadExec_frame : frame waits (loadExec h).
Proof. unfold loadExec. repeat frame_step. Qed.
Lemma armSyscall_frame : frame unready (armSyscall h cfg).
Proof.
  unfold armSyscall, armTCPStateTrace, armIoUringTrace, startSyscallTrace, attachTCPConnectKprobes, startIoUringTrace. repeat frame_step.
Qed.
Lemma detectReady_frame : frame keeps (detectReady h cfg).
Proof. unfold detectReady. repeat frame_step. Qed.
Lemma writeStartupMeta_frame : frame waits (writeStartupMeta h cfg).
Proof.
  intros s. unfold writeStartupMeta. case_decide; [split; [done|by exists []]|]. destruct (negb _); (split; [done|]); [by exists []|].
  by eexists [ONote _].
Qed.
Lemma loadOptional_frame : frame waits (loadOptional h cfg).
Proof.
  unfold loadOptional, loadDNS, startDNSTrace, loadFork, loadFS, loadTraced, loadKTLS, startKTLSTrace, loadIPv6Obs, startIPv6ObsTrace, loadBPFAudit,
    startBPFAuditTrace, startOne. repeat first [apply writeStartupMeta_frame|frame_step].
Qed.
Lemma serve_frame : frame keeps (serve h cfg).
Proof.
  unfold serve. frame_step; [intros s; split; [done|]; by eexists [ONote _]|]. frame_step; [repeat frame_step|]. frame_step; [|frame_step].
  apply frame_onData. intros x. by destruct (h_running h _).
Qed.

(** The loading of the defend collection, up to its end. *)
Lemma loadCgroupMaps_calm : calm waits (loadCgroupMaps pol : @run M MC MO MS _).
Proof.
  unfold loadCgroupMaps. apply calm_bind; [apply frame_calm; frame_step|]. intros a. cbv zeta. apply calm_bind; [apply frame_calm; frame_step|].
  intros x. destruct x.1 as [[ms m6]|]; [|apply frame_calm; frame_step]. apply calm_bind; [apply calm_onData|]. intros. apply frame_calm. frame_step.
Qed.

Lemma loadDefend_calm : calm waits (loadDefend h cfg pol).
Proof.
  unfold loadDefend. destruct (negb _); [apply frame_calm; frame_step|]. destruct (LoadDefendObjectsForKernel _ _ _) as [st [res|e]]; [|apply frame_calm; frame_step].
  apply calm_bind.
  { unfold registerDefend. apply calm_bind; [apply frame_calm; apply (frame_op _ (OOpen (Obj ODefend))); reflexivity|]. intros _.
    apply calm_bind; [apply calm_onData|]. intros _. apply frame_calm. repeat frame_step. }
  intros _. apply calm_bind; [apply frame_calm, loadDefendLSM_frame|]. intros [a|e]; [|apply frame_calm; frame_step].
  apply calm_bind; [apply frame_calm; frame_step|]. intros l. apply calm_bind.
  - unfold loadDefendCgroup. apply calm_bind; [apply loadCgroupMaps_calm|]. intros [[[n4 n6] ni]|e]; apply frame_calm; [|frame_step].
    repeat first [apply seedOwnerMap_frame|apply attachDefendIPv4_frame|apply attachEgressBackstop_frame|apply attachDefendIPv6_frame|
                  apply confirmEnforcement_frame|frame_step].
  - intros [e|]; apply frame_calm; [frame_step|]. frame_step; [apply finalizeBpfSelfDefense_frame|frame_step].
Qed.

(** ** What a phase that succeeds has done *)

Lemma bind_inv {A B} (m : @run M MC MO MS A) (f : A -> run B) s s' b : mbind f m s = (s', Ret b) -> exists s1 a, m s = (s1, Ret a) /\ f a s1 = (s', Ret b).
Proof. unfold mbind, run_bind. destruct (m s) as [s1 [a|]]; [eauto|done]. Qed.

Lemma frame_inv {A} Q (m : @run M MC MO MS A) s s' r : frame Q m -> m s = (s', r) ->
  core (r_data s') = core (r_data s) /\ forall e, e ∈ l_hist (r_life s) -> e ∈ l_hist (r_life s').
Proof.
  intros Hm E. pose proof (Hm s) as (Hc & d & Hl & _). rewrite E in Hc, Hl. split; [done|]. intros e He. cbn in Hl. rewrite Hl. by apply applied_hist.
Qed.

Lemma attach_inv l s s' : attach h l s = (s', Ret None) -> s' = mkR (note (Opened (Lnk l)) (r_life s)) (r_data s).
Proof. unfold attach, opening. destruct (h_attach h l); [done|]. by intros [= <-]. Qed.

Lemma track_inv l s s' : trackDefendLink h l s = (s', Ret tt) -> l_hist (r_life s') = l_hist (r_life s).
Proof. unfold trackDefendLink, mbind, run_bind. cbn. destruct (h_linkID h l); by intros [= <-]. Qed.

Lemma attachTracked_inv l s s' : attachTracked h l s = (s', Ret None) -> Opened (Lnk l) ∈ l_hist (r_life s').
Proof.
  unfold attachTracked. intros (s1 & [e|] & E1 & E2)%bind_inv; [done|]. apply attach_inv in E1 as ->.
  apply bind_inv in E2 as (s2 & [] & E2 & E3). injection E3 as <-. rewrite (track_inv _ _ _ E2). by left.
Qed.

Lemma attachDefendIPv4_inv s s' : attachDefendIPv4 h s = (s', Ret None) -> Forall (fun l => Opened (Lnk l) ∈ l_hist (r_life s')) [LConnect4; LSendmsg4].
Proof.
  unfold attachDefendIPv4. intros (s1 & [e|] & _ & E2)%bind_inv; [done|]. apply bind_inv in E2 as (s2 & [] & _ & E2).
  apply bind_inv in E2 as (s3 & [e|] & E3 & E4); [done|]. pose proof (frame_inv _ _ _ _ _ (attachTracked_frame LSendmsg4) E4) as [_ Hh].
  apply attachTracked_inv in E3, E4. repeat constructor; auto.
Qed.

Lemma attachDefendIPv6_inv s s' : (forall p, p ∈ cgroupHooks6 -> p ∈ a_progs (r_data s)) -> attachDefendIPv6 h s = (s', Ret None) ->
  Forall (fun l => Opened (Lnk l) ∈ l_hist (r_life s')) [LConnect6; LSendmsg6].
Proof.
  intros Hp. unfold attachDefendIPv6. intros (s0 & progs & [= <- <-] & E)%bind_inv.
  rewrite !decide_True in E by (apply Hp; by apply (bool_decide_unpack _)).
  apply bind_inv in E as (s1 & [e|] & E1 & E2); [done|].
  apply bind_inv in E1 as (s2 & [e|] & E1 & E3); [done|]. apply attach_inv in E1. apply bind_inv in E3 as (s3 & [] & E3%track_inv & [= <-]).
  apply bind_inv in E2 as (s4 & [e|] & E4 & E5); [done|]. apply attach_inv in E4. apply bind_inv in E5 as (s5 & [] & E5%track_inv & [= <-]).
  subst s2 s4. cbn in E3, E5. rewrite E5, E3.
  constructor; [right; by left|]. constructor; [by left|constructor].
Qed.

(** The maps of the cgroup backend are those that [loadDefendMaps] made of new
    ones, for the allowlist of the run. *)
Definition armed (c : gset bytes * CompileResult * (MC * option M * option M * option M)) : Prop :=
  let '(_, compiled, (cfgm, ignoredm, allowedm, allowed6m)) := c in
  exists ms n doms, loadDefendMaps (Some (mkMapSet (h_freshCfg h) (Some (h_fresh h)) (Some (h_fresh h)) doms, Some (h_fresh h))) compiled pol =
    Ret (Some (ms, allowed6m), Ok n) /\ cfgm = dm_cfg ms /\ ignoredm = dm_ignoredLPM ms /\ allowedm = dm_allowedLPM ms.

Lemma loadCgroupMaps_inv (s s' : @rstate M MC MO MS) n : d_cfg (a_maps (r_data s)) = h_freshCfg h -> d_ignored (a_maps (r_data s)) = Some (h_fresh h) ->
  d_allowed (a_maps (r_data s)) = Some (h_fresh h) -> d_allowed6 (a_maps (r_data s)) = Some (h_fresh h) ->
  loadCgroupMaps pol s = (s', Ret (Ok n)) -> armed (core (r_data s')) /\ a_progs (r_data s') = a_progs (r_data s).
Proof.
  intros H1 H2 H3 H4. unfold loadCgroupMaps. intros (s0 & a & [= <- <-] & E)%bind_inv. cbn [id] in E. rewrite H1, H2, H3, H4 in E.
  apply bind_inv in E as (s1 & x & E1 & E2). injection E1 as <- E1. destruct x as [[[ms m6]|] r]; cbn [fst snd] in E2; [|done].
  injection E2 as <- E2. split; [|done]. destruct r as [n'|]; [|done]. exists ms, n', (d_domains (a_maps (r_data s))). split; [exact E1|done].
Qed.

(** The programs and maps of the cgroup section are there after a load. *)
Lemma loaded_required k w io st res : LoadDefendObjectsForKernel k w io = (st, Ok res) ->
  requiredPrograms false false ⊆ obj_progs st /\ requiredMaps false ⊆ obj_maps st.
Proof.
  unfold LoadDefendObjectsForKernel. destruct (loadCollection k w io) as [[coll res']|]; [|done].
  destruct (moving_all (w && negb (LSMFellBack res')) io (mkLState coll ∅ ∅) (start_split coll)) as (_ & Hok & _).
  destruct (detachAll _ _ _) as [st' [[]|]]; [|done]. intros [= <- <-]. destruct (Hok eq_refl) as [Hp Hm]. cbn [fst] in *.
  destruct (w && _), io; (split; (etrans; [|eassumption]); by_computation).
Qed.

Lemma loadDefend_inv s s' : Defend (Config_ModeConfig cfg) = true -> loadDefend h cfg pol s = (s', Ret None) ->
  armed (core (r_data s')) /\ probeDefendEnforcement (h_denyReads h) = Ret None /\
  Forall (fun l => Opened (Lnk l) ∈ l_hist (r_life s')) [LConnect4; LSendmsg4; LConnect6; LSendmsg6].
Proof.
  intros Hd. unfold loadDefend. rewrite Hd. cbn [negb]. destruct (LoadDefendObjectsForKernel _ _ _) as [st [res|e]] eqn:El; [|done].
  apply loaded_required in El as [Hp Hm]. intros (s1 & [] & E1 & E2)%bind_inv.
  assert (a_progs (r_data s1) = obj_progs st /\ a_maps (r_data s1) = freshMaps h (obj_maps st)) as [Ep Em].
  { revert E1. unfold registerDefend, mbind, run_bind. cbn. destruct (LSMFellBack res); by intros [= <-]. }
  apply bind_inv in E2 as (s2 & [x|] & E2 & E3); [|done]. apply (frame_inv _ _ _ _ _ (loadDefendLSM_frame _ _)) in E2 as [Ec _].
  apply bind_inv in E3 as (s3 & lsm & [= <- <-] & E3). apply bind_inv in E3 as (s4 & [e|] & E3 & E4); [done|].
  apply bind_inv in E4 as (s5 & [] & E4 & E5). injection E5 as <-. apply (frame_inv _ _ _ _ _ finalizeBpfSelfDefense_frame) in E4 as [Ec4 Eh4].
  unfold loadDefendCgroup in E3. apply bind_inv in E3 as (t1 & [[[n4 n6] ni]|] & F1 & E3); [|done].
  apply bind_inv in E3 as (t2 & [] & [= <-] & E3). apply bind_inv in E3 as (t3 & [] & [= <-] & E3). apply bind_inv in E3 as (t4 & [] & F4 & E3).
  apply bind_inv in E3 as (t5 & [e|] & F5 & E3); [done|]. apply bind_inv in E3 as (t6 & [] & F6 & E3).
  apply bind_inv in E3 as (t7 & [e|] & F7 & F8); [done|].
  assert (forall n, n ∈ requiredMaps false -> n ∈ obj_maps st) as Hin by (intros n Hn; by apply Hm).
  unfold core in Ec. rewrite Ep, Em in Ec. unfold freshMaps in Ec. cbn [d_cfg d_ignored d_allowed d_allowed6] in Ec.
  rewrite !decide_True in Ec by (apply Hin; by_computation). injection Ec as K1 K2 K3 K4 K5 K6.
  apply loadCgroupMaps_inv in F1 as [Ha Hpr]; [|done..].
  apply (frame_inv _ _ _ _ _ seedOwnerMap_frame) in F4 as [C4 G4]. pose proof (frame_inv _ _ _ _ _ attachDefendIPv4_frame F5) as [C5 G5].
  apply (frame_inv _ _ _ _ _ attachEgressBackstop_frame) in F6 as [C6 G6]. pose proof (frame_inv _ _ _ _ _ attachDefendIPv6_frame F7) as [C7 G7].
  pose proof (frame_inv _ _ _ _ _ confirmEnforcement_frame F8) as [C8 G8].
  assert (core (r_data t6) = core (r_data t1)) as C16 by (rewrite C6, C5, C4; done).
  split_and!.
  - by rewrite Ec4, C8, C7, C16.
  - revert F8. unfold confirmEnforcement. intros (u & q & Eq & F8)%bind_inv. injection Eq as _ Eq. rewrite Eq. destruct q; [|done].
    by apply bind_inv in F8 as (? & ? & _ & F8).
  - apply attachDefendIPv4_inv in F5. apply attachDefendIPv6_inv in F7.
    + rewrite !Forall_cons in *. naive_solver.
    + intros p Hpin. apply (f_equal (fun c => c.1.1)) in C16. cbn in C16. rewrite C16, Hpr, K1. apply Hp. unfold requiredPrograms.
      apply elem_of_list_to_set, elem_of_app. right. apply elem_of_app. by left.
Qed.

Lemma loadExec_inv s s' : loadExec h s = (s', Ret None) -> Opened (Lnk LExec) ∈ l_hist (r_life s').
Proof.
  unfold loadExec. intros (s1 & [e|] & _ & E)%bind_inv; [done|]. do 2 apply bind_inv in E as (? & [] & _ & E).
  apply bind_inv in E as (s2 & [e|] & E1 & E); [done|]. apply attach_inv in E1 as ->.
  apply (frame_inv waits) in E as [_ Hh]; [apply Hh; by left|]. repeat frame_step.
Qed.

Lemma startSyscallTrace_inv b s s' x : startSyscallTrace h b s = (s', Ret (Ok x)) ->
  r_life s' = applied (r_life s) [OOpen (Obj OSyscall); OOpen (Lnk LSyscall); OOpen (Rdr RConn); OOpen (Rdr RUdp); OOpen (Rdr RHttp); OOpen (Rdr RTls)].
Proof.
  unfold startSyscallTrace, loadObjects, attach, newReader, opening, mbind, run_bind.
  destruct (h_load h _), (h_attach h _); try done. destruct (h_reader h RConn), (h_reader h RUdp), (h_reader h RHttp), (h_reader h RTls); try done.
  by intros [= <- _].
Qed.

Lemma armSyscall_inv s s' : Defend (Config_ModeConfig cfg) = true -> armSyscall h cfg s = (s', Ret None) ->
  Opened (Lnk LSyscall) ∈ l_hist (r_life s') /\ exists d, r_life s' = applied (r_life s) d /\ forallb keeps d = true.
Proof.
  intros Hd. unfold armSyscall. intros (s1 & [x|e] & E1 & E2)%bind_inv.
  - apply startSyscallTrace_inv in E1. lazymatch type of E2 with ?m _ = _ => assert (frame keeps m) as Hf end.
    { unfold attachTCPConnectKprobes, armTCPStateTrace, armIoUringTrace, startIoUringTrace. repeat frame_step. }
    destruct (Hf s1) as (_ & d & Hl & Hk). rewrite E2 in Hl. cbn [fst] in Hl. split.
    + rewrite Hl, E1. apply applied_hist. cbn. do 4 right. by left.
    + eexists (_ ++ d). split; [rewrite Hl, E1; unfold applied; by rewrite <- foldl_app|]. by rewrite forallb_app, Hk.
  - apply bind_inv in E2 as (s2 & [] & _ & E2). rewrite Hd in E2. by apply bind_inv in E2 as (? & ? & _ & ?).
Qed.

(** ** The whole run *)

Lemma orElse_inv (m k : @run M MC MO MS (option run_err)) s s' r : orElse m k s = (s', r) ->
  (exists e, m s = (s', e)) \/ exists s1, m s = (s1, Ret None) /\ k s1 = (s', r).
Proof. unfold orElse, mbind, run_bind. destruct (m s) as [s1 [[e|]|]]; [intros [= <- _]; eauto|eauto|intros [= <- _]; eauto]. Qed.

Lemma unready_hist l d : forallb unready d = true -> Status true ∈ l_hist (applied l d) -> Status true ∈ l_hist l.
Proof.
  unfold applied. revert l. induction d as [|o d IH]; intros l; [done|]. cbn [foldl forallb]. rewrite andb_true_iff. intros [Ho Hd] He.
  apply IH in He; [|done]. destruct o; cbn in He; try done; rewrite elem_of_cons in He; destruct He as [He|]; try done. by subst e.
Qed.

Lemma keeps_hist l d x : x ∈ enforcing -> forallb keeps d = true -> Closed (Lnk x) ∈ l_hist (applied l d) -> Closed (Lnk x) ∈ l_hist l.
Proof.
  intros Hx. unfold applied. revert l. induction d as [|o d IH]; intros l; [done|]. cbn [foldl forallb]. rewrite andb_true_iff. intros [Ho Hd] He.
  apply IH in He; [|done]. destruct o; cbn in He; try done; rewrite elem_of_cons in He; destruct He as [He|]; try done.
  - injection He as <-. cbn in Ho. by rewrite bool_decide_eq_true_2 in Ho.
  - by subst e.
Qed.

Lemma waits_both d : forallb waits d = true -> forallb keeps d = true /\ forallb unready d = true.
Proof. induction d as [|o d IH]; [done|]. cbn [forallb]. unfold waits. rewrite !andb_true_iff. naive_solver. Qed.

(** After the phases that must succeed, nothing is closed and the core stays. *)
Lemma rest_frame : frame keeps (orElse (detectReady h cfg) (orElse (loadOptional h cfg) (serve h cfg))).
Proof.
  assert (frame keeps (loadOptional h cfg)) as Hopt.
  { intros s. destruct (loadOptional_frame s) as (Hc & d & Hl & [Hk _]%waits_both). eauto. }
  unfold orElse. repeat first [apply detectReady_frame|apply Hopt|apply serve_frame|frame_step].
Qed.

Lemma bind_eq {A B} (m : @run M MC MO MS A) (f : A -> run B) s s1 a : m s = (s1, Ret a) -> mbind f m s = f a s1.
Proof. intros E. unfold mbind, run_bind. by rewrite E. Qed.

Lemma finalizeAllowlist_life s : exists s1, finalizeAllowlist h cfg s = (s1, Ret tt) /\ r_life s1 = r_life s.
Proof. unfold finalizeAllowlist. destruct (ResolverAutoAllow _); eexists; split; reflexivity. Qed.

Lemma compile_life s s1 e : compile h cfg s = (s1, e) -> r_life s1 = r_life s.
Proof. unfold compile. destruct (compileDefendAllowlist _ _); by intros [= <- _]. Qed.

Lemma phases_ready s s' r : Defend (Config_ModeConfig cfg) = true -> l_hist (r_life s) = [] ->
  orElse (loadDefend h cfg pol) (orElse (loadExec h) (orElse (armSyscall h cfg) (orElse (detectReady h cfg) (orElse (loadOptional h cfg) (serve h cfg))))) s = (s', r) ->
  Status true ∈ l_hist (r_life s') ->
  armed (core (r_data s')) /\ probeDefendEnforcement (h_denyReads h) = Ret None /\
  Forall (fun l => Opened (Lnk l) ∈ l_hist (r_life s') /\ Closed (Lnk l) ∉ l_hist (r_life s')) enforcing.
Proof.
  intros Hd H0 Hrun Hs. destruct (loadDefend_calm s) as (d1 & L1 & [K1 U1]%waits_both).
  apply orElse_inv in Hrun as [[e E1]|(s1 & E1 & Hrun)]; rewrite E1 in L1; cbn [fst] in L1.
  { rewrite L1 in Hs. apply unready_hist in Hs; [|done]. rewrite H0 in Hs. by apply elem_of_nil in Hs. }
  destruct (loadExec_frame s1) as (C2 & d2 & L2 & [K2 U2]%waits_both).
  apply orElse_inv in Hrun as [[e E2]|(s2 & E2 & Hrun)]; rewrite E2 in L2, C2; cbn [fst] in L2, C2.
  { rewrite L2, L1 in Hs. do 2 (apply unready_hist in Hs; [|done]). rewrite H0 in Hs. by apply elem_of_nil in Hs. }
  destruct (armSyscall_frame s2) as (C3 & d3 & L3 & U3).
  apply orElse_inv in Hrun as [[e E3]|(s3 & E3 & Hrun)]; rewrite E3 in L3, C3; cbn [fst] in L3, C3.
  { rewrite L3, L2, L1 in Hs. do 3 (apply unready_hist in Hs; [|done]). rewrite H0 in Hs. by apply elem_of_nil in Hs. }
  destruct (rest_frame s3) as (C4 & d4 & L4 & K4). rewrite Hrun in L4, C4. cbn [fst] in L4, C4.
  apply loadDefend_inv in E1 as (Ha & Hp & Ho); [|done]. apply loadExec_inv in E2. apply armSyscall_inv in E3 as (O3 & d3' & L3' & K3); [|done].
  split_and!; [by rewrite C4, C3, C2|done|]. apply Forall_forall. intros l Hl. split.
  - rewrite L4. apply applied_hist. unfold enforcing in Hl. rewrite !Forall_cons in Ho. destruct Ho as (O1 & O2 & O4 & O6 & _).
    repeat (apply elem_of_cons in Hl as [->|Hl]); [..|by apply elem_of_nil in Hl]; try done; rewrite L3; apply applied_hist; try done; rewrite L2; by apply applied_hist.
  - rewrite L4. intros Hc. apply keeps_hist in Hc; [|done..]. rewrite L3' in Hc. apply keeps_hist in Hc; [|done..].
    rewrite L2 in Hc. apply keeps_hist in Hc; [|done..]. rewrite L1 in Hc. apply keeps_hist in Hc; [|done..]. rewrite H0 in Hc. by apply elem_of_nil in Hc.
Qed.

Lemma runBody_ready s r : Defend (Config_ModeConfig cfg) = true -> runBody h cfg pol (initial h) = (s, r) -> Status true ∈ l_hist (r_life s) ->
  armed (core (r_data s)) /\ probeDefendEnforcement (h_denyReads h) = Ret None /\
  Forall (fun l => Opened (Lnk l) ∈ l_hist (r_life s) /\ Closed (Lnk l) ∉ l_hist (r_life s)) enforcing.
Proof.
  intros Hd Hrun Hs. unfold runBody in Hrun. do 2 erewrite bind_eq in Hrun by reflexivity.
  apply orElse_inv in Hrun as [[e E]|(s1 & E & Hrun)].
  { apply compile_life in E. rewrite E in Hs. by apply elem_of_nil in Hs. }
  apply compile_life in E. destruct (finalizeAllowlist_life s1) as (s2 & E2 & L2). rewrite (bind_eq _ _ _ _ _ E2) in Hrun.
  erewrite bind_eq in Hrun by reflexivity. eapply phases_ready; [done| |exact Hrun|done]. cbn. by rewrite L2, E.
Qed.

Lemma probe_confirmed reads : probeDefendEnforcement reads = Ret None -> exists raw, PRecord raw ∈ reads /\ matchProbeDenyEvent raw = Ret true.
Proof.
  induction reads as [|[raw| | ] reads IH]; cbn [probeDefendEnforcement]; [done| |done|done].
  destruct (matchProbeDenyEvent raw) as [[]|] eqn:E; cbn; [|intros Hr; destruct (IH Hr) as (raw' & ? & ?)|done].
  - exists raw. split; [by left|done].
  - exists raw'. split; [by right|done].
Qed.
End Ready.

Section Theorems.
Context `{UnicodeCase} `{!RangeOrder bytes} {M MC MO MS MP : Type}.
Context `{!BpfMapOps bytes Z M} `{!BpfMapOps Z Z MC} `{!BpfMapOps bytes bytes MO} `{!BpfMapOps Z (Z * Z) MS} `{!BpfMapOps Z (list Z) MP}.
Context `{!BpfMapLaws bytes Z M} `{!BpfMapExact bytes Z M} `{!BpfMapLaws Z Z MC}.
Context (h : @host M MC MO MS MP) (cfg : Config).

(** C12: ready means enforcing.  When a run in defend mode has reported that it
    is ready, on whatever kernel, the IPv4 and IPv6 connect and sendmsg hooks,
    the exec hook and the syscall hook are attached and still are, the probe's
    own connect was denied by the kernel, and the maps of the backend hold the
    mode flag and exactly the keys of the compiled allowlist and the policy; the
    IPv6 trie was programmed without an error.  A new map of the kernel is
    empty. *)
Theorem ready_is_armed s pol r : bm_view (h_fresh h) = ∅ -> Defend (Config_ModeConfig cfg) = true ->
  Run h cfg = (Some (s, pol), r) -> Status true ∈ l_hist (r_life s) ->
  Forall (fun l => Opened (Lnk l) ∈ l_hist (r_life s) /\ Closed (Lnk l) ∉ l_hist (r_life s)) enforcing /\
  (exists raw, PRecord raw ∈ h_denyReads h /\ matchProbeDenyEvent raw = Ret true) /\
  let compiled := a_compiled (r_data s) in
  let maps := a_maps (r_data s) in
  exists m i n6, d_allowed maps = Some m /\ d_ignored maps = Some i /\ bm_view (d_cfg maps) !! 0 = Some 1 /\
    dom (bm_view m) = expectedAllowedKeys compiled (Some pol) /\ dom (bm_view i) = expectedIgnoredKeys (Some pol) /\
    populateAllowedIPv6Map (Some (h_fresh h)) compiled (Some pol) = Ret (d_allowed6 maps, Ok n6).
Proof.
  intros Hv Hd. unfold Run. destruct (Config_Policy cfg) as [p|]; [|done]. destruct (h_signer h); [done|]. destruct (h_memlock h); [done|].
  destruct (runBody h cfg (Some p) (initial h)) as [s1 r1] eqn:Eb. intros [= <- <- <-] Hs.
  destruct (runBody_ready h cfg (Some p) s1 r1 Hd Eb Hs) as ((ms & n & doms & Hload & E1 & E2 & E3) & Hp & Hl).
  split; [done|]. split; [by apply probe_confirmed|]. cbn zeta. cbn [loadDefendMaps] in Hload.
  destruct (loadDefendMapsForBackend _ _ _) as [ms' [[n4 ni]|]] eqn:E4; [|done].
  destruct (populateAllowedIPv6Map _ _ _) as [[m6 r6]|] eqn:E6; [|done]. cbn [mbind go_bind fst snd] in Hload.
  destruct r6 as [n6|]; [|done]. injection Hload as -> E7 _.
  destruct (load_inv (mkMapSet (h_freshCfg h) (Some (h_fresh h)) (Some (h_fresh h)) doms) ms (h_fresh h) (h_fresh h) _ p n4 ni eq_refl eq_refl Hv Hv E4) as (m & i & _ & Em & Ei & Hmode & Dm & Di & _).
  exists m, i, n6. rewrite E1, E2, E3, <- E7. done.
Qed.

Lemma len_when (b : bool) (g : goroutine) : length (filter (fun g : goroutine => sendsResult g = true) (when b g)) = Nat.b2n (b && sendsResult g).
Proof. destruct b; [|done]. unfold when. rewrite filter_cons, filter_nil. by destruct g. Qed.

Lemma len_bool b l : length (filter (fun b : bool => b = true) (b :: l)) = (Nat.b2n b + length (filter (fun b : bool => b = true) l))%nat.
Proof. by destruct b. Qed.

(** The channel of the results has room for every goroutine that sends. *)
Lemma channel_fits (s : @rstate M MC MO MS) : len (filter (fun g => sendsResult g = true) (spawnReaders s)) = countReaders s.
Proof.
  unfold spawnReaders, countReaders, len. rewrite !len_bool, !filter_app, !length_app, !len_when. cbn [sendsResult].
  rewrite !andb_true_r, !andb_false_r. change (length (filter (fun b : bool => b = true) [])) with 0%nat.
  change (length (filter (fun g : goroutine => sendsResult g = true) [GReader RExec])) with 1%nat. cbn [Nat.b2n]. lia.
Qed.
End Theorems.

(** * The error of a run *)

(** The errors that count: a cancellation is not one. *)
Definition real (e : option run_err) : option run_err := match e with Some e => if isCanceled e then None else Some e | None => None end.

Lemma prefer_real cur c : preferRunError cur c = match real c with
  | None => cur
  | Some c => match cur with None => Some c | Some e => if isDefendDenyError c && negb (isDefendDenyError e) then Some c else Some e end
  end.
Proof. destruct c as [c|]; [|done]. cbn. by destruct (isCanceled c). Qed.

(** What [foldl preferRunError] computes from the results of the goroutines in
    the order of the channel. *)
Lemma prefer_fold cur results : foldl preferRunError cur results =
  let errs := omap real results in
  let all := match cur with Some e => e :: errs | None => errs end in
  match List.find isDefendDenyError all with Some e => Some e | None => head all end.
Proof.
  revert cur. induction results as [|c results IH]; intros cur; cbn [foldl omap list_omap].
  { destruct cur as [e|]; cbn; [|done]. by destruct (isDefendDenyError e). }
  rewrite IH, prefer_real. destruct (real c) as [e|]; [|done]. cbn zeta. destruct cur as [x|]; [|done].
  destruct (isDefendDenyError e) eqn:He, (isDefendDenyError x) eqn:Hx; cbn [andb negb List.find head]; rewrite ?He, ?Hx; cbn; rewrite ?He, ?Hx; done.
Qed.

Section Result.
Context `{UnicodeCase} `{!RangeOrder bytes} {M MC MO MS MP : Type}.
Context `{!BpfMapOps bytes Z M} `{!BpfMapOps Z Z MC} `{!BpfMapOps bytes bytes MO} `{!BpfMapOps Z (Z * Z) MS} `{!BpfMapOps Z (list Z) MP}.
Context (h : @host M MC MO MS MP) (cfg : Config).

(** The error of the readiness report that follows the start of the readers. *)
Definition readyFailure : option run_err :=
  if DeferReadiness (Config_ModeConfig cfg)
  then if decide (AgentStatusPath cfg = []) then None else ErrReadyStatus <$> h_status h true
  else None.

(** The first denial among the errors, else the first error. *)
Definition worst (errs : list run_err) : option run_err :=
  match List.find isDefendDenyError errs with Some e => Some e | None => head errs end.

Lemma worst_prefer e errs : isDefendDenyError e = false -> isCanceled e = false -> Forall (fun x => isCanceled x = false) errs ->
  preferRunError (Some e) (worst errs) = worst (e :: errs).
Proof.
  intros He _ Hf. unfold worst. cbn [List.find head]. rewrite He. destruct (List.find isDefendDenyError errs) as [d|] eqn:Ed.
  - apply List.find_some in Ed as [Hin Hd]. cbn. rewrite Hd, He. destruct (isCanceled d) eqn:Hc; [|done]. by destruct d.
  - destruct errs as [|x errs]; [done|]. cbn [head preferRunError]. apply Forall_cons in Hf as [-> _]. cbn [List.find] in Ed.
    by destruct (isDefendDenyError x).
Qed.

Lemma omap_real results : Forall (fun x => isCanceled x = false) (omap real results).
Proof.
  apply Forall_forall. intros x (r & _ & Hr)%list_elem_of_omap. destruct r as [r|]; [|done]. cbn in Hr. destruct (isCanceled r) eqn:E; [done|]. by injection Hr as <-.
Qed.

Lemma serve_result s : (serve h cfg s).2 = Ret (worst (omap real (readyFailure :: h_results h))).
Proof.
  assert (foldl preferRunError None (h_results h) = worst (omap real (h_results h))) as Hfold by apply (prefer_fold None).
  assert (forall t, preferRunError (Some (ErrReadyStatus t)) (worst (omap real (h_results h))) = worst (ErrReadyStatus t :: omap real (h_results h))) as Hp
    by (intros t; apply worst_prefer; [done|done|apply omap_real]).
  unfold serve, readyFailure, writeAgentStatus. unfold mbind, run_bind. destruct (DeferReadiness _); cbn; [|by rewrite Hfold].
  case_decide; cbn; [by rewrite Hfold|]. destruct (h_status h true) as [t|]; cbn; rewrite Hfold; [by rewrite Hp|done].
Qed.

Lemma real_inv r x : real r = Some x -> r = Some x /\ isCanceled x = false.
Proof. destruct r as [r|]; [|done]. cbn. destruct (isCanceled r) eqn:E; [done|]. by intros [= <-]. Qed.

Lemma omap_real_head l x errs : omap real l = x :: errs -> exists pre post, l = pre ++ Some x :: post /\ Forall (fun r => real r = None) pre.
Proof.
  induction l as [|r l IH]; [done|]. cbn [omap list_omap]. destruct (real r) as [y|] eqn:E.
  - intros [= -> _]. apply real_inv in E as [-> _]. by exists [], l.
  - intros (pre & post & -> & Hp)%IH. exists (r :: pre), post. split; [done|by constructor].
Qed.

Lemma worst_inv errs x : worst errs = Some x -> x ∈ errs /\ (isDefendDenyError x = false -> head errs = Some x /\ ErrDeny ∉ errs).
Proof.
  unfold worst. destruct (List.find _ errs) as [d|] eqn:E.
  - intros [= ->]. apply List.find_some in E as [Hin Hd]. split; [by apply list_elem_of_In|congruence].
  - intros Hh. destruct errs as [|y errs]; [done|]. injection Hh as ->. split; [by left|]. intros _. split; [done|]. intros Hin%list_elem_of_In.
    by pose proof (List.find_none _ _ E _ Hin).
Qed.

Lemma worst_none l : worst (omap real l) = None <-> Forall (fun r => real r = None) l.
Proof.
  split.
  - unfold worst. destruct (List.find _ _); [done|]. induction l as [|r l IH]; [constructor|]. cbn [omap list_omap]. destruct (real r) eqn:E; [done|]. constructor; auto.
  - induction 1 as [|r l Hr _ IH]; [done|]. cbn [omap list_omap]. by rewrite Hr.
Qed.

(** C16: the error of a run.  The channel of the results has room for every
    goroutine that sends into it, so none blocks; the readers' phase ends with
    the first denial among the readiness failure and the results, in the order
    of the channel and cancellations apart, or else the first of them; it ends
    without error exactly when there is none; and [Main] reports that error. *)
Theorem run_result_reported s :
  len (filter (fun g => sendsResult g = true) (spawnReaders s)) = countReaders s /\
  exists e, (serve h cfg s).2 = Ret e /\ mainResult e = e /\
    (e = None <-> Forall (fun r => real r = None) (readyFailure :: h_results h)) /\
    forall x, e = Some x -> Some x ∈ readyFailure :: h_results h /\ isCanceled x = false /\
      (isDefendDenyError x = false -> Forall (fun r => r <> Some ErrDeny) (h_results h) /\
        exists pre post, readyFailure :: h_results h = pre ++ Some x :: post /\ Forall (fun r => real r = None) pre).
Proof.
  split; [apply channel_fits|]. exists (worst (omap real (readyFailure :: h_results h))). split; [apply serve_result|].
  set (l := readyFailure :: h_results h).
  assert (forall x, worst (omap real l) = Some x -> Some x ∈ l /\ isCanceled x = false) as Hx.
  { intros x [(r & Hr & [-> Hc]%real_inv)%list_elem_of_omap _]%worst_inv. done. }
  split_and!; [|apply worst_none|].
  - unfold mainResult. destruct (worst (omap real l)) as [x|]; [|done]. by destruct (Hx x eq_refl) as [_ ->].
  - intros x Hw. destruct (Hx x Hw) as [H1 H2]. split_and!; [done|done|]. intros Hd. apply worst_inv in Hw as [_ Hw]. destruct (Hw Hd) as [Hh Hn]. split.
    + apply Forall_forall. intros r Hr ->. apply Hn, list_elem_of_omap. exists (Some ErrDeny). split; [by right|done].
    + destruct (omap real l) as [|y errs] eqn:E; [done|]. injection Hh as ->. by apply omap_real_head in E.
Qed.
End Result.

Module Witness.
#[local] Existing Instance ascii_case.
#[local] Existing Instance plain_order.
Import LifecycleSafe.Witness.

Definition reported (hs : list event) : bool := existsb (fun e => match e with Status true => true | _ => false end) hs.

Lemma reported_elem hs : reported hs = true -> Status true ∈ hs.
Proof. intros (e & Hin & He)%existsb_exists. destruct e as [| | |[]| | | ]; try done. by apply list_elem_of_In. Qed.

Lemma ready_is_armed_witness : Forall (fun l => Opened (Lnk l) ∈ l_hist (r_life final0.1) /\ Closed (Lnk l) ∉ l_hist (r_life final0.1)) enforcing /\
  exists raw, PRecord raw ∈ [PRecord probed] /\ matchProbeDenyEvent raw = Ret true.
Proof.
  destruct (ready_is_armed h0 cfg_d final0.1 final0.2 (Ret None)) as (H1 & H2 & _).
  - reflexivity.
  - vm_compute. reflexivity.
  - rewrite <- (surjective_pairing final0). exact runs.
  - apply reported_elem. vm_compute. reflexivity.
  - split; [exact H1|exact H2].
Defined.

(** A kernel without the sendmsg hook for IPv6: no readiness is reported. *)
Example refused_hook_not_ready :
  let h := host0 true (fun l => if decide (l = LSendmsg6) then Some (str "invalid argument") else None) in
  let out := Run h cfg_d in
  out.2 = Ret (Some (ErrIPv6Enforcement LSendmsg6 (str "invalid argument"))) /\
  match out.1 with Some (s, _) => reported (l_hist (r_life s)) | None => true end = false.
Proof. vm_compute. split; reflexivity. Qed.
End Witness.
