(* ===== verification/Json.v ===== *)
(** Package encoding/json, as far as the program uses it: [Marshal] (strings
    with the HTML escaping it does by default, numbers, booleans, arrays,
    objects), the syntax that [Unmarshal] accepts, and the decoding of a value
    into Go variables: strings, integers of a width, booleans, slices, maps
    and the fields of a struct.

    A value is a tree, [json]; a number is its literal, as [json.Number] keeps
    it.  A string of the tree is the Go string: [quote] is what [Marshal]
    writes for it, [string_body] what [Unmarshal] reads. *)
From S2P Require Import Prelude GoStrings Telemetry.

Open Scope Z_scope.

Inductive json :=
  | JNull
  | JBool (b : bool)
  | JNum (lit : bytes)
  | JStr (s : bytes)
  | JArr (l : list json)
  | JObj (l : list (bytes * json)).

Fixpoint json_ind' (P : json -> Prop) (Hnull : P JNull) (Hbool : forall b, P (JBool b)) (Hnum : forall l, P (JNum l))
  (Hstr : forall s, P (JStr s)) (Harr : forall l, Forall P l -> P (JArr l))
  (Hobj : forall l, Forall (fun kv => P kv.2) l -> P (JObj l)) (v : json) : P v :=
  let rec := json_ind' P Hnull Hbool Hnum Hstr Harr Hobj in
  match v with
  | JNull => Hnull
  | JBool b => Hbool b
  | JNum l => Hnum l
  | JStr s => Hstr s
  | JArr l => Harr l ((fix go l : Forall P l := match l with [] => @List.Forall_nil _ P | x :: l' => @List.Forall_cons _ P x l' (rec x) (go l') end) l)
  | JObj l =>
    Hobj l ((fix go l : Forall (fun kv => P kv.2) l := match l with
                         | [] => @List.Forall_nil _ (fun kv => P kv.2)
                         | x :: l' => @List.Forall_cons _ (fun kv => P kv.2) x l' (rec x.2) (go l') end) l)
  end.

(** * Marshal *)

(** [appendString] with [escapeHTML], on one rune and the bytes it came from. *)
Definition quote_chunk (c : Z * bytes) : bytes :=
  let r := c.1 in
  if r <? 128 then
    if (r =? 34) || (r =? 92) then [92; r]
    else if r =? 8 then [92; 98] else if r =? 12 then [92; 102] else if r =? 10 then [92; 110]
    else if r =? 13 then [92; 114] else if r =? 9 then [92; 116]
    else if (r <? 32) || (r =? 60) || (r =? 62) || (r =? 38)
    then [92; 117; 48; 48; hex_digit (r / 16); hex_digit (r mod 16)]
    else [r]
  else if (r =? RuneError) && (length c.2 =? 1)%nat then [92; 117; 102; 102; 102; 100]
  else if (r =? 0x2028) || (r =? 0x2029) then [92; 117; 50; 48; 50; hex_digit (r mod 16)]
  else c.2.

Definition quote_body (s : bytes) : bytes := concat (map quote_chunk (chunks s)).
Definition quote (s : bytes) : bytes := 34 :: quote_body s ++ [34].

Definition commas (l : list bytes) : bytes := Strings_Join l [44].

Fixpoint Marshal (v : json) : bytes :=
  match v with
  | JNull => str "null"
  | JBool true => str "true"
  | JBool false => str "false"
  | JNum lit => lit
  | JStr s => quote s
  | JArr l => 91 :: commas (map Marshal l) ++ [93]
  | JObj l => 123 :: commas (map (fun kv => quote kv.1 ++ 58 :: Marshal kv.2) l) ++ [125]
  end.

(** * The syntax that Unmarshal accepts *)

Definition is_ws (b : Z) : bool := (b =? 32) || (b =? 9) || (b =? 13) || (b =? 10).
Definition skip_ws (s : bytes) : bytes := drop_while is_ws s.

Definition hex_val (b : Z) : option Z :=
  if is_digit b then Some (b - 48)
  else if in_range 97 102 b then Some (b - 87)
  else if in_range 65 70 b then Some (b - 55) else None.

(** The four digits after [\u]. *)
Definition hex4 (s : bytes) : option (Z * bytes) :=
  match s with
  | a :: b :: c :: d :: t =>
    a ← hex_val a; b ← hex_val b; c ← hex_val c; d ← hex_val d;
    Some (a * 4096 + b * 256 + c * 16 + d, t)
  | _ => None
  end.

Definition IsSurrogate (r : Z) : bool := in_range 0xD800 0xDFFF r.

(** [utf16.DecodeRune]. *)
Definition DecodeSurrogates (r1 r2 : Z) : Z :=
  if in_range 0xD800 0xDBFF r1 && in_range 0xDC00 0xDFFF r2
  then (r1 - 0xD800) * 1024 + (r2 - 0xDC00) + 0x10000 else RuneError.

(** After [\u]: the rune and what follows.  A surrogate joins the escape that
    follows it, or is replaced by itself. *)
Definition u_escape (s : bytes) : option (Z * bytes) :=
  '(r, t) ← hex4 s;
  if IsSurrogate r then
    let alone := Some (RuneError, t) in
    match t with
    | 92 :: 117 :: t' =>
      match hex4 t' with
      | Some (r1, t'') =>
        let dec := DecodeSurrogates r r1 in if dec =? RuneError then alone else Some (dec, t'')
      | None => alone
      end
    | _ => alone
    end
  else Some (r, t).

Definition escape (e : Z) : option Z :=
  if (e =? 34) || (e =? 92) || (e =? 47) then Some e
  else if e =? 98 then Some 8 else if e =? 102 then Some 12 else if e =? 110 then Some 10
  else if e =? 114 then Some 13 else if e =? 116 then Some 9 else None.

(** The rest of a string literal: its value and what follows the quote. *)
Fixpoint string_fuel (n : nat) (s : bytes) : option (bytes * bytes) :=
  match n with
  | O => None
  | S n' =>
    match s with
    | [] => None
    | c :: t =>
      if c =? 34 then Some ([], t)
      else if c =? 92 then
        match t with
        | [] => None
        | e :: t' =>
          if e =? 117 then
            '(r, t'') ← u_escape t'; '(v, rest) ← string_fuel n' t''; Some (encode_rune r ++ v, rest)
          else
            b ← escape e; '(v, rest) ← string_fuel n' t'; Some (b :: v, rest)
        end
      else if c <? 32 then None
      else
        '(r, w) ← decode_rune s; '(v, rest) ← string_fuel n' (drop w s); Some (encode_rune r ++ v, rest)
    end
  end.
Definition string_body (s : bytes) : option (bytes * bytes) := string_fuel (S (length s)) s.

(** The states of the scanner inside a number: the start, after the sign,
    after a leading zero, in the integer part, after the point, in the
    fraction, after [e], after the sign of the exponent, in the exponent. *)
Inductive num_state := NStart | NNeg | N0 | N1 | NDot | NDot0 | NE | NESign | NE0.

Definition is_e (c : Z) : bool := (c =? 101) || (c =? 69).

Definition num_step (q : num_state) (c : Z) : option num_state :=
  match q with
  | NStart => if c =? 45 then Some NNeg else if c =? 48 then Some N0 else if is_digit c then Some N1 else None
  | NNeg => if c =? 48 then Some N0 else if is_digit c then Some N1 else None
  | N1 => if is_digit c then Some N1 else if c =? 46 then Some NDot else if is_e c then Some NE else None
  | N0 => if c =? 46 then Some NDot else if is_e c then Some NE else None
  | NDot => if is_digit c then Some NDot0 else None
  | NDot0 => if is_digit c then Some NDot0 else if is_e c then Some NE else None
  | NE => if (c =? 43) || (c =? 45) then Some NESign else if is_digit c then Some NE0 else None
  | NESign | NE0 => if is_digit c then Some NE0 else None
  end.

Definition num_done (q : num_state) : bool :=
  match q with N0 | N1 | NDot0 | NE0 => true | _ => false end.

(** A number literal and what follows it. *)
Fixpoint number (q : num_state) (s : bytes) : option (bytes * bytes) :=
  match s with
  | [] => if num_done q then Some ([], []) else None
  | c :: t =>
    match num_step q c with
    | Some q' => '(l, rest) ← number q' t; Some (c :: l, rest)
    | None => if num_done q then Some ([], s) else None
    end
  end.

Definition maxNestingDepth : Z := 10000.

(** [literal w v s]: [s] continues with the word [w]. *)
Definition literal (w : bytes) (v : json) (s : bytes) : option (json * bytes) :=
  if HasPrefix s w then Some (v, drop (length w) s) else None.

(** A value at nesting depth [d], an element of an array with what follows
    it, and a member of an object with what follows it. *)
Fixpoint value (n : nat) (d : Z) (s : bytes) : option (json * bytes) :=
  match n with
  | O => None
  | S n' =>
    match skip_ws s with
    | [] => None
    | c :: t =>
      if c =? 123 then
        if maxNestingDepth <=? d then None
        else if (nth 0 (skip_ws t) 0 =? 125) then Some (JObj [], drop 1 (skip_ws t))
        else '(l, rest) ← object_members n' (d + 1) t; Some (JObj l, rest)
      else if c =? 91 then
        if maxNestingDepth <=? d then None
        else if (nth 0 (skip_ws t) 0 =? 93) then Some (JArr [], drop 1 (skip_ws t))
        else '(l, rest) ← array_elements n' (d + 1) t; Some (JArr l, rest)
      else if c =? 34 then '(v, rest) ← string_body t; Some (JStr v, rest)
      else if c =? 116 then literal (str "true") (JBool true) (c :: t)
      else if c =? 102 then literal (str "false") (JBool false) (c :: t)
      else if c =? 110 then literal (str "null") JNull (c :: t)
      else '(l, rest) ← number NStart (c :: t); Some (JNum l, rest)
    end
  end
with array_elements (n : nat) (d : Z) (s : bytes) : option (list json * bytes) :=
  match n with
  | O => None
  | S n' =>
    '(v, rest) ← value n' d s;
    match skip_ws rest with
    | 44 :: t => '(l, rest') ← array_elements n' d t; Some (v :: l, rest')
    | 93 :: t => Some ([v], t)
    | _ => None
    end
  end
with object_members (n : nat) (d : Z) (s : bytes) : option (list (bytes * json) * bytes) :=
  match n with
  | O => None
  | S n' =>
    match skip_ws s with
    | 34 :: t =>
      '(k, rest) ← string_body t;
      match skip_ws rest with
      | 58 :: t' =>
        '(v, rest') ← value n' d t';
        match skip_ws rest' with
        | 44 :: t'' => '(l, rest'') ← object_members n' d t''; Some ((k, v) :: l, rest'')
        | 125 :: t'' => Some ([(k, v)], t'')
        | _ => None
        end
      | _ => None
      end
    | _ => None
    end
  end.

(** The value of a whole input. *)
Definition parse (s : bytes) : option json :=
  '(v, rest) ← value (2 * length s + 2) 0 s;
  match skip_ws rest with [] => Some v | _ => None end.

(** * Decoding into Go variables

    Each decoder takes the variable's old value: [null] leaves a string, a
    number, a boolean or a struct as it is.  [None] is an error; the variables
    are then not used. *)

Definition to_string (old : bytes) (v : json) : option bytes :=
  match v with JNull => Some old | JStr s => Some s | _ => None end.

Definition to_bool (old : bool) (v : json) : option bool :=
  match v with JNull => Some old | JBool b => Some b | _ => None end.

(** [strconv.ParseUint(s, 10, 64)] and [ParseInt] on a JSON number. *)
Fixpoint digits_val (acc : Z) (s : bytes) : option Z :=
  match s with
  | [] => Some acc
  | c :: t => if is_digit c then digits_val (acc * 10 + (c - 48)) t else None
  end.

Definition ParseUint (bits : Z) (lit : bytes) : option Z :=
  v ← (if decide (lit = []) then None else digits_val 0 lit);
  if v <? 2 ^ bits then Some v else None.

Definition ParseInt (bits : Z) (lit : bytes) : option Z :=
  match lit with
  | 45 :: t => v ← (if decide (t = []) then None else digits_val 0 t); if v <=? 2 ^ (bits - 1) then Some (- v) else None
  | _ => v ← (if decide (lit = []) then None else digits_val 0 lit); if v <? 2 ^ (bits - 1) then Some v else None
  end.

Definition to_uint (bits : Z) (old : Z) (v : json) : option Z :=
  match v with JNull => Some old | JNum l => ParseUint bits l | _ => None end.
Definition to_int (bits : Z) (old : Z) (v : json) : option Z :=
  match v with JNull => Some old | JNum l => ParseInt bits l | _ => None end.

(** A struct: a member goes to the field with its name, or to the one whose
    name is equal under case folding; other object_members are skipped. *)
Definition fields (R : Type) : Type := list (bytes * (R -> json -> option R)).

Definition find_field {R} (fs : fields R) (k : bytes) : option (R -> json -> option R) :=
  match list_find (fun f => f.1 = k) fs with
  | Some (_, f) => Some f.2
  | None => (fun p => p.2.2) <$> list_find (fun f => EqualFold k f.1 = true) fs
  end.

Fixpoint set_members {R} (fs : fields R) (r : R) (l : list (bytes * json)) : option R :=
  match l with
  | [] => Some r
  | (k, v) :: l' =>
    match find_field fs k with
    | Some f => r' ← f r v; set_members fs r' l'
    | None => set_members fs r l'
    end
  end.

Definition to_struct {R} (fs : fields R) (r : R) (v : json) : option R :=
  match v with JNull => Some r | JObj l => set_members fs r l | _ => None end.

(** A slice is its backing array and its length: an array is decoded into the
    elements that are already there, and into zero values after them. *)
Record slice_var (A : Type) := mkSlice { backing : list A; slen : nat }.
Arguments mkSlice {A} backing slen.
Arguments backing {A} s.
Arguments slen {A} s.

Definition slice_of {A} (s : slice_var A) : list A := take (slen s) (backing s).

Fixpoint set_elements {A} (dec : A -> json -> option A) (zero : A) (old : list A) (l : list json) : option (list A) :=
  match l with
  | [] => Some old
  | v :: l' =>
    a ← dec (default zero (head old)) v;
    t ← set_elements dec zero (tail old) l';
    Some (a :: t)
  end.

Definition to_slice {A} (dec : A -> json -> option A) (zero : A) (old : slice_var A) (v : json) : option (slice_var A) :=
  match v with
  | JNull | JArr [] => Some (mkSlice [] 0)
  | JArr l => b ← set_elements dec zero (backing old) l; Some (mkSlice b (length l))
  | _ => None
  end.

(** A map with string keys; each element is decoded into a zero value. *)
Fixpoint set_keys {A} (dec : A -> json -> option A) (zero : A) (m : gmap bytes A) (l : list (bytes * json)) : option (gmap bytes A) :=
  match l with
  | [] => Some m
  | (k, v) :: l' => a ← dec zero v; set_keys dec zero (<[k := a]> m) l'
  end.

Definition to_map {A} (dec : A -> json -> option A) (zero : A) (old : gmap bytes A) (v : json) : option (gmap bytes A) :=
  match v with JNull => Some ∅ | JObj l => set_keys dec zero old l | _ => None end.

(** [json.Unmarshal(data, &x)] for an [x] with that decoder and value. *)
Definition Unmarshal {R} (dec : R -> json -> option R) (zero : R) (data : bytes) : option R :=
  v ← parse data; dec zero v.

(** * Examples *)

(** JSON text with single quotes for double ones. *)
Definition js (s : string) : bytes := map (fun b => if b =? 39 then 34 else b) (str s).

Example parse_ex1 : parse (js " {'a' : [1,-2.5e+3,true,null], 'b':{}} ")
  = Some (JObj [(str "a", JArr [JNum (str "1"); JNum (str "-2.5e+3"); JBool true; JNull]); (str "b", JObj [])]).
Proof. vm_compute. reflexivity. Qed.
Example parse_ex2 : map (fun t => parse (js t)) ["01"; "[1,]"; "{'a':1} x"; "nul"; "-"; "'a"; "1.e3"]%string = replicate 7 None.
Proof. vm_compute. reflexivity. Qed.
Example parse_ex3 : parse (js "'\ud83d\ude00\ud83d\u00e9\/'") = Some (JStr ([0xF0; 0x9F; 0x98; 0x80; 0xEF; 0xBF; 0xBD; 0xC3; 0xA9; 47])).
Proof. vm_compute. reflexivity. Qed.
Example Marshal_ex : Marshal (JObj [(str "k<", JStr [255; 10; 1; 0xE2; 0x80; 0xA8; 34])]) = js "{'k\u003c':'\ufffd\n\u0001\u2028\" ++ [34] ++ js "'}".
Proof. vm_compute. reflexivity. Qed.

(** * What a reader sees

    Invalid UTF-8 is written as U+FFFD, so the value read back is the one with
    [coerce] applied to its strings. *)

Definition coerce (s : bytes) : bytes := encode (runes s).

Fixpoint coerced (v : json) : json :=
  match v with
  | JStr s => JStr (coerce s)
  | JArr l => JArr (map coerced l)
  | JObj l => JObj (map (fun kv => (coerce kv.1, coerced kv.2)) l)
  | _ => v
  end.

(** The nesting of a value, and the values [Marshal] is used on: strings are
    bytes, numbers are literals of the grammar. *)
Fixpoint depth (v : json) : Z :=
  match v with
  | JArr l => 1 + foldr Z.max 0 (map depth l)
  | JObj l => 1 + foldr Z.max 0 (map (fun kv => depth kv.2) l)
  | _ => 0
  end.

Definition valid_number (lit : bytes) : Prop := number NStart lit = Some (lit, []).

Fixpoint wf_json (v : json) : Prop :=
  match v with
  | JNum lit => valid_number lit
  | JStr s => wf_bytes s
  | JArr l => foldr and True (map wf_json l)
  | JObj l => foldr and True (map (fun kv => wf_bytes kv.1 /\ wf_json kv.2) l)
  | _ => True
  end.

Lemma foldr_and {A} (P : A -> Prop) l : foldr and True (map P l) <-> Forall P l.
Proof. induction l as [|x l IH]; cbn [map foldr]; [done|]. by rewrite Forall_cons, IH. Qed.

Lemma foldr_max {A} (f : A -> Z) l b : 0 <= b -> foldr Z.max 0 (map f l) <= b <-> Forall (fun x => f x <= b) l.
Proof. intros Hb. induction l as [|x l IH]; cbn [map foldr]; [done|]. rewrite Forall_cons, <- IH. lia. Qed.

Lemma depth_nonneg v : 0 <= depth v.
Proof.
  assert (forall A (f : A -> Z) l, 0 <= foldr Z.max 0 (map f l)) as H by (intros A f l; induction l; cbn [map foldr]; lia).
  destruct v; cbn [depth]; try lia; [specialize (H _ depth l)|specialize (H _ (fun kv : bytes * json => depth kv.2) l)]; lia.
Qed.

(** * Strings *)

Definition good_chunk (c : Z * bytes) : Prop := scalar c.1 /\ (invalid_chunk c = false -> c.2 = encode_rune c.1).

Lemma utf8_high r c : utf8 r c -> 128 <= r -> exists b t, c = b :: t /\ 128 <= b /\ Forall (fun x => 128 <= x < 256) c.
Proof. intros H Hr. destruct H; [lia|..]; eexists _, _; (split; [reflexivity|]); (split; [lia|]); repeat (constructor; [lia|]); constructor. Qed.

Lemma string_ascii : Forall (fun r => forall bs n t,
  string_fuel (S n) (quote_chunk (r, bs) ++ t) = '(v, rest) ← string_fuel n t; Some (encode_rune r ++ v, rest)) (seqZ 0 128).
Proof. cbn. repeat (constructor; [intros bs n t; reflexivity|]). constructor. Qed.

Lemma string_chunk c n t : good_chunk c ->
  string_fuel (S n) (quote_chunk c ++ t) = '(v, rest) ← string_fuel n t; Some (encode_rune c.1 ++ v, rest).
Proof.
  destruct c as [r bs]. intros [Hs Hb]. cbn [fst snd] in *. destruct (decide (r < 128)) as [Hr|Hr].
  { assert (0 <= r) by (unfold scalar in Hs; inversion Hs; lia).
    pose proof string_ascii as H'. rewrite Forall_forall in H'. apply H', elem_of_seqZ. lia. }
  unfold quote_chunk. cbn [fst snd]. rewrite (proj2 (Z.ltb_ge r 128)) by lia.
  destruct ((r =? RuneError) && (length bs =? 1)%nat) eqn:E1.
  { assert (r = RuneError) as -> by lia. reflexivity. }
  destruct ((r =? 0x2028) || (r =? 0x2029)) eqn:E2.
  { assert (r = 0x2028 \/ r = 0x2029) as [-> | ->] by lia; reflexivity. }
  rewrite Hb by done. destruct (utf8_high _ _ Hs ltac:(lia)) as (b & t' & Eb & Hhigh & _).
  pose proof (utf8_decode _ _ t Hs) as Hd. rewrite Eb in *. cbn [app] in *. cbn [string_fuel].
  rewrite (proj2 (Z.eqb_neq b 34)), (proj2 (Z.eqb_neq b 92)), (proj2 (Z.ltb_ge b 32)) by lia.
  rewrite Hd. cbn [mbind option_bind]. rewrite Eb. by rewrite (drop_app_length (b :: t') t : drop (length (b :: t')) (b :: t' ++ t) = t).
Qed.

Lemma quote_chunk_nonempty c : good_chunk c -> (1 <= length (quote_chunk c))%nat.
Proof.
  intros [Hs Hb]. unfold quote_chunk, invalid_chunk in *. repeat case_match; cbn [length]; try lia.
  rewrite Hb by done. unfold scalar in Hs. inversion Hs; cbn [length]; lia.
Qed.

Lemma string_chunks cs n rest : Forall good_chunk cs -> (length cs < n)%nat ->
  string_fuel n (concat (map quote_chunk cs) ++ 34 :: rest) = Some (concat (map (fun c => encode_rune c.1) cs), rest).
Proof.
  intros H. revert n. induction H as [|c cs Hc _ IH]; intros [|n] Hn; cbn [length] in Hn; try lia; [done|].
  cbn [map concat]. rewrite <- app_assoc, string_chunk, IH by (done || lia). done.
Qed.

Lemma chunks_length cs : Forall good_chunk cs -> (length cs <= length (concat (map quote_chunk cs)))%nat.
Proof.
  induction 1 as [|c cs Hc _ IH]; cbn [map concat length]; [lia|]. rewrite length_app.
  pose proof (quote_chunk_nonempty c Hc). lia.
Qed.

Lemma coerce_chunks s : concat (map (fun c => encode_rune c.1) (chunks s)) = coerce s.
Proof. unfold coerce, encode, runes. by rewrite <- list_fmap_compose. Qed.

Lemma string_quote s rest : wf_bytes s -> string_body (quote_body s ++ 34 :: rest) = Some (coerce s, rest).
Proof.
  intros Hw. pose proof (chunks_scalar s Hw) as Hc. unfold string_body, quote_body. rewrite string_chunks; [by rewrite coerce_chunks|done|].
  rewrite length_app. pose proof (chunks_length _ Hc). cbn [length]. lia.
Qed.

(** * Numbers *)

(** What can follow a value: a comma, a closing bracket, a line end, the end. *)
Definition stops (s : bytes) : Prop :=
  match s with [] => True | c :: _ => c = 44 \/ c = 93 \/ c = 125 \/ c = 10 end.

Lemma num_step_stop q c : c = 44 \/ c = 93 \/ c = 125 \/ c = 10 -> num_step q c = None.
Proof. intros [-> | [-> | [-> | ->]]]; by destruct q. Qed.

Lemma number_app q l rest : number q l = Some (l, []) -> stops rest -> number q (l ++ rest) = Some (l, rest).
Proof.
  intros H Hs. revert q H. induction l as [|c l IH]; intros q; cbn [number app].
  - destruct (num_done q) eqn:E; [|done]. intros _. destruct rest as [|x t]; cbn [number]; [by rewrite E|].
    by rewrite num_step_stop, E by done.
  - destruct (num_step q c) as [q'|]; [|by destruct (num_done q)].
    intros H%bind_Some. destruct H as ([l' r'] & E & H). injection H as -> ->. by rewrite IH.
Qed.

Lemma valid_number_head lit : valid_number lit -> exists c t, lit = c :: t /\ (c = 45 \/ 48 <= c <= 57).
Proof.
  unfold valid_number. destruct lit as [|c t]; [done|]. cbn [number num_step]. intros H. exists c, t. split; [done|].
  destruct (c =? 45) eqn:E1; [lia|]. destruct (c =? 48) eqn:E2; [lia|]. unfold is_digit, in_range in H.
  destruct ((48 <=? c) && (c <=? 57)) eqn:E3; [lia|done].
Qed.

(** * Values *)

Lemma skip_ws_id c t : is_ws c = false -> skip_ws (c :: t) = c :: t.
Proof. intros H. unfold skip_ws. cbn [drop_while]. by rewrite H. Qed.

(** The first byte of a marshalled value starts one, and says which. *)
Definition starts (c : Z) : Prop := is_ws c = false /\ c <> 93 /\ c <> 125.

Lemma Marshal_head v : wf_json v -> exists c t, Marshal v = c :: t /\ starts c.
Proof.
  destruct v as [| [] |lit|s|l|l]; cbn [wf_json Marshal]; intros Hw; try (eexists _, _; split; [reflexivity|done]).
  destruct (valid_number_head lit Hw) as (c & t & -> & Hc). eexists _, _; split; [reflexivity|].
  unfold starts, is_ws. lia.
Qed.

Lemma value_number n d lit rest : valid_number lit -> stops rest -> value (S n) d (lit ++ rest) = Some (JNum lit, rest).
Proof.
  intros Hv Hs. pose proof (number_app _ _ _ Hv Hs) as Hn. destruct (valid_number_head lit Hv) as (c & t & -> & Hc).
  cbn [app] in *. cbn [value]. rewrite skip_ws_id by (unfold is_ws; lia).
  rewrite (proj2 (Z.eqb_neq c 123)), (proj2 (Z.eqb_neq c 91)), (proj2 (Z.eqb_neq c 34)), (proj2 (Z.eqb_neq c 116)),
    (proj2 (Z.eqb_neq c 102)), (proj2 (Z.eqb_neq c 110)) by lia.
  by rewrite Hn.
Qed.

(** What the round trip says of one value, for every fuel that covers it. *)
Definition reads_back (v : json) : Prop :=
  wf_json v -> forall n d rest, d + depth v <= maxNestingDepth -> (2 * length (Marshal v) + 1 <= n)%nat -> stops rest ->
  value n d (Marshal v ++ rest) = Some (coerced v, rest).

Lemma commas_cons x y l : commas (x :: y :: l) = x ++ 44 :: commas (y :: l).
Proof. reflexivity. Qed.

Lemma array_read l n d rest : l <> [] -> Forall reads_back l -> Forall wf_json l ->
  Forall (fun v => depth v <= maxNestingDepth - d) l ->
  (2 * length (commas (map Marshal l)) + 2 <= n)%nat ->
  array_elements n d (commas (map Marshal l) ++ 93 :: rest) = Some (map coerced l, rest).
Proof.
  intros Hl Hr. revert n. induction Hr as [|v l Hv Hr IH]; [done|]. intros [|n] [Hw Hws]%Forall_cons [Hd Hds]%Forall_cons Hn; [lia|].
  destruct l as [|v' l]; cbn [array_elements].
  - cbn [map commas Strings_Join] in *. rewrite (Hv Hw n d (93 :: rest)) by (cbn [stops]; lia || auto). reflexivity.
  - cbn [map] in *. rewrite commas_cons in *. rewrite !length_app in Hn. cbn [length] in Hn. rewrite <- !app_assoc. cbn [app].
    rewrite (Hv Hw n d (44 :: _)) by (cbn [stops]; lia || auto). cbn [mbind option_bind].
    rewrite skip_ws_id by done. cbn [mbind option_bind]. rewrite IH by (done || lia). done.
Qed.

Definition member_text (kv : bytes * json) : bytes := quote kv.1 ++ 58 :: Marshal kv.2.

Lemma member_step k v n d tail : reads_back v -> wf_bytes k -> wf_json v -> d + depth v <= maxNestingDepth ->
  (2 * length (Marshal v) + 1 <= n)%nat -> stops tail ->
  object_members (S n) d (member_text (k, v) ++ tail) =
    match skip_ws tail with
    | 44 :: t => '(l, rest) ← object_members n d t; Some ((coerce k, coerced v) :: l, rest)
    | 125 :: t => Some ([(coerce k, coerced v)], t)
    | _ => None
    end.
Proof.
  intros Hv Hk Hw Hd Hn Ht. unfold member_text, quote. cbn [fst snd]. cbn [object_members app]. rewrite <- !app_assoc. cbn [app].
  rewrite skip_ws_id, string_quote by done. cbn [mbind option_bind]. rewrite skip_ws_id by done. by rewrite (Hv Hw n d tail).
Qed.

Lemma member_text_length k v : (length (Marshal v) + 3 <= length (member_text (k, v)))%nat.
Proof. unfold member_text, quote. cbn [fst snd app length]. rewrite !length_app. cbn [length]. lia. Qed.

Lemma object_read l n d rest : l <> [] -> Forall (fun kv => reads_back kv.2) l ->
  Forall (fun kv => wf_bytes kv.1 /\ wf_json kv.2) l -> Forall (fun kv => depth kv.2 <= maxNestingDepth - d) l ->
  (2 * length (commas (map member_text l)) + 2 <= n)%nat ->
  object_members n d (commas (map member_text l) ++ 125 :: rest) = Some (map (fun kv => (coerce kv.1, coerced kv.2)) l, rest).
Proof.
  intros Hl Hr. revert n. induction Hr as [|[k v] l Hv Hr IH]; [done|].
  intros [|n] [[Hk Hw] Hws]%Forall_cons [Hd Hds]%Forall_cons Hn; cbn [fst snd] in *; [lia|].
  pose proof (member_text_length k v). destruct l as [|kv l].
  - cbn [map commas Strings_Join] in *. rewrite member_step by (done || lia || (cbn [stops]; auto)). by rewrite skip_ws_id by done.
  - cbn [map] in *. rewrite commas_cons in *. rewrite !length_app in Hn. cbn [length] in Hn. rewrite <- !app_assoc. cbn [app].
    rewrite member_step by (done || lia || (cbn [stops]; auto)). rewrite skip_ws_id by done. rewrite IH by (done || lia). done.
Qed.

Lemma commas_head (f : bytes) l t : exists u, commas (f :: l) ++ t = f ++ u.
Proof. destruct l as [|g l]; [by exists t|]. rewrite commas_cons, <- app_assoc. by eexists. Qed.

Lemma value_Marshal v : reads_back v.
Proof.
  induction v as [| b |lit|s|l IH|l IH] using json_ind'; intros Hw n d rest Hd Hn Hs; (destruct n as [|n]; [lia|]); cbn [wf_json depth] in *.
  - reflexivity.
  - by destruct b.
  - by apply value_number.
  - cbn [Marshal coerced]. unfold quote. cbn [app value]. rewrite skip_ws_id by done. cbn [Z.eqb Pos.eqb]. rewrite <- app_assoc. cbn [app]. by rewrite string_quote.
  - rewrite foldr_and in Hw. assert (d < maxNestingDepth /\ Forall (fun v => depth v <= maxNestingDepth - (d + 1)) l) as [Hd1 Hds].
    { pose proof (foldr_max depth l (maxNestingDepth - d - 1)) as Hm.
      assert (0 <= foldr Z.max 0 (map depth l)) by (clear; induction l; cbn [map foldr]; lia).
      split; [lia|]. eapply Forall_impl; [apply Hm; lia|]. cbn. lia. }
    cbn [Marshal coerced] in *. cbn [app value]. rewrite skip_ws_id by done. cbn [Z.eqb Pos.eqb].
    rewrite (proj2 (Z.leb_gt _ _)) by done. rewrite <- app_assoc. destruct l as [|v l]; [reflexivity|].
    destruct (Marshal_head v) as (c & t & Ec & Hws & Hc & _); [by apply Forall_cons in Hw as [? _]|].
    cbn [map]. destruct (commas_head (Marshal v) (map Marshal l) ([93] ++ rest)) as [u Eu]. rewrite Eu, Ec. cbn [app].
    rewrite skip_ws_id by done. cbn [nth]. rewrite (proj2 (Z.eqb_neq c 93)) by done.
    change (c :: t ++ u) with ((c :: t) ++ u). rewrite <- Ec, <- Eu. cbn [app].
    change (Marshal v :: map Marshal l) with (map Marshal (v :: l)). rewrite (array_read (v :: l) n (d + 1) rest); try done.
    cbn [length] in Hn. rewrite length_app in Hn. cbn [length] in Hn. cbn [map] in Hn. cbn [map]. lia.
  - rewrite foldr_and in Hw. assert (d < maxNestingDepth /\ Forall (fun kv => depth kv.2 <= maxNestingDepth - (d + 1)) l) as [Hd1 Hds].
    { pose proof (foldr_max (fun kv : bytes * json => depth kv.2) l (maxNestingDepth - d - 1)) as Hm.
      assert (0 <= foldr Z.max 0 (map (fun kv => depth kv.2) l)) by (clear; induction l; cbn [map foldr]; lia).
      split; [lia|]. eapply Forall_impl; [apply Hm; lia|]. cbn. lia. }
    cbn [Marshal coerced] in *. cbn [app value]. rewrite skip_ws_id by done. cbn [Z.eqb Pos.eqb].
    rewrite (proj2 (Z.leb_gt _ _)) by done. rewrite <- app_assoc. destruct l as [|[k v] l]; [reflexivity|].
    change (map (fun kv => quote kv.1 ++ 58 :: Marshal kv.2) ((k, v) :: l)) with (map member_text ((k, v) :: l)) in *.
    cbn [map]. destruct (commas_head (member_text (k, v)) (map member_text l) ([125] ++ rest)) as [u Eu]. rewrite Eu.
    assert (nth 0 (skip_ws (member_text (k, v) ++ u)) 0 =? 125 = false) as -> by reflexivity. rewrite <- Eu. cbn [app].
    change (member_text (k, v) :: map member_text l) with (map member_text ((k, v) :: l)). rewrite (object_read ((k, v) :: l) n (d + 1) rest); try done.
    cbn [length] in Hn. rewrite length_app in Hn. cbn [length] in Hn. cbn [map] in Hn. cbn [map]. lia.
Qed.

Lemma parse_Marshal v : wf_json v -> depth v <= maxNestingDepth -> parse (Marshal v) = Some (coerced v).
Proof.
  intros Hw Hd. unfold parse. rewrite <- (app_nil_r (Marshal v)) at 2.
  rewrite (value_Marshal v Hw) by (done || lia). done.
Qed.

(** * The fuel of the parser is enough

    Every call consumes input, so more fuel changes nothing. *)

Lemma skip_ws_length s : (length (skip_ws s) <= length s)%nat.
Proof. unfold skip_ws. induction s as [|c s IH]; cbn [drop_while length]; [lia|]. destruct (is_ws c); cbn [length]; lia. Qed.

Lemma hex4_length s r t : hex4 s = Some (r, t) -> (length t < length s)%nat.
Proof.
  unfold hex4. destruct s as [|a [|b [|c [|d s]]]]; try done.
  intros (? & _ & (? & _ & (? & _ & (? & _ & H)%bind_Some)%bind_Some)%bind_Some)%bind_Some. injection H as _ <-. cbn [length]. lia.
Qed.

Lemma u_escape_length s r t : u_escape s = Some (r, t) -> (length t < length s)%nat.
Proof.
  unfold u_escape. intros H%bind_Some. destruct H as ([r' t'] & H4%hex4_length & H).
  destruct (IsSurrogate r'); [|by injection H as _ <-].
  repeat (case_match; try (by injection H as _ <-)); try (injection H as _ <-; simplify_eq).
  match goal with He : hex4 _ = Some _ |- _ => apply hex4_length in He end. cbn [length] in *. lia.
Qed.

Lemma string_length n s v rest : string_fuel n s = Some (v, rest) -> (length rest < length s)%nat.
Proof.
  revert s v rest. induction n as [|n IH]; intros s v rest; cbn [string_fuel]; [done|].
  destruct s as [|c t]; [done|]. cbn [length]. destruct (c =? 34); [intros [= _ <-]; lia|]. destruct (c =? 92).
  - destruct t as [|e t]; [done|]. cbn [length]. destruct (e =? 117).
    + intros H%bind_Some. destruct H as ([r t'] & Hu%u_escape_length & H%bind_Some). destruct H as ([v' rest'] & Hs%IH & H).
      injection H as _ <-. lia.
    + intros (b & _ & H%bind_Some)%bind_Some. destruct H as ([v' rest'] & Hs%IH & H). injection H as _ <-. lia.
  - destruct (c <? 32); [done|]. intros H%bind_Some. destruct H as ([r w] & _ & H%bind_Some).
    destruct H as ([v' rest'] & Hs%IH & H). injection H as _ <-. rewrite length_drop in Hs. cbn [length] in Hs. lia.
Qed.

Lemma string_fuel_enough n m s : (length s < n)%nat -> (length s < m)%nat -> string_fuel n s = string_fuel m s.
Proof.
  revert m s. induction n as [|n IH]; intros [|m] s Hn Hm; try lia. cbn [string_fuel]. destruct s as [|c t]; [done|].
  cbn [length] in *. destruct (c =? 34); [done|]. destruct (c =? 92).
  - destruct t as [|e t]; [done|]. cbn [length] in *. destruct (e =? 117).
    + destruct (u_escape t) as [[r t']|] eqn:E; [|done]. apply u_escape_length in E. cbn [mbind option_bind]. by rewrite (IH m t') by lia.
    + destruct (escape e); [|done]. cbn [mbind option_bind]. by rewrite (IH m t) by lia.
  - destruct (c <? 32); [done|]. destruct (decode_rune (c :: t)) as [[r w]|] eqn:E; [|done].
    apply decode_rune_width in E. cbn [mbind option_bind]. rewrite (IH m (drop w (c :: t))); [done|..]; rewrite length_drop; cbn [length] in *; lia.
Qed.

Lemma number_length q s l rest : number q s = Some (l, rest) -> (length rest <= length s)%nat.
Proof.
  revert q l rest. induction s as [|c s IH]; intros q l rest; cbn [number].
  - destruct (num_done q); [|done]. by intros [= _ <-].
  - destruct (num_step q c) as [q'|].
    + intros H%bind_Some. destruct H as ([l' r'] & H%IH & Hr). injection Hr as _ <-. cbn [length]. lia.
    + destruct (num_done q); [|done]. by intros [= _ <-].
Qed.

Lemma number_start_length s l rest : number NStart s = Some (l, rest) -> (length rest < length s)%nat.
Proof.
  destruct s as [|c s]; cbn [number num_step]; [done|].
  repeat case_match; try done; intros H'%bind_Some; destruct H' as ([l' r'] & H'%number_length & Hr); injection Hr as _ <-; cbn [length]; lia.
Qed.

Lemma literal_length w v s v' rest : w <> [] -> literal w v s = Some (v', rest) -> (length rest < length s)%nat.
Proof.
  unfold literal. intros Hw. destruct (HasPrefix s w) eqn:E; [|done]. apply HasPrefix_spec in E as [t ->].
  intros [= _ <-]. rewrite drop_app_length, length_app. destruct w; [done|]. cbn [length]. lia.
Qed.

Definition shorter {A} (f : bytes -> option (A * bytes)) (s : bytes) : Prop :=
  forall v rest, f s = Some (v, rest) -> (length rest < length s)%nat.

Lemma value_length n d s : shorter (value n d) s /\ shorter (array_elements n d) s /\ shorter (object_members n d) s.
Proof.
  revert d s. induction n as [|n IH]; intros d s; [done|]. repeat split; intros v rest; cbn [value array_elements object_members].
  - pose proof (skip_ws_length s) as Hws. destruct (skip_ws s) as [|c t]; [done|]. cbn [length] in Hws. pose proof (skip_ws_length t).
    assert (length (drop 1 (skip_ws t)) < length s)%nat by (rewrite length_drop; lia).
    repeat (case_match; try done).
    all: try (intros [= _ <-]; lia).
    all: try (intros H'%bind_Some; destruct H' as ([l' r'] & H' & Hr); injection Hr as _ <-).
    + apply IH in H'. lia.
    + apply IH in H'. lia.
    + apply string_length in H'. lia.
    + intros H'%literal_length; [cbn [length] in *; lia|done].
    + intros H'%literal_length; [cbn [length] in *; lia|done].
    + intros H'%literal_length; [cbn [length] in *; lia|done].
    + apply number_start_length in H'. cbn [length] in *. lia.
  - intros H%bind_Some. destruct H as ([x r] & Hx%IH & H). pose proof (skip_ws_length r) as Hws. destruct (skip_ws r) as [|c t]; [done|]. cbn [length] in Hws.
    repeat (case_match; try done). 
    all: try (by injection H as _ <-; lia).
    apply bind_Some in H as ([l' r'] & H'%IH & Hr). injection Hr as _ <-. lia.
  - pose proof (skip_ws_length s) as Hws. destruct (skip_ws s) as [|c t]; [done|]. cbn [length] in Hws.
    repeat (case_match; try done). intros Hb%bind_Some. destruct Hb as ([k r] & Hk%string_length & Hb).
    pose proof (skip_ws_length r) as Hwr. destruct (skip_ws r) as [|c' t']; [done|]. cbn [length] in Hwr.
    repeat (case_match; try done). apply bind_Some in Hb as ([x r'] & Hx%IH & Hb).
    pose proof (skip_ws_length r') as Hwx. destruct (skip_ws r') as [|c'' t'']; [done|]. cbn [length] in Hwx.
    repeat (case_match; try done). 
    all: try (by injection Hb as _ <-; lia).
    apply bind_Some in Hb as ([l' r''] & H'%IH & Hr). injection Hr as _ <-. lia.
Qed.

Lemma value_fuel_enough n m d s :
  ((2 * length s + 1 <= n)%nat -> (2 * length s + 1 <= m)%nat -> value n d s = value m d s) /\
  ((2 * length s + 2 <= n)%nat -> (2 * length s + 2 <= m)%nat -> array_elements n d s = array_elements m d s) /\
  ((2 * length s + 2 <= n)%nat -> (2 * length s + 2 <= m)%nat -> object_members n d s = object_members m d s).
Proof.
  revert m d s. induction n as [|n IH]; intros [|m] d s; repeat split; intros Hn Hm; try lia; cbn [value array_elements object_members].
  - pose proof (skip_ws_length s) as Hws. destruct (skip_ws s) as [|c t]; [done|]. cbn [length] in Hws.
    destruct (IH m (d + 1) t) as (_ & He & Ho). rewrite He, Ho by lia. done.
  - destruct (IH m d s) as (Hv & _ & _). rewrite Hv by lia. destruct (value m d s) as [[v r]|] eqn:E; [|done].
    apply value_length in E. cbn [mbind option_bind]. pose proof (skip_ws_length r) as Hws. destruct (skip_ws r) as [|c t]; [done|]. cbn [length] in Hws.
    destruct (IH m d t) as (_ & He & _). by rewrite He by lia.
  - pose proof (skip_ws_length s) as Hws. destruct (skip_ws s) as [|c t]; [done|]. cbn [length] in Hws.
    destruct (string_body t) as [[k r]|] eqn:Ek; [|done]. apply string_length in Ek. cbn [mbind option_bind].
    pose proof (skip_ws_length r) as Hwr. destruct (skip_ws r) as [|c' t']; [done|]. cbn [length] in Hwr.
    destruct (IH m d t') as (Hv & _ & _). rewrite Hv by lia. destruct (value m d t') as [[v r']|] eqn:E; [|done].
    apply value_length in E. cbn [mbind option_bind].
    pose proof (skip_ws_length r') as Hwx. destruct (skip_ws r') as [|c'' t'']; [done|]. cbn [length] in Hwx.
    destruct (IH m d t'') as (_ & _ & Ho). by rewrite Ho by lia.
Qed.

(** * What Marshal writes

    No control character, and none of the characters that HTML gives a
    meaning: in particular a marshalled value is one line. *)

Definition clean (b : Z) : Prop := 32 <= b < 256 /\ b <> 60 /\ b <> 62 /\ b <> 38.

#[global] Instance clean_dec b : Decision (clean b).
Proof. unfold clean. apply _. Defined.

Lemma quote_clean_ascii : Forall (fun r => forall bs, Forall clean (quote_chunk (r, bs))) (seqZ 0 128).
Proof.
  cbn. repeat (constructor; [intros bs; vm_compute; repeat (constructor; [repeat split; discriminate|]); constructor|]). constructor.
Qed.

Lemma quote_chunk_clean c : good_chunk c -> Forall clean (quote_chunk c).
Proof.
  destruct c as [r bs]. intros [Hs Hb]. cbn [fst snd] in *. destruct (decide (r < 128)) as [Hr|Hr].
  { assert (0 <= r) by (unfold scalar in Hs; inversion Hs; lia).
    pose proof quote_clean_ascii as H'. rewrite Forall_forall in H'. apply H', elem_of_seqZ. lia. }
  unfold quote_chunk. cbn [fst snd]. rewrite (proj2 (Z.ltb_ge r 128)) by lia.
  destruct ((r =? RuneError) && (length bs =? 1)%nat) eqn:E1; [by repeat (constructor; [unfold clean; lia|])|].
  destruct ((r =? 0x2028) || (r =? 0x2029)) eqn:E2.
  { assert (r = 0x2028 \/ r = 0x2029) as [-> | ->] by lia; vm_compute; by repeat (constructor; [repeat split; discriminate|]). }
  rewrite Hb by done. destruct (utf8_high r _ Hs ltac:(lia)) as (b & t' & _ & _ & Hall).
  eapply Forall_impl; [exact Hall|]. unfold clean. cbn. lia.
Qed.

Lemma quote_clean s : wf_bytes s -> Forall clean (quote s).
Proof.
  intros Hw. unfold quote, quote_body. constructor; [unfold clean; lia|]. apply Forall_app. split; [|constructor; [unfold clean; lia|constructor]].
  apply Forall_concat, Forall_fmap. eapply Forall_impl; [apply (chunks_scalar s Hw)|]. intros c Hc. by apply quote_chunk_clean.
Qed.

Lemma number_clean q l : number q l = Some (l, []) -> Forall clean l.
Proof.
  revert q. induction l as [|c l IH]; intros q; cbn [number]; [constructor|].
  destruct (num_step q c) as [q'|] eqn:E; [|by destruct (num_done q)]. intros H%bind_Some. destruct H as ([l' r] & H & [= -> ->]).
  constructor; [|by eapply IH]. unfold clean. destruct q; cbn [num_step] in E; unfold is_digit, is_e, in_range in E; repeat case_match; try done; lia.
Qed.

Lemma commas_clean l : Forall (Forall clean) l -> Forall clean (commas l).
Proof.
  induction 1 as [|x l Hx Hl IH]; [constructor|]. destruct l as [|y l]; [done|]. rewrite commas_cons. apply Forall_app. split; [done|].
  constructor; [unfold clean; lia|done].
Qed.

Lemma Marshal_clean v : wf_json v -> Forall clean (Marshal v).
Proof.
  assert (clean 91 /\ clean 93 /\ clean 123 /\ clean 125 /\ clean 58) as (? & ? & ? & ? & ?) by (unfold clean; lia).
  induction v as [| b |lit|s|l IH|l IH] using json_ind'; cbn [wf_json Marshal]; intros Hw.
  - by apply (bool_decide_unpack _).
  - destruct b; by apply (bool_decide_unpack _).
  - by eapply number_clean.
  - by apply quote_clean.
  - rewrite foldr_and in Hw. constructor; [done|]. apply Forall_app. split; [|by repeat constructor].
    apply commas_clean, Forall_fmap. rewrite Forall_forall in *. intros v Hv. by apply IH, Hw.
  - rewrite foldr_and in Hw. constructor; [done|]. apply Forall_app. split; [|by repeat constructor].
    apply commas_clean, Forall_fmap. rewrite Forall_forall in *. intros [k v] Hv. change (Forall clean (quote k ++ 58 :: Marshal v)).
    destruct (Hw _ Hv) as [Hk Hx]. apply Forall_app. split; [by apply quote_clean|]. constructor; [done|]. by apply (IH _ Hv).
Qed.

(** * Integers *)

Lemma is_digit_spec c : is_digit c = true <-> 48 <= c <= 57.
Proof. unfold is_digit, in_range. lia. Qed.

Definition digits (s : bytes) : Prop := Forall (fun c => 48 <= c <= 57) s.

Lemma dec_fuel_spec n v acc : 0 <= v < 10 ^ Z.of_nat n -> digits acc -> (0 < n)%nat ->
  digits_val 0 (dec_fuel n v acc) = digits_val v acc /\
  exists c t, dec_fuel n v acc = c :: t /\ digits (c :: t) /\ (c = 48 -> v = 0 /\ t = acc).
Proof.
  revert v acc. induction n as [|n IH]; intros v acc Hv Ha Hn; [lia|]. cbn [dec_fuel].
  pose proof (Z.mod_pos_bound v 10 ltac:(lia)) as Hm. pose proof (Z.div_mod v 10 ltac:(lia)) as Hd.
  destruct (v <? 10) eqn:E.
  - rewrite Z.mod_small by lia. split.
    + cbn [digits_val]. assert (is_digit (48 + v) = true) as -> by (apply is_digit_spec; lia). by replace (0 * 10 + (48 + v - 48)) with v by lia.
    + eexists _, _. split; [reflexivity|]. split; [constructor; [lia|done]|]. intros. split; [lia|done].
  - assert (0 <= v / 10 < 10 ^ Z.of_nat n) as Hq.
    { rewrite Nat2Z.inj_succ, Z.pow_succ_r in Hv by lia. split; [apply Z.div_pos; lia|apply Z.div_lt_upper_bound; lia]. }
    assert (0 < n)%nat as Hn0.
    { destruct n; [|lia]. change (10 ^ Z.of_nat 0) with 1 in Hq. lia. }
    destruct (IH (v / 10) (48 + v mod 10 :: acc) Hq) as [Hval (c & t & Ec & Hdig & Hz)]; [constructor; [lia|done]|done|].
    split; [|exists c, t; split; [exact Ec|split; [done|]]].
    + rewrite Hval. cbn [digits_val]. assert (is_digit (48 + v mod 10) = true) as -> by (apply is_digit_spec; lia). f_equal. lia.
    + intros Hc. destruct (Hz Hc) as [? _]. lia.
Qed.

Lemma Uitoa_spec v : 0 <= v ->
  digits_val 0 (Uitoa v) = Some v /\ exists c t, Uitoa v = c :: t /\ digits (c :: t) /\ (c = 48 -> t = []).
Proof.
  intros Hv. unfold Uitoa. assert (0 <= v < 10 ^ Z.of_nat (Z.to_nat (Z.log2 v) + 2)) as Hb.
  { split; [done|]. destruct (decide (v = 0)) as [->|]; [by vm_compute|].
    pose proof (Z.log2_spec v ltac:(lia)) as [_ Hl]. pose proof (Z.log2_nonneg v).
    eapply Z.lt_le_trans; [exact Hl|]. rewrite Nat2Z.inj_add, Z2Nat.id by done.
    transitivity (10 ^ Z.succ (Z.log2 v)); [apply Z.pow_le_mono_l; lia|apply Z.pow_le_mono_r; lia]. }
  destruct (dec_fuel_spec _ v [] Hb) as [Hval (c & t & E & Hd & Hz)]; [constructor|lia|].
  split; [done|]. exists c, t. split; [done|]. split; [done|]. intros Hc. by destruct (Hz Hc).
Qed.

Lemma number_digits q l : (q = N1 \/ q = NDot0 \/ q = NE0) -> digits l -> number q l = Some (l, []).
Proof.
  intros Hq. induction 1 as [|c l Hc _ IH]; cbn [number]; [by destruct Hq as [-> |[-> | ->]]|].
  assert (num_step q c = Some q) as ->; [|by rewrite IH].
  assert (is_digit c = true) by (by apply is_digit_spec). destruct Hq as [-> |[-> | ->]]; cbn [num_step]; case_match; done.
Qed.

Lemma number_natural q c t : (q = NStart \/ q = NNeg) -> digits (c :: t) -> (c = 48 -> t = []) -> number q (c :: t) = Some (c :: t, []).
Proof.
  intros Hq [Hc Ht]%Forall_cons Hz. cbn [number]. destruct (decide (c = 48)) as [-> |].
  { rewrite Hz by done. by destruct Hq as [-> | ->]. }
  assert (num_step q c = Some N1) as ->; [|by rewrite number_digits by auto].
  assert (is_digit c = true) by (by apply is_digit_spec).
  destruct Hq as [-> | ->]; cbn [num_step]; rewrite ?(proj2 (Z.eqb_neq c 45)), ?(proj2 (Z.eqb_neq c 48)) by lia; by case_match.
Qed.

Lemma valid_Uitoa v : 0 <= v -> valid_number (Uitoa v).
Proof. intros Hv. destruct (Uitoa_spec v Hv) as [_ (c & t & -> & Hd & Hz)]. apply number_natural; auto. Qed.

Lemma valid_Itoa v : valid_number (Itoa v).
Proof.
  unfold Itoa. destruct (v <? 0) eqn:E; [|apply valid_Uitoa; lia]. destruct (Uitoa_spec (- v)) as [_ (c & t & -> & Hd & Hz)]; [lia|].
  unfold valid_number. change (('(l, rest) ← number NNeg (c :: t); Some (45 :: l, rest)) = Some (45 :: c :: t, [])).
  by rewrite number_natural by auto.
Qed.

Lemma ParseUint_Uitoa bits v : 0 <= v < 2 ^ bits -> ParseUint bits (Uitoa v) = Some v.
Proof.
  intros Hv. unfold ParseUint. destruct (Uitoa_spec v) as [Hval (c & t & E & _)]; [lia|]. rewrite decide_False by (by rewrite E).
  rewrite Hval. cbn [mbind option_bind]. by rewrite (proj2 (Z.ltb_lt _ _)) by lia.
Qed.

Lemma ParseInt_Itoa bits v : - 2 ^ (bits - 1) <= v < 2 ^ (bits - 1) -> ParseInt bits (Itoa v) = Some v.
Proof.
  intros Hv. unfold ParseInt, Itoa. destruct (v <? 0) eqn:E.
  - destruct (Uitoa_spec (- v)) as [Hval (c & t & Ec & _)]; [lia|]. rewrite decide_False by (by rewrite Ec).
    rewrite Hval. cbn [mbind option_bind]. rewrite (proj2 (Z.leb_le _ _)) by lia. f_equal. lia.
  - destruct (Uitoa_spec v) as [Hval (c & t & Ec & [Hc _]%Forall_cons & _)]; [lia|]. rewrite Hval, decide_False by (by rewrite Ec).
    rewrite Ec. assert (c <> 45) by lia. cbn [mbind option_bind]. rewrite (proj2 (Z.ltb_lt _ _)) by lia.
    repeat (case_match; try done); lia.
Qed.

(** * Structures by field

    When the setters of a structure commute and no key occurs twice, decoding
    its members one after the other is looking up each field. *)

Fixpoint getm (k : bytes) (l : list (bytes * json)) : option json :=
  match l with
  | [] => None
  | (k', v) :: l' => if decide (k = k') then Some v else getm k l'
  end.

Definition set_field {R} (f : bytes * (R -> json -> option R)) (l : list (bytes * json)) (r : R) : option R :=
  match getm f.1 l with Some v => f.2 r v | None => Some r end.

Fixpoint set_fields {R} (fs : fields R) (l : list (bytes * json)) (r : R) : option R :=
  match fs with
  | [] => Some r
  | f :: fs' => r' ← set_field f l r; set_fields fs' l r'
  end.

Definition commute {R} (f g : bytes * (R -> json -> option R)) : Prop :=
  forall r v w, (r' ← f.2 r v; g.2 r' w) = (r' ← g.2 r w; f.2 r' v).

(** Pairwise distinct names and commuting setters. *)
Definition commuting {R} (fs : fields R) : Prop := NoDup fs.*1 /\ ForallOrdPairs commute fs.

(** The key selects the field of its name, or none. *)
Definition exact {R} (fs : fields R) (k : bytes) : Prop :=
  (exists f, f ∈ fs /\ f.1 = k /\ find_field fs k = Some f.2) \/ (find_field fs k = None /\ k ∉ fs.*1).

Lemma getm_app k a b : getm k (a ++ b) = match getm k a with Some v => Some v | None => getm k b end.
Proof. induction a as [|[k' v] a IH]; cbn [app getm]; [done|]. by case_decide. Qed.

Lemma getm_None k l : getm k l = None <-> k ∉ l.*1.
Proof.
  induction l as [|[k' v] l IH]; cbn [getm]; [split; [intros _; apply not_elem_of_nil|done]|]. rewrite fmap_cons, not_elem_of_cons. cbn [fst].
  case_decide as E; [subst; split; [done|by intros [? _]]|]. rewrite IH. tauto.
Qed.

Lemma getm_Some k v l : NoDup l.*1 -> getm k l = Some v <-> (k, v) ∈ l.
Proof.
  induction l as [|[k' v'] l IH]; cbn [getm]; [intros _; split; [done|intros Hi; by apply elem_of_nil in Hi]|].
  rewrite fmap_cons. intros [Hn Hd]%NoDup_cons. cbn [fst] in Hn. rewrite elem_of_cons. case_decide as E; [subst k'|].
  - split; [intros [= ->]; by left|]. intros [[= ->]|Hin]; [done|]. exfalso. apply Hn, list_elem_of_fmap. by exists (k, v).
  - rewrite IH by done. split; [auto|]. intros [[= -> ->]|?]; [done|done].
Qed.

Lemma getm_perm k l l' : NoDup l.*1 -> l ≡ₚ l' -> getm k l = getm k l'.
Proof.
  intros Hd Hp. assert (NoDup l'.*1) as Hd' by (by rewrite <- Hp). destruct (getm k l) as [v|] eqn:E.
  - symmetry. apply getm_Some in E; [|done]. apply getm_Some; [done|]. by rewrite <- Hp.
  - symmetry. apply getm_None. apply getm_None in E. by rewrite <- Hp.
Qed.

Lemma set_field_cons {R} (f : bytes * (R -> json -> option R)) k v l r :
  set_field f ((k, v) :: l) r = if decide (f.1 = k) then f.2 r v else set_field f l r.
Proof. unfold set_field. cbn [getm]. by case_decide. Qed.

(** A setter moves past fields it commutes with. *)
Lemma set_fields_past {R} (f : bytes * (R -> json -> option R)) fs v l r : Forall (commute f) fs ->
  (r' ← f.2 r v; set_fields fs l r') = (r' ← set_fields fs l r; f.2 r' v).
Proof.
  intros H. revert r. induction H as [|g fs Hg _ IH]; intros r; [cbn; by destruct (f.2 r v)|]; cbn [set_fields].
  unfold set_field. destruct (getm g.1 l) as [w|].
  - rewrite option_bind_assoc. transitivity (r' ← (r' ← f.2 r v; g.2 r' w); set_fields fs l r').
    + rewrite option_bind_assoc. apply option_bind_ext_fun. done.
    + rewrite (Hg r v w), option_bind_assoc. apply option_bind_ext_fun. intros x. cbn. apply IH.
  - cbn [mbind option_bind]. apply IH.
Qed.

Lemma set_fields_skip {R} (fs : fields R) k v l r : k ∉ fs.*1 -> set_fields fs ((k, v) :: l) r = set_fields fs l r.
Proof.
  revert r. induction fs as [|f fs IH]; intros r; [done|]. rewrite fmap_cons, not_elem_of_cons. intros [Hk Hfs]. cbn [set_fields].
  rewrite set_field_cons, decide_False by done. apply option_bind_ext_fun. intros x. by apply IH.
Qed.

Lemma set_fields_hit {R} (fs : fields R) f v l r : commuting fs -> f ∈ fs -> getm f.1 l = None ->
  set_fields fs ((f.1, v) :: l) r = (r' ← f.2 r v; set_fields fs l r').
Proof.
  intros [Hnd Hc] Hin Hl. revert r. induction Hc as [|g fs Hg Hc IH]; [by apply elem_of_nil in Hin|]. intros r.
  rewrite fmap_cons in Hnd. apply NoDup_cons in Hnd as [Hn Hnd]. cbn [set_fields]. apply elem_of_cons in Hin as [<- |Hin].
  - rewrite set_field_cons, decide_True by done. apply option_bind_ext_fun. intros x.
    rewrite set_fields_skip by done. unfold set_field. by rewrite Hl.
  - assert (g.1 <> f.1) as Hne by (intros E; apply Hn; rewrite E; by apply list_elem_of_fmap_2).
    rewrite set_field_cons, decide_False by done. rewrite Forall_forall in Hg. specialize (Hg f Hin).
    transitivity (r' ← set_field g l r; (r'' ← f.2 r' v; set_fields fs l r'')).
    + apply option_bind_ext_fun. intros x. by apply IH.
    + unfold set_field. destruct (getm g.1 l) as [w|].
      * transitivity (r' ← (r' ← g.2 r w; f.2 r' v); set_fields fs l r'); [by rewrite option_bind_assoc|].
        rewrite (Hg r w v), option_bind_assoc. done.
      * cbn [mbind option_bind]. done.
Qed.

Lemma set_members_fields {R} (fs : fields R) l r : commuting fs -> NoDup l.*1 -> Forall (exact fs) l.*1 ->
  set_members fs r l = set_fields fs l r.
Proof.
  intros Hc Hnd He. revert r. induction l as [|[k v] l IH]; intros r.
  - cbn [set_members]. clear. revert r. induction fs as [|f fs IH]; intros r; [done|]. cbn [set_fields set_field getm mbind option_bind]. apply IH.
  - rewrite fmap_cons in *. apply NoDup_cons in Hnd as [Hn Hnd]. apply Forall_cons in He as [Hk He]. cbn [set_members fst] in *.
    destruct Hk as [(f & Hin & <- & ->)|[-> Hk]].
    + rewrite set_fields_hit by (done || by apply getm_None). apply option_bind_ext_fun. intros x. by apply IH.
    + rewrite set_fields_skip by done. by apply IH.
Qed.

(** Two member lists with the same lookups are decoded alike. *)
Lemma set_fields_ext {R} (fs : fields R) l l' r :
  Forall (fun f => forall r, set_field f l r = set_field f l' r) fs -> set_fields fs l r = set_fields fs l' r.
Proof.
  intros H. revert r. induction H as [|f fs Hf _ IH]; intros r; [done|]. cbn [set_fields]. rewrite Hf. apply option_bind_ext_fun. intros x. apply IH.
Qed.

(** ** Lower-case names *)

Definition lower_name (k : bytes) : Prop := Forall (fun b => 0 <= b < 128 /\ is_upper b = false) k.

#[global] Instance lower_name_dec k : Decision (lower_name k).
Proof. unfold lower_name. apply _. Defined.

Lemma EqualFold_lower k name : lower_name k -> lower_name name -> EqualFold k name = true -> k = name.
Proof.
  intros Hk Hn. unfold EqualFold. rewrite runes_ascii by (apply is_ascii_Forall; eapply Forall_impl; [exact Hk|]; cbn; lia).
  revert name Hn. induction Hk as [|c k [Hc Hu] Hk IH]; intros [|d name] Hn; cbn [fold_eq]; try done.
  apply Forall_cons in Hn as [[Hd Hud] Hn]. intros [Hf Heq]%andb_true_iff. f_equal; [|by apply IH].
  unfold fold_eq_rune, lower_byte in Hf. rewrite Hu, Hud in Hf. lia.
Qed.

Lemma lower_exact {R} (fs : fields R) k : lower_name k -> Forall lower_name fs.*1 -> exact fs k.
Proof.
  intros Hk Hfs. unfold exact, find_field. destruct (list_find (fun f => f.1 = k) fs) as [[i f]|] eqn:E.
  - left. apply list_find_Some in E as (Hl & Hf & _). exists f. split; [by eapply list_elem_of_lookup_2|]. done.
  - right. rewrite list_find_None in E. assert (k ∉ fs.*1) as Hn.
    { intros (f & -> & Hin)%list_elem_of_fmap. rewrite Forall_forall in E. by apply (E f). }
    split; [|done]. destruct (list_find (fun f => EqualFold k f.1 = true) fs) as [[i f]|] eqn:E2; [|done].
    exfalso. apply list_find_Some in E2 as (Hl & Hf & _). apply list_elem_of_lookup_2 in Hl.
    apply Hn. rewrite Forall_forall in Hfs. apply EqualFold_lower in Hf; [subst k; by apply list_elem_of_fmap_2|done|].
    apply Hfs. by apply list_elem_of_fmap_2.
Qed.
