(* ===== verification/EventLog.v ===== *)
(** The lines of the event log: the JSON of every event structure of
    internal/telemetry/event.go, [EventType], and the writer of
    internal/telemetry/telemetry.go ([AppendJSONL], [appendLine]) with the
    signer of sign.go.

    The functions [*_json] list the fields of a structure in its order with
    their tags; [str_oe] and the like are the fields tagged [omitempty].
    Ed25519 is a parameter. *)
From S2P Require Import Prelude GoStrings Telemetry Decode BpfMap Policy Allowlist DefendMaps Integrity RunStats Events Defend Json.

Open Scope Z_scope.

(** * Time *)

(** The civil date of a day counted from 1970-01-01. *)
Definition civil (day : Z) : Z * Z * Z :=
  let z := day + 719468 in
  let era := z / 146097 in
  let doe := z mod 146097 in
  let yoe := (doe - doe / 1460 + doe / 36524 - doe / 146096) / 365 in
  let doy := doe - (365 * yoe + yoe / 4 - yoe / 100) in
  let mp := (5 * doy + 2) / 153 in
  let d := doy - (153 * mp + 2) / 5 + 1 in
  let m := if mp <? 10 then mp + 3 else mp - 9 in
  (yoe + era * 400 + (if m <=? 2 then 1 else 0), m, d).

Fixpoint padded (n : nat) (v : Z) : bytes :=
  match n with O => [] | S n' => padded n' (v / 10) ++ [48 + v mod 10] end.

(** [t.UTC().Format(time.RFC3339Nano)] of a clock reading in nanoseconds since
    1970. *)
Definition RFC3339Nano (ns : Z) : bytes :=
  let secs := ns / 1000000000 in
  let '(y, m, d) := civil (secs / 86400) in
  let s := secs mod 86400 in
  let frac := rev (drop_while (Z.eqb 48) (rev (padded 9 (ns mod 1000000000)))) in
  padded 4 y ++ str "-" ++ padded 2 m ++ str "-" ++ padded 2 d ++ str "T" ++
  padded 2 (s / 3600) ++ str ":" ++ padded 2 (s / 60 mod 60) ++ str ":" ++ padded 2 (s mod 60) ++
  (if decide (frac = []) then [] else str "." ++ frac) ++ str "Z".

Example time_ex1 : RFC3339Nano 951827696789000000 = str "2000-02-29T12:34:56.789Z".
Proof. vm_compute. reflexivity. Qed.
Example time_ex2 : RFC3339Nano 1767225599000000000 = str "2025-12-31T23:59:59Z".
Proof. vm_compute. reflexivity. Qed.

(** * Fields *)

Abbreviation members_of := (list (bytes * json)).

Definition fstr (k : string) (s : bytes) : members_of := [(str k, JStr s)].
Definition fuint (k : string) (v : Z) : members_of := [(str k, JNum (Uitoa v))].
Definition fint (k : string) (v : Z) : members_of := [(str k, JNum (Itoa v))].
Definition fbool (k : string) (b : bool) : members_of := [(str k, JBool b)].

Definition str_oe (k : string) (s : bytes) : members_of := if decide (s = []) then [] else fstr k s.
Definition uint_oe (k : string) (v : Z) : members_of := if v =? 0 then [] else fuint k v.
Definition int_oe (k : string) (v : Z) : members_of := if v =? 0 then [] else fint k v.
Definition bool_oe (k : string) (b : bool) : members_of := if b then fbool k true else [].
Definition strs_oe (k : string) (l : list bytes) : members_of :=
  if decide (l = []) then [] else [(str k, JArr (map JStr l))].

(** A map is written in the order of its keys. *)
Definition map_json {A} (f : A -> json) (m : gmap bytes A) : json :=
  JObj (omap (fun k => (fun v => (k, f v)) <$> m !! k) (Sort (elements (dom m)))).

(** * The events of the readers *)

Definition TLSConfidence_text (c : TLSConfidence) : bytes :=
  match c with
  | TLSConfidenceFull => str "full" | TLSConfidencePartial => str "partial"
  | TLSConfidenceInferred => str "inferred" | TLSConfidenceUnknown => str "unknown"
  end.

Definition ExecEvent_json (e : ExecEvent) : members_of :=
  fstr "ts" (RFC3339Nano (ex_TS e)) ++ fuint "seq" (ex_Seq e) ++ fuint "pid" (ex_PID e) ++ fuint "tgid" (ex_TGID e) ++
  fuint "thread_id" (ex_ThreadID e) ++ fstr "comm" (ex_Comm e) ++ str_oe "exe" (ex_Exe e) ++
  uint_oe "exe_inode" (ex_ExeInode e) ++ uint_oe "exe_dev" (ex_ExeDev e) ++ str_oe "exe_sha256" (ex_ExeSHA256 e).

Definition ProcForkEvent_json (e : ProcForkEvent) : members_of :=
  fstr "ts" (RFC3339Nano (pf_TS e)) ++ fuint "seq" (pf_Seq e) ++ fuint "parent_pid" (pf_ParentPID e) ++
  fuint "child_pid" (pf_ChildPID e) ++ fstr "parent_comm" (pf_ParentComm e) ++ fstr "child_comm" (pf_ChildComm e) ++
  uint_oe "child_sid" (pf_ChildSID e) ++ uint_oe "child_pidns_inum" (pf_ChildPidnsNum e) ++ str_oe "note" (pf_Note e).

Definition TCPStateEvent_json (e : TCPStateEvent) : members_of :=
  fstr "ts" (RFC3339Nano (tp_TS e)) ++ fuint "seq" (tp_Seq e) ++ uint_oe "timestamp_ns" (tp_TimestampNS e) ++
  fuint "pid" (tp_PID e) ++ str_oe "comm" (tp_Comm e) ++ str_oe "src_ip" (tp_SrcIP e) ++ uint_oe "src_port" (tp_SrcPort e) ++
  fstr "dst_ip" (tp_DstIP e) ++ fuint "dst_port" (tp_DstPort e) ++ fstr "old_state" (tp_OldState e) ++ fstr "new_state" (tp_NewState e).

Definition TCPEvent_json (e : TCPEvent) : members_of :=
  fstr "ts" (RFC3339Nano (tc_TS e)) ++ fuint "seq" (tc_Seq e) ++ fuint "pid" (tc_PID e) ++ fuint "tgid" (tc_TGID e) ++
  fuint "thread_id" (tc_ThreadID e) ++ fstr "comm" (tc_Comm e) ++ fstr "dst" (tc_Dst e) ++ fuint "dport" (tc_Dport e) ++
  str_oe "fqdn" (tc_FQDN e) ++ str_oe "fqdn_provenance" (tc_FQDNProvenance e) ++ fstr "direction" (tc_Direction e) ++
  fstr "policy" (tc_Policy e).

Definition TCPResultEvent_json (e : TCPResultEvent) : members_of :=
  fstr "ts" (RFC3339Nano (tr_TS e)) ++ fuint "seq" (tr_Seq e) ++ fuint "pid" (tr_PID e) ++ fuint "tgid" (tr_TGID e) ++
  fuint "thread_id" (tr_ThreadID e) ++ fstr "comm" (tr_Comm e) ++ fint "result" (tr_Result e) ++ fstr "result_str" (tr_ResultStr e).

Definition UDPEvent_json (e : UDPEvent) : members_of :=
  fstr "ts" (RFC3339Nano (ud_TS e)) ++ fuint "seq" (ud_Seq e) ++ fuint "pid" (ud_PID e) ++ fuint "tgid" (ud_TGID e) ++
  fuint "thread_id" (ud_ThreadID e) ++ fstr "comm" (ud_Comm e) ++ fstr "dst" (ud_Dst e) ++ fuint "dport" (ud_Dport e) ++
  uint_oe "datagram_len" (ud_DatagramLen e) ++ str_oe "fqdn" (ud_FQDN e) ++ str_oe "fqdn_provenance" (ud_FQDNProvenance e) ++
  fstr "direction" (ud_Direction e) ++ fstr "policy" (ud_Policy e) ++ bool_oe "possible_quic" (ud_PossibleQUIC e).

Definition HTTPEvent_json (e : HTTPEvent) : members_of :=
  fstr "ts" (RFC3339Nano (ht_TS e)) ++ fuint "seq" (ht_Seq e) ++ fuint "pid" (ht_PID e) ++ fuint "tgid" (ht_TGID e) ++
  fuint "thread_id" (ht_ThreadID e) ++ fstr "comm" (ht_Comm e) ++ fstr "method" (ht_Method e) ++ fstr "host" (ht_Host e) ++
  fstr "path" (ht_Path e) ++ fstr "dst" (ht_Dst e) ++ fuint "dport" (ht_Dport e) ++ fstr "policy" (ht_Policy e).

Definition TLSEvent_json (e : TLSEvent) : members_of :=
  fstr "ts" (RFC3339Nano (tl_TS e)) ++ fuint "seq" (tl_Seq e) ++ fuint "pid" (tl_PID e) ++ fuint "tgid" (tl_TGID e) ++
  fuint "thread_id" (tl_ThreadID e) ++ fstr "comm" (tl_Comm e) ++ fstr "sni" (tl_SNI e) ++
  str_oe "confidence" (TLSConfidence_text (tl_Confidence e)) ++ str_oe "confidence_reason" (tl_ConfidenceReason e) ++
  bool_oe "reassembled_sni" (tl_ReassembledSNI e) ++ fstr "dst" (tl_Dst e) ++ fuint "dport" (tl_Dport e) ++
  bool_oe "ipv6" (tl_IsIPv6 e) ++ fstr "policy" (tl_Policy e) ++ str_oe "note" (tl_Note e).

Definition QUICCandidateEvent_json (e : QUICCandidateEvent) : members_of :=
  fstr "ts" (RFC3339Nano (qc_TS e)) ++ fuint "seq" (qc_Seq e) ++ fuint "pid" (qc_PID e) ++ fuint "tgid" (qc_TGID e) ++
  fstr "comm" (qc_Comm e) ++ fstr "dst_ip" (qc_DstIP e) ++ fuint "dst_port" (qc_DstPort e) ++ str_oe "note" (qc_Note e).

Definition IPv6Event_json (e : IPv6Event) : members_of :=
  fstr "ts" (RFC3339Nano (v6_TS e)) ++ fuint "seq" (v6_Seq e) ++ fuint "pid" (v6_PID e) ++ fstr "comm" (v6_Comm e) ++
  fstr "dst" (v6_Dst e) ++ fuint "dport" (v6_Dport e) ++ str_oe "note" (v6_Note e).

(** The [note] of a file-system event is never set. *)
Definition FSEvent_json (e : FSEvent) : members_of :=
  fstr "ts" (RFC3339Nano (fe_TS e)) ++ fuint "seq" (fe_Seq e) ++ fuint "pid" (fe_PID e) ++ fuint "tgid" (fe_TGID e) ++
  fuint "thread_id" (fe_ThreadID e) ++ fstr "comm" (fe_Comm e) ++ fstr "op" (fe_Op e) ++ fstr "path" (fe_Path e).

Definition KTLSEvent_json (e : KTLSEvent) : members_of :=
  fstr "ts" (RFC3339Nano (kl_TS e)) ++ fuint "seq" (kl_Seq e) ++ fuint "pid" (kl_PID e) ++ fuint "tgid" (kl_TGID e) ++
  fuint "thread_id" (kl_ThreadID e) ++ fstr "comm" (kl_Comm e) ++ fuint "fd" (kl_FD e) ++ fstr "direction" (kl_Direction e).

Definition IOUringSendEvent_json (e : IOUringSendEvent) : members_of :=
  fstr "ts" (RFC3339Nano (us_TS e)) ++ fuint "seq" (us_Seq e) ++ fuint "pid" (us_PID e) ++ fstr "comm" (us_Comm e) ++
  fuint "fd" (us_FD e) ++ fstr "op" (us_Op e) ++ str_oe "dst_ip" (us_DstIP e) ++ uint_oe "dst_port" (us_DstPort e) ++
  bool_oe "has_tls_hello" (us_HasTLSHello e).

Definition EgressBackstopEvent_json (e : EgressBackstopEvent) : members_of :=
  fstr "ts" (RFC3339Nano (eg_TS e)) ++ fuint "seq" (eg_Seq e) ++ fuint "pid" (eg_PID e) ++ fstr "comm" (eg_Comm e) ++
  fstr "af" (eg_AF e) ++ fstr "proto" (eg_Proto e) ++ fstr "dst" (eg_Dst e) ++ uint_oe "dport" (eg_Dport e) ++ fstr "note" (eg_Note e).

Definition IOUringTLSEvent_json (e : IOUringTLSEvent) : members_of :=
  fstr "ts" (RFC3339Nano (ut_TS e)) ++ fuint "seq" (ut_Seq e) ++ fuint "pid" (ut_PID e) ++ fstr "comm" (ut_Comm e) ++
  fstr "op" (ut_Op e) ++ fstr "sni" (ut_SNI e) ++ fstr "dst" (ut_Dst e) ++ uint_oe "dst_port" (ut_DstPort e).

Definition BPFAuditEvent_json (e : BPFAuditEvent) : members_of :=
  fstr "ts" (RFC3339Nano (au_TS e)) ++ fuint "seq" (au_Seq e) ++ fuint "pid" (au_PID e) ++ fuint "tgid" (au_TGID e) ++
  fuint "thread_id" (au_ThreadID e) ++ fstr "comm" (au_Comm e) ++ fuint "cmd" (au_Cmd e).

Definition BpfSelfDefenseEvent_json (e : BpfSelfDefenseEvent) : members_of :=
  fstr "ts" (RFC3339Nano (sf_TS e)) ++ fuint "seq" (sf_Seq e) ++ fuint "tgid" (sf_TGID e) ++ fstr "comm" (sf_Comm e) ++
  fint "cmd" (sf_Cmd e) ++ fstr "target_kind" (sf_TargetKind e) ++ uint_oe "target_id" (sf_TargetID e) ++ fstr "action" (sf_Action e).

Definition event_json (e : event) : members_of :=
  match e with
  | EvExec e => ExecEvent_json e | EvFork e => ProcForkEvent_json e | EvFS e => FSEvent_json e | EvTCP e => TCPEvent_json e
  | EvTCPResult e => TCPResultEvent_json e | EvTCPState e => TCPStateEvent_json e | EvUDP e => UDPEvent_json e
  | EvQUIC e => QUICCandidateEvent_json e | EvHTTP e => HTTPEvent_json e | EvTLS e => TLSEvent_json e | EvKTLS e => KTLSEvent_json e
  | EvIPv6 e => IPv6Event_json e | EvIOSend e => IOUringSendEvent_json e | EvIOTLS e => IOUringTLSEvent_json e
  | EvEgress e => EgressBackstopEvent_json e | EvAudit e => BPFAuditEvent_json e | EvSelfDef e => BpfSelfDefenseEvent_json e
  end.

(** * The other lines *)

(** [Type] is ["deny"] for a denial, ["bpf_tamper"], ["dns_drift"], ["meta"]
    for the others below.  The time of the check in a drift event is the text
    that [time.Time] marshals to. *)
Definition DenyEvent_json (e : DenyEvent) : members_of :=
  fstr "ts" (RFC3339Nano (dn_TS e)) ++ fuint "seq" (dn_Seq e) ++ fuint "pid" (dn_PID e) ++ fuint "tgid" (dn_TGID e) ++
  fuint "thread_id" (dn_ThreadID e) ++ fstr "comm" (dn_Comm e) ++ fstr "protocol" (dn_Protocol e) ++ fstr "dst" (dn_Dst e) ++
  fuint "dport" (dn_Dport e) ++ fstr "reason" (dn_Reason e) ++ fstr "mode" (dn_Mode e) ++ str_oe "hook_family" (dn_HookFamily e) ++
  str_oe "match_kind" (dn_MatchKind e).

Definition BPFTamperEvent_json (ts : Z) (e : tamperEvent) : members_of :=
  fstr "ts" (RFC3339Nano ts) ++ fuint "seq" (Integrity.tp_seq e) ++ fstr "asset" (tp_asset e) ++ fstr "error" (tp_error e) ++
  str_oe "expected" (tp_expected e) ++ str_oe "actual" (tp_actual e).

Record DNSDriftEvent := mkDriftEvent { de_TS : Z; de_AddedIPs : list bytes; de_RemovedIPs : list bytes; de_DomainCount : Z; de_CheckedAt : bytes }.

Definition DNSDriftEvent_json (e : DNSDriftEvent) : members_of :=
  fstr "ts" (RFC3339Nano (de_TS e)) ++ strs_oe "added_ips" (de_AddedIPs e) ++ strs_oe "removed_ips" (de_RemovedIPs e) ++
  fint "domain_count" (de_DomainCount e) ++ fstr "checked_at" (de_CheckedAt e).

Definition BPFStatus_json (b : BPFStatus) : json :=
  JObj (fstr "name" (bs_Name b) ++ fbool "ok" (bs_OK b) ++ str_oe "detail" (bs_Detail b) ++ bool_oe "btf_available" (bs_BTFAvailable b)).

Record MetaGitHub := mkGitHub { gh_Repository : bytes; gh_Workflow : bytes; gh_RunID : bytes; gh_RunAttempt : bytes;
  gh_Job : bytes; gh_SHA : bytes; gh_Ref : bytes; gh_Actor : bytes }.

Definition MetaGitHub_json (g : MetaGitHub) : json :=
  JObj (str_oe "repository" (gh_Repository g) ++ str_oe "workflow" (gh_Workflow g) ++ str_oe "run_id" (gh_RunID g) ++
    str_oe "run_attempt" (gh_RunAttempt g) ++ str_oe "job" (gh_Job g) ++ str_oe "sha" (gh_SHA g) ++ str_oe "ref" (gh_Ref g) ++
    str_oe "actor" (gh_Actor g)).

Definition CoverageReport_json (c : CoverageReport) : json :=
  JObj (fbool "ipv4_tcp" (cv_IPv4TCP c) ++ fbool "ipv4_udp_sendmsg" (cv_IPv4UDPSendmsg c) ++ fstr "ipv6" (cv_IPv6 c) ++
    fbool "quic_http3" (cv_QUICHTTP3 c) ++ uint_oe "quic_observed" (cv_QuicObserved c) ++ fstr "tls_sni_full" (cv_TLSSNI c) ++
    fbool "io_uring" (cv_IoUring c)).

(** A nil slice is [None] where [nil] is written as [null]; the fields that
    are tagged [omitempty] do not need the distinction. *)
Record MetaEvent := mkMeta {
  me_SchemaVersion : Z; me_TS : Z; me_AgentVersion : bytes; me_KernelRelease : bytes; me_GitHub : MetaGitHub;
  me_BPF : option (list BPFStatus); me_Capabilities : gmap bytes bool; me_DetectProfile : bytes; me_Mode : bytes;
  me_AllowlistIPCount : Z; me_AllowlistEntryCount : Z; me_WildcardRiskDomains : list bytes; me_UnresolvedDomains : list bytes;
  me_RunnerHasIPv6 : bool; me_RunnerEnv : bytes; me_DroppedEvents : gmap bytes Z; me_Coverage : option CoverageReport;
  me_EventsFileSHA256 : bytes }.

Definition MetaEvent_json (m : MetaEvent) : members_of :=
  fint "schema_version" (me_SchemaVersion m) ++ fstr "ts" (RFC3339Nano (me_TS m)) ++ fstr "agent_version" (me_AgentVersion m) ++
  fstr "kernel_release" (me_KernelRelease m) ++ [(str "github", MetaGitHub_json (me_GitHub m))] ++
  [(str "bpf", match me_BPF m with Some l => JArr (map BPFStatus_json l) | None => JNull end)] ++
  (if decide (me_Capabilities m = ∅) then [] else [(str "capabilities", map_json JBool (me_Capabilities m))]) ++
  str_oe "detect_profile" (me_DetectProfile m) ++ str_oe "mode" (me_Mode m) ++ int_oe "allowlist_ip_count" (me_AllowlistIPCount m) ++
  int_oe "allowlist_entry_count" (me_AllowlistEntryCount m) ++ strs_oe "wildcard_risk_domains" (me_WildcardRiskDomains m) ++
  strs_oe "unresolved_domains" (me_UnresolvedDomains m) ++ bool_oe "runner_has_ipv6" (me_RunnerHasIPv6 m) ++
  str_oe "runner_env" (me_RunnerEnv m) ++
  (if decide (me_DroppedEvents m = ∅) then [] else [(str "dropped_events", map_json (fun v => JNum (Uitoa v)) (me_DroppedEvents m))]) ++
  match me_Coverage m with Some c => [(str "coverage", CoverageReport_json c)] | None => [] end ++
  str_oe "events_file_sha256" (me_EventsFileSHA256 m).

(** A line of the event log. *)
Inductive logLine :=
  | LEvent (e : event) | LDeny (e : DenyEvent) | LTamper (ts : Z) (e : tamperEvent) | LDrift (e : DNSDriftEvent) | LMeta (m : MetaEvent).

Definition line_type (l : logLine) : bytes :=
  match l with
  | LEvent e => Type_ e | LDeny _ => str "deny" | LTamper _ _ => str "bpf_tamper" | LDrift _ => str "dns_drift" | LMeta _ => str "meta"
  end.

(** [Type] is the first field of every structure. *)
Definition line_json (l : logLine) : json :=
  JObj ((str "type", JStr (line_type l)) ::
    match l with
    | LEvent e => event_json e | LDeny e => DenyEvent_json e | LTamper ts e => BPFTamperEvent_json ts e
    | LDrift e => DNSDriftEvent_json e | LMeta m => MetaEvent_json m
    end).

(** * BuildMeta, and the two records of a run *)

Section Meta.
(** The environment, the answer of uname, the clock and the agent's version. *)
Context `{UnicodeCase} (getenv : bytes -> bytes) (uname : option bytes) (now : Z) (agentVersion : bytes).

Definition BuildMeta (bpf : option (list BPFStatus)) (detectProfile mode : bytes) : option MetaEvent :=
  kernel ← uname;
  let gh := mkGitHub (getenv (str "GITHUB_REPOSITORY")) (getenv (str "GITHUB_WORKFLOW")) (getenv (str "GITHUB_RUN_ID"))
    (getenv (str "GITHUB_RUN_ATTEMPT")) (getenv (str "GITHUB_JOB")) (getenv (str "GITHUB_SHA")) (getenv (str "GITHUB_REF"))
    (getenv (str "GITHUB_ACTOR")) in
  let dp := ToLower (TrimSpace detectProfile) in
  let dp := if decide (dp = []) then str "standard" else dp in
  let dp := if decide (dp <> str "standard" /\ dp <> str "enhanced") then str "standard" else dp in
  Some (mkMeta SchemaVersion now (TrimSpace agentVersion) kernel gh bpf ∅ dp (TrimSpace mode) 0 0 [] [] false [] ∅ None []).

(** [writeStartupMeta]: the capabilities are those whose gate is on and whose
    hook is attached. *)
Definition startupMetaEvent (bpf : option (list BPFStatus)) (detectProfile mode : bytes) (procTreeGate tlsSNIGate fsGate : bool)
    (allowlistIPs allowlistSize : Z) (wildcardRisk unresolved : list bytes) (runnerHasIPv6 : bool) (runnerEnv : bytes)
    (ipv6Enforced ioUringAttached : bool) : option MetaEvent :=
  meta ← BuildMeta bpf detectProfile mode;
  let rows := default [] bpf in
  let cap (on : bool) (k : string) (m : gmap bytes bool) := if on then <[str k := true]> m else m in
  let caps :=
    cap (capabilityEnabled fsGate rows (str "raw_tp/sys_enter (fs)")) "fs_events"%string
      (cap (capabilityEnabled tlsSNIGate rows (str "raw_tp/sys_enter (connect, sendto, http sniff, tls)")) "tls_sni"%string
        (cap (capabilityEnabled procTreeGate rows (str "sched_process_fork")) "proc_tree"%string ∅)) in
  Some (mkMeta (me_SchemaVersion meta) (me_TS meta) (me_AgentVersion meta) (me_KernelRelease meta) (me_GitHub meta) (me_BPF meta)
    caps (me_DetectProfile meta) (me_Mode meta) allowlistIPs allowlistSize wildcardRisk unresolved runnerHasIPv6
    (if decide (runnerEnv = str "standard") then [] else runnerEnv) ∅
    (Some (buildCoverageReport rows tlsSNIGate ioUringAttached ipv6Enforced 0)) []).

(** The record of [writeShutdownTelemetry]; [sha] is the hash of the log, if
    it could be read. *)
Definition shutdownMetaEvent (bpf : option (list BPFStatus)) (detectProfile mode : bytes) (dropped : option (gmap bytes Z))
    (sha : option bytes) (tlsSNIGate ipv6Enforced ioUringAttached : bool) (quicObserved : Z) : option MetaEvent :=
  meta ← BuildMeta bpf detectProfile mode;
  let rows := default [] bpf in
  Some (mkMeta (me_SchemaVersion meta) (me_TS meta) (me_AgentVersion meta) (me_KernelRelease meta) (me_GitHub meta) (me_BPF meta)
    (me_Capabilities meta) (me_DetectProfile meta) (me_Mode meta) 0 0 [] [] false [] (default ∅ dropped)
    (Some (buildCoverageReport rows tlsSNIGate ioUringAttached ipv6Enforced quicObserved)) (default [] sha)).
End Meta.

(** * Package encoding/base64: StdEncoding *)

Definition b64_alphabet : bytes := str "ABCDEFGHIJKLMNOPQRSTUVWXYZabcdefghijklmnopqrstuvwxyz0123456789+/".
Definition b64_char (v : Z) : Z := nth (Z.to_nat v) b64_alphabet 0.
Definition b64_val (c : Z) : option Z := (fun p => Z.of_nat p.1) <$> list_find (fun x => x = c) b64_alphabet.

Fixpoint EncodeToString (s : bytes) : bytes :=
  match s with
  | a :: b :: c :: t =>
    b64_char (a / 4) :: b64_char (a mod 4 * 16 + b / 16) :: b64_char (b mod 16 * 4 + c / 64) :: b64_char (c mod 64) :: EncodeToString t
  | [a; b] => [b64_char (a / 4); b64_char (a mod 4 * 16 + b / 16); b64_char (b mod 16 * 4); 61]
  | [a] => [b64_char (a / 4); b64_char (a mod 4 * 16); 61; 61]
  | [] => []
  end.

(** Groups of four characters; padding ends the input.  The bits that padding
    cuts off are ignored. *)
Fixpoint b64_groups (s : bytes) : option bytes :=
  match s with
  | [] => Some []
  | w :: x :: y :: z :: t =>
    w ← b64_val w; x ← b64_val x;
    let first := w * 4 + x / 16 in
    if y =? 61 then (if (z =? 61) && (length t =? 0)%nat then Some [first] else None)
    else
      y ← b64_val y;
      let second := x mod 16 * 16 + y / 4 in
      if z =? 61 then (if (length t =? 0)%nat then Some [first; second] else None)
      else
        z ← b64_val z; rest ← b64_groups t;
        Some (first :: second :: (y mod 4 * 64 + z) :: rest)
  | _ => None
  end.

(** Line ends are ignored wherever they are. *)
Definition DecodeString (s : bytes) : option bytes := b64_groups (List.filter (fun c => negb ((c =? 10) || (c =? 13))) s).

Example b64_ex : map (fun s => EncodeToString (str s)) ["a"; "ab"; "abc"; "abcd"]%string = map str ["YQ=="; "YWI="; "YWJj"; "YWJjZA=="]%string.
Proof. vm_compute. reflexivity. Qed.
Example b64_ex2 : DecodeString (str "YW" ++ [10] ++ str "Jj" ++ [13; 10] ++ str "ZA==") = Some (str "abcd").
Proof. vm_compute. reflexivity. Qed.

(** * Signing *)

(** The canonical form of a value decoded into [map[string]any]: of the members
    with one key the last counts, and keys are in order. *)
Fixpoint put_member (k : bytes) (v : json) (l : members_of) : members_of :=
  match l with
  | [] => [(k, v)]
  | (k', v') :: l' =>
    if decide (k = k') then (k, v) :: l'
    else if bleb k k' then (k, v) :: l
    else (k', v') :: put_member k v l'
  end.

Definition put_all (l : members_of) : members_of := foldl (fun acc kv => put_member kv.1 kv.2 acc) [] l.

Fixpoint canon (v : json) : json :=
  match v with
  | JArr l => JArr (map canon l)
  | JObj l => JObj (put_all (map (fun kv => (kv.1, canon kv.2)) l))
  | _ => v
  end.

(** What the file system answers to one append: the file could not be opened,
    or the errors of the write and the close; a write that fails has written
    so many bytes. *)
Inductive append_io := OpenFails | Appends (n : nat) (werr cerr : bool).

Inductive append_err := ErrOpen | ErrWrite (close_too : bool) | ErrClose | ErrDecodeMap.

Definition appendLine (file b : bytes) (io : append_io) : bytes * result append_err unit :=
  match io with
  | OpenFails => (file, Err ErrOpen)
  | Appends n werr cerr =>
    (file ++ (if werr : bool then take n (b ++ [10]) else b ++ [10]), if werr : bool then Err (ErrWrite cerr) else if cerr : bool then Err ErrClose else Ok tt)
  end.

Section Signer.
(** Ed25519: a private key is 64 bytes, of which the last half is the public
    key. *)
Context (NewKeyFromSeed : bytes -> bytes) (Sign : bytes -> bytes -> bytes).

Record Signer := mkSigner { priv : bytes; pub : bytes }.

Inductive signer_err := ErrBase64 | ErrKeyLength (n : Z).

Definition NewSigner (b64 : bytes) : result signer_err (option Signer) :=
  if decide (b64 = []) then Ok None
  else match DecodeString b64 with
       | None => Err ErrBase64
       | Some seed =>
         if len seed =? 32 then Ok (Some (mkSigner (NewKeyFromSeed seed) (drop 32 (NewKeyFromSeed seed))))
         else if len seed =? 64 then Ok (Some (mkSigner seed (drop 32 seed)))
         else Err (ErrKeyLength (len seed))
       end.

Definition PublicKey (s : option Signer) : bytes := match s with Some s => EncodeToString (pub s) | None => [] end.
Definition PublicKeyBytes (s : option Signer) : bytes := match s with Some s => pub s | None => [] end.

(** [Signer.Sign]. *)
Definition SignValue (s : option Signer) (v : json) : bytes :=
  match s with Some s => EncodeToString (Sign (priv s) (Marshal v)) | None => [] end.

(** The text of the line: the canonical JSON with its signature under
    ["sig"], or the JSON as it is. *)
Definition lineText (s : option Signer) (v : json) : option bytes :=
  match s with
  | None => Some (Marshal v)
  | Some s =>
    m ← parse (Marshal v);
    match canon m with
    | JObj l => Some (Marshal (JObj (put_member (str "sig") (JStr (EncodeToString (Sign (priv s) (Marshal (JObj l))))) l)))
    | _ => None
    end
  end.

Definition AppendJSONL (path : bytes) (v : json) (s : option Signer) (file : bytes) (io : append_io) : bytes * result append_err unit :=
  if decide (path = []) then (file, Ok tt)
  else match lineText s v with
       | None => (file, Err ErrDecodeMap)
       | Some b => appendLine file b io
       end.
End Signer.

(** [EventType]. *)
Definition typed_fields : fields bytes := [(str "type", to_string)].
Definition EventType (line : bytes) : bytes := default [] (Unmarshal (to_struct typed_fields) [] line).

(** * Lines are JSON values of the types Go gives their fields *)

(** The strings and the unsigned numbers of a line. *)
Definition event_strings (e : event) : list bytes :=
  match e with
  | EvExec e => [ex_Comm e; ex_Exe e; ex_ExeSHA256 e]
  | EvFork e => [pf_ParentComm e; pf_ChildComm e; pf_Note e]
  | EvFS e => [fe_Comm e; fe_Op e; fe_Path e]
  | EvTCP e => [tc_Comm e; tc_Dst e; tc_FQDN e; tc_FQDNProvenance e; tc_Direction e; tc_Policy e]
  | EvTCPResult e => [tr_Comm e; tr_ResultStr e]
  | EvTCPState e => [tp_Comm e; tp_SrcIP e; tp_DstIP e; tp_OldState e; tp_NewState e]
  | EvUDP e => [ud_Comm e; ud_Dst e; ud_FQDN e; ud_FQDNProvenance e; ud_Direction e; ud_Policy e]
  | EvQUIC e => [qc_Comm e; qc_DstIP e; qc_Note e]
  | EvHTTP e => [ht_Comm e; ht_Method e; ht_Host e; ht_Path e; ht_Dst e; ht_Policy e]
  | EvTLS e => [tl_Comm e; tl_SNI e; tl_ConfidenceReason e; tl_Dst e; tl_Policy e; tl_Note e]
  | EvKTLS e => [kl_Comm e; kl_Direction e]
  | EvIPv6 e => [v6_Comm e; v6_Dst e; v6_Note e]
  | EvIOSend e => [us_Comm e; us_Op e; us_DstIP e]
  | EvIOTLS e => [ut_Comm e; ut_Op e; ut_SNI e; ut_Dst e]
  | EvEgress e => [eg_Comm e; eg_AF e; eg_Proto e; eg_Dst e; eg_Note e]
  | EvAudit e => [au_Comm e]
  | EvSelfDef e => [sf_Comm e; sf_TargetKind e; sf_Action e]
  end.

Definition event_uints (e : event) : list Z :=
  match e with
  | EvExec e => [ex_Seq e; ex_PID e; ex_TGID e; ex_ThreadID e; ex_ExeInode e; ex_ExeDev e]
  | EvFork e => [pf_Seq e; pf_ParentPID e; pf_ChildPID e; pf_ChildSID e; pf_ChildPidnsNum e]
  | EvFS e => [fe_Seq e; fe_PID e; fe_TGID e; fe_ThreadID e]
  | EvTCP e => [tc_Seq e; tc_PID e; tc_TGID e; tc_ThreadID e; tc_Dport e]
  | EvTCPResult e => [tr_Seq e; tr_PID e; tr_TGID e; tr_ThreadID e]
  | EvTCPState e => [tp_Seq e; tp_TimestampNS e; tp_PID e; tp_SrcPort e; tp_DstPort e]
  | EvUDP e => [ud_Seq e; ud_PID e; ud_TGID e; ud_ThreadID e; ud_Dport e; ud_DatagramLen e]
  | EvQUIC e => [qc_Seq e; qc_PID e; qc_TGID e; qc_DstPort e]
  | EvHTTP e => [ht_Seq e; ht_PID e; ht_TGID e; ht_ThreadID e; ht_Dport e]
  | EvTLS e => [tl_Seq e; tl_PID e; tl_TGID e; tl_ThreadID e; tl_Dport e]
  | EvKTLS e => [kl_Seq e; kl_PID e; kl_TGID e; kl_ThreadID e; kl_FD e]
  | EvIPv6 e => [v6_Seq e; v6_PID e; v6_Dport e]
  | EvIOSend e => [us_Seq e; us_PID e; us_FD e; us_DstPort e]
  | EvIOTLS e => [ut_Seq e; ut_PID e; ut_DstPort e]
  | EvEgress e => [eg_Seq e; eg_PID e; eg_Dport e]
  | EvAudit e => [au_Seq e; au_PID e; au_TGID e; au_ThreadID e; au_Cmd e]
  | EvSelfDef e => [sf_Seq e; sf_TGID e; sf_TargetID e]
  end.

Definition github_strings (g : MetaGitHub) : list bytes :=
  [gh_Repository g; gh_Workflow g; gh_RunID g; gh_RunAttempt g; gh_Job g; gh_SHA g; gh_Ref g; gh_Actor g].

Definition meta_strings (m : MetaEvent) : list bytes :=
  [me_AgentVersion m; me_KernelRelease m; me_DetectProfile m; me_Mode m; me_RunnerEnv m; me_EventsFileSHA256 m] ++
  github_strings (me_GitHub m) ++ concat (map (fun b => [bs_Name b; bs_Detail b]) (default [] (me_BPF m))) ++
  elements (dom (me_Capabilities m)) ++ elements (dom (me_DroppedEvents m)) ++ me_WildcardRiskDomains m ++ me_UnresolvedDomains m ++
  match me_Coverage m with Some c => [cv_IPv6 c; cv_TLSSNI c] | None => [] end.

Definition line_strings (l : logLine) : list bytes :=
  line_type l ::
  match l with
  | LEvent e => event_strings e
  | LDeny e => [dn_Comm e; dn_Protocol e; dn_Dst e; dn_Reason e; dn_Mode e; dn_HookFamily e; dn_MatchKind e]
  | LTamper _ e => [tp_asset e; tp_error e; tp_expected e; tp_actual e]
  | LDrift e => de_CheckedAt e :: de_AddedIPs e ++ de_RemovedIPs e
  | LMeta m => meta_strings m
  end.

Definition line_uints (l : logLine) : list Z :=
  match l with
  | LEvent e => event_uints e
  | LDeny e => [dn_Seq e; dn_PID e; dn_TGID e; dn_ThreadID e; dn_Dport e]
  | LTamper _ e => [Integrity.tp_seq e]
  | LDrift e => []
  | LMeta m => match me_Coverage m with Some c => [cv_QuicObserved c] | None => [] end ++ (map_to_list (me_DroppedEvents m)).*2
  end.

Definition typed_line (l : logLine) : Prop := Forall wf_bytes (line_strings l) /\ Forall (fun v => 0 <= v) (line_uints l).

(** Members that are well formed and at most two levels deep. *)
Definition wf_members (l : members_of) : Prop := Forall (fun kv => wf_bytes kv.1 /\ wf_json kv.2 /\ depth kv.2 <= 2) l.

Lemma wf_str s : wf_bytes (str s).
Proof. induction s as [|a s IH]; cbn [str]; constructor; [|done]. unfold is_byte. pose proof (N_ascii_bounded a). lia. Qed.

Lemma wf_padded n v : wf_bytes (padded n v).
Proof.
  revert v. induction n as [|n IH]; intros v; cbn [padded]; [constructor|]. apply Forall_app. split; [apply IH|].
  constructor; [|constructor]. pose proof (Z.mod_pos_bound v 10). unfold is_byte. lia.
Qed.

Lemma wf_RFC3339Nano ns : wf_bytes (RFC3339Nano ns).
Proof.
  unfold RFC3339Nano. destruct (civil _) as [[y m] d]. pose proof wf_padded as Hp. pose proof wf_str as Hs. unfold wf_bytes in *.
  assert (forall n v, Forall is_byte (rev (drop_while (Z.eqb 48) (rev (padded n v))))) as Hf.
  { intros n v. destruct (drop_while_split (Z.eqb 48) (rev (padded n v))) as [l' E]. specialize (Hp n v).
    apply Forall_rev in Hp. rewrite E in Hp. apply Forall_app in Hp as [_ Hp]. by apply Forall_rev. }
  rewrite !Forall_app. split_and!; auto. case_decide; [constructor|]. apply Forall_app. auto.
Qed.

Lemma wf_app a b : wf_members a -> wf_members b -> wf_members (a ++ b).
Proof. intros. by apply Forall_app. Qed.
Lemma wf_cons k v l : wf_json v -> depth v <= 2 -> wf_members l -> wf_members ((str k, v) :: l).
Proof. intros. constructor; [|done]. split; [apply wf_str|done]. Qed.
Lemma wf_nil : wf_members [].
Proof. constructor. Qed.
Lemma wf_fstr k s : wf_bytes s -> wf_members (fstr k s).
Proof. intros. apply wf_cons; [done|cbn; lia|constructor]. Qed.
Lemma wf_fuint k v : 0 <= v -> wf_members (fuint k v).
Proof. intros. apply wf_cons; [by apply valid_Uitoa|cbn; lia|constructor]. Qed.
Lemma wf_fint k v : wf_members (fint k v).
Proof. apply wf_cons; [apply valid_Itoa|cbn; lia|constructor]. Qed.
Lemma wf_fbool k b : wf_members (fbool k b).
Proof. apply wf_cons; [done|cbn; lia|constructor]. Qed.
Lemma wf_str_oe k s : wf_bytes s -> wf_members (str_oe k s).
Proof. intros. unfold str_oe. case_decide; [apply wf_nil|by apply wf_fstr]. Qed.
Lemma wf_uint_oe k v : 0 <= v -> wf_members (uint_oe k v).
Proof. intros. unfold uint_oe. destruct (v =? 0); [apply wf_nil|by apply wf_fuint]. Qed.
Lemma wf_int_oe k v : wf_members (int_oe k v).
Proof. unfold int_oe. destruct (v =? 0); [apply wf_nil|by apply wf_fint]. Qed.
Lemma wf_bool_oe k b : wf_members (bool_oe k b).
Proof. destruct b; [apply wf_fbool|apply wf_nil]. Qed.

Lemma wf_array l : Forall (fun v => wf_json v /\ depth v <= 1) l -> wf_json (JArr l) /\ depth (JArr l) <= 2.
Proof.
  intros H. cbn [wf_json depth]. rewrite foldr_and. pose proof (foldr_max depth l 1 ltac:(lia)) as Hm.
  split; [eapply Forall_impl; [exact H|tauto]|]. assert (foldr Z.max 0 (map depth l) <= 1); [|lia].
  apply Hm. eapply Forall_impl; [exact H|]. cbn. tauto.
Qed.

Lemma wf_object_at n l : 0 <= n -> Forall (fun kv => wf_bytes kv.1 /\ wf_json kv.2 /\ depth kv.2 <= n) l ->
  wf_json (JObj l) /\ depth (JObj l) <= n + 1.
Proof.
  intros Hn H. cbn [wf_json depth]. rewrite foldr_and. pose proof (foldr_max (fun kv : bytes * json => depth kv.2) l n Hn) as Hm.
  split; [eapply Forall_impl; [exact H|cbn; tauto]|]. assert (foldr Z.max 0 (map (fun kv => depth kv.2) l) <= n); [|lia].
  apply Hm. eapply Forall_impl; [exact H|]. cbn. tauto.
Qed.

Lemma wf_strs_oe k l : Forall wf_bytes l -> wf_members (strs_oe k l).
Proof.
  intros H. unfold strs_oe. case_decide; [apply wf_nil|]. destruct (wf_array (map JStr l)) as [Hw Hd]; [|apply wf_cons; [done|done|apply wf_nil]].
  apply Forall_fmap. eapply Forall_impl; [exact H|]. cbn. intros. split; [done|lia].
Qed.

Lemma wf_map_json {A} (f : A -> json) (m : gmap bytes A) : Forall wf_bytes (elements (dom m)) ->
  Forall (fun v => wf_json (f v) /\ depth (f v) <= 0) (map_to_list m).*2 -> wf_json (map_json f m) /\ depth (map_json f m) <= 1.
Proof.
  intros Hk Hv. apply (wf_object_at 0); [lia|]. apply Forall_forall. intros [k j] (k' & Hk' & E)%list_elem_of_omap.
  rewrite elem_of_Sort in Hk'. rewrite Forall_forall in Hk. rewrite Forall_forall in Hv. destruct (m !! k') as [v|] eqn:El; [|done]. injection E as -> <-. cbn [fst snd].
  split; [by apply Hk|]. apply Hv, list_elem_of_fmap. exists (k, v). split; [done|]. by apply elem_of_map_to_list.
Qed.

Create HintDb wfm.
#[export] Hint Resolve wf_str wf_RFC3339Nano wf_app wf_nil wf_fstr wf_fuint wf_fint wf_fbool wf_str_oe wf_uint_oe wf_int_oe wf_bool_oe wf_strs_oe : wfm.

Ltac typed := repeat match goal with
  | H : Forall _ (_ :: _) |- _ => apply Forall_cons in H as [? H]
  | H : Forall _ (_ ++ _) |- _ => apply Forall_app in H as [? H]
  | H : Forall _ [] |- _ => clear H end.

Lemma wf_event_json e : Forall wf_bytes (event_strings e) -> Forall (fun v => 0 <= v) (event_uints e) -> wf_members (event_json e).
Proof.
  destruct e as [e|e|e|e|e|e|e|e|e|e|e|e|e|e|e|e|e]; cbn [event_strings event_uints event_json]; intros Hs Hu; typed.
  all: try (unfold ExecEvent_json, ProcForkEvent_json, FSEvent_json, TCPEvent_json, TCPResultEvent_json, TCPStateEvent_json, UDPEvent_json,
    QUICCandidateEvent_json, HTTPEvent_json, KTLSEvent_json, IPv6Event_json, IOUringSendEvent_json, IOUringTLSEvent_json,
    EgressBackstopEvent_json, BPFAuditEvent_json, BpfSelfDefenseEvent_json; auto 30 with wfm).
  unfold TLSEvent_json. assert (wf_bytes (TLSConfidence_text (tl_Confidence e))) by (destruct (tl_Confidence e); apply wf_str).
  auto 30 with wfm.
Qed.

Lemma wf_leaf_members l : wf_members l -> Forall (fun kv => depth kv.2 <= 0) l -> wf_json (JObj l) /\ depth (JObj l) <= 1.
Proof.
  intros Hw Hd. apply (wf_object_at 0); [lia|]. unfold wf_members in Hw. rewrite Forall_forall in *. intros kv Hkv.
  destruct (Hw kv Hkv) as (? & ? & _). split; [done|]. split; [done|]. by apply Hd.
Qed.

Lemma leaf_app a b : Forall (fun kv : bytes * json => depth kv.2 <= 0) a -> Forall (fun kv => depth kv.2 <= 0) b -> Forall (fun kv => depth kv.2 <= 0) (a ++ b).
Proof. intros. by apply Forall_app. Qed.
Lemma leaf_fstr k s : Forall (fun kv => depth kv.2 <= 0) (fstr k s).
Proof. by repeat constructor. Qed.
Lemma leaf_fbool k s : Forall (fun kv => depth kv.2 <= 0) (fbool k s).
Proof. by repeat constructor. Qed.
Lemma leaf_str_oe k s : Forall (fun kv => depth kv.2 <= 0) (str_oe k s).
Proof. unfold str_oe. case_decide; by repeat constructor. Qed.
Lemma leaf_bool_oe k b : Forall (fun kv => depth kv.2 <= 0) (bool_oe k b).
Proof. destruct b; by repeat constructor. Qed.
Lemma leaf_uint_oe k v : Forall (fun kv => depth kv.2 <= 0) (uint_oe k v).
Proof. unfold uint_oe. destruct (v =? 0); by repeat constructor. Qed.
#[export] Hint Resolve leaf_app leaf_fstr leaf_fbool leaf_str_oe leaf_bool_oe leaf_uint_oe : wfm.

Lemma wf_BPFStatus_json b : wf_bytes (bs_Name b) -> wf_bytes (bs_Detail b) -> wf_json (BPFStatus_json b) /\ depth (BPFStatus_json b) <= 1.
Proof. intros. apply wf_leaf_members; auto 10 with wfm. Qed.

Lemma wf_bpf_json o : Forall wf_bytes (concat (map (fun b => [bs_Name b; bs_Detail b]) (default [] o))) ->
  wf_members [(str "bpf", match o with Some l => JArr (map BPFStatus_json l) | None => JNull end)].
Proof.
  intros H. destruct o as [l|]; [|apply wf_cons; [done|cbn; lia|apply wf_nil]]. change (default [] (Some l)) with l in H.
  destruct (wf_array (map BPFStatus_json l)) as [Hw Hd]; [|by apply wf_cons; [..|apply wf_nil]].
  apply Forall_fmap. induction l as [|b l IH]; [constructor|]. cbn [map concat app] in H. typed. constructor; [by apply wf_BPFStatus_json|auto].
Qed.

Lemma wf_MetaEvent_json m : Forall wf_bytes (meta_strings m) -> Forall (fun v => 0 <= v) (line_uints (LMeta m)) -> wf_members (MetaEvent_json m).
Proof.
  intros Hs Hu. unfold meta_strings in Hs. unfold line_uints in Hu. typed. unfold MetaEvent_json.
  assert (wf_members [(str "github", MetaGitHub_json (me_GitHub m))]).
  { unfold github_strings in *. typed. destruct (wf_leaf_members (str_oe "repository" (gh_Repository (me_GitHub m)) ++
      str_oe "workflow" (gh_Workflow (me_GitHub m)) ++ str_oe "run_id" (gh_RunID (me_GitHub m)) ++
      str_oe "run_attempt" (gh_RunAttempt (me_GitHub m)) ++ str_oe "job" (gh_Job (me_GitHub m)) ++ str_oe "sha" (gh_SHA (me_GitHub m)) ++
      str_oe "ref" (gh_Ref (me_GitHub m)) ++ str_oe "actor" (gh_Actor (me_GitHub m)))) as [Hw Hd]; auto 20 with wfm.
    apply wf_cons; [exact Hw|unfold MetaGitHub_json; lia|apply wf_nil]. }
  assert (wf_members (if decide (me_Capabilities m = ∅) then [] else [(str "capabilities", map_json JBool (me_Capabilities m))])).
  { destruct (decide (me_Capabilities m = ∅)); [apply wf_nil|]. destruct (wf_map_json JBool (me_Capabilities m)) as [Hw Hd]; [done| |apply wf_cons; [done|lia|apply wf_nil]].
    apply Forall_true. intros b. split; [done|cbn; lia]. }
  assert (wf_members (if decide (me_DroppedEvents m = ∅) then [] else [(str "dropped_events", map_json (fun v => JNum (Uitoa v)) (me_DroppedEvents m))])).
  { destruct (decide (me_DroppedEvents m = ∅)); [apply wf_nil|]. destruct (wf_map_json (fun v => JNum (Uitoa v)) (me_DroppedEvents m)) as [Hw Hd]; [done| |apply wf_cons; [done|lia|apply wf_nil]].
    eapply Forall_impl; [exact Hu|]. intros v Hv. split; [by apply valid_Uitoa|cbn; lia]. }
  assert (wf_members match me_Coverage m with Some c => [(str "coverage", CoverageReport_json c)] | None => [] end).
  { destruct (me_Coverage m) as [c|]; [|apply wf_nil]. typed.
    destruct (wf_leaf_members (fbool "ipv4_tcp" (cv_IPv4TCP c) ++ fbool "ipv4_udp_sendmsg" (cv_IPv4UDPSendmsg c) ++ fstr "ipv6" (cv_IPv6 c) ++
      fbool "quic_http3" (cv_QUICHTTP3 c) ++ uint_oe "quic_observed" (cv_QuicObserved c) ++ fstr "tls_sni_full" (cv_TLSSNI c) ++
      fbool "io_uring" (cv_IoUring c))) as [Hw Hd]; auto 20 with wfm.
    apply wf_cons; [exact Hw|unfold CoverageReport_json; lia|apply wf_nil]. }
  pose proof (wf_bpf_json (me_BPF m) ltac:(assumption)). auto 40 with wfm.
Qed.

Lemma wf_line l : typed_line l -> wf_json (line_json l) /\ depth (line_json l) <= 3.
Proof.
  intros [Hs Hu]. apply (wf_object_at 2); [lia|]. apply Forall_cons in Hs as [Ht Hs]. apply wf_cons; [done|cbn; lia|].
  destruct l as [e|e|ts e|e|m]; cbn [line_strings] in Hs.
  - by apply wf_event_json.
  - cbn [line_uints] in Hu. typed. unfold DenyEvent_json. auto 30 with wfm.
  - cbn [line_uints] in Hu. typed. unfold BPFTamperEvent_json. auto 30 with wfm.
  - typed. unfold DNSDriftEvent_json. auto 30 with wfm.
  - by apply wf_MetaEvent_json.
Qed.

Lemma parse_line l : typed_line l -> parse (Marshal (line_json l)) = Some (coerced (line_json l)).
Proof. intros H. destruct (wf_line l H). apply parse_Marshal; [done|]. unfold maxNestingDepth. lia. Qed.

(** * The canonical form *)

Definition keys_lt (a b : bytes * json) : Prop := ble a.1 b.1 /\ a.1 <> b.1.
Definition ordered (l : members_of) : Prop := StronglySorted keys_lt l.


Lemma put_member_elem k v l kv : kv ∈ put_member k v l -> kv = (k, v) \/ kv ∈ l.
Proof.
  induction l as [|[k' v'] l IH]; cbn [put_member]; [intros ->%list_elem_of_singleton; auto|].
  case_decide; [rewrite !elem_of_cons; tauto|]. destruct (bleb k k'); rewrite !elem_of_cons; [tauto|]. intros [?|?%IH]; tauto.
Qed.

Lemma put_member_ordered k v l : ordered l -> ordered (put_member k v l).
Proof.
  unfold ordered. induction 1 as [|[k' v'] l Hl IH Hk]; cbn [put_member]; [by repeat constructor|]. case_decide as E; [subst; by constructor|].
  destruct (bleb k k') eqn:Ek.
  - assert (keys_lt (k, v) (k', v')) as Hlt by by split. constructor; [by constructor|]. constructor; [done|].
    eapply Forall_impl; [exact Hk|]. intros [k2 v2] [H2 Hne]. cbn in *. split; [cbn; by etrans; [exact Ek|]|].
    cbn. intros ->. apply E. apply (anti_symm ble); [exact Ek|exact H2].
  - constructor; [done|]. apply Forall_forall. intros kv [-> |Hin]%put_member_elem.
    + split; [cbn|by apply not_eq_sym]. destruct (ble_total k k') as [H|H]; [by unfold ble in H; rewrite Ek in H|done].
    + rewrite Forall_forall in Hk. by apply Hk.
Qed.

Lemma put_all_ordered_from acc l : ordered acc -> ordered (foldl (fun acc kv => put_member kv.1 kv.2 acc) acc l).
Proof. revert acc. induction l as [|[k v] l IH]; intros acc H; [done|]. by apply IH, put_member_ordered. Qed.

Lemma put_all_ordered l : ordered (put_all l).
Proof. apply put_all_ordered_from. constructor. Qed.

Lemma put_member_last k v l : Forall (fun kv => keys_lt kv (k, v)) l -> put_member k v l = l ++ [(k, v)].
Proof.
  induction 1 as [|[k' v'] l [H Hne] _ IH]; [done|]. cbn in *. rewrite decide_False by auto. destruct (bleb k k') eqn:E; [|by rewrite IH].
  exfalso. apply Hne. by apply (anti_symm ble).
Qed.

Lemma put_all_app acc l : ordered (acc ++ l) -> foldl (fun acc kv => put_member kv.1 kv.2 acc) acc l = acc ++ l.
Proof.
  revert acc. induction l as [|[k v] l IH]; intros acc H; cbn [foldl]; [by rewrite app_nil_r|].
  rewrite put_member_last; [by rewrite IH; rewrite <- app_assoc|].
  apply Forall_forall. intros kv Hin. unfold ordered in H. apply StronglySorted_app in H as (H & _). apply H; [done|left].
Qed.

Lemma put_all_id l : ordered l -> put_all l = l.
Proof. intros. by apply put_all_app. Qed.

Lemma coerce_idem s : wf_bytes s -> coerce (coerce s) = coerce s.
Proof. intros H. unfold coerce. by rewrite runes_encode by by apply runes_scalar. Qed.

Lemma wf_coerce s : wf_bytes s -> wf_bytes (coerce s).
Proof.
  intros H. unfold coerce, encode, wf_bytes. apply Forall_concat, Forall_fmap. eapply Forall_impl; [by apply runes_scalar|].
  intros r Hr. unfold scalar in Hr. unfold is_byte. cbn. inversion Hr; repeat (constructor; [lia|]); constructor.
Qed.

Lemma map_fixed {A} (f : A -> A) l : map f l = l <-> Forall (fun x => f x = x) l.
Proof. induction l as [|x l IH]; cbn [map]; [done|]. rewrite Forall_cons, <- IH. split; [by intros [= -> H]|by intros [-> ->]]. Qed.

(** Values whose strings are valid, which [coerced] leaves alone. *)
Definition fixed (v : json) : Prop := coerced v = v.

Lemma fixed_obj l : fixed (JObj l) <-> Forall (fun kv => coerce kv.1 = kv.1 /\ fixed kv.2) l.
Proof.
  unfold fixed. cbn [coerced]. split.
  - intros [= H]. apply map_fixed in H. eapply Forall_impl; [exact H|]. intros [k v]. cbn. by intros [= -> ->].
  - intros H. f_equal. apply map_fixed. eapply Forall_impl; [exact H|]. intros [k v]. cbn. by intros [-> ->].
Qed.

Lemma fixed_arr l : fixed (JArr l) <-> Forall fixed l.
Proof. unfold fixed. cbn [coerced]. rewrite <- map_fixed. split; [by intros [= H]|by intros ->]. Qed.

(** A property of members is kept by [put_all]. *)
Lemma put_member_Forall (P : bytes * json -> Prop) k v l : P (k, v) -> Forall P l -> Forall P (put_member k v l).
Proof. intros Hp Hl. rewrite Forall_forall in *. intros kv [-> |Hin]%put_member_elem; auto. Qed.

Lemma put_all_Forall (P : bytes * json -> Prop) l : Forall P l -> Forall P (put_all l).
Proof.
  unfold put_all. assert (forall acc, Forall P acc -> Forall P l -> Forall P (foldl (fun acc kv => put_member kv.1 kv.2 acc) acc l)) as H.
  { induction l as [|[k v] l IH]; intros acc Ha Hl; [done|]. apply Forall_cons in Hl as [Hp Hl]. apply IH; [by apply put_member_Forall|done]. }
  intros. by apply H.
Qed.

Lemma Forall_map_snd (P : json -> Prop) (Q : bytes -> Prop) f (l : members_of) :
  Forall (fun kv => Q kv.1 /\ P (f kv.2)) l -> Forall (fun kv => Q kv.1 /\ P kv.2) (map (fun kv => (kv.1, f kv.2)) l).
Proof. intros H. apply Forall_fmap. exact H. Qed.

Lemma fixed_coerced v : wf_json v -> fixed (coerced v).
Proof.
  induction v as [| b |lit|s|l IH|l IH] using json_ind'; cbn [wf_json coerced]; intros Hw; try done.
  - unfold fixed. cbn [coerced]. by rewrite coerce_idem.
  - rewrite foldr_and in Hw. apply fixed_arr. apply Forall_fmap. rewrite Forall_forall in *. intros v Hv. by apply IH, Hw.
  - rewrite foldr_and in Hw. apply fixed_obj. apply Forall_fmap. rewrite Forall_forall in *. intros [k v] Hv. destruct (Hw _ Hv) as [Hk Hx].
    split; [by apply coerce_idem|by apply (IH _ Hv)].
Qed.

Lemma wf_coerced v : wf_json v -> wf_json (coerced v).
Proof.
  induction v as [| b |lit|s|l IH|l IH] using json_ind'; cbn [wf_json coerced]; intros Hw; try done; [by apply wf_coerce|..];
    rewrite foldr_and in *; apply Forall_fmap; rewrite Forall_forall in *.
  - intros v Hv. by apply IH, Hw.
  - intros [k v] Hv. destruct (Hw _ Hv) as [Hk Hx]. split; [by apply wf_coerce|by apply (IH _ Hv)].
Qed.

Lemma depth_coerced v : depth (coerced v) = depth v.
Proof.
  induction v as [| b |lit|s|l IH|l IH] using json_ind'; cbn [depth coerced]; try done; do 2 f_equal; rewrite map_map; apply map_ext_Forall; [exact IH|].
  eapply Forall_impl; [exact IH|]. by intros [k v].
Qed.

Lemma canon_fixed v : fixed v -> fixed (canon v).
Proof.
  induction v as [| b |lit|s|l IH|l IH] using json_ind'; cbn [canon]; intros Hf; try done.
  - rewrite fixed_arr in *. apply Forall_fmap. rewrite Forall_forall in *. intros v Hv. by apply IH, Hf.
  - rewrite fixed_obj in *. apply put_all_Forall, Forall_fmap. rewrite Forall_forall in *. intros [k v] Hv.
    destruct (Hf _ Hv) as [Hk Hx]. split; [done|by apply (IH _ Hv)].
Qed.

Lemma canon_wf v n : wf_json v -> depth v <= n -> wf_json (canon v) /\ depth (canon v) <= n.
Proof.
  revert n. induction v as [| b |lit|s|l IH|l IH] using json_ind'; intros n Hw Hd; try done; cbn [canon].
  - cbn [wf_json depth] in *. rewrite foldr_and in *. pose proof (depth_nonneg (JArr l)) as Hp. cbn [depth] in Hp.
    assert (0 <= foldr Z.max 0 (map depth l)) as H0 by (clear; induction l; cbn [map foldr]; lia).
    pose proof (foldr_max depth l (n - 1) ltac:(lia)) as Hm. pose proof (foldr_max depth (map canon l) (n - 1) ltac:(lia)) as Hm'.
    assert (Forall (fun v => depth v <= n - 1) l) as Hds by (apply Hm; lia).
    assert (Forall (fun v => wf_json (canon v) /\ depth (canon v) <= n - 1) l) as H.
    { rewrite Forall_forall in *. intros v Hv. by apply IH; [..|apply Hds]; auto. }
    split; [apply Forall_fmap; eapply Forall_impl; [exact H|]; cbn; tauto|].
    assert (foldr Z.max 0 (map depth (map canon l)) <= n - 1); [|lia]. apply Hm', Forall_fmap. eapply Forall_impl; [exact H|]. cbn. tauto.
  - cbn [wf_json depth] in Hw, Hd. rewrite foldr_and in Hw.
    assert (0 <= foldr Z.max 0 (map (fun kv => depth kv.2) l)) as H0 by (clear; induction l; cbn [map foldr]; lia).
    pose proof (foldr_max (fun kv : bytes * json => depth kv.2) l (n - 1) ltac:(lia)) as Hm.
    assert (Forall (fun kv => depth kv.2 <= n - 1) l) as Hds by (apply Hm; lia).
    destruct (wf_object_at (n - 1) (put_all (map (fun kv => (kv.1, canon kv.2)) l))) as [? ?]; [lia| |split; [done|lia]].
    apply put_all_Forall, Forall_fmap. rewrite Forall_forall in *. intros [k v] Hv. destruct (Hw _ Hv) as [Hk Hx].
    destruct (IH _ Hv (n - 1) Hx (Hds _ Hv)). done.
Qed.

Lemma canon_idem v : canon (canon v) = canon v.
Proof.
  induction v as [| b |lit|s|l IH|l IH] using json_ind'; cbn [canon]; try done.
  - f_equal. rewrite map_map. by apply map_ext_Forall.
  - f_equal. rewrite (proj2 (map_fixed (fun kv => (kv.1, canon kv.2)) _)); [apply put_all_id, put_all_ordered|].
    apply put_all_Forall, Forall_fmap. eapply Forall_impl; [exact IH|]. intros [k v]. cbn. by intros ->.
Qed.

Lemma canon_obj l : exists l', canon (JObj l) = JObj l' /\ ordered l'.
Proof. cbn [canon]. eexists. split; [done|apply put_all_ordered]. Qed.

Lemma put_member_perm k v l : k ∉ l.*1 -> put_member k v l ≡ₚ (k, v) :: l.
Proof.
  induction l as [|[k' v'] l IH]; [done|]. rewrite fmap_cons, not_elem_of_cons. cbn [fst]. intros [Hk Hl]. cbn [put_member].
  rewrite decide_False by done. destruct (bleb k k'); [done|]. rewrite IH by done. apply Permutation_swap.
Qed.

Lemma put_all_perm l : NoDup l.*1 -> put_all l ≡ₚ l.
Proof.
  intros Hd. unfold put_all. assert (forall acc, NoDup (acc ++ l).*1 -> foldl (fun acc kv => put_member kv.1 kv.2 acc) acc l ≡ₚ acc ++ l) as H.
  { clear Hd. induction l as [|[k v] l IH]; intros acc Hd; cbn [foldl]; [by rewrite app_nil_r|]. cbn [fst snd].
    assert (k ∉ acc.*1) as Hk.
    { rewrite fmap_app, fmap_cons in Hd. apply NoDup_app in Hd as (_ & Hd & _). intros Hin. apply (Hd k Hin). by left. }
    pose proof (put_member_perm k v acc Hk) as Hp.
    assert (put_member k v acc ++ l ≡ₚ acc ++ (k, v) :: l) as Hp' by (rewrite Hp; by rewrite <- Permutation_middle).
    rewrite IH; [done|]. by rewrite Hp'. }
  by apply (H []).
Qed.

(** * base64 *)

Lemma b64_chars : Forall (fun v => b64_val (b64_char v) = Some v /\ (b64_char v =? 61) = false /\
  negb ((b64_char v =? 10) || (b64_char v =? 13)) = true /\ 32 <= b64_char v < 127) (seqZ 0 64).
Proof. apply (bool_decide_unpack _). vm_compute. exact I. Qed.

Lemma b64_char_spec v : 0 <= v < 64 -> b64_val (b64_char v) = Some v /\ (b64_char v =? 61) = false /\
  negb ((b64_char v =? 10) || (b64_char v =? 13)) = true /\ 32 <= b64_char v < 127.
Proof. intros Hv. pose proof b64_chars as H. rewrite Forall_forall in H. apply H, elem_of_seqZ. lia. Qed.

(** Induction in steps of three. *)
Lemma list_ind3 {A} (P : list A -> Prop) : P [] -> (forall a, P [a]) -> (forall a b, P [a; b]) ->
  (forall a b c t, P t -> P (a :: b :: c :: t)) -> forall l, P l.
Proof.
  intros H0 H1 H2 H3. assert (forall n l, (length l <= n)%nat -> P l) as H; [|intros l; by apply (H (length l))].
  induction n as [|n IH]; intros [|a [|b [|c t]]] Hl; cbn [length] in Hl; auto; [lia..|]. apply H3, IH. lia.
Qed.

Ltac b64_bounds := Z.to_euclidean_division_equations; lia.

(** Every character of the text is one of the alphabet or the padding, so none
    is dropped on the way back. *)
Lemma b64_text s : wf_bytes s -> Forall (fun c => negb ((c =? 10) || (c =? 13)) = true /\ 32 <= c < 127) (EncodeToString s).
Proof.
  pose proof (fun v H => proj2 (proj2 (b64_char_spec v H))) as Hc.
  induction s as [|a|a b|a b c t IH] using list_ind3; intros Hw; cbn [EncodeToString]; unfold wf_bytes, is_byte in *; typed;
    repeat (constructor; [first [apply Hc; b64_bounds|by split]|]); [done..|]. by apply IH.
Qed.

Lemma b64_groups_encode s : wf_bytes s -> b64_groups (EncodeToString s) = Some s.
Proof.
  assert (forall v, 0 <= v < 64 -> b64_val (b64_char v) = Some v) as Hv by (intros; by apply b64_char_spec).
  assert (forall v, 0 <= v < 64 -> (b64_char v =? 61) = false) as He by (intros; by apply b64_char_spec).
  induction s as [|a|a b|a b c t IH] using list_ind3; intros Hw; [done|..]; unfold wf_bytes, is_byte in *; typed; cbn [EncodeToString b64_groups].
  - rewrite !Hv by b64_bounds. cbn [mbind option_bind Z.eqb Pos.eqb andb length Nat.eqb]. do 2 f_equal. b64_bounds.
  - rewrite !Hv by b64_bounds. rewrite He by b64_bounds. cbn [mbind option_bind Z.eqb Pos.eqb length Nat.eqb]. rewrite ?Hv by b64_bounds.
    cbn [mbind option_bind]. do 2 f_equal; [b64_bounds|f_equal; b64_bounds].
  - rewrite !Hv by b64_bounds. rewrite !He by b64_bounds. rewrite IH by done. cbn [mbind option_bind].
    do 2 f_equal; [b64_bounds|f_equal; [b64_bounds|f_equal; b64_bounds]].
Qed.

Lemma DecodeString_EncodeToString s : wf_bytes s -> DecodeString (EncodeToString s) = Some s.
Proof.
  intros Hw. unfold DecodeString. assert (List.filter (fun c => negb ((c =? 10) || (c =? 13))) (EncodeToString s) = EncodeToString s) as ->.
  { pose proof (b64_text s Hw) as H. induction H as [|c l [Hc _] _ IH]; [done|]. cbn [List.filter]. by rewrite Hc, IH. }
  by apply b64_groups_encode.
Qed.

Lemma ascii_coerce s : Forall (fun c => 32 <= c < 127) s -> coerce s = s.
Proof.
  intros H. assert (is_ascii s = true) as Ha.
  { apply is_ascii_Forall. eapply Forall_impl; [exact H|]. cbn. lia. }
  unfold coerce. rewrite runes_ascii by done. unfold encode. induction H as [|c s Hc _ IH]; [done|]. cbn [map concat].
  assert (encode_rune c = [c]) as -> by (apply utf8_encode; constructor; lia). cbn [app]. f_equal. apply IH.
  unfold is_ascii in *. cbn [forallb] in Ha. by apply andb_true_iff in Ha as [_ ?].
Qed.

(** * The keys of a line

    Every key is a lower-case literal other than ["sig"], and none occurs
    twice. *)

Definition keyed (P : bytes -> Prop) (l : members_of) : Prop := Forall (fun kv => P kv.1) l.
Definition plain (k : bytes) : Prop := coerce k = k /\ k <> str "sig" /\ lower_name k.

Lemma keyed_app P a b : keyed P a -> keyed P b -> keyed P (a ++ b).
Proof. intros. by apply Forall_app. Qed.
Lemma keyed_one (P : bytes -> Prop) k v : P (str k) -> keyed P [(str k, v)].
Proof. intros. by constructor. Qed.
Lemma keyed_str_oe (P : bytes -> Prop) k s : P (str k) -> keyed P (str_oe k s).
Proof. intros. unfold str_oe. case_decide; by constructor. Qed.
Lemma keyed_uint_oe (P : bytes -> Prop) k s : P (str k) -> keyed P (uint_oe k s).
Proof. intros. unfold uint_oe. destruct (_ =? _); by constructor. Qed.
Lemma keyed_int_oe (P : bytes -> Prop) k s : P (str k) -> keyed P (int_oe k s).
Proof. intros. unfold int_oe. destruct (_ =? _); by constructor. Qed.
Lemma keyed_bool_oe (P : bytes -> Prop) k b : P (str k) -> keyed P (bool_oe k b).
Proof. intros. destruct b; by constructor. Qed.
Lemma keyed_strs_oe (P : bytes -> Prop) k l : P (str k) -> keyed P (strs_oe k l).
Proof. intros. unfold strs_oe. case_decide; by constructor. Qed.
#[export] Hint Resolve keyed_app keyed_str_oe keyed_uint_oe keyed_int_oe keyed_bool_oe keyed_strs_oe : keyed.
#[export] Hint Extern 1 (keyed _ (fstr _ _)) => apply keyed_one : keyed.
#[export] Hint Extern 1 (keyed _ (fuint _ _)) => apply keyed_one : keyed.
#[export] Hint Extern 1 (keyed _ (fint _ _)) => apply keyed_one : keyed.
#[export] Hint Extern 1 (keyed _ (fbool _ _)) => apply keyed_one : keyed.
#[export] Hint Extern 1 (plain _) =>
  split; [vm_compute; reflexivity|split; [vm_compute; discriminate|apply (bool_decide_unpack _); vm_compute; exact I]] : keyed.

(** The members of a line after its type. *)
Definition line_fields (l : logLine) : members_of :=
  match l with
  | LEvent e => event_json e | LDeny e => DenyEvent_json e | LTamper ts e => BPFTamperEvent_json ts e
  | LDrift e => DNSDriftEvent_json e | LMeta m => MetaEvent_json m
  end.

Lemma line_json_fields l : line_json l = JObj (fstr "type" (line_type l) ++ line_fields l).
Proof. by destruct l. Qed.

Lemma plain_fields l : keyed plain (fstr "type" (line_type l) ++ line_fields l).
Proof.
  apply keyed_app; [auto with keyed|]. destruct l as [e|e|ts e|e|m]; cbn [line_fields].
  - destruct e; cbn [event_json]; unfold ExecEvent_json, ProcForkEvent_json, FSEvent_json, TCPEvent_json, TCPResultEvent_json, TCPStateEvent_json,
      UDPEvent_json, QUICCandidateEvent_json, HTTPEvent_json, TLSEvent_json, KTLSEvent_json, IPv6Event_json, IOUringSendEvent_json, IOUringTLSEvent_json,
      EgressBackstopEvent_json, BPFAuditEvent_json, BpfSelfDefenseEvent_json; auto 40 with keyed.
  - unfold DenyEvent_json. auto 40 with keyed.
  - unfold BPFTamperEvent_json. auto 40 with keyed.
  - unfold DNSDriftEvent_json. auto 40 with keyed.
  - unfold MetaEvent_json.
    assert (keyed plain (if decide (me_Capabilities m = ∅) then [] else [(str "capabilities", map_json JBool (me_Capabilities m))])).
    { destruct (decide (me_Capabilities m = ∅)); [constructor|apply keyed_one; auto with keyed]. }
    assert (keyed plain (if decide (me_DroppedEvents m = ∅) then [] else [(str "dropped_events", map_json (fun v => JNum (Uitoa v)) (me_DroppedEvents m))])).
    { destruct (decide (me_DroppedEvents m = ∅)); [constructor|apply keyed_one; auto with keyed]. }
    assert (keyed plain match me_Coverage m with Some c => [(str "coverage", CoverageReport_json c)] | None => [] end).
    { destruct (me_Coverage m); [apply keyed_one; auto with keyed|constructor]. }
    pose proof (keyed_one plain "github" (MetaGitHub_json (me_GitHub m)) ltac:(auto with keyed)).
    pose proof (keyed_one plain "bpf" match me_BPF m with Some l => JArr (map BPFStatus_json l) | None => JNull end ltac:(auto with keyed)).
    auto 40 with keyed.
Qed.

(** [l] has at most the keys [ks], in that order. *)
Definition within (ks : list bytes) (l : members_of) : Prop := l.*1 `sublist_of` ks.

Lemma within_app ka kb a b : within ka a -> within kb b -> within (ka ++ kb) (a ++ b).
Proof. unfold within. intros. rewrite fmap_app. by apply sublist_app. Qed.
Lemma within_one k v : within [str k] [(str k, v)].
Proof. unfold within. reflexivity. Qed.
Lemma within_oe (b : bool) k (x : members_of) : within [str k] x -> within [str k] (if b then [] else x).
Proof. intros. destruct b; [apply sublist_nil_l|done]. Qed.
Lemma within_str_oe k s : within [str k] (str_oe k s).
Proof. unfold str_oe. case_decide; [apply sublist_nil_l|apply within_one]. Qed.
Lemma within_uint_oe k s : within [str k] (uint_oe k s).
Proof. unfold uint_oe. destruct (_ =? _); [apply sublist_nil_l|apply within_one]. Qed.
Lemma within_int_oe k s : within [str k] (int_oe k s).
Proof. unfold int_oe. destruct (_ =? _); [apply sublist_nil_l|apply within_one]. Qed.
Lemma within_bool_oe k b : within [str k] (bool_oe k b).
Proof. destruct b; [apply within_one|apply sublist_nil_l]. Qed.
Lemma within_strs_oe k l : within [str k] (strs_oe k l).
Proof. unfold strs_oe. case_decide; [apply sublist_nil_l|apply within_one]. Qed.
Lemma within_decide {P : Prop} `{Decision P} k v : within [str k] (if decide P then [] else [(str k, v)]).
Proof. case_decide; [apply sublist_nil_l|apply within_one]. Qed.
Lemma within_option {A} (o : option A) k f : within [str k] match o with Some c => [(str k, f c)] | None => [] end.
Proof. destruct o; [apply within_one|apply sublist_nil_l]. Qed.

Create HintDb within discriminated.
#[export] Hint Resolve within_app within_one within_str_oe within_uint_oe within_int_oe within_bool_oe within_strs_oe within_decide within_option : within.
#[export] Hint Extern 1 (within _ (fstr _ _)) => apply within_one : within.
#[export] Hint Extern 1 (within _ (fuint _ _)) => apply within_one : within.
#[export] Hint Extern 1 (within _ (fint _ _)) => apply within_one : within.

Lemma within_NoDup ks l : within ks l -> bool_decide (NoDup ks) = true -> NoDup l.*1.
Proof. intros Hs Hn. eapply sublist_NoDup; [|exact Hs]. by apply bool_decide_eq_true in Hn. Qed.

Ltac keys_distinct := eapply within_NoDup; [solve [eauto 60 with within]|vm_compute; reflexivity].

Lemma line_keys_distinct l : NoDup (fstr "type" (line_type l) ++ line_fields l).*1.
Proof.
  destruct l as [e|e|ts e|e|m]; cbn [line_fields].
  - destruct e; cbn [event_json]; unfold ExecEvent_json, ProcForkEvent_json, FSEvent_json, TCPEvent_json, TCPResultEvent_json, TCPStateEvent_json,
      UDPEvent_json, QUICCandidateEvent_json, HTTPEvent_json, TLSEvent_json, KTLSEvent_json, IPv6Event_json, IOUringSendEvent_json, IOUringTLSEvent_json,
      EgressBackstopEvent_json, BPFAuditEvent_json, BpfSelfDefenseEvent_json; keys_distinct.
  - unfold DenyEvent_json. keys_distinct.
  - unfold BPFTamperEvent_json. keys_distinct.
  - unfold DNSDriftEvent_json. keys_distinct.
  - unfold MetaEvent_json. keys_distinct.
Qed.

(** The members of a line as a reader sees them. *)
Definition seen_members (l : logLine) : members_of := map (fun kv => (coerce kv.1, coerced kv.2)) (fstr "type" (line_type l) ++ line_fields l).

Lemma coerced_line l : coerced (line_json l) = JObj (seen_members l).
Proof. by rewrite line_json_fields. Qed.

Lemma plain_members l : keyed plain (seen_members l) /\ NoDup (seen_members l).*1.
Proof.
  pose proof (plain_fields l) as Hp. unfold keyed in Hp. pose proof (line_keys_distinct l) as Hd. unfold seen_members. split.
  - apply Forall_fmap. eapply Forall_impl; [exact Hp|]. intros [k v] Hk. change (plain (coerce k)). change (plain k) in Hk. by rewrite (proj1 Hk).
  - rewrite <- list_fmap_compose. replace (((fun kv : bytes * json => (coerce kv.1, coerced kv.2).1)) <$> _)
      with ((fstr "type" (line_type l) ++ line_fields l).*1); [done|].
    apply list_fmap_ext. intros i [k v] Hl. rewrite Forall_forall in Hp. symmetry. apply (Hp (k, v)). by eapply list_elem_of_lookup_2.
Qed.

(** [getm] on members whose values, or also their keys, are mapped. *)
Lemma getm_map (g : json -> json) k l : getm k (map (fun kv => (kv.1, g kv.2)) l) = g <$> getm k l.
Proof. induction l as [|[k' v] l IH]; cbn [map getm fst snd]; [done|]. by case_decide. Qed.

Definition coerced_members (l : members_of) : members_of := map (fun kv => (coerce kv.1, coerced kv.2)) l.

Lemma coerced_plain l : keyed plain l -> coerced_members l = map (fun kv => (kv.1, coerced kv.2)) l.
Proof.
  intros Hp. apply map_ext_Forall. unfold keyed in Hp. eapply Forall_impl; [exact Hp|]. intros [k v] Hk.
  change (plain k) in Hk. change ((coerce k, coerced v) = (k, coerced v)). by rewrite (proj1 Hk).
Qed.

Lemma coerced_keys l : keyed plain l -> (coerced_members l).*1 = l.*1.
Proof. intros Hp. rewrite coerced_plain by done. rewrite <- list_fmap_compose. by apply list_fmap_ext. Qed.

Lemma seen_getm k l : getm k (seen_members l) = coerced <$> getm k (fstr "type" (line_type l) ++ line_fields l).
Proof. change (getm k (coerced_members (fstr "type" (line_type l) ++ line_fields l)) = coerced <$> getm k (fstr "type" (line_type l) ++ line_fields l)).
  rewrite coerced_plain by apply plain_fields. apply getm_map. Qed.

(** [m] has the members [l], as they are or in canonical form, and perhaps a
    signature. *)
Definition reads_as (l m : members_of) : Prop :=
  NoDup m.*1 /\ Forall lower_name m.*1 /\
  exists g : json -> json, (g = id \/ g = canon) /\ forall k, k <> str "sig" -> getm k m = g <$> getm k l.

Lemma reads_same l : keyed plain l -> NoDup l.*1 -> reads_as (coerced_members l) (coerced_members l).
Proof.
  intros Hp Hd. split; [by rewrite coerced_keys|]. split.
  - rewrite coerced_keys by done. apply Forall_fmap. unfold keyed in Hp. eapply Forall_impl; [exact Hp|]. intros kv Hk. apply Hk.
  - exists id. split; [by left|]. intros k _. by destruct (getm k _).
Qed.

Lemma reads_canon l : keyed plain l -> NoDup l.*1 ->
  exists m, canon (JObj (coerced_members l)) = JObj m /\ reads_as (coerced_members l) m /\ m.*1 ≡ₚ l.*1.
Proof.
  intros Hp Hd. cbn [canon]. set (ml := map (fun kv => (kv.1, canon kv.2)) (coerced_members l)).
  assert (ml.*1 = l.*1) as Hk by (unfold ml; rewrite <- list_fmap_compose, <- (coerced_keys l) by done; by apply list_fmap_ext).
  assert (put_all ml ≡ₚ ml) as Hm by (apply put_all_perm; by rewrite Hk). eexists. split; [done|].
  assert (NoDup (put_all ml).*1) as Hmd by (by rewrite Hm, Hk). split; [|by rewrite Hm, Hk].
  split; [done|]. split.
  - rewrite Hm, Hk. apply Forall_fmap. unfold keyed in Hp. eapply Forall_impl; [exact Hp|]. intros kv Hkv. apply Hkv.
  - exists canon. split; [by right|]. intros k _. rewrite (getm_perm k _ _ Hmd Hm). apply getm_map.
Qed.

Lemma reads_put_sig l m v : reads_as l m -> str "sig" ∉ m.*1 -> reads_as l (put_member (str "sig") v m).
Proof.
  intros (Hd & Hl & g & Hg & Hm) Hs. pose proof (put_member_perm (str "sig") v m Hs) as Hput.
  assert (NoDup (put_member (str "sig") v m).*1) as Hpd by (rewrite Hput; by apply NoDup_cons). split; [done|]. split.
  - rewrite Hput, fmap_cons. apply Forall_cons. split; [apply (bool_decide_unpack _); vm_compute; exact I|done].
  - exists g. split; [done|]. intros k Hk. rewrite (getm_perm k _ _ Hpd Hput). cbn [getm]. rewrite decide_False by done. by apply Hm.
Qed.

(** * Signed lines verify *)

Section Verify.
Context (NewKeyFromSeed : bytes -> bytes) (Sign : bytes -> bytes -> bytes) (Verify : bytes -> bytes -> bytes -> bool).

(** How a line is checked against a public key (SECURITY.md): the canonical
    JSON of the line without its ["sig"] is what was signed. *)
Definition verifyLine (key line : bytes) : bool :=
  match parse line with
  | Some (JObj l) =>
    match list_find (fun kv => kv.1 = str "sig") l with
    | Some (_, (_, JStr b64)) =>
      match DecodeString b64 with
      | Some sig => Verify key (Marshal (canon (JObj (filter (fun kv => kv.1 <> str "sig") l)))) sig
      | None => false
      end
    | _ => false
    end
  | _ => false
  end.

Lemma put_find k v l : Forall (fun kv => kv.1 <> k) l -> exists i, list_find (fun kv : bytes * json => kv.1 = k) (put_member k v l) = Some (i, (k, v)).
Proof.
  induction 1 as [|[k' v'] l Hk _ IH]; cbn [put_member list_find]; [rewrite decide_True by done; eauto|]. cbn in Hk.
  rewrite decide_False by auto. destruct (bleb k k'); cbn [list_find fst].
  - rewrite decide_True by done. eauto.
  - rewrite decide_False by done. destruct IH as [i ->]. cbn. eauto.
Qed.

Lemma put_filter k v l : Forall (fun kv => kv.1 <> k) l -> filter (fun kv : bytes * json => kv.1 <> k) (put_member k v l) = l.
Proof.
  induction 1 as [|[k' v'] l Hk Hl IH]; cbn [put_member].
  - rewrite filter_cons_False; [done|]. cbn. auto.
  - cbn in Hk. rewrite decide_False by auto. destruct (bleb k k').
    + rewrite filter_cons_False by (cbn; auto). apply filter_all, Forall_forall. by constructor.
    + rewrite filter_cons_True by done. by rewrite IH.
Qed.

(** The members of a signed line, without and with the signature. *)
Lemma canon_line l : typed_line l -> exists m, canon (coerced (line_json l)) = JObj m /\
  wf_json (JObj m) /\ depth (JObj m) <= 3 /\ fixed (JObj m) /\ Forall (fun kv => kv.1 <> str "sig") m.
Proof.
  intros Ht. destruct (wf_line l Ht) as [Hw Hd]. pose proof (canon_fixed _ (fixed_coerced _ Hw)) as Hfix.
  apply wf_coerced in Hw. rewrite <- depth_coerced in Hd. destruct (canon_wf _ 3 Hw Hd) as [Hcw Hcd].
  rewrite line_json_fields in *. cbn [coerced canon] in *. eexists. split; [reflexivity|]. split_and!; [done..|].
  apply put_all_Forall. rewrite map_map. apply Forall_fmap. eapply Forall_impl; [apply plain_fields|].
  intros [k v] (Hk & Hs & _). cbn in *. by rewrite Hk.
Qed.

Lemma signed_text s l : typed_line l -> (forall k m, wf_bytes (Sign k m)) ->
  exists m text, canon (coerced (line_json l)) = JObj m /\ lineText Sign (Some s) (line_json l) = Some text /\
    parse text = Some (JObj (put_member (str "sig") (JStr (EncodeToString (Sign (priv s) (Marshal (JObj m))))) m)) /\
    Forall clean text /\ Forall (fun kv => kv.1 <> str "sig") m.
Proof.
  intros Ht Hsig. destruct (canon_line l Ht) as (m & E & Hw & Hd & Hf & Hns). unfold lineText. rewrite parse_line by done. cbn [mbind option_bind].
  rewrite E. exists m. eexists. split; [done|]. split; [done|].
  set (sig := EncodeToString _). assert (wf_bytes sig /\ coerce sig = sig) as [Hsw Hsc].
  { pose proof (b64_text _ (Hsig (priv s) (Marshal (JObj m)))) as Hb.
    split; [|apply ascii_coerce]; (eapply Forall_impl; [exact Hb|]); unfold is_byte; cbn; lia. }
  assert (wf_json (JObj (put_member (str "sig") (JStr sig) m))) as Hw'.
  { cbn [wf_json] in *. rewrite foldr_and in *. apply put_member_Forall; [|done]. split; [apply wf_str|done]. }
  split; [|split; [by apply Marshal_clean|done]]. rewrite parse_Marshal; [|done|].
  - f_equal. change (fixed (JObj (put_member (str "sig") (JStr sig) m))). apply fixed_obj, put_member_Forall; [|by apply fixed_obj].
    split; [done|]. unfold fixed. cbn [coerced snd]. by rewrite Hsc.
  - cbn [depth] in *. pose proof (foldr_max (fun kv : bytes * json => depth kv.2) m 2 ltac:(lia)) as Hm.
    pose proof (foldr_max (fun kv : bytes * json => depth kv.2) (put_member (str "sig") (JStr sig) m) 2 ltac:(lia)) as Hm'.
    assert (foldr Z.max 0 (map (fun kv => depth kv.2) (put_member (str "sig") (JStr sig) m)) <= 2); [|unfold maxNestingDepth; lia].
    apply Hm', put_member_Forall; [cbn; lia|]. apply Hm. lia.
Qed.

(** What a reader of the log finds. *)
Definition line_reads (l : logLine) (text : bytes) : Prop :=
  exists m, parse text = Some (JObj m) /\ reads_as (seen_members l) m.

Lemma written_reads s l : typed_line l -> (forall k m, wf_bytes (Sign k m)) ->
  exists text, lineText Sign s (line_json l) = Some text /\ Forall clean text /\ text <> [] /\ line_reads l text.
Proof.
  intros Ht Hsig. destruct (wf_line l Ht) as [Hw _]. pose proof (plain_fields l) as Hp. pose proof (line_keys_distinct l) as Hd.
  destruct s as [s|].
  - destruct (signed_text s l Ht Hsig) as (m & text & Ec & Et & Ep & Hclean & Hns). exists text. split; [done|]. split; [done|].
    split; [by intros ->|]. eexists. split; [exact Ep|]. rewrite coerced_line in Ec.
    destruct (reads_canon _ Hp Hd) as (m' & Em & Hr & _). change (canon (JObj (seen_members l)) = JObj m') in Em. rewrite Em in Ec. injection Ec as ->.
    apply reads_put_sig; [exact Hr|]. intros (kv & E & Hin)%list_elem_of_fmap. rewrite Forall_forall in Hns. by apply (Hns kv).
  - exists (Marshal (line_json l)). split; [done|]. split; [by apply Marshal_clean|]. split; [by rewrite line_json_fields|].
    exists (seen_members l). split; [by rewrite parse_line, coerced_line|]. by apply reads_same.
Qed.

(** C25: A line that is appended with a signer made from a seed is one line
    of text, holds the canonical form of the event (its strings as a reader
    sees them, its numbers digit for digit), and verifies against the
    signer's public key. *)
Theorem signed_line_verifies seed l file n :
  (forall sd m, Verify (drop 32 (NewKeyFromSeed sd)) m (Sign (NewKeyFromSeed sd) m) = true) ->
  (forall k m, wf_bytes (Sign k m)) ->
  wf_bytes seed -> len seed = 32 -> typed_line l ->
  exists s text m t, NewSigner NewKeyFromSeed (EncodeToString seed) = Ok (Some s) /\
    AppendJSONL Sign (str "e") (line_json l) (Some s) file (Appends n false false) = (file ++ text ++ [10], Ok tt) /\
    10 ∉ text /\ verifyLine (pub s) text = true /\
    canon (coerced (line_json l)) = JObj m /\ parse text = Some (JObj t) /\ filter (fun kv => kv.1 <> str "sig") t = m.
Proof.
  intros Hver Hsig Hseed Hlen Ht. set (s := mkSigner (NewKeyFromSeed seed) (drop 32 (NewKeyFromSeed seed))).
  destruct (signed_text s l Ht Hsig) as (m & text & Ec & Et & Ep & Hclean & Hns). exists s, text, m. eexists. split_and!.
  - unfold NewSigner. rewrite decide_False by (intros E; apply (f_equal DecodeString) in E; rewrite DecodeString_EncodeToString in E by done; by injection E as ->).
    rewrite DecodeString_EncodeToString, Hlen by done. done.
  - unfold AppendJSONL. rewrite decide_False by done. rewrite Et. reflexivity.
  - intros H10. rewrite Forall_forall in Hclean. destruct (Hclean _ H10) as [? _]. lia.
  - unfold verifyLine. rewrite Ep. destruct (put_find (str "sig") (JStr (EncodeToString (Sign (priv s) (Marshal (JObj m))))) m Hns) as [i ->].
    rewrite DecodeString_EncodeToString by done. rewrite put_filter by done. rewrite <- Ec, canon_idem, Ec. apply Hver.
  - done.
  - exact Ep.
  - by apply put_filter.
Qed.
End Verify.

(** * Witness *)
Module Witness.
(** A signature scheme for the example: a key is the seed and its copy, and a
    signature is the public half before the message. *)
Definition toy_key (seed : bytes) : bytes := seed ++ seed.
Definition toy_sign (k m : bytes) : bytes := map (fun b => b mod 256) (drop 32 k ++ m).
Definition toy_verify (p m s : bytes) : bool := bool_decide (s = map (fun b => b mod 256) (p ++ m)).
Definition toy_seed : bytes := repeat 7 32.

Lemma toy_sign_wf k m : wf_bytes (toy_sign k m).
Proof. apply Forall_fmap, Forall_forall. intros b _. by apply Z.mod_pos_bound. Qed.

Definition deny_line : logLine := LDeny (mkDeny 0 3 10 10 10 (str "curl") (str "tcp") (str "9.9.9.9") 443 (str "policy") (str "defend") (str "connect4") (str "ipv4")).

Lemma deny_line_typed : typed_line deny_line.
Proof. split; apply (bool_decide_unpack _); vm_compute; exact I. Qed.

Lemma signed_line_verifies_witness : exists s text m t, NewSigner toy_key (EncodeToString toy_seed) = Ok (Some s) /\
  AppendJSONL toy_sign (str "e") (line_json deny_line) (Some s) [] (Appends 0 false false) = ([] ++ text ++ [10], Ok tt) /\
  10 ∉ text /\ verifyLine toy_verify (pub s) text = true /\
  canon (coerced (line_json deny_line)) = JObj m /\ parse text = Some (JObj t) /\ filter (fun kv => kv.1 <> str "sig") t = m.
Proof.
  apply (signed_line_verifies toy_key toy_sign toy_verify toy_seed deny_line [] 0).
  - intros sd m. unfold toy_verify, toy_sign, toy_key. by apply bool_decide_eq_true_2.
  - exact toy_sign_wf.
  - apply (bool_decide_unpack _). vm_compute. exact I.
  - reflexivity.
  - exact deny_line_typed.
Defined.
End Witness.
