(* ===== verification/Report.v ===== *)
(** The Markdown report: internal/report/markdown/markdown.go.  [Parse] reads
    the event log into an [Aggregate]; [RenderSimple] and [RenderDetailed]
    print it; [DiffDomains] and [MissingRequiredTypes] are the data of the two
    gates.

    The reader is a byte sequence and the error that ends it.  What
    [bufio.Reader.ReadSlice] returns does not depend on the sizes of the reads
    below it, so a read is a function of the bytes that are left. *)
From S2P Require Import Prelude GoStrings Telemetry Json.

Open Scope Z_scope.

(** * The aggregate *)

Inductive counter :=
  | TCPConns | UDPSends | HTTPReqs | Execs | ProcForks | FSEvents | TLSFull | TLSPartial | TLSInferred | TLSUnknown
  | QUICCandidates | IPv6Events | KTLSOffload | TCPStateEvents | IoUringSend | IoUringTLS | BPFAudit | BPFTamper
  | BpfSelfDefenseDenied | EgressBackstop | ParseErrors | TotalEvents | NonMetaEvents.

#[global] Instance counter_eq_dec : EqDecision counter.
Proof. solve_decision. Defined.

Record Deny := mkDeny { d_Comm : bytes; d_Protocol : bytes; d_Dst : bytes; d_Dport : Z; d_Reason : bytes; d_HookFamily : bytes }.
Record BPFStatus := mkBPFStatus { b_Name : bytes; b_OK : bool }.

Record Aggregate := mkAggregate {
  Mode : bytes;
  ct : counter -> Z;
  Denies : list Deny;
  Dests : gmap bytes Z;
  seen : gset bytes;
  domains : gset bytes;
  EventsSHA256 : bytes;
  AgentVersion : bytes;
  KernelRelease : bytes;
  DetectProfile : bytes;
  AllowlistIPs : Z;
  AllowlistEntries : Z;
  RunnerHasIPv6 : bool;
  RunnerEnv : bytes;
  BPF : list BPFStatus;
  DroppedEvents : gmap bytes Z;
  MetaSeen : bool;
}.

Definition new_aggregate : Aggregate :=
  mkAggregate [] (fun _ => 0) [] ∅ ∅ ∅ [] [] [] [] 0 0 false [] [] ∅ false.

(** [a.c++], [a.seen[t] = struct{}{}], [a.domains[d] = struct{}{}], [a.Dests[k]++]. *)
Definition bump (c : counter) (a : Aggregate) : Aggregate :=
  mkAggregate (Mode a) (fun c' => ct a c' + if decide (c' = c) then 1 else 0) (Denies a) (Dests a) (seen a) (domains a) (EventsSHA256 a)
    (AgentVersion a) (KernelRelease a) (DetectProfile a) (AllowlistIPs a) (AllowlistEntries a) (RunnerHasIPv6 a) (RunnerEnv a) (BPF a)
    (DroppedEvents a) (MetaSeen a).
Definition see (t : bytes) (a : Aggregate) : Aggregate :=
  mkAggregate (Mode a) (ct a) (Denies a) (Dests a) ({[t]} ∪ seen a) (domains a) (EventsSHA256 a) (AgentVersion a) (KernelRelease a)
    (DetectProfile a) (AllowlistIPs a) (AllowlistEntries a) (RunnerHasIPv6 a) (RunnerEnv a) (BPF a) (DroppedEvents a) (MetaSeen a).
Definition add_domain (d : bytes) (a : Aggregate) : Aggregate :=
  mkAggregate (Mode a) (ct a) (Denies a) (Dests a) (seen a) ({[d]} ∪ domains a) (EventsSHA256 a) (AgentVersion a) (KernelRelease a)
    (DetectProfile a) (AllowlistIPs a) (AllowlistEntries a) (RunnerHasIPv6 a) (RunnerEnv a) (BPF a) (DroppedEvents a) (MetaSeen a).
Definition add_dest (k : bytes) (a : Aggregate) : Aggregate :=
  mkAggregate (Mode a) (ct a) (Denies a) (<[k := default 0 (Dests a !! k) + 1]> (Dests a)) (seen a) (domains a) (EventsSHA256 a) (AgentVersion a)
    (KernelRelease a) (DetectProfile a) (AllowlistIPs a) (AllowlistEntries a) (RunnerHasIPv6 a) (RunnerEnv a) (BPF a) (DroppedEvents a)
    (MetaSeen a).

Definition CapturedNothing (a : Aggregate) : bool := ct a NonMetaEvents =? 0.

(** * Lines *)

Definition typedLine : fields bytes := [(str "type", to_string)].

(** A decoder for one field of a structure. *)
Definition field {R A} (k : string) (get : R -> A) (set : R -> A -> R) (dec : A -> json -> option A) : bytes * (R -> json -> option R) :=
  (str k, fun r v => set r <$> dec (get r) v).

Record netLine := mkNet { n_Dst : bytes; n_Dport : Z; n_FQDN : bytes; n_PossibleQUIC : bool }.
Definition netLine_fields : fields netLine := [
  field "dst" n_Dst (fun r x => mkNet x (n_Dport r) (n_FQDN r) (n_PossibleQUIC r)) to_string;
  field "dport" n_Dport (fun r x => mkNet (n_Dst r) x (n_FQDN r) (n_PossibleQUIC r)) (to_uint 16);
  field "fqdn" n_FQDN (fun r x => mkNet (n_Dst r) (n_Dport r) x (n_PossibleQUIC r)) to_string;
  field "possible_quic" n_PossibleQUIC (fun r x => mkNet (n_Dst r) (n_Dport r) (n_FQDN r) x) to_bool ].

Record tlsLine := mkTLSLine { t_Confidence : bytes; t_SNI : bytes; t_Dst : bytes }.
Definition tlsLine_fields : fields tlsLine := [
  field "confidence" t_Confidence (fun r x => mkTLSLine x (t_SNI r) (t_Dst r)) to_string;
  field "sni" t_SNI (fun r x => mkTLSLine (t_Confidence r) x (t_Dst r)) to_string;
  field "dst" t_Dst (fun r x => mkTLSLine (t_Confidence r) (t_SNI r) x) to_string ].

Record denyLine := mkDenyLine { l_Comm : bytes; l_Protocol : bytes; l_Dst : bytes; l_Dport : Z; l_Reason : bytes; l_HookFamily : bytes; l_Mode : bytes }.
Definition denyLine_fields : fields denyLine := [
  field "comm" l_Comm (fun r x => mkDenyLine x (l_Protocol r) (l_Dst r) (l_Dport r) (l_Reason r) (l_HookFamily r) (l_Mode r)) to_string;
  field "protocol" l_Protocol (fun r x => mkDenyLine (l_Comm r) x (l_Dst r) (l_Dport r) (l_Reason r) (l_HookFamily r) (l_Mode r)) to_string;
  field "dst" l_Dst (fun r x => mkDenyLine (l_Comm r) (l_Protocol r) x (l_Dport r) (l_Reason r) (l_HookFamily r) (l_Mode r)) to_string;
  field "dport" l_Dport (fun r x => mkDenyLine (l_Comm r) (l_Protocol r) (l_Dst r) x (l_Reason r) (l_HookFamily r) (l_Mode r)) (to_uint 16);
  field "reason" l_Reason (fun r x => mkDenyLine (l_Comm r) (l_Protocol r) (l_Dst r) (l_Dport r) x (l_HookFamily r) (l_Mode r)) to_string;
  field "hook_family" l_HookFamily (fun r x => mkDenyLine (l_Comm r) (l_Protocol r) (l_Dst r) (l_Dport r) (l_Reason r) x (l_Mode r)) to_string;
  field "mode" l_Mode (fun r x => mkDenyLine (l_Comm r) (l_Protocol r) (l_Dst r) (l_Dport r) (l_Reason r) (l_HookFamily r) x) to_string ].

Definition BPFStatus_fields : fields BPFStatus := [
  field "name" b_Name (fun r x => mkBPFStatus x (b_OK r)) to_string;
  field "ok" b_OK (fun r x => mkBPFStatus (b_Name r) x) to_bool ].

Record metaLine := mkMetaLine { m_BPF : slice_var BPFStatus; m_AllowlistIPs : Z; m_AllowlistEntries : Z; m_RunnerHasIPv6 : bool; m_RunnerEnv : bytes;
  m_DroppedEvents : gmap bytes Z; m_EventsSHA256 : bytes; m_DetectProfile : bytes; m_AgentVersion : bytes; m_KernelRelease : bytes; m_Mode : bytes }.
Definition metaLine_fields : fields metaLine := [
  field "bpf" m_BPF (fun '(mkMetaLine a b c d e f g h i j k) x => mkMetaLine x b c d e f g h i j k)
    (to_slice (to_struct BPFStatus_fields) (mkBPFStatus [] false));
  field "allowlist_ip_count" m_AllowlistIPs (fun '(mkMetaLine a b c d e f g h i j k) x => mkMetaLine a x c d e f g h i j k) (to_int 64);
  field "allowlist_entry_count" m_AllowlistEntries (fun '(mkMetaLine a b c d e f g h i j k) x => mkMetaLine a b x d e f g h i j k) (to_int 64);
  field "runner_has_ipv6" m_RunnerHasIPv6 (fun '(mkMetaLine a b c d e f g h i j k) x => mkMetaLine a b c x e f g h i j k) to_bool;
  field "runner_env" m_RunnerEnv (fun '(mkMetaLine a b c d e f g h i j k) x => mkMetaLine a b c d x f g h i j k) to_string;
  field "dropped_events" m_DroppedEvents (fun '(mkMetaLine a b c d e f g h i j k) x => mkMetaLine a b c d e x g h i j k) (to_map (to_uint 64) 0);
  field "events_file_sha256" m_EventsSHA256 (fun '(mkMetaLine a b c d e f g h i j k) x => mkMetaLine a b c d e f x h i j k) to_string;
  field "detect_profile" m_DetectProfile (fun '(mkMetaLine a b c d e f g h i j k) x => mkMetaLine a b c d e f g x i j k) to_string;
  field "agent_version" m_AgentVersion (fun '(mkMetaLine a b c d e f g h i j k) x => mkMetaLine a b c d e f g h x j k) to_string;
  field "kernel_release" m_KernelRelease (fun '(mkMetaLine a b c d e f g h i j k) x => mkMetaLine a b c d e f g h i x k) to_string;
  field "mode" m_Mode (fun '(mkMetaLine a b c d e f g h i j k) x => mkMetaLine a b c d e f g h i j x) to_string ].
Definition zero_meta : metaLine := mkMetaLine (mkSlice [] 0) 0 0 false [] ∅ [] [] [] [] [].

(** ** isBareIPv4 *)

Definition bare_label (l : bytes) : bool := negb (bool_decide (l = [])) && forallb (fun r => negb ((r <? 48) || (57 <? r))) (runes l).
Definition isBareIPv4 (host : bytes) : bool :=
  let labels := Split host 46 in
  if negb (length labels =? 4)%nat then false else forallb bare_label labels.

Section Consume.
Context `{UnicodeCase}.

Definition countDest (line : bytes) (a : Aggregate) : Aggregate :=
  match Unmarshal (to_struct netLine_fields) (mkNet [] 0 [] false) line with
  | None => a
  | Some n =>
    let key := if decide (n_FQDN n = []) then n_Dst n else n_FQDN n in
    if decide (key = []) then a
    else
      let a := add_dest key a in
      if decide (n_FQDN n <> [] /\ isBareIPv4 (n_FQDN n) = false) then add_domain (ToLower (n_FQDN n)) a else a
  end.

Definition countMeta (line : bytes) (a : Aggregate) : Aggregate :=
  match Unmarshal (to_struct metaLine_fields) zero_meta line with
  | None => a
  | Some m =>
    mkAggregate (if decide (m_Mode m = []) then Mode a else m_Mode m) (ct a) (Denies a) (Dests a) (seen a) (domains a)
      (if decide (m_EventsSHA256 m = []) then EventsSHA256 a else m_EventsSHA256 m)
      (m_AgentVersion m) (m_KernelRelease m) (m_DetectProfile m) (m_AllowlistIPs m) (m_AllowlistEntries m) (m_RunnerHasIPv6 m) (m_RunnerEnv m)
      (slice_of (m_BPF m)) (m_DroppedEvents m) true
  end.

Definition countTLS (line : bytes) (a : Aggregate) : Aggregate :=
  match Unmarshal (to_struct tlsLine_fields) (mkTLSLine [] [] []) line with
  | None => a
  | Some tl =>
    let a := if decide (t_SNI tl <> [] /\ isBareIPv4 (t_SNI tl) = false) then add_domain (ToLower (t_SNI tl)) a else a in
    let c := t_Confidence tl in
    bump (if decide (c = str "full") then TLSFull else if decide (c = str "partial") then TLSPartial
          else if decide (c = str "inferred") then TLSInferred else TLSUnknown) a
  end.

Definition countDeny (line : bytes) (a : Aggregate) : Aggregate :=
  match Unmarshal (to_struct denyLine_fields) (mkDenyLine [] [] [] 0 [] [] []) line with
  | None => a
  | Some d =>
    mkAggregate (if decide (l_Mode d = []) then Mode a else l_Mode d) (ct a)
      (Denies a ++ [mkDeny (l_Comm d) (l_Protocol d) (l_Dst d) (l_Dport d) (l_Reason d) (l_HookFamily d)])
      (Dests a) (seen a) (domains a) (EventsSHA256 a) (AgentVersion a) (KernelRelease a) (DetectProfile a) (AllowlistIPs a)
      (AllowlistEntries a) (RunnerHasIPv6 a) (RunnerEnv a) (BPF a) (DroppedEvents a) (MetaSeen a)
  end.

(** The switch on the type. *)
Definition consumeType (t : bytes) (line : bytes) (a : Aggregate) : Aggregate :=
  if decide (t = str "meta") then countMeta line a
  else if decide (t = str "tcp" \/ t = str "tcp6") then
    countDest line ((if decide (t = str "tcp6") then bump IPv6Events else id) (bump TCPConns a))
  else if decide (t = str "udp" \/ t = str "udp6") then
    countDest line ((if decide (t = str "udp6") then bump IPv6Events else id) (bump UDPSends a))
  else if decide (t = str "http") then bump HTTPReqs a
  else if decide (t = str "exec") then bump Execs a
  else if decide (t = str "proc_fork") then bump ProcForks a
  else if decide (t = str "fs_event") then bump FSEvents a
  else if decide (t = str "quic_candidate") then bump QUICCandidates a
  else if decide (t = str "tls") then countTLS line a
  else if decide (t = str "ktls_offload") then bump KTLSOffload a
  else if decide (t = str "tcp_state") then bump TCPStateEvents a
  else if decide (t = str "io_uring_send") then bump IoUringSend a
  else if decide (t = str "io_uring_tls") then bump IoUringTLS a
  else if decide (t = str "bpf_audit") then bump BPFAudit a
  else if decide (t = str "bpf_tamper") then bump BPFTamper a
  else if decide (t = str "bpf_self_defense") then bump BpfSelfDefenseDenied a
  else if decide (t = str "egress_backstop") then bump EgressBackstop a
  else if decide (t = str "deny") then countDeny line a
  else a.

Definition consumeLine (line : bytes) (a : Aggregate) : Aggregate :=
  match Unmarshal (to_struct typedLine) [] line with
  | None => bump ParseErrors a
  | Some t =>
    let a := bump TotalEvents a in
    let a := if decide (t <> str "meta") then bump NonMetaEvents a else a in
    consumeType t line (see t a)
  end.

(** * Reading the stream *)

Definition maxEventLineBytes : Z := 4 * 1024 * 1024.
Definition eventReadBufferBytes : Z := 64 * 1024.

Inductive read_end := EOF | ReadErr.
Inductive slice_end := Delim | ErrBufferFull | Ended.

(** [br.ReadSlice('\n')] on what is left of the stream, with a buffer of [buf]
    bytes: the slice, the rest, and why it ends. *)
Definition ReadSlice (buf : Z) (s : bytes) : bytes * bytes * slice_end :=
  let full := (take (Z.to_nat buf) s, drop (Z.to_nat buf) s, ErrBufferFull) in
  match IndexByte s 10 with
  | Some i => if Z.of_nat i <? buf then (take (S i) s, drop (S i) s, Delim) else full
  | None => if buf <=? len s then full else (s, [], Ended)
  end.

(** The line, whether it is oversize, the rest, whether the stream ended.  The
    fuel bounds the number of slices of one line. *)
Fixpoint readEventLine (n : nat) (buf max : Z) (s line : bytes) (oversize : bool) : option (bytes * bool * bytes * bool) :=
  match n with
  | O => None
  | S n' =>
    let '(chunk, rest, e) := ReadSlice buf s in
    let '(line, oversize) :=
      if oversize then (line, true)
      else if max <? len line + len chunk then ([], true)
      else (line ++ chunk, false) in
    match e with
    | ErrBufferFull => readEventLine n' buf max rest line oversize
    | Delim => Some (line, oversize, rest, false)
    | Ended => Some (line, oversize, rest, true)
    end
  end.

(** [bytes.TrimRight(raw, "\r\n")]. *)
Definition trimEOL (raw : bytes) : bytes := rev (drop_while (fun b => (b =? 13) || (b =? 10)) (rev raw)).

(** The body of the loop of [Parse] on one line. *)
Definition parseLine (raw : bytes) (oversize : bool) (a : Aggregate) : Aggregate :=
  if oversize then bump ParseErrors a
  else let line := trimEOL raw in if decide (line = []) then a else consumeLine line a.

Fixpoint parseLoop (n : nat) (s : bytes) (a : Aggregate) : option Aggregate :=
  match n with
  | O => None
  | S n' =>
    '(raw, oversize, rest, ended) ← readEventLine (S (length s)) eventReadBufferBytes maxEventLineBytes s [] false;
    let a := parseLine raw oversize a in
    if ended : bool then Some a else parseLoop n' rest a
  end.

(** The aggregate, and whether a read error cut the stream short. *)
Definition Parse (s : bytes) (e : read_end) : option (Aggregate * bool) :=
  a ← parseLoop (S (length s)) s new_aggregate;
  Some (a, match e with EOF => false | ReadErr => true end).
End Consume.

(** * The data of the gates *)

Definition degradedBPF (a : Aggregate) : list bytes := Sort (map b_Name (List.filter (fun s => negb (b_OK s)) (BPF a))).

Definition Domains (a : Aggregate) : list bytes := Sort (elements (domains a)).

Definition DiffDomains (current baseline : Aggregate) : list bytes * list bytes :=
  (Sort (elements (domains current ∖ domains baseline)), Sort (elements (domains baseline ∖ domains current))).

Definition RequiredTypes (detectProfile : bytes) : list bytes :=
  if EqualFold (TrimSpace detectProfile) (str "enhanced")
  then map str ["meta"; "exec"; "tcp"; "udp"; "http"; "tls"; "proc_fork"; "fs_event"]%string
  else map str ["meta"; "exec"; "tcp"]%string.

Definition MissingRequiredTypes (a : Aggregate) (detectProfile : bytes) : list bytes :=
  Sort (filter (fun req => req ∉ seen a) (RequiredTypes detectProfile)).

(** The comparison of [topDests]: more events first, then the name. *)
Definition dest_le (x y : bytes * Z) : Prop := y.2 < x.2 \/ (x.2 = y.2 /\ ble x.1 y.1).
#[global] Instance dest_le_dec : RelDecision dest_le.
Proof. intros x y. unfold dest_le. apply _. Defined.

Definition topDests (a : Aggregate) (n : nat) : list (bytes * Z) := take n (merge_sort dest_le (map_to_list (Dests a))).

Definition modeLabel (a : Aggregate) : bytes := if decide (Mode a = []) then str "detect" else Mode a.

(** * Rendering *)

Definition verdict (a : Aggregate) : bytes :=
  if 0 <? ct a BPFTamper then str "🚨 BPF tamper detected (" ++ Itoa (ct a BPFTamper) ++ str ") — telemetry integrity compromised"
  else if decide (Denies a <> []) then str "🚨 " ++ Itoa (len (Denies a)) ++ str " egress blocked"
  else if 0 <? ct a EgressBackstop then
    str "⚠️ " ++ Itoa (ct a EgressBackstop) ++ str " egress reached the backstop (bypassed address hooks)"
  else if CapturedNothing a then
    str "⚠️ no events captured — the job may have finished before BPF attach; this proves nothing about egress (set fail-on-error: true for short jobs)"
  else str "✅ no anomalies (IPv4 TCP/UDP in scope)".

Definition observedIf (b : bool) : bytes := if b then str "observed" else str "not observed".
Definition candidatesIf (n : Z) : bytes := if 0 <? n then Itoa n ++ str " candidate(s), not inspected" else str "not observed".
Definition dashIfEmpty (s : bytes) : bytes := if decide (s = []) then str "-" else s.

(** [strings.ReplaceAll] of one byte. *)
Definition ReplaceByte (old : Z) (new : bytes) (s : bytes) : bytes := concat (map (fun b => if b =? old then new else [b]) s).

Definition mdCell (s : bytes) : bytes :=
  let s := ReplaceByte 13 [] s in
  let s := ReplaceByte 10 (str " ") s in
  let s := ReplaceByte 124 (str "·") s in
  let s := ReplaceByte 96 (str "'") s in
  let s := ReplaceByte 60 (str "‹") s in
  let s := ReplaceByte 91 (str "［") s in
  let s := ReplaceByte 93 (str "］") s in
  TrimSpace s.

(** A line of output, and an empty line before one. *)
Definition ln (s : bytes) : bytes := s ++ [10].
Definition nl : bytes := [10].

Definition count_row (name : string) (n : Z) : bytes := ln (str "| " ++ str name ++ str " | " ++ Itoa n ++ str " |").
Definition signal_row (name : string) (n : Z) (meaning : string) : bytes :=
  ln (str "| " ++ str name ++ str " | " ++ Itoa n ++ str " | " ++ str meaning ++ str " |").

Definition dest_row (d : bytes * Z) : bytes := ln (str "| " ++ mdCell d.1 ++ str " | " ++ Itoa d.2 ++ str " |").
Definition deny_row (d : Deny) : bytes :=
  ln (str "| " ++ mdCell (d_Comm d) ++ str " | " ++ mdCell (d_Protocol d) ++ str " | " ++ mdCell (d_Dst d) ++ str " | " ++ Itoa (d_Dport d) ++
      str " | " ++ mdCell (d_Reason d) ++ str " | " ++ mdCell (dashIfEmpty (d_HookFamily d)) ++ str " |").

Definition RenderSimple (a : Aggregate) : bytes :=
  ln (str "## coldstep — " ++ modeLabel a ++ str " " ++ verdict a) ++ nl ++
  ln (str "| metric | value |") ++
  ln (str "|---|---|") ++
  count_row "egress connections" (ct a TCPConns) ++
  count_row "udp sends" (ct a UDPSends) ++
  count_row "unique destinations" (Z.of_nat (size (Dests a))) ++
  count_row "denied" (len (Denies a)) ++
  ln (str "| exec / fork / fs | " ++ Itoa (ct a Execs) ++ str " / " ++ Itoa (ct a ProcForks) ++ str " / " ++ Itoa (ct a FSEvents) ++ str " |") ++
  ln (str "| TLS SNI (full/partial) | " ++ Itoa (ct a TLSFull) ++ str " / " ++ Itoa (ct a TLSPartial) ++ str " |") ++
  ln (str "| coverage gaps | IPv6 events " ++ Itoa (ct a IPv6Events) ++ str " · QUIC candidates " ++ Itoa (ct a QUICCandidates) ++
      str " · io_uring " ++ Itoa (ct a IoUringSend + ct a IoUringTLS) ++ str " |") ++
  (if (0 <? ct a BpfSelfDefenseDenied) || (0 <? ct a EgressBackstop)
   then ln (str "| defend self-protection | self-defense denials " ++ Itoa (ct a BpfSelfDefenseDenied) ++ str " · egress backstop " ++
            Itoa (ct a EgressBackstop) ++ str " |") else []) ++
  (let degraded := degradedBPF a in
   if decide (degraded <> [])
   then ln (str "| 🚨 BPF hooks degraded | " ++ Itoa (len degraded) ++ str " not attached: " ++ Strings_Join degraded (str ", ") ++ str " |") else []) ++
  (if decide (RunnerEnv a = str "dind") then ln (str "| ⚠️ Docker-in-Docker | inner-container traffic not observable |") else []) ++
  (let top := topDests a 3 in
   if decide (top <> [])
   then nl ++ ln (str "Top destinations: " ++ Strings_Join (map (fun d => mdCell d.1 ++ str " (" ++ Itoa d.2 ++ str ")") top) (str " · ")) else []) ++
  nl ++ ln (str "Full report: `.coldstep-report.md` (artifact)").

Definition render_verdict (a : Aggregate) : bytes :=
  ln (str "# coldstep detailed report") ++ nl ++ ln (str "## Verdict") ++ nl ++
  ln (verdict a ++ str " · mode " ++ modeLabel a ++ str " · " ++ Itoa (ct a TotalEvents) ++ str " events") ++
  (if MetaSeen a
   then nl ++ ln (str "agent " ++ mdCell (dashIfEmpty (AgentVersion a)) ++ str " · kernel " ++ mdCell (dashIfEmpty (KernelRelease a)) ++
                  str " · profile " ++ mdCell (dashIfEmpty (DetectProfile a)) ++ str " · allowlist " ++ Itoa (AllowlistIPs a) ++ str " IP(s) / " ++
                  Itoa (AllowlistEntries a) ++ str " entr(ies)") else []) ++
  (if decide (RunnerEnv a = str "dind")
   then nl ++ ln (str "⚠️ Docker-in-Docker detected: traffic from inner containers is not observable from the outer runner cgroup namespace.") else []) ++
  (if RunnerHasIPv6 a && negb (bool_decide (modeLabel a = str "defend")) && (ct a IPv6Events =? 0)
   then nl ++ ln (str "⚠️ Runner has IPv6 connectivity but no IPv6 egress was observed in detect mode — IPv6 paths are not enforced.") else []).

Definition render_coverage (a : Aggregate) : bytes :=
  nl ++ ln (str "## Coverage scope") ++ nl ++ ln (str "| class | status |") ++ ln (str "|---|---|") ++ ln (str "| IPv4 TCP/UDP | observed |") ++
  ln (str "| IPv6 | " ++ observedIf (0 <? ct a IPv6Events) ++ str " |") ++
  ln (str "| QUIC/HTTP3 | " ++ candidatesIf (ct a QUICCandidates) ++ str " |").

Definition render_destinations (a : Aggregate) : bytes :=
  nl ++ ln (str "## Destinations") ++
  (if decide (Dests a = ∅) then nl ++ ln (str "_none observed_")
   else nl ++ ln (str "| destination | egress events |") ++ ln (str "|---|---|") ++ concat (map dest_row (topDests a 100))).

Definition render_denies (a : Aggregate) : bytes :=
  nl ++ ln (str "## Denies") ++
  (if decide (Denies a = []) then nl ++ ln (str "_none_")
   else nl ++ ln (str "| process | proto | destination | port | reason | hook |") ++ ln (str "|---|---|---|---|---|---|") ++
        concat (map deny_row (Denies a))).

Definition render_activity (a : Aggregate) : bytes :=
  nl ++ ln (str "## Process & filesystem") ++ nl ++ ln (str "| stream | count |") ++ ln (str "|---|---|") ++
  count_row "exec" (ct a Execs) ++ count_row "proc_fork" (ct a ProcForks) ++ count_row "fs_event" (ct a FSEvents) ++
  nl ++ ln (str "## TLS SNI confidence") ++ nl ++ ln (str "| level | count |") ++ ln (str "|---|---|") ++
  count_row "full" (ct a TLSFull) ++ count_row "partial" (ct a TLSPartial) ++ count_row "inferred" (ct a TLSInferred) ++
  count_row "unknown" (ct a TLSUnknown) ++
  (if 0 <? ct a KTLSOffload
   then nl ++ ln (Itoa (ct a KTLSOffload) ++ str " socket(s) used kernel-TLS offload — the SNI is structurally hidden from userspace for those.") else []).

Definition render_signals (a : Aggregate) : bytes :=
  nl ++ ln (str "## Coverage & defend signals") ++ nl ++ ln (str "| signal | count | meaning |") ++ ln (str "|---|---|---|") ++
  signal_row "IPv6 egress" (ct a IPv6Events) "non-loopback IPv6 egress events" ++
  signal_row "QUIC/HTTP3 candidates" (ct a QUICCandidates) "UDP/443 flows, payload not inspectable" ++
  signal_row "io_uring send" (ct a IoUringSend) "async sends bypassing syscall arms" ++
  signal_row "io_uring TLS" (ct a IoUringTLS) "TLS ClientHello observed over io_uring" ++
  signal_row "egress backstop" (ct a EgressBackstop) "egress that bypassed connect4/sendmsg4 (raw socket / post-connect)" ++
  signal_row "BPF self-defense denials" (ct a BpfSelfDefenseDenied) "denied tamper of coldstep's own BPF objects" ++
  signal_row "BPF audit" (ct a BPFAudit) "bpf() syscall observations" ++
  signal_row "BPF tamper" (ct a BPFTamper) "detected BPF map/prog tamper (anti-blindness)" ++
  signal_row "TCP state transitions" (ct a TCPStateEvents) "kernel-confirmed handshakes".

Definition render_health (a : Aggregate) : bytes :=
  nl ++ ln (str "## BPF health") ++
  (let degraded := degradedBPF a in
   if decide (degraded <> [])
   then nl ++ ln (str "🚨 " ++ Itoa (len degraded) ++ str " hook(s) failed to attach (coverage gap): " ++ Strings_Join degraded (str ", "))
   else if MetaSeen a then nl ++ ln (str "✅ all " ++ Itoa (len (BPF a)) ++ str " reported BPF hook(s) attached.")
   else nl ++ ln (str "_no meta event — BPF health unavailable_")).

Definition render_integrity (a : Aggregate) : bytes :=
  nl ++ ln (str "## Integrity") ++ nl ++ ln (str "parse errors: " ++ Itoa (ct a ParseErrors)) ++
  (if decide (DroppedEvents a <> ∅)
   then nl ++ ln (str "dropped events (ringbuf pressure): " ++
          Strings_Join (map (fun k => k ++ str "=" ++ Uitoa (default 0 (DroppedEvents a !! k))) (Sort (elements (dom (DroppedEvents a))))) (str " · "))
   else []) ++
  (if decide (EventsSHA256 a <> []) then nl ++ ln (str "events_sha256: `" ++ EventsSHA256 a ++ str "`") else []).

Definition RenderDetailed (a : Aggregate) : bytes :=
  render_verdict a ++ render_coverage a ++ render_destinations a ++ render_denies a ++ render_activity a ++ render_signals a ++
  render_health a ++ render_integrity a.

(** * Examples *)

#[local] Existing Instance ascii_case.

Definition sample : bytes :=
  ln (js "{'type':'meta','mode':'defend','bpf':[{'name':'b','ok':false},{'name':'a'}],'agent_version':'v1'}") ++
  ln (js "{'type':'tcp','dst':'1.2.3.4','dport':443,'fqdn':'Ex.com'}") ++ ln (js "garbage") ++ [13; 10] ++
  ln (js "{'TYPE':'deny','comm':'x|y','dst':'9.9.9.9','dport':53,'mode':'defend'}") ++ ln (js "{'type':'tcp','dport':70000,'dst':'d'}") ++
  js "{'type':'tls','sni':'10.0.0.1'}".

Example sample_ex : (fun p => let a := p.1 in
  (Mode a, map (ct a) [TCPConns; TLSUnknown; ParseErrors; TotalEvents; NonMetaEvents], map_to_list (Dests a), Domains a, degradedBPF a, map deny_row (Denies a))) <$>
  Parse sample EOF = Some (str "defend", [2; 1; 1; 5; 4], [(str "Ex.com", 1)], [str "ex.com"], [str "a"; str "b"],
    [ln (str "| x·y |  | 9.9.9.9 | 53 |  | - |")]).
Proof. vm_compute. reflexivity. Qed.
