(* ===== verification/ReportReads.v ===== *)
(** What the report reads: the loop of [Parse] against a reference that splits
    the stream into records, lines that cannot be read, and the log that the
    agent writes. *)
From S2P Require Import Prelude GoStrings Telemetry Json Decode Policy Allowlist DefendMaps RunStats Events Defend EventLog Report.

Open Scope Z_scope.

(** * The records of a stream *)

(** The pieces that end with a line feed, and what is left after the last. *)
Fixpoint records (s : bytes) : list bytes :=
  match s with
  | [] => [[]]
  | c :: t =>
    if c =? 10 then [10] :: records t
    else match records t with r :: rs => (c :: r) :: rs | [] => [[c]] end
  end.

Lemma records_cons s : exists r rs, records s = r :: rs.
Proof. induction s as [|c t (r & rs & E)]; cbn [records]; [eauto|]. rewrite E. destruct (c =? 10); eauto. Qed.

Lemma records_concat s : concat (records s) = s.
Proof.
  induction s as [|c t IH]; [done|]. cbn [records]. destruct (Z.eqb_spec c 10) as [->|].
  - cbn [concat app]. by rewrite IH.
  - destruct (records_cons t) as (r & rs & E). rewrite E in *. cbn [concat app] in *. by rewrite IH.
Qed.

Lemma records_app a b r rs : 10 ∉ a -> records b = r :: rs -> records (a ++ b) = (a ++ r) :: rs.
Proof.
  intros Ha E. induction a as [|c a IH]; [done|]. apply not_elem_of_cons in Ha as [Hc Ha]. cbn [app records].
  rewrite IH by done. by rewrite (proj2 (Z.eqb_neq c 10)) by done.
Qed.

Lemma records_line a b : 10 ∉ a -> records (a ++ 10 :: b) = (a ++ [10]) :: records b.
Proof. intros Ha. apply records_app; [done|]. reflexivity. Qed.

Lemma records_none a : 10 ∉ a -> records a = [a].
Proof. intros Ha. rewrite <- (app_nil_r a) at 1. rewrite (records_app a [] [] []) by done. by rewrite app_nil_r. Qed.

(** * readEventLine *)

Lemma elem_of_take_inv {A} (x : A) n l : x ∈ take n l -> x ∈ l.
Proof. intros (i & Hl & _)%elem_of_take. by eapply list_elem_of_lookup_2. Qed.

Lemma IndexByte_Some s i : IndexByte s 10 = Some i -> exists a b, s = a ++ 10 :: b /\ 10 ∉ a /\ length a = i.
Proof.
  unfold IndexByte. revert i. induction s as [|c s IH]; intros i; cbn [Index HasPrefix]; [done|].
  destruct (Z.eqb_spec 10 c) as [<-|Hc].
  - cbn [andb HasPrefix]. intros [= <-]. exists [], s. split_and!; [done|apply not_elem_of_nil|done].
  - cbn [andb]. destruct (Index s [10]) as [j|] eqn:E; [|done]. intros [= <-]. destruct (IH j eq_refl) as (a & b & -> & Ha & <-).
    exists (c :: a), b. split; [done|]. split; [|done]. apply not_elem_of_cons. auto.
Qed.

Lemma IndexByte_missing s : IndexByte s 10 = None -> 10 ∉ s.
Proof.
  unfold IndexByte. induction s as [|c s IH]; cbn [Index HasPrefix]; [intros _; apply not_elem_of_nil|].
  destruct (Z.eqb_spec 10 c) as [<-|Hc]; [done|]. cbn [andb]. destruct (Index s [10]); [done|]. intros _. apply not_elem_of_cons. auto.
Qed.

(** A line of which [line] has been read: too long, or complete. *)
Definition whole (max : Z) (line r : bytes) (oversize : bool) : bytes * bool :=
  if oversize || (max <? len line + len r) then ([], true) else (line ++ r, false).

Lemma readEventLine_records n buf max s line oversize r rs : 0 < buf -> (length s < n)%nat ->
  records s = r :: rs -> (oversize = true -> line = []) ->
  readEventLine n buf max s line oversize =
    Some ((whole max line r oversize).1, (whole max line r oversize).2, concat rs, bool_decide (rs = [])).
Proof.
  intros Hb. revert s line oversize r. induction n as [|n IH]; intros s line oversize r Hn Er Hline; [lia|]. cbn [readEventLine].
  assert (forall a b, s = a ++ b -> a <> [] -> 10 ∉ a ->
    (let '(line', oversize') := if oversize then (line, true) else if max <? len line + len a then ([], true) else (line ++ a, false) in
     readEventLine n buf max b line' oversize') =
    Some ((whole max line r oversize).1, (whole max line r oversize).2, concat rs, bool_decide (rs = []))) as Hfull.
  { intros a b -> Ha H10. destruct (records_cons b) as (r' & rs' & Eb). rewrite (records_app a b r' rs') in Er by done. injection Er as <- <-.
    assert (length b < n)%nat as Hlb by (rewrite length_app in Hn; destruct a; cbn [length] in *; [done|lia]).
    unfold whole. destruct oversize.
    - rewrite (IH b line true r' Hlb Eb Hline). unfold whole. cbn [orb fst snd]. done.
    - cbn [orb]. destruct (Z.ltb_spec max (len line + len a)).
      + rewrite (IH b [] true r' Hlb Eb) by done. unfold whole. cbn [orb]. rewrite (proj2 (Z.ltb_lt _ _)) by len_lia. done.
      + rewrite (IH b (line ++ a) false r' Hlb Eb) by done. unfold whole. cbn [orb]. rewrite <- app_assoc.
        replace (len (line ++ a) + len r') with (len line + len (a ++ r')) by len_lia. done. }
  assert (forall k, 0 < k <= len s -> (forall a, take (Z.to_nat k) s = a -> 10 ∉ a) ->
    (let '(line', oversize') := if oversize then (line, true) else if max <? len line + len (take (Z.to_nat k) s) then ([], true)
       else (line ++ take (Z.to_nat k) s, false) in
     readEventLine n buf max (drop (Z.to_nat k) s) line' oversize') =
    Some ((whole max line r oversize).1, (whole max line r oversize).2, concat rs, bool_decide (rs = []))) as Htake.
  { intros k Hk H10. apply Hfull; [by rewrite take_drop| |by apply H10]. intros E. apply (f_equal len) in E. rewrite len_take, len_nil in E. lia. }
  unfold ReadSlice. destruct (IndexByte s 10) as [i|] eqn:Ei.
  - apply IndexByte_Some in Ei as (a & b & Es & Ha & Hi). destruct (Z.ltb_spec (Z.of_nat i) buf) as [Hlt|Hge].
    + rewrite Es, <- Hi. rewrite Es, records_line in Er by done. injection Er as <- <-.
      replace (S (length a)) with (length (a ++ [10])) by (rewrite length_app; cbn; lia).
      replace (a ++ 10 :: b) with ((a ++ [10]) ++ b) by by rewrite <- app_assoc. rewrite take_app_length, drop_app_length, records_concat.
      rewrite bool_decide_false by (destruct (records_cons b) as (? & ? & ->); done). unfold whole.
      destruct oversize; cbn [orb]; [by rewrite Hline|]. by destruct (max <? _).
    + apply Htake; [rewrite Es; len_lia|]. intros ? <-. rewrite Es, take_app_le by lia. intros H. apply Ha. by eapply elem_of_take_inv.
  - apply IndexByte_missing in Ei. destruct (Z.leb_spec buf (len s)) as [Hge|Hlt].
    + apply Htake; [lia|]. intros ? <- H. apply Ei. by eapply elem_of_take_inv.
    + rewrite records_none in Er by done. injection Er as <- <-. unfold whole. cbn [concat]. rewrite bool_decide_true by done.
      destruct oversize; cbn [orb]; [by rewrite Hline|]. by destruct (max <? _).
Qed.

(** * Parse against the reference *)

Section Reads.
Context `{UnicodeCase}.

(** One record: over the limit it is counted as an error, an empty one is
    skipped, any other is consumed. *)
Definition record_step (a : Aggregate) (r : bytes) : Aggregate := parseLine r (maxEventLineBytes <? len r) a.

Lemma parseLine_over raw raw' a : parseLine raw true a = parseLine raw' true a.
Proof. done. Qed.

Lemma parseLoop_records n s a : (length s < n)%nat -> parseLoop n s a = Some (foldl record_step a (records s)).
Proof.
  revert s a. induction n as [|n IH]; intros s a Hn; [lia|]. cbn [parseLoop].
  destruct (records_cons s) as (r & rs & E). rewrite (readEventLine_records _ _ _ s [] false r rs) by (done || lia).
  cbn [mbind option_bind]. unfold whole. cbn [orb]. replace (len [] + len r) with (len r) by (rewrite len_nil; lia).
  rewrite E. cbn [foldl].
  assert (parseLine (if maxEventLineBytes <? len r then ([], true) else ([] ++ r, false)).1
    (if maxEventLineBytes <? len r then ([], true) else ([] ++ r, false)).2 a = record_step a r) as ->.
  { unfold record_step. by destruct (maxEventLineBytes <? len r). }
  destruct rs as [|r' rs]; [done|]. rewrite bool_decide_false by done.
  assert (r <> [] /\ records (concat (r' :: rs)) = r' :: rs) as [Hr Hrs].
  { clear - E. revert r r' rs E. induction s as [|c t IH]; intros r r' rs; cbn [records]; [done|]. destruct (Z.eqb_spec c 10) as [->|].
    - intros [= <- Et]. split; [done|]. by rewrite <- Et, records_concat.
    - destruct (records_cons t) as (q & qs & Et). rewrite Et. intros [= <- ->]. split; [done|]. by apply (IH _ _ _ Et). }
  rewrite <- Hrs at 2. apply IH. pose proof (f_equal length (records_concat s)) as Hl. rewrite E in Hl. cbn [concat] in *.
  rewrite length_app in Hl. destruct r; [done|]. cbn [length] in Hl. lia.
Qed.

(** C26: [Parse], which reads the stream through a buffer of 64 KiB and
    stitches longer lines together, always returns, and returns what the
    reference does: it splits the stream at its line feeds and takes each
    record by itself, so that a line of any length hides no other. *)
Theorem parse_reference s e :
  Parse s e = Some (foldl record_step new_aggregate (records s), match e with EOF => false | ReadErr => true end).
Proof. unfold Parse. by rewrite parseLoop_records by lia. Qed.


(** * Aggregates that agree

    Counters are functions, so aggregates are compared field by field and
    counter by counter. *)

Record agrees (a b : Aggregate) : Prop := mkAgrees {
  ag_mode : Mode a = Mode b; ag_denies : Denies a = Denies b; ag_dests : Dests a = Dests b; ag_seen : seen a = seen b;
  ag_domains : domains a = domains b; ag_sha : EventsSHA256 a = EventsSHA256 b; ag_version : AgentVersion a = AgentVersion b;
  ag_kernel : KernelRelease a = KernelRelease b; ag_profile : DetectProfile a = DetectProfile b; ag_ips : AllowlistIPs a = AllowlistIPs b;
  ag_entries : AllowlistEntries a = AllowlistEntries b; ag_ipv6 : RunnerHasIPv6 a = RunnerHasIPv6 b; ag_env : RunnerEnv a = RunnerEnv b;
  ag_bpf : BPF a = BPF b; ag_dropped : DroppedEvents a = DroppedEvents b; ag_meta : MetaSeen a = MetaSeen b }.

(** [b] is [a] with [n] more parse errors. *)
Definition more_errors (n : Z) (a b : Aggregate) : Prop :=
  agrees a b /\ forall c, ct b c = ct a c + (if decide (c = ParseErrors) then n else 0).

#[local] Notation keeps n := (Proper (more_errors n ==> more_errors n)).

Ltac keep := intros a b [[] Hct]; split; [split; cbn; congruence|intros c'; cbn; try rewrite Hct; lia].

#[export] Instance bump_keeps n c : keeps n (bump c).
Proof. keep. Qed.
#[export] Instance see_keeps n t : keeps n (see t).
Proof. keep. Qed.
#[export] Instance add_domain_keeps n d : keeps n (add_domain d).
Proof. keep. Qed.
#[export] Instance add_dest_keeps n d : keeps n (add_dest d).
Proof. keep. Qed.

#[export] Instance countDest_keeps n line : keeps n (countDest line).
Proof.
  intros a b Hab. unfold countDest. destruct (Unmarshal _ _ line) as [x|]; [|done]. destruct (decide (_ = [])); [done|].
  destruct (decide (_ /\ _)); [by apply add_domain_keeps, add_dest_keeps|by apply add_dest_keeps].
Qed.

#[export] Instance countTLS_keeps n line : keeps n (countTLS line).
Proof.
  intros a b Hab. unfold countTLS. destruct (Unmarshal _ _ line) as [x|]; [|done]. apply bump_keeps.
  destruct (decide _); [by apply add_domain_keeps|done].
Qed.

#[export] Instance countMeta_keeps n line : keeps n (countMeta line).
Proof.
  intros a b [[] Hct]. unfold countMeta. destruct (Unmarshal _ _ line) as [x|]; [|by split; [split|]].
  split; [split; cbn; try congruence; by case_decide|done].
Qed.

#[export] Instance countDeny_keeps n line : keeps n (countDeny line).
Proof.
  intros a b [[] Hct]. unfold countDeny. destruct (Unmarshal _ _ line) as [x|]; [|by split; [split|]].
  split; [split; cbn; try congruence; by case_decide|done].
Qed.

#[export] Instance consumeType_keeps n t line : keeps n (consumeType t line).
Proof.
  intros a b Hab. unfold consumeType.
  repeat match goal with |- context [decide ?P] => destruct (decide P) end;
    unfold id; first [done|by apply countMeta_keeps|by apply countTLS_keeps|by apply countDeny_keeps|by apply bump_keeps|
      by apply countDest_keeps, bump_keeps, bump_keeps|by apply countDest_keeps, bump_keeps].
Qed.

#[export] Instance record_step_keeps n : Proper (more_errors n ==> (=) ==> more_errors n) record_step.
Proof.
  intros a b Hab r ? <-. unfold record_step, parseLine. destruct (_ <? _); [by apply bump_keeps|].
  destruct (decide _); [done|]. unfold consumeLine. destruct (Unmarshal _ _ _) as [t|]; [|by apply bump_keeps].
  apply consumeType_keeps, see_keeps. destruct (decide _); [by apply bump_keeps, bump_keeps|by apply bump_keeps].
Qed.

Lemma fold_keeps n rs a b : more_errors n a b -> more_errors n (foldl record_step a rs) (foldl record_step b rs).
Proof. revert a b. induction rs as [|r rs IH]; intros a b Hab; [done|]. cbn [foldl]. apply IH. by apply record_step_keeps. Qed.

Lemma records_lines ls s : Forall (fun l => 10 ∉ l) ls -> records (concat (map ln ls) ++ s) = map ln ls ++ records s.
Proof.
  induction 1 as [|l ls Hl _ IH]; [done|]. cbn [map concat]. unfold ln at 1. rewrite <- !app_assoc. cbn [app].
  rewrite records_line by done. by rewrite IH.
Qed.

(** A line that the report cannot read: over the limit, or not a JSON object
    with a string under ["type"]. *)
Definition unreadable (l : bytes) : Prop :=
  maxEventLineBytes < len l + 1 \/ (trimEOL (ln l) <> [] /\ Unmarshal (to_struct typedLine) [] (trimEOL (ln l)) = None).

Lemma unreadable_step l a : unreadable l -> record_step a (ln l) = bump ParseErrors a.
Proof.
  unfold unreadable, record_step, parseLine. replace (len (ln l)) with (len l + 1) by (unfold ln; len_lia).
  destruct (Z.ltb_spec maxEventLineBytes (len l + 1)); [done|]. intros [?|[Hne Hu]]; [lia|].
  rewrite decide_False by done. unfold consumeLine. by rewrite Hu.
Qed.

(** Appending a line that the report cannot read, of any length and
    anywhere in the log, changes nothing but the count of parse errors. *)
Theorem unreadable_line_only_counts ls l s e : Forall (fun l => 10 ∉ l) ls -> 10 ∉ l -> unreadable l ->
  exists a b, Parse (concat (map ln ls) ++ s) e = Some (a, match e with EOF => false | ReadErr => true end) /\
    Parse (concat (map ln ls) ++ ln l ++ s) e = Some (b, match e with EOF => false | ReadErr => true end) /\ more_errors 1 a b.
Proof.
  intros Hls Hl Hu. unfold Parse. rewrite !parseLoop_records by lia. eexists _, _. split; [done|]. split; [done|].
  rewrite !records_lines by done. unfold ln at 3. rewrite <- app_assoc. cbn [app]. rewrite records_line by done. rewrite !foldl_app. cbn [foldl].
  change (l ++ [10]) with (ln l). rewrite unreadable_step by done. apply fold_keeps. split; [by split|]. intros c. done.
Qed.
End Reads.

(** * Decoding a written line *)

Lemma commute_field {R A B} k1 (g1 : R -> A) s1 d1 k2 (g2 : R -> B) s2 d2 :
  (forall r y, g1 (s2 r y) = g1 r) -> (forall r x, g2 (s1 r x) = g2 r) -> (forall r x y, s2 (s1 r x) y = s1 (s2 r y) x) ->
  commute (field k1 g1 s1 d1) (field k2 g2 s2 d2).
Proof.
  intros H1 H2 H3 r v w. unfold field. cbn [snd]. destruct (d1 (g1 r) v) as [x|] eqn:E1; destruct (d2 (g2 r) w) as [y|] eqn:E2; cbn [fmap option_fmap option_map mbind option_bind].
  - rewrite H1, H2, E1, E2. cbn. by rewrite H3.
  - by rewrite H2, E2.
  - by rewrite H1, E1.
  - done.
Qed.

Ltac fields_commute := split; [apply (bool_decide_unpack _); vm_compute; exact I|];
  repeat constructor; apply commute_field; by intros [].

Lemma net_commuting : commuting netLine_fields.
Proof. fields_commute. Qed.
Lemma tls_commuting : commuting tlsLine_fields.
Proof. fields_commute. Qed.
Lemma deny_commuting : commuting denyLine_fields.
Proof. fields_commute. Qed.
Lemma BPFStatus_commuting : commuting BPFStatus_fields.
Proof. fields_commute. Qed.
Lemma meta_commuting : commuting metaLine_fields.
Proof. fields_commute. Qed.
Lemma typed_commuting : commuting typedLine.
Proof. split; [apply (bool_decide_unpack _); vm_compute; exact I|]. repeat constructor. Qed.

(** A field whose value decodes alike in canonical form. *)
Definition canon_safe {R} (l : members_of) (f : bytes * (R -> json -> option R)) : Prop :=
  forall r v, getm f.1 l = Some v -> f.2 r (canon v) = f.2 r v.

Lemma struct_reads {R} (fs : fields R) z l m : commuting fs -> Forall (fun k => lower_name k /\ k <> str "sig") fs.*1 ->
  Forall (canon_safe l) fs -> reads_as l m -> to_struct fs z (JObj m) = set_fields fs l z.
Proof.
  intros Hc Hn Hs (Hd & Hl & g & Hg & Hm). cbn [to_struct]. rewrite Forall_forall in Hn. rewrite Forall_forall in Hs. rewrite Forall_forall in Hl.
  rewrite set_members_fields; [|done|done|].
  - apply set_fields_ext. rewrite Forall_forall. intros f Hf r. unfold set_field.
    destruct (Hn f.1) as [_ Hsig]; [by apply list_elem_of_fmap_2|]. rewrite Hm by done.
    destruct (getm f.1 l) as [v|] eqn:E; [|done]. cbn [fmap option_fmap option_map]. destruct Hg as [-> | ->]; [done|]. by apply (Hs f Hf).
  - rewrite Forall_forall. intros k Hk. apply lower_exact; [by apply Hl|]. rewrite Forall_forall. intros k' Hk'. by apply Hn.
Qed.

Lemma decode_reads {R} (fs : fields R) z l text : commuting fs -> Forall (fun k => lower_name k /\ k <> str "sig") fs.*1 ->
  Forall (canon_safe (seen_members l)) fs -> line_reads l text -> Unmarshal (to_struct fs) z text = set_fields fs (seen_members l) z.
Proof. intros Hc Hn Hs (m & Hp & Hr). unfold Unmarshal. rewrite Hp. cbn [mbind option_bind]. by apply struct_reads. Qed.

(** Scalar decoders see no difference. *)
Lemma canon_to_string old v : to_string old (canon v) = to_string old v.
Proof. by destruct v. Qed.
Lemma canon_to_bool old v : to_bool old (canon v) = to_bool old v.
Proof. by destruct v. Qed.
Lemma canon_to_uint b old v : to_uint b old (canon v) = to_uint b old v.
Proof. by destruct v. Qed.
Lemma canon_to_int b old v : to_int b old (canon v) = to_int b old v.
Proof. by destruct v. Qed.

Lemma canon_safe_field {R A} l k (get : R -> A) set dec : (forall old v, dec old (canon v) = dec old v) -> canon_safe l (field k get set dec).
Proof. intros H r v _. unfold field. cbn [snd]. by rewrite H. Qed.

#[export] Hint Resolve canon_to_string canon_to_bool canon_to_uint canon_to_int : core.

Ltac safe := repeat (constructor; [apply canon_safe_field; auto|]); constructor.
Ltac names := apply (bool_decide_unpack _); vm_compute; exact I.

(** ** Arrays of statuses and maps of counts *)

Definition status_members (b : RunStats.BPFStatus) : members_of :=
  fstr "name" (bs_Name b) ++ fbool "ok" (bs_OK b) ++ str_oe "detail" (bs_Detail b) ++ bool_oe "btf_available" (bs_BTFAvailable b).

Lemma status_keys b : keyed plain (status_members b) /\ NoDup (status_members b).*1.
Proof.
  split; [unfold status_members; auto 20 with keyed|]. eapply (within_NoDup (map str ["name"; "ok"; "detail"; "btf_available"]%string)); [|vm_compute; reflexivity].
  change (map str _) with ([str "name"] ++ [str "ok"] ++ [str "detail"] ++ [str "btf_available"]). apply within_app; [apply within_one|].
  apply within_app; [apply within_one|]. apply within_app; [apply within_str_oe|apply within_bool_oe].
Qed.

Lemma status_decode b z : let v := coerced (BPFStatus_json b) in
  to_struct BPFStatus_fields z v = Some (mkBPFStatus (coerce (bs_Name b)) (bs_OK b)) /\
  to_struct BPFStatus_fields z (canon v) = Some (mkBPFStatus (coerce (bs_Name b)) (bs_OK b)).
Proof.
  cbv zeta. destruct (status_keys b) as [Hp Hd]. change (coerced (BPFStatus_json b)) with (JObj (coerced_members (status_members b))).
  assert (set_fields BPFStatus_fields (coerced_members (status_members b)) z = Some (mkBPFStatus (coerce (bs_Name b)) (bs_OK b))) as <- by by destruct z.
  destruct (reads_canon _ Hp Hd) as (m & -> & Hr & _).
  split; (apply struct_reads; [apply BPFStatus_commuting|names|safe|first [by apply reads_same|done]]).
Qed.

Lemma statuses_decode old l : let decode := set_elements (to_struct BPFStatus_fields) (mkBPFStatus [] false) old in
  let vs := map (fun b => coerced (BPFStatus_json b)) l in
  decode (map canon vs) = decode vs /\
  exists t, decode vs = Some (map (fun b => mkBPFStatus (coerce (bs_Name b)) (bs_OK b)) l ++ t).
Proof.
  cbv zeta. revert old. induction l as [|b l IH]; intros old; cbn [map set_elements]; [split; [done|by exists old]|].
  destruct (status_decode b (default (mkBPFStatus [] false) (head old))) as [-> ->]. cbn [mbind option_bind].
  destruct (IH (tail old)) as [E (t & Et)]. rewrite E, Et. split; [done|]. by exists t.
Qed.

Lemma set_keys_perm {A} (dec : A -> json -> option A) z m l l' : NoDup l.*1 -> l ≡ₚ l' -> set_keys dec z m l = set_keys dec z m l'.
Proof.
  intros Hd Hp. revert m. induction Hp as [|[k v] l l' Hp IH|[k v] [k' v'] l|l l' l'' Hp1 IH1 Hp2 IH2]; intros m.
  - done.
  - rewrite fmap_cons in Hd. apply NoDup_cons in Hd as [_ Hd]. cbn [set_keys]. destruct (dec z v); [by apply IH|done].
  - rewrite !fmap_cons in Hd. apply NoDup_cons in Hd as [Hk _]. apply not_elem_of_cons in Hk as [Hk _]. cbn [set_keys fst] in *.
    destruct (dec z v) as [x|], (dec z v') as [y|]; cbn [mbind option_bind]; [|done..]. by rewrite insert_insert_ne by auto.
  - rewrite IH1 by done. apply IH2. by rewrite <- Hp1.
Qed.

Definition count_members (l : list (bytes * Z)) : members_of := map (fun kv => (kv.1, JNum (Uitoa kv.2))) l.

Lemma set_keys_counts (m0 : gmap bytes Z) l : NoDup l.*1 -> Forall (fun kv => 0 <= kv.2 < 2 ^ 64) l ->
  set_keys (to_uint 64) 0 m0 (count_members l) = Some (list_to_map l ∪ m0).
Proof.
  intros Hd Hr. revert m0. induction Hr as [|[k v] l Hv _ IH]; intros m0; cbn [count_members map set_keys]; [by rewrite list_to_map_nil, (left_id_L ∅ (∪))|].
  rewrite fmap_cons in Hd. apply NoDup_cons in Hd as [Hk Hd]. cbn [fst snd] in *. rewrite (ParseUint_Uitoa 64 v Hv : to_uint 64 0 (JNum (Uitoa v)) = Some v).
  cbn [mbind option_bind]. change (map _ l) with (count_members l). rewrite IH by done. f_equal. rewrite list_to_map_cons.
  rewrite <- insert_union_l, insert_union_r; [done|]. by apply not_elem_of_list_to_map_1.
Qed.

(** The members of a marshalled map. *)
Definition sorted_entries (m : gmap bytes Z) : list (bytes * Z) := omap (fun k => (fun v => (k, v)) <$> m !! k) (Sort (elements (dom m))).

Lemma sorted_entries_perm m : sorted_entries m ≡ₚ map_to_list m.
Proof.
  assert (forall k v, (k, v) ∈ sorted_entries m <-> m !! k = Some v) as Hin.
  { intros k v. unfold sorted_entries. rewrite list_elem_of_omap. setoid_rewrite elem_of_Sort. split.
    - intros (k' & _ & E). destruct (m !! k') as [v'|] eqn:El; [|done]. by injection E as -> ->.
    - intros El. exists k. split; [apply elem_of_elements, elem_of_dom; eauto|]. by rewrite El. }
  apply NoDup_Permutation; [|apply NoDup_map_to_list|].
  - apply (NoDup_fmap_1 fst). unfold sorted_entries. assert (NoDup (Sort (elements (dom m)))) as Hd by (rewrite Sort_perm; apply NoDup_elements).
    induction Hd as [|k l Hk _ IH]; [constructor|]. cbn [omap list_omap]. destruct (m !! k) as [v|]; [|exact IH]. cbn [fmap option_fmap option_map].
    rewrite fmap_cons. constructor; [|exact IH]. intros ([k' v'] & Ek & Hin')%list_elem_of_fmap. apply list_elem_of_omap in Hin' as (k2 & Hk2 & E).
    destruct (m !! k2); [|done]. injection E as -> _. cbn in Ek. by subst k'.
  - intros [k v]. by rewrite Hin, elem_of_map_to_list.
Qed.

Lemma map_json_entries m : map_json (fun v => JNum (Uitoa v)) m = JObj (count_members (sorted_entries m)).
Proof.
  unfold map_json, count_members, sorted_entries. f_equal. induction (Sort (elements (dom m))) as [|k l IH]; [done|]. cbn [omap list_omap].
  destruct (m !! k); cbn [fmap option_fmap option_map map]; by rewrite IH.
Qed.

Lemma counts_decode (m old : gmap bytes Z) : map_Forall (fun k v => plain k /\ 0 <= v < 2 ^ 64) m ->
  let v := coerced (map_json (fun v => JNum (Uitoa v)) m) in
  to_map (to_uint 64) 0 old (canon v) = to_map (to_uint 64) 0 old v /\ to_map (to_uint 64) 0 old v = Some (m ∪ old).
Proof.
  intros Hm. cbv zeta. rewrite map_json_entries. pose proof (sorted_entries_perm m) as Hperm.
  assert (Forall (fun kv => plain kv.1 /\ 0 <= kv.2 < 2 ^ 64) (sorted_entries m)) as Hall.
  { rewrite Hperm. apply Forall_forall. intros [k v] Hin%elem_of_map_to_list. by apply (Hm k v). }
  assert (NoDup (sorted_entries m).*1) as Hnd by (rewrite Hperm; apply NoDup_fst_map_to_list).
  assert (keyed plain (count_members (sorted_entries m))) as Hp.
  { apply Forall_fmap. eapply Forall_impl; [exact Hall|]. intros kv Hkv. apply Hkv. }
  assert (coerced (JObj (count_members (sorted_entries m))) = JObj (count_members (sorted_entries m))) as ->.
  { change (JObj (coerced_members (count_members (sorted_entries m))) = JObj (count_members (sorted_entries m))). rewrite coerced_plain by done.
    unfold count_members. rewrite map_map. done. }
  assert ((count_members (sorted_entries m)).*1 = (sorted_entries m).*1) as Hk by (unfold count_members; rewrite <- list_fmap_compose; by apply list_fmap_ext).
  split.
  - cbn [canon to_map]. symmetry. apply set_keys_perm; [by rewrite Hk|]. symmetry.
    assert (map (fun kv => (kv.1, canon kv.2)) (count_members (sorted_entries m)) = count_members (sorted_entries m)) as -> by (unfold count_members; by rewrite map_map).
    apply put_all_perm. by rewrite Hk.
  - cbn [to_map]. rewrite set_keys_counts; [|done|].
    + do 2 f_equal. transitivity (list_to_map (map_to_list m) : gmap bytes Z); [|apply list_to_map_to_list].
      by apply list_to_map_proper.
    + eapply Forall_impl; [exact Hall|]. by intros kv [_ ?].
Qed.

Lemma read_net z l text : line_reads l text -> Unmarshal (to_struct netLine_fields) z text = set_fields netLine_fields (seen_members l) z.
Proof. apply decode_reads; [apply net_commuting|names|safe]. Qed.
Lemma read_tls z l text : line_reads l text -> Unmarshal (to_struct tlsLine_fields) z text = set_fields tlsLine_fields (seen_members l) z.
Proof. apply decode_reads; [apply tls_commuting|names|safe]. Qed.
Lemma read_deny z l text : line_reads l text -> Unmarshal (to_struct denyLine_fields) z text = set_fields denyLine_fields (seen_members l) z.
Proof. apply decode_reads; [apply deny_commuting|names|safe]. Qed.
Lemma read_type z l text : line_reads l text -> Unmarshal (to_struct typedLine) z text = set_fields typedLine (seen_members l) z.
Proof. apply decode_reads; [apply typed_commuting|names|]. constructor; [|constructor]. intros r v _. cbn [snd]. by rewrite canon_to_string. Qed.

(** ** Looking up the fields of a line *)

Lemma str_inj a b : str a = str b -> a = b.
Proof.
  revert b. induction a as [|c a IH]; intros [|d b]; cbn [str]; try done. intros [= Hc Hs]. f_equal; [|by apply IH].
  apply N2Z.inj in Hc. rewrite <- (ascii_N_embedding c), <- (ascii_N_embedding d). by f_equal.
Qed.

Lemma getm_lit k k' v : getm (str k) [(str k', v)] = if String.eqb k k' then Some v else None.
Proof.
  cbn [getm]. destruct (String.eqb_spec k k') as [->|Hne]; [by rewrite decide_True|]. rewrite decide_False; [done|]. intros E. by apply Hne, str_inj.
Qed.
Lemma getm_fstr k k' s : getm (str k) (fstr k' s) = if String.eqb k k' then Some (JStr s) else None.
Proof. apply getm_lit. Qed.
Lemma getm_fuint k k' v : getm (str k) (fuint k' v) = if String.eqb k k' then Some (JNum (Uitoa v)) else None.
Proof. apply getm_lit. Qed.
Lemma getm_fint k k' v : getm (str k) (fint k' v) = if String.eqb k k' then Some (JNum (Itoa v)) else None.
Proof. apply getm_lit. Qed.
Lemma getm_str_oe k k' s : getm (str k) (str_oe k' s) = if String.eqb k k' then (if decide (s = []) then None else Some (JStr s)) else None.
Proof. unfold str_oe. case_decide; [by destruct (String.eqb k k')|apply getm_lit]. Qed.
Lemma getm_uint_oe k k' v : getm (str k) (uint_oe k' v) = if String.eqb k k' then (if v =? 0 then None else Some (JNum (Uitoa v))) else None.
Proof. unfold uint_oe. destruct (v =? 0); [by destruct (String.eqb k k')|apply getm_lit]. Qed.
Lemma getm_int_oe k k' v : getm (str k) (int_oe k' v) = if String.eqb k k' then (if v =? 0 then None else Some (JNum (Itoa v))) else None.
Proof. unfold int_oe. destruct (v =? 0); [by destruct (String.eqb k k')|apply getm_lit]. Qed.
Lemma getm_bool_oe k k' b : getm (str k) (bool_oe k' b) = if String.eqb k k' then (if b : bool then Some (JBool true) else None) else None.
Proof. destruct b; [apply getm_lit|by destruct (String.eqb k k')]. Qed.
Lemma getm_strs_oe k k' l : getm (str k) (strs_oe k' l) = if String.eqb k k' then (if decide (l = []) then None else Some (JArr (map JStr l))) else None.
Proof. unfold strs_oe. case_decide; [by destruct (String.eqb k k')|apply getm_lit]. Qed.
Lemma getm_decide {P : Prop} `{Decision P} k k' v :
  getm (str k) (if decide P then [] else [(str k', v)]) = if String.eqb k k' then (if decide P then None else Some v) else None.
Proof. case_decide; [by destruct (String.eqb k k')|apply getm_lit]. Qed.
Lemma getm_option {A} k k' (f : A -> json) o :
  getm (str k) match o with Some c => [(str k', f c)] | None => [] end = if String.eqb k k' then f <$> o else None.
Proof. destruct o; [apply getm_lit|by destruct (String.eqb k k')]. Qed.

Create Rewrite HintDb getm.
#[export] Hint Rewrite @getm_app getm_lit getm_fstr getm_fuint getm_fint getm_str_oe getm_uint_oe getm_int_oe getm_bool_oe getm_strs_oe @getm_decide @getm_option : getm.

(** Computes a lookup in the fields of a line. *)
Ltac look := rewrite ?seen_getm; autorewrite with getm; cbn [String.eqb Ascii.eqb Bool.eqb fmap option_fmap option_map coerced].

Lemma seen_type l : getm (str "type") (seen_members l) = Some (JStr (coerce (line_type l))).
Proof. look. done. Qed.

(** * What a line of the log adds to the report *)

(** The ranges of the Go types that the report decodes into, and the two types
    of IPv6 events. *)
Definition report_line (l : logLine) : Prop :=
  typed_line l /\
  match l with
  | LEvent (EvTCP e) => tc_Dport e < 2 ^ 16
  | LEvent (EvUDP e) => ud_Dport e < 2 ^ 16
  | LEvent (EvIPv6 e) => v6_Dport e < 2 ^ 16 /\ (v6_Type e = str "tcp6" \/ v6_Type e = str "udp6")
  | LDeny e => dn_Dport e < 2 ^ 16
  | LMeta m => - 2 ^ 63 <= me_AllowlistIPCount m < 2 ^ 63 /\ - 2 ^ 63 <= me_AllowlistEntryCount m < 2 ^ 63 /\
      map_Forall (fun k v => plain k /\ 0 <= v < 2 ^ 64) (me_DroppedEvents m)
  | _ => True
  end.

Section Effect.
Context `{UnicodeCase}.

Definition dest_effect (fqdn dst : bytes) (a : Aggregate) : Aggregate :=
  let key := if decide (fqdn = []) then dst else fqdn in
  if decide (key = []) then a
  else (if decide (fqdn <> [] /\ isBareIPv4 fqdn = false) then add_domain (ToLower fqdn) else id) (add_dest key a).

Definition tls_effect (sni : bytes) (c : TLSConfidence) (a : Aggregate) : Aggregate :=
  bump match c with
       | TLSConfidenceFull => TLSFull | TLSConfidencePartial => TLSPartial
       | TLSConfidenceInferred => TLSInferred | TLSConfidenceUnknown => TLSUnknown
       end ((if decide (sni <> [] /\ isBareIPv4 sni = false) then add_domain (ToLower sni) else id) a).

Definition deny_effect (e : DenyEvent) (a : Aggregate) : Aggregate :=
  mkAggregate (if decide (coerce (dn_Mode e) = []) then Mode a else coerce (dn_Mode e)) (ct a)
    (Denies a ++ [mkDeny (coerce (dn_Comm e)) (coerce (dn_Protocol e)) (coerce (dn_Dst e)) (dn_Dport e) (coerce (dn_Reason e)) (coerce (dn_HookFamily e))])
    (Dests a) (seen a) (domains a) (EventsSHA256 a) (AgentVersion a) (KernelRelease a) (DetectProfile a) (AllowlistIPs a)
    (AllowlistEntries a) (RunnerHasIPv6 a) (RunnerEnv a) (BPF a) (DroppedEvents a) (MetaSeen a).

Definition meta_effect (m : MetaEvent) (a : Aggregate) : Aggregate :=
  mkAggregate (if decide (coerce (me_Mode m) = []) then Mode a else coerce (me_Mode m)) (ct a) (Denies a) (Dests a) (seen a) (domains a)
    (if decide (coerce (me_EventsFileSHA256 m) = []) then EventsSHA256 a else coerce (me_EventsFileSHA256 m))
    (coerce (me_AgentVersion m)) (coerce (me_KernelRelease m)) (coerce (me_DetectProfile m)) (me_AllowlistIPCount m) (me_AllowlistEntryCount m)
    (me_RunnerHasIPv6 m) (coerce (me_RunnerEnv m))
    (map (fun b => mkBPFStatus (coerce (bs_Name b)) (bs_OK b)) (default [] (me_BPF m))) (me_DroppedEvents m) true.

Definition event_effect (e : event) (a : Aggregate) : Aggregate :=
  match e with
  | EvTCP e => dest_effect (coerce (tc_FQDN e)) (coerce (tc_Dst e)) (bump TCPConns a)
  | EvUDP e => dest_effect (coerce (ud_FQDN e)) (coerce (ud_Dst e)) (bump UDPSends a)
  | EvIPv6 e => dest_effect [] (coerce (v6_Dst e)) (bump IPv6Events (bump (if decide (v6_Type e = str "tcp6") then TCPConns else UDPSends) a))
  | EvTLS e => tls_effect (coerce (tl_SNI e)) (tl_Confidence e) a
  | EvHTTP _ => bump HTTPReqs a | EvExec _ => bump Execs a | EvFork _ => bump ProcForks a | EvFS _ => bump FSEvents a
  | EvQUIC _ => bump QUICCandidates a | EvKTLS _ => bump KTLSOffload a | EvTCPState _ => bump TCPStateEvents a
  | EvIOSend _ => bump IoUringSend a | EvIOTLS _ => bump IoUringTLS a | EvAudit _ => bump BPFAudit a
  | EvSelfDef _ => bump BpfSelfDefenseDenied a | EvEgress _ => bump EgressBackstop a | EvTCPResult _ => a
  end.

Definition log_effect (a : Aggregate) (l : logLine) : Aggregate :=
  let a := bump TotalEvents a in
  let a := match l with LMeta _ => a | _ => bump NonMetaEvents a end in
  let a := see (line_type l) a in
  match l with
  | LMeta m => meta_effect m a
  | LDeny e => deny_effect e a
  | LTamper _ _ => bump BPFTamper a
  | LDrift _ => a
  | LEvent e => event_effect e a
  end.

Lemma coerce_nil s : coerce s = [] <-> s = [].
Proof.
  split; [|by intros ->]. unfold coerce, runes. destruct s as [|b s]; [done|]. destruct (decode_rune_cons b s) as (r & w & E).
  rewrite (chunks_step _ _ _ E). unfold encode. rewrite fmap_cons. cbn [map concat fst]. unfold encode_rune. repeat case_match; done.
Qed.

(** A string field is read as it was written, omitted or not. *)
Lemma read_str_oe old s : old = [] -> match coerced <$> (if decide (s = []) then None else Some (JStr s)) with Some v => to_string old v | None => Some old end = Some (coerce s).
Proof. intros ->. case_decide as E; [by rewrite E|done]. Qed.

Lemma read_uint b v old : 0 <= v < 2 ^ b -> to_uint b old (JNum (Uitoa v)) = Some v.
Proof. apply ParseUint_Uitoa. Qed.

(** Evaluates the fields of a structure on the members of a line, whose fields
    [unf] unfolds. *)
Ltac by_fields unf :=
  cbn [set_fields]; unfold set_field, field; cbn [fst snd]; rewrite !seen_getm; cbn [line_type line_fields event_json]; unf ();
  autorewrite with getm; cbn [String.eqb Ascii.eqb Bool.eqb fmap option_fmap option_map coerced].

Lemma decode_tcp e : 0 <= tc_Dport e < 2 ^ 16 ->
  set_fields netLine_fields (seen_members (LEvent (EvTCP e))) (mkNet [] 0 [] false) = Some (mkNet (coerce (tc_Dst e)) (tc_Dport e) (coerce (tc_FQDN e)) false).
Proof.
  intros Hp. unfold netLine_fields. by_fields ltac:(fun _ => unfold TCPEvent_json). cbn [to_string mbind option_bind fmap option_fmap option_map n_Dst n_Dport n_FQDN n_PossibleQUIC].
  rewrite read_uint by done. cbn. case_decide as E; [by rewrite E|done].
Qed.

Lemma decode_udp e : 0 <= ud_Dport e < 2 ^ 16 -> exists q,
  set_fields netLine_fields (seen_members (LEvent (EvUDP e))) (mkNet [] 0 [] false) = Some (mkNet (coerce (ud_Dst e)) (ud_Dport e) (coerce (ud_FQDN e)) q).
Proof.
  intros Hp. exists (ud_PossibleQUIC e). unfold netLine_fields. by_fields ltac:(fun _ => unfold UDPEvent_json).
  cbn [to_string mbind option_bind fmap option_fmap option_map n_Dst n_Dport n_FQDN n_PossibleQUIC].
  rewrite read_uint by done. cbn. case_decide as E; [rewrite E|]; by destruct (ud_PossibleQUIC e).
Qed.

Lemma decode_ipv6 e : 0 <= v6_Dport e < 2 ^ 16 ->
  set_fields netLine_fields (seen_members (LEvent (EvIPv6 e))) (mkNet [] 0 [] false) = Some (mkNet (coerce (v6_Dst e)) (v6_Dport e) [] false).
Proof.
  intros Hp. unfold netLine_fields. by_fields ltac:(fun _ => unfold IPv6Event_json). cbn [to_string mbind option_bind fmap option_fmap option_map n_Dst n_Dport n_FQDN n_PossibleQUIC].
  rewrite read_uint by done. done.
Qed.

Lemma decode_tls e : set_fields tlsLine_fields (seen_members (LEvent (EvTLS e))) (mkTLSLine [] [] []) =
  Some (mkTLSLine (TLSConfidence_text (tl_Confidence e)) (coerce (tl_SNI e)) (coerce (tl_Dst e))).
Proof. unfold tlsLine_fields. by_fields ltac:(fun _ => unfold TLSEvent_json). by destruct (tl_Confidence e). Qed.

Lemma decode_deny e : 0 <= dn_Dport e < 2 ^ 16 ->
  set_fields denyLine_fields (seen_members (LDeny e)) (mkDenyLine [] [] [] 0 [] [] []) =
  Some (mkDenyLine (coerce (dn_Comm e)) (coerce (dn_Protocol e)) (coerce (dn_Dst e)) (dn_Dport e) (coerce (dn_Reason e)) (coerce (dn_HookFamily e)) (coerce (dn_Mode e))).
Proof.
  intros Hp. unfold denyLine_fields. by_fields ltac:(fun _ => unfold DenyEvent_json).
  cbn [to_string mbind option_bind fmap option_fmap option_map l_Comm l_Protocol l_Dst l_Dport l_Reason l_HookFamily l_Mode].
  rewrite read_uint by done. cbn. case_decide as E; [by rewrite E|done].
Qed.

(** ** The meta line *)

Lemma seen_bpf m : getm (str "bpf") (seen_members (LMeta m)) =
  Some (coerced match me_BPF m with Some l => JArr (map BPFStatus_json l) | None => JNull end).
Proof. rewrite seen_getm. cbn [line_type line_fields]. unfold MetaEvent_json. autorewrite with getm. cbn [String.eqb Ascii.eqb Bool.eqb]. done. Qed.

Lemma seen_dropped m : getm (str "dropped_events") (seen_members (LMeta m)) =
  if decide (me_DroppedEvents m = ∅) then None else Some (coerced (map_json (fun v => JNum (Uitoa v)) (me_DroppedEvents m))).
Proof.
  rewrite seen_getm. cbn [line_type line_fields]. unfold MetaEvent_json. autorewrite with getm. cbn [String.eqb Ascii.eqb Bool.eqb].
  by destruct (decide (me_DroppedEvents m = ∅)).
Qed.

Lemma bpf_decode m old : let v := coerced match me_BPF m with Some l => JArr (map BPFStatus_json l) | None => JNull end in
  let decode := to_slice (to_struct BPFStatus_fields) (mkBPFStatus [] false) old in
  decode (canon v) = decode v /\
  exists s, decode v = Some s /\ slice_of s = map (fun b => mkBPFStatus (coerce (bs_Name b)) (bs_OK b)) (default [] (me_BPF m)).
Proof.
  cbv zeta. destruct (me_BPF m) as [l|]; [|by split; [|eexists]]. change (default [] (Some l)) with l.
  cbn [coerced canon]. rewrite (map_map BPFStatus_json coerced). destruct (statuses_decode (backing old) l) as [E (t & Et)].
  destruct l as [|b l]; [by split; [|eexists]|]. cbn [map to_slice] in *. rewrite E, Et. split; [cbn [mbind option_bind length]; by rewrite !length_map|].
  eexists. split; [done|]. unfold slice_of. cbn [slen backing length]. rewrite length_map. cbn [app take]. f_equal.
  rewrite take_app_le by by rewrite length_map. apply take_ge. by rewrite length_map.
Qed.

Lemma read_int v old : - 2 ^ 63 <= v < 2 ^ 63 -> to_int 64 old (JNum (Itoa v)) = Some v.
Proof. apply (ParseInt_Itoa 64). Qed.

(** One field at a time. *)
Lemma step_field {R A} k (get : R -> A) set dec (fs : fields R) l r x q :
  match getm (str k) l with Some v => dec (get r) v | None => Some (get r) end = Some x -> set r (get r) = r ->
  set_fields fs l (set r x) = q -> set_fields (field k get set dec :: fs) l r = q.
Proof.
  intros Hx Hr <-. cbn [set_fields]. unfold set_field, field. cbn [fst snd]. destruct (getm (str k) l) as [v|].
  - rewrite Hx. done.
  - injection Hx as <-. cbn [mbind option_bind]. by rewrite Hr.
Qed.

Ltac look_meta := rewrite seen_getm; cbn [line_type line_fields]; unfold MetaEvent_json; autorewrite with getm;
  cbn [String.eqb Ascii.eqb Bool.eqb coerced fmap option_fmap option_map].

Lemma meta_str_oe s : match coerced <$> match (if decide (s = []) then None else Some (JStr s)) with Some v => Some v | None => None end with
  | Some v => to_string [] v | None => Some [] end = Some (coerce s).
Proof. case_decide as E; [by rewrite E|done]. Qed.

Lemma meta_int_oe v : - 2 ^ 63 <= v < 2 ^ 63 ->
  match coerced <$> match (if v =? 0 then None else Some (JNum (Itoa v))) with Some v => Some v | None => None end with
  | Some v => to_int 64 0 v | None => Some 0 end = Some v.
Proof. intros Hv. destruct (Z.eqb_spec v 0) as [-> |]; [done|]. by apply (read_int v 0). Qed.

Lemma decode_meta m text : report_line (LMeta m) -> line_reads (LMeta m) text ->
  exists s, Unmarshal (to_struct metaLine_fields) zero_meta text =
    Some (mkMetaLine s (me_AllowlistIPCount m) (me_AllowlistEntryCount m) (me_RunnerHasIPv6 m) (coerce (me_RunnerEnv m)) (me_DroppedEvents m)
      (coerce (me_EventsFileSHA256 m)) (coerce (me_DetectProfile m)) (coerce (me_AgentVersion m)) (coerce (me_KernelRelease m)) (coerce (me_Mode m))) /\
    slice_of s = map (fun b => mkBPFStatus (coerce (bs_Name b)) (bs_OK b)) (default [] (me_BPF m)).
Proof.
  intros (_ & Hips & Hent & Hdrop) Hr. destruct (bpf_decode m (mkSlice [] 0)) as [_ (s & Hs & Hsl)]. exists s. split; [|done].
  rewrite (decode_reads metaLine_fields zero_meta (LMeta m)); [|apply meta_commuting|names| |done].
  - unfold metaLine_fields, zero_meta.
    eapply step_field; [rewrite seen_bpf; exact Hs|done|cbv beta iota].
    eapply step_field; [look_meta; by apply meta_int_oe|done|cbv beta iota].
    eapply step_field; [look_meta; by apply meta_int_oe|done|cbv beta iota].
    eapply step_field; [look_meta; instantiate (1 := me_RunnerHasIPv6 m); by destruct (me_RunnerHasIPv6 m)|done|cbv beta iota].
    eapply step_field; [look_meta; apply meta_str_oe|done|cbv beta iota].
    eapply step_field; [rewrite seen_dropped; instantiate (1 := me_DroppedEvents m)|done|cbv beta iota].
    { destruct (decide (me_DroppedEvents m = ∅)) as [-> |]; [done|]. destruct (counts_decode (me_DroppedEvents m) ∅ Hdrop) as [_ E].
      cbn [m_DroppedEvents]. rewrite E. by rewrite (right_id_L ∅ (∪)). }
    eapply step_field; [look_meta; by apply read_str_oe|done|cbv beta iota].
    eapply step_field; [look_meta; apply meta_str_oe|done|cbv beta iota].
    eapply step_field; [look_meta; reflexivity|done|cbv beta iota].
    eapply step_field; [look_meta; reflexivity|done|cbv beta iota].
    eapply step_field; [look_meta; apply meta_str_oe|done|reflexivity].
  - unfold metaLine_fields. constructor.
    { intros r v. unfold field. cbn [fst snd]. rewrite seen_bpf. intros [= <-]. by destruct (bpf_decode m (m_BPF r)) as [-> _]. }
    do 4 (constructor; [apply canon_safe_field; auto|]). constructor; [|safe].
    intros r v. unfold field. cbn [fst snd]. rewrite seen_dropped. case_decide; [done|]. intros Hv. apply (inj Some) in Hv. subst v.
    by destruct (counts_decode (me_DroppedEvents m) (m_DroppedEvents r) Hdrop) as [-> _].
Qed.

(** ** Every line *)

Lemma decode_type l text : line_reads l text -> Unmarshal (to_struct typedLine) [] text = Some (coerce (line_type l)).
Proof. intros Hr. rewrite (read_type [] l) by done. cbn [set_fields typedLine]. unfold set_field. cbn [fst snd]. by rewrite seen_type. Qed.

Lemma uints_in l v : typed_line l -> v ∈ line_uints l -> 0 <= v.
Proof. intros [_ Hu] Hv. rewrite Forall_forall in Hu. by apply Hu. Qed.

Lemma coerce_type l : report_line l -> coerce (line_type l) = line_type l.
Proof.
  intros [_ Hl]. destruct l as [e|e|ts e|e|m]; [|reflexivity..]. destruct e; try reflexivity.
  cbn [line_type Type_] in *. by destruct Hl as [_ [-> | ->]].
Qed.

(** The branches of the switch that decode the line. *)
Lemma type_meta line a : consumeType (str "meta") line a = countMeta line a.
Proof. reflexivity. Qed.
Lemma type_tcp line a : consumeType (str "tcp") line a = countDest line (bump TCPConns a).
Proof. reflexivity. Qed.
Lemma type_tcp6 line a : consumeType (str "tcp6") line a = countDest line (bump IPv6Events (bump TCPConns a)).
Proof. reflexivity. Qed.
Lemma type_udp line a : consumeType (str "udp") line a = countDest line (bump UDPSends a).
Proof. reflexivity. Qed.
Lemma type_udp6 line a : consumeType (str "udp6") line a = countDest line (bump IPv6Events (bump UDPSends a)).
Proof. reflexivity. Qed.
Lemma type_tls line a : consumeType (str "tls") line a = countTLS line a.
Proof. reflexivity. Qed.
Lemma type_deny line a : consumeType (str "deny") line a = countDeny line a.
Proof. reflexivity. Qed.

Lemma countDest_reads l text a n : line_reads l text -> set_fields netLine_fields (seen_members l) (mkNet [] 0 [] false) = Some n ->
  countDest text a = dest_effect (n_FQDN n) (n_Dst n) a.
Proof. intros Hr Hn. unfold countDest, dest_effect. rewrite (read_net _ l), Hn by done. repeat case_decide; done. Qed.

Lemma event_reads e text a : report_line (LEvent e) -> line_reads (LEvent e) text ->
  consumeType (Type_ e) text a = event_effect e a.
Proof.
  intros [Ht Hl] Hr. pose proof (uints_in _ (match e with EvTCP e => tc_Dport e | EvUDP e => ud_Dport e | EvIPv6 e => v6_Dport e | _ => 0 end) Ht) as Hp.
  destruct e; cbn [event_effect Type_ line_uints event_uints] in *; try reflexivity.
  - rewrite type_tcp. rewrite (countDest_reads _ _ _ _ Hr (decode_tcp _ ltac:(split; [apply Hp; set_solver|done]))). done.
  - destruct (decode_udp e ltac:(split; [apply Hp; set_solver|done])) as [q Eq]. rewrite type_udp, (countDest_reads _ _ _ _ Hr Eq). done.
  - rewrite type_tls. unfold countTLS. rewrite (read_tls _ _ _ Hr), decode_tls. cbn [t_SNI t_Confidence]. unfold tls_effect.
    destruct (decide (coerce (tl_SNI e) <> [] /\ isBareIPv4 (coerce (tl_SNI e)) = false)), (tl_Confidence e); reflexivity.
  - destruct Hl as [Hport [E | E]]; rewrite E in *; [rewrite type_tcp6, decide_True by done|rewrite type_udp6, decide_False by done];
      rewrite (countDest_reads _ _ _ _ Hr (decode_ipv6 _ ltac:(split; [apply Hp; set_solver|done]))); done.
Qed.

Lemma consume_line l text a : report_line l -> line_reads l text -> consumeLine text a = log_effect a l.
Proof.
  intros Hl Hr. unfold consumeLine. rewrite (decode_type l) by done. rewrite coerce_type by done. unfold log_effect.
  assert ((if decide (line_type l <> str "meta") then bump NonMetaEvents (bump TotalEvents a) else bump TotalEvents a) =
    match l with LMeta _ => bump TotalEvents a | _ => bump NonMetaEvents (bump TotalEvents a) end) as ->.
  { destruct l as [e|e|ts e|e|m]; try reflexivity. destruct e; try reflexivity. destruct Hl as [_ [_ [E | E]]]; cbn [line_type Type_]; by rewrite E. }
  destruct l as [e|e|ts e|e|m]; cbn [line_type].
  - by apply event_reads.
  - rewrite type_deny. unfold countDeny. rewrite (read_deny _ _ _ Hr). destruct Hl as [Ht Hp].
    rewrite decode_deny by (split; [apply (uints_in _ _ Ht); cbn [line_uints]; set_solver|done]). done.
  - reflexivity.
  - reflexivity.
  - rewrite type_meta. unfold countMeta. destruct (decode_meta m text Hl Hr) as (s & -> & Hs). cbn [m_Mode m_EventsSHA256 m_AgentVersion m_KernelRelease
      m_DetectProfile m_AllowlistIPs m_AllowlistEntries m_RunnerHasIPv6 m_RunnerEnv m_BPF m_DroppedEvents]. by rewrite Hs.
Qed.
End Effect.

(** * The log and its report *)

(** The counters that a line adds one to. *)
Definition event_bumps (e : event) : list counter :=
  match e with
  | EvTCP _ => [TCPConns] | EvUDP _ => [UDPSends] | EvHTTP _ => [HTTPReqs] | EvExec _ => [Execs] | EvFork _ => [ProcForks]
  | EvFS _ => [FSEvents] | EvQUIC _ => [QUICCandidates] | EvKTLS _ => [KTLSOffload] | EvTCPState _ => [TCPStateEvents]
  | EvIOSend _ => [IoUringSend] | EvIOTLS _ => [IoUringTLS] | EvAudit _ => [BPFAudit] | EvSelfDef _ => [BpfSelfDefenseDenied]
  | EvEgress _ => [EgressBackstop] | EvTCPResult _ => []
  | EvIPv6 e => [IPv6Events; if decide (v6_Type e = str "tcp6") then TCPConns else UDPSends]
  | EvTLS e => [match tl_Confidence e with
                | TLSConfidenceFull => TLSFull | TLSConfidencePartial => TLSPartial
                | TLSConfidenceInferred => TLSInferred | TLSConfidenceUnknown => TLSUnknown end]
  end.

Definition bumps (l : logLine) : list counter :=
  match l with
  | LMeta _ => [TotalEvents]
  | LEvent e => [TotalEvents; NonMetaEvents] ++ event_bumps e
  | LTamper _ _ => [TotalEvents; NonMetaEvents; BPFTamper]
  | LDeny _ | LDrift _ => [TotalEvents; NonMetaEvents]
  end.

Definition occurrences (c : counter) (l : list counter) : Z := len (filter (fun x => x = c) l).

(** The destination label of a line: the domain if there is one, else the
    address. *)
Definition label_of (l : logLine) : bytes :=
  match l with
  | LEvent (EvTCP e) => if decide (coerce (tc_FQDN e) = []) then coerce (tc_Dst e) else coerce (tc_FQDN e)
  | LEvent (EvUDP e) => if decide (coerce (ud_FQDN e) = []) then coerce (ud_Dst e) else coerce (ud_FQDN e)
  | LEvent (EvIPv6 e) => coerce (v6_Dst e)
  | _ => []
  end.

Definition deny_of (l : logLine) : option Deny :=
  match l with
  | LDeny e => Some (mkDeny (coerce (dn_Comm e)) (coerce (dn_Protocol e)) (coerce (dn_Dst e)) (dn_Dport e) (coerce (dn_Reason e)) (coerce (dn_HookFamily e)))
  | _ => None
  end.

(** The names that the diff gate compares. *)
Definition name_of (l : logLine) : bytes :=
  match l with
  | LEvent (EvTCP e) => coerce (tc_FQDN e) | LEvent (EvUDP e) => coerce (ud_FQDN e) | LEvent (EvTLS e) => coerce (tl_SNI e) | _ => [] end.

Definition how_many (P : logLine -> Prop) `{!forall l, Decision (P l)} (ls : list logLine) : Z := len (filter P ls).

Lemma how_many_snoc (P : logLine -> Prop) `{!forall l, Decision (P l)} ls l :
  how_many P (ls ++ [l]) = how_many P ls + (if decide (P l) then 1 else 0).
Proof. unfold how_many. rewrite filter_app, len_app. rewrite filter_cons. by case_decide. Qed.

Section Log.
Context `{UnicodeCase}.

Lemma dest_effect_ct fqdn dst a c : ct (dest_effect fqdn dst a) c = ct a c.
Proof. unfold dest_effect. repeat case_decide; done. Qed.

Lemma ct_bump c' a c : ct (bump c' a) c = ct a c + (if decide (c = c') then 1 else 0).
Proof. done. Qed.

Lemma ct_if (b : bool) f g c : ct (if b then f else g) c = if b then ct f c else ct g c.
Proof. by destruct b. Qed.

Lemma occurrences_cons c x l : occurrences c (x :: l) = (if decide (c = x) then 1 else 0) + occurrences c l.
Proof.
  unfold occurrences. rewrite filter_cons. destruct (decide (x = c)) as [-> |].
  - rewrite decide_True by done. by rewrite len_cons.
  - by rewrite decide_False by auto.
Qed.

Lemma occurrences_app c l k : occurrences c (l ++ k) = occurrences c l + occurrences c k.
Proof. unfold occurrences. by rewrite filter_app, len_app. Qed.

Lemma log_effect_ct a l c : ct (log_effect a l) c = ct a c + occurrences c (bumps l).
Proof.
  assert (forall t a c, ct (see t a) c = ct a c) as Hsee by done. assert (forall d a c, ct (add_domain d a) c = ct a c) as Hdom by done.
  assert (occurrences c [] = 0) as Hnil by done.
  unfold log_effect. destruct l as [e|e|ts e|e|m]; [destruct e|..]; cbn [event_effect bumps event_bumps app]; unfold tls_effect, deny_effect, meta_effect; cbn [ct];
    rewrite ?dest_effect_ct, ?ct_bump, ?Hsee, ?ct_bump, ?occurrences_cons, ?Hnil; try lia.
  destruct (decide (coerce _ <> [] /\ _)); unfold id; rewrite ?Hdom, ?Hsee, ?ct_bump; lia.
Qed.

Lemma fold_ct ls c : ct (foldl log_effect new_aggregate ls) c = occurrences c (concat (map bumps ls)).
Proof.
  induction ls as [|l ls IH] using rev_ind; [done|]. rewrite foldl_snoc, log_effect_ct, IH, map_app, concat_app, occurrences_app. cbn [map concat].
  by rewrite app_nil_r.
Qed.

Lemma fold_denies ls : Denies (foldl log_effect new_aggregate ls) = omap deny_of ls.
Proof.
  induction ls as [|l ls IH] using rev_ind; [done|]. rewrite foldl_snoc, omap_app, <- IH.
  set (a := foldl _ _ _). clearbody a. destruct l as [e|e|ts e|e|m]; [destruct e|..]; cbn; unfold tls_effect, dest_effect; repeat case_decide; cbn; by rewrite ?app_nil_r.
Qed.

Lemma fold_seen ls : seen (foldl log_effect new_aggregate ls) = list_to_set (map line_type ls).
Proof.
  induction ls as [|l ls IH] using rev_ind; [done|]. rewrite foldl_snoc, map_app, list_to_set_app_L, <- IH.
  set (a := foldl _ _ _). clearbody a. cbn [map list_to_set]. rewrite (right_id_L ∅ (∪)), (comm_L (∪)).
  destruct l as [e|e|ts e|e|m]; [destruct e|..]; cbn; unfold tls_effect, dest_effect; repeat case_decide; done.
Qed.

Lemma fold_dests ls k : default 0 (Dests (foldl log_effect new_aggregate ls) !! k) = (if decide (k = []) then 0 else how_many (fun l => label_of l = k) ls).
Proof.
  assert (forall fqdn dst a, default 0 (Dests (dest_effect fqdn dst a) !! k) = default 0 (Dests a !! k) +
    (if decide (k <> [] /\ (if decide (fqdn = []) then dst else fqdn) = k) then 1 else 0)) as Hd.
  { intros fqdn dst a. unfold dest_effect. set (q := if decide (fqdn = []) then dst else fqdn). destruct (decide (q = [])) as [Eq|Eq].
    - rewrite decide_False by (intros [? <-]; done). lia.
    - assert (default 0 (Dests (add_dest q a) !! k) = default 0 (Dests a !! k) + (if decide (k <> [] /\ q = k) then 1 else 0)) as E.
      { cbn [add_dest Dests]. destruct (decide (q = k)) as [<- |].
        - by rewrite lookup_insert_eq, decide_True by done.
        - rewrite lookup_insert_ne by done. rewrite decide_False by (intros [_ ?]; done). lia. }
      by destruct (decide (fqdn <> [] /\ _)). }
  induction ls as [|l ls IH] using rev_ind; [by case_decide|]. rewrite foldl_snoc, how_many_snoc.
  set (a := foldl _ _ _) in *. clearbody a.
  assert (default 0 (Dests (log_effect a l) !! k) = default 0 (Dests a !! k) + (if decide (k <> [] /\ label_of l = k) then 1 else 0)) as ->.
  { destruct l as [e|e|ts e|e|m]; [destruct e|..]; cbn [log_effect event_effect label_of line_type];
      try (rewrite decide_False by (intros [Hk Hl]; by apply Hk); cbn; unfold tls_effect; repeat case_decide; cbn; lia).
    all: rewrite Hd; cbn; repeat case_decide; try done; tauto. }
  rewrite IH. destruct (decide (k = [])) as [-> |]; [rewrite decide_False by (intros [? _]; done); lia|].
  destruct (decide (label_of l = k)); [rewrite decide_True by done|rewrite decide_False by (intros [_ ?]; done)]; lia.
Qed.

Context (Sign : bytes -> bytes -> bytes).

(** The log after appending these lines, one after the other. *)
Definition write_log (s : option Signer) (ls : list logLine) : bytes :=
  foldl (fun file l => (AppendJSONL Sign (str "events.jsonl") (line_json l) s file (Appends 0 false false)).1) [] ls.

(** The line, with its line feed, is within the limit of the report. *)
Definition line_fits (s : option Signer) (l : logLine) : Prop :=
  match lineText Sign s (line_json l) with Some t => len t < maxEventLineBytes | None => True end.

Lemma trimEOL_ln t : Forall clean t -> trimEOL (ln t) = t.
Proof.
  intros Hc. unfold trimEOL, ln. rewrite rev_app_distr. cbn [rev app drop_while Z.eqb Pos.eqb orb]. rewrite <- (rev_involutive t) at 2. f_equal.
  assert (Forall clean (rev t)) as Hr by by apply Forall_rev. destruct Hr as [|c l Hc' _]; [done|]. cbn [drop_while].
  unfold clean in Hc'. rewrite (proj2 (Z.eqb_neq c 13)), (proj2 (Z.eqb_neq c 10)) by lia. done.
Qed.

Lemma written_fold s ls : (forall k m, wf_bytes (Sign k m)) -> Forall report_line ls -> Forall (line_fits s) ls ->
  exists texts, write_log s ls = concat (map ln texts) /\ Forall (fun t => 10 ∉ t) texts /\
    forall a, foldl record_step a (map ln texts) = foldl log_effect a ls.
Proof.
  intros Hsig. induction ls as [|l ls IH] using rev_ind; [by exists []|]. rewrite !Forall_app. intros [Hls [Hl _]%Forall_cons] [Hfs [Hf _]%Forall_cons].
  destruct (IH Hls Hfs) as (texts & Ew & Hn & Hr). destruct (written_reads Sign s l (proj1 Hl) Hsig) as (t & Et & Hclean & Hne & Hreads).
  exists (texts ++ [t]). split_and!.
  - unfold write_log in *. rewrite foldl_snoc, Ew, map_app, concat_app. unfold AppendJSONL. rewrite decide_False by done. rewrite Et. cbn [appendLine fst map concat].
    by rewrite app_nil_r.
  - apply Forall_app. split; [done|]. constructor; [|done]. intros H10. rewrite Forall_forall in Hclean. destruct (Hclean _ H10). lia.
  - intros a. rewrite map_app, !foldl_app, Hr. cbn [map foldl]. unfold record_step, parseLine, line_fits in *. rewrite Et in Hf.
    replace (len (ln t)) with (len t + 1) by (unfold ln; len_lia). rewrite (proj2 (Z.ltb_ge _ _)) by lia. rewrite trimEOL_ln by done.
    rewrite decide_False by done. by apply consume_line.
Qed.

Lemma parse_written s ls : (forall k m, wf_bytes (Sign k m)) -> Forall report_line ls -> Forall (line_fits s) ls ->
  Parse (write_log s ls) EOF = Some (foldl log_effect new_aggregate ls, false).
Proof.
  intros Hsig Hls Hfs. destruct (written_fold s ls Hsig Hls Hfs) as (texts & -> & Hn & Hr). unfold Parse. rewrite parseLoop_records by lia.
  cbn [mbind option_bind]. rewrite <- (app_nil_r (concat _)), records_lines, foldl_app, Hr by done. done.
Qed.

(** C24: The report of a log that the agent wrote, signed or not, says what was
    logged: no line is an error, every counter is the number of lines that
    belong to it, the denials are those of the log in its order, the types seen
    are those written, and each destination has the number of its events. *)
Theorem report_reads_log s ls : (forall k m, wf_bytes (Sign k m)) -> Forall report_line ls -> Forall (line_fits s) ls ->
  exists a, Parse (write_log s ls) EOF = Some (a, false) /\
    ct a ParseErrors = 0 /\ ct a TotalEvents = len ls /\
    (forall c, ct a c = occurrences c (concat (map bumps ls))) /\
    Denies a = omap deny_of ls /\ seen a = list_to_set (map line_type ls) /\
    forall k, k <> [] -> default 0 (Dests a !! k) = how_many (fun l => label_of l = k) ls.
Proof.
  intros Hsig Hls Hfs. eexists. split; [by apply parse_written|]. split_and!.
  - rewrite fold_ct. clear. induction ls as [|l ls IH]; [done|]. cbn [map concat]. rewrite occurrences_app, IH.
    destruct l as [e|e|ts e|e|m]; [destruct e|..]; cbn [bumps event_bumps app]; try done; repeat case_match; done.
  - rewrite fold_ct. clear. induction ls as [|l ls IH]; [done|]. cbn [map concat]. rewrite occurrences_app, IH, len_cons. f_equal.
    destruct l as [e|e|ts e|e|m]; [destruct e|..]; cbn [bumps event_bumps app]; try done; repeat case_match; done.
  - intros c. apply fold_ct.
  - apply fold_denies.
  - apply fold_seen.
  - intros k Hk. rewrite fold_dests. by rewrite decide_False.
Qed.

(** The report takes its run context from the last meta line, and the record
    that the agent writes at shutdown does not repeat what only the startup
    record has: a report of a complete log shows no Docker-in-Docker, no IPv6
    and an empty allowlist, whatever the startup record said. *)
Theorem shutdown_hides_startup s ls getenv uname now version bpf profile mode dropped sha gate enforced attached quic m :
  (forall k m, wf_bytes (Sign k m)) -> Forall report_line (ls ++ [LMeta m]) -> Forall (line_fits s) (ls ++ [LMeta m]) ->
  shutdownMetaEvent getenv uname now version bpf profile mode dropped sha gate enforced attached quic = Some m ->
  exists a, Parse (write_log s (ls ++ [LMeta m])) EOF = Some (a, false) /\
    RunnerEnv a = [] /\ RunnerHasIPv6 a = false /\ AllowlistIPs a = 0 /\ AllowlistEntries a = 0.
Proof.
  intros Hsig Hls Hfs Hm. eexists. split; [by apply parse_written|]. rewrite foldl_snoc. cbn.
  unfold shutdownMetaEvent in Hm. apply bind_Some in Hm as (x & _ & Hm). injection Hm as <-. done.
Qed.
End Log.

(** * Witnesses *)
Module Witness.
Import EventLog.Witness.
#[local] Existing Instance ascii_case.

Definition signer : Signer := mkSigner (toy_key toy_seed) toy_seed.
Definition exec_line : logLine := LEvent (EvExec (mkExec 0 1 7 7 7 (str "curl") (str "/bin/curl") 5 1 [])).
Definition tcp_line : logLine := LEvent (EvTCP (mkTCP 0 2 7 7 7 (str "curl") (str "1.2.3.4") 443 (str "Example.com") (str "dns") (str "egress") (str "allowed"))).
Definition a_log : list logLine := [exec_line; tcp_line; deny_line; tcp_line].

Lemma exec_line_ok : report_line exec_line.
Proof. split; [split; apply (bool_decide_unpack _); vm_compute|]; exact I. Qed.
Lemma tcp_line_ok : report_line tcp_line.
Proof. split; [split; apply (bool_decide_unpack _); vm_compute; exact I|]. reflexivity. Qed.
Lemma deny_line_ok : report_line deny_line.
Proof. split; [exact deny_line_typed|]. reflexivity. Qed.

Lemma a_log_ok : Forall report_line a_log.
Proof. by repeat apply Forall_cons_2; [apply exec_line_ok|apply tcp_line_ok|apply deny_line_ok|apply tcp_line_ok|apply Forall_nil_2]. Qed.

Lemma a_log_fits : Forall (line_fits toy_sign (Some signer)) a_log.
Proof. repeat (apply Forall_cons_2; [vm_compute; reflexivity|]). apply Forall_nil_2. Qed.

Lemma unreadable_line_only_counts_witness : exists a b, Parse (concat (map ln [str "x"]) ++ []) EOF = Some (a, false) /\
  Parse (concat (map ln [str "x"]) ++ ln (str "[1]") ++ []) EOF = Some (b, false) /\ more_errors 1 a b.
Proof.
  apply (unreadable_line_only_counts [str "x"] (str "[1]") [] EOF); [apply (bool_decide_unpack _); vm_compute; exact I..|].
  right. vm_compute. done.
Defined.

Lemma report_reads_log_witness : exists a, Parse (write_log toy_sign (Some signer) a_log) EOF = Some (a, false) /\
  ct a ParseErrors = 0 /\ ct a TotalEvents = len a_log /\
  (forall c, ct a c = occurrences c (concat (map bumps a_log))) /\
  Denies a = omap deny_of a_log /\ seen a = list_to_set (map line_type a_log) /\
  forall k, k <> [] -> default 0 (Dests a !! k) = how_many (fun l => label_of l = k) a_log.
Proof. apply (report_reads_log toy_sign (Some signer) a_log); [exact toy_sign_wf|exact a_log_ok|exact a_log_fits]. Defined.
End Witness.
