(* ===== verification/ReportText.v ===== *)
(** What a reader of the rendered report sees: the tables of markdown.go read
    back as Markdown does, whatever the event log held. *)
From S2P Require Import Prelude GoStrings GoPath Telemetry Json Report.

Open Scope Z_scope.

(** * Cells *)

(** The bytes that end a line or a cell, or begin code, a tag or a link. *)
Definition markup : bytes := [13; 10; 124; 96; 60; 91; 93].
Definition plain_text (s : bytes) : Prop := Forall (fun b => b ∉ markup) s.

#[global] Instance plain_text_dec s : Decision (plain_text s).
Proof. unfold plain_text. apply _. Defined.

Lemma plain_app s t : plain_text s -> plain_text t -> plain_text (s ++ t).
Proof. intros. by apply Forall_app. Qed.

Lemma plain_lit s : bool_decide (plain_text s) = true -> plain_text s.
Proof. by apply bool_decide_eq_true_1. Qed.

(** A replacement removes its byte, and brings in nothing but its text. *)
Lemma ReplaceByte_spec (P : Z -> Prop) old new s : Forall P new -> Forall (fun b => b = old \/ P b) s -> Forall P (ReplaceByte old new s).
Proof.
  intros Hn. induction 1 as [|b s Hb _ IH]; [constructor|]. unfold ReplaceByte in *. cbn [map concat]. apply Forall_app. split; [|exact IH].
  destruct (Z.eqb_spec b old) as [->|Hne]; [done|]. repeat constructor. by destruct Hb.
Qed.

Lemma Forall_TrimSpace (P : Z -> Prop) s : Forall P s -> Forall P (TrimSpace s).
Proof.
  intros Hs. unfold TrimSpace, TrimFunc. change (rev (drop_while _ (rev (drop_while _ (chunks s))))) with (trim (fun c => IsSpace c.1) (chunks s)).
  destruct (trim_mid (fun c => IsSpace c.1) (chunks s)) as (a & c & E). pose proof (chunks_concat s) as Ec. rewrite E in Ec.
  rewrite !fmap_app, !concat_app in Ec. rewrite <- Ec in Hs. by apply Forall_app in Hs as [_ [? _]%Forall_app].
Qed.

Lemma mdCell_plain s : plain_text (mdCell s).
Proof.
  apply Forall_TrimSpace. unfold plain_text, markup.
  repeat (apply ReplaceByte_spec; [repeat constructor; by apply (bool_decide_unpack _)|]).
  apply Forall_forall. intros b _. destruct (decide (b ∈ [13; 10; 124; 96; 60; 91; 93])) as [Hb|Hb]; [|tauto].
  rewrite !elem_of_cons, elem_of_nil in Hb. tauto.
Qed.

Lemma digits_plain_text s : digits s -> plain_text s.
Proof.
  intros Hs. eapply Forall_impl; [exact Hs|]. intros b Hb. cbn in Hb. unfold markup. rewrite !not_elem_of_cons.
  repeat split; try lia. apply not_elem_of_nil.
Qed.

Lemma Itoa_digits v : Forall (fun b => b = 45 \/ 48 <= b <= 57) (Itoa v).
Proof.
  assert (forall w, 0 <= w -> digits (Uitoa w)) as Hu.
  { intros w Hw. by destruct (Uitoa_spec w Hw) as [_ (c & t & -> & Hd & _)]. }
  unfold Itoa. destruct (Z.ltb_spec v 0); [constructor; [by left|]|]; (eapply Forall_impl; [apply Hu; lia|]); intros b Hb; by right.
Qed.

Lemma Itoa_plain v : plain_text (Itoa v).
Proof.
  eapply Forall_impl; [apply Itoa_digits|]. intros b [->|Hb]; [by apply (bool_decide_unpack _)|]. pose proof (digits_plain_text [b]) as Hp.
  by apply Forall_cons in Hp as [? _]; [|constructor].
Qed.

Lemma plain_no b s : b ∈ markup -> plain_text s -> b ∉ s.
Proof. unfold plain_text. rewrite Forall_forall. intros Hb Hs Hin. by apply (Hs b). Qed.

(** * Rows

    A row of a table is split at its pipes; a pipe after a backslash belongs
    to its cell.  The first and the last pipe delimit the row, and the cells
    are trimmed. *)
Fixpoint row_split (s cur : bytes) (escaped : bool) : list bytes :=
  match s with
  | [] => [cur]
  | b :: s' => if (b =? 124) && negb escaped then cur :: row_split s' [] false else row_split s' (cur ++ [b]) (b =? 92)
  end.

Definition row_cells (line : bytes) : list bytes := map TrimSpace (removelast (tail (row_split line [] false))).

Example row_ex : row_cells (str "| a\\| b |  c\\ |") = [str "a\\| b"; str "c\\"].
Proof. vm_compute. reflexivity. Qed.

(** A cell between spaces has no pipe of its own, and its last byte is not a
    backslash. *)
Lemma row_split_cell u v cur e : 124 ∉ u -> row_split (u ++ 32 :: 124 :: v) cur e = (cur ++ u ++ [32]) :: row_split v [] false.
Proof.
  revert cur e. induction u as [|b u IH]; intros cur e Hu; [reflexivity|].
  rewrite not_elem_of_cons in Hu. destruct Hu as [Hb Hu]. cbn [app row_split].
  rewrite (proj2 (Z.eqb_neq b 124)) by done. cbn [andb]. rewrite IH by done. by rewrite <- !app_assoc.
Qed.

Lemma trim_pad {A} (f : A -> bool) x l y : f x = true -> f y = true -> trim f (x :: l ++ [y]) = trim f l.
Proof.
  intros Hx Hy. unfold trim. cbn [drop_while]. rewrite Hx.
  assert (forall m, rev (drop_while f (rev (drop_while f (m ++ [y])))) = rev (drop_while f (rev (drop_while f m)))) as E; [|apply E].
  induction m as [|a m IH]; cbn [app drop_while]; [by rewrite Hy|]. destruct (f a); [done|].
  change (a :: m ++ [y]) with ((a :: m) ++ [y]). rewrite rev_app_distr. cbn [rev app drop_while]. by rewrite Hy.
Qed.

Lemma TrimSpace_pad c : TrimSpace (32 :: c ++ [32]) = TrimSpace c.
Proof.
  assert (forall s, TrimSpace s = concat (trim (fun c => IsSpace c.1) (chunks s)).*2) as E by done.
  rewrite !E. pose proof (chunks_app_ascii [] 32 (c ++ [32])) as E1. cbn [app] in E1. rewrite E1 by lia.
  rewrite (chunks_app_ascii c 32 []) by lia. change (chunks []) with (@nil (Z * bytes)). cbn [app]. by rewrite trim_pad.
Qed.

Lemma TrimSpace_fixed s : Forall (fun b => b < 128 /\ IsSpace b = false) s -> TrimSpace s = s.
Proof.
  intros Hs. rewrite TrimSpace_ascii by (apply is_ascii_Forall; eapply Forall_impl; [exact Hs|]; cbn; tauto).
  assert (forall t, Forall (fun b => b < 128 /\ IsSpace b = false) t -> drop_while IsSpace t = t) as Ed
    by (intros t [|b t' [_ Hb] _]; [done|]; cbn; by rewrite Hb).
  unfold trim. rewrite (Ed s) by done. rewrite Ed by (apply Forall_rev; exact Hs). apply rev_involutive.
Qed.

Lemma digit_no_space b : 48 <= b <= 57 -> b < 128 /\ IsSpace b = false.
Proof. intros Hb. split; [lia|]. unfold IsSpace, in_range. lia. Qed.

Lemma TrimSpace_Itoa v : TrimSpace (Itoa v) = Itoa v.
Proof. apply TrimSpace_fixed. eapply Forall_impl; [apply Itoa_digits|]. intros b [->|Hb]; [done|by apply digit_no_space]. Qed.

Definition cell_text (c : bytes) : Prop := plain_text c /\ TrimSpace c = c.

Lemma mdCell_cell s : cell_text (mdCell s).
Proof. split; [apply mdCell_plain|apply Trim_idem]. Qed.
Lemma Itoa_cell v : cell_text (Itoa v).
Proof. split; [apply Itoa_plain|apply TrimSpace_Itoa]. Qed.

(** The row of some cells, as the code prints it. *)
Definition row_of (cs : list bytes) : bytes := 124 :: concat (map (fun c => 32 :: c ++ [32; 124]) cs).

Lemma row_of_cells cs : Forall cell_text cs -> row_cells (row_of cs) = cs.
Proof.
  intros Hcs. unfold row_cells, row_of. cbn [row_split Z.eqb Pos.eqb andb negb].
  assert (row_split (concat (map (fun c => 32 :: c ++ [32; 124]) cs)) [] false = map (fun c => 32 :: c ++ [32]) cs ++ [[]]) as E.
  { clear -Hcs. induction Hcs as [|c cs [Hc _] _ IH]; [done|]. cbn [map concat].
    replace ((32 :: c ++ [32; 124]) ++ concat (map (fun c => 32 :: c ++ [32; 124]) cs))
      with ((32 :: c) ++ 32 :: 124 :: concat (map (fun c => 32 :: c ++ [32; 124]) cs)) by (cbn [app]; by rewrite <- app_assoc).
    rewrite row_split_cell, IH; [done|]. apply not_elem_of_cons. split; [done|]. by apply plain_no; [apply (bool_decide_unpack _)|]. }
  rewrite E. cbn [tail]. rewrite removelast_last, map_map. clear E. induction Hcs as [|c cs [_ Hc] _ IH]; [done|].
  cbn [map]. by rewrite TrimSpace_pad, Hc, IH.
Qed.

(** * The tables *)

Definition deny_cells (d : Deny) : list bytes :=
  [mdCell (d_Comm d); mdCell (d_Protocol d); mdCell (d_Dst d); Itoa (d_Dport d); mdCell (d_Reason d); mdCell (dashIfEmpty (d_HookFamily d))].
Definition dest_cells (d : bytes * Z) : list bytes := [mdCell d.1; Itoa d.2].

Lemma deny_row_of d : deny_row d = row_of (deny_cells d) ++ [10].
Proof. unfold deny_row, ln, row_of, deny_cells. cbn [map concat str app]. repeat (rewrite <- app_assoc; cbn [app]). reflexivity. Qed.
Lemma dest_row_of d : dest_row d = row_of (dest_cells d) ++ [10].
Proof. unfold dest_row, ln, row_of, dest_cells. cbn [map concat str app]. repeat (rewrite <- app_assoc; cbn [app]). reflexivity. Qed.

Lemma deny_cells_text d : Forall cell_text (deny_cells d).
Proof. repeat constructor; try apply mdCell_plain; try apply Itoa_plain; try apply TrimSpace_Itoa; apply Trim_idem. Qed.
Lemma dest_cells_text d : Forall cell_text (dest_cells d).
Proof. repeat constructor; try apply mdCell_plain; try apply Itoa_plain; try apply TrimSpace_Itoa; apply Trim_idem. Qed.

Lemma cells_plain {A} (cells : A -> list bytes) l : (forall d, Forall cell_text (cells d)) -> Forall (Forall plain_text) (map cells l).
Proof. intros Hc. apply Forall_fmap, Forall_forall. intros d _. eapply Forall_impl; [apply Hc|]. by intros c [? _]. Qed.

Lemma row_of_line cs : Forall cell_text cs -> 10 ∉ row_of cs.
Proof.
  intros Hcs. unfold row_of. apply not_elem_of_cons. split; [done|]. induction Hcs as [|c cs [Hc _] _ IH]; [apply not_elem_of_nil|].
  cbn [map concat]. rewrite not_elem_of_app. split; [|exact IH]. rewrite not_elem_of_cons, not_elem_of_app. split_and!; [done| |by apply (bool_decide_unpack _)].
  apply plain_no; [by apply (bool_decide_unpack _)|done].
Qed.

(** ** Lines *)

Definition lines (s : bytes) : list bytes := Split s 10.

Lemma lines_ln l s : 10 ∉ l -> lines (ln l ++ s) = l :: lines s.
Proof. intros Hl. unfold lines, ln. rewrite <- app_assoc. cbn [app]. rewrite Split_app. unfold Split at 1. by rewrite split_aux_plain. Qed.

Lemma lines_rows {A} (row cells : A -> list _) l s :
  (forall d, row d = row_of (cells d) ++ [10]) -> (forall d, Forall cell_text (cells d)) ->
  lines (concat (map row l) ++ s) = map (fun d => row_of (cells d)) l ++ lines s.
Proof.
  intros Hr Hc. induction l as [|d l IH]; [done|]. cbn [map concat]. rewrite Hr, <- app_assoc.
  change (row_of (cells d) ++ [10]) with (ln (row_of (cells d))). rewrite lines_ln by (by apply row_of_line). cbn [app]. by rewrite IH.
Qed.

Lemma lines_ends s t : lines ((s ++ [10]) ++ t) = lines s ++ lines t.
Proof. unfold lines. rewrite <- app_assoc. cbn [app]. apply Split_app. Qed.

(** What follows a section that ends its last line starts on a line of its own. *)
Definition ended (s : bytes) : Prop := exists t, s = t ++ [10].

(** Steps over the lines that are written out. *)
Ltac step_lines := repeat (first [rewrite lines_ln by (apply (bool_decide_unpack _); vm_compute; exact I)]).

Lemma ended_ln s : ended (ln s).
Proof. by exists s. Qed.
Lemma ended_app s t : ended t -> ended (s ++ t).
Proof. intros [u ->]. exists (s ++ u). by rewrite app_assoc. Qed.
Lemma ended_opt s t (b : bool) : ended s -> ended t -> ended (s ++ if b then t else []).
Proof. intros Hs Ht. destruct b; [by apply ended_app|by rewrite app_nil_r]. Qed.
Lemma ended_when P (d : Decision P) s t : ended s -> ended t -> ended (s ++ if d then t else []).
Proof. intros Hs Ht. destruct d; [by apply ended_app|by rewrite app_nil_r]. Qed.

Lemma render_verdict_ended a : ended (render_verdict a).
Proof.
  unfold render_verdict. rewrite !app_assoc.
  apply ended_opt; [apply ended_when; [apply ended_opt; [apply ended_app, ended_ln|]|]|]; apply ended_app, ended_ln.
Qed.

Lemma render_coverage_ended a : ended (render_coverage a).
Proof. unfold render_coverage. rewrite !app_assoc. apply ended_app, ended_ln. Qed.

(** A table: its header, its separator, its rows. *)
Definition table_reads (header : list bytes) (ls : list bytes) (rows : list (list bytes)) : Prop :=
  exists h sep body, ls = h :: sep :: body /\ row_cells h = header /\ map row_cells body = rows.

Lemma table_rows {A} (cells : A -> list bytes) l : (forall d, Forall cell_text (cells d)) ->
  map row_cells (map (fun d => row_of (cells d)) l) = map cells l.
Proof. intros Hc. rewrite map_map. apply map_ext. intros d. by apply row_of_cells. Qed.

Lemma destinations_lines a s : exists ls, lines (render_destinations a ++ s) = [[]; str "## Destinations"; []] ++ ls ++ lines s /\
  if decide (Dests a = ∅) then ls = [str "_none observed_"]
  else table_reads [str "destination"; str "egress events"] ls (map dest_cells (topDests a 100)).
Proof.
  unfold render_destinations, nl. rewrite <- !app_assoc. change ([10] ++ ?t) with (ln [] ++ t). step_lines.
  case_decide.
  - rewrite <- !app_assoc. change ([10] ++ ?t) with (ln [] ++ t). step_lines. by exists [str "_none observed_"].
  - rewrite <- !app_assoc. change ([10] ++ ?t) with (ln [] ++ t). step_lines. rewrite (lines_rows dest_row dest_cells) by (apply dest_row_of || apply dest_cells_text).
    eexists (_ :: _ :: map (fun d => row_of (dest_cells d)) (topDests a 100)). split; [reflexivity|]. eexists _, _, _. split; [reflexivity|]. split; [by vm_compute|]. apply table_rows, dest_cells_text.
Qed.

Lemma denies_lines a s : exists ls, lines (render_denies a ++ s) = [[]; str "## Denies"; []] ++ ls ++ lines s /\
  if decide (Denies a = []) then ls = [str "_none_"]
  else table_reads (map str ["process"; "proto"; "destination"; "port"; "reason"; "hook"]%string) ls (map deny_cells (Denies a)).
Proof.
  unfold render_denies, nl. rewrite <- !app_assoc. change ([10] ++ ?t) with (ln [] ++ t). step_lines.
  case_decide.
  - rewrite <- !app_assoc. change ([10] ++ ?t) with (ln [] ++ t). step_lines. by exists [str "_none_"].
  - rewrite <- !app_assoc. change ([10] ++ ?t) with (ln [] ++ t). step_lines. rewrite (lines_rows deny_row deny_cells) by (apply deny_row_of || apply deny_cells_text).
    eexists (_ :: _ :: map (fun d => row_of (deny_cells d)) (Denies a)). split; [reflexivity|]. eexists _, _, _. split; [reflexivity|]. split; [by vm_compute|]. apply table_rows, deny_cells_text.
Qed.

(** * The hundred destinations *)

#[global] Instance dest_le_trans : Transitive dest_le.
Proof. intros x y z [H1|[H1 B1]] [H2|[H2 B2]]; unfold dest_le; try (left; lia). right. split; [lia|]. by etrans. Qed.
#[global] Instance dest_le_antisymm : AntiSymm (=) dest_le.
Proof. intros [x i] [y j] [H1|[H1 B1]] [H2|[H2 B2]]; cbn in *; try lia. subst. f_equal. by apply (anti_symm ble). Qed.
#[global] Instance dest_le_total : Total dest_le.
Proof.
  intros x y. unfold dest_le. destruct (Z.lt_trichotomy x.2 y.2) as [|[E|]]; [by right; left| |by left; left].
  destruct (total ble x.1 y.1); [left|right]; right; auto.
Qed.

(** Whatever the order in which the map is ranged over and whatever sorting
    algorithm is used, the table is the same. *)
Lemma topDests_order a n l : l ≡ₚ map_to_list (Dests a) -> StronglySorted dest_le l -> take n l = topDests a n.
Proof.
  intros Hl Hs. unfold topDests. f_equal. apply (StronglySorted_unique dest_le); [done|apply StronglySorted_merge_sort; apply _|].
  by rewrite Hl, merge_sort_Permutation.
Qed.

(** A destination that is not among the first [n] has at most as many events as
    each that is. *)
Lemma topDests_top a n k v : Dests a !! k = Some v ->
  (k, v) ∈ topDests a n \/ (length (topDests a n) = n /\ Forall (fun d => dest_le d (k, v)) (topDests a n)).
Proof.
  intros Hk. unfold topDests. set (l := merge_sort dest_le _).
  assert ((k, v) ∈ l) as Hin by (unfold l; rewrite merge_sort_Permutation; by apply elem_of_map_to_list).
  assert (StronglySorted dest_le l) as Hs by (apply StronglySorted_merge_sort; apply _).
  rewrite <- (take_drop n l) in Hin, Hs. apply elem_of_app in Hin as [Hin|Hin]; [by left|]. right.
  split.
  - rewrite length_take. apply list_elem_of_lookup_1 in Hin as [i Hi]. apply lookup_lt_Some in Hi. rewrite length_drop in Hi. lia.
  - apply Forall_forall. intros d Hd. by eapply StronglySorted_app_1_elem_of.
Qed.

(** * Theorems *)

(** C23: In the lines of the detailed report the section of the destinations is
    a table with one row for each of the hundred destinations with most
    events, and that of the denials one with a row for each denial in the
    order of the log; read as Markdown does, each row has exactly its cells,
    and no cell holds a byte that ends it or begins markup, whatever the log
    held. *)
Theorem report_tables_exact a : exists before dests denies after,
  lines (RenderDetailed a) =
    before ++ [[]; str "## Destinations"; []] ++ dests ++ [[]; str "## Denies"; []] ++ denies ++ [] :: str "## Process & filesystem" :: after /\
  (if decide (Dests a = ∅) then dests = [str "_none observed_"]
   else table_reads [str "destination"; str "egress events"] dests (map dest_cells (topDests a 100))) /\
  (if decide (Denies a = []) then denies = [str "_none_"]
   else table_reads (map str ["process"; "proto"; "destination"; "port"; "reason"; "hook"]%string) denies (map deny_cells (Denies a))) /\
  Forall (Forall plain_text) (map dest_cells (topDests a 100) ++ map deny_cells (Denies a)).
Proof.
  unfold RenderDetailed. destruct (ended_app (render_verdict a) (render_coverage a) (render_coverage_ended a)) as [t Et].
  rewrite (app_assoc (render_verdict a)), Et, lines_ends. destruct (destinations_lines a (render_denies a ++ render_activity a ++ render_signals a ++
    render_health a ++ render_integrity a)) as (dests & -> & Hdests).
  destruct (denies_lines a (render_activity a ++ render_signals a ++ render_health a ++ render_integrity a)) as (denies & -> & Hdenies).
  unfold render_activity at 1. unfold nl at 1. rewrite <- !app_assoc. change ([10] ++ ?t) with (ln [] ++ t). step_lines.
  eexists _, dests, denies, _. split; [reflexivity|]. split; [done|]. split; [done|].
  apply Forall_app. split; [apply (cells_plain dest_cells), dest_cells_text|apply (cells_plain deny_cells), deny_cells_text].
Qed.

(** The report announces no anomalies exactly when the log has an event
    other than the agent's own records and no tampering, no denial and no
    egress at the backstop. *)
Theorem verdict_clean a : (forall c, 0 <= ct a c) ->
  verdict a = str "✅ no anomalies (IPv4 TCP/UDP in scope)" <->
  ct a BPFTamper = 0 /\ Denies a = [] /\ ct a EgressBackstop = 0 /\ 0 < ct a NonMetaEvents.
Proof.
  intros Hc. unfold verdict, CapturedNothing. pose proof (Hc BPFTamper). pose proof (Hc EgressBackstop). pose proof (Hc NonMetaEvents).
  destruct (Z.ltb_spec 0 (ct a BPFTamper)); [split; [done|lia]|]. destruct (decide (Denies a <> [])); [split; [done|tauto]|].
  destruct (Z.ltb_spec 0 (ct a EgressBackstop)); [split; [done|lia]|]. destruct (Z.eqb_spec (ct a NonMetaEvents) 0); [split; [done|lia]|].
  split; [|done]. intros _. split_and!; try lia. by apply dec_stable.
Qed.

(** * Examples *)

(** The names of degraded hooks and the keys of dropped events are printed as
    they are: a meta record can write any line into the report. *)
Definition forged : Aggregate :=
  countMeta (js "{'bpf':[{'name':'x\n\n## Denies\n\n_none_'}],'mode':'detect\n# forged'}") new_aggregate.

Example forged_heading : length (filter (fun l => l = str "## Denies") (lines (RenderDetailed forged))) = 2%nat /\
  str "# forged · 0 events" ∈ lines (RenderDetailed forged).
Proof. split; [vm_compute; reflexivity|]. apply (bool_decide_unpack _). vm_compute. exact I. Qed.

Module Witness.
Lemma verdict_clean_witness : verdict new_aggregate <> str "✅ no anomalies (IPv4 TCP/UDP in scope)".
Proof.
  assert (forall c, 0 <= ct new_aggregate c) as Hc by done. intros E. apply (verdict_clean new_aggregate Hc) in E. destruct E as (_ & _ & _ & E). discriminate E.
Defined.
End Witness.
