(* ===== verification/Readiness.v ===== *)
(** Readiness and exit of the agent as the commands see them: the status file
    that the agent replaces atomically (internal/atomicwrite,
    internal/agent/agent_linux_runutil.go), and the polls of
    internal/actioncli/main.go: [waitForReady], [readReady], [pidAlive],
    [waitForAgentExit].

    A duration and a time are nanoseconds.  What a poll finds is an argument:
    the readings of the clock in the order they are made, the status file, and
    the answer to signal 0. *)
From S2P Require Import Prelude GoStrings Telemetry Json.

Open Scope Z_scope.

Definition Second : Z := 1000000000.
Definition Millisecond : Z := 1000000.

(** * Replacing a file: atomicwrite.Bytes *)

Section Atomic.
(** The files by path. *)
Abbreviation disk := (gmap bytes bytes).

(** The answers of the file system: the name that [os.CreateTemp] found, how
    many bytes a failing write has written, and the other failures. *)
Record file_io := mkIO { io_create : option bytes; io_write : option nat; io_sync : bool; io_close : bool; io_chmod : bool;
  io_rename : bool; io_remove : bool }.

Inductive write_err := ErrEmptyPath | ErrCreate | ErrWrite (close_too : bool) | ErrSync (close_too : bool) | ErrClose | ErrChmod | ErrRename.

(** The states of the disk in order, the first one before the call, and the
    result.  A write appears in any number of pieces. *)
Definition Bytes (path data : bytes) (perm : Z) (io : file_io) (d : disk) : list disk * result write_err unit :=
  if decide (path = []) then ([d], Err ErrEmptyPath)
  else match io_create io with
       | None => ([d], Err ErrCreate)
       | Some tmp =>
         let written (n : nat) := map (fun k => <[tmp := take k data]> d) (seq 0 (S n)) in
         let removed := if io_remove io then [] else [delete tmp d] in
         let all := d :: written (length data) in
         match io_write io with
         | Some n => (d :: written n ++ removed, Err (ErrWrite (io_close io)))
         | None =>
           if io_sync io then (all ++ removed, Err (ErrSync (io_close io)))
           else if io_close io then (all ++ removed, Err ErrClose)
           else if negb (perm =? 0) && io_chmod io then (all ++ removed, Err ErrChmod)
           else if io_rename io then (all ++ removed, Err ErrRename)
           else (all ++ [<[path := data]> (delete tmp d)], Ok tt)
         end
       end.
End Atomic.

(** * The status file *)

(** [json.Marshal] of the payload of [writeAgentStatus]. *)
Definition status_payload (ok : bool) : bytes := Marshal (JObj [(str "ok", JBool ok); (str "version", JNum (str "1"))]).

Definition maxReadyStatusJSONBytes : Z := 512 * 1024.

(** The four results of [classifyReadyStatus], of which one is true. *)
Inductive readiness := Ready | ExplicitFail | Malformed | Incomplete.

#[global] Instance readiness_eq_dec : EqDecision readiness.
Proof. solve_decision. Defined.

(** A [json.RawMessage] is kept as the value it is the text of. *)
Definition raw_message (old v : json) : option json := Some v.

Definition classifyReadyStatus (raw : bytes) : readiness :=
  if maxReadyStatusJSONBytes <? len raw then Malformed
  else
    let text := TrimSpace raw in
    if decide (text = []) then Malformed
    else match Unmarshal (to_map raw_message JNull) ∅ text with
         | None => Malformed
         | Some m =>
           match m !! str "ok" with
           | None => Incomplete
           | Some JNull => Malformed
           | Some v =>
             match to_bool false v with
             | None => Malformed
             | Some true => Ready
             | Some false => ExplicitFail
             end
           end
         end.

(** Whether it is ready, and whether that is known. *)
Definition readReady (read : option bytes) : bool * bool :=
  match read with
  | None => (false, false)
  | Some raw => match classifyReadyStatus raw with Ready => (true, true) | ExplicitFail => (false, true) | _ => (false, false) end
  end.

(** * Polling *)

(** The answer to [kill(pid, 0)]. *)
Inductive signal_answer := Delivered | NotPermitted | NoProcess.

#[global] Instance signal_answer_eq_dec : EqDecision signal_answer.
Proof. solve_decision. Defined.

Definition pidAlive (pid : Z) (answer : signal_answer) : bool :=
  if pid <=? 0 then false else bool_decide (answer = Delivered).

(** One round of a loop: the clock at its head, the status file, the clock when
    the window of malformed reads opens, the clock of [time.Since], and the
    answer to the signal. *)
Record poll := mkPoll { p_head : Z; p_status : option bytes; p_open : Z; p_since : Z; p_signal : signal_answer }.

Inductive outcome := OReady | OExplicitNotReady | OMalformed | OChildExit | OTimeout.

#[global] Instance outcome_eq_dec : EqDecision outcome.
Proof. solve_decision. Defined.

Definition malformedBudget : Z := 45 * Second.

(** A round after the check of the deadline: the outcome, or the window. *)
Definition readyRound (pid : Z) (p : poll) (since : option Z) : outcome + option Z :=
  let alive (since : option Z) := if pidAlive pid (p_signal p) then inr since else inl OChildExit in
  match p_status p with
  | Some raw =>
    match classifyReadyStatus raw with
    | Ready => inl OReady
    | ExplicitFail => inl OExplicitNotReady
    | Malformed =>
      let t := default (p_open p) since in
      if malformedBudget <=? p_since p - t then inl OMalformed else alive (Some t)
    | Incomplete => alive None
    end
  | None => alive None
  end.

(** The loop from round [k]; [None] is out of fuel. *)
Fixpoint readyLoop (fuel : nat) (polls : nat -> poll) (deadline pid : Z) (k : nat) (since : option Z) : option outcome :=
  match fuel with
  | O => None
  | S fuel' =>
    let p := polls k in
    if p_head p <? deadline then
      match readyRound pid p since with
      | inl o => Some o
      | inr since' => readyLoop fuel' polls deadline pid (S k) since'
      end
    else Some OTimeout
  end.

Definition pollInterval : Z := 150 * Millisecond.

(** [start] is the clock at the call; the rounds sleep 150 ms between them, so
    that so many fit into the timeout. *)
Definition readyFuel (timeout : Z) : nat := Z.to_nat (timeout / pollInterval) + 2.
Definition waitForReady (start : Z) (polls : nat -> poll) (timeout pid : Z) : option outcome :=
  readyLoop (readyFuel timeout) polls (start + timeout) pid 0 None.

(** A round of [waitForAgentExit]: the signal, then the clock. *)
Fixpoint exitLoop (fuel : nat) (polls : nat -> signal_answer * Z) (deadline pid : Z) (k : nat) : option bool :=
  match fuel with
  | O => None
  | S fuel' =>
    if negb (pidAlive pid (polls k).1) then Some true
    else if negb ((polls k).2 <? deadline) then Some false
    else exitLoop fuel' polls deadline pid (S k)
  end.

Definition exitFuel (timeout tick : Z) : nat := Z.to_nat (timeout / tick) + 2.
Definition waitForAgentExit (start : Z) (polls : nat -> signal_answer * Z) (pid timeout tick : Z) : option bool :=
  if (pid <=? 0) || (timeout <=? 0) || (tick <=? 0) then Some false
  else exitLoop (exitFuel timeout tick) polls (start + timeout) pid 0.

(** * The file is old or new *)

Section AtomicLaws.
Context (path data : bytes) (perm : Z) (io : file_io) (d : gmap bytes bytes).

(** [os.CreateTemp] opens a file that did not exist; its name is random. *)
Hypothesis fresh : forall tmp, io_create io = Some tmp -> d !! tmp = None /\ tmp <> path.

Definition old_or_new (d' : gmap bytes bytes) : Prop := d' !! path = d !! path \/ d' !! path = Some data.

Lemma Bytes_states : Forall old_or_new (Bytes path data perm io d).1.
Proof.
  assert (Forall old_or_new [d]) as Hd by (apply Forall_singleton; by left).
  unfold Bytes. case_decide; [done|]. destruct (io_create io) as [tmp|] eqn:E; [|done].
  destruct (fresh tmp eq_refl) as [_ Hne].
  assert (forall n, Forall old_or_new (map (fun k => <[tmp := take k data]> d) (seq 0 n))) as Hw
    by (intros n; apply Forall_fmap, Forall_forall; intros k _; left; by apply lookup_insert_ne).
  assert (Forall old_or_new (if io_remove io then [] else [delete tmp d])) as Hr
    by (destruct (io_remove io); [apply Forall_nil_2|]; apply Forall_singleton; left; by apply lookup_delete_ne).
  assert (Forall old_or_new [<[path := data]> (delete tmp d)]) as Hn by (apply Forall_singleton; right; apply lookup_insert_eq).
  repeat match goal with |- context [if ?b then (_, _) else _] => destruct b | |- context [match io_write io with _ => _ end] => destruct (io_write io) end;
    cbn [fst]; repeat first [exact Hr|exact Hn|apply Hw|apply Forall_app_2|apply Forall_cons_2; [by left|]].
Qed.

(** What is left: on success the data under its name and nothing else, on an
    error the disk as it was, unless the temporary file could not be removed. *)
Lemma Bytes_final : exists states d', (Bytes path data perm io d).1 = states ++ [d'] /\
  match (Bytes path data perm io d).2 with
  | Ok _ => d' = <[path := data]> d
  | Err _ => d' !! path = d !! path /\ (io_remove io = false -> d' = d)
  end.
Proof.
  assert (forall tmp, io_create io = Some tmp -> delete tmp d = d) as Hdel by (intros tmp Ht; apply delete_id, (fresh tmp Ht)).
  assert (exists states d', [d] = states ++ [d'] /\ d' !! path = d !! path /\ (io_remove io = false -> d' = d)) as Hd by by exists [], d.
  unfold Bytes. case_decide; [exact Hd|]. destruct (io_create io) as [tmp|] eqn:E; [|exact Hd].
  destruct (fresh tmp eq_refl) as [_ Hne].
  assert (forall n, exists states d', d :: map (fun k => <[tmp := take k data]> d) (seq 0 (S n)) ++ (if io_remove io then [] else [delete tmp d]) = states ++ [d'] /\
    d' !! path = d !! path /\ (io_remove io = false -> d' = d)) as He.
  { intros n. destruct (io_remove io).
    - rewrite app_nil_r, seq_S, map_app. cbn [map]. eexists (d :: _), _. split; [reflexivity|]. split; [by apply lookup_insert_ne|done].
    - rewrite (Hdel tmp eq_refl). by exists (d :: map (fun k => <[tmp := take k data]> d) (seq 0 (S n))), d. }
  assert (exists states d', (d :: map (fun k => <[tmp := take k data]> d) (seq 0 (S (length data)))) ++ [<[path := data]> (delete tmp d)] = states ++ [d'] /\ d' = <[path := data]> d) as Hok.
  { rewrite (Hdel tmp eq_refl). by eexists _, _. }
  repeat match goal with |- context [if ?b then (_, _) else _] => destruct b | |- context [match io_write io with _ => _ end] => destruct (io_write io) end;
    cbn [fst snd]; first [exact Hok|apply He].
Qed.
End AtomicLaws.

Lemma status_classified ok : classifyReadyStatus (status_payload ok) = if ok then Ready else ExplicitFail.
Proof. destruct ok; vm_compute; reflexivity. Qed.

(** C21: While the agent replaces its status file, whatever fails and in however
    many pieces the write appears, a command that reads the file at any moment
    classifies the old content or the written verdict, never a part of it;
    on success it finds the verdict, and on an error the old file. *)
Theorem status_file_atomic path ok io d :
  (forall tmp, io_create io = Some tmp -> d !! tmp = None /\ tmp <> path) ->
  let run := Bytes path (status_payload ok) 0x1A4 io d in
  Forall (fun d' => readReady (d' !! path) = readReady (d !! path) \/ readReady (d' !! path) = (ok, true)) run.1 /\
  exists states d', run.1 = states ++ [d'] /\
    match run.2 with Ok _ => readReady (d' !! path) = (ok, true) | Err _ => d' !! path = d !! path end.
Proof.
  intros Hf run. assert (readReady (Some (status_payload ok)) = (ok, true)) as Hr by (unfold readReady; rewrite status_classified; by destruct ok).
  split.
  - eapply Forall_impl; [by apply Bytes_states|]. intros d' [-> | ->]; [by left|by right].
  - destruct (Bytes_final path (status_payload ok) 0x1A4 io d Hf) as (states & d' & E & Hd). exists states, d'. split; [exact E|]. fold run in Hd.
    destruct (run.2); [subst d'; by rewrite lookup_insert_eq|by destruct Hd].
Qed.

(** * What a poll decides *)

Section Polls.
Context (polls : nat -> poll) (deadline pid : Z).

(** The class of the status file at round [k]. *)
Definition seen_at (k : nat) : option readiness := classifyReadyStatus <$> p_status (polls k).
Definition malformed_at (k : nat) : Prop := seen_at k = Some Malformed.

(** The file has been malformed at every round since one that is 45 s ago. *)
Definition stuck (k : nat) : Prop :=
  exists j, (j <= k)%nat /\ (forall i, (j <= i <= k)%nat -> malformed_at i) /\ malformedBudget <= p_since (polls k) - p_open (polls j).

Inductive decides (k : nat) : outcome -> Prop :=
  | decides_timeout : deadline <= p_head (polls k) -> decides k OTimeout
  | decides_ready : p_head (polls k) < deadline -> seen_at k = Some Ready -> decides k OReady
  | decides_not_ready : p_head (polls k) < deadline -> seen_at k = Some ExplicitFail -> decides k OExplicitNotReady
  | decides_malformed : p_head (polls k) < deadline -> stuck k -> decides k OMalformed
  | decides_exit : p_head (polls k) < deadline -> seen_at k <> Some Ready -> seen_at k <> Some ExplicitFail -> ~ stuck k ->
      pidAlive pid (p_signal (polls k)) = false -> decides k OChildExit.

Lemma stuck_malformed k : stuck k -> malformed_at k.
Proof. intros (j & Hj & Hm & _). apply Hm. lia. Qed.

Lemma decides_unique k o o' : decides k o -> decides k o' -> o = o'.
Proof.
  intros H H'; destruct H, H'; try done; try lia; try congruence; try contradiction;
    match goal with H : stuck _ |- _ => apply stuck_malformed in H; unfold malformed_at in H; congruence end.
Qed.

(** Where the window of malformed reads has opened, before round [k]. *)
Definition window (k : nat) (since : option Z) : Prop :=
  match since with
  | None => k = O \/ (exists k', k = S k' /\ ~ malformed_at k')
  | Some t => exists j, (j < k)%nat /\ (forall i, (j <= i < k)%nat -> malformed_at i) /\ (j = O \/ exists j', j = S j' /\ ~ malformed_at j') /\
      t = p_open (polls j)
  end.

Hypothesis opens_in_order : forall i j, (i <= j)%nat -> p_open (polls i) <= p_open (polls j).

Lemma stuck_window k since : window k since -> malformed_at k ->
  (stuck k <-> malformedBudget <= p_since (polls k) - default (p_open (polls k)) since).
Proof.
  intros Hw Hk. split.
  - intros (j & Hj & Hm & Hb). destruct since as [t|]; cbn [default from_option id].
    + destruct Hw as (j0 & Hj0 & Hm0 & Hs & ->). assert (j0 <= j)%nat.
      { destruct Hs as [->|(j' & -> & Hn)]; [lia|]. destruct (le_lt_dec (S j') j); [done|]. exfalso. apply Hn, Hm. lia. }
      pose proof (opens_in_order j0 j ltac:(lia)). lia.
    + destruct Hw as [->|(k' & -> & Hn)].
      * by replace j with O in Hb by lia.
      * destruct (decide (j = S k')) as [->|]; [done|]. exfalso. apply Hn, Hm. lia.
  - destruct since as [t|]; cbn [default from_option id]; intros Hb.
    + destruct Hw as (j0 & Hj0 & Hm0 & _ & ->). exists j0. split; [lia|]. split; [|done].
      intros i Hi. destruct (decide (i = k)) as [->|]; [done|]. apply Hm0. lia.
    + exists k. split; [done|]. split; [|done]. intros i Hi. by replace i with k by lia.
Qed.

Lemma round_decides k since : window k since -> p_head (polls k) < deadline ->
  match readyRound pid (polls k) since with
  | inl o => decides k o
  | inr since' => (forall o, ~ decides k o) /\ window (S k) since'
  end.
Proof.
  intros Hw Hh. pose proof (stuck_window k since Hw) as Hs. unfold readyRound, malformed_at, seen_at in *.
  assert (forall s, seen_at k <> Some Ready -> seen_at k <> Some ExplicitFail -> ~ stuck k -> window (S k) s ->
    match (if pidAlive pid (p_signal (polls k)) then inr s else inl OChildExit) with
    | inl o => decides k o
    | inr since' => (forall o, ~ decides k o) /\ window (S k) since'
    end) as Halive.
  { intros s H1 H2 H3 H4. destruct (pidAlive pid (p_signal (polls k))) eqn:Ep; [|by constructor].
    split; [|done]. intros o Ho. destruct Ho; [lia|contradiction..|congruence]. }
  unfold seen_at in Halive. destruct (p_status (polls k)) as [raw|] eqn:Er; cbn [fmap option_fmap option_map] in *.
  - destruct (classifyReadyStatus raw) eqn:Ec; try (constructor; [done|]; unfold seen_at; rewrite Er; cbn; by rewrite Ec).
    + specialize (Hs eq_refl). destruct (Z.leb_spec malformedBudget (p_since (polls k) - default (p_open (polls k)) since)) as [Hb|Hb].
      * constructor; [done|]. by apply Hs.
      * apply Halive; [done|done|intros ?%Hs; lia|].
        assert (malformed_at k) as Hk by (unfold malformed_at, seen_at; rewrite Er; cbn; by rewrite Ec).
        destruct since as [t|]; cbn [default from_option id].
        -- destruct Hw as (j & Hj & Hm & Hst & ->). exists j. split; [lia|]. split; [|done].
           intros i Hi. destruct (decide (i = k)) as [->|]; [done|]. apply Hm. lia.
        -- exists k. split; [lia|]. split; [intros i Hi; by replace i with k by lia|]. by destruct Hw as [->|(k' & -> & Hn)]; eauto.
    + apply Halive; [done|done| |].
      * intros Hst%stuck_malformed. unfold malformed_at, seen_at in Hst. rewrite Er in Hst. cbn in Hst. congruence.
      * right. exists k. split; [done|]. unfold malformed_at, seen_at. rewrite Er. cbn. congruence.
  - apply Halive; [done|done| |].
    + intros Hst%stuck_malformed. unfold malformed_at, seen_at in Hst. by rewrite Er in Hst.
    + right. exists k. split; [done|]. unfold malformed_at, seen_at. by rewrite Er.
Qed.

(** The loop stops at the first round that decides. *)
Lemma readyLoop_first fuel k since o : window k since -> readyLoop fuel polls deadline pid k since = Some o ->
  exists k', (k <= k')%nat /\ decides k' o /\ forall i, (k <= i < k')%nat -> forall o', ~ decides i o'.
Proof.
  revert k since. induction fuel as [|fuel IH]; intros k since Hw H; [done|]. cbn [readyLoop] in H.
  destruct (Z.ltb_spec (p_head (polls k)) deadline) as [Hh|Hh].
  - pose proof (round_decides k since Hw Hh) as Hr. destruct (readyRound pid (polls k) since) as [o1|s].
    + injection H as ->. exists k. split; [done|]. split; [done|]. lia.
    + destruct Hr as [Hn Hw']. destruct (IH (S k) s Hw' H) as (k' & Hk & Hd & Hb). exists k'. split; [lia|]. split; [done|].
      intros i Hi. destruct (decide (i = k)) as [->|]; [done|]. apply Hb. lia.
  - injection H as <-. exists k. split; [done|]. split; [by constructor|]. lia.
Qed.

(** It stops by the round at which the deadline has passed. *)
Lemma readyLoop_returns fuel k since n : window k since -> (k + fuel > n)%nat -> deadline <= p_head (polls n) -> (k <= n)%nat ->
  exists o, readyLoop fuel polls deadline pid k since = Some o.
Proof.
  revert k since. induction fuel as [|fuel IH]; intros k since Hw Hf Hn Hk; [lia|]. cbn [readyLoop].
  destruct (Z.ltb_spec (p_head (polls k)) deadline) as [Hh|Hh]; [|eauto].
  pose proof (round_decides k since Hw Hh) as Hr. destruct (readyRound pid (polls k) since) as [o1|s]; [eauto|].
  destruct (decide (k = n)) as [->|]; [lia|]. apply IH; [by destruct Hr|lia|done|lia].
Qed.
End Polls.

(** The clock: it does not go back, and each round sleeps 150 ms. *)
Record timely (start : Z) (polls : nat -> poll) : Prop := mkTimely {
  tm_first : start <= p_head (polls O);
  tm_round : forall k, p_head (polls k) <= p_open (polls k) <= p_since (polls k);
  tm_sleep : forall k, p_since (polls k) + pollInterval <= p_head (polls (S k)) }.

Lemma timely_head start polls k : timely start polls -> start + Z.of_nat k * pollInterval <= p_head (polls k).
Proof.
  intros Ht. induction k as [|k IH]; [pose proof (tm_first _ _ Ht); lia|].
  pose proof (tm_round _ _ Ht k). pose proof (tm_sleep _ _ Ht k). unfold pollInterval, Millisecond in *. lia.
Qed.

Lemma timely_opens start polls i j : timely start polls -> (i <= j)%nat -> p_open (polls i) <= p_open (polls j).
Proof.
  intros Ht. induction 1 as [|j _ IH]; [lia|]. pose proof (tm_round _ _ Ht j). pose proof (tm_round _ _ Ht (S j)). pose proof (tm_sleep _ _ Ht j).
  unfold pollInterval, Millisecond in *. lia.
Qed.

Lemma rounds_enough timeout step : 0 < step -> timeout <= Z.of_nat (Z.to_nat (timeout / step) + 1) * step.
Proof.
  intros Hs. pose proof (Z.mod_pos_bound timeout step Hs). pose proof (Z.div_mod timeout step ltac:(lia)) as E.
  destruct (Z.le_gt_cases 0 (timeout / step)); nia.
Qed.

Lemma waitForReady_returns start polls timeout pid : timely start polls -> exists o, waitForReady start polls timeout pid = Some o.
Proof.
  intros Ht. pose proof (fun i j => timely_opens start polls i j Ht) as Ho. unfold waitForReady, readyFuel.
  apply (readyLoop_returns polls _ pid Ho _ _ _ (Z.to_nat (timeout / pollInterval) + 1)); [by left|lia| |lia].
  pose proof (timely_head start polls (Z.to_nat (timeout / pollInterval) + 1) Ht). pose proof (rounds_enough timeout pollInterval eq_refl). lia.
Qed.

(** C20: [waitForReady] always answers, and its answer is that of the first
    round that decides: the deadline has passed; the file says ready or not
    ready; it has been malformed at every round of the last 45 seconds; or the
    agent does not take the signal and the file says nothing. *)
Theorem wait_for_ready_exact start polls timeout pid : timely start polls ->
  (exists o, waitForReady start polls timeout pid = Some o) /\
  forall o, waitForReady start polls timeout pid = Some o <->
    exists k, decides polls (start + timeout) pid k o /\ forall i, (i < k)%nat -> forall o', ~ decides polls (start + timeout) pid i o'.
Proof.
  intros Ht. assert (window polls 0 None) as Hw by by left. pose proof (fun i j => timely_opens start polls i j Ht) as Ho.
  destruct (waitForReady_returns start polls timeout pid Ht) as [o1 E1].
  destruct (readyLoop_first polls _ pid Ho _ _ _ _ Hw E1) as (k1 & _ & Hd1 & Hb1).
  split; [eauto|]. intros o. rewrite E1. split.
  - intros [= <-]. exists k1. split; [done|]. intros i Hi. apply Hb1. lia.
  - intros (k & Hd & Hb). destruct (lt_eq_lt_dec k k1) as [[Hlt| ->]|Hlt].
    + exfalso. by apply (Hb1 k ltac:(lia) o).
    + f_equal. by eapply decides_unique.
    + exfalso. by apply (Hb k1 Hlt o1).
Qed.

(** ** waitForAgentExit *)

Lemma exitLoop_spec fuel polls deadline pid k n : (k + fuel > n)%nat -> (k <= n)%nat -> deadline <= (polls n).2 ->
  exists j, (k <= j <= n)%nat /\ (forall i, (k <= i < j)%nat -> pidAlive pid (polls i).1 = true /\ (polls i).2 < deadline) /\
    exitLoop fuel polls deadline pid k = Some (negb (pidAlive pid (polls j).1)) /\ (pidAlive pid (polls j).1 = true -> deadline <= (polls j).2).
Proof.
  revert k. induction fuel as [|fuel IH]; intros k Hf Hk Hn; [lia|]. cbn [exitLoop].
  destruct (pidAlive pid (polls k).1) eqn:Ea; cbn [negb].
  - destruct (Z.ltb_spec (polls k).2 deadline) as [Hl|Hl]; cbn [negb].
    + destruct (decide (k = n)) as [->|]; [lia|]. destruct (IH (S k)) as (j & Hj & Hb & E & Hd); [lia..|done|].
      exists j. split; [lia|]. split; [|done]. intros i Hi. destruct (decide (i = k)) as [->|]; [done|]. apply Hb. lia.
    + exists k. rewrite Ea. split_and!; [lia..|lia|done|done].
  - exists k. rewrite Ea. split_and!; [lia..|lia|done|done].
Qed.

(** Each round of the wait sleeps for the tick. *)
Definition ticking (start tick : Z) (polls : nat -> signal_answer * Z) : Prop :=
  start <= (polls O).2 /\ forall k, (polls k).2 + tick <= (polls (S k)).2.

Lemma ticking_head start tick polls k : ticking start tick polls -> start + Z.of_nat k * tick <= (polls k).2.
Proof. intros [H0 Hs]. induction k as [|k IH]; [lia|]. specialize (Hs k). lia. Qed.

(** The wait always ends: with [true] at the first poll whose signal is not
    delivered, and with [false] when the agent took every signal up to a poll
    at the deadline. *)
Lemma waitForAgentExit_spec start polls pid timeout tick : 0 < pid -> 0 < timeout -> 0 < tick -> ticking start tick polls ->
  exists j, (forall i, (i < j)%nat -> (polls i).1 = Delivered /\ (polls i).2 < start + timeout) /\
    waitForAgentExit start polls pid timeout tick = Some (bool_decide ((polls j).1 <> Delivered)) /\
    ((polls j).1 = Delivered -> start + timeout <= (polls j).2).
Proof.
  intros Hp Ht Hk Hc. unfold waitForAgentExit. rewrite !(proj2 (Z.leb_gt _ _)) by done. cbn [orb].
  assert (forall a, pidAlive pid a = bool_decide (a = Delivered)) as Ea by (intros a; unfold pidAlive; by rewrite (proj2 (Z.leb_gt _ _))).
  destruct (exitLoop_spec (exitFuel timeout tick) polls (start + timeout) pid 0 (Z.to_nat (timeout / tick) + 1)) as (j & _ & Hb & E & Hd).
  - unfold exitFuel. lia.
  - lia.
  - pose proof (ticking_head _ _ _ (Z.to_nat (timeout / tick) + 1) Hc). pose proof (rounds_enough timeout tick Hk). lia.
  - exists j. split_and!.
    + intros i Hi. destruct (Hb i) as [Hi1 Hi2]; [lia|]. split; [|done]. rewrite Ea in Hi1. by apply bool_decide_eq_true_1 in Hi1.
    + rewrite E, Ea. f_equal. by rewrite <- bool_decide_not.
    + intros Hj. apply Hd. rewrite Ea. by apply bool_decide_eq_true_2.
Qed.

(** * Examples *)

(** An agent that runs as root refuses the signal of a user who is not: it is
    taken for dead, before its status file is there and again at its stop. *)
Example root_agent_looks_dead :
  let polls k := mkPoll (Z.of_nat k * Second) (if (k =? 0)%nat then None else Some (status_payload true)) (Z.of_nat k * Second) (Z.of_nat k * Second) NotPermitted in
  waitForReady 0 polls (60 * Second) 4242 = Some OChildExit /\
  waitForAgentExit 0 (fun k => (NotPermitted, Z.of_nat k * Second)) 4242 (10 * Second) (100 * Millisecond) = Some true.
Proof. split; vm_compute; reflexivity. Qed.

Module Witness.
Definition path : bytes := str "/ws/.coldstep-ready.json".
Definition io : file_io := mkIO (Some (str "/ws/.coldstep-atomic.1.tmp")) None false false false false false.

Lemma status_file_atomic_witness : let run := Bytes path (status_payload true) 0x1A4 io ∅ in
  Forall (fun d' => readReady (d' !! path) = readReady ((∅ : gmap bytes bytes) !! path) \/ readReady (d' !! path) = (true, true)) run.1 /\
  exists states d', run.1 = states ++ [d'] /\
    match run.2 with Ok _ => readReady (d' !! path) = (true, true) | Err _ => d' !! path = (∅ : gmap bytes bytes) !! path end.
Proof. apply (status_file_atomic path true io ∅). intros tmp [= <-]. split; [apply lookup_empty|discriminate]. Defined.

(** A file that is garbage from the second round on. *)
Definition garbage (k : nat) : poll :=
  mkPoll (Z.of_nat k * Second) (if (k =? 0)%nat then None else Some (str "{")) (Z.of_nat k * Second) (Z.of_nat k * Second) Delivered.

Lemma garbage_timely : timely 0 garbage.
Proof. split; cbn; unfold Second, pollInterval, Millisecond; intros; lia. Qed.

Lemma wait_for_ready_exact_witness : waitForReady 0 garbage (60 * Second) 7 = Some OMalformed /\
  exists k, decides garbage (0 + 60 * Second) 7 k OMalformed /\ forall i, (i < k)%nat -> forall o', ~ decides garbage (0 + 60 * Second) 7 i o'.
Proof.
  assert (waitForReady 0 garbage (60 * Second) 7 = Some OMalformed) as E by (vm_compute; reflexivity).
  split; [exact E|]. by apply (proj2 (wait_for_ready_exact 0 garbage (60 * Second) 7 garbage_timely) OMalformed).
Defined.
End Witness.
