(* ===== verification/AgentPid.v ===== *)
(** Finding the agent below sudo: internal/actioncli/agent_pid_linux.go.

    The files under /proc change while they are read: the reads are numbered in
    the order they are made, and what a read finds depends on its number. *)
From S2P Require Import Prelude GoStrings Telemetry Json Readiness.

Open Scope Z_scope.

(** [strconv.Atoi]: an optional sign and decimal digits, in 64 bits. *)
Definition Atoi (s : bytes) : option Z :=
  let digits t := if decide (t = []) then None else digits_val 0 t in
  v ← match s with
      | 43 :: t => digits t
      | 45 :: t => Z.opp <$> digits t
      | _ => digits s
      end;
  if (- 2 ^ 63 <=? v) && (v <? 2 ^ 63) then Some v else None.

Example Atoi_ex : map (fun s => Atoi (str s)) ["12"; "+7"; "-0"; ""; "-"; "1_0"; "9223372036854775808"; "-9223372036854775808"]%string =
  [Some 12; Some 7; Some 0; None; None; None; None; Some (- 2 ^ 63)].
Proof. vm_compute. reflexivity. Qed.

Section Proc.
(** The files /proc/<pid>/comm and /proc/<pid>/task/<tid>/children, and the
    names in /proc/<pid>/task, at a read. *)
Context (comm : nat -> Z -> option bytes) (tasks : nat -> Z -> option (list bytes)) (children : nat -> Z -> Z -> option bytes).

Definition readComm (t : nat) (pid : Z) : bytes := match comm t pid with None => [] | Some raw => TrimSpace raw end.

Definition readChildrenFile (t : nat) (pid tid : Z) : list Z :=
  match children t pid tid with
  | None => []
  | Some raw => omap (fun f => v ← Atoi f; if 0 <? v then Some v else None) (Fields raw)
  end.

(** The children of some threads, each once; one read for each thread. *)
Fixpoint childrenOf (t : nat) (pid : Z) (tids : list Z) (out : list Z) : nat * list Z :=
  match tids with
  | [] => (t, out)
  | tid :: tids' =>
    childrenOf (S t) pid tids' (foldl (fun out c => if decide (c ∈ out) then out else out ++ [c]) out (readChildrenFile t pid tid))
  end.

Definition readProcChildren (t : nat) (pid : Z) : nat * list Z :=
  match tasks t pid with
  | None => (S (S t), readChildrenFile (S t) pid pid)
  | Some entries => childrenOf (S t) pid (omap Atoi entries) []
  end.

(** The new children, in order, and those seen. *)
Definition enqueue (cs : list Z) (queue : list Z) (seen : gset Z) : list Z * gset Z :=
  foldl (fun '(q, s) c => if decide (c ∈ s) then (q, s) else (q ++ [c], {[c]} ∪ s)) (queue, seen) cs.

(** The walk, with the steps that are left of the code's 256. *)
Fixpoint walkLoop (steps t : nat) (rootPid : Z) (wantComm : bytes) (queue : list Z) (seen : gset Z) : nat * Z :=
  match steps, queue with
  | S steps', pid :: queue =>
    let '(t, hit) := if decide (pid <> rootPid) then (S t, bool_decide (readComm t pid = wantComm)) else (t, false) in
    if hit : bool then (t, pid)
    else
      let '(t, cs) := readProcChildren t pid in
      let '(queue, seen) := enqueue cs queue seen in
      walkLoop steps' t rootPid wantComm queue seen
  | _, _ => (t, 0)
  end.

Definition walkForAgentComm (t : nat) (rootPid : Z) (wantComm : bytes) : nat * Z := walkLoop 256 t rootPid wantComm [rootPid] {[rootPid]}.

Definition pidPollInterval : Z := 25 * Millisecond.

(** [now k] is the clock at the end of round [k]. *)
Fixpoint findLoop (fuel : nat) (now : nat -> Z) (deadline sudoPid : Z) (t k : nat) : option Z :=
  match fuel with
  | O => None
  | S fuel' =>
    let '(t, pid) := walkForAgentComm t sudoPid (str "coldstep") in
    if 0 <? pid then Some pid
    else if negb (now k <? deadline) then Some sudoPid
    else findLoop fuel' now deadline sudoPid t (S k)
  end.

Definition findAgentPID (start : Z) (now : nat -> Z) (sudoPid timeout : Z) : option Z :=
  if sudoPid <=? 0 then Some sudoPid
  else findLoop (Z.to_nat (timeout / pidPollInterval) + 2) now (start + timeout) sudoPid 0 0.

(** * What is found *)

(** [c] was in a children file of [p] when it was read. *)
Definition child (p c : Z) : Prop := exists t tid, c ∈ readChildrenFile t p tid.

Lemma childrenOf_spec t pid tids out c : c ∈ (childrenOf t pid tids out).2 -> c ∈ out \/ child pid c.
Proof.
  revert t out. induction tids as [|tid tids IH]; intros t out H; [by left|]. cbn [childrenOf] in H. destruct (IH _ _ H) as [Hc|]; [|by right].
  clear H. assert (forall l, (forall x, x ∈ l -> child pid x) -> forall out, c ∈ foldl (fun out c => if decide (c ∈ out) then out else out ++ [c]) out l -> c ∈ out \/ child pid c) as Hf.
  { intros l. induction l as [|x l IHl]; intros Hl out' Hin; [by left|]. cbn [foldl] in Hin.
    apply IHl in Hin as [Hin|]; [|by right|intros y Hy; apply Hl; by right]. case_decide; [by left|].
    apply elem_of_app in Hin as [| ->%list_elem_of_singleton]; [by left|right; apply Hl; by left]. }
  eapply Hf; [|exact Hc]. intros x Hx. by exists t, tid.
Qed.

Lemma readProcChildren_spec t pid c : c ∈ (readProcChildren t pid).2 -> child pid c.
Proof.
  unfold readProcChildren. destruct (tasks t pid) as [entries|]; cbn [snd].
  - intros [Hn|]%childrenOf_spec; [by apply elem_of_nil in Hn|done].
  - intros Hc. by exists (S t), pid.
Qed.

Lemma child_positive p c : child p c -> 0 < c.
Proof.
  intros (t & tid & H). unfold readChildrenFile in H. destruct (children t p tid) as [raw|]; [|by apply elem_of_nil in H].
  apply list_elem_of_omap in H as (f & _ & E). destruct (Atoi f) as [v|]; [|done]. cbn in E. destruct (Z.ltb_spec 0 v); [|done]. by injection E as <-.
Qed.

Lemma enqueue_spec (P : Z -> Prop) cs queue seen : Forall P queue -> Forall P cs -> Forall P (enqueue cs queue seen).1.
Proof.
  unfold enqueue. intros Hq Hcs. revert queue seen Hq. induction Hcs as [|c cs Hc _ IH]; intros queue seen Hq; [done|]. cbn [foldl].
  case_decide; [by apply IH|]. apply IH. apply Forall_app. split; [done|]. by apply Forall_singleton.
Qed.

(** A descendant of [root] that is running the agent. *)
Definition agent_below (root : Z) (want : bytes) (pid : Z) : Prop := pid <> root /\ 0 < pid /\ rtc child root pid /\ exists t, readComm t pid = want.

Lemma walkLoop_spec steps t root want queue seen : 0 < root -> Forall (rtc child root) queue ->
  let pid := (walkLoop steps t root want queue seen).2 in pid = 0 \/ agent_below root want pid.
Proof.
  intros Hroot. revert t queue seen. induction steps as [|steps IH]; intros t queue seen Hq; [by left|]. destruct Hq as [|pid queue Hp Hq]; [by left|].
  cbn [walkLoop]. assert (forall t, let '(t, cs) := readProcChildren t pid in let '(queue, seen) := enqueue cs queue seen in
    let p := (walkLoop steps t root want queue seen).2 in p = 0 \/ agent_below root want p) as Hrec.
  { intros t'. destruct (readProcChildren t' pid) as [t2 cs] eqn:E. destruct (enqueue cs queue seen) as [q s] eqn:Eq.
    apply IH. change q with (q, s).1. rewrite <- Eq. apply enqueue_spec; [done|]. apply Forall_forall. intros c Hc.
    eapply rtc_r; [exact Hp|]. apply (readProcChildren_spec t'). by rewrite E. }
  case_decide as Hne.
  - case_bool_decide as Hc.
    + right. cbn [snd]. split; [done|]. split; [|split; [done|eauto]]. apply rtc_inv_r in Hp as [->|(p & _ & Hp)]; [done|]. by eapply child_positive.
    + specialize (Hrec (S t)). destruct (readProcChildren (S t) pid) as [t2 cs]. by destruct (enqueue cs queue seen).
  - specialize (Hrec t). destruct (readProcChildren t pid) as [t2 cs]. by destruct (enqueue cs queue seen).
Qed.

Lemma findAgentPID_sound start now sudoPid timeout : 0 < sudoPid ->
  start <= now O -> (forall k, now k + pidPollInterval <= now (S k)) ->
  exists pid, findAgentPID start now sudoPid timeout = Some pid /\
    (agent_below sudoPid (str "coldstep") pid \/ (pid = sudoPid /\ exists k, start + timeout <= now k)).
Proof.
  intros Hp H0 Hs. unfold findAgentPID. rewrite (proj2 (Z.leb_gt _ _)) by done.
  set (n := (Z.to_nat (timeout / pidPollInterval) + 1)%nat). assert (start + timeout <= now n) as Hn.
  { assert (forall k, start + Z.of_nat k * pidPollInterval <= now k) as Hk by (intros k; induction k as [|k IH]; [lia|]; specialize (Hs k); lia).
    specialize (Hk n). pose proof (rounds_enough timeout pidPollInterval eq_refl). subst n. lia. }
  assert (forall fuel t k, (k + fuel > n)%nat -> (k <= n)%nat -> exists pid, findLoop fuel now (start + timeout) sudoPid t k = Some pid /\
    (agent_below sudoPid (str "coldstep") pid \/ (pid = sudoPid /\ exists k, start + timeout <= now k))) as Hl; [|apply Hl; subst n; lia].
  intros fuel. induction fuel as [|fuel IH]; intros t k Hf Hk; [lia|]. cbn [findLoop].
  pose proof (walkLoop_spec 256 t sudoPid (str "coldstep") [sudoPid] {[sudoPid]} Hp ltac:(apply Forall_singleton; apply rtc_refl)) as Hw.
  unfold walkForAgentComm. destruct (walkLoop 256 t sudoPid (str "coldstep") [sudoPid] {[sudoPid]}) as [t' pid]. cbn [snd] in Hw.
  destruct (Z.ltb_spec 0 pid) as [Hpos|Hpos].
  - exists pid. split; [done|]. destruct Hw as [->|]; [lia|by left].
  - destruct (Z.ltb_spec (now k) (start + timeout)) as [Hl|Hl]; cbn [negb].
    + apply IH; [lia|]. destruct (decide (k = n)) as [->|]; lia.
    + exists sudoPid. split; [done|]. right. split; [done|]. by exists k.
Qed.

(** For a started sudo the search always answers, with a process that a
    signal may go to: one below sudo that was running as coldstep when its
    name was read, or sudo itself, and sudo only once the time is up. *)
Theorem agent_pid_sound start now sudoPid timeout : 0 < sudoPid ->
  start <= now O -> (forall k, now k + pidPollInterval <= now (S k)) ->
  exists pid, findAgentPID start now sudoPid timeout = Some pid /\
    (agent_below sudoPid (str "coldstep") pid \/ (pid = sudoPid /\ exists k, start + timeout <= now k)).
Proof. apply findAgentPID_sound. Qed.
End Proc.

(** * Example: sudo 10 forks 11, whose second thread forks the agent 12 *)

Module Witness.
Definition comm (t : nat) (pid : Z) : option bytes := if pid =? 12 then Some (str "coldstep" ++ [10]) else Some (str "sudo" ++ [10]).
Definition tasks (t : nat) (pid : Z) : option (list bytes) := Some [Itoa pid; Itoa (pid + 100)].
Definition children (t : nat) (pid tid : Z) : option bytes :=
  if (pid =? 10) && (tid =? 10) then Some (str "11 ") else if (pid =? 11) && (tid =? 111) then Some (str "12 11 ") else Some [].

Lemma agent_pid_sound_witness : exists pid, findAgentPID comm tasks children 0 (fun k => Z.of_nat k * Second) 10 (2 * Second) = Some pid /\ pid = 12 /\
  (agent_below comm children 10 (str "coldstep") pid \/ (pid = 10 /\ exists k, 0 + 2 * Second <= Z.of_nat k * Second)).
Proof.
  assert (findAgentPID comm tasks children 0 (fun k => Z.of_nat k * Second) 10 (2 * Second) = Some 12) as E by (vm_compute; reflexivity).
  destruct (agent_pid_sound comm tasks children 0 (fun k => Z.of_nat k * Second) 10 (2 * Second)) as (pid & Ep & Hp);
    [lia|cbn; lia|intros k; unfold pidPollInterval, Millisecond, Second; lia|].
  rewrite E in Ep. injection Ep as <-. exists 12. split; [exact E|]. split; [reflexivity|exact Hp].
Defined.
End Witness.
