(* ===== verification/GoFlag.v ===== *)
(** Package flag, as far as the commands use it: a [FlagSet] of string,
    boolean and integer flags that continues on errors, with the conversions
    of strconv that it calls. *)
From S2P Require Import Prelude GoStrings Telemetry.

Open Scope Z_scope.

(** * strconv *)

Definition ParseBool (s : bytes) : option bool :=
  if bool_decide (s ∈ map str ["1"; "t"; "T"; "TRUE"; "true"; "True"]%string) then Some true
  else if bool_decide (s ∈ map str ["0"; "f"; "F"; "FALSE"; "false"; "False"]%string) then Some false
  else None.

Definition lower_letter (c : Z) : Z := Z.lor c 32.

Definition digit_value (c : Z) : option Z :=
  if is_digit c then Some (c - 48) else if in_range 97 122 (lower_letter c) then Some (lower_letter c - 97 + 10) else None.

(** The digits in a base, with underscores passed over. *)
Fixpoint based_val (base acc : Z) (s : bytes) : option Z :=
  match s with
  | [] => Some acc
  | c :: t =>
    if c =? 95 then based_val base acc t
    else match digit_value c with
         | Some d => if d <? base then based_val base (acc * base + d) t else None
         | None => None
         end
  end.

Definition base_of (c : Z) : option Z :=
  let c := lower_letter c in if c =? 98 then Some 2 else if c =? 111 then Some 8 else if c =? 120 then Some 16 else None.

(** The base that the prefix gives, and the rest. *)
Definition base_prefix (s : bytes) : Z * bytes :=
  match s with
  | 48 :: t =>
    match t with
    | c :: (_ :: _) as u => match base_of c with Some b => (b, tail t) | None => (8, t) end
    | _ => (8, t)
    end
  | _ => (10, s)
  end.

(** [underscoreOK]: an underscore stands between digits, or between the base
    prefix and a digit.  The last character seen is ['^'] at the start, ['0']
    for a digit or the prefix, ['_'] or ['!']. *)
Inductive last_seen := AtStart | AtDigit | AtUnderscore | AtOther.

Fixpoint underscores (hex : bool) (s : bytes) (i : last_seen) : bool :=
  match s with
  | [] => match i with AtUnderscore => false | _ => true end
  | c :: t =>
    if is_digit c || (hex && in_range 97 102 (lower_letter c)) then underscores hex t AtDigit
    else if c =? 95 then match i with AtDigit => underscores hex t AtUnderscore | _ => false end
    else match i with AtUnderscore => false | _ => underscores hex t AtOther end
  end.

Definition underscoreOK (s : bytes) : bool :=
  let s := match s with c :: t => if (c =? 45) || (c =? 43) then t else s | [] => s end in
  match s with
  | 48 :: c :: t => match base_of c with Some b => underscores (b =? 16) t AtDigit | None => underscores false s AtStart end
  | _ => underscores false s AtStart
  end.

(** [strconv.ParseInt(s, 0, 64)]. *)
Definition ParseInt0 (s : bytes) : option Z :=
  let unsigned (t : bytes) : option Z :=
    if decide (t = []) then None
    else
      let '(base, rest) := base_prefix t in
      v ← based_val base 0 rest;
      if (v <? 2 ^ 64) && (negb (bool_decide (95 ∈ rest)) || underscoreOK t) then Some v else None in
  match s with
  | 43 :: t => v ← unsigned t; if v <? 2 ^ 63 then Some v else None
  | 45 :: t => v ← unsigned t; if v <=? 2 ^ 63 then Some (- v) else None
  | _ => v ← unsigned s; if v <? 2 ^ 63 then Some v else None
  end.

Example ParseInt0_ex : map (fun s => ParseInt0 (str s)) ["1500"; "0x1F"; "-0b11"; "017"; "0"; "1_000"; "0_7"; "_1"; "1__0"; "0x_1"; "08"; ""; "+"; "9223372036854775808"]%string =
  [Some 1500; Some 31; Some (-3); Some 15; Some 0; Some 1000; Some 7; None; None; Some 1; None; None; None; None].
Proof. vm_compute. reflexivity. Qed.

(** * FlagSet *)

Inductive flag_value := FString (s : bytes) | FBool (b : bool) | FInt (n : Z).

Inductive flag_err := ErrSyntax (arg : bytes) | ErrUndefined (name : bytes) | ErrHelp | ErrInvalidBool (name value : bytes) | ErrNeedsArgument (name : bytes)
  | ErrInvalidValue (name value : bytes).

(** The flags by name, with the values they have: their kind is that of the
    value. *)
Abbreviation flags := (list (bytes * flag_value)).

Fixpoint set_flag (fs : flags) (name : bytes) (v : flag_value) : flags :=
  match fs with
  | [] => []
  | (n, old) :: fs' => if decide (n = name) then (n, v) :: fs' else (n, old) :: set_flag fs' name v
  end.

Definition lookup_flag (fs : flags) (name : bytes) : option flag_value := snd <$> List.find (fun f => bool_decide (f.1 = name)) fs.

(** The name and the value of [name=value]; the ['='] is not the first byte. *)
Definition cut_value (name : bytes) : bytes * option bytes :=
  match name with
  | [] => ([], None)
  | c :: t => match IndexByte t 61 with Some i => (c :: take i t, Some (drop (S i) t)) | None => (name, None) end
  end.

Definition ends_flags (s : bytes) : bool := (len s <? 2) || negb (HasPrefix s (str "-")) || bool_decide (s = str "--").

(** [Parse]: the flags up to the first argument that is none. *)
Fixpoint Parse (fs : flags) (args : list bytes) : result flag_err flags :=
  match args with
  | [] => Ok fs
  | s :: args' =>
    if ends_flags s then Ok fs
    else
      let name := if HasPrefix s (str "--") then drop 2 s else drop 1 s in
      if bool_decide (name = []) || HasPrefix name (str "-") || HasPrefix name (str "=") then Err (ErrSyntax s)
      else
        let '(name, value) := cut_value name in
        match lookup_flag fs name with
        | None => Err (if bool_decide (name = str "help") || bool_decide (name = str "h") then ErrHelp else ErrUndefined name)
        | Some (FBool _) =>
          match value with
          | None => Parse (set_flag fs name (FBool true)) args'
          | Some v => match ParseBool v with Some b => Parse (set_flag fs name (FBool b)) args' | None => Err (ErrInvalidBool name v) end
          end
        | Some old =>
          let set v := match old with FInt _ => FInt <$> ParseInt0 v | _ => Some (FString v) end in
          match value with
          | Some v => match set v with Some x => Parse (set_flag fs name x) args' | None => Err (ErrInvalidValue name v) end
          | None =>
            match args' with
            | [] => Err (ErrNeedsArgument name)
            | v :: args'' => match set v with Some x => Parse (set_flag fs name x) args'' | None => Err (ErrInvalidValue name v) end
            end
          end
        end
  end.

(** The value of a flag after parsing. *)
Definition string_flag (fs : flags) (name : string) : bytes := match lookup_flag fs (str name) with Some (FString s) => s | _ => [] end.
Definition bool_flag (fs : flags) (name : string) : bool := match lookup_flag fs (str name) with Some (FBool b) => b | _ => false end.
Definition int_flag (fs : flags) (name : string) : Z := match lookup_flag fs (str name) with Some (FInt n) => n | _ => 0 end.

Example Parse_ex : Parse [(str "mode", FString (str "detect")); (str "strict", FBool false); (str "n", FInt 3)]
    (map str ["--mode"; "-x"; "-strict=T"; "--n=0x10"; "--"; "-zz"]%string) =
  Ok [(str "mode", FString (str "-x")); (str "strict", FBool true); (str "n", FInt 16)].
Proof. vm_compute. reflexivity. Qed.
