(* ===== verification/Commands.v ===== *)
(** The commands of the action: internal/actioncli/main.go and
    report_markdown.go.

    A command is a function from the actions so far to the actions after it and
    its result ([cmd]).  What the machine answers to an action may depend on
    its number, so that other processes may change anything between two
    actions; the answers are kept in the trace. *)
From S2P Require Import Prelude GoStrings GoNet GoPath Telemetry Policy Config SafePath AllowFiles Json Report Readiness AgentPid GoFlag.

Open Scope Z_scope.

(** * Small helpers of main.go *)

Definition getenvDefault (getenv : bytes -> bytes) (k def : bytes) : bytes :=
  let v := TrimSpace (getenv k) in if decide (v = []) then def else v.

Definition clamp (v lo hi : Z) : Z := if v <? lo then lo else if hi <? v then hi else v.

Definition mustGetwd (getwd : option bytes) : bytes := default dot getwd.

(** The job summary and the comment. *)
Definition parseReportFlags `{UnicodeCase} (report : bytes) : bool * bool :=
  let r := ToLower (TrimSpace report) in
  if decide (r = str "pr-comment") then (false, true)
  else if decide (r = str "both") then (true, true)
  else if decide (r = str "none") then (false, false)
  else (true, false).

(** The destination of the digest. *)
Definition digestArtifactPath (baseDir digestOutput mode : bytes) : bytes :=
  let override := TrimSpace digestOutput in
  if decide (override = []) then Join [baseDir; str ".coldstep-" ++ mode ++ str ".md"]
  else if IsAbs override then Clean override
  else Join [baseDir; override].

(** The removed inputs that are still set, by their names. *)
Definition removedInputs : list (string * string) :=
  [("INPUT_IGNORED-NETS", "put `!CIDR` entries in `allow`");
   ("INPUT_IGNORED-NETS-FILE", "put `!CIDR` lines in an `allow-file`");
   ("INPUT_BOOTSTRAP-ALLOWLIST", "list the destinations you need in `allow` or an `allow-file`")]%string.

Definition warnRemovedAllowlistInputs `{UnicodeCase} (getenv : bytes -> bytes) : list bytes :=
  omap (fun '(env, replacement) =>
    if decide (TrimSpace (getenv (str env)) <> [])
    then let name := ToLower (TrimPrefix (str env) (str "INPUT_")) in
         Some (str "::warning title=Coldstep removed input::`" ++ name ++ str "` was removed in the allowlist consolidation; " ++ str replacement)
    else None) removedInputs.

(** * Flags *)

Record startConfig := mkStartConfig {
  sc_Mode : bytes; sc_Allow : bytes; sc_AllowFile : bytes; sc_NoDefaultIgnoredNets : bool; sc_LogLevel : bytes; sc_DetectProfile : bytes;
  sc_ReleasePath : bytes; sc_FailOnError : bool; sc_ReadyTimeoutSeconds : Z; sc_SmokeTestEgress : bool; sc_IoUringDisable : bool;
  sc_SigningKey : bytes; sc_Report : bytes }.

Record stopConfig := mkStopConfig {
  st_FailOnError : bool; st_Report : bytes; st_GithubToken : bytes; st_Strict : bool; st_DetectProfile : bytes; st_DigestOutput : bytes }.

Definition fstring (k : string) (v : bytes) : bytes * flag_value := (str k, FString v).
Definition fbool (k : string) (v : bool) : bytes * flag_value := (str k, FBool v).

Definition parseStartFlags (args : list bytes) : result flag_err startConfig :=
  fs ← GoFlag.Parse [fstring "mode" (str "detect"); fstring "allow" []; fstring "allow-file" []; fbool "no-default-ignored-nets" false;
    fstring "log-level" (str "info"); fstring "detect-profile" []; fstring "release-path" []; fbool "fail-on-error" false;
    (str "ready-timeout-seconds", FInt 1500); fbool "smoke-test-egress" false; fbool "io-uring-disable" true; fstring "signing-key" [];
    fstring "report" (str "job-summary")] args;
  Ok (mkStartConfig (string_flag fs "mode") (string_flag fs "allow") (string_flag fs "allow-file") (bool_flag fs "no-default-ignored-nets")
    (string_flag fs "log-level") (string_flag fs "detect-profile") (string_flag fs "release-path") (bool_flag fs "fail-on-error")
    (int_flag fs "ready-timeout-seconds") (bool_flag fs "smoke-test-egress") (bool_flag fs "io-uring-disable") (string_flag fs "signing-key")
    (string_flag fs "report")).

Definition parseStopFlags (getenv : bytes -> bytes) (args : list bytes) : result flag_err stopConfig :=
  fs ← GoFlag.Parse [fbool "fail-on-error" false; fstring "report" (str "job-summary"); fstring "github-token" []; fbool "strict" false;
    fstring "detect-profile" []; fstring "digest-output" (getenvDefault getenv (str "COLDSTEP_DIGEST_OUTPUT") [])] args;
  Ok (mkStopConfig (bool_flag fs "fail-on-error") (string_flag fs "report") (string_flag fs "github-token") (bool_flag fs "strict")
    (string_flag fs "detect-profile") (string_flag fs "digest-output")).

(** * The machine *)

Record machine := mkMachine {
  mc_getenv : bytes -> bytes;
  mc_cwd : list bytes;
  mc_getwd : option bytes;
  (** [runtime.GOOS]. *)
  mc_goos : bytes;
  (** The files; [os.Stat] succeeds or not; an opened log and how its read
      ends. *)
  mc_fs : nat -> filesystem;
  mc_stat : nat -> bytes -> bool;
  mc_read : nat -> bytes -> option bytes;
  mc_log : nat -> bytes -> option (bytes * read_end);
  (** Whether a write, a command or a request succeeds. *)
  mc_write : nat -> bytes -> bool;
  mc_exec : nat -> bool;
  mc_post : nat -> bool;
  (** Processes and clocks. *)
  mc_signal : nat -> signal_answer;
  mc_clock : nat -> Z;
  mc_spawn : nat -> option Z;
  mc_comm : nat -> nat -> Z -> option bytes;
  mc_tasks : nat -> nat -> Z -> option (list bytes);
  mc_children : nat -> nat -> Z -> Z -> option bytes;
  mc_pidClock : nat -> nat -> Z;
  mc_readyPolls : nat -> nat -> poll;
  mc_exitPolls : nat -> nat -> signal_answer * Z }.

Inductive warning := NoEventStream | NoWorkloadTelemetry.

(** What a command does, with the answers. *)
Inductive act :=
  | MkdirAll (path : bytes) (ok : bool)
  | Remove (path : bytes)
  | Sysctl (ok : bool)
  | Stat (path : bytes) (ok : bool)
  | ReadFile (path : bytes) (data : option bytes)
  | OpenLog (path : bytes) (log : option (bytes * read_end))
  | WriteFile (path data : bytes) (ok : bool)
  | AppendFile (path data : bytes) (ok : bool)
  | BuildAgent (ok : bool)
  | Spawn (env : list (bytes * bytes)) (pid : option Z)
  | FindAgent (sudoPid : Z) (pid : option Z)
  | SmokeTest
  | WaitReady (pid : Z) (o : option outcome)
  | SignalTerm (pid : Z) (answer : signal_answer)
  | SudoKill (pid : Z) (ok : bool)
  | WaitExit (pid : Z) (exited : option bool)
  | Warn (w : warning)
  | Print (line : bytes)
  | PostComment (token body : bytes) (ok : bool).

Abbreviation trace := (list act).
Definition cmd (A : Type) : Type := trace -> trace * A.

#[global] Instance cmd_ret : MRet cmd := fun A a tr => (tr, a).
#[global] Instance cmd_bind : MBind cmd := fun A B f m tr => let '(tr', a) := m tr in f a tr'.

Definition emit (a : act) : cmd unit := fun tr => (tr ++ [a], tt).

(** An action whose answer depends on its number. *)
Definition ask {B} (answer : nat -> B) (mk : B -> act) : cmd B := fun tr => let b := answer (length tr) in (tr ++ [mk b], b).

(** Running a command, action by action. *)
Lemma run_bind {A B} (c : cmd A) (f : A -> cmd B) tr : (c ≫= f) tr = f (c tr).2 (c tr).1.
Proof. unfold mbind, cmd_bind. by destruct (c tr). Qed.
Lemma run_ask {B} (answer : nat -> B) mk tr : ask answer mk tr = (tr ++ [mk (answer (length tr))], answer (length tr)).
Proof. done. Qed.
Lemma run_emit a tr : emit a tr = (tr ++ [a], tt).
Proof. done. Qed.
Lemma run_ret {A} (a : A) tr : (mret a : cmd A) tr = (tr, a).
Proof. done. Qed.

Ltac run := repeat (rewrite ?run_bind, ?run_ask, ?run_emit, ?run_ret; cbn [fst snd]).

Section Commands.
Context `{UnicodeCase} (m : machine).

Definition env (k : string) : bytes := mc_getenv m (str k).
Definition statFile (p : bytes) : cmd bool := ask (fun t => mc_stat m t p) (Stat p).
Definition readFile (p : bytes) : cmd (option bytes) := ask (fun t => mc_read m t p) (ReadFile p).
Definition writeFile (p data : bytes) : cmd bool := ask (fun t => mc_write m t p) (WriteFile p data).
Definition appendFile (p data : bytes) : cmd bool := ask (fun t => mc_write m t p) (AppendFile p data).

(** The [os] of a call of safepath at an action. *)
Definition os_at (t : nat) : SafePath.os := mkOS (mc_fs m t) (mc_cwd m) (mc_getwd m) (mc_getenv m).
Definition workspace (raw : bytes) : cmd (option (result path_err bytes)) := fun tr => (tr, Workspace (os_at (length tr)) raw).

Definition actionPath : bytes := getenvDefault (mc_getenv m) (str "GITHUB_ACTION_PATH") (mustGetwd (mc_getwd m)).
Definition baseDir : bytes := getenvDefault (mc_getenv m) (str "GITHUB_WORKSPACE") actionPath.
Definition under (dir : bytes) (name : string) : bytes := Join [dir; str name].

(** * Reports *)

(** The aggregate of a log that opened ([Parse] always answers:
    [ReportReads.parse_reference]). *)
Definition aggregate (log : bytes * read_end) : option (Aggregate * bool) := Report.Parse log.1 log.2.

Definition writeDetailedMarkdownReport (dir digestOutput : bytes) : cmd (option Aggregate) :=
  let eventsPath := under dir ".coldstep-events.jsonl" in
  log ← ask (fun t => mc_log m t eventsPath) (OpenLog eventsPath);
  match log ≫= aggregate with
  | None => mret None
  | Some (agg, _) =>
    let detailed := RenderDetailed agg in
    let outPath := under dir ".coldstep-report.md" in
    _ ← writeFile outPath detailed;
    let digestPath := digestArtifactPath dir digestOutput (modeLabel agg) in
    _ ← (if decide (digestPath <> outPath) then writeFile digestPath detailed else mret true);
    mret (Some agg)
  end.

(** The two errors of [parseAggregateFile]: the file does not open, or its
    read fails. *)
Definition parseAggregateFile (path : bytes) : cmd (option Aggregate) :=
  log ← ask (fun t => mc_log m t path) (OpenLog path);
  mret (match log ≫= aggregate with Some (agg, false) => Some agg | _ => None end).

(** ** diff *)

Inductive command_err :=
  | EUsage | EUnknownCommand | EFlags (e : flag_err) | EProfile (e : config_err) | EPath (label : string) (e : path_err)
  | ESummaryRequired | EBaselineRequired | ELoadCurrent | ELoadBaseline | ELoadEvents | ESummaryWrite
  | ENewDomains (added : list bytes) | EMissingTypes (missing : list bytes) | ENoEvents
  | ENotLinux | EMkdir | ERelease | EBuild | EAllow (e : allow_err) | EStderrLog | ESpawn | EPidFile | ENotReady (o : outcome) | EMarker
  | EAgentNotReady | ENoAnswer.

(** [fmt.Sprintf] of the summary block. *)
Definition diffBlock (marker : bytes) (added removed : list bytes) : bytes :=
  let result := if decide (added <> [] \/ removed <> []) then str "changed" else str "no-change" in
  [10] ++ ln (str "#### Previous-run traffic diff (compact)") ++ [10] ++
  ln (str "- " ++ marker ++ str ".result=" ++ result) ++
  ln (str "- " ++ marker ++ str ".new_domains=" ++ Itoa (len added)) ++
  ln (str "- " ++ marker ++ str ".gone_domains=" ++ Itoa (len removed)).

(** A path of the command line, confined. *)
Definition confined (label : string) (raw : bytes) (k : bytes -> cmd (option command_err)) : cmd (option command_err) :=
  r ← workspace raw;
  match r with None => mret (Some ENoAnswer) | Some (Err e) => mret (Some (EPath label e)) | Some (Ok p) => k p end.

Definition diffFlags : flags :=
  let ws := getenvDefault (mc_getenv m) (str "GITHUB_WORKSPACE") dot in
  [fstring "current" (under ws ".coldstep-events.jsonl"); fstring "baseline" []; fstring "summary" (env "GITHUB_STEP_SUMMARY");
   fstring "marker" (str "coldstep-prev-diff"); fbool "fail-on-new-domain" false].

(** The summary block, and the verdict. *)
Definition diffVerdict (fs : flags) (summaryPath : bytes) (cur base : Aggregate) : cmd (option command_err) :=
  let '(added, removed) := DiffDomains cur base in
  ok ← appendFile summaryPath (diffBlock (string_flag fs "marker") added removed);
  if negb ok then mret (Some ESummaryWrite)
  else if bool_flag fs "fail-on-new-domain" && negb (bool_decide (added = [])) then
    _ ← emit (Print (str "::error title=Coldstep new destination domains::" ++ Itoa (len added) ++
      str " domain(s) present in current but absent from baseline (P1-2): " ++ Strings_Join added (str ", ")));
    mret (Some (ENewDomains added))
  else mret None.

Definition runDiff (args : list bytes) : cmd (option command_err) :=
  match GoFlag.Parse diffFlags args with
  | Err e => mret (Some (EFlags e))
  | Ok fs =>
    if decide (TrimSpace (string_flag fs "summary") = []) then mret (Some ESummaryRequired)
    else if decide (TrimSpace (string_flag fs "baseline") = []) then mret (Some EBaselineRequired)
    else
      confined "current" (string_flag fs "current") (fun currentPath =>
      confined "baseline" (string_flag fs "baseline") (fun baselinePath =>
      confined "GITHUB_STEP_SUMMARY" (string_flag fs "summary") (fun summaryPath =>
      cur ← parseAggregateFile currentPath;
      match cur with None => mret (Some ELoadCurrent) | Some cur =>
      base ← parseAggregateFile baselinePath;
      match base with None => mret (Some ELoadBaseline) | Some base =>
      diffVerdict fs summaryPath cur base
      end end)))
  end.

(** ** assert-integrity *)

Definition integrityFlags : flags :=
  let ws := getenvDefault (mc_getenv m) (str "GITHUB_WORKSPACE") dot in
  [fstring "in" (under ws ".coldstep-events.jsonl"); fstring "detect-profile" []].

(** The profile of a flag, which goes before the environment. *)
Definition profileOf (flag : bytes) : result config_err bytes := ResolveDetectProfile flag (getenvDefault (mc_getenv m) (str "COLDSTEP_DETECT_PROFILE") []).

Definition integrityVerdict (profile : bytes) (agg : Aggregate) : cmd (option command_err) :=
  let missing := MissingRequiredTypes agg profile in
  if decide (missing <> []) then
    _ ← emit (Print (str "::error title=Coldstep integrity gate::missing required event type(s): " ++ Strings_Join missing (str ", ")));
    mret (Some (EMissingTypes missing))
  else mret None.

Definition runAssertIntegrity (args : list bytes) : cmd (option command_err) :=
  match GoFlag.Parse integrityFlags args with
  | Err e => mret (Some (EFlags e))
  | Ok fs =>
    match profileOf (string_flag fs "detect-profile") with
    | Err e => mret (Some (EProfile e))
    | Ok profile =>
      confined "in" (string_flag fs "in") (fun inPath =>
      agg ← parseAggregateFile inPath;
      match agg with None => mret (Some ELoadEvents) | Some agg =>
      integrityVerdict profile agg
      end)
    end
  end.

(** * stop *)

Definition pidOf (raw : bytes) : option Z := pid ← Atoi (TrimSpace raw); if 0 <? pid then Some pid else None.

(** The signal to the agent and the wait for its exit. *)
Definition stopAgent (pidFile : bytes) : cmd unit :=
  raw ← readFile pidFile;
  match raw ≫= pidOf with
  | None => mret tt
  | Some pid =>
    answer ← ask (mc_signal m) (SignalTerm pid);
    _ ← (if decide (answer = NotPermitted) then ask (mc_exec m) (SudoKill pid) else mret true);
    _ ← ask (fun t => waitForAgentExit (mc_clock m t) (mc_exitPolls m t) pid (10 * Second) (100 * Millisecond)) (WaitExit pid);
    mret tt
  end.

Definition warnNothing (agg : option Aggregate) : cmd unit :=
  match agg with
  | None => emit (Warn NoEventStream)
  | Some a => if CapturedNothing a then emit (Warn NoWorkloadTelemetry) else mret tt
  end.

(** The block for the job summary, with a line end. *)
Definition summaryBlock (a : Aggregate) : bytes :=
  let block := RenderSimple a in if HasSuffix block [10] then block else block ++ [10].

Definition publishSummary (a : Aggregate) : cmd unit :=
  let summaryPath := TrimSpace (env "GITHUB_STEP_SUMMARY") in
  if bool_decide (summaryPath <> []) && bool_decide (TrimSpace (RenderSimple a) <> [])
  then _ ← appendFile summaryPath (summaryBlock a); mret tt
  else mret tt.

(** The request of [postPRComment] is one action. *)
Definition publishComment (cfg : stopConfig) (a : Aggregate) : cmd unit :=
  let token := TrimSpace (st_GithubToken cfg) in
  let token := if decide (token = []) then TrimSpace (env "GITHUB_TOKEN") else token in
  if decide (token <> []) then _ ← ask (mc_post m) (PostComment token (RenderDetailed a)); mret tt else mret tt.

Definition strictGate (cfg : stopConfig) (agg : option Aggregate) : option command_err :=
  if st_Strict cfg then
    match agg with
    | None => Some ENoEvents
    | Some a =>
      match ResolveDetectProfile (st_DetectProfile cfg) (env "COLDSTEP_DETECT_PROFILE") with
      | Err e => Some (EProfile e)
      | Ok profile => let missing := MissingRequiredTypes a profile in if decide (missing <> []) then Some (EMissingTypes missing) else None
      end
    end
  else None.

Definition readyMarker : bytes := under actionPath ".coldstep.ready.ok".
Definition agentStatus : bytes := under baseDir ".coldstep-ready.json".
Definition pidFile : bytes := under baseDir ".coldstep.pid".

(** Whether the agent was ready, where that is asked for. *)
Definition checkReady (cfg : stopConfig) : cmd bool :=
  if st_FailOnError cfg then
    ok ← statFile readyMarker;
    if ok : bool then mret true else raw ← readFile agentStatus; mret (readReady raw).1
  else mret true.

Definition runStop (cfg : stopConfig) : cmd (option command_err) :=
  ready ← checkReady cfg;
  if negb ready then mret (Some EAgentNotReady)
  else
    _ ← stopAgent pidFile;
    agg ← writeDetailedMarkdownReport baseDir (st_DigestOutput cfg);
    _ ← warnNothing agg;
    let '(reportJobSummary, reportPRSummary) := parseReportFlags (st_Report cfg) in
    _ ← match agg with Some a => if reportJobSummary : bool then publishSummary a else mret tt | None => mret tt end;
    _ ← match agg with Some a => if reportPRSummary : bool then publishComment cfg a else mret tt | None => mret tt end;
    mret (strictGate cfg agg).

(** * start *)

Definition runtimeOS : bytes := let v := ToLower (TrimSpace (env "RUNNER_OS")) in if decide (v <> []) then v else ToLower (mc_goos m).

Definition binPath : bytes := Join [actionPath; str "bin"; str "coldstep"].
Definition stderrLog : bytes := under baseDir ".coldstep-agent.stderr.log".

(** The binary from the release path, or a build. *)
Definition stageAgent (cfg : startConfig) : cmd (option command_err) :=
  if decide (sc_ReleasePath cfg <> []) then
    let src := if IsAbs (sc_ReleasePath cfg) then sc_ReleasePath cfg else Join [baseDir; sc_ReleasePath cfg] in
    confined "release-path" src (fun src =>
      ok ← statFile src;
      if negb ok then mret (Some ERelease)
      else
        raw ← readFile src;
        match raw with
        | None => mret (Some ERelease)
        | Some raw => ok ← writeFile binPath raw; mret (if ok : bool then None else Some ERelease)
        end)
  else ok ← ask (mc_exec m) BuildAgent; mret (if ok : bool then None else Some EBuild).

(** [SIGTERM] to the agent. *)
Definition terminate (agentPid : Z) : cmd unit :=
  if 0 <? agentPid then _ ← ask (mc_signal m) (SignalTerm agentPid); mret tt else mret tt.

(** What follows the start of the process. *)
Definition awaitAgent (cfg : startConfig) (sudoPid : Z) : cmd (option command_err) :=
  found ← ask (fun t => findAgentPID (mc_comm m t) (mc_tasks m t) (mc_children m t) (mc_clock m t) (mc_pidClock m t) sudoPid (2 * Second)) (FindAgent sudoPid);
  match found with None => mret (Some ENoAnswer) | Some agentPid =>
  ok ← writeFile pidFile (Itoa agentPid);
  if negb ok then _ ← terminate agentPid; mret (Some EPidFile)
  else
    _ ← (if sc_SmokeTestEgress cfg then emit SmokeTest else mret tt);
    if sc_FailOnError cfg then
      let seconds := clamp (sc_ReadyTimeoutSeconds cfg) 60 2700 in
      o ← ask (fun t => waitForReady (mc_clock m t) (mc_readyPolls m t) (seconds * Second) agentPid) (WaitReady agentPid);
      match o with
      | Some OReady =>
        ok ← writeFile readyMarker (str "true");
        if negb ok then _ ← terminate agentPid; mret (Some EMarker) else mret None
      | Some o => _ ← terminate agentPid; mret (Some (ENotReady o))
      | None => mret (Some ENoAnswer)
      end
    else mret None
  end.

Definition startInputsOf (cfg : startConfig) : startInputs :=
  mkStartInputs (sc_Mode cfg) (sc_Allow cfg) (sc_AllowFile cfg) (sc_NoDefaultIgnoredNets cfg) (sc_DetectProfile cfg) (sc_LogLevel cfg) (sc_SigningKey cfg).

(** Best-effort steps before the agent is staged. *)
Definition prepare (cfg : startConfig) : cmd unit :=
  _ ← emit (Remove agentStatus);
  _ ← emit (Remove readyMarker);
  _ ← (if sc_FailOnError cfg then emit (Remove stderrLog) else mret tt);
  if sc_IoUringDisable cfg then _ ← ask (mc_exec m) Sysctl; mret tt else mret tt.

(** The agent's environment, and its process. *)
Definition launch (cfg : startConfig) (p : startPlan) : cmd (option command_err) :=
  let env := childEnv (mc_getenv m) baseDir agentStatus (startInputsOf cfg) p in
  ok ← writeFile stderrLog [];
  if negb ok then mret (Some EStderrLog)
  else
    pid ← ask (mc_spawn m) (Spawn env);
    match pid with None => mret (Some ESpawn) | Some sudoPid => awaitAgent cfg sudoPid end.

(** The plan of the agent, with the warnings on removed inputs once the allow
    inputs are read. *)
Definition planned (cfg : startConfig) : cmd (result allow_err startPlan) := fun tr =>
  let t := length tr in
  let inp := startInputsOf cfg in
  let read := _ ← normalizeCompositeMode (in_mode inp); mergeInlineAndAllowlistFiles (mc_fs m) (mc_cwd m) (mc_getwd m) t baseDir (in_allow inp) (in_allowFile inp) in
  (tr ++ (if is_ok read then map Print (warnRemovedAllowlistInputs (mc_getenv m)) else []),
   planStart (mc_fs m) (mc_cwd m) (mc_getwd m) t (mc_getenv m) baseDir inp).

Definition runStart (cfg : startConfig) : cmd (option command_err) :=
  if decide (runtimeOS <> str "linux") then mret (Some ENotLinux)
  else
    ok ← ask (fun t => mc_write m t (under actionPath "bin")) (MkdirAll (under actionPath "bin"));
    if negb ok then mret (Some EMkdir)
    else
      _ ← prepare cfg;
      e ← stageAgent cfg;
      match e with
      | Some e => mret (Some e)
      | None =>
        plan ← planned cfg;
        match plan with Err e => mret (Some (EAllow e)) | Ok p => launch cfg p end
      end.

(** * Dispatch *)

Definition errExit (err : option command_err) : Z := match err with None => 0 | Some _ => 1 end.

Definition Commands : list bytes := map str ["start"; "stop"; "diff"; "assert-integrity"]%string.

Definition Dispatch (args : list bytes) : cmd Z :=
  match args with
  | [] => mret 2
  | name :: rest =>
    err ← (if decide (name = str "start") then match parseStartFlags rest with Err e => mret (Some (EFlags e)) | Ok cfg => runStart cfg end
           else if decide (name = str "stop") then match parseStopFlags (mc_getenv m) rest with Err e => mret (Some (EFlags e)) | Ok cfg => runStop cfg end
           else if decide (name = str "diff") then runDiff rest
           else if decide (name = str "assert-integrity") then runAssertIntegrity rest
           else mret (Some EUnknownCommand));
    mret (errExit err)
  end.

(** cmd/coldstep/main.go: [agentMain] and the validate command are given. *)
Definition runCLI (agentMain : cmd bool) (runValidate : list bytes -> cmd Z) (args : list bytes) : cmd Z :=
  match args with
  | _ :: name :: rest =>
    if decide (name = str "run") then failed ← agentMain; mret (if failed : bool then 1 else 0)
    else if decide (name = str "validate") then runValidate rest
    else if decide (name ∈ Commands) then Dispatch (name :: rest)
    else mret 2
  | _ => mret 2
  end.
End Commands.
