(* ===== verification/Gates.v ===== *)
(** The gates of the commands: what the event types and the domains of a
    report are in terms of the records of the log, and when assert-integrity
    and diff succeed. *)
From S2P Require Import Prelude GoStrings GoNet GoPath Telemetry Policy Config SafePath AllowFiles Json Allowlist DefendMaps RunStats Events Defend EventLog Report ReportReads Readiness AgentPid GoFlag Commands.

Open Scope Z_scope.

Section Records.
Context `{UnicodeCase}.

(** The line of a record that is taken to be an event. *)
Definition record_line (r : bytes) : option bytes :=
  if maxEventLineBytes <? len r then None else let line := trimEOL r in if decide (line = []) then None else Some line.

Definition record_type (r : bytes) : option bytes := line ← record_line r; Unmarshal (to_struct typedLine) [] line.

Definition domain_name (d : bytes) : option bytes := if decide (d <> [] /\ isBareIPv4 d = false) then Some (ToLower d) else None.

(** The domain that a record names: of a connection its FQDN, of a TLS event
    its SNI. *)
Definition record_domain (r : bytes) : option bytes :=
  line ← record_line r;
  t ← Unmarshal (to_struct typedLine) [] line;
  if decide (t ∈ map str ["tcp"; "tcp6"; "udp"; "udp6"]%string)
  then n ← Unmarshal (to_struct netLine_fields) (mkNet [] 0 [] false) line; domain_name (n_FQDN n)
  else if decide (t = str "tls") then l ← Unmarshal (to_struct tlsLine_fields) (mkTLSLine [] [] []) line; domain_name (t_SNI l)
  else None.

Definition opt_set (o : option bytes) : gset bytes := match o with Some x => {[x]} | None => ∅ end.

Lemma opt_set_None (X : gset bytes) : opt_set None ∪ X = X.
Proof. apply (left_id_L ∅ (∪)). Qed.

Lemma seen_countDest line a : seen (countDest line a) = seen a.
Proof. unfold countDest. repeat case_match; done. Qed.

Lemma domains_countDest line a : domains (countDest line a) =
  opt_set (n ← Unmarshal (to_struct netLine_fields) (mkNet [] 0 [] false) line; domain_name (n_FQDN n)) ∪ domains a.
Proof.
  unfold countDest. destruct (Unmarshal _ _ line) as [n|]; cbn [mbind option_bind]; [|by rewrite opt_set_None]. unfold domain_name.
  repeat (case_decide; try tauto); by rewrite ?opt_set_None.
Qed.

Lemma seen_consumeType t line a : seen (consumeType t line a) = seen a.
Proof.
  unfold consumeType, countMeta, countTLS, countDeny.
  repeat case_match; try done; by rewrite seen_countDest.
Qed.

Lemma domains_countTLS line a : domains (countTLS line a) =
  opt_set (l ← Unmarshal (to_struct tlsLine_fields) (mkTLSLine [] [] []) line; domain_name (t_SNI l)) ∪ domains a.
Proof.
  unfold countTLS. destruct (Unmarshal _ _ line) as [l|]; cbn [mbind option_bind]; [|by rewrite opt_set_None]. unfold domain_name.
  destruct (decide (t_SNI l <> [] /\ isBareIPv4 (t_SNI l) = false)); rewrite ?opt_set_None; reflexivity.
Qed.

Lemma domains_consumeType t line a : domains (consumeType t line a) =
  opt_set (if decide (t ∈ map str ["tcp"; "tcp6"; "udp"; "udp6"]%string)
    then n ← Unmarshal (to_struct netLine_fields) (mkNet [] 0 [] false) line; domain_name (n_FQDN n)
    else if decide (t = str "tls") then l ← Unmarshal (to_struct tlsLine_fields) (mkTLSLine [] [] []) line; domain_name (t_SNI l)
    else None) ∪ domains a.
Proof.
  assert (t ∈ map str ["tcp"; "tcp6"; "udp"; "udp6"]%string <-> (t = str "tcp" \/ t = str "tcp6") \/ (t = str "udp" \/ t = str "udp6")) as Ht
    by (cbn [map]; rewrite !elem_of_cons, elem_of_nil; tauto).
  unfold consumeType. destruct (decide (t = str "meta")) as [->|Hm].
  { rewrite decide_False by (apply (bool_decide_unpack _); vm_compute; exact I). rewrite decide_False by done. unfold countMeta. case_match; rewrite opt_set_None; reflexivity. }
  destruct (decide (t = str "tcp" \/ t = str "tcp6")); [rewrite (decide_True (P := t ∈ _)) by tauto; rewrite domains_countDest; by destruct (decide _)|].
  destruct (decide (t = str "udp" \/ t = str "udp6")); [rewrite (decide_True (P := t ∈ _)) by tauto; rewrite domains_countDest; by destruct (decide _)|].
  rewrite (decide_False (P := t ∈ _)) by tauto.
  destruct (decide (t = str "tls")) as [->|Htls].
  { repeat (rewrite decide_False by done). apply domains_countTLS. }
  unfold countDeny. repeat case_match; rewrite opt_set_None; reflexivity.
Qed.

Lemma record_step_seen a r : seen (record_step a r) = opt_set (record_type r) ∪ seen a.
Proof.
  unfold record_step, parseLine, record_type, record_line. destruct (maxEventLineBytes <? len r); [by rewrite opt_set_None|].
  case_decide; [by rewrite opt_set_None|]. cbn [mbind option_bind]. unfold consumeLine. destruct (Unmarshal _ _ _); [|by rewrite opt_set_None].
  rewrite seen_consumeType. cbn [opt_set see seen]. destruct (decide _); reflexivity.
Qed.

Lemma record_step_domains a r : domains (record_step a r) = opt_set (record_domain r) ∪ domains a.
Proof.
  unfold record_step, parseLine, record_domain, record_line. destruct (maxEventLineBytes <? len r); [by rewrite opt_set_None|].
  case_decide; [by rewrite opt_set_None|]. cbn [mbind option_bind]. unfold consumeLine. destruct (Unmarshal _ _ _) as [t|]; [|by rewrite opt_set_None].
  rewrite domains_consumeType. cbn [mbind option_bind see domains]. f_equal. destruct (decide (t <> str "meta")); reflexivity.
Qed.

Lemma fold_opt_set (P : Aggregate -> gset bytes) (f : bytes -> option bytes) rs a :
  (forall a r, P (record_step a r) = opt_set (f r) ∪ P a) ->
  forall x, x ∈ P (foldl record_step a rs) <-> (exists r, r ∈ rs /\ f r = Some x) \/ x ∈ P a.
Proof.
  intros Hs x. revert a. induction rs as [|r rs IH]; intros a; cbn [foldl].
  - split; [by right|]. intros [(r & Hr & _)|]; [by apply elem_of_nil in Hr|done].
  - rewrite IH, Hs, elem_of_union. split.
    + intros [(r' & Hr & E)|[Hx|]]; [left; exists r'; split; [by right|done]| |by right].
      left. exists r. split; [by left|]. destruct (f r); cbn [opt_set] in Hx; set_solver.
    + intros [(r' & [->|Hr]%elem_of_cons & E)|]; [right; left; rewrite E; set_solver|left; eauto|by do 2 right].
Qed.

(** The types and the domains of the report of a log. *)
Definition types_of (s : bytes) (t : bytes) : Prop := exists r, r ∈ records s /\ record_type r = Some t.
Definition names (s : bytes) (d : bytes) : Prop := exists r, r ∈ records s /\ record_domain r = Some d.

Lemma report_types s t : t ∈ seen (foldl record_step new_aggregate (records s)) <-> types_of s t.
Proof. rewrite (fold_opt_set seen record_type) by apply record_step_seen. set_solver. Qed.

Lemma report_domains s d : d ∈ domains (foldl record_step new_aggregate (records s)) <-> names s d.
Proof. rewrite (fold_opt_set domains record_domain) by apply record_step_domains. set_solver. Qed.

Lemma aggregate_log s e : aggregate (s, e) = Some (foldl record_step new_aggregate (records s), match e with EOF => false | ReadErr => true end).
Proof. unfold aggregate, Report.Parse. cbn [fst snd]. by rewrite parseLoop_records by lia. Qed.

Lemma MissingRequiredTypes_nil a profile : MissingRequiredTypes a profile = [] <-> forall t, t ∈ RequiredTypes profile -> t ∈ seen a.
Proof.
  unfold MissingRequiredTypes. split.
  - intros E t Ht. destruct (decide (t ∈ seen a)) as [|Hn]; [done|]. assert (t ∈ Sort (filter (fun req => req ∉ seen a) (RequiredTypes profile))) as Hin
      by (rewrite elem_of_Sort; by apply list_elem_of_filter). rewrite E in Hin. by apply elem_of_nil in Hin.
  - intros Ha. destruct (Sort _) as [|t l] eqn:E; [done|]. assert (t ∈ t :: l) as Hin by by left. rewrite <- E, elem_of_Sort in Hin.
    apply list_elem_of_filter in Hin as [Hn Ht]. by apply Ha in Ht.
Qed.

Lemma added_nil a b : (DiffDomains a b).1 = [] <-> domains a ⊆ domains b.
Proof.
  unfold DiffDomains. cbn [fst]. split.
  - intros E d Hd. destruct (decide (d ∈ domains b)) as [|Hn]; [done|]. assert (d ∈ Sort (elements (domains a ∖ domains b))) as Hin
      by (rewrite elem_of_Sort, elem_of_elements; set_solver). rewrite E in Hin. by apply elem_of_nil in Hin.
  - intros Hs. replace (domains a ∖ domains b) with (∅ : gset bytes) by set_solver. by rewrite elements_empty.
Qed.
End Records.

Section Gates.
Context `{UnicodeCase} (m : machine).

(** A command that takes a confined path. *)
Lemma confined_inv label raw k tr : (confined m label raw k tr).2 = None <->
  exists p, Workspace (os_at m (length tr)) raw = Some (Ok p) /\ (k p tr).2 = None.
Proof.
  unfold confined, workspace. run. split.
  - destruct (Workspace _ _) as [[p|e]|]; run; [eauto|discriminate|discriminate].
  - intros (p & -> & Hk). exact Hk.
Qed.

(** A log that is read to its end. *)
Lemma load_log_inv path (k : Aggregate -> cmd (option command_err)) (e : command_err) tr :
  ((agg ← parseAggregateFile m path; match agg with None => mret (Some e) | Some a => k a end) tr).2 = None <->
  exists s, mc_log m (length tr) path = Some (s, EOF) /\
    (k (foldl record_step new_aggregate (records s)) (tr ++ [OpenLog path (Some (s, EOF))])).2 = None.
Proof.
  unfold parseAggregateFile. run. split.
  - destruct (mc_log m (length tr) path) as [[s en]|] eqn:E; cbn [mbind option_bind]; run; [|discriminate]. rewrite aggregate_log. destruct en; run; [eauto|discriminate].
  - intros (s & -> & Hk). cbn [mbind option_bind]. by rewrite aggregate_log.
Qed.

Lemma integrityVerdict_ok profile a tr : (integrityVerdict profile a tr).2 = None <-> forall t, t ∈ RequiredTypes profile -> t ∈ seen a.
Proof.
  rewrite <- MissingRequiredTypes_nil. unfold integrityVerdict. destruct (decide (MissingRequiredTypes a profile <> [])) as [Hn|Hn]; run; split; try done.
  intros _. by apply dec_stable.
Qed.

Lemma diffVerdict_ok fs p a b tr : (diffVerdict m fs p a b tr).2 = None <->
  mc_write m (length tr) p = true /\ (bool_flag fs "fail-on-new-domain" = true -> domains a ⊆ domains b).
Proof.
  rewrite <- added_nil. unfold diffVerdict, appendFile. destruct (DiffDomains a b) as [added removed]. run.
  destruct (mc_write m (length tr) p); cbn [negb]; [|run; split; [discriminate|by intros [? _]]].
  destruct (bool_flag fs "fail-on-new-domain"); cbn [andb]; [|run; split; [by split|done]].
  case_bool_decide; cbn [negb]; run; split; try done. intros [_ Hx]. by specialize (Hx eq_refl).
Qed.

(** C22: assert-integrity succeeds exactly when its arguments and its path are
    accepted, the log reads to its end, and for every event type that the
    profile requires some record of the log is an event of that type. *)
Theorem integrity_gate_exact args tr : (runAssertIntegrity m args tr).2 = None <->
  exists fs profile path s, GoFlag.Parse (integrityFlags m) args = Ok fs /\ profileOf m (string_flag fs "detect-profile") = Ok profile /\
    Workspace (os_at m (length tr)) (string_flag fs "in") = Some (Ok path) /\ mc_log m (length tr) path = Some (s, EOF) /\
    forall t, t ∈ RequiredTypes profile -> types_of s t.
Proof.
  unfold runAssertIntegrity. destruct (GoFlag.Parse (integrityFlags m) args) as [fs|e]; [|split; [done|intros (? & ? & ? & ? & ? & _); done]].
  destruct (profileOf m (string_flag fs "detect-profile")) as [profile|e] eqn:Ep; [|split; [done|intros (? & ? & ? & ? & [= <-] & ? & _); congruence]].
  rewrite confined_inv. split.
  - intros (path & Hw & Hk). apply load_log_inv in Hk as (s & Hs & Hk). pose proof (proj1 (integrityVerdict_ok _ _ _) Hk) as Ht. exists fs, profile, path, s. split_and!; try done.
    intros t Hr. by apply report_types, Ht.
  - intros (fs' & profile' & path & s & [= <-] & Ep' & Hw & Hs & Ht). rewrite Ep in Ep'. injection Ep' as <-. exists path. split; [done|].
    apply load_log_inv. exists s. split; [done|]. apply integrityVerdict_ok. intros t Hr. by apply report_types, Ht.
Qed.

(** diff succeeds exactly when its arguments and its three paths are
    accepted, both logs read to their ends, the block is appended to the
    summary, and, where new domains are to fail it, every domain that a record
    of the current log names is named in the baseline. *)
Theorem diff_gate_exact args tr : (runDiff m args tr).2 = None <->
  exists fs current baseline summary cur base, GoFlag.Parse (diffFlags m) args = Ok fs /\
    TrimSpace (string_flag fs "summary") <> [] /\ TrimSpace (string_flag fs "baseline") <> [] /\
    Workspace (os_at m (length tr)) (string_flag fs "current") = Some (Ok current) /\
    Workspace (os_at m (length tr)) (string_flag fs "baseline") = Some (Ok baseline) /\
    Workspace (os_at m (length tr)) (string_flag fs "summary") = Some (Ok summary) /\
    mc_log m (length tr) current = Some (cur, EOF) /\ mc_log m (S (length tr)) baseline = Some (base, EOF) /\
    mc_write m (S (S (length tr))) summary = true /\
    (bool_flag fs "fail-on-new-domain" = true -> forall d, names cur d -> names base d).
Proof.
  unfold runDiff. destruct (GoFlag.Parse (diffFlags m) args) as [fs|e]; [|split; [done|intros (? & ? & ? & ? & ? & ? & ? & _); done]].
  destruct (decide (TrimSpace (string_flag fs "summary") = [])) as [Es|Es]; [split; [done|intros (? & ? & ? & ? & ? & ? & [= <-] & ? & _); done]|].
  destruct (decide (TrimSpace (string_flag fs "baseline") = [])) as [Eb|Eb]; [split; [done|intros (? & ? & ? & ? & ? & ? & [= <-] & ? & ? & _); done]|].
  rewrite confined_inv. split.
  - intros (current & Hc & Hk). apply confined_inv in Hk as (baseline & Hb & Hk). apply confined_inv in Hk as (summary & Hs & Hk).
    apply load_log_inv in Hk as (cur & Hcur & Hk). apply load_log_inv in Hk as (base & Hbase & Hk). destruct (proj1 (diffVerdict_ok _ _ _ _ _) Hk) as [Hw Hd].
    rewrite !length_app in *. cbn [length] in *. rewrite !Nat.add_1_r in *.
    exists fs, current, baseline, summary, cur, base. split_and!; try done.
    intros Hf d Hn. apply report_domains, (Hd Hf). by apply report_domains.
  - intros (fs' & current & baseline & summary & cur & base & [= <-] & _ & _ & Hc & Hb & Hs & Hcur & Hbase & Hw & Hd).
    exists current. split; [done|]. apply confined_inv. exists baseline. split; [done|]. apply confined_inv. exists summary. split; [done|].
    apply load_log_inv. exists cur. split; [done|]. apply load_log_inv. exists base. rewrite length_app, Nat.add_1_r. split; [done|].
    apply diffVerdict_ok. rewrite !length_app, !Nat.add_1_r. split; [done|]. intros Hf d Hn. apply report_domains, (Hd Hf). by apply report_domains.
Qed.
End Gates.

(** The types of a log that the agent wrote are those of its lines: the gate
    sees what was logged. *)
Lemma written_types `{UnicodeCase} Sign s ls t : (forall k x, wf_bytes (Sign k x)) -> Forall report_line ls -> Forall (line_fits Sign s) ls ->
  types_of (write_log Sign s ls) t <-> t ∈ map line_type ls.
Proof.
  intros Hsig Hls Hfs. pose proof (parse_written Sign s ls Hsig Hls Hfs) as E. unfold Report.Parse in E. rewrite parseLoop_records in E by lia.
  injection E as E. rewrite <- report_types, E, fold_seen. apply elem_of_list_to_set.
Qed.
