(* ===== verification/CommandRuns.v ===== *)
(** What the start and stop commands do: the actions of every run. *)
From S2P Require Import Prelude GoStrings GoNet GoPath Telemetry Policy Config SafePath AllowFiles Json Report ReportReads Readiness AgentPid ReportText GoFlag Commands Gates.

Open Scope Z_scope.

(** * Reasoning about commands

    [wp c Q tr]: run after [tr], the command adds actions and returns a value
    that [Q] holds of. *)
Definition wp {A} (c : cmd A) (Q : list act -> A -> Prop) (tr : trace) : Prop := exists acts a, c tr = (tr ++ acts, a) /\ Q acts a.

Section WP.
Context {A B : Type}.
Implicit Types (Q : list act -> A -> Prop) (tr : trace).

Lemma wp_ret (a : A) Q tr : Q [] a -> wp (mret a) Q tr.
Proof. exists [], a. by rewrite app_nil_r. Qed.

Lemma wp_ask (answer : nat -> A) mk Q tr : Q [mk (answer (length tr))] (answer (length tr)) -> wp (ask answer mk) Q tr.
Proof. intros HQ. by exists [mk (answer (length tr))], (answer (length tr)). Qed.

Lemma cmd_wp_bind (c : cmd B) (f : B -> cmd A) Q tr :
  wp c (fun acts b => wp (f b) (fun acts' a => Q (acts ++ acts') a) (tr ++ acts)) tr -> wp (c ≫= f) Q tr.
Proof.
  intros (acts & b & E & acts' & a & E' & HQ). exists (acts ++ acts'), a. rewrite run_bind, E. cbn [fst snd]. by rewrite E', app_assoc.
Qed.

Lemma cmd_wp_mono (c : cmd A) Q Q' tr : wp c Q tr -> (forall acts a, Q acts a -> Q' acts a) -> wp c Q' tr.
Proof. intros (acts & a & E & HQ) Hi. exists acts, a. auto. Qed.

Lemma wp_and (c : cmd A) Q Q' tr : wp c Q tr -> wp c Q' tr -> wp c (fun acts a => Q acts a /\ Q' acts a) tr.
Proof.
  intros (acts & a & E & HQ) (acts' & a' & E' & HQ'). rewrite E in E'. injection E' as Ea <-. apply app_inv_head in Ea as <-. by exists acts, a.
Qed.
End WP.

Lemma wp_emit a (Q : list act -> unit -> Prop) tr : Q [a] tt -> wp (emit a) Q tr.
Proof. by exists [a], tt. Qed.

(** Commands whose actions are all of some kind. *)
Definition only {A} (P : act -> Prop) (c : cmd A) : Prop := forall tr, wp c (fun acts _ => Forall P acts) tr.

Lemma only_ret {A} P (a : A) : only P (mret a).
Proof. intros tr. by apply wp_ret. Qed.
Lemma only_emit P a : P a -> only P (emit a).
Proof. intros Ha tr. apply wp_emit. by apply Forall_singleton. Qed.
Lemma only_ask {A} P (answer : nat -> A) mk : (forall b, P (mk b)) -> only P (ask answer mk).
Proof. intros Hm tr. apply wp_ask. by apply Forall_singleton. Qed.
Lemma only_bind {A B} P (c : cmd A) (f : A -> cmd B) : only P c -> (forall a, only P (f a)) -> only P (c ≫= f).
Proof.
  intros Hc Hf tr. apply cmd_wp_bind. eapply cmd_wp_mono; [apply Hc|]. intros acts a Ha. eapply cmd_wp_mono; [apply Hf|]. intros acts' b Hb. by apply Forall_app.
Qed.

Create HintDb commands.
#[export] Hint Resolve only_ret only_emit only_ask only_bind : commands.

(** Solves [only P c] for a command written out, by cases on what it tests. *)
Ltac only_steps := repeat first
  [ apply only_ret | apply only_emit | apply only_ask; intros ? | apply only_bind; [|intros ?]
  | match goal with |- only _ (if ?b then _ else _) => destruct b | |- only _ (match ?x with _ => _ end) => destruct x end ].

(** The cases of a membership in a list that is written out. *)
Ltac elems H := cbn [app] in H; rewrite ?elem_of_cons, ?elem_of_nil in H; destruct_or? H; simplify_eq; try done.

Section Stop.
Context `{UnicodeCase} (m : machine).

(** ** The log that is published *)

(** An action that shows the aggregate of a log. *)
Definition shows (log : option (bytes * read_end)) (x : act) : Prop :=
  match x with
  | WriteFile _ data _ => exists a cut, log ≫= aggregate = Some (a, cut) /\ data = RenderDetailed a
  | AppendFile _ data _ => exists a cut, log ≫= aggregate = Some (a, cut) /\ data = summaryBlock a
  | PostComment token body _ => token <> [] /\ exists a cut, log ≫= aggregate = Some (a, cut) /\ body = RenderDetailed a
  | Warn NoEventStream => log = None
  | Warn NoWorkloadTelemetry => exists a cut, log ≫= aggregate = Some (a, cut) /\ ct a NonMetaEvents = 0
  | _ => False
  end.

(** The wait for the exit of a process that the action [t] starts: signal 0 is
    sent every 100 milliseconds until it is not delivered, or ten seconds have
    gone.  An answer of [Some true] is a signal that was not delivered: the
    process is gone, or does not belong to the user. *)
Definition waited (t : nat) (o : option bool) : Prop :=
  let polls := mc_exitPolls m t in
  ticking (mc_clock m t) (100 * Millisecond) polls ->
  exists j, (forall i, (i < j)%nat -> (polls i).1 = Delivered /\ (polls i).2 < mc_clock m t + 10 * Second) /\
    o = Some (bool_decide ((polls j).1 <> Delivered)) /\ ((polls j).1 = Delivered -> mc_clock m t + 10 * Second <= (polls j).2).

(** The actions that stop the agent, from the action [t] on: its number is read;
    where there is one, the process is asked to end, through sudo too if the
    signal is not permitted, and waited for. *)
Definition stops (t : nat) (x : list act) : Prop :=
  exists data, match data ≫= pidOf with
  | None => x = [ReadFile (pidFile m) data]
  | Some pid => exists answer sudo o, 0 < pid /\ x = [ReadFile (pidFile m) data; SignalTerm pid answer] ++ sudo ++ [WaitExit pid o] /\
      (if decide (answer = NotPermitted) then exists ok, sudo = [SudoKill pid ok] else sudo = []) /\ waited (t + 2 + length sudo) o
  end.

Lemma pidOf_pos raw pid : pidOf raw = Some pid -> 0 < pid.
Proof. intros E. unfold pidOf in E. apply bind_Some in E as (x & _ & E). destruct (Z.ltb_spec 0 x); [|done]. by injection E as <-. Qed.

Lemma waited_for t pid : 0 < pid -> waited t (waitForAgentExit (mc_clock m t) (mc_exitPolls m t) pid (10 * Second) (100 * Millisecond)).
Proof. intros Hp Ht. by apply waitForAgentExit_spec. Qed.

Lemma stopAgent_stops : forall tr, wp (stopAgent m (pidFile m)) (fun acts _ => stops (length tr) acts) tr.
Proof.
  intros tr. unfold stopAgent, readFile. apply cmd_wp_bind, wp_ask. set (data := mc_read m _ _).
  destruct (data ≫= pidOf) as [pid|] eqn:E; [|apply wp_ret; exists data; by rewrite E].
  assert (0 < pid) as Hp by (apply bind_Some in E as (raw & _ & E); by eapply pidOf_pos).
  apply cmd_wp_bind, wp_ask, cmd_wp_bind. set (answer := mc_signal m _).
  assert (forall sudo, (if decide (answer = NotPermitted) then exists ok, sudo = [SudoKill pid ok] else sudo = []) -> forall t, t = (length tr + 2 + length sudo)%nat ->
    stops (length tr) ([ReadFile (pidFile m) data; SignalTerm pid answer] ++ sudo ++
      [WaitExit pid (waitForAgentExit (mc_clock m t) (mc_exitPolls m t) pid (10 * Second) (100 * Millisecond))])) as Hstops.
  { intros sudo Hs t ->. exists data. rewrite E. eexists answer, sudo, _. split; [done|]. split; [reflexivity|]. split; [done|by apply waited_for]. }
  destruct (decide (answer = NotPermitted)) as [Ha|Ha].
  - apply wp_ask, cmd_wp_bind, wp_ask, wp_ret. apply (Hstops [SudoKill pid _]); [by eexists|]. rewrite !length_app. cbn [length]. lia.
  - apply wp_ret, cmd_wp_bind, wp_ask, wp_ret. apply (Hstops []); [done|]. rewrite !length_app. cbn [length]. lia.
Qed.

Lemma report_shows dir out : forall tr, wp (writeDetailedMarkdownReport m dir out) (fun acts agg =>
  let path := under dir ".coldstep-events.jsonl" in let log := mc_log m (length tr) path in
  exists after, acts = OpenLog path log :: after /\ Forall (shows log) after /\ agg = (x ← log; fst <$> aggregate x)) tr.
Proof.
  intros tr. unfold writeDetailedMarkdownReport. apply cmd_wp_bind, wp_ask. set (log := mc_log m (length tr) _).
  destruct (log ≫= aggregate) as [[a cut]|] eqn:E.
  - assert (forall p ok, shows log (WriteFile p (RenderDetailed a) ok)) as Hs by (intros p ok; by exists a, cut).
    assert ((x ← log; fst <$> aggregate x) = Some a) as Ha.
    { destruct log as [x|]; [|done]. cbn [mbind option_bind] in *. by rewrite E. }
    unfold writeFile. apply cmd_wp_bind, wp_ask, cmd_wp_bind. case_decide; [apply wp_ask|]; apply wp_ret, wp_ret || apply wp_ret; cbn [app]; eexists; (split; [reflexivity|]); (split; [|done]); repeat constructor; by exists a, cut.
  - apply wp_ret. cbn [app]. eexists. split; [reflexivity|]. split; [constructor|]. destruct log as [x|]; [|done]. cbn [mbind option_bind] in *. by rewrite E.
Qed.

(** What a stop that insists on a ready agent looks at, and whether it finds the
    agent ready: the marker of the start command, else the status file. *)
Definition looked (cfg : stopConfig) (x : list act) (ready : bool) : Prop :=
  if st_FailOnError cfg then
    (x = [Stat (readyMarker m) true] /\ ready = true) \/
    exists raw, x = [Stat (readyMarker m) false; ReadFile (agentStatus m) raw] /\ ready = (readReady raw).1
  else x = [] /\ ready = true.

Lemma checkReady_looks cfg tr : wp (checkReady m cfg) (looked cfg) tr.
Proof.
  unfold checkReady, looked, statFile, readFile. destruct (st_FailOnError cfg); [|by apply wp_ret].
  apply cmd_wp_bind, wp_ask. destruct (mc_stat m _ _); [apply wp_ret; by left|].
  apply cmd_wp_bind, wp_ask, wp_ret. right. by eexists.
Qed.

Lemma warn_shows log agg : agg = (x ← log; fst <$> aggregate x) -> only (shows log) (warnNothing agg).
Proof.
  intros ->. unfold warnNothing. destruct log as [[s e]|]; cbn [mbind option_bind]; [|by apply only_emit]. rewrite aggregate_log. cbn [fmap option_fmap option_map fst].
  destruct (CapturedNothing _) eqn:E; [|apply only_ret]. apply only_emit. cbn [shows mbind option_bind]. rewrite aggregate_log. eexists _, _. split; [reflexivity|].
  by apply Z.eqb_eq.
Qed.

Lemma summary_shows log a cut : log ≫= aggregate = Some (a, cut) -> only (shows log) (publishSummary m a).
Proof. intros E. unfold publishSummary, appendFile. only_steps. by exists a, cut. Qed.

Lemma comment_shows log a cut cfg : log ≫= aggregate = Some (a, cut) -> only (shows log) (publishComment m cfg a).
Proof.
  intros E. unfold publishComment. cbn zeta. destruct (decide (_ <> [])); [|apply only_ret]. only_steps. split; [done|]. by exists a, cut.
Qed.

Lemma strictGate_ok cfg log : strictGate m cfg (x ← log; fst <$> aggregate x) = None <->
  (st_Strict cfg = true -> exists s e profile, log = Some (s, e) /\
     ResolveDetectProfile (st_DetectProfile cfg) (env m "COLDSTEP_DETECT_PROFILE") = Ok profile /\ forall t, t ∈ RequiredTypes profile -> types_of s t).
Proof.
  unfold strictGate. destruct (st_Strict cfg); [|done]. destruct log as [[s e]|]; cbn [mbind option_bind]; [|split; [done|]; intros Hs; by destruct (Hs eq_refl) as (? & ? & ? & ? & _)].
  rewrite aggregate_log. cbn [fmap option_fmap option_map fst].
  destruct (ResolveDetectProfile _ _) as [profile|err]; [|split; [done|]; intros Hs; by destruct (Hs eq_refl) as (? & ? & ? & ? & ? & _)].
  assert (MissingRequiredTypes (foldl record_step new_aggregate (records s)) profile = [] <-> forall t, t ∈ RequiredTypes profile -> types_of s t) as Hm.
  { rewrite MissingRequiredTypes_nil. by setoid_rewrite report_types. }
  destruct (decide (_ <> [])) as [Hn|Hn]; split; try done.
  - intros Hs. destruct (Hs eq_refl) as (s' & e' & p' & [= <- <-] & [= <-] & Ht). by destruct Hn; apply Hm.
  - intros _ _. exists s, e, profile. split_and!; try done. apply Hm. by apply dec_stable.
Qed.

(** C19: A stop has one of two runs.  Where it has to fail on errors and finds
    neither the marker of a ready agent nor a status file that says ready, it
    fails without having done anything else.  In every other case it asks the
    agent of the pid file to end and polls for its exit ([stops]: until a signal
    is not delivered, which may also be because the agent is not the user's, or
    for ten seconds; so the agent may still run, [stop_does_not_wait]); only
    then does it open the log; everything that it writes, appends or posts
    after that is the rendering of that log; and it fails at the end exactly
    when the strict gate is on and the log is missing, the profile unknown, or
    no record has some type that the profile requires. *)
Theorem stop_publishes_log cfg tr : exists acts r, runStop m cfg tr = (tr ++ acts, r) /\
  ((looked cfg acts false /\ r = Some EAgentNotReady) \/
   exists ready stopping after, let path := under (baseDir m) ".coldstep-events.jsonl" in
     let log := mc_log m (length (tr ++ ready ++ stopping)) path in
     acts = ready ++ stopping ++ OpenLog path log :: after /\
     looked cfg ready true /\ stops (length (tr ++ ready)) stopping /\ Forall (shows log) after /\
     (r = None <-> (st_Strict cfg = true -> exists s e profile, log = Some (s, e) /\
        ResolveDetectProfile (st_DetectProfile cfg) (env m "COLDSTEP_DETECT_PROFILE") = Ok profile /\ forall t, t ∈ RequiredTypes profile -> types_of s t))).
Proof.
  match goal with |- exists acts r, runStop m cfg tr = _ /\ ?Q => change (wp (runStop m cfg) (fun acts r => Q) tr) end.
  unfold runStop. apply cmd_wp_bind. eapply cmd_wp_mono; [apply checkReady_looks|]. intros ready isReady Hready. cbn beta.
  destruct isReady; cbn [negb]; [|apply wp_ret; left; rewrite app_nil_r; done].
  apply cmd_wp_bind. eapply cmd_wp_mono; [apply stopAgent_stops|]. intros stopping [] Hst. cbn beta.
  apply cmd_wp_bind. eapply cmd_wp_mono; [apply report_shows|]. intros reporting agg. cbn beta zeta. rewrite <- (app_assoc tr). intros (after & -> & Hafter & Hagg).
  set (log := mc_log m _ _) in *.
  assert (only (shows log) (match agg with Some a => if (parseReportFlags (st_Report cfg)).1 then publishSummary m a else mret tt | None => mret tt end)) as H1.
  { destruct agg as [a|]; [|apply only_ret]. destruct (parseReportFlags _).1; [|apply only_ret]. destruct log as [x|]; [|done]. cbn [mbind option_bind] in Hagg.
    destruct (aggregate x) as [[a' cut]|] eqn:Ea; [|done]. injection Hagg as <-. by apply (summary_shows (Some x) a cut). }
  assert (only (shows log) (match agg with Some a => if (parseReportFlags (st_Report cfg)).2 then publishComment m cfg a else mret tt | None => mret tt end)) as H2.
  { destruct agg as [a|]; [|apply only_ret]. destruct (parseReportFlags _).2; [|apply only_ret]. destruct log as [x|]; [|done]. cbn [mbind option_bind] in Hagg.
    destruct (aggregate x) as [[a' cut]|] eqn:Ea; [|done]. injection Hagg as <-. by apply (comment_shows (Some x) a cut). }
  apply cmd_wp_bind. eapply cmd_wp_mono; [by apply (warn_shows log)|]. intros w [] Hw. cbn beta.
  destruct (parseReportFlags (st_Report cfg)) as [js pr]. cbn [fst snd] in *.
  apply cmd_wp_bind. eapply cmd_wp_mono; [apply H1|]. intros x1 [] Hx1. cbn beta. apply cmd_wp_bind. eapply cmd_wp_mono; [apply H2|]. intros x2 [] Hx2. cbn beta.
  apply wp_ret. right. exists ready, stopping, (after ++ w ++ x1 ++ x2). cbn zeta. fold log. split_and!.
  - rewrite app_nil_r. cbn [app]. by rewrite <- ?app_assoc.
  - done.
  - done.
  - by repeat apply Forall_app_2.
  - rewrite Hagg. apply strictGate_ok.
Qed.

(** The strict gate changes nothing of what is done. *)
Lemma strict_same_actions cfg b tr :
  (runStop m (mkStopConfig (st_FailOnError cfg) (st_Report cfg) (st_GithubToken cfg) b (st_DetectProfile cfg) (st_DigestOutput cfg)) tr).1 = (runStop m cfg tr).1.
Proof.
  unfold runStop. rewrite !run_bind. change (checkReady m _) with (checkReady m cfg) at 1 2. destruct (negb _); [done|]. rewrite !run_bind. cbn [st_Report st_DigestOutput].
  destruct (parseReportFlags _) as [js pr]. rewrite !run_bind. done.
Qed.
End Stop.

(** * start *)

Section Start.
Context `{UnicodeCase} (m : machine).

(** What the clocks and the process table of a machine do. *)
Record sane : Prop := mkSane {
  sane_spawn : forall t pid, mc_spawn m t = Some pid -> 0 < pid;
  sane_ready : forall t, timely (mc_clock m t) (mc_readyPolls m t);
  sane_search : forall t, mc_clock m t <= mc_pidClock m t O /\ forall k, mc_pidClock m t k + pidPollInterval <= mc_pidClock m t (S k) }.

Hypothesis Hsane : sane.

(** The process that the search below [sudo] may give. *)
Definition agent_of (t : nat) (sudo pid : Z) : Prop := agent_below (mc_comm m t) (mc_children m t) sudo (str "coldstep") pid \/ pid = sudo.

(** The processes that were started, with the answers, and the signals that were
    sent. *)
Definition spawns (acts : list act) : list (list (bytes * bytes) * option Z) := omap (fun x => match x with Spawn env p => Some (env, p) | _ => None end) acts.
Definition signals (acts : list act) : list Z := omap (fun x => match x with SignalTerm pid _ | SudoKill pid _ => Some pid | _ => None end) acts.

(** An action that starts and ends no process. *)
Definition calm (x : act) : Prop := match x with Spawn _ _ | SignalTerm _ _ | SudoKill _ _ => False | _ => True end.

Lemma calm_none acts : Forall calm acts -> spawns acts = [] /\ signals acts = [].
Proof. unfold spawns, signals. induction 1 as [|x acts Hx _ [IH1 IH2]]; [done|]. by destruct x. Qed.

(** What follows the start of the process below [sudo]: the agent is looked for
    once, and then
    - on an error, one signal is sent, to the agent, as the last action;
    - on success no signal is sent, the number of the agent is in the pid file,
      and where readiness is asked for the agent reported ready after that and
      the marker was written last. *)
Definition started (cfg : startConfig) (sudo : Z) (acts : list act) (r : option command_err) : Prop :=
  exists t agent rest, acts = FindAgent sudo (Some agent) :: rest /\ agent_of t sudo agent /\
    match r with
    | Some _ => exists front answer, rest = front ++ [SignalTerm agent answer] /\ Forall calm front
    | None => exists after, rest = WriteFile (pidFile m) (Itoa agent) true :: after /\ Forall calm after /\
        (sc_FailOnError cfg = true -> exists smoke, after = smoke ++ [WaitReady agent (Some OReady); WriteFile (readyMarker m) (str "true") true])
    end.

Lemma terminate_last agent tr : 0 < agent -> wp (terminate m agent) (fun acts _ => exists answer, acts = [SignalTerm agent answer]) tr.
Proof. intros Ha. unfold terminate. rewrite (proj2 (Z.ltb_lt _ _)) by done. apply cmd_wp_bind, wp_ask, wp_ret. by eexists. Qed.

Lemma awaitAgent_started cfg sudo tr : 0 < sudo -> wp (awaitAgent m cfg sudo) (started cfg sudo) tr.
Proof.
  intros Hsudo. unfold awaitAgent. apply cmd_wp_bind, wp_ask. set (t := length tr).
  destruct (sane_search Hsane t) as [H0 Hs].
  destruct (findAgentPID_sound (mc_comm m t) (mc_tasks m t) (mc_children m t) (mc_clock m t) (mc_pidClock m t) sudo (2 * Second) Hsudo H0 Hs)
    as (agent & Ef & Ha). rewrite Ef.
  assert (agent_of t sudo agent) as Hof by (destruct Ha as [|[-> _]]; [by left|by right]).
  assert (0 < agent) as Hpos by (destruct Hof as [(_ & ? & _)| ->]; done).
  assert (forall rest e tr, Forall calm rest -> wp (_ ← terminate m agent; mret (Some e)) (fun acts r => started cfg sudo ([FindAgent sudo (Some agent)] ++ rest ++ acts) r) tr) as Hterm.
  { intros rest e tr' Hr. apply cmd_wp_bind. eapply cmd_wp_mono; [by apply terminate_last|]. intros acts [] [answer ->]. apply wp_ret.
    exists t, agent. eexists. split; [reflexivity|]. split; [done|]. by exists rest, answer. }
  unfold writeFile. apply cmd_wp_bind, wp_ask. destruct (mc_write m _ (pidFile m)); cbn [negb]; [|apply (Hterm [_]); by repeat constructor].
  apply cmd_wp_bind. assert (only calm (if sc_SmokeTestEgress cfg then emit SmokeTest else mret tt)) as Hsmoke by by only_steps.
  eapply cmd_wp_mono; [apply Hsmoke|]. intros smoke [] Hcalm. destruct (sc_FailOnError cfg) eqn:Efail.
  2:{ apply wp_ret. exists t, agent. eexists. split; [reflexivity|]. split; [done|]. rewrite app_nil_r. exists smoke. split; [done|]. split; [done|congruence]. }
  apply cmd_wp_bind, wp_ask. set (t' := length _).
  destruct (waitForReady_returns (mc_clock m t') (mc_readyPolls m t') (clamp (sc_ReadyTimeoutSeconds cfg) 60 2700 * Second) agent (sane_ready Hsane t')) as [o Eo].
  rewrite Eo. set (front := [WriteFile (pidFile m) (Itoa agent) true] ++ smoke ++ [WaitReady agent (Some o)]).
  assert (Forall calm front) as Hfront by (unfold front; rewrite !Forall_app; split_and!; [by repeat constructor|done|by repeat constructor]).
  assert (forall e tr, wp (_ ← terminate m agent; mret (Some e)) (fun acts r => started cfg sudo ([FindAgent sudo (Some agent)] ++ [WriteFile (pidFile m) (Itoa agent) true] ++
      smoke ++ [WaitReady agent (Some o)] ++ acts) r) tr) as Hnot.
  { intros e tr'. eapply cmd_wp_mono; [by apply (Hterm front e)|]. intros acts r. unfold front. by rewrite <- !app_assoc. }
  destruct o; try (by apply Hnot). apply cmd_wp_bind, wp_ask. destruct (mc_write m _ (readyMarker m)); cbn [negb].
  - apply wp_ret. exists t, agent. eexists. split; [reflexivity|]. split; [done|]. eexists. split; [reflexivity|]. rewrite app_nil_r. split; [|by exists smoke].
    apply Forall_app. split; [done|by repeat constructor].
  - eapply cmd_wp_mono; [apply (Hterm (front ++ [WriteFile (readyMarker m) (str "true") false])); apply Forall_app; split; [done|by repeat constructor]|].
    intros acts r. unfold front. by rewrite <- !app_assoc.
Qed.

Lemma confined_only P label raw k : (forall p, only P (k p)) -> only P (confined m label raw k).
Proof.
  intros Hk. apply only_bind; [intros tr; by exists [], (Workspace (os_at m (length tr)) raw); rewrite app_nil_r|].
  intros [[p|e]|]; [apply Hk|apply only_ret..].
Qed.

Lemma prepare_quiet cfg : only calm (prepare m cfg).
Proof. unfold prepare. by only_steps. Qed.

Lemma stageAgent_quiet cfg : only calm (stageAgent m cfg).
Proof.
  unfold stageAgent. case_decide; [|by only_steps]. apply confined_only. intros src. unfold statFile, readFile, writeFile. by only_steps.
Qed.

Lemma planned_quiet cfg tr : wp (planned m cfg) (fun acts p => Forall calm acts /\
  p = planStart (mc_fs m) (mc_cwd m) (mc_getwd m) (length tr) (mc_getenv m) (baseDir m) (startInputsOf cfg)) tr.
Proof.
  eexists _, _. split; [reflexivity|]. split; [|reflexivity]. destruct (is_ok _); [|constructor]. apply Forall_fmap, Forall_forall. by intros.
Qed.

(** A start of which no process came: at most one attempt, which failed, and
    no signal; and one of which one process came, with the environment of an
    accepted plan: the only attempt of the run, with no signal before it. *)
Definition not_started (acts : list act) (r : option command_err) : Prop :=
  r <> None /\ signals acts = [] /\ (spawns acts = [] \/ exists env, spawns acts = [(env, None)]).

Definition start_result (cfg : startConfig) (acts : list act) (r : option command_err) : Prop :=
  not_started acts r \/
  exists t plan sudo before after, let env := childEnv (mc_getenv m) (baseDir m) (agentStatus m) (startInputsOf cfg) plan in
    planStart (mc_fs m) (mc_cwd m) (mc_getwd m) t (mc_getenv m) (baseDir m) (startInputsOf cfg) = Ok plan /\ 0 < sudo /\
    acts = before ++ Spawn env (Some sudo) :: after /\ spawns acts = [(env, Some sudo)] /\ signals before = [] /\ started cfg sudo after r.

Lemma quiet_not_started acts e : Forall calm acts -> not_started acts (Some e).
Proof. intros Hq. destruct (calm_none acts Hq). split; [done|]. split; [done|by left]. Qed.

Lemma spawns_app a b : spawns (a ++ b) = spawns a ++ spawns b.
Proof. apply omap_app. Qed.
Lemma signals_app a b : signals (a ++ b) = signals a ++ signals b.
Proof. apply omap_app. Qed.

Lemma started_spawns_none cfg sudo acts r : started cfg sudo acts r -> spawns acts = [].
Proof.
  intros (t & agent & rest & -> & _ & Hr). change (spawns (?x :: rest)) with (spawns rest). destruct r as [e|].
  - destruct Hr as (front & answer & -> & Hf). rewrite spawns_app. by rewrite (proj1 (calm_none _ Hf)).
  - destruct Hr as (after & -> & Ha & _). change (spawns (?x :: after)) with (spawns after). exact (proj1 (calm_none _ Ha)).
Qed.

(** C18: On a machine whose process numbers are positive, whose clock does not
    go backwards and whose polls and searches take their time ([sane]), a start
    command has one of two results.  Either it returns an error, has tried to
    start the agent at most once and got no process, and has signalled
    nobody.  Or it has started one process, once, in the environment of a plan
    that the validation accepted; it then looked for the agent, which is a
    process below sudo that runs coldstep, or sudo itself; if it returns an
    error, its last action is the only signal, a termination signal to that
    agent (which may be refused: [root_agent_left_running]); if it succeeds it
    signalled nobody, the agent's number is in the pid file and, where readiness
    is asked for, the agent then reported ready and the marker is written. *)
Theorem start_outcome cfg tr : exists acts r, runStart m cfg tr = (tr ++ acts, r) /\ start_result cfg acts r.
Proof.
  change (wp (runStart m cfg) (start_result cfg) tr). unfold runStart.
  case_decide; [apply wp_ret; left; by apply (quiet_not_started [])|].
  apply cmd_wp_bind, wp_ask. destruct (mc_write m _ _); cbn [negb]; [|apply wp_ret; left; apply quiet_not_started; by repeat constructor].
  set (mk := MkdirAll _ _). assert (Forall calm [mk]) as Hmk by by repeat constructor.
  apply cmd_wp_bind. eapply cmd_wp_mono; [apply prepare_quiet|]. intros a1 [] H1. apply cmd_wp_bind. eapply cmd_wp_mono; [apply stageAgent_quiet|].
  intros a2 [e|] H2; [apply wp_ret; left; apply quiet_not_started; rewrite app_nil_r; by repeat apply Forall_app_2|].
  apply cmd_wp_bind. eapply cmd_wp_mono; [apply planned_quiet|]. intros a3 plan [H3 Hplan]. destruct plan as [p|e];
    [|apply wp_ret; left; apply quiet_not_started; rewrite app_nil_r; by repeat apply Forall_app_2].
  unfold launch, writeFile. apply cmd_wp_bind, wp_ask. destruct (mc_write m _ _); cbn [negb];
    [|apply wp_ret; left; apply quiet_not_started; repeat apply Forall_app_2; done || by repeat constructor].
  set (w := WriteFile _ _ _). assert (Forall calm ([mk] ++ a1 ++ a2 ++ a3 ++ [w])) as Hb by (repeat apply Forall_app_2; done || by repeat constructor).
  destruct (calm_none _ Hb) as [Hsp Hsg]. apply cmd_wp_bind, wp_ask. destruct (mc_spawn m _) as [sudo|] eqn:Es.
  - pose proof (sane_spawn Hsane _ _ Es) as Hsudo. eapply cmd_wp_mono; [by apply awaitAgent_started|]. intros after r Hst. right.
    eexists _, p, sudo, ([mk] ++ a1 ++ a2 ++ a3 ++ [w]), after. cbn zeta. split; [by symmetry|]. split; [done|]. split; [by rewrite <- !app_assoc|].
    split; [|done]. match goal with |- spawns ?x = [(?e, _)] => replace x with (([mk] ++ a1 ++ a2 ++ a3 ++ [w]) ++ Spawn e (Some sudo) :: after) by by rewrite <- !app_assoc end.
    rewrite spawns_app, Hsp. change (spawns (Spawn ?e (Some sudo) :: after)) with ((e, Some sudo) :: spawns after). by rewrite (started_spawns_none _ _ _ _ Hst).
  - apply wp_ret. left. split; [done|].
    match goal with |- signals ?x = [] /\ _ => match x with context [Spawn ?e None] => replace x with (([mk] ++ a1 ++ a2 ++ a3 ++ [w]) ++ [Spawn e None]) by by rewrite <- !app_assoc end end.
    rewrite signals_app, spawns_app, Hsp, Hsg. split; [done|]. right. by eexists.
Qed.
End Start.

(** The stop command signals the process whose number the start command wrote. *)
Lemma pid_file_roundtrip pid : 0 < pid < 2 ^ 63 -> pidOf (Itoa pid) = Some pid.
Proof.
  intros Hp. unfold pidOf. rewrite TrimSpace_Itoa. assert (Atoi (Itoa pid) = Some pid) as ->.
  { unfold Itoa. rewrite (proj2 (Z.ltb_ge _ _)) by lia. destruct (Uitoa_spec pid) as [Hv (c & t & E & Hd & _)]; [lia|]. rewrite E in *. unfold Atoi.
    apply Forall_cons in Hd as [Hc _]. assert (forall v : option Z, v = Some pid -> (x ← v; if (- 2 ^ 63 <=? x) && (x <? 2 ^ 63) then Some x else None) = Some pid) as Hr.
    { intros v ->. cbn [mbind option_bind]. by rewrite (proj2 (Z.leb_le _ _)), (proj2 (Z.ltb_lt _ _)) by lia. }
    apply Hr. destruct (Z.eq_dec c 43); [lia|]. destruct (Z.eq_dec c 45); [lia|]. rewrite decide_False by done.
    repeat case_match; try lia; done. }
  cbn [mbind option_bind]. by rewrite (proj2 (Z.ltb_lt _ _)) by lia.
Qed.

(** * Examples *)

Module Witness.
#[local] Existing Instance ascii_case.

Definition getenv (k : bytes) : bytes :=
  if decide (k = str "GITHUB_WORKSPACE") then str "/ws" else if decide (k = str "GITHUB_ACTION_PATH") then str "/act"
  else if decide (k = str "RUNNER_OS") then str "Linux" else if decide (k = str "GITHUB_STEP_SUMMARY") then str "/ws/summary" else [].

Definition log : bytes := ln (js "{'type':'meta','mode':'detect'}") ++ ln (js "{'type':'exec'}") ++ ln (js "{'type':'tcp','dst':'1.2.3.4','fqdn':'example.com'}").

(** Sudo 10 has the agent 12 below it; [status] is the status file and [answer]
    the answer to every signal. *)
Definition runner (status : nat -> option bytes) (answer : signal_answer) : machine := {|
  mc_getenv := getenv; mc_cwd := [str "act"]; mc_getwd := Some (str "/act"); mc_goos := str "linux";
  mc_fs := fun _ => ∅; mc_stat := fun _ _ => true; mc_read := fun _ _ => Some (str "12"); mc_log := fun _ _ => Some (log, EOF);
  mc_write := fun _ _ => true; mc_exec := fun _ => true; mc_post := fun _ => true;
  mc_signal := fun _ => answer; mc_clock := fun _ => 0; mc_spawn := fun _ => Some 10;
  mc_comm := fun _ => AgentPid.Witness.comm; mc_tasks := fun _ => AgentPid.Witness.tasks; mc_children := fun _ => AgentPid.Witness.children;
  mc_pidClock := fun _ k => Z.of_nat k * Second;
  mc_readyPolls := fun _ k => mkPoll (Z.of_nat k * Second) (status k) (Z.of_nat k * Second) (Z.of_nat k * Second) answer;
  mc_exitPolls := fun _ k => (if (k <? 3)%nat then answer else NoProcess, Z.of_nat k * Second) |}.

Lemma runner_sane status answer : sane (runner status answer).
Proof.
  split.
  - intros t pid [= <-]. lia.
  - intros t. split; cbn; unfold Second, pollInterval, Millisecond; intros; lia.
  - intros t. split; cbn; unfold Second, pidPollInterval, Millisecond; intros; lia.
Qed.

Definition start_cfg : startConfig := mkStartConfig (str "detect") (str "example.com") [] false (str "info") [] [] true 60 false false [] (str "both").
Definition late (k : nat) : option bytes := if (k <? 2)%nat then None else Some (status_payload true).

Lemma start_outcome_witness : exists acts r, runStart (runner late Delivered) start_cfg [] = ([] ++ acts, r) /\
  start_result (runner late Delivered) start_cfg acts r /\ r = None.
Proof.
  assert ((runStart (runner late Delivered) start_cfg []).2 = None) as E by (vm_compute; reflexivity).
  destruct (start_outcome (runner late Delivered) (runner_sane late Delivered) start_cfg []) as (acts & r & Er & Hr).
  rewrite Er in E. exists acts, r. split; [exact Er|]. split; [exact Hr|exact E].
Defined.

(** The agent runs as root and refuses the signals of the runner's user: a
    start that waits for it takes it for dead, and the signal that should end
    it then is refused too. *)
Example root_agent_left_running : exists acts, runStart (runner late NotPermitted) start_cfg [] = (acts, Some (ENotReady OChildExit)) /\
  last acts = Some (SignalTerm 12 NotPermitted).
Proof. eexists. vm_compute. split; reflexivity. Qed.

(** A stop sends the signal through sudo, but does not wait. *)
Example stop_does_not_wait : omap (fun x => match x with SignalTerm _ _ | SudoKill _ _ | WaitExit _ _ => Some x | _ => None end)
    (runStop (runner late NotPermitted) (mkStopConfig false (str "both") [] true [] []) []).1 =
  [SignalTerm 12 NotPermitted; SudoKill 12 true; WaitExit 12 (Some true)].
Proof. vm_compute. reflexivity. Qed.

(** The digest's path follows a relative override, and the mode of the log, out
    of the workspace. *)
Example digest_escapes : digestArtifactPath (str "/ws") (str "../etc/x") (str "detect") = str "/etc/x" /\
  digestArtifactPath (str "/w") [] (str "x/../../etc/p") = str "/etc/p.md".
Proof. split; vm_compute; reflexivity. Qed.
End Witness.
