(* ===== verification/Monitors.v ===== *)
(** The monitor goroutines of a run (internal/agent/agent_run_state.go): the
    canary, the heartbeat and the re-resolution of the allowlist.  Each runs at
    the ticks of its timer until the context is done; what happens in between
    is part of its input. *)
From S2P Require Import Prelude GoStrings GoNet Policy BpfMap Allowlist DnsCache Config Telemetry Decode DefendMaps RunStats Events Defend Json EventLog.

Open Scope Z_scope.

(** * The canary *)

(** A tick, with the outcome of the write of the trigger and the clock when the
    sequence number is noted and when it is checked; or the echo of a sequence
    number through the connect ring. *)
Inductive canaryInput := CTick (written : bool) (sent checked : Z) | CEcho (seq now : Z).

(** The shared canary, the loop's sequence number, the failures it has seen. *)
Record canaryLoop := mkCanaryLoop { cl_canary : canaryState; cl_seq : Z; cl_alarms : Z }.

Definition canaryStep (l : canaryLoop) (i : canaryInput) : canaryLoop :=
  match i with
  | CEcho seq now => mkCanaryLoop (noteReceived (cl_canary l) seq now) (cl_seq l) (cl_alarms l)
  | CTick written sent checked =>
    let seqNr := (cl_seq l + 1) mod 2 ^ 64 in
    if negb written then mkCanaryLoop (cl_canary l) seqNr (cl_alarms l)
    else
      let '(c, failed) := checkAndRecordFailure (noteSent (cl_canary l) seqNr sent) checked in
      mkCanaryLoop c seqNr (cl_alarms l + if failed : bool then 1 else 0)
  end.

Definition runCanaryLoop (inputs : list canaryInput) : canaryLoop := foldl canaryStep (mkCanaryLoop newCanaryState 0 0) inputs.

(** The failure is looked for right after the sequence number is sent, when it
    cannot be overdue: a run whose ring never echoes anything records no
    failure, however many canaries it sends, unless the two statements are more
    than half a minute apart. *)
Theorem canary_never_fails inputs :
  Forall (fun i => match i with CTick _ sent checked => checked - sent <= canaryTimeout | CEcho _ _ => True end) inputs ->
  cl_alarms (runCanaryLoop inputs) = 0 /\ failCount (cl_canary (runCanaryLoop inputs)) = 0.
Proof.
  intros Hi. unfold runCanaryLoop. assert (forall l, cl_alarms l = 0 /\ failCount (cl_canary l) = 0 ->
    cl_alarms (foldl canaryStep l inputs) = 0 /\ failCount (cl_canary (foldl canaryStep l inputs)) = 0) as H; [|by apply H].
  induction Hi as [|i inputs Hc _ IH]; intros l Hl; [done|]. cbn [foldl]. apply IH. destruct i as [written sent checked|seq now]; [|done].
  unfold canaryStep. destruct written; cbn [negb]; [|done]. unfold checkAndRecordFailure, canary_overdue. cbn [lastSentAt noteSent].
  rewrite (proj2 (Z.ltb_ge canaryTimeout (checked - sent))) by done. rewrite andb_false_r. cbn. destruct Hl. split; [lia|done].
Qed.

(** * The heartbeat *)

(** What [Info] of the program answers. *)
Inductive progInfo := InfoError | InfoNoID | InfoID (id : Z).

Definition heartbeat (st : runStats) (i : progInfo) : runStats :=
  match i with InfoError | InfoNoID => addBPFHeartbeatFailure st | InfoID _ => st end.

Definition runHeartbeatLoop (st : runStats) (ticks : list progInfo) : runStats := foldl heartbeat st ticks.

Lemma heartbeat_counts st ticks : ct (runHeartbeatLoop st ticks) bpfHeartbeatFailures =
  ct st bpfHeartbeatFailures + len (List.filter (fun i => match i with InfoID _ => false | _ => true end) ticks) /\
  forall c, c <> bpfHeartbeatFailures -> ct (runHeartbeatLoop st ticks) c = ct st c.
Proof.
  unfold runHeartbeatLoop. revert st. induction ticks as [|i ticks IH]; intros st; cbn [foldl List.filter]; [rewrite len_nil; split; [lia|done]|].
  destruct (IH (heartbeat st i)) as [E1 E2]. rewrite E1. split.
  - destruct i; cbn; unfold len; cbn; try lia; rewrite decide_True by done; lia.
  - intros c Hc. rewrite E2 by done. destruct i; cbn; try done; by rewrite decide_False.
Qed.

(** * The re-resolution *)

Section Drift.
Context {M : Type} `{UnicodeCase} `{!BpfMapOps bytes bytes M} `{!RangeOrder bytes}.
Context (cfg : Config) (compiled : CompileResult).

Definition allowlistReCheckMaxAttempts : Z := 1.

(** What a tick meets beside its re-resolution: what others did to the owner
    map before it, the resolver of [ResolveOwners], the clock, the time of the
    report as text, and whether the line could be appended. *)
Record driftEnv := mkDriftEnv { dv_foreign : M -> M; dv_resolver : Resolver; dv_now : Z; dv_checkedAt : bytes; dv_append : bool }.

(** The owner map ([None] when defend has none), the statistics, and the lines
    appended to the log. *)
Record driftState := mkDriftState { ds_owners : option M; ds_stats : runStats; ds_log : list DNSDriftEvent }.

Definition reseedDefendOwners (v : driftEnv) (st : driftState) : driftState :=
  match ds_owners st with
  | None => st
  | Some m =>
    if decide (cf_AllowedDomains cfg = []) then st
    else
      let owners := ResolveOwners (H0 := dv_resolver v) (cf_AllowedDomains cfg) allowlistReCheckMaxAttempts in
      let '(m', _, fails) := seedDefendOwners (Some m) owners (Some (ct (ds_stats st) bpfDNSCacheUpdateFailuresN)) in
      mkDriftState m' (setc bpfDNSCacheUpdateFailuresN (default 0 fails) (ds_stats st)) (ds_log st)
  end.

Definition onDrift (v : driftEnv) (dr : DriftReport) (st : driftState) : driftState :=
  let st := reseedDefendOwners v (mkDriftState (ds_owners st) (addDNSDrift (ds_stats st)) (ds_log st)) in
  if decide (EventsLogPath cfg = []) then st
  else
    let ev := mkDriftEvent (dv_now v) (AddedIPs dr) (RemovedIPs dr) (len (Domains compiled)) (dv_checkedAt v) in
    if dv_append v then mkDriftState (ds_owners st) (ds_stats st) (ds_log st ++ [ev]) else st.

Definition onEvent (st : driftState) (e : driftEvent * driftEnv) : driftState :=
  let st := mkDriftState (dv_foreign e.2 <$> ds_owners st) (ds_stats st) (ds_log st) in
  match e.1 with OnDrift dr => onDrift e.2 dr st | OnClean => reseedDefendOwners e.2 st end.

(** [runDNSDriftLoop] on the ticks of a run and what each of them meets. *)
Definition runDNSDriftLoop (st : driftState) (ticks : list tick) (envs : list driftEnv) : driftState :=
  foldl onEvent st (zip (runDNSDriftWatch compiled allowlistReCheckMaxAttempts ticks) envs).

(** ** What it does *)

Context `{!BpfMapLaws bytes bytes M}.

(** An entry that the trusted resolver of a tick justifies. *)
Definition trusted (envs : list driftEnv) (k v : bytes) : Prop :=
  exists e name, e ∈ envs /\ ResolveOwners (H0 := dv_resolver e) (cf_AllowedDomains cfg) allowlistReCheckMaxAttempts !! k = Some name /\
    name <> [] /\ v = bpfValue name.

(** [P] holds of every entry of the owner map. *)
Definition owners_all (P : bytes -> bytes -> Prop) (o : option M) : Prop := match o with None => True | Some m => forall k v, bm_view m !! k = Some v -> P k v end.

Lemma reseed_owners v st (P : bytes -> bytes -> Prop) : (forall k x, trusted [v] k x -> P k x) -> owners_all P (ds_owners st) ->
  owners_all P (ds_owners (reseedDefendOwners v st)).
Proof.
  intros Ht Ho. unfold reseedDefendOwners. destruct (ds_owners st) as [m|] eqn:Em; [|by rewrite Em]. case_decide as Hd; [by rewrite Em|].
  set (owners := ResolveOwners _ _). destruct (decide (owners = ∅)) as [E|E].
  - unfold seedDefendOwners. rewrite decide_True by done. exact Ho.
  - destruct (seedDefendOwners (Some m) owners _) as [[m' p] f] eqn:Es. cbn [ds_owners]. destruct m' as [m'|]; [|done].
    destruct (seed_owners_trusted _ _ _ _ _ _ E Es) as [Hv _]. intros k x Hk. destruct (Hv k x Hk) as [|(name & Hn & Hne & ->)]; [by apply Ho|].
    apply Ht. exists v, name. split_and!; try done. by left.
Qed.

(** The owner map and the update failures are all that a refresh changes. *)
Lemma reseed_keeps v st : ds_log (reseedDefendOwners v st) = ds_log st /\
  forall c, c <> bpfDNSCacheUpdateFailuresN -> ct (ds_stats (reseedDefendOwners v st)) c = ct (ds_stats st) c.
Proof.
  unfold reseedDefendOwners. destruct (ds_owners st); [|done]. case_decide; [done|]. destruct (seedDefendOwners _ _ _) as [[m' p] f].
  split; [done|]. intros c Hc. cbn. by rewrite decide_False.
Qed.

Definition drifts (es : list (driftEvent * driftEnv)) : list (DriftReport * driftEnv) :=
  omap (fun e => match e.1 with OnDrift dr => Some (dr, e.2) | OnClean => None end) es.

(** The line of a drift. *)
Definition line_of (d : DriftReport * driftEnv) : DNSDriftEvent :=
  mkDriftEvent (dv_now d.2) (AddedIPs d.1) (RemovedIPs d.1) (len (Domains compiled)) (dv_checkedAt d.2).

Lemma onEvent_spec st e : EventsLogPath cfg <> [] ->
  ds_log (onEvent st e) = ds_log st ++ map line_of (List.filter (fun d => dv_append d.2) (drifts [e])) /\
  ct (ds_stats (onEvent st e)) dnsDriftN = ct (ds_stats st) dnsDriftN + len (drifts [e]).
Proof.
  intros Hp. unfold onEvent, drifts. destruct e as [[dr|] v]; cbn [fst snd omap list_omap].
  - unfold onDrift. rewrite decide_False by done. cbn [ds_owners ds_stats ds_log].
    set (st' := mkDriftState (dv_foreign v <$> ds_owners st) (addDNSDrift (ds_stats st)) (ds_log st)). destruct (reseed_keeps v st') as [El Ec].
    assert (ct (ds_stats (reseedDefendOwners v st')) dnsDriftN = ct (ds_stats st) dnsDriftN + 1) as E1 by (rewrite Ec by done; reflexivity).
    cbn [List.filter snd]. destruct (dv_append v); cbn [ds_log ds_stats map]; rewrite El, E1; unfold len; cbn; [done|by rewrite app_nil_r].
  - destruct (reseed_keeps v (mkDriftState (dv_foreign v <$> ds_owners st) (ds_stats st) (ds_log st))) as [El Ec].
    rewrite El, Ec by done. cbn. rewrite app_nil_r. unfold len. cbn. split; [done|lia].
Qed.

(** The monitor only warns and refreshes the owner map: over any ticks and
    answers every drift is counted once and logged once, unless the append
    fails, and each entry of the owner map was there, or was written by
    others, or is the owner that the trusted resolver of a tick gave. *)
Theorem drift_monitor_sound st ticks envs P : EventsLogPath cfg <> [] ->
  owners_all P (ds_owners st) -> (forall k v, trusted envs k v -> P k v) ->
  Forall (fun e => forall o, owners_all P o -> owners_all P (dv_foreign e <$> o)) envs ->
  let es := zip (runDNSDriftWatch compiled allowlistReCheckMaxAttempts ticks) envs in
  let st' := runDNSDriftLoop st ticks envs in
  owners_all P (ds_owners st') /\
  ds_log st' = ds_log st ++ map line_of (List.filter (fun d => dv_append d.2) (drifts es)) /\
  ct (ds_stats st') dnsDriftN = ct (ds_stats st) dnsDriftN + len (drifts es).
Proof.
  intros Hp Ho Ht Hf es st'. subst st'. unfold runDNSDriftLoop. fold es.
  assert (Forall (fun e : driftEvent * driftEnv => e.2 ∈ envs) es) as Hin.
  { apply Forall_forall. intros [x e] He. by apply elem_of_zip_r in He. }
  clearbody es. revert st Ho. induction Hin as [|e es He _ IH]; intros st Ho; cbn [foldl].
  - cbn. rewrite app_nil_r. unfold len. cbn. split_and!; [done..|lia].
  - destruct (onEvent_spec st e Hp) as [El Ec]. destruct (IH (onEvent st e)) as (H1 & H2 & H3).
    + assert (forall k x, trusted [e.2] k x -> P k x) as Ht1.
      { intros k x (e' & name & Hin' & Hr). apply list_elem_of_singleton in Hin' as ->. apply Ht. by exists e.2, name. }
      rewrite Forall_forall in Hf. pose proof (Hf _ He (ds_owners st) Ho) as Ho'. unfold onEvent. destruct e as [[dr|] v]; cbn [fst snd] in *.
      * unfold onDrift. cbn [ds_owners ds_stats ds_log]. set (st1 := mkDriftState (dv_foreign v <$> ds_owners st) (addDNSDrift (ds_stats st)) (ds_log st)).
        pose proof (reseed_owners v st1 P Ht1 Ho') as Hr. by repeat case_match.
      * by apply reseed_owners.
    + change (e :: es) with ([e] ++ es). unfold drifts in *. rewrite omap_app, List.filter_app, map_app, len_app, H2, H3, El, Ec, <- app_assoc. split_and!; [done..|lia].
Qed.
End Drift.
