(* ===== verification/Compat.v ===== *)
(** The runner-compatibility checks at the agent's start
    (internal/agent/compat_check_linux.go). *)
From S2P Require Import Prelude GoStrings GoPath Lifecycle.

Open Scope Z_scope.

Definition CompatCodeCgroupV1Detected : bytes := str "cgroup_v1_detected".
Definition CompatCodeCgroupNamespaceNonDeleg : bytes := str "cgroup_namespace_nondelegated".
Definition CompatCodeDeepCgroupNesting : bytes := str "deep_cgroup_nesting".
Definition CompatCodeContainerCgroupDetection : bytes := str "container_cgroup_detection_failed".

Definition RunnerEnvDinD : bytes := str "dind".
Definition RunnerEnvUnknown : bytes := str "unknown".

Record CompatWarning := mkCompatWarning { cw_Code : bytes; cw_Detail : bytes }.

#[export] Instance CompatWarning_eq_dec : EqDecision CompatWarning.
Proof. solve_decision. Defined.

(** * The lines of /proc/1/cgroup *)

(** [strings.SplitN(line, ":", 3)[2]], where there is one, of the trimmed line;
    [None] where the loops [continue]. *)
Definition cgroupPath (line : bytes) : option bytes :=
  let line := TrimSpace line in
  if decide (line = []) then None
  else
    match Cut line 58 with
    | (_, rest, true) => match Cut rest 58 with (_, path, true) => Some path | (_, _, false) => None end
    | (_, _, false) => None
    end.

Definition cgroupPaths (content : bytes) : list bytes := omap cgroupPath (Split content 10).

Section Checks.
Context `{UnicodeCase}.

Definition classifyRunnerEnv (procCgroup : bytes) : bytes :=
  if existsb (fun path => Contains (ToLower path) (str "docker")) (cgroupPaths procCgroup) then RunnerEnvDinD else RunnerEnvStandard.

Definition hostPrefixes : list bytes := [str "/docker/"; str "/kubepods/"; str "/system.slice/docker-"; str "/lxc/"; str "/podman/"].

Definition cgroupNamespaceDelegated (procCgroup : bytes) : bool :=
  forallb (fun path =>
    bool_decide (path = str "/") || bool_decide (path = str "/init.scope") ||
    negb (existsb (HasPrefix (ToLower path)) hostPrefixes)) (cgroupPaths procCgroup).

(** [strings.Count(s, "/")]. *)
Definition countSlash (s : bytes) : Z := len (List.filter (Z.eqb 47) s).

Definition init1CgroupMaxDepth (procCgroup : bytes) : Z :=
  foldl (fun maxDepth path => let depth := countSlash (TrimSuffix path (str "/")) in if maxDepth <? depth then depth else maxDepth)
    0 (cgroupPaths procCgroup).

(** * Reading it *)

(** What opening and reading the file meets: an error with its text, or the
    bytes that could be read and the error that then occurred. *)
Inductive procFile := NoFile (err : bytes) | File (content : bytes) (err : option bytes).

(** The scanner stops with [bufio.ErrTooLong] at a line that does not fit its
    buffer, before it meets a read error behind it. *)
Definition tooLong (content : bytes) : bool := existsb (fun l => MaxScanTokenSize <=? len l) (Split content 10).

Definition readProc1Cgroup (f : procFile) : result bytes bytes :=
  match f with
  | NoFile e => Err e
  | File content e =>
    if tooLong content then Err (str "bufio.Scanner: token too long")
    else match e with
         | Some e => Err e
         | None => Ok (concat (map (fun l => l ++ [10]) (ScanLines content)))
         end
  end.

Definition DetectRunnerEnv (f : procFile) : bytes :=
  match readProc1Cgroup f with
  | Err _ => RunnerEnvUnknown
  | Ok content => classifyRunnerEnv content
  end.

(** * The checks *)

Definition deepCgroupNestingThreshold : Z := 4.
Definition cgroup2Magic : Z := 0x63677270.

(** [None]: statfs fails; [Some] is the type it gives. *)
Definition isCgroupV2 (statfs : option Z) : bool := match statfs with Some t => t =? cgroup2Magic | None => false end.

(** What the checks find: statfs of the cgroup root, whether stat of
    /.dockerenv succeeds, and the file at the first and at the second reading. *)
Record compatWorld := mkCompatWorld { cp_statfs : option Z; cp_dockerenv : bool; cp_first : procFile; cp_second : procFile }.

Definition checkRunnerCompatAt (cgroupRoot : bytes) (p : compatWorld) : list CompatWarning :=
  (if isCgroupV2 (cp_statfs p) then []
   else [mkCompatWarning CompatCodeCgroupV1Detected
           (cgroupRoot ++ str " is not a cgroup2 mount; defend-mode cgroup BPF hooks require cgroup v2")]) ++
  (if cp_dockerenv p then
     match readProc1Cgroup (cp_first p) with
     | Err e => [mkCompatWarning CompatCodeContainerCgroupDetection
                   (str "running inside a container but /proc/1/cgroup could not be read: " ++ e)]
     | Ok content =>
       if cgroupNamespaceDelegated content then []
       else [mkCompatWarning CompatCodeCgroupNamespaceNonDeleg
               (str "container shares host cgroup namespace; defend-mode cgroup attach may attach to host cgroup root")]
     end
   else []) ++
  match readProc1Cgroup (if cp_dockerenv p then cp_second p else cp_first p) with
  | Err _ => []
  | Ok content =>
    let depth := init1CgroupMaxDepth content in
    if deepCgroupNestingThreshold <=? depth
    then [mkCompatWarning CompatCodeDeepCgroupNesting
            (str "/proc/1/cgroup path depth=" ++ Itoa depth ++
             str "; nested runners can shift cgroup attach points and reduce defend coverage")]
    else []
  end.

Definition CheckRunnerCompat (p : compatWorld) : list CompatWarning := checkRunnerCompatAt (str "/sys/fs/cgroup") p.
End Checks.

Example delegated_ex :
  let nl := [10] in
  map (fun s => cgroupNamespaceDelegated (H := ascii_case) (str s ++ nl))
    ["0::/"; "0::/init.scope"; "0::/docker/abc/runner.scope"; "0::/kubepods/burstable/podabc/container"; "0::/system.slice/docker-abc.scope"; "0::/lxc/container1"]%string
  = [true; true; false; false; false; false].
Proof. vm_compute. reflexivity. Qed.

Example depth_ex : map (fun s => init1CgroupMaxDepth (str s)) ["0::/"; "0::/foo"; "0::/foo/bar/"; ""; "12:a:b:/x"]%string = [0; 1; 2; 0; 1].
Proof. vm_compute. reflexivity. Qed.

(** * What the checks mean *)

(** A carriage return before the line feed, and the line feeds the reader
    puts back, are white space to the checks. *)
Lemma drop_while_all {A} (f : A -> bool) l x : f x = true -> drop_while f (l ++ [x]) = if forallb f l then [] else drop_while f l ++ [x].
Proof.
  intros Hx. induction l as [|y l IH]; cbn [app drop_while forallb]; [by rewrite Hx|]. destruct (f y); [exact IH|done].
Qed.

Lemma trim_snoc {A} (f : A -> bool) l x : f x = true -> trim f (l ++ [x]) = trim f l.
Proof.
  intros Hx. unfold trim. rewrite drop_while_all by done. destruct (forallb f l) eqn:Ea.
  - assert (drop_while f l = []) as ->; [|done]. clear x Hx. induction l as [|y l IH]; [done|]. cbn in *. apply andb_true_iff in Ea as [-> Ea]. by apply IH.
  - rewrite rev_app_distr. cbn [rev app drop_while]. by rewrite Hx.
Qed.

Lemma TrimSpace_CR s : TrimSpace (s ++ [13]) = TrimSpace s.
Proof.
  unfold TrimSpace, TrimFunc. rewrite chunks_app_ascii by done. cbn [chunks chunks_fuel length].
  change (concat (trim (fun c => IsSpace c.1) (chunks s ++ [(13, [13])])).*2 = concat (trim (fun c => IsSpace c.1) (chunks s)).*2).
  by rewrite trim_snoc.
Qed.

Lemma cgroupPath_dropCR l : cgroupPath (dropCR l) = cgroupPath l.
Proof.
  unfold dropCR, TrimSuffix. destruct (HasSuffix l [13]) eqn:E; [|done]. apply HasSuffix_spec in E as [t ->].
  rewrite length_app, take_app_length' by (cbn [length]; lia). unfold cgroupPath. by rewrite TrimSpace_CR.
Qed.

Lemma Split_ended ls : Forall (fun l => 10 ∉ l) ls -> Split (concat (map (fun l => l ++ [10]) ls)) 10 = ls ++ [[]].
Proof.
  induction 1 as [|l ls Hl _ IH]; [done|]. cbn [map concat]. rewrite <- app_assoc. cbn [app].
  rewrite Split_app, IH. unfold Split. by rewrite split_aux_plain.
Qed.

Lemma scan_tokens_paths ls : existsb (fun l => MaxScanTokenSize <=? len l) ls = false -> omap cgroupPath (scan_tokens ls) = omap cgroupPath ls.
Proof.
  induction ls as [|l ls IH]; intros Hs; [done|]. cbn [existsb] in Hs. apply orb_false_iff in Hs as [Hl Hs].
  assert (scan_tokens (l :: ls) = dropCR l :: scan_tokens ls \/ l = [] /\ ls = []) as [->|[-> ->]]; [|cbn; by rewrite cgroupPath_dropCR, IH|done].
  destruct l as [|b l], ls as [|l' ls]; [by right|left; cbn [scan_tokens]; rewrite (proj2 (Z.ltb_lt _ _)) by lia; done..].
Qed.

Lemma scan_tokens_no_LF ls : Forall (fun l => 10 ∉ l) ls -> Forall (fun l => 10 ∉ l) (scan_tokens ls).
Proof.
  induction 1 as [|l ls Hl Hls IH]; [constructor|].
  assert (10 ∉ dropCR l) as Hd. { unfold dropCR, TrimSuffix. destruct (HasSuffix l [13]); [|done]. intros Hin. apply Hl. rewrite <- (take_drop (length l - length [13]) l), elem_of_app. by left. }
  destruct l as [|b l], ls as [|l' ls]; cbn [scan_tokens] in *; repeat case_match; first [by apply Forall_nil|by apply Forall_cons|idtac].
Qed.

(** Reading the file line by line and joining the lines loses nothing the
    checks look at: on a file whose lines fit the scanner's buffer they see the
    cgroup paths of the file. *)
Theorem proc1_read_faithful content text : readProc1Cgroup (File content None) = Ok text ->
  cgroupPaths text = cgroupPaths content.
Proof.
  cbn. destruct (tooLong content) eqn:El; [done|]. intros [= <-]. unfold cgroupPaths, ScanLines.
  rewrite Split_ended by (apply scan_tokens_no_LF, Split_no_sep). rewrite omap_app. cbn [omap list_omap]. rewrite app_nil_r. by apply scan_tokens_paths.
Qed.

(** ** The depth *)

Lemma maxDepth_fold paths m d : foldl (fun maxDepth path => let depth := countSlash (TrimSuffix path (str "/")) in if maxDepth <? depth then depth else maxDepth) m paths <= d <->
  m <= d /\ Forall (fun path => countSlash (TrimSuffix path (str "/")) <= d) paths.
Proof.
  revert m. induction paths as [|path paths IH]; intros m; cbn [foldl]; [rewrite Forall_nil; tauto|]. cbn zeta. rewrite IH, Forall_cons.
  destruct (Z.ltb_spec m (countSlash (TrimSuffix path (str "/")))); split; intros; destruct_and!; split_and?; try done; lia.
Qed.

(** The depth is the least bound of the depths of the paths, and of zero. *)
Lemma init1CgroupMaxDepth_spec content d : init1CgroupMaxDepth content <= d <->
  0 <= d /\ forall path, path ∈ cgroupPaths content -> countSlash (TrimSuffix path (str "/")) <= d.
Proof. unfold init1CgroupMaxDepth. by rewrite maxDepth_fold, Forall_forall. Qed.

(** ** The warnings *)

(** A cgroup that shows a Docker host path is non-delegated, and the
    environment of such an agent is Docker-in-Docker. *)
Lemma docker_prefix_is_dind `{UnicodeCase} content path : path ∈ cgroupPaths content ->
  HasPrefix (ToLower path) (str "/docker/") = true \/ HasPrefix (ToLower path) (str "/system.slice/docker-") = true -> classifyRunnerEnv content = RunnerEnvDinD.
Proof.
  intros Hin Hp. unfold classifyRunnerEnv. assert (existsb (fun path => Contains (ToLower path) (str "docker")) (cgroupPaths content) = true) as ->; [|done].
  apply existsb_exists. exists path. split; [by apply list_elem_of_In|]. apply Contains_spec.
  destruct Hp as [Hp|Hp]; apply HasPrefix_spec in Hp as [t ->]; [exists (str "/"), (str "/" ++ t)|exists (str "/system.slice/"), (str "-" ++ t)]; done.
Qed.

(** The warnings of four conditions. *)
Definition codes_of (v1 unread nondelegated deep : bool) : list bytes :=
  (if v1 then [CompatCodeCgroupV1Detected] else []) ++ (if unread then [CompatCodeContainerCgroupDetection] else []) ++
  (if nondelegated then [CompatCodeCgroupNamespaceNonDeleg] else []) ++ (if deep then [CompatCodeDeepCgroupNesting] else []).

Lemma codes_of_spec v1 unread nondelegated deep : let ws := codes_of v1 unread nondelegated deep in
  ws `sublist_of` codes_of true true true true /\
  (CompatCodeCgroupV1Detected ∈ ws <-> v1 = true) /\ (CompatCodeContainerCgroupDetection ∈ ws <-> unread = true) /\
  (CompatCodeCgroupNamespaceNonDeleg ∈ ws <-> nondelegated = true) /\ (CompatCodeDeepCgroupNesting ∈ ws <-> deep = true).
Proof.
  split; [|split_and!; destruct v1, unread, nondelegated, deep; apply (bool_decide_unpack _); vm_compute; exact I].
  unfold codes_of. repeat apply sublist_app; by match goal with |- context [if ?b then _ else _] => destruct b end; repeat constructor.
Qed.

Lemma nondelegated_spec `{UnicodeCase} text : cgroupNamespaceDelegated text = false <->
  exists path prefix, path ∈ cgroupPaths text /\ prefix ∈ hostPrefixes /\ HasPrefix (ToLower path) prefix = true /\ path ∉ [str "/"; str "/init.scope"].
Proof.
  unfold cgroupNamespaceDelegated. induction (cgroupPaths text) as [|path paths IH]; cbn [forallb].
  - split; [done|]. intros (path & prefix & Hin & _). by apply not_elem_of_nil in Hin.
  - rewrite andb_false_iff, IH, !orb_false_iff, !bool_decide_eq_false, negb_false_iff, existsb_exists. split.
    + intros [[[H1 H2] (prefix & Hp & Hh)]|(path' & prefix & Hin & Hr)]; [exists path, prefix|exists path', prefix; split; [by right|done]].
      split_and!; [by left|by apply list_elem_of_In|done|]. rewrite !not_elem_of_cons. split_and!; [done..|apply not_elem_of_nil].
    + intros (path' & prefix & Hin & Hp & Hh & Hn). apply elem_of_cons in Hin as [->|Hin]; [left|right; by exists path', prefix].
      rewrite !not_elem_of_cons in Hn. split; [tauto|]. exists prefix. split; [by apply list_elem_of_In|done].
Qed.

(** Each code is given at most once, in the order of the checks, and exactly
    where its condition holds. *)
Theorem compat_warnings_exact `{UnicodeCase} root p :
  let ws := cw_Code <$> checkRunnerCompatAt root p in
  let second := if cp_dockerenv p then cp_second p else cp_first p in
  ws `sublist_of` [CompatCodeCgroupV1Detected; CompatCodeContainerCgroupDetection; CompatCodeCgroupNamespaceNonDeleg; CompatCodeDeepCgroupNesting] /\
  (CompatCodeCgroupV1Detected ∈ ws <-> cp_statfs p <> Some cgroup2Magic) /\
  (CompatCodeContainerCgroupDetection ∈ ws <-> cp_dockerenv p = true /\ exists e, readProc1Cgroup (cp_first p) = Err e) /\
  (CompatCodeCgroupNamespaceNonDeleg ∈ ws <-> cp_dockerenv p = true /\ exists text path prefix, readProc1Cgroup (cp_first p) = Ok text /\
     path ∈ cgroupPaths text /\ prefix ∈ hostPrefixes /\ HasPrefix (ToLower path) prefix = true /\ path ∉ [str "/"; str "/init.scope"]) /\
  (CompatCodeDeepCgroupNesting ∈ ws <-> exists text path, readProc1Cgroup second = Ok text /\ path ∈ cgroupPaths text /\
     4 <= countSlash (TrimSuffix path (str "/"))).
Proof.
  set (second := if cp_dockerenv p then _ else _). cbn zeta.
  set (unread := cp_dockerenv p && match readProc1Cgroup (cp_first p) with Err _ => true | Ok _ => false end).
  set (nondel := cp_dockerenv p && match readProc1Cgroup (cp_first p) with Err _ => false | Ok text => negb (cgroupNamespaceDelegated text) end).
  set (deep := match readProc1Cgroup second with Err _ => false | Ok text => 4 <=? init1CgroupMaxDepth text end).
  assert (cw_Code <$> checkRunnerCompatAt root p = codes_of (negb (isCgroupV2 (cp_statfs p))) unread nondel deep) as ->.
  { unfold checkRunnerCompatAt, codes_of, unread, nondel, deep. fold second. rewrite !fmap_app. f_equal; [by destruct (isCgroupV2 _)|].
    rewrite app_assoc. f_equal;
      [|destruct (readProc1Cgroup second) as [text|]; [|done]; cbn; unfold deepCgroupNestingThreshold; by destruct (4 <=? init1CgroupMaxDepth text)].
    destruct (cp_dockerenv p); [|done]. destruct (readProc1Cgroup (cp_first p)) as [text|]; [|done]. cbn. by destruct (cgroupNamespaceDelegated _). }
  destruct (codes_of_spec (negb (isCgroupV2 (cp_statfs p))) unread nondel deep) as (Hs & -> & -> & -> & ->). split; [exact Hs|]. split_and!.
  - unfold isCgroupV2. destruct (cp_statfs p) as [t|]; [|done]. destruct (Z.eqb_spec t cgroup2Magic); cbn; naive_solver.
  - unfold unread. rewrite andb_true_iff. destruct (readProc1Cgroup (cp_first p)); naive_solver.
  - unfold nondel. rewrite andb_true_iff. destruct (readProc1Cgroup (cp_first p)) as [text|] eqn:E; [|naive_solver].
    rewrite negb_true_iff, nondelegated_spec. naive_solver.
  - unfold deep. destruct (readProc1Cgroup second) as [text|]; [|naive_solver]. rewrite Z.leb_le. pose proof (init1CgroupMaxDepth_spec text 3) as Hd. split.
    + intros H4. exists text. destruct (decide (Exists (fun path => 4 <= countSlash (TrimSuffix path (str "/"))) (cgroupPaths text))) as [He|Hn];
        [apply Exists_exists in He as (path & ? & ?); by exists path|]. exfalso.
      assert (init1CgroupMaxDepth text <= 3); [|lia]. apply Hd. split; [lia|]. intros path Hin. rewrite Exists_exists in Hn.
      destruct (Z.le_gt_cases 4 (countSlash (TrimSuffix path (str "/")))); [|lia]. destruct Hn. by exists path.
    + intros (text' & path & [= <-] & Hin & H4). destruct (Z.le_gt_cases 4 (init1CgroupMaxDepth text)); [done|].
      assert (init1CgroupMaxDepth text <= 3) as Hb by lia. pose proof (proj2 (proj1 Hd Hb) path Hin). lia.
Qed.
