(* ===== verification/GoRegexp.v ===== *)
(** Package regexp, as far as the program uses it: concatenations of greedy
    repetitions of byte classes, of literals, and of word boundaries, matched
    leftmost-first; and what its replacement leaves of a text.

    A class is of ASCII bytes, to which a few encoded runes may be added; the
    bytes of other runes match nothing and are no word characters, so matching
    bytes is matching runes. *)
From S2P Require Import Prelude GoStrings.

Open Scope Z_scope.

Definition word_byte (b : Z) : bool := is_upper b || is_lower b || is_digit b || (b =? 95).

(** The byte before or behind a position is [None] at an end of the text. *)
Definition word_at (o : option Z) : bool := match o with Some b => word_byte b | None => false end.

(** [Class f lo hi]: between [lo] and [hi] bytes of a class, as many as
    possible; [Runs f xs]: one byte of a class or one of the encoded runes [xs],
    or more; [Lits]: the first of several literals that leads to a match. *)
Inductive atom :=
  | Class (f : Z -> bool) (lo : nat) (hi : option nat)
  | Runs (f : Z -> bool) (xs : list bytes)
  | Lits (ls : list bytes)
  | Boundary.

Definition regexp := list atom.

Definition before (prev : option Z) (w : bytes) : option Z := match last w with Some b => Some b | None => prev end.

(** Takes one byte of the class more as long as that leads to a match. *)
Fixpoint reps (f : Z -> bool) (lo : nat) (hi : option nat) (k : option Z -> bytes -> option bytes) (prev : option Z) (s : bytes) : option bytes :=
  let stop := match lo with O => k prev s | S _ => None end in
  match s, hi with
  | [], _ | _, Some O => stop
  | b :: s', _ =>
    if f b then
      match reps f (pred lo) (pred <$> hi) k (Some b) s' with Some rest => Some rest | None => stop end
    else stop
  end.

(** The first success, for the widths in turn. *)
Definition choose (widths : list nat) (try : nat -> option bytes) (stop : option bytes) : option bytes :=
  foldr (fun w other => match try w with Some rest => Some rest | None => other end) stop widths.

(** What can be taken from [s] for one element of a run. *)
Definition widths (f : Z -> bool) (xs : list bytes) (s : bytes) : list nat :=
  (match s with b :: _ => if f b then [1%nat] else [] | [] => [] end) ++
  omap (fun x => if HasPrefix s x && negb (bool_decide (x = [])) then Some (length x) else None) xs.

Fixpoint star (n : nat) (f : Z -> bool) (xs : list bytes) (k : option Z -> bytes -> option bytes) (prev : option Z) (s : bytes) : option bytes :=
  match n with
  | O => k prev s
  | S n => choose (widths f xs s) (fun w => star n f xs k (before prev (take w s)) (drop w s)) (k prev s)
  end.

(** A match at the beginning of [s]: what is behind it. *)
Fixpoint matchHere (re : regexp) (prev : option Z) (s : bytes) : option bytes :=
  match re with
  | [] => Some s
  | Boundary :: re => if xorb (word_at prev) (word_at (head s)) then matchHere re prev s else None
  | Class f lo hi :: re => reps f lo hi (matchHere re) prev s
  | Runs f xs :: re => choose (widths f xs s) (fun w => star (length s) f xs (matchHere re) (before prev (take w s)) (drop w s)) None
  | Lits ls :: re =>
    foldr (fun l other =>
      if HasPrefix s l then
        match matchHere re (before prev l) (drop (length l) s) with Some rest => Some rest | None => other end
      else other) None ls
  end.

(** The text cut by the successive matches, each the leftmost behind the one
    before it.  (None of the expressions matches the empty string.) *)
Inductive piece := Plain (b : Z) | Hit (m : bytes).

Fixpoint pieces (n : nat) (re : regexp) (prev : option Z) (s : bytes) : list piece :=
  match n, s with
  | S n, b :: s' =>
    match matchHere re prev s with
    | Some rest =>
      if decide (length rest < length s)%nat then
        let m := take (length s - length rest) s in
        Hit m :: pieces n re (before prev m) rest
      else Plain b :: pieces n re (Some b) s'
    | None => Plain b :: pieces n re (Some b) s'
    end
  | _, _ => []
  end.

(** [re.ReplaceAllString(s, repl)], for a [repl] without a dollar sign. *)
Definition put (repl : bytes) (p : piece) : bytes := match p with Plain b => [b] | Hit _ => repl end.
Definition ReplaceAllString (re : regexp) (s repl : bytes) : bytes := concat (map (put repl) (pieces (length s) re None s)).

Definition lit (s : bytes) : atom := Lits [s].
(** [(?i)] on letters that have no other case folding than the ASCII one. *)
Definition fold_lit (s : bytes) : regexp := map (fun c => Class (fun b => lower_byte b =? c) 1 (Some 1%nat)) s.
Definition one_of (s : bytes) : Z -> bool := fun b => existsb (Z.eqb b) s.

(** * The language of an expression *)

(** [lang re prev w next]: [w] is a match where [prev] is before and [next]
    behind it, greedy or not. *)
Definition behind (w : bytes) (next : option Z) : option Z := match w with [] => next | b :: _ => Some b end.

(** An element of a run. *)
Definition unit_of (f : Z -> bool) (xs : list bytes) (x : bytes) : Prop := x <> [] /\ ((exists b, x = [b] /\ f b = true) \/ x ∈ xs).

Fixpoint lang (re : regexp) (prev : option Z) (w : bytes) (next : option Z) : Prop :=
  match re with
  | [] => w = []
  | Boundary :: re => word_at prev <> word_at (behind w next) /\ lang re prev w next
  | Class f lo hi :: re =>
    exists u v, w = u ++ v /\ Forall (fun b => f b = true) u /\ (lo <= length u)%nat /\
      match hi with Some hi => (length u <= hi)%nat | None => True end /\ lang re (before prev u) v next
  | Runs f xs :: re => exists us v, w = concat us ++ v /\ Forall (unit_of f xs) us /\ us <> [] /\ lang re (before prev (concat us)) v next
  | Lits ls :: re => exists l v, l ∈ ls /\ w = l ++ v /\ lang re (before prev l) v next
  end.

Lemma behind_app w s : behind w (head s) = head (w ++ s).
Proof. by destruct w. Qed.

Lemma before_app prev u v : before (before prev u) v = before prev (u ++ v).
Proof.
  unfold before. destruct v as [|b v] using rev_ind; [by rewrite app_nil_r|]. by rewrite app_assoc, !last_snoc.
Qed.

Lemma before_cons prev b u : before (Some b) u = before prev (b :: u).
Proof. change (b :: u) with ([b] ++ u). by rewrite <- before_app. Qed.

Lemma before_last u : before None u = last u.
Proof. unfold before. by destruct (last u). Qed.

Lemma reps_sound f k lo hi prev s rest : reps f lo hi k prev s = Some rest ->
  exists u v, s = u ++ v /\ Forall (fun b => f b = true) u /\ (lo <= length u)%nat /\
    match hi with Some hi => (length u <= hi)%nat | None => True end /\ k (before prev u) v = Some rest.
Proof.
  revert lo hi prev. induction s as [|b s IH]; intros lo hi prev Hr; cbn [reps] in Hr.
  - exists [], []. destruct lo; [|done]. split_and!; [done|constructor|done|by case_match; cbn; lia|done].
  - assert (match lo with O => k prev (b :: s) | S _ => None end = Some rest -> exists u v, b :: s = u ++ v /\ Forall (fun b => f b = true) u /\
      (lo <= length u)%nat /\ match hi with Some hi => (length u <= hi)%nat | None => True end /\ k (before prev u) v = Some rest) as Hstop.
    { intros Hs. exists [], (b :: s). destruct lo; [|done]. split_and!; [done|constructor|done|by case_match; cbn; lia|done]. }
    destruct hi as [[|hi]|]; [by apply Hstop| |];
      (destruct (f b) eqn:Ef; [|by apply Hstop]; destruct (reps f (pred lo) _ k (Some b) s) as [r|] eqn:E; [|by apply Hstop];
       injection Hr as ->; apply IH in E as (u & v & -> & Hu & Hlo & Hhi & Hk); exists (b :: u), v; rewrite <- (before_cons prev);
       split_and!; [done|by constructor|cbn in *; lia|cbn in *; first [lia|done]|done]).
Qed.

Lemma reps_complete f k lo hi prev u v : Forall (fun b => f b = true) u -> (lo <= length u)%nat ->
  match hi with Some hi => (length u <= hi)%nat | None => True end -> k (before prev u) v <> None -> reps f lo hi k prev (u ++ v) <> None.
Proof.
  intros Hu. revert lo hi prev. induction Hu as [|b u Hb _ IH]; intros lo hi prev Hlo Hhi Hk.
  - cbn [app length] in *. destruct lo; [|lia]. destruct v as [|b v]; cbn [reps]; [done|]. change (before prev []) with prev in Hk.
    destruct hi as [[|hi]|]; [done| |]; (destruct (f b); [|done]; by destruct (reps _ _ _ _ _ _)).
  - cbn [app reps length] in *. rewrite <- (before_cons prev) in Hk. destruct hi as [[|hi]|]; [lia| |]; rewrite Hb.
    + specialize (IH (pred lo) (Some hi) (Some b)). cbn [fmap option_fmap option_map]. destruct (reps _ _ _ _ _ _); [done|].
      exfalso. apply IH; [lia..|done|done].
    + specialize (IH (pred lo) None (Some b)). cbn [fmap option_fmap option_map]. destruct (reps _ _ _ _ _ _); [done|].
      exfalso. apply IH; [lia|done..].
Qed.

Lemma choose_sound ws try stop r : choose ws try stop = Some r -> (exists w, w ∈ ws /\ try w = Some r) \/ stop = Some r.
Proof.
  induction ws as [|w ws IH]; cbn [choose foldr]; [by right|]. change (foldr _ stop ws) with (choose ws try stop).
  destruct (try w) as [r'|] eqn:E; [intros [= ->]; left; exists w; split; [by left|done]|].
  intros [(w' & Hin & Hw)|]%IH; [left; exists w'; split; [by right|done]|by right].
Qed.

Lemma choose_complete ws try stop : (exists w, w ∈ ws /\ try w <> None) \/ stop <> None -> choose ws try stop <> None.
Proof.
  intros Hc. induction ws as [|w ws IH]; cbn [choose foldr].
  - destruct Hc as [(w & Hin & _)|]; [by apply not_elem_of_nil in Hin|done].
  - change (foldr _ stop ws) with (choose ws try stop). destruct (try w) eqn:E; [done|]. apply IH.
    destruct Hc as [(w' & Hin & Hw)|]; [|by right]. apply elem_of_cons in Hin as [->|Hin]; [done|]. left. by exists w'.
Qed.

Lemma widths_sound f xs w s : w ∈ widths f xs s -> exists x v, unit_of f xs x /\ s = x ++ v /\ w = length x.
Proof.
  unfold widths. rewrite elem_of_app, list_elem_of_omap. intros [Hin|(x & Hx & E)].
  - destruct s as [|b s]; [by apply not_elem_of_nil in Hin|]. destruct (f b) eqn:Ef; [|by apply not_elem_of_nil in Hin].
    apply list_elem_of_singleton in Hin as ->. exists [b], s. split; [|done]. split; [done|]. left. by exists b.
  - destruct (HasPrefix s x) eqn:Ep; [|done]. apply HasPrefix_spec in Ep as [v ->]. case_bool_decide; [done|]. injection E as <-.
    exists x, v. split; [|done]. split; [done|by right].
Qed.

Lemma widths_complete f xs x v : unit_of f xs x -> length x ∈ widths f xs (x ++ v).
Proof.
  intros [Hne [(b & -> & Hb)|Hin]]; unfold widths; rewrite elem_of_app; [left; cbn; rewrite Hb; by left|right].
  apply list_elem_of_omap. exists x. split; [done|]. rewrite (proj2 (HasPrefix_spec _ _)) by by exists v. by rewrite bool_decide_false.
Qed.

Lemma star_sound n f xs k prev s rest : star n f xs k prev s = Some rest ->
  exists us v, s = concat us ++ v /\ Forall (unit_of f xs) us /\ k (before prev (concat us)) v = Some rest.
Proof.
  revert prev s. induction n as [|n IH]; intros prev s Hs; cbn [star] in Hs; [by exists [], s|].
  apply choose_sound in Hs as [(w & Hw & Hs)|Hs]; [|by exists [], s]. apply widths_sound in Hw as (x & v & Hx & -> & ->).
  rewrite take_app_length, drop_app_length in Hs. apply IH in Hs as (us & v' & -> & Hus & Hk). exists (x :: us), v'. cbn [concat].
  rewrite <- app_assoc, <- before_app. split_and!; [done|by constructor|done].
Qed.

Lemma star_complete n f xs k prev us v : Forall (unit_of f xs) us -> (length us <= n)%nat -> k (before prev (concat us)) v <> None ->
  star n f xs k prev (concat us ++ v) <> None.
Proof.
  intros Hus. revert n prev. induction Hus as [|x us Hx _ IH]; intros n prev Hn Hk.
  - destruct n; cbn [star]; [done|]. apply choose_complete. by right.
  - destruct n as [|n]; [cbn in Hn; lia|]. cbn [star concat]. rewrite <- app_assoc. apply choose_complete. left. exists (length x).
    split; [by apply widths_complete|]. rewrite take_app_length, drop_app_length. apply IH; [cbn in Hn; lia|]. by rewrite before_app.
Qed.

Lemma units_length f xs us : Forall (unit_of f xs) us -> (length us <= length (concat us))%nat.
Proof. induction 1 as [|x us [Hx _] _ IH]; [done|]. cbn [concat length]. rewrite length_app. destruct x; [done|]. cbn [length]. lia. Qed.

Lemma matchHere_sound re prev s rest : matchHere re prev s = Some rest -> exists w, s = w ++ rest /\ lang re prev w (head rest).
Proof.
  revert prev s. induction re as [|a re IH]; intros prev s Hm; cbn [matchHere lang] in *.
  - injection Hm as ->. by exists [].
  - destruct a as [f lo hi|f xs|ls|].
    + apply reps_sound in Hm as (u & v & -> & Hu & Hlo & Hhi & Hm). apply IH in Hm as (w & -> & Hw).
      exists (u ++ w). rewrite <- app_assoc. split; [done|]. by exists u, w.
    + apply choose_sound in Hm as [(w & Hw & Hm)|]; [|done]. apply widths_sound in Hw as (x & v & Hx & -> & ->).
      rewrite take_app_length, drop_app_length in Hm. apply star_sound in Hm as (us & v' & -> & Hus & Hm). apply IH in Hm as (w & -> & Hw).
      exists (x ++ concat us ++ w). rewrite <- !app_assoc. split; [done|]. exists (x :: us), w. cbn [concat].
      rewrite <- app_assoc, <- before_app. split_and!; [done|by constructor|done|done].
    + assert (exists l v, l ∈ ls /\ s = l ++ v /\ matchHere re (before prev l) v = Some rest) as (l & v & Hl & -> & Hv).
      { induction ls as [|l ls IHl]; cbn [foldr] in Hm; [done|].
        assert (foldr _ None ls = Some rest -> exists l' v, l' ∈ l :: ls /\ s = l' ++ v /\ matchHere re (before prev l') v = Some rest) as Hnext
          by (intros Hf; destruct (IHl Hf) as (l' & v & Hin & ?); exists l', v; split; [by right|done]).
        destruct (HasPrefix s l) eqn:Ep; [|by apply Hnext]. apply HasPrefix_spec in Ep as [t ->]. rewrite drop_app_length in Hm.
        destruct (matchHere re (before prev l) t) as [r|] eqn:Er; [|by apply Hnext]. injection Hm as ->. exists l, t. split_and!; [by left|done|done]. }
      apply IH in Hv as (w & -> & Hw). exists (l ++ w). rewrite <- app_assoc. split; [done|]. by exists l, w.
    + destruct (xorb _ _) eqn:Ex; [|done]. apply IH in Hm as (w & -> & Hw). exists w. split; [done|]. split; [|done].
      rewrite behind_app. by destruct (word_at prev), (word_at (head (w ++ rest))).
Qed.

Lemma matchHere_complete re prev w rest : lang re prev w (head rest) -> matchHere re prev (w ++ rest) <> None.
Proof.
  revert prev w. induction re as [|a re IH]; intros prev w Hl; cbn [matchHere lang] in *; [done|]. destruct a as [f lo hi|f xs|ls|].
  - destruct Hl as (u & v & -> & Hu & Hlo & Hhi & Hl). rewrite <- app_assoc. apply reps_complete; try done. by apply IH.
  - destruct Hl as (us & v & -> & Hus & Hne & Hl). apply IH in Hl. destruct us as [|x us]; [done|]. apply Forall_cons in Hus as [Hx Hus].
    cbn [concat] in *. rewrite <- !app_assoc. apply choose_complete. left. exists (length x). split; [by apply widths_complete|].
    rewrite take_app_length, drop_app_length. apply star_complete; [done| |by rewrite before_app].
    pose proof (units_length _ _ _ Hus). rewrite !length_app. lia.
  - destruct Hl as (l & v & Hin & -> & Hl). apply IH in Hl. induction Hin as [l ls|l l' ls Hin IHl]; cbn [foldr].
    + rewrite (proj2 (HasPrefix_spec _ _)) by (exists (v ++ rest); by rewrite app_assoc). rewrite <- app_assoc, drop_app_length. by destruct (matchHere _ _ _).
    + specialize (IHl Hl). destruct (HasPrefix _ _); [|exact IHl]. destruct (matchHere _ _ (drop _ _)); [idtac|exact IHl]. discriminate.
  - destruct Hl as [Hb Hl]. rewrite behind_app in Hb. destruct (word_at prev), (word_at (head (w ++ rest))); try done; by apply IH.
Qed.

(** What is before and behind matters only by its being a word character. *)
Lemma lang_prev re prev prev' w next : word_at prev = word_at prev' -> lang re prev w next -> lang re prev' w next.
Proof.
  revert prev prev' w. assert (forall p p' u, word_at p = word_at p' -> word_at (before p u) = word_at (before p' u)) as Hb.
  { intros p p' u E. unfold before. by destruct (last u). }
  induction re as [|a re IH]; intros prev prev' w E Hl; cbn [lang] in *; [done|]. destruct a as [f lo hi|f xs|ls|].
  - destruct Hl as (u & v & -> & Hu & Hlo & Hhi & Hl). exists u, v. split_and!; [done..|]. eapply IH, Hl. by apply Hb.
  - destruct Hl as (us & v & -> & Hus & Hne & Hl). exists us, v. split_and!; [done..|]. eapply IH, Hl. by apply Hb.
  - destruct Hl as (l & v & Hin & -> & Hl). exists l, v. split_and!; [done..|]. eapply IH, Hl. by apply Hb.
  - destruct Hl as [Hw Hl]. split; [congruence|]. by eapply IH.
Qed.

Lemma lang_next re prev w next next' : word_at next = word_at next' -> lang re prev w next -> lang re prev w next'.
Proof.
  intros E. revert prev w. induction re as [|a re IH]; intros prev w Hl; cbn [lang] in *; [done|]. destruct a as [f lo hi|f xs|ls|].
  - destruct Hl as (u & v & -> & Hu & Hlo & Hhi & Hl). exists u, v. split_and!; [done..|]. by apply IH.
  - destruct Hl as (us & v & -> & Hus & Hne & Hl). exists us, v. split_and!; [done..|]. by apply IH.
  - destruct Hl as (l & v & Hin & -> & Hl). exists l, v. split_and!; [done..|]. by apply IH.
  - destruct Hl as [Hw Hl]. split; [|by apply IH]. destruct w; cbn in *; congruence.
Qed.

(** A boundary at the end. *)
Lemma lang_end re prev w next : lang (re ++ [Boundary]) prev w next -> word_at (before prev w) <> word_at next.
Proof.
  revert prev w. induction re as [|a re IH]; intros prev w Hl; cbn [app lang] in *; [by destruct Hl as [? ->]|]. destruct a as [f lo hi|f xs|ls|].
  - destruct Hl as (u & v & -> & Hu & Hlo & Hhi & Hl). rewrite <- before_app. by apply IH.
  - destruct Hl as (us & v & -> & Hus & Hne & Hl). rewrite <- before_app. by apply IH.
  - destruct Hl as (l & v & Hin & -> & Hl). rewrite <- before_app. by apply IH.
  - destruct Hl as [Hw Hl]. by apply IH.
Qed.

(** A repetition without bound at the end takes all it can. *)
Lemma reps_post f k lo hi prev s rest (Q : bytes -> Prop) : (forall p v r, k p v = Some r -> Q r) -> reps f lo hi k prev s = Some rest -> Q rest.
Proof. intros Hk Hr. apply reps_sound in Hr as (u & v & _ & _ & _ & _ & Hr). by eapply Hk. Qed.

Lemma reps_last f lo prev s rest : reps f lo None (fun _ s => Some s) prev s = Some rest -> forall b, head rest = Some b -> f b = false.
Proof.
  revert lo prev. induction s as [|b s IH]; intros lo prev Hr; cbn [reps] in Hr.
  - destruct lo; [by injection Hr as <-|done].
  - destruct (f b) eqn:Ef.
    + cbn [fmap option_fmap option_map] in Hr. destruct (reps f (pred lo) None _ (Some b) s) as [r|] eqn:E.
      * injection Hr as ->. by apply (IH _ _ E).
      * exfalso. destruct lo; [|done]. revert E. change s with ([] ++ s) at 1. by apply reps_complete; [constructor|cbn; lia|done|].
    + destruct lo; [|done]. injection Hr as <-. by intros ? [= <-].
Qed.

Lemma star_some n f xs prev s : star n f xs (fun _ s => Some s) prev s <> None.
Proof. destruct n; [done|]. cbn [star]. apply choose_complete. by right. Qed.

Lemma star_last n f xs prev s rest : (length s <= n)%nat -> star n f xs (fun _ s => Some s) prev s = Some rest -> forall b, head rest = Some b -> f b = false.
Proof.
  revert prev s. induction n as [|n IH]; intros prev s Hn Hs; cbn [star] in Hs; [destruct s; [by injection Hs as <-|cbn in Hn; lia]|].
  destruct (decide (widths f xs s = [])) as [E|E].
  - rewrite E in Hs. injection Hs as <-. intros b Hb. destruct s as [|c s]; [done|]. injection Hb as ->. unfold widths in E. by destruct (f b).
  - assert (exists w, w ∈ widths f xs s /\ star n f xs (fun _ s => Some s) (before prev (take w s)) (drop w s) = Some rest) as (w & Hw & Hs').
    { destruct (widths f xs s) as [|w ws]; [done|]. exists w. split; [by left|]. cbn [choose foldr] in Hs.
      destruct (star n f xs _ (before prev (take w s)) (drop w s)) eqn:Es; [done|by apply star_some in Es]. }
    apply widths_sound in Hw as (x & v & [Hx _] & -> & ->). rewrite drop_app_length in Hs'. eapply IH, Hs'. rewrite length_app in Hn.
    destruct x; [done|]. cbn [length] in Hn. lia.
Qed.

(** The expressions that end in such a repetition. *)
Inductive greedy (f : Z -> bool) : regexp -> Prop :=
  | greedy_class lo : greedy f [Class f lo None]
  | greedy_runs xs : greedy f [Runs f xs]
  | greedy_cons a re : greedy f re -> greedy f (a :: re).

Lemma matchHere_greedy f re prev s rest : greedy f re -> matchHere re prev s = Some rest -> forall b, head rest = Some b -> f b = false.
Proof.
  intros Hg. revert prev s rest. induction Hg as [lo|xs|a re Hg IH]; intros prev s rest Hm; cbn [matchHere] in Hm; [by eapply reps_last| |].
  - apply choose_sound in Hm as [(w & Hw & Hm)|]; [|done]. eapply star_last, Hm. rewrite length_drop. lia.
  - destruct a as [g lo' hi'|g xs|ls|].
    + eapply (reps_post _ _ _ _ _ _ _ (fun rest => forall b, head rest = Some b -> f b = false)); [|exact Hm]. intros p v r. apply IH.
    + apply choose_sound in Hm as [(w & Hw & Hm)|]; [|done]. apply star_sound in Hm as (us & v & _ & _ & Hm). by eapply IH.
    + induction ls as [|l ls IHl]; cbn [foldr] in Hm; [done|]. destruct (HasPrefix s l); [|by apply IHl].
      destruct (matchHere _ _ _) as [r|] eqn:Er; [|by apply IHl]. injection Hm as ->. by eapply IH.
    + destruct (xorb _ _); [|done]. by eapply IH.
Qed.

(** * The pieces of a text *)

Definition source (p : piece) : bytes := match p with Plain b => [b] | Hit m => m end.
Definition text (ps : list piece) : bytes := concat (map source ps).
Definition written (repl : bytes) (ps : list piece) : bytes := concat (map (put repl) ps).

Lemma text_app ps1 ps2 : text (ps1 ++ ps2) = text ps1 ++ text ps2.
Proof. unfold text. by rewrite map_app, concat_app. Qed.

Lemma written_app repl ps1 ps2 : written repl (ps1 ++ ps2) = written repl ps1 ++ written repl ps2.
Proof. unfold written. by rewrite map_app, concat_app. Qed.

Lemma text_plain bs : text (map Plain bs) = bs.
Proof. unfold text. induction bs as [|b bs IH]; [done|]. cbn. by f_equal. Qed.

Lemma written_plain repl bs : written repl (map Plain bs) = bs.
Proof. unfold written. induction bs as [|b bs IH]; [done|]. cbn. by f_equal. Qed.

(** The cut of a text: nowhere between the matches is there a match. *)
Section Cuts.
Context (re : regexp) (tail : Z -> bool).
Hypothesis Hne : forall prev next, ~ lang re prev [] next.
Hypothesis Htail : forall prev s rest, matchHere re prev s = Some rest -> forall b, head rest = Some b -> tail b = false.

Fixpoint cuts (prev : option Z) (ps : list piece) : Prop :=
  match ps with
  | [] => True
  | Plain b :: ps => (forall w rest, b :: text ps = w ++ rest -> ~ lang re prev w (head rest)) /\ cuts (Some b) ps
  | Hit m :: ps => lang re prev m (head (text ps)) /\ (forall b, head (text ps) = Some b -> tail b = false) /\ cuts (before prev m) ps
  end.

Lemma pieces_cut n prev s : (length s <= n)%nat -> text (pieces n re prev s) = s /\ cuts prev (pieces n re prev s).
Proof.
  revert prev s. induction n as [|n IH]; intros prev s Hn; [by destruct s; [|cbn in Hn; lia]|].
  destruct s as [|b s]; [done|]. cbn [pieces]. destruct (matchHere re prev (b :: s)) as [rest|] eqn:Em.
  - pose proof (Htail _ _ _ Em) as Ht. apply matchHere_sound in Em as (w & Ew & Hw).
    assert (w <> []) as Hwn by (intros ->; by apply Hne in Hw). rewrite Ew, length_app.
    assert (0 < length w)%nat by (by destruct w; [|cbn; lia]). rewrite decide_True by lia.
    rewrite (take_app_length' w) by lia. destruct (IH (before prev w) rest) as [Et Hc]; [apply (f_equal length) in Ew; rewrite length_app in Ew; cbn in *; lia|].
    cbn [text map concat source cuts]. change (concat (map source _)) with (text (pieces n re (before prev w) rest)). rewrite Et. done.
  - assert (text (Plain b :: pieces n re (Some b) s) = b :: s /\ cuts prev (Plain b :: pieces n re (Some b) s)); [|done].
    destruct (IH (Some b) s) as [Et Hc]; [cbn in Hn; lia|]. unfold text. cbn [map concat source cuts app].
    change (concat (map source _)) with (text (pieces n re (Some b) s)). rewrite Et. split; [done|]. split; [|done].
    intros w rest Ew Hl. apply matchHere_complete in Hl. by rewrite <- Ew, Em in Hl.
Qed.

Lemma cuts_app prev ps1 ps2 : cuts prev (ps1 ++ ps2) -> cuts (before prev (text ps1)) ps2.
Proof.
  revert prev. induction ps1 as [|p ps1 IH]; intros prev Hc; [exact Hc|]. unfold text. cbn [map concat]. rewrite <- before_app.
  destruct p as [b|m]; cbn [app cuts source] in *; apply IH.
  - by destruct Hc as [_ Hc].
  - by destruct Hc as (_ & _ & Hc).
Qed.

Lemma cuts_hit prev ps1 m ps2 : cuts prev (ps1 ++ Hit m :: ps2) ->
  lang re (before prev (text ps1)) m (head (text ps2)) /\ forall b, head (text ps2) = Some b -> tail b = false.
Proof. intros Hc%cuts_app. by destruct Hc as (? & ? & _). Qed.

(** No match begins with bytes that were left. *)
Lemma cuts_plain prev ps1 b ps2 w rest : cuts prev (ps1 ++ Plain b :: ps2) -> b :: text ps2 = w ++ rest -> ~ lang re (before prev (text ps1)) w (head rest).
Proof. intros Hc%cuts_app. destruct Hc as [Hc _]. apply Hc. Qed.

(** A text that no match is in is left as it is. *)
Lemma cuts_none prev ps : cuts prev ps -> (forall u w v, text ps = u ++ w ++ v -> ~ lang re (before prev u) w (head v)) -> ps = map Plain (text ps).
Proof.
  intros Hc Hn. assert (forall m, Hit m ∉ ps) as Ha.
  { intros m Hin. apply list_elem_of_split in Hin as (ps1 & ps2 & ->). apply cuts_hit in Hc as [Hl _]. eapply Hn, Hl. by rewrite text_app. }
  clear Hc Hn. induction ps as [|[b|m] ps IH]; [done| |by destruct (Ha m); left]. unfold text. cbn. f_equal. apply IH. intros m Hin. apply (Ha m). by right.
Qed.
End Cuts.

(** * Where the written text comes from *)

(** A part [R] of the written text begins inside a replacement, was in the
    source, contains a replacement, or ends inside one. *)
Inductive place (repl : bytes) (ps : list piece) (u R v : bytes) : Prop :=
  | begins_inside ps1 m ps2 r1 r2 : ps = ps1 ++ Hit m :: ps2 -> repl = r1 ++ r2 -> r1 <> [] -> r2 <> [] ->
      u = written repl ps1 ++ r1 -> R ++ v = r2 ++ written repl ps2 -> place repl ps u R v
  | kept ps1 ps2 : ps = ps1 ++ map Plain R ++ ps2 -> u = written repl ps1 -> v = written repl ps2 -> place repl ps u R v
  | contains R0 R2 : R = R0 ++ repl ++ R2 -> place repl ps u R v
  | ends_inside ps1 R0 m ps2 r1 r2 : ps = ps1 ++ map Plain R0 ++ Hit m :: ps2 -> repl = r1 ++ r2 -> r1 <> [] -> r2 <> [] ->
      u = written repl ps1 -> R = R0 ++ r1 -> v = r2 ++ written repl ps2 -> place repl ps u R v.

Lemma app_split (a b c d : bytes) : a ++ b = c ++ d ->
  (exists e, c = a ++ e /\ b = e ++ d) \/ (exists e, e <> [] /\ a = c ++ e /\ d = e ++ b).
Proof.
  revert c. induction a as [|x a IH]; intros c E; [by left; exists c|]. destruct c as [|y c]; [right; by exists (x :: a)|].
  injection E as -> E. destruct (IH c E) as [(e & -> & ->)|(e & He & -> & ->)]; [left|right]; by exists e.
Qed.

Lemma written_cons repl p ps : written repl (p :: ps) = put repl p ++ written repl ps.
Proof. done. Qed.

Lemma place_run repl ps R v : written repl ps = R ++ v -> place repl ps [] R v.
Proof.
  revert R. induction ps as [|p ps IH]; intros R E.
  - symmetry in E. apply app_nil in E as [-> ->]. by apply (kept _ _ _ _ _ [] []).
  - destruct R as [|b R]; [by apply (kept _ _ _ _ _ [] (p :: ps))|]. rewrite written_cons in E. destruct p as [c|m]; cbn [put] in E.
    + injection E as -> E. destruct (IH R E) as [ps1 m ps2 r1 r2 _ _ Hr1 _ Hu|ps1 ps2 -> Hu ->|R0 R2 ->|ps1 R0 m ps2 r1 r2 -> -> Hr1 Hr2 Hu -> ->].
      * symmetry in Hu. apply app_nil in Hu as [_ ->]. done.
      * destruct ps1 as [|q ps1].
        -- by apply (kept _ _ _ _ _ [] ps2).
        -- rewrite written_cons in Hu. symmetry in Hu. apply app_nil in Hu as [Hq Hu]. destruct q; [done|]. cbn in Hq. subst repl.
           apply (contains _ _ _ _ _ (b :: R) []). by rewrite !app_nil_r.
      * by apply (contains _ _ _ _ _ (b :: R0) R2).
      * destruct ps1 as [|q ps1].
        -- by apply (ends_inside _ _ _ _ _ [] (b :: R0) m ps2 r1 r2).
        -- rewrite written_cons in Hu. symmetry in Hu. apply app_nil in Hu as [Hq _]. destruct q; [done|]. cbn in Hq. apply app_nil in Hq as [-> _]. done.
    + apply app_split in E as [(e & -> & E)|(e & He & -> & ->)]; [by apply (contains _ _ _ _ _ [] e)|].
      by apply (ends_inside _ _ _ _ _ [] [] m ps (b :: R) e).
Qed.

Lemma place_of repl ps u R v : written repl ps = u ++ R ++ v -> place repl ps u R v.
Proof.
  revert u. induction ps as [|p ps IH]; intros u E.
  - symmetry in E. apply app_nil in E as [-> E]. by apply place_run.
  - destruct u as [|b u]; [by apply place_run|]. rewrite written_cons in E. apply app_split in E as [(e & -> & E)|(e & He & Ee & E)].
    + destruct (IH e E) as [ps1 m ps2 r1 r2 -> Hr Hr1 Hr2 -> E2|ps1 ps2 -> -> ->|R0 R2 ->|ps1 R0 m ps2 r1 r2 -> Hr Hr1 Hr2 -> -> ->].
      * apply (begins_inside _ _ _ _ _ (p :: ps1) m ps2 r1 r2); try done. by rewrite written_cons, app_assoc.
      * by apply (kept _ _ _ _ _ (p :: ps1) ps2).
      * by apply (contains _ _ _ _ _ R0 R2).
      * by apply (ends_inside _ _ _ _ _ (p :: ps1) R0 m ps2 r1 r2).
    + destruct p as [c|m]; cbn [put] in Ee; [|by apply (begins_inside _ _ _ _ _ [] m ps (b :: u) e)].
      destruct u, e; by injection Ee.
Qed.
