(* ===== verification/GoURL.v ===== *)
(** Package net/url, as of Go 1.26 (go.mod): [Parse], [ParseQuery],
    [Values.Encode] and what they are made of; the parser of hosts is a
    parameter.  Where only the failure of a
    function matters to its callers its error is not told apart. *)
From S2P Require Import Prelude GoStrings GoNet.
From stdpp Require Import gmap.

Open Scope Z_scope.

(** * Escapes *)

Inductive encoding := encodePath | encodeHost | encodeZone | encodeUserPassword | encodeQueryComponent | encodeFragment.

#[export] Instance encoding_eq_dec : EqDecision encoding.
Proof. solve_decision. Defined.

Definition unreserved (c : Z) : bool := is_lower c || is_upper c || is_digit c || existsb (Z.eqb c) (str "-_.~").

(** [shouldEscape] of a byte of a host or of a zone. *)
Definition shouldEscapeHost (c : Z) : bool := negb (unreserved c || existsb (Z.eqb c) (34 :: str "!$&'()*+,;=:[]<>")).

(** [unescape]: the decoded text, or an error. *)
Fixpoint unescape (mode : encoding) (s : bytes) : option bytes :=
  match s with
  | [] => Some []
  | 37 :: h :: l :: s' =>
    match hex_val h, hex_val l with
    | Some h', Some l' =>
      let v := h' * 16 + l' in
      if bool_decide (mode = encodeHost) && (h' <? 8) && negb (v =? 37) then None
      else if bool_decide (mode = encodeZone) && negb (v =? 37) && negb (v =? 32) && shouldEscapeHost v then None
      else cons v <$> unescape mode s'
    | _, _ => None
    end
  | 37 :: _ => None
  | c :: s' =>
    if (bool_decide (mode = encodeHost) || bool_decide (mode = encodeZone)) && (c <? 128) && shouldEscapeHost c then None
    else cons (if bool_decide (mode = encodeQueryComponent) && (c =? 43) then 32 else c) <$> unescape mode s'
  end.

Definition QueryUnescape : bytes -> option bytes := unescape encodeQueryComponent.

Definition upper_hex (v : Z) : Z := if v <? 10 then 48 + v else 55 + v.
Definition escape_byte (c : Z) : bytes :=
  if unreserved c then [c] else if c =? 32 then [43] else [37; upper_hex (c / 16); upper_hex (c mod 16)].
Definition QueryEscape (s : bytes) : bytes := concat (map escape_byte s).

(** * Queries *)

(** [url.Values]. *)
Notation Values := (gmap bytes (list bytes)).

Definition Values_Add (m : Values) (k v : bytes) : Values := <[k := default [] (m !! k) ++ [v]]> m.

(** The name and the value of a segment, [None] where [parseQuery] skips it;
    [Err] where it also keeps an error. *)
Definition parsePair (key : bytes) : result unit (option (bytes * bytes)) :=
  if Contains key (str ";") then Err tt
  else if decide (key = []) then Ok None
  else
    let '(key, value, _) := Cut key 61 in
    match QueryUnescape key, QueryUnescape value with
    | Some key, Some value => Ok (Some (key, value))
    | _, _ => Err tt
    end.

(** The parameters that could be read, and whether there was no error. *)
Definition addPair (acc : Values * bool) (seg : bytes) : Values * bool :=
  let '(m, ok) := acc in
  match parsePair seg with
  | Err _ => (m, false)
  | Ok None => (m, ok)
  | Ok (Some (k, v)) => (Values_Add m k v, ok)
  end.

Definition parsePairs (m : Values) (segments : list bytes) : Values * bool := foldl addPair (m, true) segments.

Definition defaultMaxParams : Z := 10000.

(** [ParseQuery]. *)
Definition ParseQuery (query : bytes) : Values * bool :=
  if defaultMaxParams <? len (Split query 38) then (∅, false)
  else parsePairs ∅ (Split query 38).

(** [Values.Encode]. *)
Definition Encode (v : Values) : bytes :=
  Strings_Join (concat (map (fun k => map (fun x => QueryEscape k ++ [61] ++ QueryEscape x) (default [] (v !! k))) (Sort (elements (dom v))))) [38].

(** * URLs *)

Record URL := mkURL { Scheme : bytes; Opaque : bytes; Host : bytes; Path : bytes; RawQuery : bytes; Fragment : bytes }.

Definition stringContainsCTLByte (s : bytes) : bool := existsb (fun b => (b <? 32) || (b =? 127)) s.

(** [getScheme]: the scheme and the rest, or an error. *)
Fixpoint scheme_end (i : nat) (s : bytes) : option (option nat) :=
  match s with
  | [] => Some None
  | c :: s' =>
    if is_lower c || is_upper c then scheme_end (S i) s'
    else if is_digit c || existsb (Z.eqb c) (str "+-.") then if decide (i = 0%nat) then Some None else scheme_end (S i) s'
    else if c =? 58 then if decide (i = 0%nat) then None else Some (Some i)
    else Some None
  end.
Definition getScheme (rawURL : bytes) : option (bytes * bytes) :=
  match scheme_end 0 rawURL with
  | None => None
  | Some None => Some ([], rawURL)
  | Some (Some i) => Some (take i rawURL, drop (S i) rawURL)
  end.

Definition LastIndex (s : bytes) (b : Z) : option nat := (fun i => (length s - 1 - i)%nat) <$> IndexByte (rev s) b.

Definition validOptionalPort (port : bytes) : bool :=
  match port with
  | [] => true
  | c :: digits => (c =? 58) && forallb is_digit digits
  end.

(** [netip.ParseAddr] accepts the text as an IPv6 address, with a zone or
    without. *)
Definition IsIPv6Literal (s : bytes) : bool :=
  let '(addr, zone, hasZone) := Cut s 37 in
  match ParseAddr addr with
  | Some a => (len a =? 16) && (negb hasZone || negb (bool_decide (zone = [])))
  | None => false
  end.

(** [parseHost] of Go 1.26.2: only http and https reject a second colon. *)
Definition parseHost_1_26_2 (scheme host : bytes) : option bytes :=
  match LastIndex host 91 with
  | Some (S _) => None
  | Some O =>
    match LastIndex host 93 with
    | None => None
    | Some close =>
      let colonPort := drop (S close) host in
      if negb (validOptionalPort colonPort) then None
      else
        port ← unescape encodeHost colonPort;
        let hostname := drop 1 (take close host) in
        name ← match Index hostname (str "%25") with
               | Some zone =>
                 h ← unescape encodeHost (take zone hostname);
                 z ← unescape encodeZone (drop zone hostname);
                 Some (h ++ z)
               | None => unescape encodeHost hostname
               end;
        if IsIPv6Literal name then Some ([91] ++ name ++ [93] ++ port) else None
    end
  | None =>
    match IndexByte host 58, LastIndex host 58 with
    | Some i, Some lastColon =>
      let i := if bool_decide (scheme = str "http") || bool_decide (scheme = str "https") then i else lastColon in
      if validOptionalPort (drop i host) then unescape encodeHost host else None
    | _, _ => unescape encodeHost host
    end
  end.

Section Parse.
(** What is accepted as a host differs between the patch releases of Go 1.26
    (brackets behind other text, several colons) and with a GODEBUG setting. *)
Context (parseHost : bytes -> bytes -> option bytes).

Definition validUserinfo (s : bytes) : bool :=
  forallb (fun c => is_upper c || is_lower c || is_digit c || existsb (Z.eqb c) (str "-._:~!$&'()*+,;=%@")) s.

(** [parseAuthority]: the host; the user is not kept, but it must parse. *)
Definition parseAuthority (scheme authority : bytes) : option bytes :=
  match LastIndex authority 64 with
  | None => parseHost scheme authority
  | Some i =>
    host ← parseHost scheme (drop (S i) authority);
    let userinfo := take i authority in
    if negb (validUserinfo userinfo) then None
    else
      let '(username, password, _) := Cut userinfo 58 in
      _ ← unescape encodeUserPassword username;
      _ ← unescape encodeUserPassword password;
      Some host
  end.

(** The part before a fragment. *)
Definition parse (rawURL : bytes) : option URL :=
  if stringContainsCTLByte rawURL then None
  else if decide (rawURL = str "*") then Some (mkURL [] [] [] (str "*") [] [])
  else
    '(scheme, rest) ← getScheme rawURL;
    let Scheme := map lower_byte scheme in
    let '(rest, RawQuery, _) := Cut rest 63 in
    if negb (HasPrefix rest (str "/")) && negb (bool_decide (Scheme = [])) then Some (mkURL Scheme rest [] [] RawQuery [])
    else if negb (HasPrefix rest (str "/")) && Contains (Cut rest 47).1.1 (str ":") then None
    else
      '(host, rest) ← (if (negb (bool_decide (Scheme = [])) || negb (HasPrefix rest (str "///"))) && HasPrefix rest (str "//") then
                         let '(authority, rest) := match IndexByte (drop 2 rest) 47 with
                                                   | Some i => (take i (drop 2 rest), drop i (drop 2 rest))
                                                   | None => (drop 2 rest, [])
                                                   end in
                         host ← parseAuthority Scheme authority;
                         Some (host, rest)
                       else Some ([], rest));
      path ← unescape encodePath rest;
      Some (mkURL Scheme [] host path RawQuery []).

(** [url.Parse]. *)
Definition Parse (rawURL : bytes) : option URL :=
  let '(u, frag, _) := Cut rawURL 35 in
  url ← parse u;
  if decide (frag = []) then Some url
  else
    fragment ← unescape encodeFragment frag;
    Some (mkURL (Scheme url) (Opaque url) (Host url) (Path url) (RawQuery url) fragment).
End Parse.

(** [u.Query()]. *)
Definition Query (u : URL) : Values := (ParseQuery (RawQuery u)).1.
