(* ===== verification/RedactSafe.v ===== *)
(** What the redaction of credentials leaves: no credential of the nine kinds
    is in its result (RedactURI). *)
From S2P Require Import Prelude GoStrings GoNet GoRegexp GoURL RedactURI.
From stdpp Require Import gmap.

Open Scope Z_scope.

Notation RD := redactedCredential.

(** * Credentials *)

(** A kind of credential: an expression, and for those that end in a
    repetition without a boundary the class that may not go on behind it. *)
Record pattern := mkPattern { p_re : regexp; p_tail : Z -> bool }.

Definition bounded (re : regexp) : pattern := mkPattern re (fun _ => false).
Definition jwt : pattern := mkPattern jwtLikeRE token_byte.
Definition bearer : pattern := mkPattern bearerRE bearer_byte.
Definition patterns : list pattern :=
  [jwt; bearer; bounded ghPatRE; bounded stripeKeyRE; bounded awsKeyRE; bounded openAIProjKeyRE; bounded googleAPIKeyRE; bounded sendGridKeyRE; bounded slackTokenRE].

(** [w] is a whole credential between [prev] and [next]. *)
Definition complete (p : pattern) (prev : option Z) (w : bytes) (next : option Z) : Prop :=
  lang (p_re p) prev w next /\ forall b, next = Some b -> p_tail p b = false.

(** All that looks like a credential in [s] contains the mark. *)
Definition hidden (p : pattern) (s : bytes) : Prop :=
  forall u w v, s = u ++ w ++ v -> complete p (last u) w (head v) -> GoStrings.Contains w RD = true.

Lemma RD_word c : c ∈ RD -> word_byte c = true.
Proof.
  assert (Forall (fun c => word_byte c = true) RD) as Hf by (apply (bool_decide_unpack _); vm_compute; exact I). rewrite Forall_forall in Hf. apply Hf.
Qed.

(** ** The shape of a pattern *)

Class PatternOk (p : pattern) : Prop := {
  ok_start : forall prev w next, complete p prev w next -> exists b w', w = b :: w' /\ word_byte b = true /\ (word_at prev = true -> b ∉ RD);
  ok_end : forall prev w next c d, complete p prev w next -> last w = Some c -> next = Some d -> c ∈ RD -> d ∈ RD -> False;
  ok_tail : p_tail p 82 = false -> forall b, p_tail p b = false }.

Lemma lang_lit b l re prev w next : lang (lit (b :: l) :: re) prev w next -> exists w', w = b :: w'.
Proof. intros (l' & v & Hin & -> & _). apply list_elem_of_singleton in Hin as ->. by eexists. Qed.

(** An expression between two boundaries that begins with a literal. *)
Lemma bounded_ok b l re : word_byte b = true -> PatternOk (bounded (Boundary :: lit (b :: l) :: re ++ [Boundary])).
Proof.
  intros Hb. split.
  - intros prev w next [[Hw Hl] _]. apply lang_lit in Hl as [w' ->]. exists b, w'. split_and!; [done..|]. intros Hp.
    cbn [behind word_at] in Hw. congruence.
  - intros prev w next c d [[_ Hl] _] Hc -> Hin Hin'. change (lit (b :: l) :: re ++ [Boundary]) with ((lit (b :: l) :: re) ++ [Boundary]) in Hl.
    apply lang_end in Hl. unfold before in Hl. rewrite Hc in Hl. cbn [word_at] in Hl. by rewrite !RD_word in Hl.
  - done.
Qed.

#[export] Instance gh_ok : PatternOk (bounded ghPatRE).
Proof. by apply (bounded_ok 103 (str "h") [_; _; _]). Qed.
#[export] Instance stripe_ok : PatternOk (bounded stripeKeyRE).
Proof. by apply (bounded_ok 115 (str "k_") [_; _; _]). Qed.
#[export] Instance aws_ok : PatternOk (bounded awsKeyRE).
Proof. by apply (bounded_ok 65 (str "KIA") [_]). Qed.
#[export] Instance openai_ok : PatternOk (bounded openAIProjKeyRE).
Proof. by apply (bounded_ok 115 (str "k-proj-") [_]). Qed.
#[export] Instance google_ok : PatternOk (bounded googleAPIKeyRE).
Proof. by apply (bounded_ok 65 (str "Iza") [_]). Qed.
#[export] Instance sendgrid_ok : PatternOk (bounded sendGridKeyRE).
Proof. by apply (bounded_ok 83 (str "G.") [_; _; _]). Qed.
#[export] Instance slack_ok : PatternOk (bounded slackTokenRE).
Proof. by apply (bounded_ok 120 (str "ox") [_; _; _]). Qed.

(** A tail that has all the letters of the mark. *)
Lemma tail_ends p prev w next d : complete p prev w next -> next = Some d -> d ∈ RD -> Forall (fun c => p_tail p c = true) RD -> False.
Proof. intros [_ Ht] Hd Hin Hf. rewrite Forall_forall in Hf. specialize (Ht d Hd). by rewrite Hf in Ht. Qed.

#[export] Instance jwt_ok : PatternOk jwt.
Proof.
  split.
  - intros prev w next [Hl _]. apply lang_lit in Hl as [w' ->]. exists 101, w'. split_and!; [done..|]. intros _. apply (bool_decide_unpack _). vm_compute. exact I.
  - intros prev w next c d Hc _ Hd _ Hin. eapply tail_ends; [exact Hc|exact Hd|exact Hin|]. apply (bool_decide_unpack _). vm_compute. exact I.
  - done.
Qed.

(** A bearer token begins with the six letters, white space and an element. *)
Lemma fold_lit_lang s re prev w next : lang (fold_lit s ++ re) prev w next <->
  exists u v, w = u ++ v /\ map lower_byte u = s /\ lang re (before prev u) v next.
Proof.
  revert prev w. induction s as [|c s IH]; intros prev w; cbn [fold_lit map app].
  - split; [intros Hl; by exists [], w|]. intros (u & v & -> & Hu & Hl). by destruct u.
  - cbn [lang]. setoid_rewrite IH. split.
    + intros (u1 & v & -> & Hf & H1 & H2 & u & v' & -> & <- & Hl). destruct u1 as [|b [|]]; cbn [length] in *; [lia| |lia].
      apply Forall_cons in Hf as [Hf _]. apply Z.eqb_eq in Hf. exists (b :: u), v'. rewrite before_app in Hl. cbn. by rewrite Hf.
    + intros (u & v & -> & Hu & Hl). destruct u as [|b u]; [done|]. injection Hu as <- <-. exists [b], (u ++ v).
      split_and!; [done|repeat constructor; apply Z.eqb_refl|cbn; lia|cbn; lia|]. exists u, v. by rewrite before_app.
Qed.

Lemma bearer_shape prev w next : lang bearerRE prev w next <->
  word_at prev <> word_at (behind w next) /\
  exists u sp us, w = u ++ sp ++ concat us /\ map lower_byte u = str "bearer" /\ sp <> [] /\ Forall (fun b => space_byte b = true) sp /\
    us <> [] /\ Forall (unit_of bearer_byte folded_letters) us.
Proof.
  unfold bearerRE. cbn [app lang]. rewrite fold_lit_lang. cbn [lang]. split; intros [Hw Hl]; (split; [exact Hw|]).
  - destruct Hl as (u & v & -> & Hu & sp & v' & -> & Hsp & H1 & _ & us & v2 & -> & Hus & Hne & ->). exists u, sp, us.
    rewrite app_nil_r. split_and!; [done..| |done|done|done]. by destruct sp; [cbn in H1; lia|].
  - destruct Hl as (u & sp & us & -> & Hu & Hne & Hsp & Hn & Hus). exists u, (sp ++ concat us). split_and!; [done..|].
    exists sp, (concat us). split_and!; [done..|by destruct sp; [|cbn; lia]|done|]. exists us, []. by rewrite app_nil_r.
Qed.

Lemma bearer_start prev w next : lang bearerRE prev w next -> exists b w', w = b :: w' /\ lower_byte b = 98 /\ word_byte b = true /\ word_at prev = false.
Proof.
  intros (Hw & u & sp & us & -> & Hu & _)%bearer_shape. destruct u as [|b u]; [done|]. injection Hu as Hb _. exists b, (u ++ sp ++ concat us).
  assert (word_byte b = true) as Hwb.
  { unfold lower_byte in Hb. unfold word_byte, is_upper, is_lower, in_range in *. destruct ((65 <=? b) && (b <=? 90)) eqn:E; [done|]. by subst b. }
  split_and!; [done..|]. cbn in Hw. rewrite Hwb in Hw. by destruct (word_at prev).
Qed.

#[export] Instance bearer_ok : PatternOk bearer.
Proof.
  split.
  - intros prev w next [Hl _]. apply bearer_start in Hl as (b & w' & -> & _ & Hb & Hp). exists b, w'. split_and!; [done..|]. congruence.
  - intros prev w next c d Hc _ Hd _ Hin. eapply tail_ends; [exact Hc|exact Hd|exact Hin|]. apply (bool_decide_unpack _). vm_compute. exact I.
  - done.
Qed.

(** * One replacement *)

(** An expression that is replaced: it matches no empty text, its matches begin
    with a word character, and [tail] cannot follow one. *)
Class ReplaceOk (re : regexp) (tail : Z -> bool) : Prop := {
  ok_head : forall prev m next, lang re prev m next -> exists b m', m = b :: m' /\ word_byte b = true;
  ok_greedy : forall prev s rest, matchHere re prev s = Some rest -> forall b, head rest = Some b -> tail b = false }.

Lemma replace_ok p : PatternOk p -> greedy (p_tail p) (p_re p) -> (forall prev m next, lang (p_re p) prev m next -> exists b m', m = b :: m' /\ word_byte b = true) ->
  ReplaceOk (p_re p) (p_tail p).
Proof. intros Hp Hg Hh. split; [exact Hh|]. intros prev s rest Hm. by eapply matchHere_greedy. Qed.

Lemma bounded_head b l re : word_byte b = true -> forall prev m next, lang (Boundary :: lit (b :: l) :: re) prev m next -> exists b m', m = b :: m' /\ word_byte b = true.
Proof. intros Hb prev m next [_ Hl]. apply lang_lit in Hl as [m' ->]. by exists b, m'. Qed.

#[export] Instance jwt_replace : ReplaceOk (p_re jwt) (p_tail jwt).
Proof.
  apply replace_ok; [apply _|by repeat constructor|]. intros prev m next Hl. apply lang_lit in Hl as [m' ->]. by exists 101, m'.
Qed.

#[export] Instance bearer_replace : ReplaceOk (p_re bearer) (p_tail bearer).
Proof.
  apply replace_ok; [apply _|by repeat constructor|]. intros prev m next (b & m' & -> & _ & Hb & _)%bearer_start. by exists b, m'.
Qed.

Lemma bounded_replace b l re : word_byte b = true -> ReplaceOk (Boundary :: lit (b :: l) :: re) (fun _ => false).
Proof. intros Hb. split; [by apply bounded_head|done]. Qed.

(** Behind a mark none begins at a boundary. *)
Lemma same_before p repl ps1 w next : (forall prev w next, complete p prev w next -> word_at prev = false) -> word_at (last repl) = true ->
  complete p (last (written repl ps1)) w next -> complete p (last (text ps1)) w next.
Proof.
  intros Hw Hr Hc. destruct ps1 as [|[b|m] ps1 _] using rev_ind; [exact Hc| |].
  - rewrite text_app. rewrite written_app in Hc. change (text [Plain b]) with [b]. change (written repl [Plain b]) with [b] in Hc.
    rewrite last_snoc in Hc. by rewrite last_snoc.
  - exfalso. apply Hw in Hc. rewrite written_app in Hc. unfold written at 2 in Hc. cbn [map concat put] in Hc. rewrite app_nil_r, last_app in Hc.
    destruct (last repl); cbn in *; congruence.
Qed.

Section Pass.
Context (p : pattern) `{!PatternOk p} (re : regexp) (tail : Z -> bool) `{!ReplaceOk re tail}.
Context (ps : list piece) (Hcut : cuts re tail None ps).

Lemma hit_head m ps1 ps2 : ps = ps1 ++ Hit m :: ps2 -> exists b m', m = b :: m' /\ word_byte b = true.
Proof. intros ->. apply cuts_hit in Hcut as [Hl _]. by eapply ok_head. Qed.

(** A credential looks the same in the source if what is behind it is. *)
Lemma same_behind ps1 ps2 prev w : ps = ps1 ++ ps2 -> complete p prev w (head (written RD ps2)) -> complete p prev w (head (text ps2)).
Proof.
  intros Hps Hc. destruct ps2 as [|[b|m] ps2]; [exact Hc|exact Hc|]. destruct (hit_head m ps1 ps2 Hps) as (b & m' & -> & Hb).
  destruct Hc as [Hl Ht]. specialize (Ht 82 eq_refl). cbn. split; [|intros c [= <-]; by apply ok_tail].
  eapply lang_next, Hl. cbn. by rewrite Hb.
Qed.

(** Where a credential of the text with marks was before. *)
Hypothesis Hprev : (forall prev prev' w next, complete p prev w next -> complete p prev' w next) \/
  (forall prev w next, complete p prev w next -> word_at prev = false).

Lemma credential_source u w v : written RD ps = u ++ w ++ v -> complete p (last u) w (head v) ->
  GoStrings.Contains w RD = true \/ exists ps1 ps2, ps = ps1 ++ map Plain w ++ ps2 /\ complete p (last (text ps1)) w (head (text ps2)).
Proof.
  intros E Hc. destruct (ok_start _ _ _ Hc) as (b & w' & -> & Hb & Hstart).
  apply place_of in E as [ps1 m ps2 r1 r2 Hps Hr Hr1 Hr2 -> E|ps1 ps2 Hps -> ->|R0 R2 ->|ps1 R0 m ps2 r1 r2 Hps Hr Hr1 Hr2 -> Hw ->].
  - exfalso. destruct r1 as [|c r1 _] using rev_ind; [done|]. destruct r2 as [|d r2]; [done|]. rewrite app_assoc, last_snoc in Hstart.
    injection E as -> _. apply Hstart; [|rewrite Hr; apply elem_of_app; right; by left].
    apply RD_word. rewrite Hr. apply elem_of_app. left. apply elem_of_app. right. by left.
  - right. exists ps1, ps2. split; [done|]. eapply (same_behind (ps1 ++ map Plain (b :: w'))); [by rewrite <- app_assoc|].
    destruct Hprev as [Hp|Hp]; [by eapply Hp|by apply (same_before p RD)].
  - left. apply Contains_spec. by exists R0, R2.
  - exfalso. destruct r1 as [|c r1 _] using rev_ind; [done|]. destruct r2 as [|d r2]; [done|].
    eapply (ok_end _ _ _ c d Hc); [by rewrite Hw, app_assoc, last_snoc|done| |]; rewrite Hr; apply elem_of_app; [left|right; by left].
    apply elem_of_app. right. by left.
Qed.
End Pass.

(** The mark of another replacement adds no credential, and a replacement
    leaves none of its own. *)
Lemma replace_cut re tail s : ReplaceOk re tail -> text (pieces (length s) re None s) = s /\ cuts re tail None (pieces (length s) re None s).
Proof.
  intros Hr. apply pieces_cut; [|apply ok_greedy|lia]. intros prev next Hl. by apply (ok_head (tail := tail)) in Hl as (b & m' & ? & _).
Qed.

Definition at_boundary (p : pattern) : Prop := forall prev w next, complete p prev w next -> word_at prev = false.
Definition anywhere (p : pattern) : Prop := forall prev prev' w next, complete p prev w next -> complete p prev' w next.

Lemma keeps_hidden p re tail s : PatternOk p -> ReplaceOk re tail -> anywhere p \/ at_boundary p -> hidden p s -> hidden p (ReplaceAllString re s RD).
Proof.
  intros Hp Hr Hprev Hs u w v E Hc. destruct (replace_cut re tail s Hr) as [Et Hcut].
  destruct (credential_source p re tail _ Hcut Hprev u w v E Hc) as [|(ps1 & ps2 & Eps & Hc')]; [done|].
  eapply Hs, Hc'. by rewrite <- Et, Eps, !text_app, text_plain.
Qed.

Lemma makes_hidden p s : PatternOk p -> ReplaceOk (p_re p) (p_tail p) -> anywhere p \/ at_boundary p -> hidden p (ReplaceAllString (p_re p) s RD).
Proof.
  intros Hp Hr Hprev u w v E Hc. destruct (replace_cut _ _ s Hr) as [Et Hcut].
  destruct (credential_source p _ _ _ Hcut Hprev u w v E Hc) as [|(ps1 & ps2 & Eps & Hc')]; [done|]. exfalso.
  destruct (ok_start _ _ _ Hc') as (b & w' & -> & _). rewrite Eps in Hcut. destruct Hc' as [Hl _]. rewrite <- before_last in Hl.
  refine (cuts_plain _ _ _ ps1 b (map Plain w' ++ ps2) (b :: w') (text ps2) Hcut _ Hl). by rewrite text_app, text_plain.
Qed.

(** ** The nine expressions *)

Lemma bounded_boundary b l re : word_byte b = true -> at_boundary (bounded (Boundary :: lit (b :: l) :: re)).
Proof. intros Hb prev w next [[Hw Hl] _]. apply lang_lit in Hl as [w' ->]. cbn [behind word_at] in Hw. rewrite Hb in Hw. by destruct (word_at prev). Qed.

Lemma bearer_boundary : at_boundary bearer.
Proof. by intros prev w next [(b & w' & _ & _ & _ & Hp)%bearer_start _]. Qed.

Lemma jwt_anywhere : anywhere jwt.
Proof.
  intros prev prev' w next [Hl Ht]. split; [|exact Ht]. cbn in *. destruct Hl as (l & v & Hin & -> & Hl). exists l, v. split_and!; [done..|].
  apply list_elem_of_singleton in Hin as ->. exact Hl.
Qed.

Class Anchored (p : pattern) : Prop := anchored : anywhere p \/ at_boundary p.
#[export] Instance jwt_anchored : Anchored jwt := or_introl jwt_anywhere.
#[export] Instance bearer_anchored : Anchored bearer := or_intror bearer_boundary.
Lemma bounded_anchored b l re : word_byte b = true -> Anchored (bounded (Boundary :: lit (b :: l) :: re)).
Proof. right. by apply bounded_boundary. Qed.

Ltac bounded_pattern := first
  [by apply (bounded_anchored 103 (str "h")) | by apply (bounded_anchored 115 (str "k_")) | by apply (bounded_anchored 65 (str "KIA"))
  |by apply (bounded_anchored 115 (str "k-proj-")) | by apply (bounded_anchored 65 (str "Iza")) | by apply (bounded_anchored 83 (str "G."))
  |by apply (bounded_anchored 120 (str "ox"))
  |by apply (bounded_replace 103 (str "h")) | by apply (bounded_replace 115 (str "k_")) | by apply (bounded_replace 65 (str "KIA"))
  |by apply (bounded_replace 115 (str "k-proj-")) | by apply (bounded_replace 65 (str "Iza")) | by apply (bounded_replace 83 (str "G."))
  |by apply (bounded_replace 120 (str "ox"))].

#[export] Instance gh_anchored : Anchored (bounded ghPatRE). Proof. bounded_pattern. Qed.
#[export] Instance stripe_anchored : Anchored (bounded stripeKeyRE). Proof. bounded_pattern. Qed.
#[export] Instance aws_anchored : Anchored (bounded awsKeyRE). Proof. bounded_pattern. Qed.
#[export] Instance openai_anchored : Anchored (bounded openAIProjKeyRE). Proof. bounded_pattern. Qed.
#[export] Instance google_anchored : Anchored (bounded googleAPIKeyRE). Proof. bounded_pattern. Qed.
#[export] Instance sendgrid_anchored : Anchored (bounded sendGridKeyRE). Proof. bounded_pattern. Qed.
#[export] Instance slack_anchored : Anchored (bounded slackTokenRE). Proof. bounded_pattern. Qed.
#[export] Instance gh_replace : ReplaceOk ghPatRE (fun _ => false). Proof. bounded_pattern. Qed.
#[export] Instance stripe_replace : ReplaceOk stripeKeyRE (fun _ => false). Proof. bounded_pattern. Qed.
#[export] Instance aws_replace : ReplaceOk awsKeyRE (fun _ => false). Proof. bounded_pattern. Qed.
#[export] Instance openai_replace : ReplaceOk openAIProjKeyRE (fun _ => false). Proof. bounded_pattern. Qed.
#[export] Instance google_replace : ReplaceOk googleAPIKeyRE (fun _ => false). Proof. bounded_pattern. Qed.
#[export] Instance sendgrid_replace : ReplaceOk sendGridKeyRE (fun _ => false). Proof. bounded_pattern. Qed.
#[export] Instance slack_replace : ReplaceOk slackTokenRE (fun _ => false). Proof. bounded_pattern. Qed.

(** ** The mark of a bearer token *)

Definition MARK : bytes := str "Bearer " ++ RD.

(** Where the mark can be cut. *)
Lemma mark_cut r1 r2 : MARK = r1 ++ r2 -> r1 <> [] -> r2 <> [] -> exists k, (0 < k < 15)%nat /\ r1 = take k MARK /\ r2 = drop k MARK.
Proof.
  intros E H1 H2. exists (length r1). rewrite E, take_app_length, drop_app_length. split; [|done].
  assert (length MARK = 15%nat) as Hl by reflexivity. rewrite E, length_app in Hl. destruct r1, r2; try done. cbn in *. lia.
Qed.

Ltac each_cut k := destruct k as [|[|[|[|[|[|[|[|[|[|[|[|[|[|[|k]]]]]]]]]]]]]]]; try lia.

Lemma jwt_shape prev w next : lang jwtLikeRE prev w next <->
  exists X Y Z, w = (str "eyJ" ++ X ++ [46] ++ Y ++ [46]) ++ Z /\ X <> [] /\ Y <> [] /\ Z <> [] /\ Forall (fun b => token_byte b = true) (X ++ Y ++ Z).
Proof.
  assert (forall X : bytes, (1 <= length X)%nat <-> X <> []) as Hlen by (intros [|]; cbn; split; intros; try done; lia).
  unfold jwtLikeRE, lit. cbn [lang]. split.
  - intros (l & v & ->%list_elem_of_singleton & -> & X & v1 & -> & HX & H1 & _ & l1 & v2 & ->%list_elem_of_singleton & -> & Y & v3 & -> & HY & H2 & _
      & l2 & v4 & ->%list_elem_of_singleton & -> & Z & v5 & -> & HZ & H3 & _ & ->).
    exists X, Y, Z. rewrite app_nil_r, <- !app_assoc, !Forall_app, <- !Hlen. done.
  - intros (X & Y & Z & -> & H1%Hlen & H2%Hlen & H3%Hlen & HF). rewrite !Forall_app in HF. destruct HF as (HX & HY & HZ).
    exists (str "eyJ"), (X ++ str "." ++ Y ++ str "." ++ Z). split_and!; [by left|by rewrite <- !app_assoc|]. exists X, (str "." ++ Y ++ str "." ++ Z).
    split_and!; [done..|]. exists (str "."), (Y ++ str "." ++ Z). split_and!; [by left|done|]. exists Y, (str "." ++ Z). split_and!; [done..|].
    exists (str "."), Z. split_and!; [by left|done|]. exists Z, []. by rewrite app_nil_r.
Qed.

(** The letters of a bearer token that were replaced. *)
Lemma bearer_letters prev m next : lang bearerRE prev m next -> exists b6 sp us, m = b6 ++ sp ++ concat us /\ map lower_byte b6 = str "bearer" /\ sp <> [] /\
  Forall (fun b => space_byte b = true) sp /\ Forall (fun b => token_byte b = true /\ bearer_byte b = true /\ b <> 68) b6.
Proof.
  intros (_ & b6 & sp & us & -> & Hb & Hne & Hsp & _)%bearer_shape. exists b6, sp, us. split_and!; try done.
  assert (forall b, lower_byte b ∈ str "bearer" -> token_byte b = true /\ bearer_byte b = true /\ b <> 68) as Hl.
  { intros b Hin. assert (b ∈ [66; 98; 69; 101; 65; 97; 82; 114]) as Hb'.
    { unfold lower_byte, is_upper, in_range in Hin. change (str "bearer") with [98; 101; 97; 114; 101; 114] in Hin. rewrite !elem_of_cons in *. destruct ((65 <=? b) && (b <=? 90)) eqn:E;
        repeat (destruct Hin as [Hin|Hin]; [lia|]); by apply not_elem_of_nil in Hin. }
    assert (Forall (fun b => token_byte b = true /\ bearer_byte b = true /\ b <> 68) [66; 98; 69; 101; 65; 97; 82; 114]) as Hf
      by (apply (bool_decide_unpack _); vm_compute; exact I). rewrite Forall_forall in Hf. by apply Hf. }
  apply Forall_forall. intros b Hin. apply Hl. rewrite <- Hb. by apply list_elem_of_fmap_2.
Qed.

(** The mark is not cut off by what replaces its end. *)
Lemma mark_before (R0 e e' : bytes) : Forall (fun b => b <> 68) e -> GoStrings.Contains (R0 ++ e) RD = true -> GoStrings.Contains (R0 ++ e') RD = true.
Proof.
  intros He (a & c & E)%Contains_spec. apply Contains_spec. rewrite app_assoc in E. apply app_split in E as [(e1 & E1 & E2)|(e1 & Hne & E1 & ->)].
  - destruct e1 as [|x e1 _] using rev_ind.
    + rewrite app_nil_r in E1. exists a, e'. by rewrite <- E1, <- app_assoc.
    + exfalso. assert (x = 68) as ->. { apply (f_equal last) in E1. rewrite app_assoc, last_snoc, last_app in E1. by injection E1. }
      rewrite E2, !Forall_app in He. destruct He as [[_ He] _]. by apply Forall_cons in He as [? _].
  - exists a, (e1 ++ e'). by rewrite E1, <- !app_assoc.
Qed.

Lemma marked_jwt s : hidden jwt s -> hidden jwt (ReplaceAllString bearerRE s MARK).
Proof.
  intros Hs u w v E Hc. destruct (replace_cut _ _ s bearer_replace) as [Et Hcut]. cbn [p_re p_tail bearer] in *. set (ps := pieces _ _ _ s) in *.
  change (written MARK ps = u ++ w ++ v) in E. clearbody ps.
  assert (forall u w v, text ps = u ++ w ++ v -> lang jwtLikeRE (last u) w (head v) -> (forall b, head v = Some b -> token_byte b = false) ->
    GoStrings.Contains w RD = true) as Hsrc by (intros u' w' v' E' Hl Ht; apply (Hs u' w' v'); [by rewrite <- E', Et|by split]).
  destruct Hc as [Hl Ht]. cbn [p_re p_tail jwt] in *. pose proof (proj1 (jwt_shape _ _ _) Hl) as (X & Y & Z & Ew & HX & HY & HZ & HF).
  apply place_of in E as [ps1 m ps2 r1 r2 Hps Hr Hr1 Hr2 -> E|ps1 ps2 Hps -> ->|R0 R2 ->|ps1 R0 m ps2 r1 r2 Hps Hr Hr1 Hr2 -> Hw ->].
  - exfalso. destruct (mark_cut _ _ Hr Hr1 Hr2) as (k & Hk & _ & ->). rewrite Ew, <- !app_assoc in E. each_cut k; cbn in E; discriminate E.
  - eapply (Hsrc (text ps1) w (text ps2)); [by rewrite Hps, !text_app, text_plain| |].
    + apply jwt_shape. by exists X, Y, Z.
    + intros b Hb. destruct ps2 as [|[c|m] ps2]; [done|by apply Ht|]. specialize (Ht 66 eq_refl). done.
  - apply Contains_spec. exists (R0 ++ str "Bearer "), R2. unfold MARK. by rewrite <- !app_assoc.
  - destruct (mark_cut _ _ Hr Hr1 Hr2) as (k & Hk & -> & ->).
    assert (k = 6%nat) as -> by (each_cut k; try reflexivity; specialize (Ht _ eq_refl); discriminate Ht). cbn [MARK] in Hw. clear Hk Hr Hr1 Hr2.
    rewrite Hps, app_assoc in Hcut. apply cuts_hit in Hcut as [Hm _].
    apply bearer_letters in Hm as (b6 & sp & us & -> & Hb6 & Hne & Hsp & Hb). change (take 6 MARK) with (str "Bearer") in Hw.
    rewrite Hw. apply (mark_before R0 b6); [eapply Forall_impl; [exact Hb|naive_solver]|].
    assert (exists e, R0 = (str "eyJ" ++ X ++ [46] ++ Y ++ [46]) ++ e /\ Z = e ++ str "Bearer") as (e & ER & EZ).
    { rewrite Ew in Hw. apply app_split in Hw as [(e & -> & EZ)|(e & He & E1 & E2)]; [by exists e|]. exfalso.
      destruct e as [|x e _] using rev_ind; [done|]. apply (f_equal last) in E1. rewrite !app_assoc, !last_snoc in E1. injection E1 as <-.
      assert (46 ∈ str "Bearer") as Hin by (rewrite E2; apply elem_of_app; left; apply elem_of_app; right; by left).
      revert Hin. apply (bool_decide_unpack _). vm_compute. exact I. }
    eapply (Hsrc (text ps1) (R0 ++ b6) (sp ++ concat us ++ text ps2)).
    + rewrite Hps, !text_app, text_plain. unfold text at 2. cbn [map concat source]. by rewrite <- !app_assoc.
    + apply jwt_shape. exists X, Y, (e ++ b6). rewrite ER, <- !app_assoc. split_and!; try done; [by destruct e, b6|].
      rewrite EZ, !Forall_app in HF. rewrite !Forall_app. destruct HF as (HFX & HFY & HFe & _). split_and!; try done.
      eapply Forall_impl; [exact Hb|naive_solver].
    + intros b Hb'. destruct sp as [|x sp]; [done|]. injection Hb' as ->. apply Forall_cons in Hsp as [Hx _].
      unfold space_byte, one_of in Hx. cbn in Hx. rewrite !orb_true_iff, !Z.eqb_eq in Hx. destruct_or?; subst; done.
Qed.

(** The first element of a run that ends in other letters. *)
Lemma first_unit us (t e : bytes) b6 : Forall (unit_of bearer_byte folded_letters) us -> us <> [] -> concat us = t ++ e ->
  Forall (fun b => b < 128) e -> b6 <> [] -> Forall (fun b => bearer_byte b = true) b6 ->
  exists x v, unit_of bearer_byte folded_letters x /\ t ++ b6 = x ++ v.
Proof.
  intros Hus Hne E He Hn Hb6. destruct t as [|c t].
  - destruct b6 as [|b b6]; [done|]. exists [b], b6. apply Forall_cons in Hb6 as [Hb _]. split; [|done]. split; [done|]. left. by exists b.
  - destruct us as [|x us]; [done|]. apply Forall_cons in Hus as [Hx _]. exists x. cbn [concat] in E.
    apply app_split in E as [(d & -> & _)|(d & Hd & Ex & ->)]; [exists (d ++ b6); by rewrite <- app_assoc|]. exfalso.
    destruct d as [|y d]; [done|]. cbn [app] in He. apply Forall_cons in He as [Hy _]. destruct Hx as [_ [(b & -> & _)|Hin]]; [by destruct t|].
    assert (Forall (fun x => Forall (fun b => 128 <= b) x) folded_letters) as Hf by (apply (bool_decide_unpack _); vm_compute; exact I).
    rewrite Forall_forall in Hf. apply Hf in Hin. rewrite Ex, Forall_app, !Forall_cons in Hin. lia.
Qed.

Lemma bearer_marked s : hidden bearer (ReplaceAllString bearerRE s MARK).
Proof.
  intros u w v E Hc. destruct (replace_cut _ _ s bearer_replace) as [_ Hcut]. cbn [p_re p_tail bearer] in *. set (ps := pieces _ _ _ s) in *.
  change (written MARK ps = u ++ w ++ v) in E. clearbody ps. pose proof Hc as [Hl Ht]. cbn [p_re p_tail bearer] in *.
  destruct (bearer_start _ _ _ Hl) as (b & w' & Ew & Hb & _).
  apply place_of in E as [ps1 m ps2 r1 r2 Hps Hr Hr1 Hr2 -> E|ps1 ps2 Hps -> ->|R0 R2 ->|ps1 R0 m ps2 r1 r2 Hps Hr Hr1 Hr2 -> Hw ->].
  - exfalso. destruct (mark_cut _ _ Hr Hr1 Hr2) as (k & Hk & _ & ->). rewrite Ew in E. each_cut k; injection E as -> _; discriminate Hb.
  - exfalso. apply (same_before bearer MARK) in Hc as [Hl' _]; [|apply bearer_boundary|done]. cbn [p_re bearer] in Hl'. rewrite <- before_last in Hl'. subst w.
    rewrite Hps in Hcut. refine (cuts_plain _ _ _ ps1 b (map Plain w' ++ ps2) (b :: w') (text ps2) Hcut _ _); [by rewrite text_app, text_plain|].
    destruct ps2 as [|[c|m] ps2]; [exact Hl'..|]. by specialize (Ht 66 eq_refl).
  - apply Contains_spec. exists (R0 ++ str "Bearer "), R2. unfold MARK. by rewrite <- !app_assoc.
  - exfalso. destruct (mark_cut _ _ Hr Hr1 Hr2) as (k & Hk & -> & ->).
    assert (k = 6%nat) as -> by (each_cut k; try reflexivity; specialize (Ht _ eq_refl); discriminate Ht). clear Hk Hr Hr1 Hr2.
    change (take 6 MARK) with (str "Bearer") in Hw. subst w. pose proof Hcut as Hm. rewrite Hps, app_assoc in Hm. apply cuts_hit in Hm as [Hm _].
    apply bearer_letters in Hm as (b6 & sp6 & us6 & -> & Hb6 & _ & _ & Hb6').
    pose proof (proj1 (bearer_shape _ _ _) Hl) as (Hbound & l & sp & us & EB & Hlow & Hsp & Hspf & Hus & Husf).
    assert (exists t, R0 = l ++ sp ++ t /\ concat us = t ++ str "Bearer") as (t & ER & Et).
    { rewrite app_assoc in EB. apply app_split in EB as [(e & E1 & E2)|(e & He & E1 & E2)]; [|exists e; by rewrite E1, <- app_assoc].
      destruct e as [|y e _] using rev_ind; [exists []; rewrite app_nil_r in *; by rewrite E1|]. exfalso.
      destruct sp as [|x sp _] using rev_ind; [done|]. apply Forall_app in Hspf as [_ Hx]. apply Forall_cons in Hx as [Hx _].
      apply (f_equal last) in E1. rewrite !app_assoc, !last_snoc in E1. injection E1 as ->.
      assert (Forall (fun b => space_byte b = false) (str "Bearer")) as Hf by (apply (bool_decide_unpack _); vm_compute; exact I).
      rewrite E2, !Forall_app, Forall_cons in Hf. destruct Hf as [[_ [Hf _]] _]. congruence. }
    assert (exists x v, unit_of bearer_byte folded_letters x /\ t ++ b6 = x ++ v) as (x & v & Hx & Ev).
    { eapply (first_unit us t (str "Bearer") b6); try done; [apply (bool_decide_unpack _); vm_compute; exact I|by destruct b6|].
      eapply Forall_impl; [exact Hb6'|naive_solver]. }
    destruct l as [|c l]; [done|].
    assert (lang bearerRE (last (text ps1)) ((c :: l) ++ sp ++ x) (head (v ++ sp6 ++ concat us6 ++ text ps2))) as Hlang.
    { apply bearer_shape. split.
      - apply (same_before bearer MARK) in Hc as [Hl2 _]; [|apply bearer_boundary|done]. apply bearer_shape in Hl2 as [Hl2 _].
        rewrite ER in Hl2. exact Hl2.
      - exists (c :: l), sp, [x]. cbn [concat]. rewrite app_nil_r. split_and!; try done. apply Forall_cons. split; [exact Hx|by apply Forall_nil]. }
    rewrite <- before_last in Hlang. rewrite Hps, ER in Hcut.
    refine (cuts_plain _ _ _ ps1 c (map Plain (l ++ sp ++ t) ++ Hit (b6 ++ sp6 ++ concat us6) :: ps2) _ _ Hcut _ Hlang).
    rewrite text_app, text_plain. unfold text at 1. cbn [map concat source app]. f_equal. rewrite <- !app_assoc. do 2 f_equal.
    by rewrite app_assoc, Ev, <- app_assoc.
Qed.

(** * The redaction *)

(** A kind that is hidden and stays so. *)
Definition settled (s : bytes) (p : pattern) : Prop := PatternOk p /\ Anchored p /\ hidden p s.

Lemma settle ps re s : PatternOk (bounded re) -> Anchored (bounded re) -> ReplaceOk re (fun _ => false) ->
  Forall (settled s) ps -> Forall (settled (ReplaceAllString re s RD)) (ps ++ [bounded re]).
Proof.
  intros Hp Ha Hr Hs. apply Forall_app. split.
  - eapply Forall_impl; [exact Hs|]. intros p (Hp' & Ha' & Hh). split_and!; [done..|]. by eapply keeps_hidden.
  - apply Forall_cons. split; [|by apply Forall_nil]. split_and!; [done..|]. by apply (makes_hidden (bounded re)).
Qed.

Lemma redact_hidden s : Forall (fun p => hidden p (redactCredentialPatterns s)) patterns.
Proof.
  assert (Forall (settled (redactCredentialPatterns s)) patterns) as Hs; [|eapply Forall_impl; [exact Hs|by intros p (_ & _ & Hh)]].
  unfold redactCredentialPatterns. cbv zeta. change patterns with (([jwt; bearer] ++ [bounded ghPatRE] ++ [bounded stripeKeyRE] ++ [bounded awsKeyRE] ++
    [bounded openAIProjKeyRE] ++ [bounded googleAPIKeyRE] ++ [bounded sendGridKeyRE] ++ [bounded slackTokenRE])). rewrite !app_assoc.
  repeat (apply settle; [apply _..|]). apply Forall_cons. split; [|apply Forall_cons; split; [|apply Forall_nil; done]].
  - split_and!; [apply _..|]. apply marked_jwt. apply (makes_hidden jwt); [apply _..|apply jwt_anchored].
  - split_and!; [apply _..|]. apply bearer_marked.
Qed.

Lemma complete_nonempty p prev next : PatternOk p -> ~ complete p prev [] next.
Proof. intros Hp Hc. by destruct (ok_start _ _ _ Hc) as (b & w' & ? & _). Qed.

(** What has no credential is left as it is. *)
Definition no_credential (s : bytes) : Prop :=
  forall p u w v, p ∈ patterns -> s = u ++ w ++ v -> ~ lang (p_re p) (last u) w (head v).

Lemma replace_none p repl s : ReplaceOk (p_re p) (p_tail p) -> p ∈ patterns -> no_credential s -> ReplaceAllString (p_re p) s repl = s.
Proof.
  intros Hr Hin Hs. destruct (replace_cut _ _ s Hr) as [Et Hcut]. unfold ReplaceAllString.
  rewrite (cuts_none _ _ None _ Hcut), Et; [apply written_plain|]. intros u w v E. rewrite before_last. by apply (Hs p); [|rewrite <- E, Et].
Qed.

Lemma redact_id s : no_credential s -> redactCredentialPatterns s = s.
Proof.
  intros Hs. unfold redactCredentialPatterns. cbv zeta.
  rewrite (replace_none jwt), (replace_none bearer), (replace_none (bounded ghPatRE)), (replace_none (bounded stripeKeyRE)), (replace_none (bounded awsKeyRE)),
    (replace_none (bounded openAIProjKeyRE)), (replace_none (bounded googleAPIKeyRE)), (replace_none (bounded sendGridKeyRE)),
    (replace_none (bounded slackTokenRE)); try done; try apply _; unfold patterns; rewrite !elem_of_cons; tauto.
Qed.

Lemma sanitized_hidden `{UnicodeCase} parseHost raw : Forall (fun p => hidden p (SanitizeRequestURI parseHost raw)) patterns.
Proof.
  unfold SanitizeRequestURI. case_decide as E; [|apply redact_hidden]. rewrite E.
  assert (Forall PatternOk patterns) as Hp by (repeat (apply Forall_cons; split; [apply _|]); by apply Forall_nil).
  eapply Forall_impl; [exact Hp|]. intros p Hok u w v Euwv Hc. symmetry in Euwv. apply app_nil in Euwv as [_ Euwv]. apply app_nil in Euwv as [-> _].
  by apply complete_nonempty in Hc.
Qed.

(** C27: Whatever the request line holds, and whatever the release of Go accepts as
    a host: each part of the sanitized URI that reads as a JWT, a bearer token,
    a GitHub, Stripe, AWS, OpenAI, Google, SendGrid or Slack key, taken as a
    whole, contains the mark; and a text without anything that reads as one is
    not changed by the redaction. *)
Theorem no_credential_left `{UnicodeCase} parseHost raw :
  Forall (fun p => hidden p (SanitizeRequestURI parseHost raw)) patterns /\
  (no_credential raw -> redactCredentialPatterns raw = raw).
Proof. split; [apply sanitized_hidden|apply redact_id]. Qed.

Module Witness.
Lemma no_credential_left_witness :
  Forall (fun p => hidden p (SanitizeRequestURI (H := ascii_case) parseHost_1_26_2 (str "/x?a=AKIA0123456789ABCDEF&b=1"))) patterns /\
  SanitizeRequestURI (H := ascii_case) parseHost_1_26_2 (str "/x?a=AKIA0123456789ABCDEF&b=1") = str "/x?a=REDACTED&b=1".
Proof. split; [apply (no_credential_left (H := ascii_case))|vm_compute; reflexivity]. Defined.
End Witness.
