(* ===== verification/RedactQuery.v ===== *)
(** The values of sensitive parameters do not reach the result of the redaction
    (RedactURI). *)
From S2P Require Import Prelude GoStrings GoNet GoPath GoRegexp GoURL RedactURI.
From stdpp Require Import gmap.

Open Scope Z_scope.

(** * Cutting texts *)

Lemma Cut_at X c Y : c ∉ X -> Cut (X ++ c :: Y) c = (X, Y, true).
Proof.
  intros Hc. unfold Cut, IndexByte. assert (Index (X ++ c :: Y) [c] = Some (length X)) as ->.
  { induction X as [|x X IH]; cbn; [by rewrite Z.eqb_refl; destruct Y|]. apply not_elem_of_cons in Hc as [Hx Hc].
    rewrite (proj2 (Z.eqb_neq c x)) by done. cbn. by rewrite IH. }
  rewrite take_app_length, <- (Nat.add_1_r (length X)), <- drop_drop, drop_app_length. done.
Qed.

Lemma Cut_none X c : c ∉ X -> Cut X c = (X, [], false).
Proof.
  intros Hc. unfold Cut, IndexByte. destruct (Index X [c]) as [i|] eqn:E; [|done]. exfalso. apply Hc, Contains_byte. unfold GoStrings.Contains. by rewrite E.
Qed.

(** A byte that is not in what is looked for divides the search. *)
Lemma Contains_sep X c Y p : c ∉ p -> GoStrings.Contains (X ++ c :: Y) p = GoStrings.Contains X p || GoStrings.Contains Y p.
Proof.
  intros Hc. apply eq_true_iff_eq. rewrite orb_true_iff, !Contains_spec. split.
  - intros (u & v & E). apply app_split in E as [(e & -> & E)|(e & He & -> & E)].
    + destruct e as [|x e]; [|injection E as <- E; right; by exists e, v].
      destruct p as [|y p]; [left; exists X, []; by rewrite app_nil_r|]. injection E as -> _. destruct Hc. by left.
    + apply app_split in E as [(d & -> & _)|(d & Hd & -> & E)]; [left; by exists u, d|]. exfalso.
      destruct d as [|y d]; [done|]. injection E as -> _. apply Hc, elem_of_app. right. by left.
  - intros [(u & v & ->)|(u & v & ->)]; [exists u, (v ++ c :: Y)|exists (X ++ c :: u), v]; by rewrite <- !app_assoc.
Qed.

(** * Queries *)

Definition same_query `{UnicodeCase} (m1 m2 : Values) : Prop := redactValues m1 = redactValues m2.

Lemma redactValues_lookup `{UnicodeCase} (m : Values) k : redactValues m !! k = map (redactValue k) <$> m !! k.
Proof. unfold redactValues. rewrite map_lookup_imap. by destruct (m !! k). Qed.

Lemma redactValues_add `{UnicodeCase} (m : Values) k v : redactValues (Values_Add m k v) = Values_Add (redactValues m) k (redactValue k v).
Proof.
  apply map_eq. intros i. unfold Values_Add. rewrite !redactValues_lookup. destruct (decide (k = i)) as [->|Hne].
  - rewrite !lookup_insert_eq. cbn. f_equal. rewrite map_app. f_equal. by destruct (m !! i).
  - by rewrite !lookup_insert_ne, redactValues_lookup.
Qed.

(** Reading on keeps two queries the same. *)
Lemma pairs_same `{UnicodeCase} segs m1 m2 ok : same_query m1 m2 -> same_query (foldl addPair (m1, ok) segs).1 (foldl addPair (m2, ok) segs).1.
Proof.
  revert m1 m2 ok. induction segs as [|seg segs IH]; intros m1 m2 ok E; [exact E|]. cbn [foldl addPair].
  destruct (parsePair seg) as [[[k v]|]|]; apply IH; [|exact E..]. unfold same_query in *. by rewrite !redactValues_add, E.
Qed.

(** A name and a value. *)
Lemma parsePair_value key v k x : 61 ∉ key -> 59 ∉ key -> 59 ∉ v -> QueryUnescape key = Some k -> QueryUnescape v = Some x ->
  parsePair (key ++ 61 :: v) = Ok (Some (k, x)).
Proof.
  intros H1 H2 H3 Hk Hx. unfold parsePair. assert (GoStrings.Contains (key ++ 61 :: v) (str ";") = false) as ->.
  { apply not_true_iff_false. intros Hc%(Contains_byte _ 59). apply elem_of_app in Hc as [|Hc]; [done|]. by apply elem_of_cons in Hc as [|]. }
  rewrite decide_False by (by destruct key). by rewrite Cut_at, Hk, Hx.
Qed.

(** * The query of a URL is read on its own *)

Definition with_query (Q : bytes) (u : URL) : URL := mkURL (Scheme u) (Opaque u) (Host u) (Path u) Q (Fragment u).

Lemma scheme_end_query i X Q : scheme_end i (X ++ 63 :: Q) = scheme_end i X.
Proof.
  revert i. induction X as [|c X IH]; intros i; [done|]. cbn [app scheme_end]. by rewrite !IH.
Qed.

Lemma scheme_end_length n X i : scheme_end n X = Some (Some i) -> (i < n + length X)%nat.
Proof.
  revert n. induction X as [|c X IH]; intros n E; cbn in *; [done|]. repeat case_match; simplify_eq; try (apply IH in E); lia.
Qed.

Lemma getScheme_query X Q : getScheme (X ++ 63 :: Q) = (fun p => (p.1, p.2 ++ 63 :: Q)) <$> getScheme X.
Proof.
  unfold getScheme. rewrite scheme_end_query. destruct (scheme_end 0 X) as [[i|]|] eqn:E; [|done..].
  apply scheme_end_length in E. cbn. rewrite take_app_le, drop_app_le by lia. done.
Qed.

Lemma getScheme_sub X s r : getScheme X = Some (s, r) -> forall b, b ∈ r -> b ∈ X.
Proof.
  unfold getScheme. intros E b Hb. destruct (scheme_end 0 X) as [[i|]|]; [|by injection E as <- <-|done]. injection E as <- <-.
  rewrite <- (take_drop (S i) X). apply elem_of_app. by right.
Qed.

Section Secret.
Context `{UnicodeCase} (parseHost : bytes -> bytes -> option bytes).

Lemma parse_query X Q : 63 ∉ X -> X <> str "*" -> stringContainsCTLByte Q = false ->
  parse parseHost (X ++ 63 :: Q) = with_query Q <$> parse parseHost X.
Proof.
  intros HX Hs HQ. unfold parse.
  assert (stringContainsCTLByte (X ++ 63 :: Q) = stringContainsCTLByte X) as ->.
  { unfold stringContainsCTLByte in *. rewrite existsb_app. cbn. by rewrite HQ, orb_false_r. }
  destruct (stringContainsCTLByte X); [done|]. rewrite (decide_False (P := X = _)) by done.
  rewrite decide_False by (intros E; apply (f_equal length) in E as E'; destruct X as [|c [|]]; try done; rewrite length_app in E'; cbn in E'; lia).
  rewrite getScheme_query. destruct (getScheme X) as [[scheme rest]|] eqn:Eg; [|done]. cbn [fmap option_fmap option_map mbind option_bind fst snd].
  assert (63 ∉ rest) as Hr by (intros Hin; apply HX, (getScheme_sub _ _ _ Eg), Hin).
  rewrite (Cut_at rest 63), (Cut_none rest 63) by done. cbn zeta.
  repeat match goal with
  | |- (if ?b then _ else _) = with_query Q <$> (if ?b then _ else _) => destruct b; [done|]
  end.
  match goal with |- mbind _ ?o = _ => destruct o as [[host path]|]; [|done] end. cbn [mbind option_bind]. by destruct (unescape encodePath path).
Qed.

(** A text that is empty or begins with the byte. *)
Definition begins (c : Z) (s : bytes) : Prop := s = [] \/ exists t, s = c :: t.

Lemma Cut_begins X tf c : c ∉ X -> begins c tf -> (Cut (X ++ tf) c).1 = (X, drop 1 tf).
Proof. intros HX [->|[t ->]]; [rewrite app_nil_r, Cut_none by done; done|by rewrite Cut_at]. Qed.

Lemma Parse_query X Q tf : 63 ∉ X -> X <> str "*" -> 35 ∉ X -> 35 ∉ Q -> begins 35 tf -> stringContainsCTLByte Q = false ->
  Parse parseHost (X ++ (63 :: Q) ++ tf) = with_query Q <$> Parse parseHost (X ++ tf).
Proof.
  intros H1 H2 H3 H4 Htf HQ. unfold Parse. rewrite app_assoc.
  assert (35 ∉ X ++ 63 :: Q) as H5 by (rewrite elem_of_app, elem_of_cons; naive_solver).
  pose proof (Cut_begins _ _ 35 H5 Htf) as E1. pose proof (Cut_begins _ _ 35 H3 Htf) as E2.
  destruct (Cut ((X ++ 63 :: Q) ++ tf) 35) as [[? ?] ?], (Cut (X ++ tf) 35) as [[? ?] ?]. cbn [fst] in *. simplify_eq.
  rewrite parse_query by done. destruct (parse parseHost X) as [u|]; [|done]. cbn [fmap option_fmap option_map mbind option_bind].
  case_decide; [done|]. by destruct (unescape encodeFragment _).
Qed.

Lemma Parse_printable s : Parse parseHost s <> None -> stringContainsCTLByte (Cut s 35).1.1 = false.
Proof.
  unfold Parse. destruct (Cut s 35) as [[u frag] found]. cbn [fst]. unfold parse. by destruct (stringContainsCTLByte u).
Qed.

(** What is written depends on the query up to redaction. *)
Lemma write_same u Q1 Q2 : same_query (ParseQuery Q1).1 (ParseQuery Q2).1 -> writeURI (with_query Q1 u) = writeURI (with_query Q2 u).
Proof. unfold writeURI, same_query, Query. cbn [Path RawQuery with_query Scheme Host Fragment]. by intros ->. Qed.

(** * A request with a secret *)

(** The request of a value [v]: a path, parameters before, the sensitive name
    [key], the value, parameters behind, a fragment. *)
Context (base qpre key tq tf k : bytes).
Context (Hbase : HasPrefix base (str "/") = true /\ 63 ∉ base /\ 35 ∉ base).
Context (Hqpre : (qpre = [] \/ exists q, qpre = q ++ [38]) /\ 35 ∉ qpre).
Context (Hkey : 38 ∉ key /\ 61 ∉ key /\ 59 ∉ key /\ 35 ∉ key /\ QueryUnescape key = Some k /\ isSensitiveQueryKey k = true).
Context (Htq : begins 38 tq /\ 35 ∉ tq).
Context (Htf : begins 35 tf).

Definition query_of (v : bytes) : bytes := qpre ++ (key ++ 61 :: v) ++ tq.
Definition request (v : bytes) : bytes := base ++ (63 :: query_of v) ++ tf.

(** The value ends where the next parameter or the fragment begins. *)
Definition value (v : bytes) : Prop := 38 ∉ v /\ 35 ∉ v.

(** Whether [url.ParseQuery] reads the value: no semicolon, no bad escape. *)
Definition readable (v : bytes) : bool := negb (GoStrings.Contains v (str ";")) && match QueryUnescape v with Some _ => true | None => false end.

(** Whether the request is parsed as an absolute URI. *)
Definition absolute (v : bytes) : bool := GoStrings.Contains (request v) (str "://").

(** A parameter whose value cannot be read is left out. *)
Lemma parsePair_unreadable v : readable v = false -> parsePair (key ++ 61 :: v) = Err tt.
Proof.
  destruct Hkey as (_ & Hk & _). unfold readable, parsePair. rewrite (Contains_sep key 61 v) by (apply (bool_decide_unpack _); vm_compute; exact I).
  destruct (GoStrings.Contains v (str ";")); [by rewrite orb_true_r|]. cbn [negb andb]. rewrite orb_false_r. intros Hv.
  destruct (GoStrings.Contains key _); [done|]. rewrite decide_False by (by destruct key). rewrite Cut_at by done.
  destruct (QueryUnescape v); [done|]. by destruct (QueryUnescape key).
Qed.

Lemma parsePair_readable v : readable v = true -> exists x, parsePair (key ++ 61 :: v) = Ok (Some (k, x)).
Proof.
  destruct Hkey as (_ & H1 & H2 & _ & Hk & _). unfold readable. rewrite andb_true_iff, negb_true_iff. intros [Hs Hv].
  destruct (QueryUnescape v) as [x|] eqn:E; [|done]. exists x. apply parsePair_value; try done.
  intros Hin. apply not_true_iff_false in Hs. apply Hs, (Contains_byte v 59), Hin.
Qed.

Lemma query_segments v : value v -> exists L R, (forall v', value v' -> Split (query_of v') 38 = L ++ [key ++ 61 :: v'] ++ R).
Proof.
  intros _. assert (forall v', value v' -> Split ((key ++ 61 :: v') ++ tq) 38 = [key ++ 61 :: v'] ++ match tq with [] => [] | _ :: t => Split t 38 end) as H1.
  { intros v' (Hv & _). assert (38 ∉ key ++ 61 :: v') as Hn by (rewrite elem_of_app, elem_of_cons; naive_solver).
    destruct Htq as [[->|[t ->]] _]; [rewrite app_nil_r; unfold Split; by rewrite split_aux_plain|].
    rewrite Split_app. f_equal. unfold Split. by rewrite split_aux_plain. }
  destruct Hqpre as [[E|[q E]] _].
  - exists [], (match tq with [] => [] | _ :: t => Split t 38 end). intros v' Hv. unfold query_of. rewrite E. by apply H1.
  - exists (Split q 38), (match tq with [] => [] | _ :: t => Split t 38 end). intros v' Hv. unfold query_of.
    rewrite E, <- app_assoc. cbn [app]. by rewrite Split_app, H1.
Qed.

Lemma query_same v1 v2 : value v1 -> value v2 -> readable v1 = readable v2 ->
  same_query (ParseQuery (query_of v1)).1 (ParseQuery (query_of v2)).1.
Proof.
  intros H1 H2 Hr. destruct (query_segments v1 H1) as (L & R & Hs). unfold ParseQuery. rewrite (Hs v1), (Hs v2) by done.
  assert (len (L ++ [key ++ 61 :: v1] ++ R) = len (L ++ [key ++ 61 :: v2] ++ R)) as -> by (rewrite !len_app; done).
  destruct (defaultMaxParams <? _); [done|]. unfold parsePairs. rewrite !foldl_app. destruct (foldl addPair (∅, true) L) as [m ok].
  cbn [foldl addPair]. destruct Hkey as (_ & _ & _ & _ & _ & Hsens). destruct (readable v1) eqn:E1; symmetry in Hr.
  - destruct (parsePair_readable _ E1) as [x1 ->], (parsePair_readable _ Hr) as [x2 ->]. apply pairs_same. unfold same_query.
    rewrite !redactValues_add. unfold redactValue. by rewrite Hsens.
  - by rewrite (parsePair_unreadable _ E1), (parsePair_unreadable _ Hr).
Qed.

Lemma query_plain v : value v -> 35 ∉ query_of v.
Proof.
  intros [_ Hv]. destruct Hqpre as [_ H1], Hkey as (_ & _ & _ & H2 & _), Htq as [_ H3]. unfold query_of.
  rewrite !elem_of_app, elem_of_cons. naive_solver.
Qed.

Lemma request_app pre v : pre ++ request v = (pre ++ base) ++ (63 :: query_of v) ++ tf.
Proof. unfold request. by rewrite <- app_assoc. Qed.

(** Under a prefix that is no part of a query the URL is the same but for its
    query. *)
Lemma parse_same pre v1 v2 : value v1 -> value v2 -> 63 ∉ pre -> 35 ∉ pre ->
  Parse parseHost (pre ++ request v1) <> None -> Parse parseHost (pre ++ request v2) <> None ->
  exists u, Parse parseHost (pre ++ request v1) = Some (with_query (query_of v1) u) /\ Parse parseHost (pre ++ request v2) = Some (with_query (query_of v2) u).
Proof.
  intros H1 H2 Hp1 Hp2 Hn1 Hn2. destruct Hbase as (Hb1 & Hb2 & Hb3). rewrite !request_app in *.
  assert (35 ∉ pre ++ base) as Hx1 by (rewrite elem_of_app; naive_solver). assert (63 ∉ pre ++ base) as Hx2 by (rewrite elem_of_app; naive_solver).
  assert (pre ++ base <> str "*") as Hx3.
  { intros E. apply HasPrefix_spec in Hb1 as [b ->]. destruct pre as [|c [|]]; [done|injection E as _ E; done|done]. }
  assert (forall v, value v -> Parse parseHost ((pre ++ base) ++ (63 :: query_of v) ++ tf) <> None -> stringContainsCTLByte (query_of v) = false) as Hc.
  { intros v Hv Hn. apply Parse_printable in Hn. rewrite app_assoc in Hn.
    assert (35 ∉ (pre ++ base) ++ 63 :: query_of v) as Hx by (pose proof (query_plain v Hv); rewrite elem_of_app, elem_of_cons; naive_solver).
    rewrite (Cut_begins _ _ 35 Hx Htf) in Hn. cbn [fst] in Hn. unfold stringContainsCTLByte in *. rewrite existsb_app in Hn. cbn [existsb] in Hn.
    by apply orb_false_iff in Hn as [_ Hn]. }
  pose proof (Hc v1 H1 Hn1) as Hc1. pose proof (Hc v2 H2 Hn2) as Hc2.
  rewrite Parse_query in Hn1 by (try done; by apply query_plain). rewrite !Parse_query by (try done; by apply query_plain).
  destruct (Parse parseHost ((pre ++ base) ++ tf)) as [u|]; [|done]. by exists u.
Qed.

Lemma parseURI_same v1 v2 : value v1 -> value v2 -> absolute v1 = absolute v2 ->
  parseURI parseHost (request v1) <> None -> parseURI parseHost (request v2) <> None ->
  exists u, parseURI parseHost (request v1) = Some (with_query (query_of v1) u) /\ parseURI parseHost (request v2) = Some (with_query (query_of v2) u).
Proof.
  intros H1 H2 Ha. assert (forall v, HasPrefix (request v) (str "/") = true) as Hp.
  { intros v. destruct Hbase as [Hb _]. apply HasPrefix_spec in Hb as [b Eb]. apply HasPrefix_spec. unfold request. rewrite Eb, <- app_assoc. by eexists. }
  unfold parseURI. fold (absolute v1) (absolute v2). rewrite !Hp, <- Ha. destruct (absolute v1).
  - apply (parse_same []); try done; apply not_elem_of_nil.
  - apply (parse_same (str "http://" ++ dummyHost)); try done; apply (bool_decide_unpack _); vm_compute; exact I.
Qed.

(** C28: A request begins with a slash, does not end in white space, and has a
    parameter with a sensitive name and any value (of any bytes but & and #,
    which end it).  Where the URLs parse, the sanitized URI of the request tells
    two things about the value and nothing else: whether it can be read (a bad
    escape or a semicolon makes [url.ParseQuery] leave the parameter out; the
    others are replaced by the mark), and whether the request has the text ://,
    which makes the code parse it as an absolute URI.  Two values that agree in
    both have the same sanitized URI: not even the length of a value is
    written. *)
Theorem secret_value_not_written v1 v2 : value v1 -> value v2 -> readable v1 = readable v2 -> absolute v1 = absolute v2 ->
  TrimSpace (request v1) = request v1 -> TrimSpace (request v2) = request v2 ->
  parseURI parseHost (request v1) <> None -> parseURI parseHost (request v2) <> None ->
  SanitizeRequestURI parseHost (request v1) = SanitizeRequestURI parseHost (request v2).
Proof.
  intros H1 H2 Hr Ha Ht1 Ht2 Hn1 Hn2. unfold SanitizeRequestURI. rewrite Ht1, Ht2.
  assert (forall v, request v <> []) as Hne by (intros v; destruct Hbase as [Hb _]; apply HasPrefix_spec in Hb as [b Eb]; unfold request; by rewrite Eb).
  rewrite !decide_False by apply Hne. destruct (parseURI_same v1 v2 H1 H2 Ha Hn1 Hn2) as (u & -> & ->). f_equal. by apply write_same, query_same.
Qed.
End Secret.

(** The redaction of parameters needs the URL: where the path or the fragment
    does not parse, only the patterns are looked for. *)
Example bad_escape_shows_secret :
  SanitizeRequestURI (H := ascii_case) parseHost_1_26_2 (str "/100%/x?token=secret") = str "/100%/x?token=secret".
Proof. vm_compute. reflexivity. Qed.

Ltac plain := apply (bool_decide_unpack _); vm_compute; exact I.

(** What is told apart: a value that cannot be read, and a path that is taken
    for an authority because the value has a scheme. *)
Example unreadable_is_dropped :
  SanitizeRequestURI (H := ascii_case) parseHost_1_26_2 (str "/x?token=%zz") = str "/x" /\
  SanitizeRequestURI (H := ascii_case) parseHost_1_26_2 (str "/x?token=user:pass") = str "/x?token=REDACTED" /\
  SanitizeRequestURI (H := ascii_case) parseHost_1_26_2 (str "//h/x?token=a") = str "//h/x?token=REDACTED" /\
  SanitizeRequestURI (H := ascii_case) parseHost_1_26_2 (str "//h/x?token=a://b") = str "/x?token=REDACTED".
Proof. by vm_compute. Qed.

Module Witness.
Lemma secret_value_not_written_witness :
  let H := ascii_case in
  let request := request (str "/cb") (str "next=1&") (str "Access_Token") (str "&b=2") (str "#top") in
  SanitizeRequestURI parseHost_1_26_2 (request (str "s3cr%65t:/+x")) = SanitizeRequestURI parseHost_1_26_2 (request (str "other")) /\
  SanitizeRequestURI parseHost_1_26_2 (request (str "other")) = str "/cb?Access_Token=REDACTED&b=2&next=1#top".
Proof.
  split; [|vm_compute; reflexivity].
  apply (secret_value_not_written (H := ascii_case)) with (k := str "Access_Token").
  - split_and!; [vm_compute; reflexivity|plain..].
  - split; [right; by exists (str "next=1")|plain].
  - split_and!; [plain..|vm_compute; reflexivity|vm_compute; reflexivity].
  - split; [right; by eexists|plain].
  - right. by eexists.
  - split; plain.
  - split; plain.
  - vm_compute. reflexivity.
  - vm_compute. reflexivity.
  - vm_compute. reflexivity.
  - vm_compute. reflexivity.
  - vm_compute. discriminate.
  - vm_compute. discriminate.
Defined.
End Witness.
