(* ===== verification/RedactedLog.v ===== *)
(** The event log of the ring readers with the redaction (RedactURI) that the
    HTTP handler uses: its order, its texts, and no credential in it. *)
From S2P Require Import Prelude GoStrings GoNet Policy BpfMap DnsCache TlsTrack Decode Telemetry Config RunStats Events Rings RingAccounts.
From S2P Require Import GoURL RedactURI RedactSafe.

Open Scope Z_scope.

Section Log.
Context {M : Type} `{UnicodeCase} `{!BpfMapOps bytes bytes M} `{!RangeOrder bytes} `{!RangeOrder tlsReassemblyKey} `{!RangeOrder ktlsKey}.
Context (cfg : Config) (pol : option Policy) (parseHost : bytes -> bytes -> option bytes).

(** The texts that a line takes from its record, with the bounds of their
    fields, the path of a request apart. *)
Definition texts (e : event) : list (Z * bytes) :=
  match e with
  | EvExec e => [(16, ex_Comm e); (4096, ex_Exe e)]
  | EvFork e => [(16, pf_ParentComm e); (16, pf_ChildComm e)]
  | EvFS e => [(16, fe_Comm e); (4096, fe_Path e)]
  | EvTCP e => [(16, tc_Comm e); (253, tc_FQDN e)]
  | EvTCPResult e => [(16, tr_Comm e)]
  | EvTCPState e => [(16, tp_Comm e)]
  | EvUDP e => [(16, ud_Comm e); (253, ud_FQDN e)]
  | EvQUIC e => [(16, qc_Comm e)]
  | EvHTTP e => [(16, ht_Comm e); (16, ht_Method e); (253, ht_Host e)]
  | EvTLS e => [(16, tl_Comm e); (253, tl_SNI e)]
  | EvKTLS e => [(16, kl_Comm e)]
  | EvIPv6 e => [(16, v6_Comm e)]
  | EvIOSend e => [(16, us_Comm e)]
  | EvIOTLS e => [(16, ut_Comm e); (253, ut_SNI e)]
  | EvEgress e => [(16, eg_Comm e)]
  | EvAudit e => [(16, au_Comm e)]
  | EvSelfDef e => [(16, sf_Comm e)]
  end.

Definition path_of (e : event) : option bytes := match e with EvHTTP e => Some (ht_Path e) | _ => None end.

Lemma clean_texts `{Redact} e : clean_event e -> Forall (fun t => clean t.1 t.2) (texts e) /\
  forall path, path_of e = Some path -> exists raw, clean 4096 raw /\ path = redacted raw.
Proof.
  intros He. split; [|destruct e; try done; intros path [= <-]; destruct He as (_ & _ & _ & raw & Hr); eauto].
  destruct e; cbn in *; destruct_and?; repeat (apply Forall_cons; split; [done|]); apply Forall_nil; exact I.
Qed.

(** C31: the event log of the ring readers.  As long as fewer than 2^64 numbers
    were drawn, in every interleaving their lines appear in the strictly
    increasing order of their sequence numbers although the readers write them
    concurrently.  Every text of a line that is taken from a record (command
    names, executables and files, host and server names, methods) is printable
    UTF-8 within the bound of its field.  The path of an HTTP request is the
    exception: it is the sanitized URI of such a text, in which no pattern
    finds a credential without the mark, but which may hold control characters
    that the request had escaped ([escaped_newline_returns]).  The deny, tamper
    and meta lines are not written by these readers. *)
Theorem event_log_ordered_clean dns ktls (w : world M) :
  0 <= maxEntries dns -> reaches cfg pol (SanitizeRequestURI parseHost) (start dns ktls) w -> w_drawn w < 2 ^ 64 ->
  StronglySorted Z.lt (map Seq (sh_log (w_sh w))) /\
  forall e, e ∈ sh_log (w_sh w) ->
    Seq e <= w_drawn w /\ Forall (fun t => clean t.1 t.2) (texts e) /\
    forall path, path_of e = Some path ->
      (exists raw, clean 4096 raw /\ path = SanitizeRequestURI parseHost raw) /\ Forall (fun p => hidden p path) patterns.
Proof.
  intros Hd Hw Hn. destruct (log_inv _ _ _ dns ktls w Hd Hw) as [[_ Hq] Hc]. destruct (Hq Hn) as (_ & Hm & Hs). split; [exact Hs|].
  intros e He. rewrite Forall_forall in Hm, Hc. destruct (clean_texts e (Hc e He)) as [Ht Hp]. split_and!; [by apply Hm|exact Ht|].
  intros path E. destruct (Hp path E) as (raw & Hr & ->). split; [by exists raw|apply sanitized_hidden].
Qed.
End Log.

(** What the redaction brings back: a newline that [SanitizeField] let pass as
    an escape. *)
Example escaped_newline_returns :
  SanitizeRequestURI (H := ascii_case) parseHost_1_26_2 (str "/a%0Ab") = str "/a" ++ [10] ++ str "b".
Proof. by vm_compute. Qed.

Module Witness.
#[local] Existing Instance ascii_case.
#[local] Existing Instance plain_order.
Import RingAccounts.Witness.

(** An HTTP record, and its reader after the line is written. *)
Definition payload : bytes := str "GET /a?token=abc HTTP/1.1" ++ [13; 10] ++ str "Host: h" ++ [13; 10; 13; 10].
Definition http_raw : bytes := repeat 1 8 ++ str "curl" ++ repeat 0 12 ++ [9; 9; 9; 9; 0; 80; 0; 0] ++ le_bytes 2 (len payload) ++ payload ++ repeat 0 190.
Definition uri : bytes -> bytes := SanitizeRequestURI parseHost_1_26_2.

Lemma some_with {A} (o : option A) (P : A -> Prop) : match o with Some a => P a | None => False end -> exists a, o = Some a /\ P a.
Proof. destruct o as [a|]; [|done]. by exists a. Qed.

Lemma line_written : exists w : world (gmap bytes bytes), reaches cfg None uri (start dns newKTLSTracker) w /\
  w_drawn w = 1 /\ map path_of (sh_log (w_sh w)) = [Some (str "/a?token=REDACTED")].
Proof.
  assert (wf_bytes http_raw) as Hraw by (unfold wf_bytes; by apply (bool_decide_unpack _)).
  pose proof (step_record cfg None uri RHTTP http_raw newLocal 0 (start dns newKTLSTracker) eq_refl Hraw) as H1.
  set (w1 := mkWorld _ _ _ _) in H1. set (t1 := handler cfg None uri RHTTP newLocal http_raw).
  destruct (some_with (advance (repeat at_ 4) t1 (w_sh w1) (w_drawn w1))
    (fun x => x.2 = 1 /\ map path_of (sh_log x.1.1) = [Some (str "/a?token=REDACTED")])) as ([[s' t'] d'] & E & Ed' & Hl); [by vm_compute|].
  cbn [fst snd] in Ed', Hl. subst d'.
  destruct (advance_reaches cfg None uri RHTTP _ t1 w1 s' t' 1 (upd_same _ _ _) E) as (w & Hw & Es & Et & Ed).
  exists w. split; [eapply rtc_l; [by exists RHTTP|]; eapply rtc_subrel; [|exact Hw]; intros x y Hxy; by exists RHTTP|].
  split; [done|by rewrite Es].
Qed.

Lemma event_log_ordered_clean_witness : exists w : world (gmap bytes bytes),
  map path_of (sh_log (w_sh w)) = [Some (str "/a?token=REDACTED")] /\ Forall (fun e => Seq e <= 1 /\ Forall (fun t => clean t.1 t.2) (texts e)) (sh_log (w_sh w)).
Proof.
  destruct line_written as (w & Hw & Hd & Hl). exists w. split; [exact Hl|].
  destruct (event_log_ordered_clean (H := ascii_case) cfg None parseHost_1_26_2 dns newKTLSTracker w ltac:(done) Hw) as [_ Hc]; [rewrite Hd; done|].
  rewrite Forall_forall. intros e He. destruct (Hc e He) as (Hs & Ht & _). rewrite Hd in Hs. split; [exact Hs|exact Ht].
Defined.
End Witness.
