(* ===== verification/PRComment.v ===== *)
(** The comment on the pull request: postPRComment, githubAPIBaseURL and
    truncate of internal/actioncli/main.go. *)
From stdpp Require Import gmap.
From S2P Require Import Prelude GoStrings GoNet GoPath Telemetry Json GoURL.

Open Scope Z_scope.

(** * The body *)

Definition UTFMax : nat := 4.

(** The loop of [utf8.DecodeLastRuneInString] back to the start of a rune. *)
Fixpoint seek (n : nat) (lim start : Z) (s : bytes) : Z :=
  match n with
  | O => start
  | S n => if lim <=? start then if RuneStart (default 0 (s !! Z.to_nat start)) then start else seek n lim (start - 1) s else start
  end.

(** [utf8.DecodeLastRuneInString]. *)
Definition DecodeLastRuneInString (s : bytes) : Z * nat :=
  match last s with
  | None => (RuneError, 0%nat)
  | Some r =>
    if r <? 0x80 then (r, 1%nat)
    else
      let end_ := len s in
      let lim := if end_ - 4 <? 0 then 0 else end_ - 4 in
      let start := seek UTFMax lim (end_ - 2) s in
      let start := if start <? 0 then 0 else start in
      match decode_rune (drop (Z.to_nat start) s) with
      | Some (r, size) => if start + Z.of_nat size =? end_ then (r, size) else (RuneError, 1%nat)
      | None => (RuneError, 1%nat)
      end
  end.

(** The cut is moved back, at most [n] times, while a partial rune is at its
    end. *)
Fixpoint backOff (n : nat) (out : bytes) : bytes :=
  match n, out with
  | S n, _ :: _ =>
    let '(r, size) := DecodeLastRuneInString out in
    if negb (r =? RuneError) || (1 <? size)%nat then out else backOff n (removelast out)
  | _, _ => out
  end.

(** [strings.Count], for a [sub] that is not empty. *)
Fixpoint count_fuel (n : nat) (s sub : bytes) : Z :=
  match n with
  | O => 0
  | S n => match Index s sub with None => 0 | Some i => 1 + count_fuel n (drop (i + length sub) s) sub end
  end.
Definition Count (s sub : bytes) : Z := count_fuel (S (length s)) s sub.

Definition fence : bytes := str "```".
Definition truncatedMark : bytes := [10; 10] ++ str "_(truncated)_" ++ [10].

(** [max] is not negative. *)
Definition truncate (s : bytes) (max : Z) : bytes :=
  if len s <=? max then s
  else
    let out := backOff (UTFMax - 1) (take (Z.to_nat max) s) in
    (if Count out fence mod 2 =? 1 then out ++ [10] ++ fence else out) ++ truncatedMark.

(** * The request *)

Definition maxGitHubEventJSONBytes : Z := 8 * 2 ^ 20.

(** [githubRepoPartRE.MatchString]. *)
Definition githubRepoPart (s : bytes) : bool :=
  negb (bool_decide (s = [])) && forallb (fun b => is_upper b || is_lower b || is_digit b || existsb (Z.eqb b) (str "._-")) s.

Inductive comment_err := EReadEvent | EEventTooLarge | EEventJSON | EAPIURL (raw : bytes) | ENewRequest | EDo | EStatus (code : Z).

(** [strings.TrimRight(s, "/")]. *)
Definition TrimRightSlash (s : bytes) : bytes := rev (drop_while (Z.eqb 47) (rev s)).

Record httpRequest := mkRequest { rq_URL : bytes; rq_Header : list (bytes * bytes); rq_Body : bytes }.

Section Comment.
Context (parseHost : bytes -> bytes -> option bytes).
(** [int(f)] of the float64 [f] that is the value of a number; [None] where the
    number is outside the range of float64. *)
Context (float_int : bytes -> option Z).
Context (getenv : bytes -> bytes).

Definition githubAPIBaseURL : result comment_err bytes :=
  let raw := TrimSpace (getenv (str "GITHUB_API_URL")) in
  if decide (raw = []) then Ok (str "https://api.github.com")
  else
    let raw := TrimRightSlash raw in
    match Parse parseHost raw with
    | Some u => if bool_decide (Scheme u = str "https") && negb (bool_decide (Host u = [])) then Ok raw else Err (EAPIURL raw)
    | None => Err (EAPIURL raw)
    end.

(** [json.Unmarshal] into an [any] fails at a number that no float64 holds. *)
Fixpoint floats (v : json) : bool :=
  match v with
  | JNum lit => match float_int lit with Some _ => true | None => false end
  | JArr l => forallb floats l
  | JObj l => forallb (fun kv => floats kv.2) l
  | _ => true
  end.

(** A member of an object decoded into a map: the last of its name. *)
Definition member (k : bytes) (v : json) : option json :=
  to_map (fun _ v => Some v) JNull ∅ v ≫= fun m => m !! k.

(** The number of the pull request of the event, if it has one. *)
Definition pullRequest (payload : json) : option Z :=
  match member (str "pull_request") payload with
  | Some (JObj l) => match member (str "number") (JObj l) with Some (JNum lit) => float_int lit | _ => None end
  | _ => None
  end.

(** The event file, [None] where it cannot be read. *)
Definition commentRequest (token body : bytes) (readEvent : bytes -> option bytes) : result comment_err (option httpRequest) :=
  let repo := TrimSpace (getenv (str "GITHUB_REPOSITORY")) in
  if decide (repo = []) then Ok None
  else
    let '(owner, name, found) := Cut repo 47 in
    if negb found || negb (githubRepoPart owner) || negb (githubRepoPart name) then Ok None
    else
      let eventPath := TrimSpace (getenv (str "GITHUB_EVENT_PATH")) in
      if decide (eventPath = []) then Ok None
      else
        match readEvent eventPath with
        | None => Err EReadEvent
        | Some raw =>
          if maxGitHubEventJSONBytes <? len raw then Err EEventTooLarge
          else
            match Json.parse raw with
            | None => Err EEventJSON
            | Some payload =>
              if negb (floats payload) || match payload with JObj _ | JNull => false | _ => true end then Err EEventJSON
              else
                match pullRequest payload with
                | None => Ok None
                | Some number =>
                  let b := Marshal (JObj [(str "body", JStr (str "## Coldstep digest" ++ [10; 10] ++ truncate body 65000))]) in
                  apiBase ← githubAPIBaseURL;
                  let urlStr := apiBase ++ str "/repos/" ++ owner ++ str "/" ++ name ++ str "/issues/" ++ Itoa number ++ str "/comments" in
                  match Parse parseHost urlStr with
                  | None => Err ENewRequest
                  | Some _ =>
                    Ok (Some (mkRequest urlStr
                      [(str "Authorization", str "Bearer " ++ token); (str "Accept", str "application/vnd.github+json");
                       (str "Content-Type", str "application/json")] b))
                  end
                end
            end
        end.

(** [postPRComment]: what is sent, if anything, and the error. *)
Definition postPRComment (token body : bytes) (readEvent : bytes -> option bytes) (send : httpRequest -> option Z) : option httpRequest * option comment_err :=
  match commentRequest token body readEvent with
  | Err e => (None, Some e)
  | Ok None => (None, None)
  | Ok (Some rq) =>
    match send rq with
    | None => (Some rq, Some EDo)
    | Some code => (Some rq, if 300 <=? code then Some (EStatus code) else None)
    end
  end.
End Comment.

Example truncate_ex : truncate (str "ab" ++ [0xE2; 0x82; 0xAC] ++ str "cd") 4 = str "ab" ++ truncatedMark.
Proof. reflexivity. Qed.
Example truncate_ex2 : truncate (str "```" ++ [10] ++ str "code code" ++ [10] ++ str "```") 8 = str "```" ++ [10] ++ str "code" ++ [10] ++ str "```" ++ truncatedMark.
Proof. reflexivity. Qed.

(** * The cut is at the end of a rune *)

Lemma seek_start n lim X b cs t (j : nat) : RuneStart b = true -> Forall (fun b => RuneStart b = false) cs -> (j <= length cs)%nat -> (j < n)%nat ->
  lim <= len X + 1 -> seek n lim (len X + Z.of_nat j) (X ++ (b :: cs) ++ t) = len X.
Proof.
  intros Hb Hcs Hj Hn Hlim. revert j Hj Hn. induction n as [|n IH]; intros j Hj Hn; [lia|]. cbn [seek].
  assert (Z.to_nat (len X + Z.of_nat j) = (length X + j)%nat) as -> by (unfold len; lia).
  rewrite lookup_app_r by lia. replace (length X + j - length X)%nat with j by lia.
  destruct j as [|j].
  - cbn [app lookup list_lookup default]. unfold from_option, id. rewrite Hb. case_match; lia.
  - change (((b :: cs) ++ t) !! S j) with ((cs ++ t) !! j). rewrite lookup_app_l by lia. destruct (lookup_lt_is_Some_2 cs j) as [c Hc]; [lia|]. rewrite Hc. cbn [default].
    rewrite Forall_lookup in Hcs. unfold from_option, id. rewrite (Hcs _ _ Hc). destruct (Z.leb_spec lim (len X + Z.of_nat (S j))) as [Hl|Hl]; [|lia].
    replace (len X + Z.of_nat (S j) - 1) with (len X + Z.of_nat j) by lia. apply IH; lia.
Qed.

Lemma utf8_length r c : utf8 r c -> (1 <= length c <= 4)%nat.
Proof. destruct 1; cbn; lia. Qed.

(** The bytes of an encoding of several bytes are outside ASCII. *)
Lemma utf8_nonascii r c : utf8 r c -> (1 < length c)%nat -> Forall (fun b => 128 <= b) c.
Proof. destruct 1; cbn; intros; [lia|repeat constructor; lia..]. Qed.

Lemma utf8_low r b : utf8 r [b] -> r = b /\ 0 <= b < 128.
Proof. by inversion 1. Qed.

Lemma encode_snoc rs r : encode (rs ++ [r]) = encode rs ++ encode_rune r.
Proof. unfold encode. rewrite map_app, concat_app. cbn. by rewrite app_nil_r. Qed.

(** A whole rune at the end. *)
Lemma last_whole X r c : utf8 r c -> DecodeLastRuneInString (X ++ c) = (r, length c).
Proof.
  intros Hu. pose proof (utf8_length _ _ Hu) as Hl. unfold DecodeLastRuneInString.
  destruct (decide (length c = 1%nat)) as [E|E].
  - destruct c as [|b [|]]; try done. apply utf8_low in Hu as [-> Hb]. rewrite last_snoc. by rewrite (proj2 (Z.ltb_lt b 128)) by lia.
  - pose proof (utf8_nonascii _ _ Hu) as Hh. destruct (utf8_shape _ _ Hu) as (b & cs & -> & Hb & Hcs). cbn [length] in *.
    destruct cs as [|c cs _] using rev_ind; [cbn in E; lia|]. rewrite length_app in *. cbn [length] in *.
    assert (last (X ++ b :: cs ++ [c]) = Some c) as -> by (by rewrite app_comm_cons, app_assoc, last_snoc).
    rewrite Forall_cons, Forall_app in Hh. destruct Hh as (_ & _ & Hc); [lia|]. apply Forall_cons in Hc as [Hc _].
    rewrite (proj2 (Z.ltb_ge c 128)) by lia.
    assert (len (X ++ b :: cs ++ [c]) = len X + Z.of_nat (length cs) + 2) as El by (unfold len; rewrite length_app; cbn [length]; rewrite length_app; cbn [length]; lia).
    rewrite El. replace (len X + Z.of_nat (length cs) + 2 - 2) with (len X + Z.of_nat (length cs)) by lia.
    pose proof (len_nonneg X) as HX.
    rewrite <- (app_nil_r (X ++ b :: cs ++ [c])), <- (app_assoc X). rewrite seek_start; [|done|done|rewrite length_app; lia|unfold UTFMax; lia|case_match; lia].
    rewrite (proj2 (Z.ltb_ge (len X) 0)) by lia. unfold len at 1. rewrite Nat2Z.id, drop_app_length.
    rewrite (utf8_decode _ _ [] Hu). cbn [length]. rewrite length_app. cbn [length].
    rewrite (proj2 (Z.eqb_eq _ _)) by lia. done.
Qed.

(** A part of a rune at the end. *)
Lemma partial_decodes r q q' : utf8 r (q ++ q') -> q <> [] -> q' <> [] -> decode_rune q = Some (RuneError, 1%nat).
Proof.
  intros Hu Hq Hq'. inversion Hu as [? ? E1 E2|? ? ? ? E1 E2|? ? ? ? ? ? ? ? E1 E2|? ? ? ? ? ? ? ? ? ? E1 E2]; subst.
  - destruct q as [|? [|]]; try done. by destruct q'.
  - destruct q as [|b0 [|b1 [|]]]; try done; injection E2; intros; subst; try done; cbn; ranges; done.
  - destruct q as [|b0 [|b1 [|b2 [|]]]]; try done; injection E2; intros; subst; try done; cbn; ranges; done.
  - destruct q as [|b0 [|b1 [|b2 [|b3 [|]]]]]; try done; injection E2; intros; subst; try done; cbn; ranges; done.
Qed.

Lemma last_partial rs r q q' : Forall scalar rs -> utf8 r (q ++ q') -> q <> [] -> q' <> [] -> DecodeLastRuneInString (encode rs ++ q) = (RuneError, 1%nat).
Proof.
  intros Hrs Hu Hq Hq'. pose proof (utf8_length _ _ Hu) as Hl. pose proof (partial_decodes _ _ _ Hu Hq Hq') as Hd.
  assert (1 < length (q ++ q'))%nat as Hmany by (rewrite length_app; destruct q, q'; try done; cbn; lia).
  pose proof (utf8_nonascii _ _ Hu Hmany) as Hh. destruct (utf8_shape _ _ Hu) as (b & cs & E & Hb & Hcs).
  destruct q as [|b' qs]; [done|]. injection E as -> E. rewrite <- E, Forall_app in Hcs. destruct Hcs as [Hcs _].
  rewrite Forall_app in Hh. destruct Hh as [Hh _]. rewrite length_app in Hl, Hmany. cbn [length] in Hl, Hmany.
  assert (1 <= length q')%nat by (destruct q'; [done|cbn; lia]). clear E cs Hq'. unfold DecodeLastRuneInString. pose proof (len_nonneg (encode rs)) as HX.
  assert (len (encode rs ++ b :: qs) = len (encode rs) + Z.of_nat (length qs) + 1) as El by (unfold len; rewrite length_app; cbn [length]; lia).
  destruct qs as [|c qs _] using rev_ind.
  - rewrite last_snoc. apply Forall_cons in Hh as [Hb128 _]. rewrite (proj2 (Z.ltb_ge b 128)) by lia. rewrite El. cbn [length].
    replace (len (encode rs) + Z.of_nat 0 + 1) with (len (encode rs) + 1) by lia.
    destruct rs as [|r' rs _] using rev_ind.
    { change (encode []) with (@nil Z). change (len (@nil Z)) with 0. cbn [app]. change (seek UTFMax (if 0 + 1 - 4 <? 0 then 0 else 0 + 1 - 4) (0 + 1 - 2) [b]) with (-1). change (drop (Z.to_nat (if -1 <? 0 then 0 else -1)) [b]) with [b]. by rewrite Hd. }
    rewrite encode_snoc in *. apply Forall_app in Hrs as [_ Hr'].
    apply Forall_cons in Hr' as [Hr' _]. pose proof (utf8_length _ _ Hr') as Hl'. destruct (utf8_shape _ _ Hr') as (b1 & cs & Ec & Hb1 & Hcs1).
    rewrite Ec in *. cbn [length] in Hl'. set (X := encode rs) in *. pose proof (len_nonneg X) as HX'.
    assert (len (X ++ b1 :: cs) = len X + Z.of_nat (length cs) + 1) as El' by (unfold len; rewrite length_app; cbn [length]; lia).
    rewrite El'. replace (len X + Z.of_nat (length cs) + 1 + 1 - 2) with (len X + Z.of_nat (length cs)) by lia. rewrite <- app_assoc.
    rewrite seek_start; [|done..|unfold UTFMax; lia|case_match; lia]. rewrite (proj2 (Z.ltb_ge (len X) 0)) by lia. unfold len at 1. rewrite Nat2Z.id, drop_app_length.
    rewrite <- Ec in *. rewrite (utf8_decode _ _ [b] Hr'). rewrite (proj2 (Z.eqb_neq _ _)); [done|]. rewrite Ec. cbn [length]. lia.
  - rewrite app_comm_cons, app_assoc, last_snoc. rewrite Forall_cons, Forall_app in Hh. destruct Hh as (_ & _ & Hc). apply Forall_cons in Hc as [Hc _].
    rewrite (proj2 (Z.ltb_ge c 128)) by lia. rewrite <- app_assoc, <- app_comm_cons, El, length_app in *. cbn [length] in *.
    replace (len (encode rs) + Z.of_nat (length qs + 1) + 1 - 2) with (len (encode rs) + Z.of_nat (length qs)) by lia.
    rewrite <- (app_nil_r (b :: qs ++ [c])), seek_start; [|done|done|rewrite length_app; lia|unfold UTFMax; lia|case_match; lia].
    rewrite (proj2 (Z.ltb_ge (len (encode rs)) 0)) by lia. unfold len at 1. rewrite Nat2Z.id, drop_app_length, app_nil_r, Hd.
    rewrite (proj2 (Z.eqb_neq _ _)) by lia. done.
Qed.

Lemma backOff_whole n rs : Forall scalar rs -> backOff n (encode rs) = encode rs.
Proof.
  intros Hrs. destruct n as [|n]; [done|]. cbn [backOff]. destruct (encode rs) as [|b s] eqn:E; [done|]. rewrite <- E.
  destruct rs as [|r rs _] using rev_ind; [done|]. apply Forall_app in Hrs as [_ Hr]. apply Forall_cons in Hr as [Hr _].
  rewrite encode_snoc, (last_whole _ r) by done. destruct (Z.eqb_spec r RuneError) as [->|Hr']; [|done]. done.
Qed.

Lemma backOff_partial n rs r q q' : Forall scalar rs -> utf8 r (q ++ q') -> q' <> [] -> (length q <= n)%nat -> backOff n (encode rs ++ q) = encode rs.
Proof.
  intros Hrs. revert n q'. induction q as [|b q IH] using rev_ind; intros n q' Hu Hq' Hn; [rewrite app_nil_r; by apply backOff_whole|].
  rewrite length_app in Hn. cbn [length] in Hn. destruct n as [|n]; [lia|]. cbn [backOff].
  destruct (encode rs ++ q ++ [b]) as [|x s] eqn:E; [destruct (encode rs), q; done|]. rewrite <- E.
  rewrite (last_partial rs r (q ++ [b]) q') by (try done; by destruct q). cbn [negb orb]. rewrite app_assoc, removelast_last.
  apply (IH n (b :: q')); [by rewrite <- app_assoc in Hu|done|lia].
Qed.

(** A prefix of an encoding: whole runes, then a part of the next one. *)
Lemma take_encode rs n : Forall scalar rs -> (n < length (encode rs))%nat -> exists rs1 r rs2 q q', rs = rs1 ++ r :: rs2 /\
  take n (encode rs) = encode rs1 ++ q /\ encode_rune r = q ++ q' /\ q' <> [] /\ Forall scalar rs1 /\ scalar r.
Proof.
  intros Hrs. revert n. induction Hrs as [|r rs Hr Hrs IH]; intros n Hn; [cbn in Hn; lia|].
  change (encode (r :: rs)) with (encode_rune r ++ encode rs) in *. destruct (decide (n < length (encode_rune r))%nat) as [Hlt|Hge].
  - exists [], r, rs, (take n (encode_rune r)), (drop n (encode_rune r)). split_and!; try done; [by rewrite take_app_le by lia|by rewrite take_drop|].
    intros E. apply (f_equal length) in E. rewrite length_drop in E. cbn in E. lia.
  - rewrite length_app in Hn. destruct (IH (n - length (encode_rune r))%nat) as (rs1 & r' & rs2 & q & q' & -> & E & E' & Hq' & H1 & H2); [lia|].
    exists (r :: rs1), r', rs2, q, q'. rewrite take_app_ge by lia. rewrite E. split_and!; try done; [|by constructor].
    change (encode (r :: rs1)) with (encode_rune r ++ encode rs1). by rewrite app_assoc.
Qed.

(** * Counting fences *)

Lemma HasPrefix_sep X c Y p : c ∉ p -> HasPrefix (X ++ c :: Y) p = HasPrefix X p.
Proof.
  revert X. induction p as [|b p IH]; intros X Hc; [by destruct X|]. apply not_elem_of_cons in Hc as [Hb Hc].
  destruct X as [|x X]; cbn [app HasPrefix]; [by rewrite (proj2 (Z.eqb_neq b c))|]. by rewrite IH.
Qed.

Lemma Index_sep X c Y p : c ∉ p -> p <> [] ->
  Index (X ++ c :: Y) p = match Index X p with Some i => Some i | None => (fun j => S (length X + j)) <$> Index Y p end.
Proof.
  intros Hc Hp. induction X as [|x X IH].
  - cbn [app Index]. change (c :: Y) with ([] ++ c :: Y). rewrite HasPrefix_sep by done. destruct p as [|b p]; [done|]. cbn [HasPrefix app].
    by destruct (Index Y (b :: p)).
  - cbn [app Index]. change (x :: X ++ c :: Y) with ((x :: X) ++ c :: Y). rewrite HasPrefix_sep by done.
    destruct (HasPrefix (x :: X) p); [done|]. rewrite IH. destruct (Index X p), (Index Y p); done.
Qed.

Lemma Index_le s p i : Index s p = Some i -> (i + length p <= length s)%nat.
Proof.
  revert i. induction s as [|b s IH]; intros i E; cbn [Index] in E.
  - destruct (HasPrefix [] p) eqn:Ep; [|done]. injection E as <-. apply HasPrefix_spec in Ep as [t E]. symmetry in E. apply app_nil in E as [-> _]. done.
  - destruct (HasPrefix (b :: s) p) eqn:Ep.
    + injection E as <-. apply HasPrefix_spec in Ep as [t E]. rewrite E, length_app. lia.
    + destruct (Index s p) as [j|]; [|done]. injection E as <-. specialize (IH j eq_refl). cbn. lia.
Qed.

Lemma count_enough n m s p : p <> [] -> (length s < n)%nat -> (length s < m)%nat -> count_fuel n s p = count_fuel m s p.
Proof.
  intros Hp. revert m s. induction n as [|n IH]; intros m s Hn Hm; [lia|]. destruct m as [|m]; [lia|]. cbn [count_fuel].
  destruct (Index s p) as [i|] eqn:E; [|done]. apply Index_le in E. assert (0 < length p)%nat by (by destruct p; [|cbn; lia]).
  f_equal. apply IH; rewrite length_drop; lia.
Qed.

Lemma Count_step s p : p <> [] -> Count s p = match Index s p with None => 0 | Some i => 1 + Count (drop (i + length p) s) p end.
Proof.
  intros Hp. unfold Count at 1. cbn [count_fuel]. destruct (Index s p) as [i|] eqn:E; [|done]. f_equal. apply Index_le in E.
  assert (0 < length p)%nat by (by destruct p; [|cbn; lia]). apply count_enough; [done|rewrite length_drop; lia|lia].
Qed.

Lemma Count_sep X c Y p : c ∉ p -> p <> [] -> Count (X ++ c :: Y) p = Count X p + Count Y p.
Proof.
  intros Hc Hp. remember (length X) as n eqn:En. revert X En. induction n as [n IH] using lt_wf_ind; intros X ->.
  rewrite (Count_step (X ++ c :: Y)), (Count_step X), Index_sep by done. destruct (Index X p) as [i|] eqn:E.
  - pose proof (Index_le _ _ _ E). assert (0 < length p)%nat by (by destruct p; [|cbn; lia]). rewrite drop_app_le by lia.
    rewrite (IH (length (drop (i + length p) X))); [lia|rewrite length_drop; lia|done].
  - rewrite (Count_step Y) by done. destruct (Index Y p) as [j|]; [|done]. cbn [fmap option_fmap option_map]. rewrite Z.add_0_l. f_equal.
    rewrite drop_app_ge by lia. replace (S (length X + j) + length p - length X)%nat with (S (j + length p)) by lia. done.
Qed.

Lemma Count_nonneg s p : 0 <= Count s p.
Proof.
  unfold Count. generalize (S (length s)). intros n. revert s. induction n as [|n IH]; intros s; cbn [count_fuel]; [lia|].
  destruct (Index s p); [specialize (IH (drop (n0 + length p) s)); lia|lia].
Qed.

(** The truncated body of a comment.  A text in UTF-8 that fits is not changed;
    a longer one is cut to a prefix that is the longest of at most [max] bytes
    that ends with a whole rune, no code block is left open, and the mark
    follows. *)
Theorem truncate_well_formed rs max : Forall scalar rs -> 0 <= max ->
  let s := encode rs in let out := truncate s max in
  (len s <= max -> out = s) /\
  (max < len s -> exists rs1 r rs2 close, rs = rs1 ++ r :: rs2 /\ out = encode rs1 ++ close ++ truncatedMark /\
     len (encode rs1) <= max < len (encode (rs1 ++ [r])) /\ (close = [] \/ close = [10] ++ fence) /\ Z.even (Count (encode rs1 ++ close) fence) = true).
Proof.
  intros Hrs Hmax s out. subst out. unfold truncate. destruct (Z.leb_spec (len s) max) as [Hle|Hgt]; [split; [done|lia]|]. split; [lia|]. intros _.
  change (max < Z.of_nat (length (encode rs))) in Hgt. destruct (take_encode rs (Z.to_nat max) Hrs) as (rs1 & r & rs2 & q & q' & Ers & Et & Er & Hq' & H1 & H2); [lia|].
  pose proof H2 as Hu. unfold scalar in Hu. rewrite Er in Hu. pose proof (utf8_length _ _ Hu) as Hl.
  assert (length q' <> 0)%nat by (by destruct q'). rewrite length_app in Hl.
  assert (backOff (UTFMax - 1) (take (Z.to_nat max) s) = encode rs1) as ->.
  { subst s. rewrite Et. apply (backOff_partial _ rs1 r q q'); try done. cbn. lia. }
  assert (length (encode rs1 ++ q) = Z.to_nat max) as Elen by (rewrite <- Et, length_take; lia).
  rewrite length_app in Elen. exists rs1, r, rs2, (if Count (encode rs1) fence mod 2 =? 1 then [10] ++ fence else []).
  assert (len (encode rs1) <= max) as Hlo by (unfold len; lia).
  assert (max < len (encode (rs1 ++ [r]))) as Hhi by (rewrite encode_snoc, Er; unfold len; rewrite !length_app; lia).
  split_and!; [done|by case_match; rewrite <- ?app_assoc|done|done|by case_match; [right|left]|].
  pose proof (Count_nonneg (encode rs1) fence). destruct (Z.eqb_spec (Count (encode rs1) fence mod 2) 1) as [E|E].
  - change ([10] ++ fence) with (10 :: fence). rewrite Count_sep; [|apply (bool_decide_unpack _); vm_compute; exact I|done].
    change (Count fence fence) with 1. rewrite Z.even_add. rewrite Zeven_mod. rewrite E. done.
  - rewrite app_nil_r, Zeven_mod. apply Z.eqb_eq. pose proof (Z.mod_pos_bound (Count (encode rs1) fence) 2). lia.
Qed.

(** * Where the token is sent *)

Lemma scheme_end_app n X Y i : scheme_end n X = Some (Some i) -> scheme_end n (X ++ Y) = Some (Some i).
Proof.
  revert n. induction X as [|c X IH]; intros n E; [done|]. cbn [app scheme_end] in *. repeat case_match; try done; by apply IH.
Qed.

Lemma getScheme_app X Y s r : getScheme X = Some (s, r) -> s <> [] -> getScheme (X ++ Y) = Some (s, r ++ Y).
Proof.
  unfold getScheme. intros E Hs. destruct (scheme_end 0 X) as [[i|]|] eqn:Ei; [|by injection E as <- <-|done]. injection E as <- <-.
  rewrite (scheme_end_app _ _ Y _ Ei). assert (i < length X)%nat.
  { clear Hs. assert (forall n X, scheme_end n X = Some (Some i) -> (i < n + length X)%nat) as Hl; [|by apply Hl in Ei].
    clear. intros n X. revert n. induction X as [|c X IH]; intros n E; cbn in E; [done|]. cbn [length]. repeat case_match; simplify_eq; try (apply IH in E); lia. }
  by rewrite take_app_le, drop_app_le by lia.
Qed.

Lemma IndexByte_app X c Y : IndexByte (X ++ c :: Y) c = match IndexByte X c with Some i => Some i | None => Some (length X) end.
Proof.
  unfold IndexByte. induction X as [|x X IH]; cbn [app Index HasPrefix]; [by rewrite Z.eqb_refl; destruct Y|].
  destruct ((c =? x) && true); [by destruct X|]. rewrite IH. by destruct (Index X [c]).
Qed.

Lemma Cut_app X c d Y : c <> d -> (Cut (X ++ d :: Y) c).1.1 = if bool_decide (c ∈ X) then (Cut X c).1.1 else X ++ d :: (Cut Y c).1.1.
Proof.
  intros Hd. unfold Cut, IndexByte. revert Y. induction X as [|x X IH]; intros Y.
  - rewrite bool_decide_false by apply not_elem_of_nil. cbn [app Index HasPrefix]. rewrite (proj2 (Z.eqb_neq c d)) by done. cbn [andb].
    by destruct (Index Y [c]).
  - cbn [app Index HasPrefix]. destruct (Z.eqb_spec c x) as [->|Hx]; cbn [andb].
    + rewrite bool_decide_true by (by left). by destruct X.
    + specialize (IH Y). rewrite (bool_decide_ext (c ∈ x :: X) (c ∈ X)) by (rewrite elem_of_cons; naive_solver).
      destruct (Index (X ++ d :: Y) [c]), (Index X [c]); cbn in *; case_bool_decide; try done; by rewrite IH.
Qed.

Section Host.
Context (parseHost : bytes -> bytes -> option bytes).

(** The authority of what follows the scheme. *)
Definition authority (rest : bytes) : bytes := match IndexByte (drop 2 rest) 47 with Some i => take i (drop 2 rest) | None => drop 2 rest end.

Lemma authority_app rest t : HasPrefix rest (str "//") = true -> authority (rest ++ 47 :: t) = authority rest.
Proof.
  intros Hp. apply HasPrefix_spec in Hp as [a ->]. unfold authority. assert (forall x, drop 2 (str "//" ++ x) = x) as Hd by done.
  rewrite <- app_assoc, !Hd, IndexByte_app.
  destruct (IndexByte a 47) as [i|] eqn:E.
  - apply Index_le in E. cbn [length] in E. by rewrite take_app_le by lia.
  - by rewrite take_app_length.
Qed.

Lemma parse_host X u s r : parse parseHost X = Some u -> getScheme X = Some (s, r) -> s <> [] ->
  let rest := (Cut r 63).1.1 in
  if HasPrefix rest (str "//") then Scheme u = map lower_byte s /\ parseAuthority parseHost (map lower_byte s) (authority rest) = Some (Host u) else Host u = [].
Proof.
  intros E Es Hs. unfold parse in E. destruct (stringContainsCTLByte X); [done|]. case_decide as Hx; [rewrite Hx in Es; by injection Es as <- <-|]. rewrite Es in E.
  cbn [mbind option_bind] in E. destruct (Cut r 63) as [[rest query] found]. cbn [fst]. assert (map lower_byte s <> []) as Hn by by destruct s.
  rewrite (bool_decide_false (map lower_byte s = [])) in E by done. cbn [negb andb orb] in E.
  destruct (HasPrefix rest (str "/")) eqn:Hp; cbn [negb andb] in E.
  - destruct (HasPrefix rest (str "//")).
    + unfold authority. destruct (IndexByte (drop 2 rest) 47) as [i|]; cbn in E; destruct (parseAuthority _ _ _) as [h|]; cbn in E; try done;
        first [by injection E as <-|destruct (unescape encodePath (drop _ _)); [|done]; by injection E as <-].
    + cbn in E. destruct (unescape encodePath rest); [|done]. by injection E as <-.
  - assert (HasPrefix rest (str "//") = false) as ->; [|by injection E as <-].
    apply not_true_iff_false. intros [t ->]%HasPrefix_spec. done.
Qed.

Lemma parse_scheme X u s r : parse parseHost X = Some u -> getScheme X = Some (s, r) -> X <> str "*" -> Scheme u = map lower_byte s.
Proof.
  intros E Es Hx. unfold parse in E. destruct (stringContainsCTLByte X); [done|]. rewrite decide_False in E by done. rewrite Es in E.
  cbn [mbind option_bind] in E. destruct (Cut r 63) as [[rest query] found].
  destruct (negb _ && negb _); [by injection E as <-|]. destruct (negb _ && GoStrings.Contains _ _); [done|].
  match type of E with mbind _ ?o = _ => destruct o as [[h p]|]; [|done] end. cbn [mbind option_bind] in E. destruct (unescape encodePath p); [|done]. by injection E as <-.
Qed.

Lemma Parse_parse s u : Parse parseHost s = Some u -> exists u0, parse parseHost (Cut s 35).1.1 = Some u0 /\ Scheme u0 = Scheme u /\ Host u0 = Host u.
Proof.
  unfold Parse. destruct (Cut s 35) as [[X frag] found]. cbn [fst]. destruct (parse parseHost X) as [u0|]; [|done]. cbn [mbind option_bind].
  case_decide; [intros [= ->]; by exists u|]. destruct (unescape _ _); [|done]. intros [= <-]. by exists u0.
Qed.

(** A path behind a URL that names a host does not change the host. *)
Lemma same_host base t ub u : Parse parseHost base = Some ub -> Scheme ub <> [] -> Host ub <> [] -> Parse parseHost (base ++ 47 :: t) = Some u ->
  Scheme u = Scheme ub /\ Host u = Host ub.
Proof.
  intros (b0 & Eb & <- & <-)%Parse_parse Hs Hh (u0 & Eu & <- & <-)%Parse_parse. rewrite Cut_app in Eu by done. case_bool_decide as Hin.
  { rewrite Eb in Eu. by injection Eu as ->. }
  assert ((Cut base 35).1.1 = base) as Ec.
  { unfold Cut, IndexByte. destruct (Index base [35]) as [i|] eqn:Ei; [|done]. exfalso. apply Hin, Contains_byte. unfold Contains. by rewrite Ei. }
  rewrite Ec in Eb. destruct (getScheme base) as [[s r]|] eqn:Es.
  2:{ unfold parse in Eb. rewrite Es in Eb. destruct (stringContainsCTLByte base); [done|]. case_decide; [|done]. by injection Eb as <-. }
  destruct (decide (s = [])) as [->|Hsn].
  { exfalso. destruct (decide (base = str "*")) as [->|Hx]; [by injection Eb as <-|]. apply Hs. by rewrite (parse_scheme _ _ _ _ Eb Es Hx). }
  pose proof (parse_host _ _ _ _ Eb Es Hsn) as H1. pose proof (parse_host _ _ _ _ Eu (getScheme_app _ _ _ _ Es Hsn) Hsn) as H2. cbn zeta in *.
  rewrite Cut_app in H2 by done. destruct (HasPrefix (Cut r 63).1.1 (str "//")) eqn:Hp; [|done]. destruct H1 as [-> H1].
  case_bool_decide as Hq.
  - rewrite Hp in H2. destruct H2 as [-> H2]. split; [done|]. congruence.
  - assert ((Cut r 63).1.1 = r) as Er.
    { unfold Cut, IndexByte. destruct (Index r [63]) as [i|] eqn:Ei; [|done]. exfalso. apply Hq, Contains_byte. unfold Contains. by rewrite Ei. }
    rewrite Er in *. assert (HasPrefix (r ++ 47 :: (Cut (Cut t 35).1.1 63).1.1) (str "//") = true) as Hp'.
    { apply HasPrefix_spec in Hp as [a ->]. apply HasPrefix_spec. rewrite <- app_assoc. by eexists. }
    rewrite Hp', authority_app in H2 by done. destruct H2 as [-> H2]. split; [done|]. congruence.
Qed.
End Host.

(** * The comment that is posted *)

Lemma encode_ascii t : Forall (fun b => 0 <= b < 128) t -> encode t = t /\ Forall scalar t.
Proof.
  induction 1 as [|b t Hb _ [IH1 IH2]]; [done|]. assert (encode_rune b = [b]) as E by (unfold encode_rune; by rewrite in_range_true by lia). split.
  - change (encode (b :: t)) with (encode_rune b ++ encode t). by rewrite E, IH1.
  - constructor; [|done]. unfold scalar. rewrite E. by constructor.
Qed.

Lemma encode_app rs1 rs2 : encode (rs1 ++ rs2) = encode rs1 ++ encode rs2.
Proof. unfold encode. by rewrite map_app, concat_app. Qed.

(** What is posted is in UTF-8. *)
Lemma truncate_encoded rs max : Forall scalar rs -> 0 <= max -> exists rs', truncate (encode rs) max = encode rs' /\ Forall scalar rs'.
Proof.
  intros Hrs Hmax. destruct (truncate_well_formed rs max Hrs Hmax) as [H1 H2]. destruct (Z.le_gt_cases (len (encode rs)) max) as [Hle|Hgt].
  - exists rs. by rewrite H1.
  - destruct H2 as (rs1 & r & rs2 & close & -> & -> & _ & Hclose & _); [lia|]. exists (rs1 ++ close ++ truncatedMark).
    assert (Forall (fun b => 0 <= b < 128) (close ++ truncatedMark)) as Ha by (destruct Hclose as [-> | ->]; apply (bool_decide_unpack _); vm_compute; exact I).
    apply encode_ascii in Ha as [Ea Hs]. rewrite encode_app, Ea. split; [done|]. apply Forall_app. split; [by apply Forall_app in Hrs as [? _]|done].
Qed.

Lemma utf8_wf r c : utf8 r c -> wf_bytes c.
Proof. unfold wf_bytes, is_byte. destruct 1; repeat constructor; lia. Qed.

Lemma encode_wf rs : Forall scalar rs -> wf_bytes (encode rs).
Proof. induction 1 as [|r rs Hr _ IH]; [constructor|]. change (encode (r :: rs)) with (encode_rune r ++ encode rs). apply Forall_app. split; [by eapply utf8_wf|done]. Qed.

Lemma coerce_encode rs : Forall scalar rs -> coerce (encode rs) = encode rs.
Proof. intros Hrs. unfold coerce. by rewrite runes_encode. Qed.

Definition commentTitle : bytes := str "## Coldstep digest" ++ [10; 10].

Lemma body_reads_back rs : Forall scalar rs -> let text := commentTitle ++ truncate (encode rs) 65000 in
  Json.parse (Marshal (JObj [(str "body", JStr text)])) = Some (JObj [(str "body", JStr text)]).
Proof.
  intros Hrs text. destruct (truncate_encoded rs 65000 Hrs ltac:(lia)) as (rs' & E & Hrs').
  assert (Forall (fun b => 0 <= b < 128) commentTitle) as Ht by (apply (bool_decide_unpack _); vm_compute; exact I). apply encode_ascii in Ht as [Et Hts].
  assert (text = encode (commentTitle ++ rs')) as -> by (subst text; by rewrite E, encode_app, Et).
  assert (Forall scalar (commentTitle ++ rs')) as Hall by by apply Forall_app.
  rewrite parse_Marshal; [|cbn [wf_json map foldr]; split_and!; [apply (bool_decide_unpack _); vm_compute; exact I|by apply encode_wf|done]|by vm_compute].
  cbn [coerced map fst snd]. rewrite coerce_encode by done. done.
Qed.

Lemma bind_ok {E A B} (r : result E A) (f : A -> result E B) b : r ≫= f = Ok b -> exists a, r = Ok a /\ f a = Ok b.
Proof. destruct r as [a|]; [|done]. intros E'. by exists a. Qed.

(** A base that is accepted is an https URL with a host, or the default. *)
Lemma api_base parseHost getenv base path u : githubAPIBaseURL parseHost getenv = Ok base -> Parse parseHost (base ++ 47 :: path) = Some u ->
  exists ub, Parse parseHost base = Some ub /\ Scheme ub = str "https" /\ Scheme u = str "https" /\ Host u = Host ub.
Proof.
  intros Eb Eu. unfold githubAPIBaseURL in Eb. case_decide as Hd.
  - assert (base = str "https://api.github.com") as Hbase by congruence. clear Eb Hd. apply Parse_parse in Eu as (u0 & Eu0 & <- & <-).
    assert (35 ∉ base) as H35 by (rewrite Hbase; apply (bool_decide_unpack _); vm_compute; exact I).
    rewrite Cut_app, bool_decide_false in Eu0 by done.
    assert (getScheme base = Some (str "https", str "//api.github.com")) as Es by (rewrite Hbase; vm_compute; reflexivity).
    assert (63 ∉ str "//api.github.com" /\ HasPrefix (str "//api.github.com") (str "//") = true) as [Hr Hp] by (split; [apply (bool_decide_unpack _); vm_compute; exact I|done]).
    assert (str "https" <> []) as Hne by done. assert (map lower_byte (str "https") = str "https") as Hlow by (vm_compute; reflexivity).
    assert (Parse parseHost base = h ← parseAuthority parseHost (str "https") (authority (str "//api.github.com")); Some (mkURL (str "https") [] h [] [] [])) as EP
      by (rewrite Hbase; vm_compute; by destruct (parseHost _ _)).
    clear Hbase. remember (str "//api.github.com") as r0 eqn:Er0. clear Er0. remember (str "https") as https eqn:Eh. clear Eh.
    pose proof (parse_host parseHost _ _ _ _ Eu0 (getScheme_app _ _ _ _ Es Hne) Hne) as Hh. cbn zeta in Hh.
    rewrite Cut_app, bool_decide_false in Hh by done. rewrite authority_app in Hh by done.
    assert (HasPrefix (r0 ++ 47 :: (Cut (Cut path 35).1.1 63).1.1) (str "//") = true) as Hp'
      by (apply HasPrefix_spec in Hp as [a ->]; apply HasPrefix_spec; rewrite <- app_assoc; by eexists).
    rewrite Hp' in Hh. destruct Hh as [-> Hh]. rewrite Hlow in *. exists (mkURL https [] (Host u0) [] [] []). split; [by rewrite EP, Hh|done].
  - destruct (Parse parseHost (TrimRightSlash _)) as [ub|] eqn:Ep; [|done]. destruct (bool_decide _) eqn:Es; [|done]. apply bool_decide_eq_true in Es.
    destruct (bool_decide (Host ub = [])) eqn:Eh; [done|]. apply bool_decide_eq_false in Eh. injection Eb as <-. exists ub.
    destruct (same_host parseHost _ path ub u Ep) as [-> ->]; [by rewrite Es|done|done|]. done.
Qed.

(** The comment, if one is sent.  It goes by https to the host of the configured
    API (of api.github.com where none is configured), whatever the repository
    is called, and carries the token; its body is a JSON object that reads back
    as the title and the report, cut as [truncate] does. *)
Theorem comment_posted parseHost float_int getenv token rs readEvent rq : Forall scalar rs ->
  commentRequest parseHost float_int getenv token (encode rs) readEvent = Ok (Some rq) ->
  (exists base path ub u, githubAPIBaseURL parseHost getenv = Ok base /\ rq_URL rq = base ++ 47 :: path /\ Parse parseHost base = Some ub /\
    Parse parseHost (rq_URL rq) = Some u /\ Scheme ub = str "https" /\ Scheme u = str "https" /\ Host u = Host ub) /\
  (str "Authorization", str "Bearer " ++ token) ∈ rq_Header rq /\
  Json.parse (rq_Body rq) = Some (JObj [(str "body", JStr (commentTitle ++ truncate (encode rs) 65000))]).
Proof.
  intros Hrs E. unfold commentRequest in E. case_decide; [done|]. destruct (Cut _ 47) as [[owner name] found]. destruct (_ || _ || _); [done|].
  case_decide; [done|]. destruct (readEvent _) as [raw|]; [|done]. destruct (_ <? _); [done|]. destruct (Json.parse raw) as [payload|]; [|done].
  destruct (negb _ || _); [done|]. destruct (pullRequest float_int payload) as [number|]; [|done].
  apply bind_ok in E as (base & Eb & E). destruct (Parse parseHost (base ++ _)) as [u|] eqn:Eu; [|done]. injection E as <-. cbn [rq_URL rq_Header rq_Body].
  split; [|split; [by left|by apply body_reads_back]].
  change (str "/repos/") with (47 :: str "repos/") in *. cbn [app] in *. set (path := str "repos/" ++ _) in *.
  destruct (api_base _ _ _ _ _ Eb Eu) as (ub & Eub & ? & ? & ?). by exists base, path, ub, u.
Qed.
