(* ===== verification/SummaryFile.v ===== *)
(** The summary file of a run: [MarshalIndent] of package encoding/json, and
    [WriteSummary] of internal/telemetry/telemetry.go with the replacement of the
    file (internal/atomicwrite, Readiness). *)
From S2P Require Import Prelude GoStrings Telemetry RunStats Json EventLog Readiness Compat.

Open Scope Z_scope.

(** * MarshalIndent

    With no prefix and two blanks of indent: the elements of an array and the
    members of an object are on lines of their own; empty ones stay closed. *)

Definition newline (d : nat) : bytes := 10 :: repeat 32 (2 * d).

Fixpoint indent (d : nat) (v : json) : bytes :=
  match v with
  | JArr ((_ :: _) as l) => 91 :: commas (map (fun v => newline (S d) ++ indent (S d) v) l) ++ newline d ++ [93]
  | JObj ((_ :: _) as l) => 123 :: commas (map (fun kv => newline (S d) ++ quote kv.1 ++ 58 :: 32 :: indent (S d) kv.2) l) ++ newline d ++ [125]
  | _ => Marshal v
  end.

Definition MarshalIndent (v : json) : bytes := indent 0 v.

Example indent_ex : MarshalIndent (JObj [(str "a", JArr [JNum (str "1"); JArr []]); (str "b", JObj [])]) =
  js "{" ++ [10] ++ js "  'a': [" ++ [10] ++ js "    1," ++ [10] ++ js "    []" ++ [10] ++ js "  ]," ++ [10] ++ js "  'b': {}" ++ [10] ++ js "}".
Proof. vm_compute. reflexivity. Qed.

(** * The summary *)

(** [Summary]: the fields that [snapshotSummary] sets, and the others. *)
Record SummaryFile := mkSummaryFile { sf_base : Summary; sf_Finished : bytes; sf_CompatWarnings : list CompatWarning; sf_Signature : bytes; sf_PublicKey : bytes }.

Definition CompatWarning_json (w : CompatWarning) : json := JObj (fstr "code" (cw_Code w) ++ str_oe "detail" (cw_Detail w)).
Definition counts_json (m : gmap bytes Z) : json := map_json (fun v => JNum (Itoa v)) m.

(** The members up to the signature. *)
Definition head_members (s : SummaryFile) : members_of :=
  let b := sf_base s in
  fint "version" (sm_Version b) ++ fint "schema_version" (sm_SchemaVersion b) ++ fstr "finished" (sf_Finished s) ++
  str_oe "kernel_release" (sm_KernelRelease b) ++ fint "exec_events" (sm_ExecEvents b) ++ fint "tcp_events" (sm_TCPEvents b) ++
  fint "udp_events" (sm_UDPEvents b) ++ fint "http_events" (sm_HTTPEvents b) ++ int_oe "tls_events" (sm_TLSEvents b) ++
  int_oe "ktls_offload_events" (sm_KTLSOffloadEvents b) ++ int_oe "ktls_ringbuf_reserve_failures" (sm_KTLSRingbufReserveFailures b) ++
  int_oe "tls_confidence_full" (sm_TLSConfidenceFull b) ++ int_oe "tls_confidence_partial" (sm_TLSConfidencePartial b) ++
  int_oe "tls_confidence_inferred" (sm_TLSConfidenceInferred b) ++ int_oe "tls_confidence_unknown" (sm_TLSConfidenceUnknown b) ++
  int_oe "proc_fork_events" (sm_ProcForkEvents b) ++ int_oe "connect4_tuple_update_failures" (sm_Connect4TupleUpdateFailures b) ++
  int_oe "udp_ringbuf_reserve_failures" (sm_UDPRingbufReserveFailures b) ++
  int_oe "dns_ringbuf_reserve_failures" (sm_DNSRingbufReserveFailures b) ++
  int_oe "connect_ringbuf_reserve_failures" (sm_ConnectRingbufReserveFailures b) ++
  int_oe "http_ringbuf_reserve_failures" (sm_HTTPRingbufReserveFailures b) ++
  int_oe "tls_ringbuf_reserve_failures" (sm_TLSRingbufReserveFailures b) ++
  int_oe "exec_ringbuf_reserve_failures" (sm_ExecRingbufReserveFailures b) ++
  int_oe "fork_ringbuf_reserve_failures" (sm_ForkRingbufReserveFailures b) ++
  int_oe "fs_ringbuf_reserve_failures" (sm_FSRingbufReserveFailures b) ++
  int_oe "udp_sendmsg_multi_iovec_observed" (sm_UDPSendmsgMultiIovecObserved b) ++
  int_oe "sendmmsg_multi_message_observed" (sm_SendmmsgMultiMessage b) ++
  int_oe "sendmmsg_unobserved_extra" (sm_SendmmsgUnobservedExtra b) ++
  int_oe "tls_writev_multi_iovec_observed" (sm_TLSWritevMultiIovecObserved b) ++ int_oe "sendfile_observed" (sm_SendfileObserved b) ++
  int_oe "splice_observed" (sm_SpliceObserved b) ++ int_oe "sendmmsg_first_only" (sm_SendmmsgFirstOnly b) ++
  uint_oe "ipv6_connect_observed" (sm_IPv6ConnectObserved b) ++
  uint_oe "ipv6_sendmsg_observed" (sm_IPv6SendmsgObserved b) ++ int_oe "ipv6_events" (sm_IPv6Events b) ++
  int_oe "ipv6_ringbuf_reserve_failures" (sm_IPv6RingbufReserveFailures b) ++ uint_oe "sendpage_observed" (sm_SendpageObserved b) ++
  int_oe "io_uring_setup_observed" (sm_IoUringSetupObserved b) ++ int_oe "io_uring_send_total" (sm_IoUringSendTotal b) ++
  int_oe "io_uring_ringbuf_reserve_failures" (sm_IoUringRingbufReserveFailures b) ++
  int_oe "io_uring_tls_ringbuf_reserve_failures" (sm_IoUringTLSRingbufReserveFailures b) ++
  int_oe "io_uring_tls_hello_observed" (sm_IoUringTLSHelloObserved b) ++
  int_oe "tcp_dns_responses_observed" (sm_TCPDNSResponsesObserved b) ++ int_oe "tcp_dns_skipped_short_read" (sm_TCPDNSSkippedShortRead b) ++
  int_oe "tcp_state_total" (sm_TCPStateTotal b) ++ int_oe "tcp_state_confirmed" (sm_TCPStateConfirmed b) ++
  int_oe "tcp_state_refused" (sm_TCPStateRefused b) ++ int_oe "tcp_state_ringbuf_reserve_failures" (sm_TCPStateRingbufReserveFailures b) ++
  uint_oe "quic_observed" (sm_QuicObserved b) ++ int_oe "dns_drift_observations" (sm_DNSDriftObservations b) ++
  int_oe "bpf_audit_events" (sm_BPFAuditEvents b) ++ int_oe "bpf_heartbeat_failures" (sm_BPFHeartbeatFailures b) ++
  int_oe "bpf_map_integrity_failures" (sm_BPFMapIntegrityFailures b) ++
  int_oe "bpf_dns_cache_update_failures" (sm_BPFDNSCacheUpdateFailures b) ++
  int_oe "bpf_audit_ringbuf_reserve_failures" (sm_BPFAuditRingbufReserveFailures b) ++
  int_oe "ringbuf_reserve_failures_total" (sm_RingbufReserveFailuresTotal b) ++
  (if decide (sm_DroppedCounts b = ∅) then [] else [(str "dropped_counts", counts_json (sm_DroppedCounts b))]) ++
  [(str "policy_counts", counts_json (sm_PolicyCounts b))] ++
  (if decide (sm_BPF b = []) then [] else [(str "bpf", JArr (map BPFStatus_json (sm_BPF b)))]) ++
  (if decide (sf_CompatWarnings s = []) then [] else [(str "compat_warnings", JArr (map CompatWarning_json (sf_CompatWarnings s)))]).

Definition Summary_json (s : SummaryFile) : json :=
  JObj (head_members s ++ str_oe "signature" (sf_Signature s) ++ str_oe "public_key" (sf_PublicKey s)).

Definition with_versions (v sv : Z) (s : Summary) : Summary :=
  {|
    sm_Version := v; sm_SchemaVersion := sv; sm_ExecEvents := sm_ExecEvents s; sm_TCPEvents := sm_TCPEvents s;
    sm_UDPEvents := sm_UDPEvents s; sm_HTTPEvents := sm_HTTPEvents s; sm_TLSEvents := sm_TLSEvents s;
    sm_KTLSOffloadEvents := sm_KTLSOffloadEvents s; sm_KTLSRingbufReserveFailures := sm_KTLSRingbufReserveFailures s;
    sm_TLSConfidenceFull := sm_TLSConfidenceFull s; sm_TLSConfidencePartial := sm_TLSConfidencePartial s;
    sm_TLSConfidenceInferred := sm_TLSConfidenceInferred s; sm_TLSConfidenceUnknown := sm_TLSConfidenceUnknown s;
    sm_ProcForkEvents := sm_ProcForkEvents s; sm_Connect4TupleUpdateFailures := sm_Connect4TupleUpdateFailures s;
    sm_UDPRingbufReserveFailures := sm_UDPRingbufReserveFailures s; sm_DNSRingbufReserveFailures := sm_DNSRingbufReserveFailures s;
    sm_ConnectRingbufReserveFailures := sm_ConnectRingbufReserveFailures s;
    sm_HTTPRingbufReserveFailures := sm_HTTPRingbufReserveFailures s; sm_TLSRingbufReserveFailures := sm_TLSRingbufReserveFailures s;
    sm_ExecRingbufReserveFailures := sm_ExecRingbufReserveFailures s; sm_ForkRingbufReserveFailures := sm_ForkRingbufReserveFailures s;
    sm_FSRingbufReserveFailures := sm_FSRingbufReserveFailures s; sm_RingbufReserveFailuresTotal := sm_RingbufReserveFailuresTotal s;
    sm_UDPSendmsgMultiIovecObserved := sm_UDPSendmsgMultiIovecObserved s; sm_SendmmsgMultiMessage := sm_SendmmsgMultiMessage s;
    sm_SendmmsgUnobservedExtra := sm_SendmmsgUnobservedExtra s; sm_TLSWritevMultiIovecObserved := sm_TLSWritevMultiIovecObserved s;
    sm_SendfileObserved := sm_SendfileObserved s; sm_SpliceObserved := sm_SpliceObserved s; sm_SendmmsgFirstOnly := sm_SendmmsgFirstOnly s;
    sm_IPv6ConnectObserved := sm_IPv6ConnectObserved s; sm_IPv6SendmsgObserved := sm_IPv6SendmsgObserved s;
    sm_IPv6Events := sm_IPv6Events s; sm_IPv6RingbufReserveFailures := sm_IPv6RingbufReserveFailures s;
    sm_SendpageObserved := sm_SendpageObserved s; sm_IoUringSetupObserved := sm_IoUringSetupObserved s;
    sm_IoUringSendTotal := sm_IoUringSendTotal s; sm_IoUringRingbufReserveFailures := sm_IoUringRingbufReserveFailures s;
    sm_IoUringTLSRingbufReserveFailures := sm_IoUringTLSRingbufReserveFailures s;
    sm_IoUringTLSHelloObserved := sm_IoUringTLSHelloObserved s; sm_TCPDNSResponsesObserved := sm_TCPDNSResponsesObserved s;
    sm_TCPDNSSkippedShortRead := sm_TCPDNSSkippedShortRead s; sm_TCPStateTotal := sm_TCPStateTotal s;
    sm_TCPStateConfirmed := sm_TCPStateConfirmed s; sm_TCPStateRefused := sm_TCPStateRefused s;
    sm_TCPStateRingbufReserveFailures := sm_TCPStateRingbufReserveFailures s; sm_QuicObserved := sm_QuicObserved s;
    sm_DNSDriftObservations := sm_DNSDriftObservations s; sm_BPFAuditEvents := sm_BPFAuditEvents s;
    sm_BPFHeartbeatFailures := sm_BPFHeartbeatFailures s; sm_BPFMapIntegrityFailures := sm_BPFMapIntegrityFailures s;
    sm_BPFDNSCacheUpdateFailures := sm_BPFDNSCacheUpdateFailures s;
    sm_BPFAuditRingbufReserveFailures := sm_BPFAuditRingbufReserveFailures s; sm_DroppedCounts := sm_DroppedCounts s;
    sm_PolicyCounts := sm_PolicyCounts s; sm_KernelRelease := sm_KernelRelease s; sm_BPF := sm_BPF s
  |}.

(** The fields that [WriteSummary] fills in; a map is never nil here. *)
Definition withDefaults (now : Z) (s : SummaryFile) : SummaryFile :=
  let b := sf_base s in
  mkSummaryFile (with_versions (if sm_Version b =? 0 then 2 else sm_Version b) (if sm_SchemaVersion b =? 0 then SchemaVersion else sm_SchemaVersion b) b)
    (if decide (sf_Finished s = []) then RFC3339Nano now else sf_Finished s) (sf_CompatWarnings s) (sf_Signature s) (sf_PublicKey s).

(** The summary of [writeShutdownTelemetry]. *)
Definition shutdownSummary (s : runStats) (kernel : bytes) (bpf : list BPFStatus) (warnings : list CompatWarning) : SummaryFile :=
  mkSummaryFile (snapshotSummary s kernel bpf) [] warnings [] [].

Section Write.
Context (Sign : bytes -> bytes -> bytes).

Definition withSignature (signer : option Signer) (s : SummaryFile) : SummaryFile :=
  match signer with
  | None => s
  | Some sg =>
    let s := mkSummaryFile (sf_base s) (sf_Finished s) (sf_CompatWarnings s) [] (PublicKey (Some sg)) in
    mkSummaryFile (sf_base s) (sf_Finished s) (sf_CompatWarnings s) (EncodeToString (Sign (priv sg) (Marshal (Summary_json s)))) (sf_PublicKey s)
  end.

Definition summaryText (s : SummaryFile) (signer : option Signer) (now : Z) : bytes :=
  MarshalIndent (Summary_json (withSignature signer (withDefaults now s))).

(** The states of the disk, as [atomicwrite.Bytes] has them, and the result. *)
Definition WriteSummary (path : bytes) (s : SummaryFile) (signer : option Signer) (now : Z) (io : file_io) (d : gmap bytes bytes)
    : list (gmap bytes bytes) * result write_err unit :=
  if decide (path = []) then ([d], Ok tt)
  else Readiness.Bytes path (summaryText s signer now) 0x1A4 io d.
End Write.

(** * What is indented reads back *)

Lemma skip_newline d t : skip_ws (newline d ++ t) = skip_ws t.
Proof. unfold skip_ws, newline. cbn [app drop_while is_ws]. change (is_ws 10) with true. cbn iota. induction (2 * d)%nat as [|n IH]; [done|]. exact IH. Qed.

Lemma value_newline n d k t : value n d (newline k ++ t) = value n d t.
Proof. destruct n as [|n]; [done|]. cbn [value]. by rewrite skip_newline. Qed.

Lemma value_blank n d t : value n d (32 :: t) = value n d t.
Proof. by destruct n. Qed.

Lemma members_newline n d k t : object_members n d (newline k ++ t) = object_members n d t.
Proof. destruct n as [|n]; [done|]. cbn [object_members]. by rewrite skip_newline. Qed.

Lemma stops_newline d t : stops (newline d ++ t).
Proof. right. right. by right. Qed.

Definition indent_back (v : json) : Prop :=
  wf_json v -> forall k n d rest, d + depth v <= maxNestingDepth -> (2 * length (indent k v) + 1 <= n)%nat -> stops rest ->
  value n d (indent k v ++ rest) = Some (coerced v, rest).

Lemma indent_array l k n d rest : l <> [] -> Forall indent_back l -> Forall wf_json l -> Forall (fun v => depth v <= maxNestingDepth - d) l ->
  (2 * length (commas (map (fun v => newline (S k) ++ indent (S k) v) l)) + 2 <= n)%nat ->
  array_elements n d (commas (map (fun v => newline (S k) ++ indent (S k) v) l) ++ newline k ++ 93 :: rest) = Some (map coerced l, rest).
Proof.
  intros Hl Hr. revert n. induction Hr as [|v l Hv Hr IH]; [done|]. intros [|n] [Hw Hws]%Forall_cons [Hd Hds]%Forall_cons Hn; [lia|].
  destruct l as [|v' l]; cbn [array_elements].
  - cbn [map commas Strings_Join] in *. rewrite length_app in Hn. rewrite <- app_assoc, value_newline.
    rewrite (Hv Hw (S k) n d) by (lia || apply stops_newline). cbn [mbind option_bind]. rewrite skip_newline. by rewrite skip_ws_id.
  - cbn [map] in *. rewrite commas_cons in *. rewrite !length_app in Hn. cbn [length] in Hn. rewrite <- !app_assoc. cbn [app]. rewrite value_newline.
    rewrite (Hv Hw (S k) n d (44 :: _)) by (cbn [stops]; lia || auto). cbn [mbind option_bind]. rewrite skip_ws_id by done.
    rewrite IH by (done || lia). done.
Qed.

Definition indented_member (k : nat) (kv : bytes * json) : bytes := newline (S k) ++ quote kv.1 ++ 58 :: 32 :: indent (S k) kv.2.

Lemma indent_member i v k n d tail : indent_back v -> wf_bytes i -> wf_json v -> d + depth v <= maxNestingDepth ->
  (2 * length (indent (S k) v) + 1 <= n)%nat -> stops tail ->
  object_members (S n) d (indented_member k (i, v) ++ tail) =
    match skip_ws tail with
    | 44 :: t => '(l, rest) ← object_members n d t; Some ((coerce i, coerced v) :: l, rest)
    | 125 :: t => Some ([(coerce i, coerced v)], t)
    | _ => None
    end.
Proof.
  intros Hv Hk Hw Hd Hn Ht. unfold indented_member. rewrite <- app_assoc, members_newline. unfold quote. cbn [fst snd]. cbn [object_members app].
  rewrite <- !app_assoc. cbn [app]. rewrite skip_ws_id, string_quote by done. cbn [mbind option_bind]. rewrite skip_ws_id by done.
  rewrite value_blank. by rewrite (Hv Hw (S k) n d tail).
Qed.

Lemma indent_object l k n d rest : l <> [] -> Forall (fun kv => indent_back kv.2) l ->
  Forall (fun kv => wf_bytes kv.1 /\ wf_json kv.2) l -> Forall (fun kv => depth kv.2 <= maxNestingDepth - d) l ->
  (2 * length (commas (map (indented_member k) l)) + 2 <= n)%nat ->
  object_members n d (commas (map (indented_member k) l) ++ newline k ++ 125 :: rest) = Some (map (fun kv => (coerce kv.1, coerced kv.2)) l, rest).
Proof.
  intros Hl Hr. revert n. induction Hr as [|[i v] l Hv Hr IH]; [done|].
  intros [|n] [[Hk Hw] Hws]%Forall_cons [Hd Hds]%Forall_cons Hn; cbn [fst snd] in *; [lia|].
  assert (length (indent (S k) v) + 3 <= length (indented_member k (i, v)))%nat
    by (unfold indented_member, quote; cbn [fst snd]; rewrite length_app; cbn [app length]; rewrite !length_app; cbn [length]; lia).
  destruct l as [|kv l].
  - cbn [map commas Strings_Join] in *. rewrite indent_member by (done || lia || apply stops_newline). rewrite skip_newline. by rewrite skip_ws_id.
  - cbn [map] in *. rewrite commas_cons in *. rewrite !length_app in Hn. cbn [length] in Hn. rewrite <- !app_assoc. cbn [app].
    rewrite indent_member by (done || lia || (cbn [stops]; auto)). rewrite skip_ws_id by done. rewrite IH by (done || lia). done.
Qed.

(** The nesting of the parts of a value. *)
Lemma depth_parts {A} (f : A -> Z) (l : list A) d : d + (1 + foldr Z.max 0 (map f l)) <= maxNestingDepth ->
  d < maxNestingDepth /\ Forall (fun v => f v <= maxNestingDepth - (d + 1)) l.
Proof.
  intros Hd. pose proof (foldr_max f l (maxNestingDepth - d - 1)) as Hm.
  assert (0 <= foldr Z.max 0 (map f l)) by (clear; induction l; cbn [map foldr]; lia).
  split; [lia|]. eapply Forall_impl; [apply Hm; lia|]. cbn. lia.
Qed.

(** The first byte. *)
Lemma indent_head k v : wf_json v -> exists c t, indent k v = c :: t /\ starts c.
Proof.
  intros Hw. destruct v as [| b |lit|s|[|v l]|[|kv l]]; try (by apply Marshal_head); cbn [indent]; by eexists _, _.
Qed.

Lemma value_indent v : indent_back v.
Proof.
  induction v as [| b |lit|s|l IH|l IH] using json_ind'; intros Hw k n d rest Hd Hn Hs;
    try (by apply value_Marshal); cbn [wf_json depth] in *; rewrite foldr_and in Hw.
  - destruct l as [|v l]; [by apply value_Marshal|]. destruct (depth_parts _ _ _ Hd) as [Hd1 Hds]. cbn [indent] in *. set (vs := v :: l) in *.
    cbn [length] in Hn. rewrite !length_app in Hn. destruct n as [|n]; [lia|]. cbn [app value]. rewrite skip_ws_id by done. cbn [Z.eqb Pos.eqb].
    rewrite (proj2 (Z.leb_gt _ _)) by done. rewrite <- !app_assoc. cbn [app].
    assert (nth 0 (skip_ws (commas (map (fun v => newline (S k) ++ indent (S k) v) vs) ++ newline k ++ 93 :: rest)) 0 =? 93 = false) as ->.
    { subst vs. cbn [map]. destruct (commas_head (newline (S k) ++ indent (S k) v) (map (fun v => newline (S k) ++ indent (S k) v) l) (newline k ++ 93 :: rest)) as [u ->].
      rewrite <- app_assoc, skip_newline. apply Forall_cons in Hw as [Hv _]. destruct (indent_head (S k) v Hv) as (c & t & -> & Hws & Hc & _).
      cbn [app]. rewrite skip_ws_id by done. cbn [nth]. lia. }
    rewrite (indent_array vs k n (d + 1) rest); [done|done|exact IH|exact Hw|exact Hds|lia].
  - destruct l as [|[i v] l]; [by apply value_Marshal|]. destruct (depth_parts _ _ _ Hd) as [Hd1 Hds]. cbn [indent] in *. set (vs := (i, v) :: l) in *.
    change (map (fun kv => newline (S k) ++ quote kv.1 ++ 58 :: 32 :: indent (S k) kv.2) vs) with (map (indented_member k) vs) in *.
    cbn [length] in Hn. rewrite !length_app in Hn. destruct n as [|n]; [lia|]. cbn [app value]. rewrite skip_ws_id by done. cbn [Z.eqb Pos.eqb].
    rewrite (proj2 (Z.leb_gt _ _)) by done. rewrite <- !app_assoc. cbn [app].
    assert (nth 0 (skip_ws (commas (map (indented_member k) vs) ++ newline k ++ 125 :: rest)) 0 =? 125 = false) as ->.
    { subst vs. cbn [map]. destruct (commas_head (indented_member k (i, v)) (map (indented_member k) l) (newline k ++ 125 :: rest)) as [u ->].
      unfold indented_member at 1. rewrite <- app_assoc, skip_newline. done. }
    rewrite (indent_object vs k n (d + 1) rest); [done|done|exact IH|exact Hw|exact Hds|lia].
Qed.

(** [MarshalIndent] is read as [Marshal] is. *)
Lemma parse_MarshalIndent v : wf_json v -> depth v <= maxNestingDepth -> parse (MarshalIndent v) = Some (coerced v).
Proof.
  intros Hw Hd. unfold parse, MarshalIndent. rewrite <- (app_nil_r (indent 0 v)) at 2.
  rewrite (value_indent v Hw) by (done || lia). done.
Qed.

(** * A signed summary *)

(** The strings of a summary, and its unsigned numbers. *)
Definition summary_strings (s : SummaryFile) : list bytes :=
  let b := sf_base s in
  sf_Finished s :: sm_KernelRelease b :: elements (dom (sm_DroppedCounts b)) ++ elements (dom (sm_PolicyCounts b)) ++
  concat (map (fun r => [bs_Name r; bs_Detail r]) (sm_BPF b)) ++ concat (map (fun w => [cw_Code w; cw_Detail w]) (sf_CompatWarnings s)).

Definition typed_summary (s : SummaryFile) : Prop :=
  let b := sf_base s in
  Forall wf_bytes (summary_strings s) /\
  Forall (fun v => 0 <= v) [sm_IPv6ConnectObserved b; sm_IPv6SendmsgObserved b; sm_SendpageObserved b; sm_QuicObserved b].

Lemma wf_counts k m : Forall wf_bytes (elements (dom m)) -> wf_members [(str k, counts_json m)].
Proof.
  intros Hm. destruct (wf_map_json (fun v => JNum (Itoa v)) m Hm) as [Hw Hd]; [|apply wf_cons; [exact Hw|unfold counts_json; lia|apply wf_nil]].
  apply Forall_true. intros v. split; [apply valid_Itoa|cbn; lia].
Qed.

Lemma wf_decide {P : Prop} `{Decision P} l : wf_members l -> wf_members (if decide P then [] else l).
Proof. intros. case_decide; [apply wf_nil|done]. Qed.

(** An array of small objects. *)
Lemma wf_objects {A} k (f : A -> json) (g : A -> list bytes) l :
  (forall a, Forall wf_bytes (g a) -> wf_json (f a) /\ depth (f a) <= 1) -> Forall wf_bytes (concat (map g l)) -> wf_members [(str k, JArr (map f l))].
Proof.
  intros Hf H. destruct (wf_array (map f l)) as [Hw Hd]; [|by apply wf_cons; [..|apply wf_nil]].
  apply Forall_fmap. induction l as [|a l IH]; [constructor|]. cbn [map concat] in H. apply Forall_app in H as [Ha H]. constructor; [by apply Hf|auto].
Qed.

Lemma wf_CompatWarning_json w : Forall wf_bytes [cw_Code w; cw_Detail w] -> wf_json (CompatWarning_json w) /\ depth (CompatWarning_json w) <= 1.
Proof. intros H. typed. apply wf_leaf_members; auto 10 with wfm. Qed.

Lemma wf_head s : typed_summary s -> wf_members (head_members s).
Proof.
  intros [Hs Hu]. unfold summary_strings in Hs. typed. unfold head_members. repeat apply wf_app; auto with wfm; try apply wf_decide; try by apply wf_counts.
  - apply (wf_objects _ _ (fun r => [bs_Name r; bs_Detail r])); [|done]. intros a Ha. typed. by apply wf_BPFStatus_json.
  - apply (wf_objects _ _ (fun w => [cw_Code w; cw_Detail w])); [|done]. exact wf_CompatWarning_json.
Qed.

Lemma head_keys s : keyed (fun k => k <> str "signature") (head_members s).
Proof.
  unfold head_members. repeat apply keyed_app; try case_decide; auto with keyed; (apply keyed_one || constructor); discriminate.
Qed.

Section Published.
Context (Sign : bytes -> bytes -> bytes) (Verify : bytes -> bytes -> bytes -> bool).

(** How a summary is checked: what was signed is the JSON of its members
    without the signature. *)
Definition verifySummary (key text : bytes) : bool :=
  match parse text with
  | Some (JObj l) =>
    match list_find (fun kv => kv.1 = str "signature") l with
    | Some (_, (_, JStr b64)) =>
      match DecodeString b64 with
      | Some sig => Verify key (Marshal (JObj (filter (fun kv => kv.1 <> str "signature") l))) sig
      | None => false
      end
    | _ => false
    end
  | _ => false
  end.

Lemma filter_keys (k : bytes) (l : members_of) : keyed (fun k' => k' <> k) l -> filter (fun kv => kv.1 <> k) l = l.
Proof. intros H. apply filter_all, Forall_forall. exact H. Qed.

Lemma find_member (k : bytes) v (a b : members_of) : keyed (fun k' => k' <> k) a ->
  exists i, list_find (fun kv : bytes * json => kv.1 = k) (a ++ (k, v) :: b) = Some (i, (k, v)).
Proof.
  induction 1 as [|[k' v'] a Hk _ [i IH]]; cbn [app list_find fst].
  - rewrite decide_True by done. eauto.
  - cbn in Hk. rewrite decide_False by done. rewrite IH. cbn. eauto.
Qed.

Lemma encoded_nonempty s : s <> [] -> EncodeToString s <> [].
Proof. by destruct s as [|a [|b [|c s]]]. Qed.

Lemma head_withSignature signer s : head_members (withSignature Sign signer s) = head_members s.
Proof. by destruct signer. Qed.

(** Base64 text needs no escape. *)
Lemma b64_member k s : wf_bytes s -> coerce (str k) = str k -> Forall (fun kv => coerce kv.1 = kv.1 /\ fixed kv.2) (str_oe k (EncodeToString s)) /\
  wf_members (str_oe k (EncodeToString s)).
Proof.
  intros Hw Hk. pose proof (b64_text _ Hw) as Hb. assert (wf_bytes (EncodeToString s)) by (eapply Forall_impl; [exact Hb|]; unfold is_byte; cbn; lia).
  split; [|auto with wfm]. unfold str_oe. case_decide; [constructor|]. constructor; [|constructor]. split; [done|]. unfold fixed. cbn [coerced snd].
  f_equal. apply ascii_coerce. eapply Forall_impl; [exact Hb|]. cbn. lia.
Qed.

Lemma signed_summary sg s now : (forall k m, wf_bytes (Sign k m) /\ Sign k m <> []) -> wf_bytes (pub sg) ->
  (forall m, Verify (pub sg) m (Sign (priv sg) m) = true) -> typed_summary (withDefaults now s) -> fixed (Summary_json (withDefaults now s)) ->
  let text := summaryText Sign s (Some sg) now in
  verifySummary (pub sg) text = true /\ parse text = Some (Summary_json (withSignature Sign (Some sg) (withDefaults now s))).
Proof.
  intros Hsig Hpub Hver Ht Hfix text. set (s1 := withDefaults now s) in *. set (s2 := withSignature Sign (Some sg) s1).
  assert (parse text = Some (Summary_json s2)) as Ep.
  { destruct (Hsig (priv sg) (Marshal (Summary_json (mkSummaryFile (sf_base s1) (sf_Finished s1) (sf_CompatWarnings s1) [] (PublicKey (Some sg)))))) as [Hw _].
    destruct (b64_member "signature" _ Hw ltac:(vm_compute; reflexivity)) as [Hsf Hsw]. destruct (b64_member "public_key" _ Hpub ltac:(vm_compute; reflexivity)) as [Hpf Hpw].
    destruct (wf_object_at 2 (head_members s2 ++ str_oe "signature" (sf_Signature s2) ++ str_oe "public_key" (sf_PublicKey s2))) as [Hj Hd]; [lia| |].
    - apply wf_app; [subst s2; rewrite head_withSignature; by apply wf_head|]. apply wf_app; [exact Hsw|exact Hpw].
    - unfold text, summaryText. rewrite parse_MarshalIndent; [|exact Hj|eapply Z.le_trans; [exact Hd|done]].
      f_equal. unfold Summary_json in Hfix. change (fixed (Summary_json s2)). unfold Summary_json. rewrite fixed_obj, !Forall_app in *.
      subst s2. rewrite head_withSignature. by destruct Hfix as [? _]. }
  split; [|exact Ep]. unfold verifySummary. rewrite Ep. unfold Summary_json. subst s2. rewrite head_withSignature.
  set (unsigned := mkSummaryFile (sf_base s1) (sf_Finished s1) (sf_CompatWarnings s1) [] (PublicKey (Some sg))).
  change (sf_Signature (withSignature Sign (Some sg) s1)) with (EncodeToString (Sign (priv sg) (Marshal (Summary_json unsigned)))).
  change (sf_PublicKey (withSignature Sign (Some sg) s1)) with (PublicKey (Some sg)).
  destruct (Hsig (priv sg) (Marshal (Summary_json unsigned))) as [Hw Hne]. unfold str_oe at 1 3. rewrite !decide_False by by apply encoded_nonempty.
  unfold fstr at 1 2. pose proof (head_keys s1) as Hk. destruct (find_member (str "signature") (JStr (EncodeToString (Sign (priv sg) (Marshal (Summary_json unsigned))))) _ (str_oe "public_key" (PublicKey (Some sg))) Hk) as [i Ei].
  cbn [app]. rewrite Ei, DecodeString_EncodeToString by done. rewrite filter_app, filter_cons_False by (cbn; auto). rewrite !filter_keys by (done || auto with keyed).
  assert (Marshal (JObj (head_members s1 ++ str_oe "public_key" (PublicKey (Some sg)))) = Marshal (Summary_json unsigned)) as -> by done. apply Hver.
Qed.

(** While a signed summary is written, whatever fails, a reader at any moment
    finds the old file or the whole new one; the new one verifies against the
    signer's key and reads back as the summary with its defaults, the key and
    the signature.  (The hypothesis that [coerced] leaves the summary alone says
    that its strings are UTF-8: see [invalid_text_unverified].) *)
Theorem summary_published sg path s now io d : (forall k m, wf_bytes (Sign k m) /\ Sign k m <> []) -> wf_bytes (pub sg) ->
  (forall m, Verify (pub sg) m (Sign (priv sg) m) = true) -> typed_summary (withDefaults now s) -> fixed (Summary_json (withDefaults now s)) ->
  path <> [] -> (forall tmp, io_create io = Some tmp -> d !! tmp = None /\ tmp <> path) ->
  let run := WriteSummary Sign path s (Some sg) now io d in
  exists text, Forall (fun d' => d' !! path = d !! path \/ d' !! path = Some text) run.1 /\
    (exists states d', run.1 = states ++ [d'] /\ match run.2 with Ok _ => d' !! path = Some text | Err _ => d' !! path = d !! path end) /\
    verifySummary (pub sg) text = true /\ parse text = Some (Summary_json (withSignature Sign (Some sg) (withDefaults now s))).
Proof.
  intros Hsig Hpub Hver Ht Hfix Hp Hfresh run. exists (summaryText Sign s (Some sg) now). subst run. unfold WriteSummary. rewrite decide_False by done.
  destruct (Bytes_final path (summaryText Sign s (Some sg) now) 0x1A4 io d Hfresh) as (states & d' & E & Hd).
  split; [by apply Bytes_states|]. split; [|by apply signed_summary]. exists states, d'. split; [done|].
  destruct ((Readiness.Bytes _ _ _ _ _).2); [subst d'; by rewrite lookup_insert_eq|by destruct Hd].
Qed.
End Published.

(** * Witness *)
Module Witness.
Definition key : Signer := mkSigner (EventLog.Witness.toy_key EventLog.Witness.toy_seed) EventLog.Witness.toy_seed.
Definition toy_sign (k m : bytes) : bytes := 1 :: EventLog.Witness.toy_sign k m.
Definition toy_verify (p m s : bytes) : bool := bool_decide (s = 1 :: map (fun b => b mod 256) (p ++ m)).
Definition detail (s : bytes) : SummaryFile :=
  shutdownSummary (addDropped (str "tls") (bumpc tcpN newRunStats)) (str "6.8.0") [mkBPFStatus (str "btf") true [] true]
    [mkCompatWarning CompatCodeDeepCgroupNesting s].

Lemma toy_sign_nonempty k m : wf_bytes (toy_sign k m) /\ toy_sign k m <> [].
Proof. split; [|done]. constructor; [by split|]. apply EventLog.Witness.toy_sign_wf. Qed.

(** What is signed has the escape of an invalid byte, what is read has U+FFFD. *)
Example invalid_text_unverified : map (fun s => verifySummary toy_verify (pub key) (summaryText toy_sign (detail s) (Some key) 0)) [str "/a"; [47; 255]] = [true; false].
Proof. vm_compute. reflexivity. Qed.

Lemma summary_published_witness : let run := WriteSummary toy_sign (str "/w/t.json") (detail (str "/a")) (Some key) 0 (mkIO (Some (str "/w/x")) None false false false false false) ∅ in
  exists text, Forall (fun d' : gmap bytes bytes => d' !! str "/w/t.json" = (∅ : gmap bytes bytes) !! str "/w/t.json" \/ d' !! str "/w/t.json" = Some text) run.1 /\
    (exists states d', run.1 = states ++ [d'] /\ match run.2 with Ok _ => d' !! str "/w/t.json" = Some text | Err _ => d' !! str "/w/t.json" = (∅ : gmap bytes bytes) !! str "/w/t.json" end) /\
    verifySummary toy_verify (pub key) text = true /\ parse text = Some (Summary_json (withSignature toy_sign (Some key) (withDefaults 0 (detail (str "/a"))))).
Proof.
  apply (summary_published toy_sign toy_verify).
  - exact toy_sign_nonempty.
  - apply (bool_decide_unpack _). vm_compute. exact I.
  - intros m. unfold toy_verify. apply bool_decide_eq_true_2. reflexivity.
  - split; apply (bool_decide_unpack _); vm_compute; exact I.
  - vm_compute. reflexivity.
  - discriminate.
  - intros tmp [= <-]. split; [apply lookup_empty|discriminate].
Defined.
End Witness.
