(* ===== verification/CgroupHooks.v ===== *)
(** The cgroup hooks of bpf/trace_defend_cgroup.inc, with the deny records they
    submit (bpf/defend_policy.inc, bpf/deny_event.h), and what the agent makes of
    these records.

    A context holds its address and port as the kernel stores them, in network
    byte order.  The decision of an IPv4 hook on the maps is [kernel_allows] of
    DefendMaps. *)
From S2P Require Import Prelude GoStrings GoNet BpfMap Policy Allowlist DnsCache Decode DefendMaps Telemetry Config Defend.

Open Scope Z_scope.

(** * The hooks *)

Definition IPPROTO_UDP : Z := 17.
Definition COLDSTEP_PROTO_TCP : Z := 1.
Definition COLDSTEP_PROTO_UDP : Z := 2.
Definition COLDSTEP_DENY_REASON_DST_NOT_ALLOWLISTED : Z := 1.
Definition AF_INET : Z := 2.
Definition AF_INET6 : Z := 10.

(** [struct bpf_sock_addr]. *)
Record sockAddr := mkSockAddr { sa_protocol : Z; user_ip4 : bytes; user_ip6 : bytes; user_port : bytes }.

(** The current task: [bpf_get_current_pid_tgid], [bpf_get_current_comm]. *)
Record task := mkTask { pid_tgid : Z; task_comm : bytes }.

(** What the hooks write: the records submitted to the ring, and the counters
    (u32) of this CPU. *)
Record hookState := mkHookState { deny_events : list bytes; deny_reserve_failures : Z; ipv6_connect_observed : Z; ipv6_sendmsg_observed : Z }.

Definition cg_protocol_from_sock_ctx (ctx : sockAddr) : Z :=
  if sa_protocol ctx =? IPPROTO_UDP then COLDSTEP_PROTO_UDP else COLDSTEP_PROTO_TCP.

Definition note_deny_ring_reserve_failed (st : hookState) : hookState :=
  mkHookState (deny_events st) ((deny_reserve_failures st + 1) mod 2 ^ 32) (ipv6_connect_observed st) (ipv6_sendmsg_observed st).

(** [struct deny_event], packed. *)
Definition deny_record (t : task) (protocol reason af : Z) (daddr dport : bytes) : bytes :=
  le_bytes 4 (Z.shiftr (pid_tgid t) 32) ++ le_bytes 4 (pid_tgid t mod 2 ^ 32) ++ task_comm t ++ [protocol] ++ [reason] ++ [af] ++ [0] ++ daddr ++ dport.

(** [bpf_ringbuf_reserve] finds room, or not. *)
Definition submit (room : bool) (raw : bytes) (st : hookState) : hookState :=
  if room then mkHookState (deny_events st ++ [raw]) (deny_reserve_failures st) (ipv6_connect_observed st) (ipv6_sendmsg_observed st)
  else note_deny_ring_reserve_failed st.

Definition emit_deny_event_ipv4 (t : task) (room : bool) (protocol : Z) (dst4 dport : bytes) (reason : Z) (st : hookState) : hookState :=
  submit room (deny_record t protocol reason AF_INET (dst4 ++ replicate 12 0) dport) st.

Definition cg_emit_deny_event_ipv6 (t : task) (room : bool) (protocol : Z) (ctx : sockAddr) (dport : bytes) (reason : Z) (st : hookState) : hookState :=
  submit room (deny_record t protocol reason AF_INET6 (user_ip6 ctx) dport) st.

(** The maps of the section: those of the IPv4 side, and the IPv6 trie. *)
Record cgroupMaps := mkCgroupMaps { cg_maps : kernelMaps; cg_allowed_ipv6 : gmap bytes Z }.

(** The result is true where the hook returns 1. *)
Definition defend_cgroup_sock_addr_ipv4 (k : cgroupMaps) (t : task) (room : bool) (ctx : sockAddr) (st : hookState) : bool * hookState :=
  let daddr := user_ip4 ctx in
  if negb (defense_enabled (cg_maps k)) then (true, st)
  else if dst_in_ignored (cg_maps k) daddr then (true, st)
  else if dst_is_allowlisted (cg_maps k) daddr then (true, st)
  else (false, emit_deny_event_ipv4 t room (cg_protocol_from_sock_ctx ctx) daddr (user_port ctx) COLDSTEP_DENY_REASON_DST_NOT_ALLOWLISTED st).

(** [ctx->user_ip6[i]]. *)
Definition word (i : nat) (ip : bytes) : bytes := take 4 (drop (4 * i) ip).

Definition cg_ipv6_is_loopback (ctx : sockAddr) : bool :=
  bool_decide (word 0 (user_ip6 ctx) = [0; 0; 0; 0]) && bool_decide (word 1 (user_ip6 ctx) = [0; 0; 0; 0]) &&
  bool_decide (word 2 (user_ip6 ctx) = [0; 0; 0; 0]) && bool_decide (word 3 (user_ip6 ctx) = be_bytes 4 1).

Definition cg_ipv6_is_unspecified (ctx : sockAddr) : bool :=
  bool_decide (word 0 (user_ip6 ctx) = [0; 0; 0; 0]) && bool_decide (word 1 (user_ip6 ctx) = [0; 0; 0; 0]) &&
  bool_decide (word 2 (user_ip6 ctx) = [0; 0; 0; 0]) && bool_decide (word 3 (user_ip6 ctx) = [0; 0; 0; 0]).

Definition cg_ipv6_is_link_local (ctx : sockAddr) : bool :=
  bool_decide (land_bytes (word 0 (user_ip6 ctx)) (be_bytes 4 0xffc00000) = be_bytes 4 0xfe800000).

Definition cg_ipv6_is_v4mapped (ctx : sockAddr) : bool :=
  bool_decide (word 0 (user_ip6 ctx) = [0; 0; 0; 0]) && bool_decide (word 1 (user_ip6 ctx) = [0; 0; 0; 0]) &&
  bool_decide (word 2 (user_ip6 ctx) = be_bytes 4 0x0000ffff).

Definition cg_ipv6_is_allowlisted (k : cgroupMaps) (ctx : sockAddr) : bool := trie_hit 16 (cg_allowed_ipv6 k) (user_ip6 ctx).

Inductive observeMap := ObserveConnect | ObserveSendmsg.

Definition cg_bump_percpu_u32 (m : observeMap) (st : hookState) : hookState :=
  match m with
  | ObserveConnect => mkHookState (deny_events st) (deny_reserve_failures st) ((ipv6_connect_observed st + 1) mod 2 ^ 32) (ipv6_sendmsg_observed st)
  | ObserveSendmsg => mkHookState (deny_events st) (deny_reserve_failures st) (ipv6_connect_observed st) ((ipv6_sendmsg_observed st + 1) mod 2 ^ 32)
  end.

Definition defend_cgroup_sock_addr_ipv6 (observe : observeMap) (k : cgroupMaps) (t : task) (room : bool) (ctx : sockAddr) (st : hookState) : bool * hookState :=
  let protocol := cg_protocol_from_sock_ctx ctx in
  if cg_ipv6_is_loopback ctx then (true, st)
  else if cg_ipv6_is_unspecified ctx then (true, st)
  else if cg_ipv6_is_link_local ctx then (true, st)
  else if cg_ipv6_is_v4mapped ctx then
    let v4 := word 3 (user_ip6 ctx) in
    if negb (defense_enabled (cg_maps k)) then (true, st)
    else if dst_in_ignored (cg_maps k) v4 then (true, st)
    else if dst_is_allowlisted (cg_maps k) v4 then (true, st)
    else (false, emit_deny_event_ipv4 t room protocol v4 (user_port ctx) COLDSTEP_DENY_REASON_DST_NOT_ALLOWLISTED st)
  else
    let st := cg_bump_percpu_u32 observe st in
    if negb (defense_enabled (cg_maps k)) then (true, st)
    else if cg_ipv6_is_allowlisted k ctx then (true, st)
    else (false, cg_emit_deny_event_ipv6 t room protocol ctx (user_port ctx) COLDSTEP_DENY_REASON_DST_NOT_ALLOWLISTED st).

(** The four programs. *)
Inductive hook := defend_connect4 | defend_sendmsg4 | defend_cgroup_connect6 | defend_cgroup_sendmsg6.

Definition run_hook (h : hook) : cgroupMaps -> task -> bool -> sockAddr -> hookState -> bool * hookState :=
  match h with
  | defend_connect4 | defend_sendmsg4 => defend_cgroup_sock_addr_ipv4
  | defend_cgroup_connect6 => defend_cgroup_sock_addr_ipv6 ObserveConnect
  | defend_cgroup_sendmsg6 => defend_cgroup_sock_addr_ipv6 ObserveSendmsg
  end.

Definition is_v6 (h : hook) : bool := match h with defend_connect4 | defend_sendmsg4 => false | _ => true end.

(** * The decision *)

Lemma words ip : length ip = 16%nat -> ip = word 0 ip ++ word 1 ip ++ word 2 ip ++ word 3 ip.
Proof. destruct ip as [|b0 [|b1 [|b2 [|b3 [|b4 [|b5 [|b6 [|b7 [|b8 [|b9 [|b10 [|b11 [|b12 [|b13 [|b14 [|b15 [|]]]]]]]]]]]]]]]]]; done. Qed.

(** An address is known by its words. *)
Lemma words_eq ip a b c d : length ip = 16%nat -> length a = 4%nat -> length b = 4%nat -> length c = 4%nat ->
  ip = a ++ b ++ c ++ d <-> word 0 ip = a /\ word 1 ip = b /\ word 2 ip = c /\ word 3 ip = d.
Proof.
  intros Hl Ha Hb Hc. split.
  - intros E. rewrite (words ip Hl) in E.
    assert (length (word 0 ip) = 4 /\ length (word 1 ip) = 4 /\ length (word 2 ip) = 4)%nat as (H0 & H1 & H2) by (unfold word; rewrite !length_take, !length_drop, Hl; done).
    apply app_inj_1 in E as [-> E]; [|congruence]. apply app_inj_1 in E as [-> E]; [|congruence]. by apply app_inj_1 in E as [-> ->]; [|congruence].
  - intros (<- & <- & <- & <-). by apply words.
Qed.

Lemma unspecified_spec ctx : length (user_ip6 ctx) = 16%nat -> cg_ipv6_is_unspecified ctx = bool_decide (user_ip6 ctx = replicate 16 0).
Proof.
  intros Hl. apply eq_true_iff_eq. unfold cg_ipv6_is_unspecified. rewrite !andb_true_iff, !bool_decide_eq_true.
  rewrite (words_eq _ [0; 0; 0; 0] [0; 0; 0; 0] [0; 0; 0; 0] [0; 0; 0; 0] Hl) by done. tauto.
Qed.

Lemma loopback_spec ctx : length (user_ip6 ctx) = 16%nat -> cg_ipv6_is_loopback ctx = bool_decide (user_ip6 ctx = IPv6loopback).
Proof.
  intros Hl. apply eq_true_iff_eq. unfold cg_ipv6_is_loopback. rewrite !andb_true_iff, !bool_decide_eq_true.
  rewrite (words_eq _ [0; 0; 0; 0] [0; 0; 0; 0] [0; 0; 0; 0] (be_bytes 4 1) Hl) by done. tauto.
Qed.

Lemma v4mapped_spec ctx : length (user_ip6 ctx) = 16%nat ->
  To4 (user_ip6 ctx) = if cg_ipv6_is_v4mapped ctx then Some (word 3 (user_ip6 ctx)) else None.
Proof.
  intros Hl. unfold cg_ipv6_is_v4mapped. pose proof (words _ Hl) as E. set (ip := user_ip6 ctx) in *. destruct (To4 ip) as [v|] eqn:E4.
  - pose proof (To4_length _ _ E4) as Hv. apply To4_16_inv in E4; [|done].
    apply (words_eq _ [0; 0; 0; 0] [0; 0; 0; 0] (be_bytes 4 0x0000ffff) v Hl) in E4 as (-> & -> & -> & ->); done.
  - destruct (_ && _) eqn:Eb; [|done]. rewrite !andb_true_iff, !bool_decide_eq_true in Eb. destruct Eb as [[H0 H1] H2].
    rewrite E, H0, H1, H2 in E4. change ([0; 0; 0; 0] ++ [0; 0; 0; 0] ++ be_bytes 4 0x0000ffff ++ word 3 ip) with (v4InV6Prefix ++ word 3 ip) in E4.
    rewrite To4_mapped in E4; [done|]. unfold word. by rewrite length_take, length_drop, Hl.
Qed.

Lemma link_local_spec ctx : length (user_ip6 ctx) = 16%nat -> wf_bytes (user_ip6 ctx) -> cg_ipv6_is_link_local ctx = link_local_bytes (user_ip6 ctx).
Proof.
  intros Hl Hw. unfold cg_ipv6_is_link_local. destruct (user_ip6 ctx) as [|b0 [|b1 [|b2 [|b3 s]]]]; try done.
  apply Forall_cons in Hw as [H0 _]. change (word 0 (b0 :: b1 :: b2 :: b3 :: s)) with [b0; b1; b2; b3].
  change (be_bytes 4 0xffc00000) with [0xff; 0xc0; 0; 0]. change (be_bytes 4 0xfe800000) with [0xfe; 0x80; 0; 0].
  unfold land_bytes. cbn [zip_with link_local_bytes]. rewrite land_ff_id, !Z.land_0_r by done.
  apply eq_true_iff_eq. rewrite bool_decide_eq_true, andb_true_iff, !Z.eqb_eq. split; [by intros [= -> ->]|by intros [-> ->]].
Qed.

(** The decision of an IPv6 hook. *)
Definition allows6 (k : cgroupMaps) (ip : bytes) : bool :=
  bool_decide (ip = replicate 16 0) || IPv6BypassesDefend ip ||
  match To4 ip with
  | Some v4 => kernel_allows (cg_maps k) v4
  | None => negb (defense_enabled (cg_maps k)) || trie_hit 16 (cg_allowed_ipv6 k) ip
  end.

Lemma hook4_decides k t room ctx st : (defend_cgroup_sock_addr_ipv4 k t room ctx st).1 = kernel_allows (cg_maps k) (user_ip4 ctx).
Proof. unfold defend_cgroup_sock_addr_ipv4, kernel_allows. by repeat case_match. Qed.

Lemma hook6_decides o k t room ctx st : length (user_ip6 ctx) = 16%nat -> wf_bytes (user_ip6 ctx) ->
  (defend_cgroup_sock_addr_ipv6 o k t room ctx st).1 = allows6 k (user_ip6 ctx).
Proof.
  intros Hl Hw. unfold defend_cgroup_sock_addr_ipv6, allows6, IPv6BypassesDefend. rewrite unspecified_spec, loopback_spec, link_local_spec by done.
  rewrite decide_False by (by intros E; rewrite E in Hl). rewrite v4mapped_spec by done. destruct (cg_ipv6_is_v4mapped ctx) eqn:Em.
  - pose proof (v4mapped_spec ctx Hl) as E4. rewrite Em in E4. apply To4_16_inv in E4; [|done].
    rewrite bool_decide_false by (by rewrite E4). rewrite bool_decide_false by (by rewrite E4). assert (link_local_bytes (user_ip6 ctx) = false) as -> by by rewrite E4.
    unfold kernel_allows. by repeat case_match.
  - rewrite To16_v6 by done. unfold IsLoopback. rewrite v4mapped_spec, Em by done. unfold cg_ipv6_is_allowlisted.
    repeat case_bool_decide; cbn [orb]; by repeat case_match.
Qed.

Section Enforce.
Context `{!RangeOrder bytes} {M : Type} `{!BpfMapOps bytes Z M} `{!BpfMapLaws bytes Z M} `{!BpfMapExact bytes Z M}.

(** C7: The IPv6 hooks enforce the policy.  Programming the IPv6 allowlist of a
    built policy never dereferences a nil network; when it succeeds on an empty
    trie, an IPv6 hook in defend mode lets a destination pass exactly when it is
    ::, is bypassed by the agent's own predicate (::1, fe80::/10), holds an IPv4
    address that the IPv4 hook lets pass, or is a native IPv6 address that was
    resolved from an allowed domain, is an allowed literal, or is in an allowed
    network. *)
Theorem ipv6_hooks_enforce_policy `{UnicodeCase} hosts addrs ign on p compiled (m0 : M) :
  BuildPolicyEx hosts addrs ign on = Ok p ->
  (forall k, k ∈ AllowedIPv6 compiled -> length k = 16%nat /\ wf_bytes k) -> bm_view m0 = ∅ ->
  exists m r, populateAllowedIPv6Map (Some m0) compiled (Some p) = Ret (Some m, r) /\
    forall n km observe t room ctx st, r = Ok n -> defense_enabled km = true -> length (user_ip6 ctx) = 16%nat -> wf_bytes (user_ip6 ctx) ->
      (defend_cgroup_sock_addr_ipv6 observe (mkCgroupMaps km (bm_view m)) t room ctx st).1 = true <->
        user_ip6 ctx = replicate 16 0 \/ IPv6BypassesDefend (user_ip6 ctx) = true \/
        (exists v4, To4 (user_ip6 ctx) = Some v4 /\
           (defend_cgroup_sock_addr_ipv4 (mkCgroupMaps km (bm_view m)) t room (mkSockAddr (sa_protocol ctx) v4 (user_ip6 ctx) (user_port ctx)) st).1 = true) \/
        To4 (user_ip6 ctx) = None /\
          (user_ip6 ctx ∈ AllowedIPv6 compiled \/ user_ip6 ctx ∈ ipv6s p \/ exists net, Some net ∈ ipv6nets p /\ IPNet_Contains net (user_ip6 ctx) = true).
Proof.
  intros HB Hc H0. destruct (ipv6_trie_exact hosts addrs ign on p compiled m0 HB Hc H0) as (m & r & E & Ht). exists m, r. split; [done|].
  intros n km o t room ctx st Hr Hd Hl Hw. destruct (Ht n Hr) as [_ Hhit]. rewrite hook6_decides by done. setoid_rewrite hook4_decides.
  unfold allows6. cbn [cg_maps cg_allowed_ipv6 user_ip4]. rewrite !orb_true_iff, bool_decide_eq_true, Hd. cbn [negb orb].
  destruct (To4 (user_ip6 ctx)) as [v4|] eqn:E4.
  - assert (kernel_allows km v4 = true <-> exists v, Some v4 = Some v /\ kernel_allows km v = true) as -> by (split; [by exists v4|by intros (v & [= ->] & ?)]).
    split; [tauto|]. intros [?|[?|[?|[? _]]]]; [tauto..|done].
  - rewrite Hhit by done. split; [tauto|]. intros [?|[?|[(v & ? & _)|[_ ?]]]]; [tauto..|done|tauto].
Qed.
End Enforce.

(** * The records *)

Definition wf_task (t : task) : Prop := 0 <= pid_tgid t < 2 ^ 64 /\ length (task_comm t) = 16%nat /\ wf_bytes (task_comm t).
Record wf_sockAddr (ctx : sockAddr) : Prop := {
  wf_ip4 : length (user_ip4 ctx) = 4%nat /\ wf_bytes (user_ip4 ctx);
  wf_ip6 : length (user_ip6 ctx) = 16%nat /\ wf_bytes (user_ip6 ctx);
  wf_port : length (user_port ctx) = 2%nat /\ wf_bytes (user_port ctx) }.

Definition protocol_name (ctx : sockAddr) : bytes := if sa_protocol ctx =? IPPROTO_UDP then str "udp" else str "tcp".

(** The destination as the agent holds it: an IPv4 address in 16 bytes. *)
Definition hook_dst (h : hook) (ctx : sockAddr) : bytes := if is_v6 h then user_ip6 ctx else v4_mapped (user_ip4 ctx).

(** The agent's decoder inverts the record. *)
Lemma deny_record_decodes t ctx af daddr : wf_task t -> wf_sockAddr ctx -> length daddr = 16%nat ->
  decodeDenyEvent (deny_record t (cg_protocol_from_sock_ctx ctx) COLDSTEP_DENY_REASON_DST_NOT_ALLOWLISTED af daddr (user_port ctx)) =
  Ret (Some (mkDenyEvent (Z.shiftr (pid_tgid t) 32) (pid_tgid t mod 2 ^ 32) (task_comm t) (cg_protocol_from_sock_ctx ctx) 1 af daddr (be_val (user_port ctx)))).
Proof.
  intros (Hp & Hc & _) [_ _ [Hl Hw]] Hd.
  rewrite <- (deny_layout (mkDenyEvent (Z.shiftr (pid_tgid t) 32) (pid_tgid t mod 2 ^ 32) (task_comm t) (cg_protocol_from_sock_ctx ctx) 1 af daddr (be_val (user_port ctx))) 0 []).
  - unfold deny_event, deny_record. cbn [dn_tgid dn_tid dn_comm dn_protocol dn_reason dn_af dn_daddr16 dn_dport concat]. rewrite !app_nil_r.
    rewrite <- Hl, be_bytes_be_val by done. done.
  - unfold u32. cbn. rewrite Z.shiftr_div_pow2 by lia. split; [apply Z.div_pos; lia|apply Z.div_lt_upper_bound; lia].
  - unfold u32. cbn [dn_tid]. apply Z.mod_pos_bound. lia.
  - unfold len. cbn [dn_comm]. by rewrite Hc.
  - unfold len. cbn [dn_daddr16]. by rewrite Hd.
  - unfold u16. cbn [dn_dport]. pose proof (be_val_bounds (user_port ctx) Hw) as Hb. unfold len in Hb. rewrite Hl in Hb. exact Hb.
Qed.

(** What a hook does besides deciding: where it lets pass, no record and no
    failure; where it denies, one record for the destination or a failure. *)
Definition effect_of (dst : bytes) (t : task) (room : bool) (ctx : sockAddr) (st : hookState) (r : bool * hookState) : Prop :=
  if r.1 then deny_events r.2 = deny_events st /\ deny_reserve_failures r.2 = deny_reserve_failures st
  else exists af daddr, length daddr = 16%nat /\ (forall d, dn_af d = af -> dn_daddr16 d = daddr -> dstOf d = Some dst) /\
    (af = AF_INET \/ To4 dst = None) /\
    let raw := deny_record t (cg_protocol_from_sock_ctx ctx) COLDSTEP_DENY_REASON_DST_NOT_ALLOWLISTED af daddr (user_port ctx) in
    deny_events r.2 = deny_events (submit room raw st) /\ deny_reserve_failures r.2 = deny_reserve_failures (submit room raw st).

Lemma effect_ipv4 t room ctx st a : length a = 4%nat ->
  effect_of (v4_mapped a) t room ctx st (false, emit_deny_event_ipv4 t room (cg_protocol_from_sock_ctx ctx) a (user_port ctx) COLDSTEP_DENY_REASON_DST_NOT_ALLOWLISTED st).
Proof.
  intros Ha. exists AF_INET, (a ++ replicate 12 0). split; [by rewrite length_app, length_replicate, Ha|]. split; [|split; [by left|done]].
  intros d Haf Hd. unfold dstOf. rewrite Haf, Hd. change (AF_INET =? linuxAFInet) with true. by rewrite <- Ha, take_app_length.
Qed.

Lemma hook4_effect k t room ctx st : length (user_ip4 ctx) = 4%nat ->
  effect_of (v4_mapped (user_ip4 ctx)) t room ctx st (defend_cgroup_sock_addr_ipv4 k t room ctx st).
Proof.
  intros Hl. unfold defend_cgroup_sock_addr_ipv4. destruct (negb _); [done|]. destruct (dst_in_ignored _ _); [done|].
  destruct (dst_is_allowlisted _ _); [done|]. by apply effect_ipv4.
Qed.

Lemma hook6_effect o k t room ctx st : length (user_ip6 ctx) = 16%nat ->
  effect_of (user_ip6 ctx) t room ctx st (defend_cgroup_sock_addr_ipv6 o k t room ctx st).
Proof.
  intros Hl. unfold defend_cgroup_sock_addr_ipv6. pose proof (v4mapped_spec ctx Hl) as Em.
  destruct (cg_ipv6_is_loopback ctx), (cg_ipv6_is_unspecified ctx), (cg_ipv6_is_link_local ctx); try done. destruct (cg_ipv6_is_v4mapped ctx).
  - pose proof (To4_length _ _ Em) as Hv. apply To4_16_inv in Em; [|done].
    destruct (negb _); [done|]. destruct (dst_in_ignored _ _); [done|]. destruct (dst_is_allowlisted _ _); [done|].
    pose proof (effect_ipv4 t room ctx st _ Hv) as He. unfold v4_mapped in He. by rewrite <- Em in He.
  - destruct (negb _); [by destruct o|]. destruct (cg_ipv6_is_allowlisted _ _); [by destruct o|]. exists AF_INET6, (user_ip6 ctx). split; [done|].
    split; [|split; [by right|unfold cg_emit_deny_event_ipv6, submit; by destruct o, room]]. intros d Haf Hda. unfold dstOf. rewrite Haf, Hda.
    change (AF_INET6 =? linuxAFInet) with false. change (AF_INET6 =? linuxAFInet6) with true. by rewrite copy_array_exact.
Qed.

Lemma hook_effect h k t room ctx st : wf_sockAddr ctx -> effect_of (hook_dst h ctx) t room ctx st (run_hook h k t room ctx st).
Proof. intros [[Hl4 _] [Hl6 _] _]. destruct h; by first [apply hook4_effect|apply hook6_effect]. Qed.

Section Logged.
Context {M : Type} `{UnicodeCase} `{!BpfMapOps bytes bytes M}.

(** C11: From the hook to the log.  A hook that lets a destination pass submits
    nothing.  One that denies submits one record, or counts a failure where the
    ring is full; the agent makes of the record an event with the destination,
    the port, the protocol and the task that the hook saw, and, unless it takes
    it for the twin of an event of another hook family, a written line is the
    event with the next sequence number. *)
Theorem denials_reach_log h k t room ctx st : wf_task t -> wf_sockAddr ctx ->
  let r := run_hook h k t room ctx st in
  (r.1 = true -> deny_events r.2 = deny_events st /\ deny_reserve_failures r.2 = deny_reserve_failures st) /\
  (r.1 = false -> room = false -> deny_events r.2 = deny_events st /\ deny_reserve_failures r.2 = (deny_reserve_failures st + 1) mod 2 ^ 32) /\
  (r.1 = false -> room = true -> exists raw, deny_events r.2 = deny_events st ++ [raw] /\ deny_reserve_failures r.2 = deny_reserve_failures st /\
    forall cfg family (dns : option (DNSCache M)) pl now, EventsLogPath cfg <> [] -> exists ev pl' res,
      appendDenyFromRaw cfg family dns pl raw now true = Ret (pl', res) /\
      dn_Dst ev = IP_String (hook_dst h ctx) /\ dn_Dport ev = be_val (user_port ctx) /\ dn_Protocol ev = protocol_name ctx /\
      dn_TGID ev = pid_tgid t / 2 ^ 32 /\ dn_ThreadID ev = pid_tgid t mod 2 ^ 32 /\ dn_Reason ev = str "dst_not_allowlisted" /\
      SanitizeField (trim_nul (task_comm t)) 16 = Ret (dn_Comm ev) /\
      pl_log pl' = pl_log pl ++ (if (shouldEmitDeny (pl_state pl) (dedupKey ev) family now).2 then [with_seq ev (seq_next (pl_seq pl))] else [])).
Proof.
  intros Ht Hctx r. pose proof (hook_effect h k t room ctx st Hctx) as He. fold r in He. unfold effect_of in He.
  destruct (r.1) eqn:Er; [by split_and!|]. destruct He as (af & daddr & Hd & Hdst & _ & Hev & Hfail). set (raw := deny_record _ _ _ _ _ _) in *.
  split; [done|]. split; [by intros _ ->|]. intros _ ->. exists raw. split; [done|]. split; [done|]. intros cfg family dns pl now Hlog.
  pose proof (deny_record_decodes t ctx af daddr Ht Hctx Hd) as Hdec. fold raw in Hdec. destruct Ht as (Hp & _ & Hcomm).
  destruct (sanitize_result (trim_nul (task_comm t)) 16 (wf_trim_nul _ Hcomm)) as (comm & _ & Ec & _).
  unfold appendDenyFromRaw. rewrite Hdec. cbn [mbind go_bind dn_comm]. set (d := mkDenyEvent _ _ _ _ _ _ _ _) in *. rewrite (Hdst d) by done. rewrite Ec. cbn [mbind go_bind].
  exists (denyOf cfg family dns d (hook_dst h ctx) comm now).
  destruct (shouldEmitDeny _ _ _ _) as [s emit] eqn:Es. cbn [snd]. rewrite (decide_False (P := EventsLogPath cfg = [])) by done.
  assert (denyProtocolLabel (cg_protocol_from_sock_ctx ctx) = protocol_name ctx) as Hproto by (unfold cg_protocol_from_sock_ctx, protocol_name; by case_match).
  assert (Z.shiftr (pid_tgid t) 32 = pid_tgid t / 2 ^ 32) as Htg by (apply Z.shiftr_div_pow2; lia).
  destruct emit; cbn [negb]; eexists _, _; (split; [reflexivity|]); split_and!; try done; cbn [pl_log]; by rewrite app_nil_r.
Qed.
End Logged.

(** * Witnesses *)

Module Witness.
#[local] Existing Instance ascii_case.
#[local] Existing Instance plain_order.
Import DefendMaps.Witness.

Definition v6 (l : bytes) : sockAddr := mkSockAddr 6 [0; 0; 0; 0] (copy_array 16 l) [1; 187].
Definition curl : task := mkTask (7 * 2 ^ 32 + 8) (copy_array 16 (str "curl")).
Definition km : kernelMaps := mkKernel {[ 0 := 1 ]} {[ lpmKey 8 [10; 0; 0; 0] := 1 ]} ∅ ∅ ∅.
Definition m6 : trie := match populateAllowedIPv6Map (Some (∅ : trie)) compiled (Some pol) with Ret (Some m, _) => m | _ => ∅ end.
Definition idle : hookState := mkHookState [] 0 0 0.
Definition connect6 (ctx : sockAddr) := defend_cgroup_sock_addr_ipv6 ObserveConnect (mkCgroupMaps km m6) curl true ctx idle.

(** A listed address, one that is not, ::, and two mapped addresses. *)
Example connect6_ex : map (fun l => (connect6 (v6 l)).1)
  [[0x20; 0x01; 0x0d; 0xb8; 7]; [0x20; 0x01; 0x0d; 0xb9]; []; v4InV6Prefix ++ [10; 1; 2; 3]; v4InV6Prefix ++ [8; 8; 8; 8]] = [true; false; true; true; false].
Proof. vm_compute. reflexivity. Qed.

Lemma ret_inj {A B} (a a' : A) (b b' : B) : Ret (Some a, b) = Ret (Some a', b') -> a = a' /\ b = b'.
Proof. by intros [= -> ->]. Qed.

Lemma ipv6_hooks_enforce_policy_witness :
  (connect6 (v6 [0x20; 0x01; 0x0d; 0xb8; 7])).1 = true /\ (connect6 (v6 [0x20; 0x01; 0x0d; 0xb9])).1 <> true.
Proof.
  destruct (ipv6_hooks_enforce_policy hosts addrs [] true pol compiled (∅ : trie) pol_built) as (m & r & E & H).
  - intros k Hk. apply (elem_of_singleton k IPv6loopback) in Hk as ->. split; [done|]. repeat constructor; lia.
  - done.
  - assert (populateAllowedIPv6Map (Some (∅ : trie)) compiled (Some pol) = Ret (Some m6, Ok 2)) as E' by (vm_compute; reflexivity).
    destruct (ret_inj _ _ _ _ (eq_trans (eq_sym E') E)) as [<- <-]. split.
    + apply (H 2 km ObserveConnect curl true (v6 [0x20; 0x01; 0x0d; 0xb8; 7]) idle); [reflexivity..|repeat constructor; lia|].
      right. right. right. split; [reflexivity|]. right. right.
      exists (mkIPNet (copy_array 16 [0x20; 0x01; 0x0d; 0xb8]) (CIDRMask 16 32)). split; [vm_compute; by left|reflexivity].
    + intros Hc. destruct (H 2 km ObserveConnect curl true (v6 [0x20; 0x01; 0x0d; 0xb9]) idle eq_refl eq_refl eq_refl ltac:(repeat constructor; lia)) as [H1 _].
      specialize (H1 Hc). clear Hc H E E'. rename H1 into Hc.
      vm_compute in Hc. destruct Hc as [Hc|[Hc|[(v & Hc & _)|(_ & [Hc|[Hc|(net & Hn & Hc)]])]]]; try discriminate.
      apply list_elem_of_singleton in Hn. injection Hn as ->. discriminate.
Defined.

Lemma denials_reach_log_witness : exists raw, deny_events (connect6 (v6 [0x20; 0x01; 0x0d; 0xb9])).2 = [raw] /\
  exists ev pl' res, appendDenyFromRaw (M := gmap bytes bytes) Defend.Witness.cfg (str "cgroup") None (mkPipeline None 0 []) raw 5 true = Ret (pl', res) /\
    dn_Dst ev = str "2001:db9::" /\ dn_Dport ev = 443 /\ dn_Protocol ev = str "tcp" /\ pl_log pl' = [with_seq ev 1].
Proof.
  assert (wf_task curl /\ wf_sockAddr (v6 [0x20; 0x01; 0x0d; 0xb9])) as [Ht Hc].
  { split; [split; [vm_compute; split; [discriminate|reflexivity]|]|]; repeat split; apply (bool_decide_unpack _); vm_compute; exact I. }
  destruct (denials_reach_log (M := gmap bytes bytes) defend_cgroup_connect6 (mkCgroupMaps km m6) curl true (v6 [0x20; 0x01; 0x0d; 0xb9]) idle Ht Hc) as (_ & _ & H).
  destruct (H ltac:(vm_compute; reflexivity) eq_refl) as (raw & Er & _ & Hp). exists raw. split; [exact Er|].
  destruct (Hp Defend.Witness.cfg (str "cgroup") None (mkPipeline None 0 []) 5 ltac:(discriminate)) as (ev & pl' & res & E & Hdst & Hport & Hproto & _ & _ & _ & _ & Hl).
  exists ev, pl', res. split; [exact E|]. split; [rewrite Hdst; vm_compute; reflexivity|]. split; [exact Hport|]. split; [exact Hproto|exact Hl].
Defined.
End Witness.
