(* ===== verification/Probe.v ===== *)
(** The probe of internal/agent/agent_linux_probe.go and the kernel's hooks: the
    dial loop that drives it, and what the record that ends it means. *)
From S2P Require Import Prelude GoStrings GoNet BpfMap Policy DefendMaps Decode Defend Lifecycle CgroupHooks.

Open Scope Z_scope.

(** * The dial loop *)

Definition probeDialRetryEvery : Z := 50 * 1000000.

(** One round: whether [stop] is closed at its start, the clock, whether the
    dial gave a connection, and whether [stop] is closed before the timer. *)
Record dialRound := mkDial { dr_stopped : bool; dr_now : Z; dr_conn : bool; dr_stopWait : bool }.

Inductive dialAct := Dial | CloseConn.

#[export] Instance dialAct_eq_dec : EqDecision dialAct.
Proof. solve_decision. Defined.

(** The actions, and whether the loop has returned. *)
Fixpoint runProbeDialLoop (deadline : Z) (rounds : list dialRound) : list dialAct * bool :=
  match rounds with
  | [] => ([], false)
  | r :: rounds =>
    if dr_stopped r then ([], true)
    else if deadline <? dr_now r then ([], true)
    else
      let acts := Dial :: (if dr_conn r then [CloseConn] else []) in
      if dr_stopWait r then (acts, true)
      else let '(more, returned) := runProbeDialLoop deadline rounds in (acts ++ more, returned)
  end.

(** The timer of a round has passed when the next one reads the clock. *)
Fixpoint paced (t : Z) (rounds : list dialRound) : Prop :=
  match rounds with [] => True | r :: rounds => t <= dr_now r /\ paced (dr_now r + probeDialRetryEvery) rounds end.

Definition dials (acts : list dialAct) : Z := len (filter (fun a => a = Dial) acts).

Definition dialBound (deadline t : Z) : Z := Z.max 0 ((deadline - t) / probeDialRetryEvery + 1).

Lemma dialBound_step deadline t now : t <= now -> now <= deadline -> 1 + dialBound deadline (now + probeDialRetryEvery) <= dialBound deadline t.
Proof.
  intros H1 H2. unfold dialBound, probeDialRetryEvery. replace (deadline - (now + 50 * 1000000)) with (deadline - now + (-1) * (50 * 1000000)) by lia.
  rewrite Z.div_add by lia. pose proof (Z.div_le_mono (deadline - now) (deadline - t) (50 * 1000000)). pose proof (Z.div_pos (deadline - now) (50 * 1000000)). lia.
Qed.

Lemma dials_app a b : dials (a ++ b) = dials a + dials b.
Proof. unfold dials, len. rewrite filter_app, length_app. lia. Qed.

(** The loop dials at most once in each 50 ms up to the deadline, and once more;
    it returns within one round after that; every connection it was given is
    closed before the next dial. *)
Theorem dial_loop_bounded deadline t rounds : paced t rounds -> let r := runProbeDialLoop deadline rounds in
  dials r.1 <= dialBound deadline t /\
  (dialBound deadline t < len rounds -> r.2 = true) /\
  exists conns, r.1 = concat (map (fun c : bool => Dial :: if c then [CloseConn] else []) conns) /\ conns `prefix_of` map dr_conn rounds.
Proof.
  cbn zeta. revert t. induction rounds as [|r rounds IH]; intros t Hp; cbn [runProbeDialLoop paced] in *.
  { split; [unfold dialBound, dials, len; cbn; lia|]. split; [unfold dialBound, len; cbn; lia|]. by exists []. }
  destruct Hp as [Ht Hp]. assert (dials [] <= dialBound deadline t) as H0 by (unfold dialBound, dials, len; cbn; lia).
  destruct (dr_stopped r); [split; [done|]; split; [done|]; exists []; split; [done|apply prefix_nil]|].
  destruct (Z.ltb_spec deadline (dr_now r)) as [Hd|Hd]; [split; [done|]; split; [done|]; exists []; split; [done|apply prefix_nil]|].
  pose proof (dialBound_step deadline t (dr_now r) Ht Hd) as Hs. assert (0 <= dialBound deadline (dr_now r + probeDialRetryEvery)) as Hn by (unfold dialBound; lia).
  assert (dials (Dial :: if dr_conn r then [CloseConn] else []) = 1) as H1 by by destruct (dr_conn r).
  destruct (dr_stopWait r); cbn [fst snd].
  - split; [lia|]. split; [done|]. exists [dr_conn r]. cbn [map concat]. rewrite app_nil_r. split; [done|]. by exists (map dr_conn rounds).
  - destruct (IH _ Hp) as (Hb & Hr & conns & E & Hc). destruct (runProbeDialLoop deadline rounds) as [more returned]. cbn [fst snd] in *.
    change (Dial :: (if dr_conn r then [CloseConn] else []) ++ more) with ((Dial :: if dr_conn r then [CloseConn] else []) ++ more).
    rewrite dials_app, H1. split; [lia|]. split; [intros Hl; apply Hr; unfold len in *; cbn [length] in Hl; lia|].
    exists (dr_conn r :: conns). cbn [map concat]. rewrite E. split; [done|]. by apply prefix_cons.
Qed.

(** The comment at [probeLSMSilent]: about 30 connects within its timeout. *)
Example lsm_dials : dialBound (1500 * 1000000) 0 = 31.
Proof. reflexivity. Qed.

(** * What ends the probe *)

(** The matcher, on the fields that the decoder finds. *)
Lemma match_decoded raw d : decodeDenyEvent raw = Ret (Some d) ->
  matchProbeDenyEvent raw = Ret ((dn_protocol d =? denyProtoTCP) && (dn_af d =? linuxAFInet) && (dn_dport d =? probeDefendDport) &&
    bool_decide (take 4 (dn_daddr16 d) = probeDefendDst)).
Proof.
  unfold decodeDenyEvent, matchProbeDenyEvent. destruct (Z.ltb_spec (len raw) denyEventWireSize) as [|Hl]; [done|]. unfold denyEventWireSize in Hl.
  destruct (le_at 4 raw 0) as [tgid|], (le_at 4 raw 4) as [tid|], (arr_at 16 raw 8) as [comm|], (idx raw 24) as [protocol|], (idx raw 25) as [reason|], (idx raw 26) as [af|]; try done.
  cbn [mbind go_bind]. unfold arr_at, slice. rewrite !decide_True by lia. cbn [mbind go_bind]. destruct (be_at 2 raw 44) as [dport|]; [|done].
  cbn [mbind go_bind]. intros [= <-]. cbn [dn_protocol dn_af dn_dport dn_daddr16].
  destruct (protocol =? denyProtoTCP), (af =? linuxAFInet), (dport =? probeDefendDport); cbn [negb orb andb]; try done.
  rewrite copy_array_exact by (rewrite length_take, length_drop; unfold len in Hl; change (Z.to_nat (28 + Z.of_nat 16 - 28)) with 16%nat; lia). by rewrite take_take.
Qed.

(** The record of a hook's denial ends the probe exactly when it is the denial
    of a connect to the probe's address and port that is not UDP: the probe
    takes no other traffic for its own. *)
Theorem probe_matches_denial h k t ctx st raw : wf_task t -> wf_sockAddr ctx ->
  (run_hook h k t true ctx st).1 = false -> deny_events (run_hook h k t true ctx st).2 = deny_events st ++ [raw] ->
  (matchProbeDenyEvent raw = Ret true <->
    hook_dst h ctx = v4_mapped probeDefendDst /\ be_val (user_port ctx) = probeDefendDport /\ sa_protocol ctx <> IPPROTO_UDP).
Proof.
  intros Ht Hc Hr Hraw. pose proof (hook_effect h k t true ctx st Hc) as He. unfold effect_of in He. rewrite Hr in He.
  destruct He as (af & daddr & Hd & Hdst & Haf & Hev & _). rewrite Hraw in Hev. apply app_inv_head in Hev.
  assert (forall a b : bytes, [a] = [b] -> a = b) as Hone by by intros a b [=]. apply Hone in Hev as ->.
  pose proof (deny_record_decodes t ctx af daddr Ht Hc Hd) as Hdec. rewrite (match_decoded _ _ Hdec). set (d := mkDenyEvent _ _ _ _ _ _ _ _) in *.
  specialize (Hdst d eq_refl eq_refl). unfold dstOf in Hdst. cbn [dn_protocol dn_af dn_dport dn_daddr16 d] in *.
  assert (cg_protocol_from_sock_ctx ctx =? denyProtoTCP = true <-> sa_protocol ctx <> IPPROTO_UDP) as Hp
    by (unfold cg_protocol_from_sock_ctx; destruct (Z.eqb_spec (sa_protocol ctx) IPPROTO_UDP); cbn; naive_solver).
  split.
  - intros E. assert (forall a b : bool, Ret a = Ret b -> a = b) as Hret by by intros a b [=]. apply Hret in E. rewrite !andb_true_iff, bool_decide_eq_true in E. destruct E as [[[E1 E2] E3] E4].
    rewrite E2 in Hdst. injection Hdst as <-. subst d. cbn in E3, E4. rewrite E4. split; [done|]. split; [by apply Z.eqb_eq|by apply Hp].
  - intros (E1 & E2 & E3). rewrite E1 in Hdst. destruct (Z.eqb_spec af linuxAFInet) as [Ha|Ha].
    + injection Hdst as E4. subst d. cbn. rewrite E2. rewrite (proj2 Hp E3). cbn. f_equal. by apply bool_decide_eq_true.
    + destruct Haf as [?|Haf]; [done|]. rewrite E1 in Haf. by rewrite To4_mapped in Haf.
Qed.
