(* ===== verification/LsmHooks.v ===== *)
(** The LSM hooks of bpf/trace_lsm_defend_lsm.inc, beside the cgroup hooks.

    What a hook reads from kernel memory is the answer of
    [bpf_probe_read_kernel], [None] where it fails; the destination is then
    zero.  The maps are those of the section (the tries and the mode of the LSM
    side, the owner cache and the domains that both sections share) with the
    IPv6 trie of the cgroup section; the ring and its failure counter are of the
    type of the cgroup section, whose counters of IPv6 traffic are not used. *)
From S2P Require Import Prelude GoStrings GoNet BpfMap Policy Decode DefendMaps CgroupHooks.

Open Scope Z_scope.

(** * Kernel objects *)

(** [struct sockaddr_in] and [struct sockaddr_in6] at one address. *)
Record sockaddr := mkSockaddr { sin_family : option Z; sin_addr : option bytes; sin_port : option bytes; sin6_addr : option bytes; sin6_port : option bytes }.

(** [struct sock]. *)
Record sock := mkSock { sk_protocol : option Z; skc_family : option Z; skc_daddr : option bytes; skc_dport : option bytes; skc_v6_daddr : option bytes }.

(** [sock->sk], [None] where it is NULL. *)
Record socket := mkSocket { so_sk : option sock }.

(** A pointer to an address: what it points to, and what
    [bpf_probe_read_user] answers on it. *)
Record namePtr := mkName { nm_kernel : sockaddr; nm_user : option bytes }.
Record msghdr := mkMsghdr { msg_name : option namePtr; msg_namelen : option Z }.

Record lsmState := mkLsmState { lsm_hook : hookState; sendpage_observed : Z }.

Definition zero4 : bytes := [0; 0; 0; 0].
Definition read4 (r : option bytes) : bytes := default zero4 r.
Definition read16 (r : option bytes) : bytes := default (replicate 16 0) r.
Definition read_port (r : option bytes) : bytes := default [0; 0] r.
Definition read_int (r : option Z) : Z := default 0 r.

Definition sizeof_sockaddr_in : Z := 16.
Definition sizeof_sockaddr_in6 : Z := 28.

(** * The hooks *)

Definition proto_of (protocol : Z) : Z := if protocol =? IPPROTO_UDP then COLDSTEP_PROTO_UDP else COLDSTEP_PROTO_TCP.

Definition skb_v6_is_loopback (a : bytes) : bool :=
  bool_decide (word 0 a = zero4) && bool_decide (word 1 a = zero4) && bool_decide (word 2 a = zero4) && bool_decide (word 3 a = be_bytes 4 1).
Definition coldstep_ipv6_is_unspecified (a : bytes) : bool :=
  bool_decide (word 0 a = zero4) && bool_decide (word 1 a = zero4) && bool_decide (word 2 a = zero4) && bool_decide (word 3 a = zero4).
Definition skb_v6_is_link_local (a : bytes) : bool := bool_decide (land_bytes (word 0 a) (be_bytes 4 0xffc00000) = be_bytes 4 0xfe800000).
Definition skb_v6_is_v4mapped (a : bytes) : bool :=
  bool_decide (word 0 a = zero4) && bool_decide (word 1 a = zero4) && bool_decide (word 2 a = be_bytes 4 0x0000ffff).
Definition skb_v6_is_allowlisted (k : cgroupMaps) (addr : bytes) : bool := trie_hit 16 (cg_allowed_ipv6 k) addr.

Section Hooks.
Context (k : cgroupMaps) (t : task) (room : bool).

Definition lsm_emit_deny_event_ipv6 (protocol : Z) (dst16 dport : bytes) (reason : Z) (st : hookState) : hookState :=
  submit room (deny_record t protocol reason AF_INET6 dst16 dport) st.

(** True where the hook returns 0, false for -EPERM. *)
Definition lsm_v6_enforce (proto : Z) (daddr16 dport : bytes) (st : hookState) : bool * hookState :=
  if skb_v6_is_loopback daddr16 then (true, st)
  else if coldstep_ipv6_is_unspecified daddr16 then (true, st)
  else if skb_v6_is_link_local daddr16 then (true, st)
  else if skb_v6_is_v4mapped daddr16 then
    let v4 := word 3 daddr16 in
    if dst_in_ignored (cg_maps k) v4 then (true, st)
    else if dst_is_allowlisted (cg_maps k) v4 then (true, st)
    else (false, emit_deny_event_ipv4 t room proto v4 dport COLDSTEP_DENY_REASON_DST_NOT_ALLOWLISTED st)
  else if skb_v6_is_allowlisted k daddr16 then (true, st)
  else (false, lsm_emit_deny_event_ipv6 proto daddr16 dport COLDSTEP_DENY_REASON_DST_NOT_ALLOWLISTED st).

(** The end of the three hooks on an IPv4 destination. *)
Definition enforce_v4 (proto : Z) (daddr dport : bytes) (st : hookState) : bool * hookState :=
  if dst_in_ignored (cg_maps k) daddr then (true, st)
  else if dst_is_allowlisted (cg_maps k) daddr then (true, st)
  else (false, emit_deny_event_ipv4 t room proto daddr dport COLDSTEP_DENY_REASON_DST_NOT_ALLOWLISTED st).

Definition lsm_socket_connect (s : socket) (address : option sockaddr) (addrlen : Z) (st : hookState) : bool * hookState :=
  if negb (defense_enabled (cg_maps k)) then (true, st)
  else
    match address with
    | None => (true, st)
    | Some addr =>
      if addrlen <? sizeof_sockaddr_in then (true, st)
      else
        let family := read_int (sin_family addr) in
        if family =? AF_INET6 then
          if addrlen <? sizeof_sockaddr_in6 then (true, st)
          else
            let protocol6 := match so_sk s with Some sk => read_int (sk_protocol sk) | None => 0 end in
            lsm_v6_enforce (proto_of protocol6) (read16 (sin6_addr addr)) (read_port (sin6_port addr)) st
        else if negb (family =? AF_INET) then (true, st)
        else
          match so_sk s with
          | None => (true, st)
          | Some sk => enforce_v4 (proto_of (read_int (sk_protocol sk))) (read4 (sin_addr addr)) (read_port (sin_port addr)) st
          end
    end.

(** [coldstep_parse_ipv4_sockaddr16]: the port and the address. *)
Definition coldstep_parse_ipv4_sockaddr16 (scratch : bytes) : option (bytes * bytes) :=
  if le_val (take 2 scratch) =? AF_INET then Some (take 2 (drop 2 scratch), take 4 (drop 4 scratch)) else None.

Definition read_ipv4_sockaddr (p : namePtr) : option (bytes * bytes) := nm_user p ≫= coldstep_parse_ipv4_sockaddr16.

Definition lsm_socket_sendmsg (s : socket) (msg : option msghdr) (st : hookState) : bool * hookState :=
  if negb (defense_enabled (cg_maps k)) then (true, st)
  else
    match msg, so_sk s with
    | None, _ | _, None => (true, st)
    | Some msg, Some sk =>
      let proto := proto_of (read_int (sk_protocol sk)) in
      let namelen := read_int (msg_namelen msg) in
      if read_int (skc_family sk) =? AF_INET6 then
        let '(d16, dport6) :=
          match msg_name msg with
          | Some a => if sizeof_sockaddr_in6 <=? namelen then (read16 (sin6_addr (nm_kernel a)), read_port (sin6_port (nm_kernel a)))
                      else (read16 (skc_v6_daddr sk), read_port (skc_dport sk))
          | None => (read16 (skc_v6_daddr sk), read_port (skc_dport sk))
          end in
        lsm_v6_enforce proto d16 dport6 st
      else
        let peer :=
          if negb (read_int (skc_family sk) =? AF_INET) then None
          else let daddr := read4 (skc_daddr sk) in if bool_decide (daddr = zero4) then None else Some (read_port (skc_dport sk), daddr) in
        let dst := match msg_name msg with
                   | Some a => if sizeof_sockaddr_in <=? namelen then read_ipv4_sockaddr a else peer
                   | None => peer
                   end in
        match dst with
        | None => (true, st)
        | Some (dport, daddr) => enforce_v4 proto daddr dport st
        end
    end.

Definition lsm_socket_sendpage (s : option socket) (st : lsmState) : bool * lsmState :=
  let st := mkLsmState (lsm_hook st) ((sendpage_observed st + 1) mod 2 ^ 32) in
  if negb (defense_enabled (cg_maps k)) then (true, st)
  else
    match s ≫= so_sk with
    | None => (true, st)
    | Some sk =>
      if negb (read_int (skc_family sk) =? AF_INET) then (true, st)
      else
        let daddr := read4 (skc_daddr sk) in
        if bool_decide (daddr = zero4) then (true, st)
        else
          let '(ok, h) := enforce_v4 (proto_of (read_int (sk_protocol sk))) daddr (read_port (skc_dport sk)) (lsm_hook st) in
          (ok, mkLsmState h (sendpage_observed st))
    end.
End Hooks.

(** * Against the cgroup hooks *)

(** The same decision and the same records; the cgroup hook also counts. *)
Definition agrees (r r' : bool * hookState) : Prop :=
  r.1 = r'.1 /\ deny_events r.2 = deny_events r'.2 /\ deny_reserve_failures r.2 = deny_reserve_failures r'.2.

Lemma enforce_v4_agrees k t room ctx st : defense_enabled (cg_maps k) = true ->
  enforce_v4 k t room (proto_of (sa_protocol ctx)) (user_ip4 ctx) (user_port ctx) st = defend_cgroup_sock_addr_ipv4 k t room ctx st.
Proof. intros Hd. unfold defend_cgroup_sock_addr_ipv4. by rewrite Hd. Qed.

Lemma v6_enforce_agrees o k t room ctx st : defense_enabled (cg_maps k) = true ->
  agrees (lsm_v6_enforce k t room (proto_of (sa_protocol ctx)) (user_ip6 ctx) (user_port ctx) st) (defend_cgroup_sock_addr_ipv6 o k t room ctx st).
Proof.
  intros Hd. unfold defend_cgroup_sock_addr_ipv6, lsm_v6_enforce. rewrite Hd.
  change (cg_ipv6_is_loopback ctx) with (skb_v6_is_loopback (user_ip6 ctx)). change (cg_ipv6_is_unspecified ctx) with (coldstep_ipv6_is_unspecified (user_ip6 ctx)).
  change (cg_ipv6_is_link_local ctx) with (skb_v6_is_link_local (user_ip6 ctx)). change (cg_ipv6_is_v4mapped ctx) with (skb_v6_is_v4mapped (user_ip6 ctx)).
  change (cg_ipv6_is_allowlisted k ctx) with (skb_v6_is_allowlisted k (user_ip6 ctx)).
  change (cg_protocol_from_sock_ctx ctx) with (proto_of (sa_protocol ctx)). cbn [negb].
  destruct (skb_v6_is_loopback _); [done|]. destruct (coldstep_ipv6_is_unspecified _); [done|]. destruct (skb_v6_is_link_local _); [done|].
  destruct (skb_v6_is_v4mapped _); [by repeat case_match|]. destruct (skb_v6_is_allowlisted _ _); [by destruct o|]. by destruct o, room.
Qed.

(** What the kernel passes to the LSM hook for the connect of a context. *)
Definition connecting (ctx : sockAddr) : socket := mkSocket (Some (mkSock (Some (sa_protocol ctx)) None None None None)).
Definition sockaddr_in (ctx : sockAddr) : sockaddr := mkSockaddr (Some AF_INET) (Some (user_ip4 ctx)) (Some (user_port ctx)) None None.
Definition sockaddr_in6 (ctx : sockAddr) : sockaddr := mkSockaddr (Some AF_INET6) None None (Some (user_ip6 ctx)) (Some (user_port ctx)).

(** On the same maps the two layers decide a connect in the same way and submit
    the same record, so the agent sees one deduplication key for both. *)
Theorem lsm_connect_agrees k t room ctx st :
  (defense_enabled (cg_maps k) = true -> forall n, sizeof_sockaddr_in <= n ->
    agrees (lsm_socket_connect k t room (connecting ctx) (Some (sockaddr_in ctx)) n st) (run_hook defend_connect4 k t room ctx st)) /\
  (defense_enabled (cg_maps k) = true -> forall n, sizeof_sockaddr_in6 <= n ->
    agrees (lsm_socket_connect k t room (connecting ctx) (Some (sockaddr_in6 ctx)) n st) (run_hook defend_cgroup_connect6 k t room ctx st)) /\
  (defense_enabled (cg_maps k) = false -> forall s a n, lsm_socket_connect k t room s a n st = (true, st)).
Proof.
  unfold lsm_socket_connect, sizeof_sockaddr_in, sizeof_sockaddr_in6. split_and!; intros Hd; rewrite Hd; cbn [negb]; intros n Hn; [..|done].
  - rewrite (proj2 (Z.ltb_ge n 16)) by lia. change (read_int (sin_family (sockaddr_in ctx))) with AF_INET. cbn [Z.eqb Pos.eqb negb connecting so_sk sk_protocol sockaddr_in sin_addr sin_port].
    change (read_int (Some (sa_protocol ctx))) with (sa_protocol ctx). change (read4 (Some (user_ip4 ctx))) with (user_ip4 ctx).
    change (read_port (Some (user_port ctx))) with (user_port ctx). by rewrite enforce_v4_agrees.
  - rewrite (proj2 (Z.ltb_ge n 16)), (proj2 (Z.ltb_ge n 28)) by lia. change (read_int (sin_family (sockaddr_in6 ctx))) with AF_INET6. cbn [Z.eqb Pos.eqb connecting so_sk sk_protocol sockaddr_in6 sin6_addr sin6_port].
    change (read_int (Some (sa_protocol ctx))) with (sa_protocol ctx). change (read16 (Some (user_ip6 ctx))) with (user_ip6 ctx).
    change (read_port (Some (user_port ctx))) with (user_port ctx).
    by apply v6_enforce_agrees.
Qed.

(** A send on a connected socket is judged by its peer. *)
Theorem lsm_sendmsg_connected k t room ctx st namelen : defense_enabled (cg_maps k) = true ->
  let sk family := mkSock (Some (sa_protocol ctx)) (Some family) (Some (user_ip4 ctx)) (Some (user_port ctx)) (Some (user_ip6 ctx)) in
  let send family := lsm_socket_sendmsg k t room (mkSocket (Some (sk family))) (Some (mkMsghdr None namelen)) st in
  agrees (send AF_INET) (run_hook defend_sendmsg4 k t room ctx st) /\ agrees (send AF_INET6) (run_hook defend_cgroup_sendmsg6 k t room ctx st).
Proof.
  intros Hd sk send. subst sk send. unfold lsm_socket_sendmsg. rewrite Hd. cbn [negb so_sk msg_name skc_family sk_protocol skc_daddr skc_dport skc_v6_daddr].
  change (read_int (Some (sa_protocol ctx))) with (sa_protocol ctx). change (read_port (Some (user_port ctx))) with (user_port ctx). split.
  - change (read_int (Some AF_INET)) with AF_INET. cbn [Z.eqb Pos.eqb negb]. change (read4 (Some (user_ip4 ctx))) with (user_ip4 ctx). change (AF_INET =? AF_INET6) with false. change (AF_INET =? AF_INET) with true. cbn [negb]. case_bool_decide as Hz; [|by rewrite enforce_v4_agrees].
    unfold run_hook, defend_cgroup_sock_addr_ipv4. rewrite Hd. unfold dst_in_ignored. rewrite Hz. done.
  - change (read_int (Some AF_INET6)) with AF_INET6. cbn [Z.eqb Pos.eqb]. change (read16 (Some (user_ip6 ctx))) with (user_ip6 ctx). by apply v6_enforce_agrees.
Qed.

(** The kernel has copied the name of a message into its own memory before it
    calls the hook, so reading it as user memory fails: a send to an explicit
    IPv4 destination always passes this layer.  So does a send from an IPv6
    socket that is not connected to a destination in a [sockaddr_in], which is
    judged by the peer, ::. *)
Theorem lsm_sendmsg_explicit_ipv4_passes k t room s sk a namelen st : so_sk s = Some sk ->
  (read_int (skc_family sk) <> AF_INET6 -> sizeof_sockaddr_in <= read_int namelen -> nm_user a = None ->
    lsm_socket_sendmsg k t room s (Some (mkMsghdr (Some a) namelen)) st = (true, st)) /\
  (read_int (skc_family sk) = AF_INET6 -> read_int namelen < sizeof_sockaddr_in6 -> read16 (skc_v6_daddr sk) = replicate 16 0 ->
    lsm_socket_sendmsg k t room s (Some (mkMsghdr (Some a) namelen)) st = (true, st)).
Proof.
  intros Hs. unfold lsm_socket_sendmsg. rewrite Hs. destruct (negb _); [done|]. cbn [msg_name msg_namelen]. split; intros Hf Hn Hu.
  - rewrite (proj2 (Z.eqb_neq _ _) Hf), (proj2 (Z.leb_le _ _) Hn). unfold read_ipv4_sockaddr. by rewrite Hu.
  - rewrite Hf, (proj2 (Z.leb_gt _ _) Hn), Hu. done.
Qed.

(** [sendfile] and [splice] on older kernels: counted, and judged by the peer. *)
Theorem lsm_sendpage_peer k t room ctx st : defense_enabled (cg_maps k) = true ->
  let sk := mkSock (Some (sa_protocol ctx)) (Some AF_INET) (Some (user_ip4 ctx)) (Some (user_port ctx)) None in
  let r := lsm_socket_sendpage k t room (Some (mkSocket (Some sk))) st in
  agrees (r.1, lsm_hook r.2) (run_hook defend_sendmsg4 k t room ctx (lsm_hook st)) /\ sendpage_observed r.2 = (sendpage_observed st + 1) mod 2 ^ 32.
Proof.
  intros Hd sk r. subst sk r. unfold lsm_socket_sendpage. rewrite Hd. cbn [negb mbind option_bind so_sk skc_family skc_daddr skc_dport sk_protocol lsm_hook sendpage_observed].
  change (read_int (Some AF_INET) =? AF_INET) with true. cbn [negb]. change (read_int (Some (sa_protocol ctx))) with (sa_protocol ctx).
  change (read4 (Some (user_ip4 ctx))) with (user_ip4 ctx). change (read_port (Some (user_port ctx))) with (user_port ctx). case_bool_decide as Hz.
  - cbn [fst snd lsm_hook sendpage_observed]. unfold run_hook, defend_cgroup_sock_addr_ipv4. rewrite Hd. unfold dst_in_ignored. rewrite Hz. done.
  - rewrite enforce_v4_agrees by done. cbn [run_hook]. by destruct (defend_cgroup_sock_addr_ipv4 k t room ctx (lsm_hook st)).
Qed.

(** A packet to an address that the same hook denies on a connected socket. *)
Definition denying : cgroupMaps := mkCgroupMaps (mkKernel {[ 0 := 1 ]} ∅ ∅ ∅ ∅) ∅.
Definition dgram (family : Z) (peer : bytes) : socket := mkSocket (Some (mkSock (Some 17) (Some family) (Some peer) (Some [0; 53]) None)).
Definition dns_server : namePtr := mkName (mkSockaddr (Some AF_INET) (Some [8; 8; 8; 8]) (Some [0; 53]) None None) None.

Example explicit_destination_passes :
  let send s m := (lsm_socket_sendmsg denying (mkTask 1 (replicate 16 0)) true s (Some m) (mkHookState [] 0 0 0)).1 in
  (send (dgram AF_INET [8; 8; 8; 8]) (mkMsghdr None None), send (dgram AF_INET zero4) (mkMsghdr (Some dns_server) (Some 16)),
   send (dgram AF_INET6 zero4) (mkMsghdr (Some dns_server) (Some 16))) = (false, true, true).
Proof. vm_compute. reflexivity. Qed.
