(* ===== verification/SkbBackstop.v ===== *)
(** The packet hook of bpf/trace_defend_skb.inc: it reports packets that go to a
    destination the cgroup hooks would have denied, and lets every packet pass.

    A packet is its bytes from the network header on; a load beyond its end
    fails.  The clock of the kernel is an argument, once for the cooldown and
    once for the record; [lru] is what the LRU map keeps after an update. *)
From S2P Require Import Prelude GoStrings GoNet BpfMap Policy Decode DefendMaps CgroupHooks LsmHooks.

Open Scope Z_scope.

Definition COLDSTEP_SKB_BACKSTOP_COOLDOWN_NS : Z := 1000000000.

Record skbState := mkSkbState { skb_backstop_events : list bytes; skb_backstop_reserve_failures : Z; skb_backstop_seen : gmap bytes Z }.

(** [bpf_skb_load_bytes_relative]. *)
Definition load (pkt : bytes) (off : Z) (n : nat) : option bytes :=
  if off + Z.of_nat n <=? len pkt then Some (take n (drop (Z.to_nat off) pkt)) else None.

Section Skb.
Context (k : cgroupMaps) (room : bool) (now1 now2 : Z) (lru : gmap bytes Z -> gmap bytes Z).

(** Whether the destination was seen within the cooldown; if not, it is
    recorded. *)
Definition skb_backstop_recently_seen (addr : bytes) (st : skbState) : bool * skbState :=
  match skb_backstop_seen st !! addr with
  | Some last_ => if (now1 - last_) mod 2 ^ 64 <? COLDSTEP_SKB_BACKSTOP_COOLDOWN_NS then (true, st)
                  else (false, mkSkbState (skb_backstop_events st) (skb_backstop_reserve_failures st) (lru (<[addr := now1]> (skb_backstop_seen st))))
  | None => (false, mkSkbState (skb_backstop_events st) (skb_backstop_reserve_failures st) (lru (<[addr := now1]> (skb_backstop_seen st))))
  end.

Definition skb_v4_is_loopback (daddr : bytes) : bool := bool_decide (land_bytes daddr (be_bytes 4 0xff000000) = be_bytes 4 0x7f000000).

(** [struct egress_backstop_event]; the task is not known here. *)
Definition backstop_record (af ipproto : Z) (daddr dport : bytes) : bytes :=
  le_bytes 8 now2 ++ le_bytes 4 0 ++ replicate 16 0 ++ [af] ++ [ipproto] ++ [0; 0] ++ daddr ++ dport ++ replicate 6 0.

Definition skb_emit_backstop (af ipproto : Z) (daddr dport : bytes) (st : skbState) : skbState :=
  if room then mkSkbState (skb_backstop_events st ++ [backstop_record af ipproto daddr dport]) (skb_backstop_reserve_failures st) (skb_backstop_seen st)
  else mkSkbState (skb_backstop_events st) ((skb_backstop_reserve_failures st + 1) mod 2 ^ 32) (skb_backstop_seen st).

(** The cooldown, and the record. *)
Definition report (af ipproto : Z) (a16 dport : bytes) (st : skbState) : skbState :=
  let '(seen, st) := skb_backstop_recently_seen a16 st in
  if seen : bool then st else skb_emit_backstop af ipproto a16 dport st.

(** The result is TC_ACT_OK on every path. *)
Definition defend_skb_egress (pkt : bytes) (st : skbState) : skbState :=
  if negb (defense_enabled (cg_maps k)) then st
  else
    match load pkt 0 1 with
    | Some [vbyte] =>
      if Z.shiftr vbyte 4 =? 4 then
        match load pkt 9 1, load pkt 16 4 with
        | Some [ipproto], Some daddr =>
          if skb_v4_is_loopback daddr then st
          else if dst_in_ignored (cg_maps k) daddr then st
          else if dst_is_allowlisted (cg_maps k) daddr then st
          else
            let ihl := Z.land vbyte 0x0f in
            let l4 := ihl * 4 in
            let dport := if (5 <=? ihl) && (l4 <=? 60) then read_port (load pkt (l4 + 2) 2) else [0; 0] in
            report AF_INET ipproto (daddr ++ replicate 12 0) dport st
        | _, _ => st
        end
      else if Z.shiftr vbyte 4 =? 6 then
        match load pkt 6 1, load pkt 24 16 with
        | Some [nexthdr], Some a16 =>
          if skb_v6_is_loopback a16 then st
          else if coldstep_ipv6_is_unspecified a16 then st
          else if skb_v6_is_link_local a16 then st
          else
            let denied :=
              if skb_v6_is_v4mapped a16 then
                let v4 := word 3 a16 in
                negb (dst_in_ignored (cg_maps k) v4) && negb (dst_is_allowlisted (cg_maps k) v4)
              else negb (skb_v6_is_allowlisted k a16) in
            if denied then report AF_INET6 nexthdr a16 (read_port (load pkt (40 + 2) 2)) st else st
        | _, _ => st
        end
      else st
    | _ => st
    end.
End Skb.

(** * What is reported *)

Lemma skb_loopback_spec daddr : length daddr = 4%nat -> wf_bytes daddr -> skb_v4_is_loopback daddr = ipv4_is_loopback daddr.
Proof.
  intros Hl Hw. destruct daddr as [|a [|b [|c [|d [|]]]]]; try done. apply Forall_cons in Hw as [Ha _].
  unfold skb_v4_is_loopback, ipv4_is_loopback. change (be_bytes 4 0xff000000) with [0xff; 0; 0; 0]. change (be_bytes 4 0x7f000000) with [0x7f; 0; 0; 0].
  unfold land_bytes. cbn [zip_with]. rewrite land_ff_id, !Z.land_0_r by done. apply eq_true_iff_eq. rewrite bool_decide_eq_true, Z.eqb_eq.
  split; [by intros [= ->]|by intros ->].
Qed.

(** The decoder of the agent on the record. *)
Lemma backstop_decodes now af ipproto daddr dport : 0 <= now < 2 ^ 64 -> length daddr = 16%nat -> length dport = 2%nat -> wf_bytes dport ->
  decodeEgressBackstopEvent (backstop_record now af ipproto daddr dport) = Ret (Some (mkBackstop now 0 af ipproto daddr (be_val dport) (replicate 16 0))).
Proof.
  intros Hn Hd Hl Hw. rewrite <- (egress_backstop_layout (mkBackstop now 0 af ipproto daddr (be_val dport) (replicate 16 0)) [0; 0] (replicate 6 0) []).
  - unfold egress_backstop_event, backstop_record. cbn [eb_ts eb_pid eb_af eb_ipproto eb_daddr eb_dport eb_comm concat]. rewrite !app_nil_r. by rewrite <- Hl, be_bytes_be_val.
  - exact Hn.
  - done.
  - done.
  - done.
  - unfold len. cbn [eb_daddr]. by rewrite Hd.
  - unfold u16. cbn [eb_dport]. pose proof (be_val_bounds dport Hw) as Hb. unfold len in Hb. by rewrite Hl in Hb.
  - done.
Qed.

Lemma load_ok pkt off n : 0 <= off -> off + Z.of_nat n <= len pkt -> load pkt off n = Some (take n (drop (Z.to_nat off) pkt)).
Proof. intros. unfold load. by rewrite (proj2 (Z.leb_le _ _)). Qed.

(** An IPv4 header as the hook reads it, and an IPv6 header. *)
Record ipv4_packet (pkt daddr : bytes) (ipproto : Z) : Prop := {
  v4_version : exists v, load pkt 0 1 = Some [v] /\ Z.shiftr v 4 = 4;
  v4_proto : load pkt 9 1 = Some [ipproto];
  v4_daddr : load pkt 16 4 = Some daddr;
  v4_wf : length daddr = 4%nat /\ wf_bytes daddr }.
Record ipv6_packet (pkt daddr : bytes) (nexthdr : Z) : Prop := {
  v6_version : exists v, load pkt 0 1 = Some [v] /\ Z.shiftr v 4 = 6;
  v6_proto : load pkt 6 1 = Some [nexthdr];
  v6_daddr : load pkt 24 16 = Some daddr;
  v6_wf : length daddr = 16%nat /\ wf_bytes daddr }.

(** The packet hook is the check of the cgroup hooks: it reports a packet, once
    per destination and second, exactly when they would have denied its
    destination, and is silent on all others. *)
Theorem backstop_flags_denied k room now1 now2 lru pkt daddr proto st :
  (ipv4_packet pkt daddr proto -> exists dport,
     defend_skb_egress k room now1 now2 lru pkt st =
       if kernel_allows (cg_maps k) daddr then st else report room now1 now2 lru AF_INET proto (daddr ++ replicate 12 0) dport st) /\
  (ipv6_packet pkt daddr proto -> exists dport,
     defend_skb_egress k room now1 now2 lru pkt st =
       if negb (defense_enabled (cg_maps k)) || allows6 k daddr then st else report room now1 now2 lru AF_INET6 proto daddr dport st).
Proof.
  split; intros [(v & Ev & Hv) Ep Ed [Hl Hw]]; unfold defend_skb_egress; rewrite Ev, Hv, Ep, Ed; cbn [Z.eqb Pos.eqb].
  - eexists. unfold kernel_allows. rewrite skb_loopback_spec by done. destruct (negb _); [done|]. cbn [orb].
    destruct (ipv4_is_loopback daddr) eqn:El; [unfold dst_in_ignored; rewrite El; done|].
    destruct (dst_in_ignored _ _); [done|]. cbn [orb]. by destruct (dst_is_allowlisted _ _).
  - eexists. set (ctx := mkSockAddr 0 [] daddr []).
    assert (allows6 k daddr = (defend_cgroup_sock_addr_ipv6 ObserveConnect k (mkTask 0 []) true ctx (mkHookState [] 0 0 0)).1) as -> by (symmetry; by apply hook6_decides).
    destruct (negb _) eqn:Hd; [done|]. apply negb_false_iff in Hd. cbn [orb].
    rewrite <- (proj1 (v6_enforce_agrees ObserveConnect k (mkTask 0 []) true ctx (mkHookState [] 0 0 0) Hd)). unfold lsm_v6_enforce. cbn [user_ip6 ctx].
    destruct (skb_v6_is_loopback _); [done|]. destruct (coldstep_ipv6_is_unspecified _); [done|]. destruct (skb_v6_is_link_local _); [done|].
    destruct (skb_v6_is_v4mapped _); [destruct (dst_in_ignored _ _); [done|]; by destruct (dst_is_allowlisted _ _)|]. by destruct (skb_v6_is_allowlisted _ _).
Qed.

Definition recent (now : Z) (a16 : bytes) (st : skbState) : bool :=
  match skb_backstop_seen st !! a16 with Some last_ => (now - last_) mod 2 ^ 64 <? COLDSTEP_SKB_BACKSTOP_COOLDOWN_NS | None => false end.

(** A report, unless the destination was reported less than a second ago: one
    record that the agent decodes to the destination, the protocol and the port,
    or one more failure where the ring is full. *)
Theorem backstop_report room now1 now2 lru af proto a16 dport st :
  0 <= now2 < 2 ^ 64 -> length a16 = 16%nat -> length dport = 2%nat -> wf_bytes dport ->
  let st' := report room now1 now2 lru af proto a16 dport st in
  if recent now1 a16 st then st' = st
  else if room then exists raw, skb_backstop_events st' = skb_backstop_events st ++ [raw] /\
         skb_backstop_reserve_failures st' = skb_backstop_reserve_failures st /\
         decodeEgressBackstopEvent raw = Ret (Some (mkBackstop now2 0 af proto a16 (be_val dport) (replicate 16 0)))
  else skb_backstop_events st' = skb_backstop_events st /\ skb_backstop_reserve_failures st' = (skb_backstop_reserve_failures st + 1) mod 2 ^ 32.
Proof.
  intros Hn Ha Hl Hw. unfold report, recent, skb_backstop_recently_seen.
  destruct (skb_backstop_seen st !! a16) as [last_|]; [destruct (_ <? _); [done|]|];
    (destruct room; [eexists; split; [done|]; split; [done|by apply backstop_decodes]|done]).
Qed.

(** A packet to 8.8.8.8 that bypassed the socket hooks; one to 10.1.2.3. *)
Definition packet (dst : bytes) : bytes := [0x45; 0; 0; 28; 0; 0; 0; 0; 64; 17; 0; 0; 10; 0; 0; 9] ++ dst ++ [4; 0; 0; 53; 0; 8; 0; 0].
Definition maps10 : cgroupMaps := mkCgroupMaps (mkKernel {[ 0 := 1 ]} {[ lpmKey 8 [10; 0; 0; 0] := 1 ]} ∅ ∅ ∅) ∅.

Example backstop_ex : map (fun dst => map (fun raw => decodeEgressBackstopEvent raw)
    (skb_backstop_events (defend_skb_egress maps10 true 5 6 id (packet dst) (mkSkbState [] 0 ∅)))) [[8; 8; 8; 8]; [10; 1; 2; 3]] =
  [[Ret (Some (mkBackstop 6 0 2 17 ([8; 8; 8; 8] ++ replicate 12 0) 53 (replicate 16 0)))]; []].
Proof. vm_compute. reflexivity. Qed.
